(* ===== verification/_CoqProject ===== *)
-Q . S2P
Prelude.v
StateMonad.v
GoLib.v
GoNet.v
GoText.v
GoJson.v
CtrlTypes.v
ProtoTypes.v
AgentTypes.v
PolicyEngine.v
Graph.v
Cache.v
Aggregator.v
DPClient.v
AgentPolicy.v
GrpcServer.v
GrpcClient.v
AgentEngine.v
Rest.v
Locks.v
TCCapture.v
NFQueue.v
Monitor.v
AgentMain.v
System.v
TimerWheel.v
NvPorts.v
NvSubnet.v
NvPolicyTypes.v
NvPolicyCalc.v
NvPolicySpec.v
NvPolicyLookup.v
NvDPCtrl.v
NvBitmap.v
NvFqdn.v
NvDPTable.v
NvDPEquiv.v
NvDPCfg.v
NvDPVerdict.v
NvTree.v
NvAsm.v
NvFrag.v
NvDPWire.v
NvCriteria.v
NvAccessObj.v
NvRoles.v
NvAccess.v
NvAccessUri.v
NvRoleApi.v
NvScheduler.v
NvVersion.v
NvProcess.v
NvRuleId.v
NvScannerLB.v
