(* ===== verification/Prelude.v ===== *)
(** * micro-segment: a verification development

    micro-segment enforces network policies between containers.  Agents on the
    hosts capture the traffic of the containers, summarise the connections the
    data plane reports and send them to a controller; the controller keeps the
    inventory, the topology and the rules, serves a REST API and distributes
    the rules to the agents.  This library models the Go code of both sides
    (src/micro-segment/internal and src/micro-segment/cmd) and, of the NeuVector
    sources next to it from which it was derived (src/agent, src/controller,
    src/share, src/dp), the calculation of network policies with all it calls,
    the part of the data plane, in C, that enforces them, the verdicts on
    processes, and of the controller its access control, roles, scheduler,
    rule identifiers and scanner credits.  It proves what
    the code guarantees, and, where the code does not do what it is meant to,
    what it does instead.

    ** The program and the files

    Controller (src/micro-segment/internal/controller)
    - [CtrlTypes]: types.go, the records of groups, rules, workloads, ...
    - [PolicyEngine]: policy/policy.go, the rules, their order and the matching
      of a connection.
    - [Graph]: graph/graph.go, the labelled graph of workloads with its
      callbacks, refined to a map of links [graphSpec]; [GraphContract] is the
      interface the cache relies on.
    - [Cache]: cache/cache.go, the inventory, against [GraphContract].
    - [GrpcServer]: grpc/server.go, agents, heartbeats, reports, policies.
    - [Rest]: rest/handler.go and rest/router.go, the API over [Controller],
      the pair of the cache and the policy engine.
    - [Locks]: the mutexes of the four components and of the captures.

    Agent (src/micro-segment/internal/agent, src/micro-segment/cmd/agent)
    - [AgentTypes]: types.go.
    - [Aggregator]: connection/aggregator.go, the connections between reports.
    - [DPClient]: dp/client.go, the socket to the data plane.
    - [AgentPolicy]: policy/network.go, the rules sent to the data plane.
    - [GrpcClient]: grpc/client.go, the agent's side of the RPCs.
    - [AgentEngine]: engine/engine.go, which owns the four above.
    - [TCCapture], [NFQueue]: network/tc_traffic_capture.go and
      network/traffic_capture.go, the two ways of capturing a container.
    - [Monitor]: network/container_monitor.go and network/manager.go.
    - [AgentMain]: cmd/agent/main.go, start and shutdown of the process.

    NeuVector enforcer and its utilities (src/agent, src/controller, src/share)
    - [NvPorts]: the port lists of rules, as text: share/utils/utils.go prints,
      parses and intersects them, controller/rest/policy.go normalises what a
      user wrote.
    - [NvSubnet]: addresses, ranges and subnets of share/utils/utils.go.
    - [NvPolicyTypes], [NvPolicyCalc]: agent/policy/network.go, from the group
      policies the controller distributes to the IP rules of each workload
      ([UpdateNetworkPolicy]); [NvPolicySpec] holds its theorems.
    - [NvPolicyLookup]: the same file, the verdict of a connection of a workload
      in host mode ([HostNetworkPolicyLookup]) and the addresses not known yet.
    - [NvDPCtrl]: agent/dp/ctrl.go, the messages that carry rules, addresses,
      names and DLP rules to the data plane.
    - [TimerWheel]: share/utils/timer_wheel.go.
    - [NvVersion]: share/utils/version.go, versions of packages.
    - [NvProcess]: agent/policy/process.go, agent/group_profile.go and
      agent/system.go, the process profile of a container and the verdict on a
      process it starts.

    NeuVector controller (src/controller, src/share)
    - [NvCriteria]: share/criteria.go, the workloads a group selects, over a
      regexp engine that is a parameter of it and of [NvAccess].
    - [NvAccessObj]: share/access.go and the permissions of share/clus_apis.go,
      the namespaces of each kind of object ([GetDomain]).
    - [NvRoles]: controller/access/access.go, the registry of roles, and the
      conversions of a role between the API, the store and the registry.
    - [NvAccess]: controller/access/access.go, what a caller may do with an
      object ([Authorize]), over [NvAccessObj] and [NvRoles].
    - [NvAccessUri]: the same file, the permissions a request needs, and the
      routes of controller/rest/rest.go.
    - [NvRoleApi]: controller/rest/custom_role.go, controller/kv/helper.go and
      controller/cache/custom_role.go, the life of a custom role between the
      requests, the store and the registry, over [NvAccess].
    - [NvScheduler]: controller/scheduler/scheduler.go, the queue of tasks, its
      worker and its callers.
    - [NvRuleId]: controller/ruleid/rule_uuid.go, the identifiers of process
      rules, over the profiles of [NvProcess] and [NvAccess].
    - [NvScannerLB]: controller/scannerlb/scanner_load_balancer.go and
      controller/rpc/scanner.go, which scanner runs a scan.

    NeuVector data plane (src/dp, of which src/micro-segment/internal/dp is a
    near copy)
    - [NvBitmap]: utils/bitmap.c, the allocation of numbers.
    - [NvFqdn]: dpi/dpi_policy.c, the table of domain names, and the messages
      of ctrl.c about names; it allocates its codes with [NvBitmap].
    - [NvDPTable]: dpi/dpi_policy.c, the tables of a policy, how rules are put
      into them and looked up, policy messages and endpoints; it asks [NvFqdn]
      for names.
    - [NvDPEquiv]: the tables against a list of rules, of which the first that
      covers a packet decides.
    - [NvDPCfg]: the life of handles and endpoints under every sequence of
      operations, and policies that arrive in several messages.
    - [NvDPWire]: ctrl.c, from the JSON text of the agent ([NvDPCtrl]) to the
      tables.
    - [NvDPVerdict]: dpi/dpi_policy.c, dpi/dpi_packet.c and dpi/dpi_session.c,
      the verdict of a packet, its reevaluation, and what becomes of the
      packets of a session.
    - [NvTree], [NvAsm], [NvFrag]: utils/tree.c, utils/asm.c and
      dpi/dpi_frag.c, the assembly of IPv4 fragments.

    Shared: [Prelude] (this file), [StateMonad], [GoLib], [GoNet], [GoText] and
    [GoJson] (what the code uses of the packages strings, strconv, fmt, sort,
    net and encoding/json), [ProtoTypes] (api/proto/microseg.proto).  [System]
    puts agent and controller together.

    ** How the code is modelled

    A struct is a [Record], a method a function from the state (and its
    arguments) to the new state and the results; every definition can be
    evaluated.  A run-time panic is [Panicked] of [outcome], an [error] is
    [option string].  Unsigned integers are [Z] with [wrap] where the code
    converts or adds them.  The time is an argument.  The order in which a map
    is ranged over is an argument too, and theorems hold for every order
    ([visits]); [sort.Slice] is a sort of that order, so that ties are left
    open ([sort_slice]); where loops over maps are nested the orders are a
    function [order] of the execution point, a path of loop indices, that
    permutes its argument.  Goroutines, timers and the calls of other threads are
    step relations ([agg_step], [dp_step], [ctl_step], [tc_step], [mgr_step],
    [lock_step], [sched_step], [role_step], [rule_step], [scan_step]), and theorems speak of every state a run reaches.

    In the C code an object that is shared or freed is an entry of a heap at
    an address, and reading one that is not there, or beyond the end of an
    array, is [invalid_access]; so a theorem that a call is [Done] says that it
    touches no freed memory.  Where a hash table holds several nodes with a
    key, the one a lookup returns is an argument ([pick]), and so is the order
    in which it is walked.  Addresses and ports are numbers in host order, and
    what a packet thread sees of the global settings is a record ([dp_env]).

    Code outside the repository is a parameter: the gRPC calls, JSON decoding,
    DNS ([lookup]), the success of a write to the data plane ([send]), the
    identifiers drawn for timers ([guid]), the shell and netlink ([world], an
    arbitrary answer to each command given the ones before), Docker,
    [net.ParseMAC], [net.InterfaceByName], the JSON parser of the data plane
    ([loads]); and so are the protocol parsers ([parser]) and the pattern
    matches of the data plane, of which only the effect on the action of a
    packet is used; likewise the regexp engine ([Compile]), the load of a
    profile from the store, the hash of a file, the generator of identifiers
    and the connection to a scanner.  The
    hypotheses on them are stated in the theorems and shown to be satisfiable
    by the witnesses.

    ** What is proved

    - Policies: every reachable engine is consistent; a match is that of the
      first matching rule of the order and, when the order is sorted, of the
      least priority value; adding and deleting sort, updating does not.
    - Graph: after any run of calls ([graph_run]) the graph represents exactly
      the map of links that the calls specify; what each operation does to that
      map and which callbacks it makes.
    - Cache: after any run of calls ([cache_run]) the cache is consistent with
      its graph; the topology that is served is exactly the workloads and
      connections that the calls of the run have stored; the references of
      groups to policies are sound.
    - Aggregator: a key identifies a flow; bytes, sessions and violations of
      each flow are conserved through every interleaving of reports and ticks;
      repeated flushes hand everything over.
    - Data-plane, gRPC and server life cycles: timeouts, heartbeats, stale
      readers, reconnects.
    - REST: an error answer changes nothing, GET and unknown methods change
      nothing, a policy created is found and can be deleted.
    - Captures: the addresses given to captured interfaces are distinct; only
      eligible containers are captured; what is leaked or deleted by mistake.
    - Locks: calls that take locks in order always finish; three methods that
      do not can hang.
    - Policy calculation: it returns for every distribution whose address groups
      are made of pairs; the rules it computes are well formed; a workload that
      cannot block, or is in Discover or Monitor mode, gets no rule and no
      verdict that blocks, from the distribution to the lookup of a connection;
      a workload in Protect mode denies what no rule matches, except for
      addresses not known yet, of which it is shown how long they are let
      through; two rules can have the same key.
    - Port lists: what a list covers is kept by printing, parsing,
      normalisation and intersection, within the ranges of ports; where numbers
      are truncated and lists widened.
    - Subnets: containment, merging without loss, the smallest enclosure.
    - Messages: sending ends; the messages fit, carry the rules in order and
      mark start and end; what fits alone is delivered; the DLP variant can
      send empty messages for ever.
    - Timer wheel: a task expires exactly once, at the tick its delay asks for,
      or an hour later for a whole number of hours.
    - Tables of the data plane: they give every packet the verdict of the
      first rule that covers it, wherever rules are consulted and the settings
      agree; where they do not, a later rule can win.  This holds from the
      rules of the agent, over the messages, to the lookup
      ([agent_policy_enforced]).
    - Handles of the data plane: under every sequence of messages, endpoints
      and names no handle is freed while in use, leaked or read after it was
      freed; the only step that can fault is the deletion of names with
      debugging on, which prints records it has freed, or a policy whose handle
      could not be allocated ([may_fault]).
    - Domain names: without debugging no sequence of calls touches freed memory,
      and with it only the deletions do; deletions end and remove exactly the
      names asked for, answers of the DNS reach exactly the names that match.
    - Packets of the data plane: the verdict of the first packet of a
      connection; the next packet of a session looks its policy up again when
      the policy has changed, under the conditions the code puts on it
      ([looks_again]); off tap mode no packet of a denied session passes, in
      any run of inspections ([session_run]); after tap mode one can.
    - Fragments: in whatever order they arrive the last one, and none before,
      gives the datagram back; the assembly stays in its buffers as long as the
      pieces lie in a window of half the range of positions, and reads out of
      bounds when they do not; a fragment that leaves a hole is let through.
    - Access control: a caller with roles on namespaces only is let in exactly
      for the objects of these namespaces; only fedAdmin, or the permission of
      the federation, writes an object of the federation; a request needs the
      permissions of the table entry it matches, in whichever order the tables
      were compiled, and every route but one matches an entry.
    - Roles: what a user gives a custom role is what the API shows for it;
      under every sequence of requests and notifications the registry agrees
      with the store and the reserved roles do not change.
    - Groups: which workloads a list of criteria selects, for each order of it.
    - Processes: the verdict on a process in Protect mode is that of the first
      tier of rules that knows it, as the parent and the ability to block amend
      it, and only Protect mode denies.
    - Rule identifiers: the entry of every rule, and whether it is active, is
      that of the latest profiles, where no two profiles of a group wait at a
      time; a caller is shown the entries it may read.
    - Scheduler: a worker between two tasks loses no wake-up, so a waiting task
      reaches a free processor; the worker can block on its own channel.
    - Scanners: where scans go through the pool, the pool gives a scanner no
      more scans than it takes, and a scan waits only when all are full; scans
      by name add credits.
    - Versions: comparison orders those without release candidates and
      underscores; a version that is printed is read back.
    - System: the controller keeps its invariants under every sequence of
      requests and reports; connections, workloads and policies on their way
      between agent and controller.

    ** Bounds and fuel

    Recursion is structural except where a number of turns is given: the search
    for a free number makes the 65535 turns of the code's loop ([pref_turns]),
    and the parser of IPv6 addresses counts the groups an address can still
    have, as the loop it models stops after 16 bytes.  [flushes] counts the
    reports it takes to empty the aggregator, and [flushes_drain_all] says how
    many are enough.  The loops that send messages have the fuel [chunk_fuel],
    the items and the number per message together, as each turn sends an item
    or lowers that number ([DPCtrl_messages_end]); the loop of the DLP rules
    takes its fuel as an argument, since there is none that is enough.  The
    deletion of domain names makes at most one turn more than there are names
    ([delete_loop]), and within each at most one more than there are addresses
    ([ipv4_passes]), as a turn that is followed by another deletes some;
    [fqdn_delete_exact] shows that they are enough.  The comparison of versions
    has the length of both texts as its fuel, as each turn reads a character
    ([verrevcmp_loop_fuel]).  The bitmap looks at the 32 bits of a word.
    Theorems about pieces and fragments bound positions by half of 2^32, as the
    comparison of positions does, and datagrams by the buffer of 65536 bytes;
    those about tables bound the rules by the 32 bits of their order.

    ** What is not modelled

    Logging, flags, the gRPC and HTTP runtimes, the JSON answers of the REST API
    and the code that protoc generates; [GetContainerStats] of the monitor,
    which only decodes an answer of Docker; the web console.  Of the data
    plane: packet input and output, threads, sessions and TCP, the protocol
    parsers, pattern matching, logs, meters, IPv6 fragments and failures of
    memory allocation other than that of a handle; the control thread and the
    packet threads take turns, with the settings each of them sees as an
    argument.  Of the other NeuVector sources, what is not listed above: the event
    loops of agent and controller around the cluster store, the container
    runtimes and Kubernetes, the REST handlers other than those of custom
    roles, the databases and the scanner itself, which are mostly input, output
    and conversion of data through packages that are not in the repository;
    the hand-over of process profiles to the probe of the kernel, the profiles
    of files and the members of groups the enforcer keeps; the graph of
    src/controller/graph, from which that of micro-segment was derived; the
    session behind a request ([getAccessControl]), of which the resulting roles
    are arguments.  Where several goroutines share the
    domain names and the unknown addresses of the enforcer, their calls are
    taken one after the other.  Equality of policies ([reflect.DeepEqual]) does
    not tell a nil slice from an empty one. *)

From Stdlib Require Import ZArith Lia.
From stdpp Require Export gmap strings list sorting pretty numbers relations.

(** ** Go values and effects

    [outcome A] is what a Go call yields: a value, or a run-time panic (a nil
    dereference, an index out of range, the close of a closed channel).  A Go
    [error] result is [option string]: [None] is [nil]. *)
Inductive outcome (A : Type) : Type :=
| Done (a : A)
| Panicked (why : string).
Arguments Done {A} a.
Arguments Panicked {A} why.

#[export] Instance outcome_ret : MRet outcome := @Done.

#[export] Instance outcome_bind : MBind outcome :=
  fun _ _ f r => match r with Done a => f a | Panicked w => Panicked w end.

#[export] Instance outcome_fmap : FMap outcome :=
  fun _ _ f r => match r with Done a => Done (f a) | Panicked w => Panicked w end.

Abbreviation go_error := (option string) (only parsing).

Definition panics {A} (r : outcome A) : Prop :=
  match r with Done _ => False | Panicked _ => True end.

#[export] Instance outcome_eq_dec {A} `{EqDecision A} : EqDecision (outcome A).
Proof. solve_decision. Defined.

Lemma outcome_bind_done {A B} (r : outcome A) (f : A -> outcome B) b :
  r ≫= f = Done b <-> exists a, r = Done a /\ f a = Done b.
Proof. destruct r; naive_solver. Qed.

Lemma outcome_not_panics {A} (r : outcome A) :
  ~ panics r <-> exists a, r = Done a.
Proof. destruct r; naive_solver. Qed.

(** ** Machine integers

    A [w]-bit unsigned integer is a [Z] kept in [0, 2^w) by [wrap w]. *)
Definition wrap (w : Z) (x : Z) : Z := (x mod 2 ^ w)%Z.
Abbreviation u8 := (wrap 8).
Abbreviation u16 := (wrap 16).
Abbreviation u32 := (wrap 32).
Abbreviation u64 := (wrap 64).

Definition in_width (w x : Z) : Prop := (0 <= x < 2 ^ w)%Z.

Lemma wrap_in_width w x : (0 <= w)%Z -> in_width w (wrap w x).
Proof. intros Hw. apply Z.mod_pos_bound. lia. Qed.

Lemma wrap_small w x : in_width w x -> wrap w x = x.
Proof. apply Z.mod_small. Qed.

Lemma wrap_wrap_le v w x :
  (0 <= v <= w)%Z -> in_width v x -> wrap w x = x.
Proof.
  intros Hw [Hx1 Hx2]. apply wrap_small. split; [done|].
  pose proof (Z.pow_le_mono_r 2 v w). lia.
Qed.

Lemma wrap_add_l w x y : wrap w (wrap w x + y) = wrap w (x + y).
Proof. apply Zplus_mod_idemp_l. Qed.

Lemma wrap_add_r w x y : wrap w (x + wrap w y) = wrap w (x + y).
Proof. apply Zplus_mod_idemp_r. Qed.

(** ** Map ranges

    [for k, v := range m] visits the entries of [m] in an order the language
    leaves open, and another one at each execution.  A definition that ranges
    over a map takes the order of that execution as an argument; [visits]
    says that it is one. *)
Definition visits {K V} `{Countable K} (ord : list (K * V)) (m : gmap K V) : Prop :=
  ord ≡ₚ map_to_list m.

Definition visits_keys {K V} `{Countable K} (ord : list K) (m : gmap K V) : Prop :=
  ord ≡ₚ (map_to_list m).*1.

Section visits.
Context {K V : Type} `{Countable K}.
Implicit Types (m : gmap K V).

Lemma visits_elem_of ord m k v :
  visits ord m -> (k, v) ∈ ord <-> m !! k = Some v.
Proof. unfold visits. intros ->. by rewrite elem_of_map_to_list. Qed.

Lemma visits_length ord m : visits ord m -> length ord = size m.
Proof. unfold visits. intros ->. by rewrite length_map_to_list. Qed.

Lemma visits_NoDup ord m : visits ord m -> NoDup ord.*1.
Proof. unfold visits. intros ->. apply NoDup_fst_map_to_list. Qed.

Lemma visits_NoDup_pairs ord m : visits ord m -> NoDup ord.
Proof. intros Hv. by eapply NoDup_fmap_1, visits_NoDup. Qed.

Lemma visits_list_to_map ord m : visits ord m -> list_to_map ord = m.
Proof.
  intros Hv. rewrite (list_to_map_proper ord (map_to_list m));
    [apply list_to_map_to_list| |done].
  by eapply visits_NoDup.
Qed.

Lemma visits_refl m : visits (map_to_list m) m.
Proof. by unfold visits. Qed.

Lemma visits_keys_refl m : visits_keys (map_to_list m).*1 m.
Proof. by unfold visits_keys. Qed.

Lemma visits_keys_elem_of ord m k :
  visits_keys ord m -> k ∈ ord <-> is_Some (m !! k).
Proof.
  unfold visits_keys. intros ->. rewrite list_elem_of_fmap. split.
  - intros ([k' v] & -> & Hin). rewrite elem_of_map_to_list in Hin. by eexists.
  - intros [v Hv]. exists (k, v). by rewrite elem_of_map_to_list.
Qed.

Lemma visits_keys_NoDup ord m : visits_keys ord m -> NoDup ord.
Proof. unfold visits_keys. intros ->. apply NoDup_fst_map_to_list. Qed.

Lemma visits_keys_length ord m : visits_keys ord m -> length ord = size m.
Proof. unfold visits_keys. intros ->. by rewrite length_fmap, length_map_to_list. Qed.

Lemma visits_keys_intro ord m :
  NoDup ord -> (forall k, k ∈ ord <-> is_Some (m !! k)) -> visits_keys ord m.
Proof.
  intros Hnd Hin. apply NoDup_Permutation; [done|apply NoDup_fst_map_to_list|].
  intros k. rewrite Hin. symmetry. by apply visits_keys_elem_of, visits_keys_refl.
Qed.
#[export] Instance visits_keys_dec ord m : Decision (visits_keys ord m).
Proof. unfold visits_keys. apply _. Defined.

#[export] Instance visits_dec `{EqDecision V} ord m : Decision (visits ord m).
Proof. unfold visits. apply _. Defined.
End visits.

(** ** sort.Slice

    [sort.Slice(s, less)] leaves a permutation of [s] in which no element is
    less than an earlier one, and promises nothing about equal elements.  It
    is modelled by the stable sort of [s]; a slice filled by a map range is
    sorted from every order of the range, and then the stable sort reaches
    every result the unstable one can ([sort_slice_reaches]). *)
Fixpoint sort_insert {A} (less : A -> A -> bool) (x : A) (l : list A) : list A :=
  match l with
  | [] => [x]
  | y :: l' => if less y x then y :: sort_insert less x l' else x :: l
  end.

Definition sort_slice {A} (less : A -> A -> bool) (l : list A) : list A :=
  foldr (sort_insert less) [] l.

(** No element is less than one before it. *)
Definition slice_sorted {A} (less : A -> A -> bool) : list A -> Prop :=
  StronglySorted (fun x y => less y x = false).

Section sort_slice.
Context {A : Type} (less : A -> A -> bool).

Lemma sort_insert_perm x l : sort_insert less x l ≡ₚ x :: l.
Proof.
  induction l as [|y l IH]; simpl; [done|].
  destruct (less y x); [|done]. rewrite IH. apply Permutation_swap.
Qed.

Lemma sort_slice_perm l : sort_slice less l ≡ₚ l.
Proof. induction l as [|x l IH]; simpl; [done|]. by rewrite sort_insert_perm, IH. Qed.

(** The comparison is a strict weak order, as [sort.Slice] asks for. *)
Context (less_asym : forall x y, less x y = true -> less y x = false).
Context (less_cotrans : forall x y z, less x z = true -> less x y = true \/ less y z = true).

Lemma sort_insert_sorted x l :
  slice_sorted less l -> slice_sorted less (sort_insert less x l).
Proof.
  unfold slice_sorted. induction 1 as [|y l Hl IH Hy]; simpl.
  - by repeat constructor.
  - destruct (less y x) eqn:Hyx.
    + constructor; [done|]. rewrite sort_insert_perm.
      constructor; [by apply less_asym|done].
    + constructor; [by constructor|]. constructor; [done|].
      eapply Forall_impl; [exact Hy|]. intros z Hz; simpl in Hz.
      destruct (less z x) eqn:Hzx; [|done].
      destruct (less_cotrans z y x Hzx); congruence.
Qed.

Lemma sort_slice_sorted l : slice_sorted less (sort_slice less l).
Proof. induction l; simpl; [constructor|]. by apply sort_insert_sorted. Qed.

Lemma sort_slice_id l : slice_sorted less l -> sort_slice less l = l.
Proof.
  induction 1 as [|x l Hl IH Hx]; simpl; [done|]. rewrite IH.
  destruct l as [|y l]; simpl; [done|]. inversion_clear Hx as [|?? Hy _].
  by rewrite Hy.
Qed.

Lemma sort_slice_reaches l l' :
  l' ≡ₚ l -> slice_sorted less l' -> exists l0, l0 ≡ₚ l /\ sort_slice less l0 = l'.
Proof. intros Hp Hs. exists l'. split; [done|]. by apply sort_slice_id. Qed.
End sort_slice.

(** ** Lists *)

Lemma list_find_bool_None {A} (f : A -> bool) (l : list A) :
  List.find f l = None <-> Forall (fun x => f x = false) l.
Proof.
  induction l as [|x l IH]; simpl; [done|].
  rewrite Forall_cons, <-IH. destruct (f x); naive_solver.
Qed.

(** The first element that satisfies [f], with what precedes it. *)
Lemma list_find_bool_Some {A} (f : A -> bool) (l : list A) x :
  List.find f l = Some x <->
  exists l1 l2, l = l1 ++ x :: l2 /\ f x = true /\ Forall (fun y => f y = false) l1.
Proof.
  induction l as [|y l IH]; simpl.
  - split; [done|]. intros (l1 & l2 & Hl & _). by destruct l1.
  - destruct (f y) eqn:Hy.
    + split.
      * intros [= ->]. by exists [], l.
      * intros (l1 & l2 & Hl & Hx & Hl1). destruct l1 as [|z l1]; simplify_eq/=; [done|].
        inversion Hl1; congruence.
    + rewrite IH. split.
      * intros (l1 & l2 & -> & Hx & Hl1). exists (y :: l1), l2. auto.
      * intros (l1 & l2 & Hl & Hx & Hl1). destruct l1 as [|z l1]; simplify_eq/=; [congruence|].
        inversion_clear Hl1. eauto.
Qed.

(** In a sorted slice an element before [x] is not greater than [x]. *)
Lemma slice_sorted_app_le {A} (less : A -> A -> bool) l1 x l2 y :
  slice_sorted less (l1 ++ x :: l2) -> y ∈ l2 -> less y x = false.
Proof.
  unfold slice_sorted. intros Hs%StronglySorted_app_1_r Hy.
  inversion_clear Hs as [|?? _ Hall]. rewrite Forall_forall in Hall. by apply Hall.
Qed.

Lemma slice_sorted_ext {A} (less less' : A -> A -> bool) l :
  (forall x y, less x y = less' x y) -> slice_sorted less l -> slice_sorted less' l.
Proof.
  intros Heq. unfold slice_sorted. induction 1 as [|x l Hl IH Hx]; constructor; [done|].
  eapply Forall_impl; [exact Hx|]. intros y Hy; simpl in *. by rewrite <-Heq.
Qed.

(** ** Step relations *)

(** A property every step preserves holds in every reachable state. *)
Lemma rtc_invariant {S} (R : relation S) (P : S -> Prop) (a b : S) :
  (forall x y, R x y -> P x -> P y) -> P a -> rtc R a b -> P b.
Proof. intros HR Ha Hab. induction Hab; eauto. Qed.

(** ** Automation *)

Create HintDb microseg.
#[export] Hint Resolve visits_refl visits_keys_refl wrap_in_width : microseg.

(** Closed decidable goals by evaluation. *)
Ltac vm_decide := apply (bool_decide_unpack _); vm_compute; exact I.

(** Case analysis on the matches and the [if]s of the goal, closing what
    simplification closes. *)
Ltac go_cases :=
  repeat (case_match || case_decide || case_bool_decide); simplify_eq/=; auto.
