(* ===== verification/StateMonad.v ===== *)
(** * Programs over a state

    A state monad for the code that threads a struct and the commands it runs
    through many calls, the loop over a slice, and the rules for reasoning
    about such programs with a precondition and a postcondition. *)

From S2P Require Import Prelude.

Definition SM (S A : Type) : Type := S -> A * S.
#[export] Instance SM_ret S : MRet (SM S) := fun _ a s => (a, s).
#[export] Instance SM_bind S : MBind (SM S) := fun _ _ f m s => let '(a, s') := m s in f a s'.

Section programs.
Context {S : Type}.

Definition get_st : SM S S := fun s => (s, s).
Definition modify_st (f : S -> S) : SM S unit := fun s => (tt, f s).

(** A loop over a slice. *)
Fixpoint for_each {A} (l : list A) (body : A -> SM S unit) : SM S unit :=
  match l with [] => mret tt | x :: l' => _ ← body x; for_each l' body end.

(** From a state with [P], [m] gives a result and a state with [Q]. *)
Definition triple {A} (P : S -> Prop) (m : SM S A) (Q : A -> S -> Prop) : Prop :=
  forall s, P s -> Q (m s).1 (m s).2.

Lemma triple_ret {A} (P : S -> Prop) (a : A) (Q : A -> S -> Prop) :
  (forall s, P s -> Q a s) -> triple P (mret a) Q.
Proof. intros H s Hs. by apply H. Qed.

Lemma triple_bind {A B} P (m : SM S A) Q (f : A -> SM S B) R :
  triple P m Q -> (forall a, triple (Q a) (f a) R) -> triple P (m ≫= f) R.
Proof.
  intros Hm Hf s Hs. specialize (Hm s Hs). unfold mbind, SM_bind.
  destruct (m s) as [a s']. by apply Hf.
Qed.

Lemma triple_read {A} s0 (f : S -> SM S A) Q :
  triple (fun s => s = s0) (f s0) Q -> triple (fun s => s = s0) (get_st ≫= f) Q.
Proof. intros H s ->. by apply H. Qed.

Lemma triple_modify P f (Q : unit -> S -> Prop) :
  (forall s, P s -> Q tt (f s)) -> triple P (modify_st f) Q.
Proof. intros H s Hs. by apply H. Qed.

Lemma triple_weaken {A} (P P' : S -> Prop) (m : SM S A) (Q Q' : A -> S -> Prop) :
  (forall s, P s -> P' s) -> triple P' m Q' -> (forall a s, Q' a s -> Q a s) -> triple P m Q.
Proof. intros HP Hm HQ s Hs. apply HQ, Hm, HP, Hs. Qed.

(** The programs that keep [P]. *)
Definition runs (P : S -> Prop) {A} (m : SM S A) : Prop := triple P m (fun _ => P).

Lemma runs_ret P {A} (a : A) : runs P (mret a).
Proof. by apply triple_ret. Qed.
Lemma runs_bind P {A B} (m : SM S A) (f : A -> SM S B) :
  runs P m -> (forall a, runs P (f a)) -> runs P (m ≫= f).
Proof. intros Hm Hf. by eapply triple_bind. Qed.
Lemma runs_read P {A} (f : S -> SM S A) : (forall s, runs P (f s)) -> runs P (get_st ≫= f).
Proof. intros Hf s Hs. by apply Hf. Qed.
Lemma runs_for_each P {A} (l : list A) body : (forall a, runs P (body a)) -> runs P (for_each l body).
Proof. intros Hb. induction l as [|a l IH]; simpl; [apply runs_ret|]. by apply runs_bind. Qed.
End programs.

Create HintDb runs.
#[export] Hint Resolve runs_ret runs_bind runs_for_each : runs.

(** Case analysis between the steps of a program that keeps a property. *)
Ltac runs_auto :=
  repeat match goal with
  | |- runs _ (mret _) => apply runs_ret
  | |- runs _ (get_st ≫= _) => apply runs_read; intros ?
  | |- runs _ (_ ≫= _) => apply runs_bind; [|intros ?]
  | |- runs _ (match ?x with _ => _ end) => destruct x
  | |- runs _ (for_each _ _) => apply runs_for_each; intros ?
  | |- runs _ _ => solve [auto with runs]
  end.
