(* ===== verification/GoLib.v ===== *)
(** * What the code uses of the Go standard library

    Byte strings ([strings], [strconv], the verbs of [fmt] the code prints
    with) and [net.IP] with its textual forms.  A Go string is a sequence of
    bytes, here a [string] of [ascii]; a [net.IP] is a slice of bytes, here a
    list of [Z], with [[]] for a nil slice. *)

From Stdlib Require Import ZArith Lia Ascii.
From S2P Require Import Prelude.

(** ** Strings *)

(** [strings.HasPrefix(s, p)]. *)
Definition HasPrefix (s p : string) : bool := String.prefix p s.

(** [strings.Contains(s, sub)]. *)
Fixpoint Contains (s sub : string) : bool :=
  HasPrefix s sub ||
  match s with EmptyString => false | String _ s' => Contains s' sub end.

Fixpoint string_drop (n : nat) (s : string) : string :=
  match n, s with
  | O, _ => s
  | S _, EmptyString => EmptyString
  | S n', String _ s' => string_drop n' s'
  end.

(** [strings.TrimPrefix(s, p)]. *)
Definition TrimPrefix (s p : string) : string :=
  if HasPrefix s p then string_drop (String.length p) s else s.

(** [strings.Split(s, sep)] for a non-empty [sep]: [cur] holds the current
    piece reversed, [skip] the bytes of a separator still to pass over. *)
Fixpoint Split_go (sep : string) (skip : nat) (cur : string) (s : string) : list string :=
  match s with
  | EmptyString => [String.rev cur]
  | String c s' =>
      match skip with
      | S k => Split_go sep k cur s'
      | O => if HasPrefix s sep
             then String.rev cur :: Split_go sep (String.length sep - 1) "" s'
             else Split_go sep 0 (String c cur) s'
      end
  end.
Definition Split (s sep : string) : list string := Split_go sep 0 "" s.

(** [strings.ToLower] on ASCII. *)
Definition ascii_lower (c : ascii) : ascii :=
  let n := N_of_ascii c in
  if (65 <=? n)%N && (n <=? 90)%N then ascii_of_N (n + 32) else c.
Fixpoint ToLower (s : string) : string :=
  match s with EmptyString => EmptyString | String c s' => String (ascii_lower c) (ToLower s') end.

(** White space of ASCII, for [strings.TrimSpace] and [strings.Fields]. *)
Definition is_space (c : ascii) : bool :=
  let n := N_of_ascii c in ((9 <=? n)%N && (n <=? 13)%N) || (n =? 32)%N.

Fixpoint trim_left (s : string) : string :=
  match s with String c s' => if is_space c then trim_left s' else s | EmptyString => "" end.

(** [strings.TrimSpace(s)]. *)
Definition TrimSpace (s : string) : string := String.rev (trim_left (String.rev (trim_left s))).

(** [strings.Fields(s)]; [cur] holds the current field reversed. *)
Fixpoint Fields_go (cur : string) (s : string) : list string :=
  match s with
  | EmptyString => if bool_decide (cur = "") then [] else [String.rev cur]
  | String c s' =>
      if is_space c
      then (if bool_decide (cur = "") then [] else [String.rev cur]) ++ Fields_go "" s'
      else Fields_go (String c cur) s'
  end.
Definition Fields (s : string) : list string := Fields_go "" s.

(** [strings.Replace(s, old, new, 1)] for a non-empty [old]. *)
Fixpoint Replace1 (s old new : string) : string :=
  if HasPrefix s old then new +:+ string_drop (String.length old) s
  else match s with EmptyString => "" | String c s' => String c (Replace1 s' old new) end.

(** [fmt] verbs: [%d] and [%v] of an integer, [%v] of a bool. *)
Definition fmt_int (n : Z) : string := pretty n.
Definition fmt_bool (b : bool) : string := if b then "true" else "false".

(** [strings.Join(l, sep)]. *)
Definition Join (l : list string) (sep : string) : string := String.concat sep l.

Definition digit_of (c : ascii) : option Z :=
  let n := N_of_ascii c in
  if (48 <=? n)%N && (n <=? 57)%N then Some (Z.of_N n - 48)%Z else None.

(** [strconv.ParseUint(s, 10, bits)]: [None] is a syntax or a range error. *)
Fixpoint ParseUint_go (bits : Z) (acc : Z) (s : string) : option Z :=
  match s with
  | EmptyString => Some acc
  | String c s' =>
      d ← digit_of c;
      let acc' := (acc * 10 + d)%Z in
      if (acc' <? 2 ^ bits)%Z then ParseUint_go bits acc' s' else None
  end.
Definition ParseUint10 (s : string) (bits : Z) : option Z :=
  match s with EmptyString => None | _ => ParseUint_go bits 0 s end.

(** ** Occurrences of a byte, and strings joined by a byte they do not hold *)

Fixpoint has_byte (c : ascii) (s : string) : bool :=
  match s with EmptyString => false | String d s' => bool_decide (c = d) || has_byte c s' end.

Lemma has_byte_app c s1 s2 : has_byte c (s1 +:+ s2) = has_byte c s1 || has_byte c s2.
Proof. induction s1 as [|d s1 IH]; simpl; [done|]. by rewrite IH, orb_assoc. Qed.

(** Two strings split at their first [c] are equal piecewise. *)
Lemma app_byte_inj c s1 s2 t1 t2 :
  has_byte c s1 = false -> has_byte c s2 = false ->
  s1 +:+ String c t1 = s2 +:+ String c t2 -> s1 = s2 /\ t1 = t2.
Proof.
  revert s2. induction s1 as [|a s1 IH]; intros [|b s2]; simpl; intros H1 H2 [=]; subst.
  - done.
  - by rewrite bool_decide_eq_true_2 in H2.
  - by rewrite bool_decide_eq_true_2 in H1.
  - apply orb_false_iff in H1 as [_ H1], H2 as [_ H2].
    by destruct (IH s2 H1 H2) as [-> ->].
Qed.

Lemma has_byte_join c sep l :
  has_byte c sep = false -> Forall (fun s => has_byte c s = false) l ->
  has_byte c (Join l sep) = false.
Proof.
  intros Hs. unfold Join. induction 1 as [|s l Hc Hl IH]; simpl; [done|].
  destruct l as [|s' l']; [done|].
  by rewrite !has_byte_app, Hc, Hs.
Qed.

(** Joining by a byte that no piece holds is injective. *)
Lemma join_byte_inj c l1 l2 :
  Forall (fun s => has_byte c s = false) l1 ->
  Forall (fun s => has_byte c s = false) l2 ->
  l1 <> [] -> l2 <> [] ->
  Join l1 (String c "") = Join l2 (String c "") -> l1 = l2.
Proof.
  unfold Join. intros H1. revert l2.
  induction H1 as [|s1 l1 Hs1 Hl1 IH]; intros l2 H2 N1 N2; [done|].
  destruct H2 as [|s2 l2 Hs2 Hl2]; [done|].
  assert (Hhas : forall s t, has_byte c (s +:+ String c t) = true).
  { intros s t. rewrite has_byte_app. simpl.
    rewrite bool_decide_eq_true_2 by done. by rewrite orb_true_r. }
  destruct l1 as [|t1 l1], l2 as [|t2 l2]; simpl.
  - by intros ->.
  - intros ->. rewrite has_byte_app in Hs1. simpl in Hs1.
    rewrite bool_decide_eq_true_2, orb_true_r in Hs1; done.
  - intros <-. rewrite has_byte_app in Hs2. simpl in Hs2.
    rewrite bool_decide_eq_true_2, orb_true_r in Hs2; done.
  - intros Heq. destruct (app_byte_inj c s1 s2 _ _ Hs1 Hs2 Heq) as [-> Heq'].
    f_equal. by apply IH.
Qed.

Lemma fmt_int_no_byte c n :
  (0 <= n)%Z -> digit_of c = None -> has_byte c (fmt_int n) = false.
Proof.
  intros Hn Hc.
  assert (Hgo : forall x s, has_byte c s = false -> has_byte c (pretty_N_go x s) = false).
  { intros x. induction (N.lt_wf_0 x) as [x _ IH]. intros s Hs.
    destruct (decide (0 < x)%N) as [Hx|Hx].
    - rewrite pretty_N_go_step by done. apply IH; [by apply N.div_lt|]. simpl.
      rewrite Hs, orb_false_r. apply bool_decide_eq_false. intros ->.
      revert Hc. unfold pretty_N_char. by repeat case_match.
    - assert (x = 0%N) as -> by lia. by rewrite pretty_N_go_0. }
  assert (H0 : has_byte c "0" = false).
  { simpl. rewrite orb_false_r. apply bool_decide_eq_false. intros ->. done. }
  unfold fmt_int, pretty, pretty_Z. destruct n as [|p|p]; [done| |lia].
  unfold pretty, pretty_positive, pretty, pretty_N. case_decide; [done|]. by apply Hgo.
Qed.

Lemma fmt_int_inj n m : fmt_int n = fmt_int m -> n = m.
Proof. apply pretty_Z_inj. Qed.

Lemma fmt_bool_inj a b : fmt_bool a = fmt_bool b -> a = b.
Proof. by destruct a, b. Qed.

(** ** Printed numbers parse back *)

Lemma digit_of_char x : (x < 10)%N -> digit_of (pretty_N_char x) = Some (Z.of_N x).
Proof.
  intros Hx. assert (Hc : (x = 0 \/ x = 1 \/ x = 2 \/ x = 3 \/ x = 4 \/ x = 5 \/ x = 6 \/ x = 7 \/
    x = 8 \/ x = 9)%N) by lia.
  by repeat (destruct Hc as [->|Hc]); subst.
Qed.

Lemma ParseUint_go_pretty bits x s :
  (Z.of_N x < 2 ^ bits)%Z ->
  ParseUint_go bits 0 (pretty_N_go x s) = ParseUint_go bits (Z.of_N x) s.
Proof.
  revert s. induction (N.lt_wf_0 x) as [x _ IH]. intros s Hx.
  destruct (decide (0 < x)%N) as [Hpos|Hz].
  - rewrite pretty_N_go_step by done. pose proof (N.div_lt x 10 Hpos ltac:(lia)) as Hlt.
    rewrite IH by (lia || done). cbn [ParseUint_go].
    rewrite digit_of_char by (apply N.mod_lt; lia). cbn [mbind option_bind].
    assert (Heq : (Z.of_N (x / 10) * 10 + Z.of_N (x `mod` 10) = Z.of_N x)%Z)
      by (pose proof (N.div_mod' x 10); lia).
    rewrite Heq. destruct (Z.ltb_spec (Z.of_N x) (2 ^ bits)); [done|lia].
  - assert (x = 0%N) as -> by lia. by rewrite pretty_N_go_0.
Qed.

Lemma ParseUint10_fmt_int bits n :
  (0 <= n < 2 ^ bits)%Z -> ParseUint10 (fmt_int n) bits = Some n.
Proof.
  intros [H0 Hn]. unfold ParseUint10.
  assert (Hgo : ParseUint_go bits 0 (fmt_int n) = Some n).
  { unfold fmt_int, pretty, pretty_Z. destruct n as [|p|p]; [|clear H0|lia].
    - cbn. by destruct (2 ^ bits)%Z; [lia| |lia].
    - unfold pretty, pretty_positive, pretty, pretty_N. case_decide; [lia|].
      by rewrite ParseUint_go_pretty. }
  destruct (fmt_int n) as [|c s] eqn:Hf; [|done]. exfalso.
  assert (Hne : forall m, fmt_int m = "" -> False); [|by eapply Hne].
  intros m Hm. assert (m = 0%Z -> False) by (intros ->; by vm_compute in Hm).
  assert (fmt_int m <> ""); [|done]. clear. unfold fmt_int, pretty, pretty_Z.
  destruct m as [|p|p]; [done| |done]. unfold pretty, pretty_positive, pretty, pretty_N.
  case_decide; [done|]. intros He.
  assert (Hlen : forall x s, s <> "" -> pretty_N_go x s <> "").
  { intros x. induction (N.lt_wf_0 x) as [x _ IH]. intros s Hs.
    destruct (decide (0 < x)%N) as [Hpos|Hz].
    - rewrite pretty_N_go_step by done. apply IH; [by apply N.div_lt|done].
    - assert (x = 0%N) as -> by lia. by rewrite pretty_N_go_0. }
  rewrite pretty_N_go_step in He by lia. by apply Hlen in He.
Qed.
