(* ===== verification/GoNet.v ===== *)
(** * [net.IP], [net.IPNet] and their textual forms

    The part of Go's [net] (and of [net/netip], which [net] calls) that the
    code uses.  An address is a list of bytes of length 4 or 16 (a nil slice
    is [[]]); [IPv4] builds the 16-byte form the [net] constructors return. *)

From Stdlib Require Import ZArith Lia Ascii.
From S2P Require Import Prelude GoLib.
Local Open Scope Z_scope.

Abbreviation IP := (list Z) (only parsing).

Definition v4InV6Prefix : list Z := [0; 0; 0; 0; 0; 0; 0; 0; 0; 0; 255; 255].

(** [net.IPv4(a, b, c, d)]. *)
Definition IPv4 (a b c d : Z) : IP := v4InV6Prefix ++ [a; b; c; d].
Definition IPv4zero : IP := IPv4 0 0 0 0.
Definition IPv6loopback : IP := replicate 15 0 ++ [1].

(** [IP.To4], with [None] for nil. *)
Definition To4 (ip : IP) : option IP :=
  if decide (length ip = 4%nat) then Some ip
  else if decide (length ip = 16%nat /\ take 12 ip = v4InV6Prefix) then Some (drop 12 ip)
  else None.

(** [IP.Equal]: an IPv4 address and its 16-byte form are equal. *)
Definition IP_Equal (a b : IP) : bool :=
  if decide (length a = length b) then bool_decide (a = b)
  else if decide (length a = 4%nat /\ length b = 16%nat)
  then bool_decide (take 12 b = v4InV6Prefix) && bool_decide (a = drop 12 b)
  else if decide (length a = 16%nat /\ length b = 4%nat)
  then bool_decide (take 12 a = v4InV6Prefix) && bool_decide (drop 12 a = b)
  else false.

(** [IP.IsLoopback]. *)
Definition IsLoopback (ip : IP) : bool :=
  match To4 ip with
  | Some ip4 => bool_decide (head ip4 = Some 127)
  | None => IP_Equal ip IPv6loopback
  end.

(** ** Printing *)

Definition hex_char (d : Z) : ascii :=
  if d <? 10 then ascii_of_N (Z.to_N (48 + d)) else ascii_of_N (Z.to_N (87 + d)).

(** [hexString]: two digits per byte. *)
Fixpoint hexString (b : list Z) : string :=
  match b with
  | [] => ""
  | x :: b' => String (hex_char (Z.land (Z.shiftr x 4) 15))
                 (String (hex_char (Z.land x 15)) (hexString b'))
  end.

(** [appendHex]: a 16-bit group without leading zeros. *)
Definition hex16 (x : Z) : string :=
  (if 4096 <=? x then String (hex_char (Z.shiftr x 12)) "" else "") +:+
  (if 256 <=? x then String (hex_char (Z.land (Z.shiftr x 8) 15)) "" else "") +:+
  (if 16 <=? x then String (hex_char (Z.land (Z.shiftr x 4) 15)) "" else "") +:+
  String (hex_char (Z.land x 15)) "".

Fixpoint v6_groups (b : list Z) : list Z :=
  match b with
  | h :: l :: b' => (h * 256 + l) :: v6_groups b'
  | _ => []
  end.

Fixpoint zero_run (l : list Z) : nat :=
  match l with 0 :: l' => S (zero_run l') | _ => 0%nat end.

(** The first longest run of at least two zero groups: its start and length. *)
Fixpoint best_run (i : nat) (best : option (nat * nat)) (l : list Z) : option (nat * nat) :=
  match l with
  | [] => best
  | _ :: l' =>
      let n := zero_run l in
      let best' :=
        if (2 <=? n)%nat && (match best with Some (_, m) => (m <? n)%nat | None => true end)
        then Some (i, n) else best in
      best_run (S i) best' l'
  end.

(** [appendTo6]. *)
Definition string6 (ip : IP) : string :=
  let g := v6_groups ip in
  match best_run 0 None g with
  | None => Join (hex16 <$> g) ":"
  | Some (i, n) => Join (hex16 <$> take i g) ":" +:+ "::" +:+ Join (hex16 <$> drop (i + n) g) ":"
  end.

Definition string4 (ip : IP) : string := Join (fmt_int <$> ip) ".".

(** [IP.String]. *)
Definition IP_String (ip : IP) : string :=
  if decide (length ip = 0%nat) then "<nil>"
  else if decide (length ip <> 4%nat /\ length ip <> 16%nat) then "?" +:+ hexString ip
  else match To4 ip with Some p4 => string4 p4 | None => string6 ip end.

(** ** Parsing *)

(** [parseIPv4Fields]: [first] says that no byte of the current field has
    been read ([i == 0] or the previous byte is a dot). *)
Fixpoint parseIPv4_go (s : string) (fields : list Z) (val : Z) (digLen : nat) : option (list Z) :=
  match s with
  | EmptyString =>
      if (digLen =? 0)%nat then None
      else if (length fields =? 3)%nat then Some (fields ++ [val]) else None
  | String c s' =>
      match digit_of c with
      | Some d =>
          if (digLen =? 1)%nat && (val =? 0) then None
          else let v := val * 10 + d in
               if 255 <? v then None else parseIPv4_go s' fields v (S digLen)
      | None =>
          if bool_decide (c = "."%char) then
            if (digLen =? 0)%nat then None
            else if (length fields =? 3)%nat then None
            else parseIPv4_go s' (fields ++ [val]) 0 0
          else None
      end
  end.
Definition parseIPv4 (s : string) : option (list Z) := parseIPv4_go s [] 0 0.

Definition hex_of (c : ascii) : option Z :=
  let n := Z.of_N (N_of_ascii c) in
  if (48 <=? n) && (n <=? 57) then Some (n - 48)
  else if (97 <=? n) && (n <=? 102) then Some (n - 87)
  else if (65 <=? n) && (n <=? 70) then Some (n - 55)
  else None.

(** The hex digits at the head of [s]: their value, their number and the
    rest; [None] when there are more than four. *)
Fixpoint hex_group (s : string) (acc : Z) (off : nat) : option (Z * nat * string) :=
  match s with
  | EmptyString => Some (acc, off, s)
  | String c s' =>
      match hex_of c with
      | Some d => if (3 <? off)%nat then None else hex_group s' (acc * 16 + d) (S off)
      | None => Some (acc, off, s)
      end
  end.

(** The loop of [parseIPv6]; [fuel] counts the groups still allowed.  The
    result is the bytes read and the position of the ellipsis. *)
Fixpoint parseIPv6_go (fuel : nat) (s : string) (ip : list Z) (ell : option nat)
  : option (list Z * option nat) :=
  match fuel with
  | O => if bool_decide (s = "") then Some (ip, ell) else None
  | S fuel' =>
      '(acc, off, rest) ← hex_group s 0 0;
      if (off =? 0)%nat then None else
      match rest with
      | String "." _ =>
          if bool_decide (ell = None) && negb (length ip =? 12)%nat then None
          else if (12 <? length ip)%nat then None
          else p4 ← parseIPv4 s; Some (ip ++ p4, ell)
      | EmptyString => Some (ip ++ [Z.shiftr acc 8; Z.land acc 255], ell)
      | String ":" (String ":" rest') =>
          if bool_decide (ell = None) then
            let ip' := ip ++ [Z.shiftr acc 8; Z.land acc 255] in
            if bool_decide (rest' = "") then Some (ip', Some (length ip'))
            else parseIPv6_go fuel' rest' ip' (Some (length ip'))
          else None
      | String ":" (String c rest') =>
          parseIPv6_go fuel' (String c rest') (ip ++ [Z.shiftr acc 8; Z.land acc 255]) ell
      | String _ _ => None
      end
  end.

(** [parseIPv6] of a string without a zone. *)
Definition parseIPv6 (s : string) : option (list Z) :=
  let '(s1, ell) := if HasPrefix s "::" then (string_drop 2 s, Some 0%nat) else (s, None) in
  if bool_decide (ell = Some 0%nat) && bool_decide (s1 = "") then Some (replicate 16 0)
  else
    '(ip, e) ← parseIPv6_go 8 s1 [] ell;
    if (length ip <? 16)%nat then
      k ← e; Some (take k ip ++ replicate (16 - length ip) 0 ++ drop k ip)
    else if bool_decide (e = None) then Some ip else None.

(** The first of ['.'], [':'] and ['%'] decides which parser runs. *)
Fixpoint addr_kind (s : string) : option ascii :=
  match s with
  | EmptyString => None
  | String c s' =>
      if bool_decide (c = "."%char) || bool_decide (c = ":"%char) || bool_decide (c = "%"%char)
      then Some c else addr_kind s'
  end.

(** [net.ParseIP]: 16 bytes, or nil ([[]]).  An address with a zone is nil. *)
Definition ParseIP (s : string) : IP :=
  if has_byte "%"%char s then []
  else match addr_kind s with
       | Some "."%char => match parseIPv4 s with Some p4 => v4InV6Prefix ++ p4 | None => [] end
       | Some ":"%char => default [] (parseIPv6 s)
       | _ => []
       end.

(** ** Networks *)

Record IPNet := { ipnet_IP : IP; ipnet_Mask : list Z }.

#[export] Instance IPNet_eq_dec : EqDecision IPNet.
Proof. solve_decision. Defined.

(** [net.CIDRMask(ones, bits)]. *)
Definition CIDRMask (ones bits : Z) : list Z :=
  if ((bits =? 32) || (bits =? 128)) && (0 <=? ones) && (ones <=? bits) then
    (fun i => let n := Z.min 8 (Z.max 0 (ones - 8 * i)) in 256 - 2 ^ (8 - n))
      <$> seqZ 0 (bits / 8)
  else [].

Definition networkNumberAndMask (n : IPNet) : option (IP * list Z) :=
  let m := ipnet_Mask n in
  let with_ip (ip : IP) :=
    if decide (length m = 4%nat) then
      if decide (length ip = 4%nat) then Some (ip, m) else None
    else if decide (length m = 16%nat) then
      Some (ip, if decide (length ip = 4%nat) then drop 12 m else m)
    else None in
  match To4 (ipnet_IP n) with
  | Some ip4 => with_ip ip4
  | None => if decide (length (ipnet_IP n) = 16%nat) then with_ip (ipnet_IP n) else None
  end.

(** [IPNet.Contains]. *)
Definition IPNet_Contains (n : IPNet) (ip : IP) : bool :=
  let '(nn, m) := default ([], []) (networkNumberAndMask n) in
  let ip := default ip (To4 ip) in
  if decide (length ip = length nn) then
    forallb (fun '(x, y, k) => Z.land x k =? Z.land y k) (zip (zip nn ip) m)
  else false.

Definition mask_bits (m : list Z) : list bool :=
  m ≫= (fun x => (fun i => Z.testbit x (7 - i)) <$> seqZ 0 8).

(** [simpleMaskLength]: [None] for a mask that is not ones then zeros. *)
Definition simpleMaskLength (m : list Z) : option nat :=
  let b := mask_bits m in
  let n := length (filter (fun x => x = true) b) in
  if decide (b = replicate n true ++ replicate (length b - n) false) then Some n else None.

(** [IPNet.String]. *)
Definition IPNet_String (n : IPNet) : string :=
  match networkNumberAndMask n with
  | None => "<nil>"
  | Some (nn, m) =>
      match simpleMaskLength m with
      | Some l => IP_String nn +:+ "/" +:+ fmt_int (Z.of_nat l)
      | None => IP_String nn +:+ "/" +:+ hexString m
      end
  end.

(** ** Tests against documented values *)

Example IP_String_v4 : IP_String [172; 17; 0; 2] = "172.17.0.2".
Proof. reflexivity. Qed.
Example IP_String_mapped : IP_String (IPv4 10 0 0 1) = "10.0.0.1".
Proof. reflexivity. Qed.
Example IP_String_v6 :
  IP_String [32; 1; 13; 184; 0; 0; 0; 0; 0; 0; 0; 0; 0; 0; 0; 1] = "2001:db8::1".
Proof. reflexivity. Qed.
Example ParseIP_v6 :
  ParseIP "2001:db8::1" = [32; 1; 13; 184; 0; 0; 0; 0; 0; 0; 0; 0; 0; 0; 0; 1].
Proof. reflexivity. Qed.
Example ParseIP_v6_mapped : ParseIP "::ffff:10.0.0.1" = IPv4 10 0 0 1.
Proof. reflexivity. Qed.
Example ParseIP_v4 : ParseIP "10.0.0.1" = IPv4 10 0 0 1.
Proof. reflexivity. Qed.
Example ParseIP_bad : ParseIP "010.0.0.1" = [] /\ ParseIP "1:2" = [] /\ ParseIP "1.2.3" = [].
Proof. repeat split; reflexivity. Qed.
Example IPNet_String_24 :
  IPNet_String {| ipnet_IP := [10; 1; 2; 3]; ipnet_Mask := CIDRMask 24 32 |} = "10.1.2.3/24".
Proof. reflexivity. Qed.
Example IPNet_Contains_24 :
  IPNet_Contains {| ipnet_IP := [10; 1; 2; 0]; ipnet_Mask := CIDRMask 24 32 |} (IPv4 10 1 2 9)
  = true.
Proof. reflexivity. Qed.

(** ** The printed form of an address holds none of the code's separators *)

Lemma hex_char_no_dash d : 0 <= d < 16 -> has_byte "-"%char (String (hex_char d) "") = false.
Proof.
  intros Hd.
  assert (forallb (fun i => negb (has_byte "-"%char (String (hex_char i) ""))) (seqZ 0 16) = true)
    as H by reflexivity.
  rewrite forallb_forall in H. specialize (H d).
  apply negb_true_iff, H, list_elem_of_In, elem_of_seqZ. lia.
Qed.

Lemma land_15_range x : 0 <= Z.land x 15 < 16.
Proof. change 15 with (Z.ones 4). rewrite Z.land_ones by lia. apply Z.mod_pos_bound. lia. Qed.

Lemma hexString_no_dash b : has_byte "-"%char (hexString b) = false.
Proof.
  induction b as [|x b IH]; [done|].
  change (hexString (x :: b)) with
    (String (hex_char (Z.land (Z.shiftr x 4) 15)) "" +:+ String (hex_char (Z.land x 15)) ""
     +:+ hexString b).
  by rewrite !has_byte_app, IH, !hex_char_no_dash by apply land_15_range.
Qed.

(** The bytes of an address are bytes. *)
Definition ip_wf (ip : IP) : Prop := Forall (in_width 8) ip.

Lemma v6_groups_wf b : ip_wf b -> Forall (in_width 16) (v6_groups b).
Proof.
  revert b. fix IH 1. intros [|h [|l b]] Hb; simpl; [constructor..|].
  unfold ip_wf in Hb. rewrite !Forall_cons in Hb. destruct Hb as (Hh & Hl & Hb).
  constructor; [unfold in_width in *; lia|]. by apply IH.
Qed.

Lemma hex16_no_dash x : in_width 16 x -> has_byte "-"%char (hex16 x) = false.
Proof.
  intros [H1 H2]. unfold hex16. rewrite !has_byte_app.
  rewrite (hex_char_no_dash (Z.land x 15)) by apply land_15_range.
  repeat case_match;
    rewrite ?hex_char_no_dash; try done; try apply land_15_range;
    rewrite Z.shiftr_div_pow2 by lia; split;
    try (apply Z.div_pos; lia); apply Z.div_lt_upper_bound; lia.
Qed.

Lemma To4_wf ip p4 : ip_wf ip -> To4 ip = Some p4 -> ip_wf p4 /\ length p4 = 4%nat.
Proof.
  unfold To4, ip_wf. intros Hw Ht. repeat case_decide; simplify_eq; [done|].
  split; [by apply Forall_drop|]. rewrite length_drop. lia.
Qed.

Lemma IP_String_no_dash ip : ip_wf ip -> has_byte "-"%char (IP_String ip) = false.
Proof.
  intros Hw. unfold IP_String. repeat case_decide; [done| |].
  - rewrite has_byte_app. by rewrite hexString_no_dash.
  - destruct (To4 ip) as [p4|] eqn:Ht.
    + apply has_byte_join; [done|]. destruct (To4_wf _ _ Hw Ht) as [Hp _].
      rewrite Forall_fmap. eapply Forall_impl; [exact Hp|].
      intros x [Hx _]; simpl in *. by apply fmt_int_no_byte.
    + unfold string6. pose proof (v6_groups_wf _ Hw) as Hg.
      assert (Hj : forall l, Forall (in_width 16) l ->
                has_byte "-"%char (Join (hex16 <$> l) ":") = false).
      { intros l Hl. apply has_byte_join; [done|]. rewrite Forall_fmap.
        eapply Forall_impl; [exact Hl|]. intros x Hx; simpl. by apply hex16_no_dash. }
      case_match; [|by apply Hj]. case_match. rewrite !has_byte_app.
      rewrite !Hj by auto using Forall_take, Forall_drop. done.
Qed.

(** ** Hardware addresses *)

(** [net.HardwareAddr.String]: the bytes in hexadecimal, joined by colons. *)
Definition mac_byte (b : Z) : string := hexString [b].
Fixpoint HardwareAddr_String (mac : list Z) : string :=
  match mac with
  | [] => ""
  | [b] => mac_byte b
  | b :: mac' => mac_byte b +:+ ":" +:+ HardwareAddr_String mac'
  end.

(** ** Printed IPv4 addresses parse back *)

(** What the parsers do with the decimal of a byte. *)
Definition octet_ok (n : Z) : Prop :=
  (exists k, forall rest fields,
     parseIPv4_go (fmt_int n +:+ rest) fields 0 0 = parseIPv4_go rest fields n (S k)) /\
  (forall rest, addr_kind (fmt_int n +:+ rest) = addr_kind rest) /\
  (forall rest, has_byte "%"%char (fmt_int n +:+ rest) = has_byte "%"%char rest).

Lemma octets_ok : Forall octet_ok (Z.of_nat <$> seq 0 256).
Proof.
  cbn [seq fmap list_fmap].
  repeat (constructor; [split; [eexists; intros rest fields; reflexivity|split; intros rest; reflexivity]|]).
  constructor.
Qed.

Lemma octet_ok_byte n : in_width 8 n -> octet_ok n.
Proof.
  intros [H0 H1]. pose proof (proj1 (Forall_forall _ _) octets_ok) as Hall. apply Hall.
  apply list_elem_of_fmap. exists (Z.to_nat n). split; [lia|]. apply elem_of_seq. lia.
Qed.

Lemma parseIPv4_dot s fields v k :
  parseIPv4_go (String "." s) fields v (S k) =
  if (length fields =? 3)%nat then None else parseIPv4_go s (fields ++ [v]) 0 0.
Proof. reflexivity. Qed.

Lemma string4_app a b c d :
  string4 [a; b; c; d] =
  fmt_int a +:+ String "." (fmt_int b +:+ String "." (fmt_int c +:+ String "." (fmt_int d))).
Proof. reflexivity. Qed.

Lemma parseIPv4_string4 a b c d :
  in_width 8 a -> in_width 8 b -> in_width 8 c -> in_width 8 d ->
  parseIPv4 (string4 [a; b; c; d]) = Some [a; b; c; d].
Proof.
  intros Ha Hb Hc Hd.
  destruct (octet_ok_byte a Ha) as [[ka Pa] _], (octet_ok_byte b Hb) as [[kb Pb] _],
    (octet_ok_byte c Hc) as [[kc Pc] _], (octet_ok_byte d Hd) as [[kd Pd] _].
  assert (Pd' : parseIPv4_go (fmt_int d) [a; b; c] 0 0 = parseIPv4_go "" [a; b; c] d (S kd)).
  { rewrite <-Pd. f_equal. generalize (fmt_int d) as s. induction s as [|x s IH]; [done|].
    change (String x s +:+ "") with (String x (s +:+ "")). by rewrite <-IH. }
  unfold parseIPv4. rewrite string4_app, Pa, parseIPv4_dot. cbn [length Nat.eqb app].
  rewrite Pb, parseIPv4_dot. cbn [length Nat.eqb app].
  rewrite Pc, parseIPv4_dot. cbn [length Nat.eqb app]. by rewrite Pd'.
Qed.

(** [ParseIP] of the text of a four-byte address is its 16-byte form. *)
Lemma ParseIP_IP_String4 a b c d :
  in_width 8 a -> in_width 8 b -> in_width 8 c -> in_width 8 d ->
  ParseIP (IP_String [a; b; c; d]) = IPv4 a b c d.
Proof.
  intros Ha Hb Hc Hd.
  assert (Hs : IP_String [a; b; c; d] = string4 [a; b; c; d]) by reflexivity.
  assert (Hp := parseIPv4_string4 a b c d Ha Hb Hc Hd).
  destruct (octet_ok_byte a Ha) as (_ & Ka & Ca), (octet_ok_byte b Hb) as (_ & _ & Cb),
    (octet_ok_byte c Hc) as (_ & _ & Cc), (octet_ok_byte d Hd) as (_ & _ & _).
  unfold ParseIP. rewrite Hs.
  assert (H1 : has_byte "%"%char (string4 [a; b; c; d]) = false).
  { rewrite string4_app, Ca. cbn [has_byte]. rewrite Cb. cbn [has_byte]. rewrite Cc. cbn [has_byte].
    rewrite fmt_int_no_byte; [done|apply Hd|done]. }
  assert (H2 : addr_kind (string4 [a; b; c; d]) = Some "."%char).
  { rewrite string4_app, Ka. reflexivity. }
  by rewrite H1, H2, Hp.
Qed.
