(* ===== verification/GoText.v ===== *)
(** * More of [strings] and [strconv]: splitting, joining, signed numbers

    What the NeuVector packages of the repository ([share], [agent/policy],
    [controller]) use of Go's text functions beyond [GoLib], with the facts
    their parsers rest on: a string split at a byte and joined by it is
    itself, and a printed number parses back. *)

From Stdlib Require Import ZArith Lia Ascii.
From S2P Require Import Prelude GoLib.

(** ** Numbers *)

(** [strconv.Atoi] (a 64-bit [int]): an optional sign and decimal digits;
    [None] is a syntax or a range error. *)
Definition Atoi (s : string) : option Z :=
  match s with
  | String "-"%char ds => n ← ParseUint10 ds 64; if (n <=? 2 ^ 63)%Z then Some (- n)%Z else None
  | String "+"%char ds => n ← ParseUint10 ds 64; if (n <? 2 ^ 63)%Z then Some n else None
  | _ => n ← ParseUint10 s 64; if (n <? 2 ^ 63)%Z then Some n else None
  end.

(** ** Strings *)

Fixpoint string_take (n : nat) (s : string) : string :=
  match n, s with
  | S n', String c s' => String c (string_take n' s')
  | _, _ => EmptyString
  end.

(** [strings.IndexByte(s, c)]. *)
Fixpoint IndexByte (s : string) (c : ascii) : option nat :=
  match s with
  | EmptyString => None
  | String d s' => if bool_decide (c = d) then Some O else S <$> IndexByte s' c
  end.

(** [strings.LastIndexByte(s, c)]. *)
Fixpoint LastIndexByte (s : string) (c : ascii) : option nat :=
  match s with
  | EmptyString => None
  | String d s' =>
      match LastIndexByte s' c with
      | Some i => Some (S i)
      | None => if bool_decide (c = d) then Some O else None
      end
  end.

(** [strings.HasSuffix(s, suf)]. *)
Definition HasSuffix (s suf : string) : bool :=
  let n := String.length s in
  let k := String.length suf in
  (k <=? n)%nat && bool_decide (string_drop (n - k) s = suf).

(** ** Facts about [+:+] *)

Lemma string_app_nil_r s : s +:+ "" = s.
Proof. induction s as [|c s IH]; [done|]. change (String c (s +:+ "") = String c s). by rewrite IH. Qed.

Lemma string_app_assoc s t u : (s +:+ t) +:+ u = s +:+ (t +:+ u).
Proof. induction s as [|c s IH]; [done|]. change (String c ((s +:+ t) +:+ u) = String c (s +:+ (t +:+ u))). by rewrite IH. Qed.

Lemma string_app_cons c s t : String c s +:+ t = String c (s +:+ t).
Proof. reflexivity. Qed.

Lemma string_drop_app s t : string_drop (String.length s) (s +:+ t) = t.
Proof. induction s as [|c s IH]; [by destruct t|]. exact IH. Qed.

Lemma string_take_app s t : string_take (String.length s) (s +:+ t) = s.
Proof.
  induction s as [|c s IH]; [by destruct t|].
  change (String c (string_take (String.length s) (s +:+ t)) = String c s). by rewrite IH.
Qed.

Lemma string_app_length s t : String.length (s +:+ t) = (String.length s + String.length t)%nat.
Proof. induction s as [|c s IH]; [done|]. change (S (String.length (s +:+ t)) = S (String.length s + String.length t)). by rewrite IH. Qed.

Lemma HasPrefix_app p s : HasPrefix (p +:+ s) p = true.
Proof.
  unfold HasPrefix. induction p as [|c p IH]; [by destruct s|].
  change (String c p +:+ s) with (String c (p +:+ s)). simpl.
  destruct (ascii_dec c c); [exact IH|done].
Qed.

Lemma HasPrefix_spec s p : HasPrefix s p = true <-> exists t, s = p +:+ t.
Proof.
  split; [|intros [t ->]; apply HasPrefix_app].
  unfold HasPrefix. revert s. induction p as [|c p IH]; intros s Hs; [by exists s|].
  destruct s as [|d s]; [done|]. simpl in Hs. destruct (ascii_dec c d) as [->|]; [|done].
  destruct (IH _ Hs) as [t ->]. by exists t.
Qed.

(** The first byte decides a prefix test. *)
Lemma HasPrefix_head c s d p : c <> d -> HasPrefix (String c s) (String d p) = false.
Proof. intros Hne. unfold HasPrefix. simpl. by destruct (ascii_dec d c) as [->|]. Qed.

Lemma rev_append_app s acc t : String.rev_app s (acc +:+ t) = String.rev_app s acc +:+ t.
Proof.
  revert acc. induction s as [|c s IH]; intros acc; [done|]. simpl. by rewrite <-(IH (String c acc)).
Qed.

(** ** Splitting at one byte *)

Section split_byte.
Context (c : ascii).
Let sep := String c "".

Lemma Split_go_step d s cur :
  Split_go sep 0 cur (String d s) =
  if bool_decide (c = d) then String.rev cur :: Split_go sep 0 "" s
  else Split_go sep 0 (String d cur) s.
Proof.
  simpl. unfold HasPrefix, sep. simpl. destruct (ascii_dec c d) as [->|Hne].
  - rewrite bool_decide_eq_true_2 by done. by destruct s.
  - by rewrite bool_decide_eq_false_2.
Qed.

Lemma Split_go_piece p rest cur :
  has_byte c p = false ->
  Split_go sep 0 cur (p +:+ String c rest) =
  String.rev (String.rev_app p cur) :: Split_go sep 0 "" rest.
Proof.
  revert cur. induction p as [|d p IH]; intros cur Hp.
  - change ("" +:+ String c rest) with (String c rest).
    rewrite Split_go_step, bool_decide_eq_true_2 by done. done.
  - change (String d p +:+ String c rest) with (String d (p +:+ String c rest)).
    rewrite Split_go_step. simpl in Hp. apply orb_false_iff in Hp as [Hd Hp].
    rewrite Hd. by apply IH.
Qed.

Lemma Split_go_last p cur :
  has_byte c p = false -> Split_go sep 0 cur p = [String.rev (String.rev_app p cur)].
Proof.
  revert cur. induction p as [|d p IH]; intros cur Hp; [done|].
  rewrite Split_go_step. simpl in Hp. apply orb_false_iff in Hp as [Hd Hp].
  rewrite Hd. by apply IH.
Qed.

Lemma string_rev_app_rev s t acc : String.rev_app (String.rev_app s t) acc = String.rev_app t (s +:+ acc).
Proof.
  revert t acc. induction s as [|d s IH]; intros t acc; [done|]. simpl.
  rewrite IH. done.
Qed.

Lemma string_rev_rev_app s : String.rev (String.rev_app s "") = s.
Proof. unfold String.rev. rewrite string_rev_app_rev. simpl. apply string_app_nil_r. Qed.

Lemma Split_no_byte p : has_byte c p = false -> Split p sep = [p].
Proof. intros Hp. unfold Split. rewrite Split_go_last by done. by rewrite string_rev_rev_app. Qed.

Lemma Split_cons p rest :
  has_byte c p = false -> Split (p +:+ String c rest) sep = p :: Split rest sep.
Proof. intros Hp. unfold Split. rewrite Split_go_piece by done. by rewrite string_rev_rev_app. Qed.

(** Splitting what was joined by a byte that no piece holds. *)
Lemma Split_Join l :
  l <> [] -> Forall (fun s => has_byte c s = false) l -> Split (Join l sep) sep = l.
Proof.
  intros Hne Hl. induction Hl as [|p l Hp Hl IH]; [done|]. unfold Join in *.
  destruct l as [|q l]; [by apply Split_no_byte|].
  change (String.concat sep (p :: q :: l)) with (p +:+ String c (String.concat sep (q :: l))).
  rewrite Split_cons by done. by rewrite IH.
Qed.

(** Every piece of a split is free of the separator, and there is one. *)
Lemma has_byte_rev_app s t : has_byte c (String.rev_app s t) = has_byte c s || has_byte c t.
Proof.
  revert t. induction s as [|d s IH]; intros t; [done|]. simpl. rewrite IH. simpl.
  destruct (bool_decide (c = d)); simpl; [by rewrite orb_true_r|done].
Qed.

Lemma Split_go_pieces s cur :
  has_byte c cur = false -> Forall (fun p => has_byte c p = false) (Split_go sep 0 cur s).
Proof.
  assert (Hrev : forall t, has_byte c t = false -> has_byte c (String.rev t) = false).
  { intros t Ht. unfold String.rev. by rewrite has_byte_rev_app, Ht. }
  revert cur. induction s as [|d s IH]; intros cur Hcur.
  - constructor; [by apply Hrev|constructor].
  - rewrite Split_go_step. destruct (bool_decide (c = d)) eqn:Hd.
    + constructor; [by apply Hrev|]. by apply IH.
    + apply IH. simpl. by rewrite Hd.
Qed.

Lemma Split_pieces s : Forall (fun p => has_byte c p = false) (Split s sep).
Proof. by apply Split_go_pieces. Qed.

Lemma Split_not_nil s : Split s sep <> [].
Proof.
  unfold Split. generalize "" as cur. induction s as [|d s IH]; intros cur; [done|].
  rewrite Split_go_step. case_match; [done|apply IH].
Qed.
End split_byte.

(** ** Printed numbers *)

(** A printed number starts with a digit. *)
Lemma fmt_int_head n :
  (0 <= n)%Z -> exists c s d, fmt_int n = String c s /\ digit_of c = Some d.
Proof.
  intros Hn. pose proof (ParseUint10_fmt_int (Z.log2 n + 2) n) as Hp.
  assert (Hb : (n < 2 ^ (Z.log2 n + 2))%Z).
  { destruct (decide (n = 0)%Z) as [->|]; [done|].
    pose proof (Z.log2_spec n ltac:(lia)) as [_ Hlt].
    pose proof (Z.pow_le_mono_r 2 (Z.succ (Z.log2 n)) (Z.log2 n + 2)). lia. }
  specialize (Hp (conj Hn Hb)). destruct (fmt_int n) as [|c s]; [done|].
  cbn [ParseUint10 ParseUint_go] in Hp. destruct (digit_of c) as [d|] eqn:Hd; [|done].
  by exists c, s, d.
Qed.

Lemma digit_not_sign c d : digit_of c = Some d -> c <> "-"%char /\ c <> "+"%char.
Proof. intros Hd. by split; intros ->. Qed.

Lemma Atoi_fmt_int n : (0 <= n < 2 ^ 63)%Z -> Atoi (fmt_int n) = Some n.
Proof.
  intros Hn.
  destruct (fmt_int_head n) as (c & s & d & Hf & Hd); [lia|].
  assert (Hneq := digit_not_sign _ _ Hd).
  assert (Ha : Atoi (fmt_int n) =
    (m ← ParseUint10 (fmt_int n) 64; if (m <? 2 ^ 63)%Z then Some m else None)).
  { rewrite Hf. clear -Hneq. unfold Atoi. destruct Hneq.
    destruct c as [[] [] [] [] [] [] [] []]; done. }
  rewrite Ha, ParseUint10_fmt_int by lia. cbn [mbind option_bind].
  destruct (Z.ltb_spec n (2 ^ 63)); [done|lia].
Qed.

(** A printed number has none of the bytes the parsers look for. *)
Lemma fmt_int_ne n (s : string) :
  (0 <= n)%Z -> match s with String c _ => digit_of c = None | "" => True end ->
  fmt_int n <> s.
Proof.
  intros Hn Hs. destruct (fmt_int_head n Hn) as (c & t & d & -> & Hd).
  intros <-. congruence.
Qed.

Lemma IndexByte_no_byte c s : has_byte c s = false -> IndexByte s c = None.
Proof.
  induction s as [|d s IH]; [done|]. simpl. intros [Hd Hs]%orb_false_iff.
  by rewrite Hd, IH.
Qed.

Lemma IndexByte_app c s t :
  has_byte c s = false -> IndexByte (s +:+ String c t) c = Some (String.length s).
Proof.
  induction s as [|d s IH].
  - intros _. simpl. by rewrite bool_decide_eq_true_2.
  - intros Hs. simpl in Hs. apply orb_false_iff in Hs as [Hd Hs].
    rewrite string_app_cons. simpl. by rewrite Hd, IH.
Qed.
