(* ===== verification/GoJson.v ===== *)
(** * What the code uses of [encoding/json]: the text of a value

    [json.Marshal] of a Go value, in two steps: a component maps its structs
    to [json] (the field names and the [omitempty] options of their tags), and
    [Marshal] prints it, with the escapes of the Go encoder. *)

From Stdlib Require Import ZArith Lia Ascii.
From S2P Require Import Prelude GoLib GoNet GoText.
Local Open Scope Z_scope.

Inductive json :=
| JNull
| JBool (b : bool)
| JInt (n : Z)
| JStr (s : string)
| JArr (l : list json)
| JObj (l : list (string * json)).

(** ** Strings *)

Definition byte_val (c : ascii) : Z := Z.of_N (N_of_ascii c).

Definition byte_in (lo hi : Z) (c : ascii) : bool := (lo <=? byte_val c) && (byte_val c <=? hi).

Definition dquote : string := String (ascii_of_N 34) "".

Definition json_u (n : Z) : string :=
  "\u00" +:+ String (hex_char (Z.shiftr n 4)) (String (hex_char (Z.land n 15)) "").

(** A byte below 0x80. *)
Definition json_byte (c : ascii) : string :=
  let n := byte_val c in
  if n =? 34 then "\" +:+ dquote
  else if n =? 92 then "\\"
  else if n =? 8 then "\b"
  else if n =? 12 then "\f"
  else if n =? 10 then "\n"
  else if n =? 13 then "\r"
  else if n =? 9 then "\t"
  else if (n <? 32) || (n =? 60) || (n =? 62) || (n =? 38) then json_u n
  else String c "".

Definition utf8_2 (c0 c1 : ascii) : bool := byte_in 194 223 c0 && byte_in 128 191 c1.

Definition utf8_3 (c0 c1 c2 : ascii) : bool :=
  byte_in 224 239 c0 && byte_in 128 191 c2 &&
  (if byte_val c0 =? 224 then byte_in 160 191 c1
   else if byte_val c0 =? 237 then byte_in 128 159 c1 else byte_in 128 191 c1).

Definition utf8_4 (c0 c1 c2 c3 : ascii) : bool :=
  byte_in 240 244 c0 && byte_in 128 191 c2 && byte_in 128 191 c3 &&
  (if byte_val c0 =? 240 then byte_in 144 191 c1
   else if byte_val c0 =? 244 then byte_in 128 143 c1 else byte_in 128 191 c1).

(** A rune of three bytes; the line and paragraph separators are escaped. *)
Definition json_rune3 (c0 c1 c2 : ascii) : string :=
  if (byte_val c0 =? 226) && (byte_val c1 =? 128) && (byte_val c2 =? 168) then "\u2028"
  else if (byte_val c0 =? 226) && (byte_val c1 =? 128) && (byte_val c2 =? 169) then "\u2029"
  else String c0 (String c1 (String c2 "")).

(** A byte that does not start a rune is replaced. *)
Fixpoint json_escape (s : string) : string :=
  match s with
  | "" => ""
  | String c0 s1 =>
      if byte_val c0 <? 128 then json_byte c0 +:+ json_escape s1
      else
        match s1 with
        | "" => "\ufffd"
        | String c1 s2 =>
            if utf8_2 c0 c1 then String c0 (String c1 (json_escape s2))
            else
              match s2 with
              | "" => "\ufffd" +:+ json_escape s1
              | String c2 s3 =>
                  if utf8_3 c0 c1 c2 then json_rune3 c0 c1 c2 +:+ json_escape s3
                  else
                    match s3 with
                    | "" => "\ufffd" +:+ json_escape s1
                    | String c3 s4 =>
                        if utf8_4 c0 c1 c2 c3
                        then String c0 (String c1 (String c2 (String c3 (json_escape s4))))
                        else "\ufffd" +:+ json_escape s1
                    end
              end
        end
  end.

Definition json_string (s : string) : string := dquote +:+ json_escape s +:+ dquote.

(** ** Values *)

Fixpoint json_text (v : json) : string :=
  match v with
  | JNull => "null"
  | JBool b => fmt_bool b
  | JInt n => fmt_int n
  | JStr s => json_string s
  | JArr l => "[" +:+ Join (List.map json_text l) "," +:+ "]"
  | JObj l => "{" +:+ Join (List.map (fun '(k, v) => json_string k +:+ ":" +:+ json_text v) l) "," +:+ "}"
  end.

(** The text of a value, or the empty one when the encoding fails and the
    caller drops the error. *)
Definition Marshal (v : option json) : string :=
  match v with Some v => json_text v | None => "" end.

(** ** Go values *)

(** [net.IP.MarshalText]: an address of another length is an error. *)
Definition json_IP (ip : IP) : option json :=
  if decide (length ip = 0%nat) then Some (JStr "")
  else if decide (length ip = 4%nat \/ length ip = 16%nat) then Some (JStr (IP_String ip))
  else None.

(** A slice that is nil when it is empty, and one made by [make]. *)
Definition json_slice {A} (f : A -> json) (l : list A) : json :=
  match l with [] => JNull | _ => JArr (f <$> l) end.
Definition json_made {A} (f : A -> json) (l : list A) : json := JArr (f <$> l).

(** The same for elements whose encoding can fail. *)
Definition json_slice_opt {A} (f : A -> option json) (l : list A) : option json :=
  match l with [] => Some JNull | _ => JArr <$> mapM f l end.
Definition json_made_opt {A} (f : A -> option json) (l : list A) : option json :=
  JArr <$> mapM f l.

(** A field with [omitempty]. *)
Definition omit_if (empty : bool) (k : string) (v : json) : list (string * json) :=
  if empty then [] else [(k, v)].
