(* ===== verification/CtrlTypes.v ===== *)
(** * The controller's data (micro-segment/internal/controller/types.go)

    A [time.Time] is a [Z] (nanoseconds); the clock readings an operation
    takes are its arguments. *)

From Stdlib Require Import ZArith.
From S2P Require Import Prelude GoLib GoNet.
Local Open Scope Z_scope.

(** [PolicyMode] is a Go string type: the constants below are the values the
    code compares with, and any other string can reach it through JSON. *)
Abbreviation PolicyMode := string (only parsing).
Definition PolicyModeMonitor : PolicyMode := "Monitor".
Definition PolicyModeProtect : PolicyMode := "Protect".

(** [PolicyAction] is a [uint8]. *)
Abbreviation PolicyAction := Z (only parsing).
Definition PolicyActionOpen : PolicyAction := 0.
Definition PolicyActionAllow : PolicyAction := 1.
Definition PolicyActionDeny : PolicyAction := 2.
Definition PolicyActionViolate : PolicyAction := 3.

Record GroupCriteria := { gc_Key : string; gc_Value : string; gc_Op : string }.

Record Group := {
  g_Name : string;
  g_Comment : string;
  g_Domain : string;
  g_PolicyMode : PolicyMode;
  g_Members : list string;
  g_Criteria : list GroupCriteria;
  g_CreatedAt : Z;
  g_UpdatedAt : Z;
}.

Record PolicyRule := {
  pr_ID : Z;                      (* uint32 *)
  pr_Comment : string;
  pr_From : string;
  pr_To : string;
  pr_Ports : string;
  pr_Applications : list Z;       (* []uint32 *)
  pr_Action : string;
  pr_Disable : bool;
  pr_Priority : Z;                (* uint32 *)
  pr_CreatedAt : Z;
  pr_UpdatedAt : Z;
}.

Definition pr_set_CreatedAt (t : Z) (r : PolicyRule) : PolicyRule := {|
  pr_ID := pr_ID r; pr_Comment := pr_Comment r; pr_From := pr_From r; pr_To := pr_To r;
  pr_Ports := pr_Ports r; pr_Applications := pr_Applications r; pr_Action := pr_Action r;
  pr_Disable := pr_Disable r; pr_Priority := pr_Priority r;
  pr_CreatedAt := t; pr_UpdatedAt := pr_UpdatedAt r |}.

Definition pr_set_UpdatedAt (t : Z) (r : PolicyRule) : PolicyRule := {|
  pr_ID := pr_ID r; pr_Comment := pr_Comment r; pr_From := pr_From r; pr_To := pr_To r;
  pr_Ports := pr_Ports r; pr_Applications := pr_Applications r; pr_Action := pr_Action r;
  pr_Disable := pr_Disable r; pr_Priority := pr_Priority r;
  pr_CreatedAt := pr_CreatedAt r; pr_UpdatedAt := t |}.

Record Connection := {
  cn_ClientWL : string;
  cn_ServerWL : string;
  cn_ClientIP : IP;
  cn_ServerIP : IP;
  cn_ClientPort : Z;              (* uint16 *)
  cn_ServerPort : Z;              (* uint16 *)
  cn_IPProto : Z;                 (* uint8 *)
  cn_Application : Z;             (* uint32 *)
  cn_Bytes : Z;                   (* uint64 *)
  cn_Sessions : Z;                (* uint32 *)
  cn_FirstSeenAt : Z;             (* uint32 *)
  cn_LastSeenAt : Z;              (* uint32 *)
  cn_ThreatID : Z;                (* uint32 *)
  cn_Severity : Z;                (* uint8 *)
  cn_PolicyAction : Z;            (* uint8 *)
  cn_PolicyID : Z;                (* uint32 *)
  cn_Ingress : bool;
  cn_ExternalPeer : bool;
  cn_LocalPeer : bool;
}.

Record IPAddr := { ia_IP : IP; ia_Scope : string }.

Record Workload := {
  wl_ID : string;
  wl_Name : string;
  wl_Domain : string;
  wl_HostID : string;
  wl_HostName : string;
  wl_Image : string;
  wl_Service : string;
  wl_PolicyMode : PolicyMode;
  wl_Running : bool;
  wl_Ifaces : gmap string (list IPAddr);
  wl_CreatedAt : Z;
}.

Record Host := {
  h_ID : string;
  h_Name : string;
  h_Platform : string;
  h_Ifaces : gmap string (list IPAddr);
}.

Record Agent := {
  ag_ID : string;
  ag_Name : string;
  ag_HostID : string;
  ag_HostName : string;
  ag_JoinedAt : Z;
}.

Record GraphNode := {
  gn_ID : string;
  gn_Name : string;
  gn_Kind : string;
  gn_Domain : string;
  gn_Service : string;
  gn_PolicyMode : string;
}.

Record GraphLink := {
  gl_From : string;
  gl_To : string;
  gl_Bytes : Z;
  gl_Sessions : Z;
  gl_Severity : Z;
  gl_PolicyAction : Z;
}.

Record NetworkGraph := {
  ng_Nodes : list GraphNode;
  ng_Links : list GraphLink;
}.

#[export] Instance PolicyRule_eq_dec : EqDecision PolicyRule.
Proof. solve_decision. Defined.
#[export] Instance GraphLink_eq_dec : EqDecision GraphLink.
Proof. solve_decision. Defined.
