(* ===== verification/ProtoTypes.v ===== *)
(** * The messages of the wire (micro-segment/api/proto/microseg.proto)

    The Go structs the generated code declares for the messages the controller
    and the agent build or read.  A pointer field that can be nil is an
    [option]; [repeated] fields are lists (protobuf has no nil element). *)

From Stdlib Require Import ZArith.
From S2P Require Import Prelude GoNet.
Local Open Scope Z_scope.

Record pb_AgentInfo := {
  pba_AgentId : string;
  pba_HostId : string;
  pba_HostName : string;
  pba_Version : string;
  pba_Platform : string;
}.

Record pb_RegisterResponse := {
  pbr_Code : Z;                   (* int32 *)
  pbr_Message : string;
  pbr_ClusterId : string;
  pbr_ReportInterval : Z;         (* uint32 *)
}.

(** [cpu_usage], a float, is never read or set and is left out. *)
Record pb_AgentStats := {
  pbs_WorkloadCount : Z;
  pbs_ConnectionCount : Z;
  pbs_PolicyCount : Z;
  pbs_MemoryUsage : Z;
}.

Record pb_HeartbeatRequest := {
  pbh_AgentId : string;
  pbh_Timestamp : Z;              (* uint64 *)
  pbh_Stats : option pb_AgentStats;
}.

Record pb_HeartbeatResponse := { pbhr_Code : Z; pbhr_Timestamp : Z }.

Record pb_ReportResponse := {
  pbrr_Code : Z;
  pbrr_Message : string;
  pbrr_ReportInterval : Z;
}.

Record pb_IPAddress := { pbi_Ip : string; pbi_Scope : string; pbi_Gateway : string }.

Record pb_NetworkInterface := {
  pbn_Name : string;
  pbn_Mac : string;
  pbn_Addrs : list pb_IPAddress;
}.

Record pb_Workload := {
  pbw_Id : string;
  pbw_Name : string;
  pbw_HostId : string;
  pbw_HostName : string;
  pbw_Domain : string;
  pbw_Service : string;
  pbw_Image : string;
  pbw_PolicyMode : string;
  pbw_Running : bool;
  pbw_Pid : Z;                    (* int32 *)
  pbw_Ifaces : list pb_NetworkInterface;
  pbw_Labels : gmap string string;
}.

Record pb_WorkloadEvent := {
  pbe_AgentId : string;
  pbe_EventType : string;
  pbe_Workload : option pb_Workload;
}.

Record pb_Connection := {
  pbc_ClientWl : string;
  pbc_ServerWl : string;
  pbc_ClientIp : list Z;
  pbc_ServerIp : list Z;
  pbc_ClientPort : Z;             (* uint32 *)
  pbc_ServerPort : Z;             (* uint32 *)
  pbc_IpProto : Z;                (* uint32 *)
  pbc_Application : Z;            (* uint32 *)
  pbc_Bytes : Z;                  (* uint64 *)
  pbc_Sessions : Z;               (* uint32 *)
  pbc_FirstSeenAt : Z;            (* uint32 *)
  pbc_LastSeenAt : Z;             (* uint32 *)
  pbc_ThreatId : Z;               (* uint32 *)
  pbc_Severity : Z;               (* uint32 *)
  pbc_PolicyAction : Z;           (* uint32 *)
  pbc_PolicyId : Z;               (* uint32 *)
  pbc_Ingress : bool;
  pbc_ExternalPeer : bool;
  pbc_LocalPeer : bool;
  pbc_Scope : string;
  pbc_Network : string;
  pbc_Violates : Z;               (* uint32 *)
}.

Record pb_ConnectionReport := {
  pbcr_AgentId : string;
  pbcr_HostId : string;
  pbcr_Connections : list pb_Connection;
}.

Record pb_ThreatLog := {
  pbt_Id : string;
  pbt_ThreatId : Z;
  pbt_ThreatName : string;
  pbt_Severity : string;
  pbt_ClientWl : string;
  pbt_ServerWl : string;
  pbt_ClientIp : list Z;
  pbt_ServerIp : list Z;
  pbt_ServerPort : Z;
  pbt_IpProto : Z;
  pbt_PktIngress : bool;
  pbt_LocalPeer : bool;
  pbt_ReportedAt : Z;             (* uint64 *)
}.

Record pb_ThreatReport := {
  pbtr_AgentId : string;
  pbtr_HostId : string;
  pbtr_Threats : list pb_ThreatLog;
}.

Record pb_PolicyRule := {
  pbp_Id : Z;                     (* uint32 *)
  pbp_From : string;
  pbp_To : string;
  pbp_Ports : string;
  pbp_Applications : list Z;
  pbp_Action : Z;                 (* uint32 *)
  pbp_Ingress : bool;
  pbp_Priority : Z;               (* uint32 *)
  pbp_Disable : bool;
  pbp_Comment : string;
}.

Record pb_PolicyList := { pbpl_Rules : list pb_PolicyRule }.

Record pb_PolicyRequest := { pbpq_AgentId : string; pbpq_WorkloadIds : list string }.
