(* ===== verification/AgentTypes.v ===== *)
(** * The agent's data (micro-segment/internal/agent/types.go)

    The records the agent's components exchange; widths as in the source. *)

From Stdlib Require Import ZArith.
From S2P Require Import Prelude GoNet.
Local Open Scope Z_scope.

Definition AgentPolicyModeMonitor : string := "Monitor".
Definition AgentPolicyModeProtect : string := "Protect".

Definition ActionOpen : Z := 0.
Definition ActionAllow : Z := 1.
Definition ActionDeny : Z := 2.
Definition ActionViolate : Z := 3.

Record AConnection := {
  ac_AgentID : string;
  ac_HostID : string;
  ac_ClientWL : string;
  ac_ServerWL : string;
  ac_ClientIP : IP;
  ac_ServerIP : IP;
  ac_ClientPort : Z;              (* uint16 *)
  ac_ServerPort : Z;              (* uint16 *)
  ac_IPProto : Z;                 (* uint8 *)
  ac_Application : Z;             (* uint32 *)
  ac_Bytes : Z;                   (* uint64 *)
  ac_Sessions : Z;                (* uint32 *)
  ac_Violates : Z;                (* uint32 *)
  ac_FirstSeenAt : Z;             (* uint32 *)
  ac_LastSeenAt : Z;              (* uint32 *)
  ac_ThreatID : Z;                (* uint32 *)
  ac_Severity : Z;                (* uint8 *)
  ac_PolicyAction : Z;            (* uint8 *)
  ac_PolicyId : Z;                (* uint32 *)
  ac_Ingress : bool;
  ac_ExternalPeer : bool;
  ac_LocalPeer : bool;
  ac_Scope : string;
  ac_Network : string;
}.

Record ConnectionData := { cd_EPMAC : list Z; cd_Conn : AConnection }.

(** [ReportedAt] is kept as the Unix seconds the report sends. *)
Record ThreatLog := {
  tl_ID : string;
  tl_ThreatID : Z;                (* uint32 *)
  tl_ThreatName : string;
  tl_Severity : string;
  tl_ClientWL : string;
  tl_ServerWL : string;
  tl_ClientIP : IP;
  tl_ServerIP : IP;
  tl_ServerPort : Z;              (* uint16 *)
  tl_IPProto : Z;                 (* uint8 *)
  tl_PktIngress : bool;
  tl_LocalPeer : bool;
  tl_HostID : string;
  tl_HostName : string;
  tl_AgentID : string;
  tl_AgentName : string;
  tl_WorkloadID : string;
  tl_WorkloadName : string;
  tl_ReportedAt : Z;
}.

Record AIPAddr := {
  aip_IP : IP;
  aip_IPNet : IPNet;
  aip_Scope : string;
  aip_Gateway : string;
}.

Record AWorkload := {
  aw_ID : string;
  aw_Name : string;
  aw_HostID : string;
  aw_HostName : string;
  aw_Domain : string;
  aw_Service : string;
  aw_PolicyMode : string;
  aw_Running : bool;
  aw_Pid : Z;                     (* int *)
  aw_Ifaces : gmap string (list AIPAddr);
}.

Record APolicyRule := {
  ar_ID : Z;                      (* uint32 *)
  ar_From : string;
  ar_To : string;
  ar_Ports : string;
  ar_Applications : list Z;
  ar_Action : Z;                  (* uint8 *)
  ar_Ingress : bool;
}.

Record Subnet := { sn_Subnet : IPNet; sn_Scope : string }.

#[export] Instance AConnection_eq_dec : EqDecision AConnection.
Proof. solve_decision. Defined.
#[export] Instance APolicyRule_eq_dec : EqDecision APolicyRule.
Proof. solve_decision. Defined.
