(* ===== verification/PolicyEngine.v ===== *)
(** * The controller's policy engine (micro-segment/internal/controller/policy/policy.go)

    [Engine] is the struct without its lock (the lock is in [Locks.v]); each
    method is a function of the state it runs in.  An operation that rebuilds
    the rule order takes [ord], the order in which its [range e.rules] visits
    the rule ids. *)

From Stdlib Require Import ZArith Lia.
From S2P Require Import Prelude GoLib GoNet CtrlTypes.
Local Open Scope Z_scope.

Record Engine := {
  rules : gmap Z PolicyRule;
  ruleOrder : list Z;
  groupModes : gmap string PolicyMode;
}.

Definition NewEngine : Engine :=
  {| rules := ∅; ruleOrder := []; groupModes := ∅ |}.

(** [ri.Priority < rj.Priority], the comparison of [updateRuleOrder].  The ids
    it sorts are keys of [rs], so that the default is never read. *)
Definition rule_prio (rs : gmap Z PolicyRule) (id : Z) : Z :=
  from_option pr_Priority 0 (rs !! id).
Definition rule_less (rs : gmap Z PolicyRule) (i j : Z) : bool :=
  rule_prio rs i <? rule_prio rs j.

Definition updateRuleOrder (ord : list Z) (e : Engine) : Engine := {|
  rules := rules e;
  ruleOrder := sort_slice (rule_less (rules e)) ord;
  groupModes := groupModes e;
|}.

Definition set_rules (rs : gmap Z PolicyRule) (e : Engine) : Engine :=
  {| rules := rs; ruleOrder := ruleOrder e; groupModes := groupModes e |}.

(** [t1], [t2]: the two readings of the clock; [ord]: the order of the range. *)
Definition AddRule (t1 t2 : Z) (ord : list Z) (rule : PolicyRule) (e : Engine)
  : Engine * go_error :=
  if pr_ID rule =? 0 then (e, Some "rule ID cannot be 0")
  else
    let rule := pr_set_UpdatedAt t2 (pr_set_CreatedAt t1 rule) in
    let e := set_rules (<[pr_ID rule := rule]> (rules e)) e in
    (updateRuleOrder ord e, None).

Definition rule_not_found (id : Z) : string := "rule " +:+ fmt_int id +:+ " not found".

Definition UpdateRule (t : Z) (rule : PolicyRule) (e : Engine) : Engine * go_error :=
  match rules e !! pr_ID rule with
  | None => (e, Some (rule_not_found (pr_ID rule)))
  | Some _ =>
      let rule := pr_set_UpdatedAt t rule in
      (set_rules (<[pr_ID rule := rule]> (rules e)) e, None)
  end.

Definition DeleteRule (ord : list Z) (id : Z) (e : Engine) : Engine * go_error :=
  match rules e !! id with
  | None => (e, Some (rule_not_found id))
  | Some _ => (updateRuleOrder ord (set_rules (delete id (rules e)) e), None)
  end.

Definition GetRule (id : Z) (e : Engine) : option PolicyRule := rules e !! id.

Definition ListRules (e : Engine) : list PolicyRule :=
  omap (fun id => rules e !! id) (ruleOrder e).

Definition SetGroupMode (groupName : string) (mode : PolicyMode) (e : Engine) : Engine :=
  {| rules := rules e; ruleOrder := ruleOrder e;
     groupModes := <[groupName := mode]> (groupModes e) |}.

Definition GetGroupMode (groupName : string) (e : Engine) : PolicyMode :=
  default PolicyModeMonitor (groupModes e !! groupName).

(** The port argument is a [uint16], the protocol a [uint8]. *)
Definition matchPort (ports : string) (port proto : Z) : bool :=
  if bool_decide (ports = "any") then true else true.

Fixpoint matchApp (apps : list Z) (app : Z) : bool :=
  match apps with
  | [] => false
  | a :: apps' => if (a =? app) || (a =? 0) then true else matchApp apps' app
  end.

Definition actionFromString (action : string) : PolicyAction :=
  if bool_decide (action = "allow") then PolicyActionAllow
  else if bool_decide (action = "deny") then PolicyActionDeny
  else PolicyActionViolate.

Definition getDefaultAction (groupName : string) (e : Engine) : PolicyAction :=
  let mode := GetGroupMode groupName e in
  if bool_decide (mode = PolicyModeProtect) then PolicyActionDeny else PolicyActionViolate.

(** The tests of one turn of [MatchPolicy]'s loop: [true] when no [continue]
    is taken. *)
Definition rule_matches (rule : PolicyRule) (from to : string) (port proto app : Z) : bool :=
  if pr_Disable rule then false
  else if bool_decide (pr_From rule <> from) && bool_decide (pr_From rule <> "any") then false
  else if bool_decide (pr_To rule <> to) && bool_decide (pr_To rule <> "any") then false
  else if bool_decide (pr_Ports rule <> "") && bool_decide (pr_Ports rule <> "any")
          && negb (matchPort (pr_Ports rule) port proto) then false
  else if (0 <? Z.of_nat (length (pr_Applications rule)))
          && negb (matchApp (pr_Applications rule) app) then false
  else true.

(** A rule id of the order with no rule is a nil dereference. *)
Fixpoint MatchPolicy_loop (e : Engine) (order : list Z) (from to : string) (port proto app : Z)
  : outcome (Z * PolicyAction) :=
  match order with
  | [] => Done (0, getDefaultAction to e)
  | id :: order' =>
      match rules e !! id with
      | None => Panicked "nil pointer dereference"
      | Some rule =>
          if rule_matches rule from to port proto app
          then Done (pr_ID rule, actionFromString (pr_Action rule))
          else MatchPolicy_loop e order' from to port proto app
      end
  end.

Definition MatchPolicy (from to : string) (port proto app : Z) (e : Engine)
  : outcome (Z * PolicyAction) :=
  MatchPolicy_loop e (ruleOrder e) from to port proto app.

Definition GetRuleCount (e : Engine) : Z := Z.of_nat (size (rules e)).

(** [ord]: the order of [range e.rules]. *)
Definition GetEnabledRuleCount (ord : list (Z * PolicyRule)) (e : Engine) : Z :=
  foldl (fun count '(_, rule) => if pr_Disable rule then count else count + 1) 0 ord.

(** ** The engine's invariant *)

(** The order holds each rule id once, a rule is stored under its own id, and
    no rule has id 0. *)
Record engine_wf (e : Engine) : Prop := {
  wf_order : visits_keys (ruleOrder e) (rules e);
  wf_id : forall id r, rules e !! id = Some r -> pr_ID r = id;
  wf_nonzero : rules e !! 0 = None;
}.

Definition engine_sorted (e : Engine) : Prop :=
  slice_sorted (rule_less (rules e)) (ruleOrder e).

(** The calls that change an engine, each with an order its range can take. *)
Inductive engine_step : Engine -> Engine -> Prop :=
| step_AddRule t1 t2 ord rule e :
    visits_keys ord (<[pr_ID rule := rule]> (rules e)) ->
    engine_step e (AddRule t1 t2 ord rule e).1
| step_UpdateRule t rule e : engine_step e (UpdateRule t rule e).1
| step_DeleteRule ord id e :
    visits_keys ord (delete id (rules e)) ->
    engine_step e (DeleteRule ord id e).1
| step_SetGroupMode g mode e : engine_step e (SetGroupMode g mode e).

Lemma visits_keys_insert (ord : list Z) (rs : gmap Z PolicyRule) id r r' :
  visits_keys ord (<[id := r]> rs) -> visits_keys ord (<[id := r']> rs).
Proof.
  intros Hv. apply visits_keys_intro; [by eapply visits_keys_NoDup|].
  intros k. rewrite (visits_keys_elem_of _ _ k Hv), !lookup_insert. by case_decide.
Qed.

Lemma visits_keys_update (ord : list Z) (rs : gmap Z PolicyRule) id r r' :
  rs !! id = Some r -> visits_keys ord rs -> visits_keys ord (<[id := r']> rs).
Proof. intros Hid Hv. rewrite <-(insert_id rs id r Hid) in Hv. by eapply visits_keys_insert. Qed.

Lemma sort_slice_visits less (ord : list Z) (rs : gmap Z PolicyRule) :
  visits_keys ord rs -> visits_keys (sort_slice less ord) rs.
Proof. unfold visits_keys. by rewrite sort_slice_perm. Qed.
#[export] Hint Resolve visits_keys_insert sort_slice_visits : microseg.

Lemma rule_less_sorts rs l : slice_sorted (rule_less rs) (sort_slice (rule_less rs) l).
Proof.
  apply sort_slice_sorted; unfold rule_less; intros *; rewrite ?Z.ltb_lt, ?Z.ltb_ge; lia.
Qed.

Lemma engine_wf_insert e id r :
  engine_wf e -> pr_ID r = id -> id <> 0 ->
  (forall k r', <[id := r]> (rules e) !! k = Some r' -> pr_ID r' = k) /\
  <[id := r]> (rules e) !! 0 = None.
Proof.
  intros [_ Hid Hz] Hr Hnz. split.
  - intros k r'. rewrite lookup_insert. case_decide; naive_solver.
  - by rewrite lookup_insert_ne.
Qed.

Lemma AddRule_wf t1 t2 ord rule e :
  visits_keys ord (<[pr_ID rule := rule]> (rules e)) ->
  engine_wf e -> engine_wf (AddRule t1 t2 ord rule e).1.
Proof.
  intros Hv Hwf. unfold AddRule. destruct (Z.eqb_spec (pr_ID rule) 0) as [|Hnz]; [done|].
  destruct (engine_wf_insert e (pr_ID rule)
    (pr_set_UpdatedAt t2 (pr_set_CreatedAt t1 rule)) Hwf eq_refl Hnz) as [H1 H2].
  split; simpl; [|exact H1|exact H2]. eauto with microseg.
Qed.

Lemma UpdateRule_wf t rule e : engine_wf e -> engine_wf (UpdateRule t rule e).1.
Proof.
  intros Hwf. unfold UpdateRule. destruct (rules e !! pr_ID rule) as [r0|] eqn:Hr; [|done].
  assert (Hnz : pr_ID rule <> 0) by (intros Hz; destruct Hwf; congruence).
  destruct (engine_wf_insert e (pr_ID rule) (pr_set_UpdatedAt t rule) Hwf eq_refl Hnz) as [H1 H2].
  split; simpl; [|exact H1|exact H2]. eapply visits_keys_update; [done|apply Hwf].
Qed.

Lemma DeleteRule_wf ord id e :
  visits_keys ord (delete id (rules e)) -> engine_wf e -> engine_wf (DeleteRule ord id e).1.
Proof.
  intros Hv [Ho Hid Hz]. unfold DeleteRule. destruct (rules e !! id); [|done].
  split; simpl; [by apply sort_slice_visits| |by rewrite lookup_delete_None; right].
  intros k r [_ Hk]%lookup_delete_Some. by apply Hid.
Qed.

Lemma engine_step_wf e e' : engine_step e e' -> engine_wf e -> engine_wf e'.
Proof.
  destruct 1; auto using AddRule_wf, UpdateRule_wf, DeleteRule_wf.
  by intros [Ho Hid Hz]; split.
Qed.

Lemma NewEngine_wf : engine_wf NewEngine.
Proof.
  split; simpl; [|by intros *; rewrite lookup_empty|done].
  unfold visits_keys. by rewrite map_to_list_empty.
Qed.

(** C19: Whatever calls are made on an engine, and in whatever order its ranges
    visit the rules, the rule order holds the id of every rule exactly once,
    every rule is stored under its own id and no rule has id 0. *)
Theorem engine_reachable_wf e : rtc engine_step NewEngine e -> engine_wf e.
Proof. apply rtc_invariant; [apply engine_step_wf|apply NewEngine_wf]. Qed.

(** ** What [MatchPolicy] returns *)

Definition match_result (e : Engine) (to : string) (r : option PolicyRule) : Z * PolicyAction :=
  match r with
  | Some r => (pr_ID r, actionFromString (pr_Action r))
  | None => (0, getDefaultAction to e)
  end.

Lemma MatchPolicy_loop_find e order from to port proto app :
  (forall id, id ∈ order -> is_Some (rules e !! id)) ->
  MatchPolicy_loop e order from to port proto app =
  Done (match_result e to
    (List.find (fun r => rule_matches r from to port proto app)
      (omap (fun id => rules e !! id) order))).
Proof.
  induction order as [|id order IH]; simpl; intros Hall; [done|].
  destruct (Hall id) as [r Hr]; [by left|]. rewrite Hr. simpl.
  destruct (rule_matches r from to port proto app); [done|].
  apply IH. intros id' Hin. apply Hall. by right.
Qed.

Lemma MatchPolicy_wf_find e from to port proto app :
  engine_wf e ->
  MatchPolicy from to port proto app e =
  Done (match_result e to
    (List.find (fun r => rule_matches r from to port proto app) (ListRules e))).
Proof.
  intros Hwf. apply MatchPolicy_loop_find. intros id Hid.
  by apply (visits_keys_elem_of _ _ id (wf_order e Hwf)).
Qed.

(** In a well-formed engine [MatchPolicy] does not panic, and its result is
    that of the first rule of [ListRules] that matches, or the default action
    of the destination group with rule id 0 when none does. *)
Theorem MatchPolicy_find e from to port proto app :
  engine_wf e ->
  MatchPolicy from to port proto app e =
  Done (match_result e to
    (List.find (fun r => rule_matches r from to port proto app) (ListRules e))).
Proof.
  intros Hwf. by apply MatchPolicy_wf_find.
Qed.

Lemma ListRules_elem_of e r :
  engine_wf e -> r ∈ ListRules e <-> rules e !! pr_ID r = Some r.
Proof.
  intros [Ho Hid _]. unfold ListRules. rewrite list_elem_of_omap. split.
  - intros (id & _ & Hr). by rewrite (Hid id r Hr).
  - intros Hr. exists (pr_ID r). split; [|done].
    apply (visits_keys_elem_of _ _ _ Ho). by exists r.
Qed.

Lemma ListRules_sorted e :
  engine_wf e -> engine_sorted e ->
  StronglySorted (fun r r' => pr_Priority r <= pr_Priority r') (ListRules e).
Proof.
  intros [Ho Hid _] Hs. unfold ListRules, engine_sorted, slice_sorted in *.
  assert (Hin : forall id, id ∈ ruleOrder e -> is_Some (rules e !! id))
    by (intros id; apply (visits_keys_elem_of _ _ _ Ho)).
  clear Ho. revert Hs Hin. generalize (ruleOrder e). intros order Hs Hin.
  induction Hs as [|id l Hl IH Hall]; simpl; [constructor|].
  destruct (Hin id) as [r Hr]; [by left|]. rewrite Hr. constructor.
  { apply IH. intros id' ?. apply Hin. by right. }
  pose proof (proj1 (Forall_forall _ _) Hall) as Hall'.
  apply Forall_forall. intros r' (id' & Hid' & Hr')%list_elem_of_omap.
  specialize (Hall' id' Hid'). unfold rule_less, rule_prio in Hall'.
  rewrite Hr, Hr' in Hall'. simpl in Hall'. by apply Z.ltb_ge in Hall'.
Qed.

Lemma StronglySorted_find {A} (R : relation A) (f : A -> bool) l x y :
  (forall z, R z z) -> StronglySorted R l -> List.find f l = Some x -> y ∈ l -> f y = true -> R x y.
Proof.
  intros HR Hs (l1 & l2 & -> & Hx & Hl1)%list_find_bool_Some Hy Hfy.
  rewrite Forall_forall in Hl1.
  apply elem_of_app in Hy as [Hy|Hy]; [by rewrite Hl1 in Hfy|].
  apply elem_of_cons in Hy as [->|Hy]; [done|].
  apply StronglySorted_app_1_r in Hs. inversion_clear Hs as [|?? _ Hall].
  rewrite Forall_forall in Hall. by apply Hall.
Qed.

(** C11: When the order is sorted, the rule [MatchPolicy] applies has the least
    priority value among the enabled rules that match the connection, and the
    default action is applied only when no rule matches. *)
Theorem MatchPolicy_best e from to port proto app :
  engine_wf e -> engine_sorted e ->
  exists id act, MatchPolicy from to port proto app e = Done (id, act) /\
    ((exists r, rules e !! id = Some r /\ rule_matches r from to port proto app = true /\
        act = actionFromString (pr_Action r) /\
        forall id' r', rules e !! id' = Some r' ->
          rule_matches r' from to port proto app = true -> pr_Priority r <= pr_Priority r')
     \/ (id = 0 /\ act = getDefaultAction to e /\
        forall id' r', rules e !! id' = Some r' ->
          rule_matches r' from to port proto app = false)).
Proof.
  intros Hwf Hs. rewrite MatchPolicy_wf_find by done.
  set (f := fun r => rule_matches r from to port proto app).
  assert (Hlist : forall id r, rules e !! id = Some r -> r ∈ ListRules e).
  { intros id r Hr. apply ListRules_elem_of; [done|]. by rewrite (wf_id e Hwf id r Hr). }
  destruct (List.find f (ListRules e)) as [r|] eqn:Hf; simpl; do 2 eexists; (split; [done|]).
  - left. exists r. apply list_find_bool_Some in Hf as Hf'.
    destruct Hf' as (l1 & l2 & Hl & Hr & _). repeat split; [|done|].
    + apply ListRules_elem_of; [done|]. rewrite Hl. set_solver.
    + intros id' r' Hr' Hm. apply (StronglySorted_find
        (fun r r' => pr_Priority r <= pr_Priority r') f (ListRules e)); eauto using ListRules_sorted.
      intros ?; lia.
  - right. repeat split. intros id' r' Hr'. apply list_find_bool_None in Hf.
    rewrite Forall_forall in Hf. eauto.
Qed.

Lemma AddRule_sorted_any t1 t2 ord rule e :
  pr_ID rule <> 0 -> engine_sorted (AddRule t1 t2 ord rule e).1.
Proof.
  intros Hnz. unfold AddRule. destruct (Z.eqb_spec (pr_ID rule) 0); [done|].
  apply rule_less_sorts.
Qed.

(** [AddRule] and [DeleteRule] leave the order sorted by priority, whatever
    the order was before and in whatever order the rules are visited. *)
Theorem AddRule_DeleteRule_sorted e t1 t2 ord rule id :
  (pr_ID rule <> 0 -> engine_sorted (AddRule t1 t2 ord rule e).1) /\
  (is_Some (rules e !! id) -> engine_sorted (DeleteRule ord id e).1).
Proof.
  split.
  - by apply AddRule_sorted_any.
  - intros [r Hr]. unfold DeleteRule. rewrite Hr. apply rule_less_sorts.
Qed.

(** ** [UpdateRule] and the order *)

Lemma UpdateRule_same_priority_sorted t rule r0 e :
  rules e !! pr_ID rule = Some r0 -> pr_Priority r0 = pr_Priority rule ->
  engine_sorted e -> engine_sorted (UpdateRule t rule e).1.
Proof.
  intros Hr Hp Hs. unfold engine_sorted, UpdateRule in *. rewrite Hr. simpl.
  assert (Hl : forall i j, rule_less (<[pr_ID rule := pr_set_UpdatedAt t rule]> (rules e)) i j
                 = rule_less (rules e) i j).
  { intros i j. unfold rule_less, rule_prio. rewrite !lookup_insert.
    repeat case_decide; subst; rewrite ?Hr; simpl; by rewrite ?Hp. }
  eapply slice_sorted_ext; [|exact Hs]. intros x y. by rewrite Hl.
Qed.

(** A state reached without [UpdateRule] calls that change a priority. *)
Inductive engine_step_prio : Engine -> Engine -> Prop :=
| prio_AddRule t1 t2 ord rule e :
    visits_keys ord (<[pr_ID rule := rule]> (rules e)) ->
    engine_step_prio e (AddRule t1 t2 ord rule e).1
| prio_UpdateRule t rule e :
    (forall r0, rules e !! pr_ID rule = Some r0 -> pr_Priority r0 = pr_Priority rule) ->
    engine_step_prio e (UpdateRule t rule e).1
| prio_DeleteRule ord id e :
    visits_keys ord (delete id (rules e)) ->
    engine_step_prio e (DeleteRule ord id e).1
| prio_SetGroupMode g mode e : engine_step_prio e (SetGroupMode g mode e).

Lemma engine_step_prio_ok e e' :
  engine_step_prio e e' ->
  engine_wf e /\ engine_sorted e -> engine_wf e' /\ engine_sorted e'.
Proof.
  destruct 1 as [t1 t2 ord rule e Hv|t rule e Hp|ord id e Hv|]; intros [Hwf Hs]; split.
  - by apply AddRule_wf.
  - destruct (decide (pr_ID rule = 0)) as [Hz|]; [|by apply AddRule_sorted_any].
    unfold AddRule. by rewrite Hz.
  - by apply UpdateRule_wf.
  - destruct (rules e !! pr_ID rule) as [r0|] eqn:Hr;
      [by eapply UpdateRule_same_priority_sorted; eauto|].
    unfold UpdateRule. by rewrite Hr.
  - by apply DeleteRule_wf.
  - unfold DeleteRule. destruct (rules e !! id); [apply rule_less_sorts|done].
  - by destruct Hwf; split.
  - done.
Qed.


(** ** Findings *)

Definition ex_rule (id prio : Z) (action : string) : PolicyRule := {|
  pr_ID := id; pr_Comment := ""; pr_From := "web"; pr_To := "db"; pr_Ports := "";
  pr_Applications := []; pr_Action := action; pr_Disable := false; pr_Priority := prio;
  pr_CreatedAt := 0; pr_UpdatedAt := 0 |}.

(** Rule 1 (deny) at priority 10, rule 2 (allow) at 20, then rule 1 moved to 30. *)
Definition ex_engine_added : Engine :=
  (AddRule 0 0 [1; 2] (ex_rule 2 20 "allow") (AddRule 0 0 [1] (ex_rule 1 10 "deny") NewEngine).1).1.
Definition ex_engine_moved : Engine := (UpdateRule 0 (ex_rule 1 30 "deny") ex_engine_added).1.

Lemma ex_engine_added_reachable : rtc engine_step NewEngine ex_engine_added.
Proof.
  eapply rtc_l; [|eapply rtc_once]; apply step_AddRule.
  - vm_decide.
  - vm_decide.
Qed.

(** [UpdateRule] does not rebuild the order: after it raises the priority
    value of a rule, [MatchPolicy] still applies that rule although another
    enabled rule that matches has a smaller priority value. *)
Theorem UpdateRule_stale_order :
  exists e id act r id' r',
    rtc engine_step NewEngine e /\
    MatchPolicy "web" "db" 3306 6 0 e = Done (id, act) /\
    rules e !! id = Some r /\ rules e !! id' = Some r' /\
    rule_matches r' "web" "db" 3306 6 0 = true /\ pr_Priority r' < pr_Priority r.
Proof.
  exists ex_engine_moved, 1, PolicyActionDeny,
    (ex_rule 1 30 "deny"), 2, (ex_rule 2 20 "allow").
  split; [|repeat split; vm_compute; reflexivity].
  eapply rtc_r; [apply ex_engine_added_reachable|apply step_UpdateRule].
Qed.

Lemma matchPort_true ports port proto : matchPort ports port proto = true.
Proof. unfold matchPort. by case_bool_decide. Qed.

(** The port and the protocol of a connection have no effect on what
    [MatchPolicy] returns, whatever the [Ports] of the rules: [matchPort] is
    constantly true. *)
Theorem MatchPolicy_ignores_ports e from to app port proto port' proto' :
  MatchPolicy from to port proto app e = MatchPolicy from to port' proto' app e.
Proof.
  unfold MatchPolicy. induction (ruleOrder e) as [|id order IH]; simpl; [done|].
  destruct (rules e !! id) as [r|]; [|done]. rewrite IH.
  replace (rule_matches r from to port' proto' app) with (rule_matches r from to port proto app);
    [done|].
  unfold rule_matches. by rewrite !matchPort_true.
Qed.

(** ** Witnesses *)

Lemma ex_engine_added_ok : engine_wf ex_engine_added /\ engine_sorted ex_engine_added.
Proof.
  eapply (rtc_invariant engine_step_prio (fun e => engine_wf e /\ engine_sorted e) NewEngine);
    [apply engine_step_prio_ok|split; [apply NewEngine_wf|constructor]|].
  eapply rtc_l; [|eapply rtc_once]; apply prio_AddRule; vm_decide.
Qed.

Lemma engine_reachable_wf_witness :
  rtc engine_step NewEngine ex_engine_added /\ engine_wf ex_engine_added.
Proof.
  split; [apply ex_engine_added_reachable|].
  apply (engine_reachable_wf ex_engine_added), ex_engine_added_reachable.
Defined.

Lemma MatchPolicy_find_witness :
  engine_wf ex_engine_added /\
  Done (match_result ex_engine_added "db"
    (List.find (fun r => rule_matches r "web" "db" 3306 6 0) (ListRules ex_engine_added)))
  = Done (1, PolicyActionDeny).
Proof.
  split; [apply ex_engine_added_ok|].
  rewrite <-(MatchPolicy_find ex_engine_added "web" "db" 3306 6 0 (proj1 ex_engine_added_ok)).
  vm_compute. reflexivity.
Defined.

Lemma MatchPolicy_best_witness :
  exists id act, MatchPolicy "web" "db" 3306 6 0 ex_engine_added = Done (id, act).
Proof.
  destruct (MatchPolicy_best ex_engine_added "web" "db" 3306 6 0
    (proj1 ex_engine_added_ok) (proj2 ex_engine_added_ok)) as (id & act & H & _).
  exists id, act. exact H.
Defined.

Lemma AddRule_DeleteRule_sorted_witness :
  engine_sorted (AddRule 0 0 [2; 1] (ex_rule 2 5 "allow") ex_engine_moved).1 /\
  engine_sorted (DeleteRule [2] 1 ex_engine_moved).1.
Proof.
  split.
  - apply (AddRule_DeleteRule_sorted ex_engine_moved 0 0 [2; 1] (ex_rule 2 5 "allow") 1). done.
  - apply (AddRule_DeleteRule_sorted ex_engine_moved 0 0 [2] (ex_rule 2 5 "allow") 1).
    eexists. reflexivity.
Defined.
