(* ===== verification/Graph.v ===== *)
(** * The topology graph (micro-segment/internal/controller/graph/graph.go)

    A node keeps its links twice: [outs] maps a link name to the nodes it
    leads to, [ins] to the nodes it comes from, each end with the attribute
    the code stores under it.  The attribute type is a parameter [A];
    [reflect.DeepEqual] is its decidable equality.  The registered callbacks
    are flags, and an operation returns the callbacks it makes in order. *)

From Stdlib Require Import ZArith Lia.
From S2P Require Import Prelude.

Section graph.
Context {A : Type} `{EqDecision A}.

(** [map[string]*graphLink], a link being its [ends]. *)
Abbreviation linkMap := (gmap string (gmap string A)).

Record graphNode := { ins : linkMap; outs : linkMap }.

Record Graph := {
  nodes : gmap string graphNode;
  cbNewLink : bool;
  cbDelNode : bool;
  cbDelLink : bool;
  cbUpdateLinkAttr : bool;
}.

Inductive graphEvent :=
| EvNewLink (src link dst : string)
| EvDelNode (node : string)
| EvDelLink (src link dst : string)
| EvUpdateLinkAttr (src link dst : string).

Definition NewGraph : Graph := {|
  nodes := ∅; cbNewLink := false; cbDelNode := false; cbDelLink := false;
  cbUpdateLinkAttr := false |}.

Definition set_nodes (ns : gmap string graphNode) (g : Graph) : Graph := {|
  nodes := ns; cbNewLink := cbNewLink g; cbDelNode := cbDelNode g;
  cbDelLink := cbDelLink g; cbUpdateLinkAttr := cbUpdateLinkAttr g |}.

Definition RegisterNewLinkHook (g : Graph) : Graph := {|
  nodes := nodes g; cbNewLink := true; cbDelNode := cbDelNode g;
  cbDelLink := cbDelLink g; cbUpdateLinkAttr := cbUpdateLinkAttr g |}.
Definition RegisterDelNodeHook (g : Graph) : Graph := {|
  nodes := nodes g; cbNewLink := cbNewLink g; cbDelNode := true;
  cbDelLink := cbDelLink g; cbUpdateLinkAttr := cbUpdateLinkAttr g |}.
Definition RegisterDelLinkHook (g : Graph) : Graph := {|
  nodes := nodes g; cbNewLink := cbNewLink g; cbDelNode := cbDelNode g;
  cbDelLink := true; cbUpdateLinkAttr := cbUpdateLinkAttr g |}.
Definition RegisterUpdateLinkAttrHook (g : Graph) : Graph := {|
  nodes := nodes g; cbNewLink := cbNewLink g; cbDelNode := cbDelNode g;
  cbDelLink := cbDelLink g; cbUpdateLinkAttr := true |}.

Definition Reset (g : Graph) : Graph := set_nodes ∅ g.

(** One end of a link map: the new map, [newlink] and [updattr]. *)
Definition ends_add (m : linkMap) (link key : string) (attr : A) : linkMap * bool * bool :=
  match m !! link with
  | None => (<[link := {[key := attr]}]> m, true, false)
  | Some ends =>
      match ends !! key with
      | None => (<[link := <[key := attr]> ends]> m, true, false)
      | Some a =>
          if decide (a = attr) then (m, false, false)
          else (<[link := <[key := attr]> ends]> m, false, true)
      end
  end.

Definition new_node : graphNode := {| ins := ∅; outs := ∅ |}.
Definition set_ins (m : linkMap) (n : graphNode) : graphNode := {| ins := m; outs := outs n |}.
Definition set_outs (m : linkMap) (n : graphNode) : graphNode := {| ins := ins n; outs := m |}.

(** The first half of [AddLink] works on the source node as it is, the second
    on the destination node as the first half left it (the same node when
    [src = dst]). *)
Definition AddLink (src link dst : string) (attr : A) (g : Graph) : Graph * list graphEvent :=
  let gn := default new_node (nodes g !! src) in
  let '(m, new1, upd1) := ends_add (outs gn) link dst attr in
  let g1 := set_nodes (<[src := set_outs m gn]> (nodes g)) g in
  let gn := default new_node (nodes g1 !! dst) in
  let '(m, new2, upd2) := ends_add (ins gn) link src attr in
  let g2 := set_nodes (<[dst := set_ins m gn]> (nodes g1)) g1 in
  let newlink := new1 || new2 in
  let updattr := upd1 || upd2 in
  (g2,
   (if newlink && cbNewLink g then [EvNewLink src link dst] else []) ++
   (if updattr && cbUpdateLinkAttr g then [EvUpdateLinkAttr src link dst] else [])).

(** A nil attribute and an absent link are not told apart by the code. *)
Definition Attr (src link dst : string) (g : Graph) : option A :=
  s ← nodes g !! src; gl ← outs s !! link; gl !! dst.

(** Remove one end of a link map: the new map, and whether the link emptied. *)
Definition ends_del (m : linkMap) (link key : string) : linkMap * bool :=
  match m !! link with
  | None => (m, false)
  | Some ends =>
      match ends !! key with
      | None => (m, false)
      | Some _ =>
          let ends := delete key ends in
          if decide (size ends = 0) then (delete link m, true)
          else (<[link := ends]> m, false)
      end
  end.

Definition DeleteLink (src link dst : string) (g : Graph) : Graph * list graphEvent :=
  match nodes g !! src, nodes g !! dst with
  | Some s, Some _ =>
      let '(m, del1) := ends_del (outs s) link dst in
      let g1 := set_nodes (<[src := set_outs m s]> (nodes g)) g in
      match nodes g1 !! dst with
      | None => (g1, [])
      | Some d =>
          let '(m, del2) := ends_del (ins d) link src in
          let g2 := set_nodes (<[dst := set_ins m d]> (nodes g1)) g1 in
          (g2,
           (if del1 && cbDelLink g then [EvDelLink src link dst] else []) ++
           (if del2 && cbDelLink g then [EvDelLink src link dst] else []))
      end
  | _, _ => (g, [])
  end.

(** [deleteLink] is [DeleteLink] without the lock and the callbacks. *)
Definition deleteLink (src link dst : string) (g : Graph) : Graph :=
  match nodes g !! src, nodes g !! dst with
  | Some s, Some _ =>
      let '(m, _) := ends_del (outs s) link dst in
      let g1 := set_nodes (<[src := set_outs m s]> (nodes g)) g in
      match nodes g1 !! dst with
      | None => g1
      | Some d =>
          let '(m, _) := ends_del (ins d) link src in
          set_nodes (<[dst := set_ins m d]> (nodes g1)) g1
      end
  | _, _ => g
  end.

(** The entries of a link map, each a link name and an end. *)
Definition link_entries (m : linkMap) : list (string * string) :=
  map_to_list m ≫= (fun '(link, ends) => pair link <$> (map_to_list ends).*1).

(** [for link, gl := range gn.ins { for n := range gl.ends { ... } }] over the
    node the loop itself changes: an entry that was removed before the loop
    reaches it is not produced.  [ord] is the order of the entries. *)
Fixpoint delete_ins_loop (node : string) (ord : list (string * string)) (g : Graph) : Graph :=
  match ord with
  | [] => g
  | (link, n) :: ord' =>
      let live := from_option (fun gn => bool_decide (is_Some (ins gn !! link ≫= (.!! n)))) false
                    (nodes g !! node) in
      delete_ins_loop node ord' (if live then deleteLink n link node g else g)
  end.

Fixpoint delete_outs_loop (node : string) (ord : list (string * string)) (g : Graph) : Graph :=
  match ord with
  | [] => g
  | (link, n) :: ord' =>
      let live := from_option (fun gn => bool_decide (is_Some (outs gn !! link ≫= (.!! n)))) false
                    (nodes g !! node) in
      delete_outs_loop node ord' (if live then deleteLink node link n g else g)
  end.

Definition DeleteNode (ord_ins ord_outs : list (string * string)) (node : string) (g : Graph)
  : Graph * list graphEvent * string :=
  match nodes g !! node with
  | None => (g, [], "")
  | Some _ =>
      let g := delete_ins_loop node ord_ins g in
      let g := delete_outs_loop node ord_outs g in
      let g := set_nodes (delete node (nodes g)) g in
      (g, (if cbDelNode g then [EvDelNode node] else []), node)
  end.

Definition Node (v : string) (g : Graph) : string :=
  match nodes g !! v with Some _ => v | None => "" end.

(** The lists below come in the order of one range; what is stated of them
    does not depend on it. *)
Definition All (g : Graph) : list string := (map_to_list (nodes g)).*1.

Definition Ins (node : string) (g : Graph) : list string :=
  match nodes g !! node with None => [] | Some n => (link_entries (ins n)).*2 end.

Definition Outs (node : string) (g : Graph) : list string :=
  match nodes g !! node with None => [] | Some n => (link_entries (outs n)).*2 end.

Definition GetNodeCount (g : Graph) : Z := Z.of_nat (size (nodes g)).

Definition GetLinkCount (g : Graph) : Z :=
  foldl (fun count '(_, n) =>
    foldl (fun count '(_, l) => (count + Z.of_nat (size (l : gmap string A)))%Z) count
      (map_to_list (outs n))) 0%Z (map_to_list (nodes g)).

(** ** Link maps *)

Definition lk (m : linkMap) (link key : string) : option A := m !! link ≫= (.!! key).

(** No link is kept without an end. *)
Definition no_empty (m : linkMap) : Prop := forall link, m !! link <> Some ∅.

Lemma lk_insert (m : linkMap) l ends l' k' :
  lk (<[l := ends]> m) l' k' = if decide (l = l') then ends !! k' else lk m l' k'.
Proof. unfold lk. rewrite lookup_insert. by case_decide. Qed.

Lemma no_empty_insert (m : linkMap) l ends :
  no_empty m -> ends <> ∅ -> no_empty (<[l := ends]> m).
Proof. intros Hm He l'. rewrite lookup_insert. case_decide; [by intros [=]|apply Hm]. Qed.

Lemma ends_add_spec m l k a m' n u :
  ends_add m l k a = (m', n, u) ->
  (forall l' k', lk m' l' k' = if decide (l' = l /\ k' = k) then Some a else lk m l' k') /\
  (no_empty m -> no_empty m') /\
  n = bool_decide (lk m l k = None) /\
  u = from_option (fun b => bool_decide (b <> a)) false (lk m l k).
Proof.
  unfold ends_add. intros Heq.
  assert (Hne : forall ends : gmap string A, <[k := a]> ends <> ∅)
    by (intros ends; apply insert_non_empty).
  destruct (m !! l) as [ends|] eqn:Hl; [destruct (ends !! k) as [b|] eqn:Hk|].
  - assert (Hlk : lk m l k = Some b) by (unfold lk; by rewrite Hl).
    destruct (decide (b = a)) as [->|Hba]; simplify_eq; rewrite Hlk; simpl;
      (split; [|split; [auto using no_empty_insert|
        split; repeat case_bool_decide; naive_solver]]).
    + intros l' k'. case_decide as Hc; [|done]. by destruct Hc as [-> ->].
    + intros l' k'. rewrite lk_insert, lookup_insert. unfold lk.
      repeat case_decide; subst; rewrite ?Hl; naive_solver.
  - assert (Hlk : lk m l k = None) by (unfold lk; by rewrite Hl).
    simplify_eq. rewrite Hlk. split; [|split; [auto using no_empty_insert|done]].
    intros l' k'. rewrite lk_insert, lookup_insert. unfold lk.
    repeat case_decide; subst; rewrite ?Hl; naive_solver.
  - assert (Hlk : lk m l k = None) by (unfold lk; by rewrite Hl).
    simplify_eq. rewrite Hlk.
    split; [|split; [intros; apply no_empty_insert; [done|apply insert_non_empty]|done]].
    intros l' k'. rewrite lk_insert, lookup_singleton. unfold lk.
    repeat case_decide; subst; rewrite ?Hl; naive_solver.
Qed.

(** The link [l] keeps no other end than [k]. *)
Definition last_end (m : linkMap) (l k : string) : Prop :=
  is_Some (lk m l k) /\ forall k', is_Some (lk m l k') -> k' = k.

Lemma ends_del_spec m l k m' b :
  ends_del m l k = (m', b) ->
  (forall l' k', lk m' l' k' = if decide (l' = l /\ k' = k) then None else lk m l' k') /\
  (no_empty m -> no_empty m') /\
  (b = true <-> last_end m l k).
Proof.
  unfold ends_del, last_end. intros Heq.
  destruct (m !! l) as [ends|] eqn:Hl; [destruct (ends !! k) as [a|] eqn:Hk|].
  - assert (Hlk : forall k', lk m l k' = ends !! k') by (intros k'; unfold lk; by rewrite Hl).
    setoid_rewrite Hlk. destruct (decide (size (delete k ends) = 0)) as [Hs|Hs]; simplify_eq.
    + apply map_size_empty_inv in Hs. split; [|split].
      * intros l' k'. unfold lk. rewrite lookup_delete.
        case_decide as Hll; [|case_decide; naive_solver]. subst. simpl. rewrite Hl. simpl.
        case_decide; [done|].
        assert (Hk' : delete k ends !! k' = None) by (by rewrite Hs).
        rewrite lookup_delete in Hk'. case_decide; naive_solver.
      * intros Hne l'. rewrite lookup_delete. by case_decide.
      * split; [intros _|done]. split; [by rewrite Hk|]. intros k' [v Hv].
        destruct (decide (k' = k)) as [|Hkk]; [done|].
        assert (Hk' : delete k ends !! k' = None) by (by rewrite Hs).
        rewrite lookup_delete_ne in Hk' by done. congruence.
    + split; [|split].
      * intros l' k'. rewrite lk_insert, lookup_delete. unfold lk.
        repeat case_decide; subst; rewrite ?Hl; naive_solver.
      * intros Hne. apply no_empty_insert; [done|]. intros He. by rewrite He in Hs.
      * split; [done|]. intros [_ Hall]. exfalso. apply Hs, map_size_empty_iff, map_eq.
        intros k'. rewrite lookup_delete, lookup_empty. case_decide; [done|].
        destruct (ends !! k') eqn:Hk'; [|done]. destruct (Hall k'); [by rewrite Hk'|done].
  - assert (Hlk : lk m l k = None) by (unfold lk; by rewrite Hl).
    simplify_eq. split; [|split; [done|]].
    + intros l' k'. case_decide as Hc; [|done]. by destruct Hc as [-> ->].
    + rewrite Hlk. split; [done|]. by intros [[] _].
  - assert (Hlk : lk m l k = None) by (unfold lk; by rewrite Hl).
    simplify_eq. split; [|split; [done|]].
    + intros l' k'. case_decide as Hc; [|done]. by destruct Hc as [-> ->].
    + rewrite Hlk. split; [done|]. by intros [[] _].
Qed.

Lemma link_entries_elem_of m l k : (l, k) ∈ link_entries m <-> is_Some (lk m l k).
Proof.
  unfold link_entries, lk. rewrite list_elem_of_bind. split.
  - intros ([l' ends] & Hin & Hm). rewrite elem_of_map_to_list in Hm.
    apply list_elem_of_fmap in Hin as (k' & [= -> ->] & Hk).
    apply list_elem_of_fmap in Hk as ([k'' v] & -> & Hk).
    rewrite elem_of_map_to_list in Hk. rewrite Hm. by exists v.
  - destruct (m !! l) as [ends|] eqn:Hl; [|by intros []]. intros [v Hv].
    exists (l, ends). rewrite elem_of_map_to_list. split; [|done].
    apply list_elem_of_fmap. exists k. split; [done|].
    apply list_elem_of_fmap. exists (k, v). by rewrite elem_of_map_to_list.
Qed.

(** ** The abstract graph

    A set of nodes and a map from links to attributes: each operation of the
    code, which keeps every link at both of its ends, implements the obvious
    operation on it. *)
Record graphSpec := {
  sp_nodes : gset string;
  sp_links : gmap (string * string * string) A;
}.

Definition sp_empty : graphSpec := {| sp_nodes := ∅; sp_links := ∅ |}.

Definition sp_add (src link dst : string) (attr : A) (sp : graphSpec) : graphSpec := {|
  sp_nodes := {[src; dst]} ∪ sp_nodes sp;
  sp_links := <[(src, link, dst) := attr]> (sp_links sp) |}.

Definition sp_del_link (src link dst : string) (sp : graphSpec) : graphSpec := {|
  sp_nodes := sp_nodes sp; sp_links := delete (src, link, dst) (sp_links sp) |}.

Definition touches (node : string) (l : string * string * string) : Prop :=
  l.1.1 = node \/ l.2 = node.
#[local] Instance touches_dec node l : Decision (touches node l).
Proof. unfold touches. apply _. Defined.

Definition sp_del_node (node : string) (sp : graphSpec) : graphSpec := {|
  sp_nodes := sp_nodes sp ∖ {[node]};
  sp_links := filter (fun p => ~ touches node p.1) (sp_links sp) |}.

Definition out_at (g : Graph) (s l d : string) : option A :=
  n ← nodes g !! s; lk (outs n) l d.
Definition in_at (g : Graph) (s l d : string) : option A :=
  n ← nodes g !! d; lk (ins n) l s.

(** [g] implements [sp]: both halves of the graph hold the links of [sp] with
    their attributes, and no link is kept without an end. *)
Record refines (g : Graph) (sp : graphSpec) : Prop := {
  rf_nodes : dom (nodes g) = sp_nodes sp;
  rf_out : forall s l d, out_at g s l d = sp_links sp !! (s, l, d);
  rf_in : forall s l d, in_at g s l d = sp_links sp !! (s, l, d);
  rf_no_empty : forall v n, nodes g !! v = Some n -> no_empty (outs n) /\ no_empty (ins n);
}.

Lemma NewGraph_refines : refines NewGraph sp_empty.
Proof.
  split; simpl.
  - apply dom_empty_L.
  - intros s l d. unfold out_at. simpl. by rewrite !lookup_empty.
  - intros s l d. unfold in_at. simpl. by rewrite !lookup_empty.
  - intros v n. by rewrite lookup_empty.
Qed.

(** The ends of a link are nodes. *)
Lemma refines_ends g sp s l d a :
  refines g sp -> sp_links sp !! (s, l, d) = Some a ->
  is_Some (nodes g !! s) /\ is_Some (nodes g !! d).
Proof.
  intros [_ Ho Hi _] Hl. pose proof (Ho s l d) as Ho'. pose proof (Hi s l d) as Hi'.
  unfold out_at, in_at in *. rewrite Hl in Ho', Hi'.
  by destruct (nodes g !! s), (nodes g !! d).
Qed.

(** Changing the [outs] of one node, then the [ins] of another (or the same). *)
Definition set_link_ends (g : Graph) (src dst : string) (mo mi : linkMap) : Graph :=
  let g1 := set_nodes (<[src := set_outs mo (default new_node (nodes g !! src))]> (nodes g)) g in
  set_nodes (<[dst := set_ins mi (default new_node (nodes g1 !! dst))]> (nodes g1)) g1.

#[local] Arguments set_link_ends : simpl never.

Lemma set_link_ends_out g src dst mo mi s l d :
  out_at (set_link_ends g src dst mo mi) s l d =
  if decide (s = src) then lk mo l d else out_at g s l d.
Proof.
  unfold out_at, set_link_ends. simpl. rewrite !lookup_insert.
  repeat case_decide; subst; simpl; try done; rewrite ?lookup_insert_ne by done; simpl;
    try (by destruct (nodes g !! _)).
Qed.

Lemma set_link_ends_in g src dst mo mi s l d :
  in_at (set_link_ends g src dst mo mi) s l d =
  if decide (d = dst) then lk mi l s else in_at g s l d.
Proof.
  unfold in_at, set_link_ends. simpl. rewrite !lookup_insert.
  repeat case_decide; subst; simpl; try done.
  by destruct (nodes g !! _).
Qed.

Lemma new_node_no_empty : no_empty (outs new_node) /\ no_empty (ins new_node).
Proof. split; intros l; simpl; by rewrite lookup_empty. Qed.

Lemma set_link_ends_no_empty g src dst mo mi :
  (forall v n, nodes g !! v = Some n -> no_empty (outs n) /\ no_empty (ins n)) ->
  no_empty mo -> no_empty mi ->
  forall v n, nodes (set_link_ends g src dst mo mi) !! v = Some n ->
    no_empty (outs n) /\ no_empty (ins n).
Proof.
  intros Hg Hmo Hmi.
  pose proof new_node_no_empty as Hnew.
  assert (Hdef : forall v, no_empty (outs (default new_node (nodes g !! v))) /\
                           no_empty (ins (default new_node (nodes g !! v)))).
  { intros v. destruct (nodes g !! v) eqn:Hv; simpl; eauto. }
  intros v n. unfold set_link_ends. simpl. rewrite !lookup_insert.
  repeat case_decide; subst; intros [= <-] || intros Hv; simpl; eauto;
    split; auto; apply Hdef.
Qed.

Lemma set_link_ends_dom g src dst mo mi :
  dom (nodes (set_link_ends g src dst mo mi)) = {[src; dst]} ∪ dom (nodes g).
Proof. unfold set_link_ends. simpl. rewrite !dom_insert_L. set_solver. Qed.

(** The attribute of the link, read in a link map of one of its ends. *)
Lemma node_out_lk g s l d :
  lk (outs (default new_node (nodes g !! s))) l d = out_at g s l d.
Proof. unfold out_at. by destruct (nodes g !! s). Qed.

Lemma node_in_lk g s l d :
  lk (ins (default new_node (nodes g !! d))) l s = in_at g s l d.
Proof. unfold in_at. by destruct (nodes g !! d). Qed.

(** The second half of an operation reads the same [ins] as the first would. *)
Lemma ins_after_outs g src dst m :
  ins (default new_node
    (<[src := set_outs m (default new_node (nodes g !! src))]> (nodes g) !! dst)) =
  ins (default new_node (nodes g !! dst)).
Proof. rewrite lookup_insert. case_decide; subst; done. Qed.

Lemma AddLink_set_ends src link dst attr g :
  let '(mo, new1, upd1) := ends_add (outs (default new_node (nodes g !! src))) link dst attr in
  let '(mi, new2, upd2) := ends_add (ins (default new_node (nodes g !! dst))) link src attr in
  AddLink src link dst attr g =
  (set_link_ends g src dst mo mi,
   (if (new1 || new2) && cbNewLink g then [EvNewLink src link dst] else []) ++
   (if (upd1 || upd2) && cbUpdateLinkAttr g then [EvUpdateLinkAttr src link dst] else [])).
Proof.
  unfold AddLink, set_link_ends.
  destruct (ends_add (outs _) link dst attr) as [[mo new1] upd1].
  cbn [nodes set_nodes]. rewrite ins_after_outs.
  by destruct (ends_add (ins _) link src attr) as [[mi new2] upd2].
Qed.

Lemma AddLink_refines src link dst attr g sp :
  refines g sp -> refines (AddLink src link dst attr g).1 (sp_add src link dst attr sp).
Proof.
  intros [Hn Ho Hi He]. pose proof (AddLink_set_ends src link dst attr g) as Heq.
  destruct (ends_add (outs _) link dst attr) as [[mo new1] upd1] eqn:E1.
  destruct (ends_add (ins _) link src attr) as [[mi new2] upd2] eqn:E2.
  apply ends_add_spec in E1 as (L1 & N1 & _), E2 as (L2 & N2 & _). rewrite Heq.
  cbn [fst]. split; cbn [sp_add sp_nodes sp_links].
  - by rewrite set_link_ends_dom, Hn.
  - intros s l d. rewrite set_link_ends_out, L1, node_out_lk, lookup_insert, <-Ho.
    repeat case_decide; naive_solver.
  - intros s l d. rewrite set_link_ends_in, L2, node_in_lk, lookup_insert, <-Hi.
    repeat case_decide; naive_solver.
  - apply set_link_ends_no_empty; [done|apply N1|apply N2].
    + destruct (nodes g !! src) as [n|] eqn:Hs; [apply (He _ _ Hs)|apply new_node_no_empty].
    + destruct (nodes g !! dst) as [n|] eqn:Hs; [apply (He _ _ Hs)|apply new_node_no_empty].
Qed.

(** [DeleteLink] and [deleteLink] change the graph alike. *)
Lemma DeleteLink_deleteLink src link dst g : (DeleteLink src link dst g).1 = deleteLink src link dst g.
Proof. unfold DeleteLink, deleteLink. by repeat case_match. Qed.

Lemma deleteLink_set_ends src link dst g s d :
  nodes g !! src = Some s -> nodes g !! dst = Some d ->
  deleteLink src link dst g =
  set_link_ends g src dst (ends_del (outs s) link dst).1 (ends_del (ins d) link src).1.
Proof.
  intros Hs Hd. unfold deleteLink, set_link_ends. rewrite Hs, Hd.
  destruct (ends_del (outs s) link dst) as [mo b1]. cbn [nodes set_nodes default fst].
  rewrite lookup_insert. case_decide as Hsd.
  - subst. rewrite Hs in Hd. simplify_eq. simpl. rewrite lookup_insert_eq.
    by destruct (ends_del _ _ _).
  - rewrite Hd. simpl. rewrite lookup_insert_ne, Hd by done. by destruct (ends_del _ _ _).
Qed.

Lemma deleteLink_refines src link dst g sp :
  refines g sp -> refines (deleteLink src link dst g) (sp_del_link src link dst sp).
Proof.
  intros Hr.
  destruct (nodes g !! src) as [s|] eqn:Hs; [destruct (nodes g !! dst) as [d|] eqn:Hd|].
  - rewrite (deleteLink_set_ends src link dst g s d) by done. destruct Hr as [Hn Ho Hi He].
    destruct (ends_del (outs s) link dst) as [mo b1] eqn:E1.
    destruct (ends_del (ins d) link src) as [mi b2] eqn:E2.
    apply ends_del_spec in E1 as (L1 & N1 & _), E2 as (L2 & N2 & _).
    cbn [fst]. split; cbn [sp_del_link sp_nodes sp_links].
    + rewrite set_link_ends_dom, <-Hn. apply elem_of_dom_2 in Hs, Hd. set_solver.
    + intros s' l d'. rewrite set_link_ends_out, L1, lookup_delete, <-Ho. unfold out_at.
      repeat case_decide; simplify_eq; rewrite ?Hs; naive_solver.
    + intros s' l d'. rewrite set_link_ends_in, L2, lookup_delete, <-Hi. unfold in_at.
      repeat case_decide; simplify_eq; rewrite ?Hd; naive_solver.
    + apply set_link_ends_no_empty; [done|apply N1, (He _ _ Hs)|apply N2, (He _ _ Hd)].
  - replace (sp_del_link src link dst sp) with sp.
    { unfold deleteLink. by rewrite Hs, Hd. }
    destruct sp as [ns ls]. unfold sp_del_link; simpl. f_equal. symmetry. apply delete_id.
    destruct (ls !! (src, link, dst)) eqn:Hl; [|done].
    destruct (refines_ends _ _ _ _ _ _ Hr Hl) as [_ [? ?]]. congruence.
  - replace (sp_del_link src link dst sp) with sp.
    { unfold deleteLink. by rewrite Hs. }
    destruct sp as [ns ls]. unfold sp_del_link; simpl. f_equal. symmetry. apply delete_id.
    destruct (ls !! (src, link, dst)) eqn:Hl; [|done].
    destruct (refines_ends _ _ _ _ _ _ Hr Hl) as [[? ?] _]. congruence.
Qed.

(** ** [DeleteNode] *)

Definition sp_del_ins (node : string) (ord : list (string * string)) (sp : graphSpec) : graphSpec :=
  foldl (fun sp '(link, n) => sp_del_link n link node sp) sp ord.
Definition sp_del_outs (node : string) (ord : list (string * string)) (sp : graphSpec) : graphSpec :=
  foldl (fun sp '(link, n) => sp_del_link node link n sp) sp ord.

Lemma sp_del_link_absent s l d sp : sp_links sp !! (s, l, d) = None -> sp_del_link s l d sp = sp.
Proof. destruct sp as [ns ls]. intros Hl. unfold sp_del_link. simpl in *. by rewrite delete_id. Qed.

Lemma delete_ins_loop_refines node ord g sp :
  refines g sp -> refines (delete_ins_loop node ord g) (sp_del_ins node ord sp).
Proof.
  revert g sp. induction ord as [|[l n] ord IH]; intros g sp Hr; simpl; [done|].
  apply IH. pose proof (rf_in g sp Hr n l node) as Hi. unfold in_at, lk in Hi.
  destruct (nodes g !! node) as [gn|]; simpl in *; [case_bool_decide as Hb|].
  - by apply deleteLink_refines.
  - rewrite sp_del_link_absent; [done|]. rewrite <-Hi. by apply eq_None_not_Some.
  - by rewrite sp_del_link_absent.
Qed.

Lemma delete_outs_loop_refines node ord g sp :
  refines g sp -> refines (delete_outs_loop node ord g) (sp_del_outs node ord sp).
Proof.
  revert g sp. induction ord as [|[l n] ord IH]; intros g sp Hr; simpl; [done|].
  apply IH. pose proof (rf_out g sp Hr node l n) as Ho. unfold out_at, lk in Ho.
  destruct (nodes g !! node) as [gn|]; simpl in *; [case_bool_decide as Hb|].
  - by apply deleteLink_refines.
  - rewrite sp_del_link_absent; [done|]. rewrite <-Ho. by apply eq_None_not_Some.
  - by rewrite sp_del_link_absent.
Qed.

Lemma sp_del_ins_lookup node ord sp s l d :
  sp_links (sp_del_ins node ord sp) !! (s, l, d) =
  if decide (d = node /\ (l, s) ∈ ord) then None else sp_links sp !! (s, l, d).
Proof.
  revert sp. induction ord as [|[l' n] ord IH]; intros sp; simpl.
  - case_decide as Hc; [|done]. destruct Hc as [_ Hc]. by apply not_elem_of_nil in Hc.
  - rewrite IH. simpl. rewrite lookup_delete.
    repeat case_decide; simplify_eq; set_solver.
Qed.

Lemma sp_del_outs_lookup node ord sp s l d :
  sp_links (sp_del_outs node ord sp) !! (s, l, d) =
  if decide (s = node /\ (l, d) ∈ ord) then None else sp_links sp !! (s, l, d).
Proof.
  revert sp. induction ord as [|[l' n] ord IH]; intros sp; simpl.
  - case_decide as Hc; [|done]. destruct Hc as [_ Hc]. by apply not_elem_of_nil in Hc.
  - rewrite IH. simpl. rewrite lookup_delete.
    repeat case_decide; simplify_eq; set_solver.
Qed.

Lemma sp_del_ins_nodes node ord sp : sp_nodes (sp_del_ins node ord sp) = sp_nodes sp.
Proof. revert sp. by induction ord as [|[l n] ord IH]; intros sp; simpl; rewrite ?IH. Qed.
Lemma sp_del_outs_nodes node ord sp : sp_nodes (sp_del_outs node ord sp) = sp_nodes sp.
Proof. revert sp. by induction ord as [|[l n] ord IH]; intros sp; simpl; rewrite ?IH. Qed.

(** Orders in which the two ranges of [DeleteNode] can visit the entries of
    the node. *)
Definition node_orders (g : Graph) (node : string) (ord_ins ord_outs : list (string * string)) : Prop :=
  forall gn, nodes g !! node = Some gn ->
    ord_ins ≡ₚ link_entries (ins gn) /\ ord_outs ≡ₚ link_entries (outs gn).

#[export] Instance node_orders_dec g node oi oo : Decision (node_orders g node oi oo).
Proof.
  unfold node_orders. destruct (nodes g !! node) as [gn|]; [|by left].
  destruct (decide (oi ≡ₚ link_entries (ins gn) /\ oo ≡ₚ link_entries (outs gn))) as [Hd|Hd].
  - left. intros ? [= <-]. exact Hd.
  - right. intros H. exact (Hd (H gn eq_refl)).
Defined.

(** After the two loops no link touches the node. *)
Lemma sp_del_loops_lookup g sp node oi oo s l d :
  refines g sp -> node_orders g node oi oo ->
  sp_links (sp_del_outs node oo (sp_del_ins node oi sp)) !! (s, l, d) =
  if decide (touches node (s, l, d)) then None else sp_links sp !! (s, l, d).
Proof.
  intros Hr Hord. rewrite sp_del_outs_lookup, sp_del_ins_lookup.
  pose proof (rf_out g sp Hr s l d) as Ho. pose proof (rf_in g sp Hr s l d) as Hi.
  unfold touches; simpl. unfold out_at, in_at in Ho, Hi.
  destruct (decide (s = node)) as [->|Hs].
  - rewrite (decide_True (P := node = node \/ _)) by auto.
    case_decide as Hc; [done|]. case_decide as Hc'; [done|]. rewrite <-Ho.
    destruct (nodes g !! node) as [gn|] eqn:Hn; [|done]. simpl.
    apply eq_None_not_Some. intros Hsome. apply Hc. split; [done|].
    destruct (Hord gn Hn) as [_ ->]. by apply link_entries_elem_of.
  - rewrite (decide_False (P := s = node /\ _)) by naive_solver.
    destruct (decide (d = node)) as [->|Hd].
    + rewrite (decide_True (P := s = node \/ _)) by auto.
      case_decide as Hc; [done|]. rewrite <-Hi.
      destruct (nodes g !! node) as [gn|] eqn:Hn; [|done]. simpl.
      apply eq_None_not_Some. intros Hsome. apply Hc. split; [done|].
      destruct (Hord gn Hn) as [-> _]. by apply link_entries_elem_of.
    + rewrite !decide_False by naive_solver. done.
Qed.

Lemma refines_del_isolated g sp node :
  refines g sp -> (forall l, touches node l -> sp_links sp !! l = None) ->
  refines (set_nodes (delete node (nodes g)) g)
    {| sp_nodes := sp_nodes sp ∖ {[node]}; sp_links := sp_links sp |}.
Proof.
  intros [Hn Ho Hi He] Hiso. split; simpl.
  - by rewrite dom_delete_L, Hn.
  - intros s l d. rewrite <-Ho. unfold out_at. simpl. rewrite lookup_delete.
    case_decide; [|done]. subst. specialize (Ho s l d). unfold out_at in Ho. rewrite Ho.
    symmetry. apply Hiso. by left.
  - intros s l d. rewrite <-Hi. unfold in_at. simpl. rewrite lookup_delete.
    case_decide; [|done]. subst. specialize (Hi s l d). unfold in_at in Hi. rewrite Hi.
    symmetry. apply Hiso. by right.
  - intros v n [_ Hv]%lookup_delete_Some. eauto.
Qed.

Lemma DeleteNode_refines oi oo node g sp :
  refines g sp -> node_orders g node oi oo ->
  refines (DeleteNode oi oo node g).1.1 (sp_del_node node sp).
Proof.
  intros Hr Hord. unfold DeleteNode. destruct (nodes g !! node) as [gn|] eqn:Hn; cbn [fst].
  - set (sp' := sp_del_outs node oo (sp_del_ins node oi sp)).
    assert (Hr' : refines (delete_outs_loop node oo (delete_ins_loop node oi g)) sp')
      by (apply delete_outs_loop_refines, delete_ins_loop_refines, Hr).
    assert (Hl : forall l, sp_links sp' !! l =
              if decide (touches node l) then None else sp_links sp !! l).
    { intros [[s l] d]. by eapply sp_del_loops_lookup. }
    assert (Heq : sp_del_node node sp =
      {| sp_nodes := sp_nodes sp' ∖ {[node]}; sp_links := sp_links sp' |}).
    { unfold sp_del_node, sp'. rewrite sp_del_outs_nodes, sp_del_ins_nodes. f_equal.
      apply map_eq. intros l. rewrite map_lookup_filter. fold sp'. rewrite Hl.
      destruct (sp_links sp !! l); simpl; [|by case_decide].
      destruct (decide (touches node l)); [by rewrite option_guard_False by naive_solver|].
      by rewrite option_guard_True by done. }
    rewrite Heq. apply refines_del_isolated; [done|].
    intros l Ht. rewrite Hl. by rewrite decide_True.
  - assert (Heq : sp_del_node node sp = sp); [|by rewrite Heq].
    destruct sp as [ns ls]. unfold sp_del_node. simpl in *. f_equal.
    + assert (node ∉ ns); [|set_solver]. pose proof (rf_nodes _ _ Hr) as Hd. simpl in Hd. rewrite <-Hd.
      by apply not_elem_of_dom.
    + apply map_filter_id. intros [[s l] d] a Ha [Ht|Ht]; simpl in *; subst;
        destruct (refines_ends _ _ _ _ _ _ Hr Ha) as [[? ?] [? ?]]; congruence.
Qed.

(** ** Histories *)

(** The calls on a graph. *)
Inductive graph_call :=
| CallReset
| CallHook
| CallAddLink (src link dst : string) (attr : A)
| CallDeleteLink (src link dst : string)
| CallDeleteNode (node : string).

(** One call on the graph.  The hook registrations only change which events
    are reported. *)
Inductive graph_step (g : Graph) : graph_call -> Graph -> Prop :=
| gs_reset : graph_step g CallReset (Reset g)
| gs_new_hook : graph_step g CallHook (RegisterNewLinkHook g)
| gs_del_node_hook : graph_step g CallHook (RegisterDelNodeHook g)
| gs_del_link_hook : graph_step g CallHook (RegisterDelLinkHook g)
| gs_upd_hook : graph_step g CallHook (RegisterUpdateLinkAttrHook g)
| gs_add src link dst attr : graph_step g (CallAddLink src link dst attr) (AddLink src link dst attr g).1
| gs_del_link src link dst : graph_step g (CallDeleteLink src link dst) (DeleteLink src link dst g).1
| gs_del_node oi oo node :
    node_orders g node oi oo -> graph_step g (CallDeleteNode node) (DeleteNode oi oo node g).1.1.

Inductive graph_run : Graph -> list graph_call -> Graph -> Prop :=
| run_nil g : graph_run g [] g
| run_cons g c g1 cs g2 : graph_step g c g1 -> graph_run g1 cs g2 -> graph_run g (c :: cs) g2.

(** What a call does to the links. *)
Definition spec_call (sp : graphSpec) (c : graph_call) : graphSpec :=
  match c with
  | CallReset => sp_empty
  | CallHook => sp
  | CallAddLink src link dst attr => sp_add src link dst attr sp
  | CallDeleteLink src link dst => sp_del_link src link dst sp
  | CallDeleteNode node => sp_del_node node sp
  end.

Lemma refines_same_nodes g g' sp : nodes g' = nodes g -> refines g sp -> refines g' sp.
Proof. intros Heq [Hn Ho Hi He]. unfold out_at, in_at in *. split; unfold out_at, in_at; by rewrite Heq. Qed.

Lemma graph_step_simulation g c g' sp :
  refines g sp -> graph_step g c g' -> refines g' (spec_call sp c).
Proof.
  intros Hr Hstep. destruct Hstep as [| | | | |src link dst attr|src link dst|oi oo node Hord];
    cbn [spec_call]; try by apply (refines_same_nodes g).
  - by apply (refines_same_nodes NewGraph), NewGraph_refines.
  - by apply AddLink_refines.
  - rewrite DeleteLink_deleteLink. by apply deleteLink_refines.
  - by apply DeleteNode_refines.
Qed.

Lemma graph_run_simulation g cs g' sp :
  refines g sp -> graph_run g cs g' -> refines g' (foldl spec_call sp cs).
Proof.
  intros Hr Hs. revert sp Hr. induction Hs as [|g c g1 cs g2 Hs _ IH]; intros sp Hr; [done|].
  by eapply IH, graph_step_simulation.
Qed.

(** ** Counting *)

Definition links_of (p : string * graphNode) : list (string * string * string) :=
  (fun '(l, d) => (p.1, l, d)) <$> link_entries (outs p.2).

Lemma link_entries_NoDup (m : linkMap) : NoDup (link_entries m).
Proof.
  unfold link_entries. apply NoDup_bind.
  - intros [l1 e1] [l2 e2] [x y] H1 H2 He1 He2.
    apply list_elem_of_fmap in He1 as (? & ? & _), He2 as (? & ? & _). simplify_eq.
    apply elem_of_map_to_list in H1, H2. congruence.
  - intros [l e] _. apply NoDup_fmap_2; [apply _|]. apply NoDup_fst_map_to_list.
  - apply NoDup_map_to_list.
Qed.

Lemma link_entries_length (m : linkMap) :
  length (link_entries m) = sum_list_with (fun p => size p.2) (map_to_list m).
Proof.
  unfold link_entries. generalize (map_to_list m) as L. intros L.
  induction L as [|[l e] L IH]; [done|]. rewrite bind_cons, length_app, IH. simpl.
  by rewrite !length_fmap, length_map_to_list.
Qed.

Lemma count_links_foldl (c : Z) (L : list (string * gmap string A)) :
  foldl (fun count '(_, l) => (count + Z.of_nat (size l))%Z) c L =
  (c + Z.of_nat (sum_list_with (fun p => size p.2) L))%Z.
Proof. revert c. induction L as [|[l e] L IH]; intros c; simpl; [lia|]. rewrite IH. lia. Qed.

Lemma GetLinkCount_links (g : Graph) :
  GetLinkCount g = Z.of_nat (length (map_to_list (nodes g) ≫= links_of)).
Proof.
  unfold GetLinkCount. rewrite <-(Z.add_0_l (Z.of_nat _)). generalize 0%Z as c.
  generalize (map_to_list (nodes g)) as L. induction L as [|[v n] L IH]; intros c; [simpl; lia|].
  rewrite bind_cons, length_app. cbn [foldl]. rewrite IH, count_links_foldl, <-link_entries_length.
  unfold links_of at 2. rewrite length_fmap. simpl. lia.
Qed.

Lemma links_of_refines g sp :
  refines g sp -> (map_to_list (nodes g) ≫= links_of) ≡ₚ (map_to_list (sp_links sp)).*1.
Proof.
  intros Hr. apply NoDup_Permutation.
  - apply NoDup_bind.
    + intros [v1 n1] [v2 n2] t H1 H2 Ht1 Ht2. unfold links_of in *.
      apply list_elem_of_fmap in Ht1 as ([? ?] & ? & _), Ht2 as ([? ?] & ? & _). simplify_eq/=.
      apply elem_of_map_to_list in H1, H2. congruence.
    + intros [v n] _. apply NoDup_fmap_2; [|apply link_entries_NoDup].
      intros [? ?] [? ?] ?; by simplify_eq.
    + apply NoDup_map_to_list.
  - apply NoDup_fst_map_to_list.
  - intros [[s l] d]. rewrite list_elem_of_bind, list_elem_of_fmap.
    pose proof (rf_out _ _ Hr s l d) as Ho. unfold out_at in Ho. split.
    + intros ([v n] & Ht & Hv). unfold links_of in Ht.
      apply list_elem_of_fmap in Ht as ([l' d'] & ? & Hin). simplify_eq/=.
      apply elem_of_map_to_list in Hv. rewrite Hv in Ho. simpl in Ho.
      apply link_entries_elem_of in Hin as [a Ha]. rewrite Ha in Ho.
      exists (v, l', d', a). split; [done|]. by apply elem_of_map_to_list.
    + intros ([[[s' l'] d'] a] & ? & Ha). simplify_eq/=. apply elem_of_map_to_list in Ha.
      rewrite Ha in Ho. destruct (nodes g !! s') as [n|] eqn:Hn; [|done]. simpl in Ho.
      exists (s', n). split; [|by apply elem_of_map_to_list]. unfold links_of.
      apply list_elem_of_fmap. exists (l', d'). split; [done|].
      apply link_entries_elem_of. eauto.
Qed.

Lemma GetLinkCount_refines g sp : refines g sp -> GetLinkCount g = Z.of_nat (size (sp_links sp)).
Proof.
  intros Hr. by rewrite GetLinkCount_links, (links_of_refines g sp Hr), length_fmap, length_map_to_list.
Qed.

Lemma GetNodeCount_refines g sp : refines g sp -> GetNodeCount g = Z.of_nat (size (sp_nodes sp)).
Proof. intros Hr. unfold GetNodeCount. by rewrite <-(rf_nodes _ _ Hr), size_dom. Qed.

(** ** What a caller observes *)

Lemma Attr_refines g sp s l d : refines g sp -> Attr s l d g = sp_links sp !! (s, l, d).
Proof. intros Hr. apply (rf_out g sp Hr). Qed.

Lemma reachable_refines cs g : graph_run NewGraph cs g -> exists sp, refines g sp.
Proof. intros Hg. eexists. apply (graph_run_simulation _ _ _ _ NewGraph_refines Hg). Qed.

Lemma AddLink_events g sp src link dst attr :
  refines g sp ->
  (AddLink src link dst attr g).2 =
  match sp_links sp !! (src, link, dst) with
  | None => if cbNewLink g then [EvNewLink src link dst] else []
  | Some b => if decide (b = attr) then []
              else if cbUpdateLinkAttr g then [EvUpdateLinkAttr src link dst] else []
  end.
Proof.
  intros Hr. pose proof (AddLink_set_ends src link dst attr g) as Heq.
  destruct (ends_add (outs _) link dst attr) as [[mo new1] upd1] eqn:E1.
  destruct (ends_add (ins _) link src attr) as [[mi new2] upd2] eqn:E2.
  apply ends_add_spec in E1 as (_ & _ & -> & ->), E2 as (_ & _ & -> & ->). rewrite Heq.
  rewrite node_out_lk, node_in_lk, (rf_out _ _ Hr), (rf_in _ _ Hr). cbn [snd].
  destruct (sp_links sp !! (src, link, dst)) as [b|]; simpl.
  - destruct (decide (b = attr)) as [->|Hne].
    + by rewrite bool_decide_eq_false_2 by naive_solver.
    + rewrite bool_decide_eq_true_2 by done. by destruct (cbUpdateLinkAttr g).
  - by rewrite app_nil_r.
Qed.

(** The events a deletion of a link reports: one when [dst] was the last end
    of the link at [src], and one more when [src] was the last at [dst]. *)
Definition only_dst (sp : graphSpec) (src link dst : string) : Prop :=
  is_Some (sp_links sp !! (src, link, dst)) /\
  forall d, is_Some (sp_links sp !! (src, link, d)) -> d = dst.
Definition only_src (sp : graphSpec) (src link dst : string) : Prop :=
  is_Some (sp_links sp !! (src, link, dst)) /\
  forall s, is_Some (sp_links sp !! (s, link, dst)) -> s = src.

Lemma DeleteLink_events_refines g sp src link dst :
  refines g sp -> cbDelLink g = true ->
  exists o i : bool,
    (DeleteLink src link dst g).2 =
      (if o then [EvDelLink src link dst] else []) ++ (if i then [EvDelLink src link dst] else []) /\
    (o = true <-> only_dst sp src link dst) /\ (i = true <-> only_src sp src link dst).
Proof.
  intros Hr Hcb. unfold DeleteLink, only_dst, only_src.
  destruct (nodes g !! src) as [s|] eqn:Hs; [destruct (nodes g !! dst) as [d|] eqn:Hd|].
  - destruct (ends_del (outs s) link dst) as [mo b1] eqn:E1. cbn [nodes set_nodes].
    assert (Hg1 : exists d', <[src := set_outs mo s]> (nodes g) !! dst = Some d' /\ ins d' = ins d).
    { rewrite lookup_insert. case_decide; [|eauto]. subst. rewrite Hs in Hd. simplify_eq. eauto. }
    destruct Hg1 as (d' & -> & ->). destruct (ends_del (ins d) link src) as [mi b2] eqn:E2.
    exists b1, b2. rewrite Hcb, !andb_true_r. split; [done|].
    apply ends_del_spec in E1 as (_ & _ & ->), E2 as (_ & _ & ->). unfold last_end.
    setoid_rewrite <-(rf_out _ _ Hr src). setoid_rewrite <-(rf_in _ _ Hr _ _ dst).
    pose proof (rf_out _ _ Hr src link dst) as Ho. rewrite <-(rf_in _ _ Hr) in Ho.
    rewrite Ho. unfold out_at, in_at in *. rewrite Hs, Hd in *. simpl in *. by rewrite <-Ho.
  - exists false, false. split; [done|]. split; (split; [done|]); intros [[a Ha] _];
      destruct (refines_ends _ _ _ _ _ _ Hr Ha) as [? [? ?]]; congruence.
  - exists false, false. split; [done|]. split; (split; [done|]); intros [[a Ha] _];
      destruct (refines_ends _ _ _ _ _ _ Hr Ha) as [[? ?] ?]; congruence.
Qed.

Lemma AddLink_Attr g sp src link dst attr s l d :
  refines g sp ->
  Attr s l d (AddLink src link dst attr g).1 =
  if decide ((s, l, d) = (src, link, dst)) then Some attr else Attr s l d g.
Proof.
  intros Hr. pose proof (AddLink_refines src link dst attr _ _ Hr) as Hr'.
  rewrite (Attr_refines _ _ _ _ _ Hr'), (Attr_refines _ _ _ _ _ Hr).
  cbn [sp_add sp_links]. rewrite lookup_insert. repeat case_decide; naive_solver.
Qed.

Lemma DeleteNode_Attr g sp node oi oo s l d :
  refines g sp -> node_orders g node oi oo ->
  Attr s l d (DeleteNode oi oo node g).1.1 =
  if decide (s = node \/ d = node) then None else Attr s l d g.
Proof.
  intros Hr Hord. pose proof (DeleteNode_refines _ _ _ _ _ Hr Hord) as Hr'.
  rewrite (Attr_refines _ _ _ _ _ Hr'), (Attr_refines _ _ _ _ _ Hr). simpl.
  rewrite map_lookup_filter. destruct (sp_links sp !! (s, l, d)); simpl; [|by case_decide].
  case_decide as Hc; unfold touches; simpl.
  - by rewrite option_guard_False by naive_solver.
  - by rewrite option_guard_True by naive_solver.
Qed.

(** ** The contract of the graph with its clients

    What a client relies on: a set [ok] of graphs closed under the calls it
    makes, in which the calls read and write one map of links. *)
Class GraphContract (ok : Graph -> Prop) : Prop := {
  gc_new : ok NewGraph;
  gc_add g src link dst attr : ok g -> ok (AddLink src link dst attr g).1;
  gc_add_attr g src link dst attr s l d : ok g ->
    Attr s l d (AddLink src link dst attr g).1 =
    if decide ((s, l, d) = (src, link, dst)) then Some attr else Attr s l d g;
  gc_del g node oi oo : ok g -> node_orders g node oi oo -> ok (DeleteNode oi oo node g).1.1;
  gc_del_attr g node oi oo s l d : ok g -> node_orders g node oi oo ->
    Attr s l d (DeleteNode oi oo node g).1.1 =
    if decide (s = node \/ d = node) then None else Attr s l d g;
  gc_count g : ok g -> exists ls, NoDup ls /\ GetLinkCount g = Z.of_nat (length ls) /\
    forall s l d, (s, l, d) ∈ ls <-> is_Some (Attr s l d g);
}.

Definition represents_links (g : Graph) : Prop := exists sp, refines g sp.

#[export] Instance represents_links_contract : GraphContract represents_links.
Proof.
  split.
  - exists sp_empty. apply NewGraph_refines.
  - intros g src link dst attr [sp Hr]. eexists. by apply AddLink_refines.
  - intros g src link dst attr s l d [sp Hr]. by eapply AddLink_Attr.
  - intros g node oi oo [sp Hr] Hord. eexists. by apply DeleteNode_refines.
  - intros g node oi oo s l d [sp Hr] Hord. by eapply DeleteNode_Attr.
  - intros g [sp Hr]. exists (map_to_list (sp_links sp)).*1.
    split; [apply NoDup_fst_map_to_list|]. split.
    + by rewrite (GetLinkCount_refines _ _ Hr), length_fmap, length_map_to_list.
    + intros s l d. rewrite (Attr_refines _ _ _ _ _ Hr).
      by rewrite <-(visits_keys_elem_of _ (sp_links sp)) by apply visits_keys_refl.
Qed.

(** C21: whatever calls are made on a graph, in whatever order its maps are
    ranged over, the two-sided adjacency of [nodes] represents the one set of
    nodes and labelled links that the same calls, made one by one on such a
    set, lead to: adding puts the link with its attribute and both ends in the
    set, deleting takes the link, or the node with its links, out of it, and a
    reset empties it.  Every attribute is read from it, the in and out sides
    agree, no emptied link entry stays behind, and the counters are the sizes
    of the two sets. *)
Theorem graph_reachable_refines cs g :
  graph_run NewGraph cs g ->
  let sp := foldl spec_call sp_empty cs in
  refines g sp /\
  (forall s l d, Attr s l d g = sp_links sp !! (s, l, d)) /\
  GetNodeCount g = Z.of_nat (size (sp_nodes sp)) /\
  GetLinkCount g = Z.of_nat (size (sp_links sp)).
Proof.
  intros Hg sp. pose proof (graph_run_simulation _ _ _ _ NewGraph_refines Hg : refines g sp) as Hr.
  split_and!; auto using GetNodeCount_refines, GetLinkCount_refines. intros s l d. by apply Attr_refines.
Qed.

(** [AddLink] makes the link readable with the given attribute and
    changes no other link; the new-link hook fires exactly when the link was
    absent and the attribute hook exactly when it was present with another
    attribute; the link counter grows by one exactly in the first case. *)
Theorem AddLink_spec cs g src link dst attr :
  graph_run NewGraph cs g ->
  let r := AddLink src link dst attr g in
  (forall s l d, Attr s l d r.1 =
     if decide ((s, l, d) = (src, link, dst)) then Some attr else Attr s l d g) /\
  r.2 = match Attr src link dst g with
        | None => if cbNewLink g then [EvNewLink src link dst] else []
        | Some b => if decide (b = attr) then []
                    else if cbUpdateLinkAttr g then [EvUpdateLinkAttr src link dst] else []
        end /\
  GetLinkCount r.1 = (GetLinkCount g + if decide (Attr src link dst g = None) then 1 else 0)%Z.
Proof.
  intros Hg r. destruct (reachable_refines _ _ Hg) as [sp Hr].
  pose proof (AddLink_refines src link dst attr _ _ Hr) as Hr'. fold r in Hr'.
  rewrite (Attr_refines _ _ _ _ _ Hr), (GetLinkCount_refines _ _ Hr), (GetLinkCount_refines _ _ Hr').
  split; [|split; [by apply AddLink_events|]].
  - intros s l d. by eapply AddLink_Attr.
  - cbn [sp_add sp_links]. rewrite map_size_insert.
    destruct (sp_links sp !! _); case_decide; simpl; naive_solver lia.
Qed.

(** [DeleteNode] of a node of the graph removes the node and every link
    into or out of it, leaves every other link with its attribute, and
    returns the node's name; the result is the same for every order in which
    its two loops visit the entries they are deleting. *)
Theorem DeleteNode_spec cs g node oi oo :
  graph_run NewGraph cs g -> node_orders g node oi oo -> node ∈ All g ->
  let r := DeleteNode oi oo node g in
  (forall v, v ∈ All r.1.1 <-> v ∈ All g /\ v <> node) /\
  (forall s l d, Attr s l d r.1.1 = if decide (s = node \/ d = node) then None else Attr s l d g) /\
  r.2 = node /\ Node node r.1.1 = "".
Proof.
  intros Hg Hord Hin r. destruct (reachable_refines _ _ Hg) as [sp Hr].
  pose proof (DeleteNode_refines _ _ _ _ _ Hr Hord) as Hr'. fold r in Hr'.
  assert (HAll : forall h v, v ∈ All h <-> v ∈ dom (nodes h)).
  { intros h v. unfold All. rewrite elem_of_dom, list_elem_of_fmap. split.
    - intros ([k n] & -> & Hk). apply elem_of_map_to_list in Hk. eauto.
    - intros [n Hn]. exists (v, n). by rewrite elem_of_map_to_list. }
  assert (Hdom : forall v, v ∈ All r.1.1 <-> v ∈ All g /\ v <> node).
  { intros v. rewrite !HAll, (rf_nodes _ _ Hr), (rf_nodes _ _ Hr'). simpl. set_solver. }
  split; [done|]. split; [|split].
  - intros s l d. by eapply DeleteNode_Attr.
  - apply HAll, elem_of_dom in Hin as [n Hn]. unfold r, DeleteNode. by rewrite Hn.
  - unfold Node. destruct (nodes r.1.1 !! node) as [n|] eqn:Hn; [|done].
    assert (node ∈ All r.1.1) as [_ ?]%Hdom by (apply HAll, elem_of_dom; eauto). done.
Qed.

(** The delete-link hook of [DeleteLink] does not fire once per deleted
    link: it fires once if [dst] was the only end of this label at [src],
    once more if [src] was the only one at [dst], and not at all when both
    nodes have other links of the label. *)
Theorem DeleteLink_events cs g src link dst :
  graph_run NewGraph cs g -> cbDelLink g = true -> is_Some (Attr src link dst g) ->
  Attr src link dst (DeleteLink src link dst g).1 = None /\
  exists o i : bool,
    (DeleteLink src link dst g).2 =
      (if o then [EvDelLink src link dst] else []) ++ (if i then [EvDelLink src link dst] else []) /\
    (o = true <-> forall d, is_Some (Attr src link d g) -> d = dst) /\
    (i = true <-> forall s, is_Some (Attr s link dst g) -> s = src).
Proof.
  intros Hg Hcb Hl. destruct (reachable_refines _ _ Hg) as [sp Hr]. split.
  - assert (Hr' : refines (DeleteLink src link dst g).1 (sp_del_link src link dst sp))
      by (rewrite DeleteLink_deleteLink; by apply deleteLink_refines).
    rewrite (Attr_refines _ _ _ _ _ Hr'). simpl. apply lookup_delete_eq.
  - destruct (DeleteLink_events_refines _ _ src link dst Hr Hcb) as (o & i & He & Ho & Hi).
    exists o, i. rewrite (Attr_refines _ _ _ _ _ Hr) in Hl.
    setoid_rewrite (Attr_refines _ _ _ _ _ Hr). unfold only_dst, only_src in *.
    rewrite Ho, Hi. split; [done|]. split; (split; [intros [_ H]; exact H|by split]).
Qed.
End graph.
Arguments graphNode A : clear implicits.
Arguments Graph A : clear implicits.
Arguments graph_call A : clear implicits.

(** ** A graph of three nodes *)

Definition ex_graph : Graph Z :=
  (AddLink "c" "tcp" "b" 3%Z (AddLink "b" "tcp" "b" 2%Z (AddLink "a" "tcp" "b" 1%Z
    (RegisterDelLinkHook NewGraph)).1).1).1.

Definition ex_calls : list (graph_call Z) :=
  [CallHook; CallAddLink "a" "tcp" "b" 1%Z; CallAddLink "b" "tcp" "b" 2%Z; CallAddLink "c" "tcp" "b" 3%Z].

Lemma ex_graph_reachable : graph_run NewGraph ex_calls ex_graph.
Proof.
  eapply run_cons; [apply gs_del_link_hook|]. eapply run_cons; [apply gs_add|].
  eapply run_cons; [apply gs_add|]. eapply run_cons; [apply gs_add|]. apply run_nil.
Qed.

Lemma graph_reachable_refines_witness :
  Attr "c" "tcp" "b" ex_graph = Some 3%Z /\ GetLinkCount ex_graph = 3%Z.
Proof.
  destruct (graph_reachable_refines ex_calls ex_graph ex_graph_reachable) as (_ & Ha & _ & Hl).
  rewrite Ha, Hl. split; vm_compute; reflexivity.
Defined.

Lemma AddLink_spec_witness :
  GetLinkCount (AddLink "a" "udp" "b" 4%Z ex_graph).1 = (GetLinkCount ex_graph + 1)%Z.
Proof.
  destruct (AddLink_spec ex_calls ex_graph "a" "udp" "b" 4%Z ex_graph_reachable) as (_ & _ & H).
  rewrite H. vm_compute. reflexivity.
Defined.

Lemma ex_graph_orders :
  node_orders ex_graph "b" [("tcp", "c"); ("tcp", "b"); ("tcp", "a")] [("tcp", "b")].
Proof. vm_decide. Qed.

Lemma DeleteNode_spec_witness :
  (DeleteNode [("tcp", "c"); ("tcp", "b"); ("tcp", "a")] [("tcp", "b")] "b" ex_graph).2 = "b" /\
  All (DeleteNode [("tcp", "c"); ("tcp", "b"); ("tcp", "a")] [("tcp", "b")] "b" ex_graph).1.1
    ≡ₚ ["a"; "c"].
Proof.
  assert (Hin : "b" ∈ All ex_graph) by vm_decide.
  destruct (DeleteNode_spec ex_calls ex_graph "b" _ _ ex_graph_reachable ex_graph_orders Hin)
    as (_ & _ & Hr & _).
  split; [exact Hr|vm_decide].
Defined.

Lemma DeleteLink_events_witness :
  Attr "c" "tcp" "b" (DeleteLink "c" "tcp" "b" ex_graph).1 = None /\
  (DeleteLink "c" "tcp" "b" ex_graph).2 = [EvDelLink "c" "tcp" "b"].
Proof.
  assert (Hl : is_Some (Attr "c" "tcp" "b" ex_graph)) by vm_decide.
  destruct (DeleteLink_events ex_calls ex_graph "c" "tcp" "b" ex_graph_reachable eq_refl Hl) as [Ha _].
  split; [exact Ha|vm_compute; reflexivity].
Defined.
