(* ===== verification/Cache.v ===== *)
(** * The controller's cache (micro-segment/internal/controller/cache/cache.go)

    The maps of the cache are finite maps, the objects they point to values:
    no code keeps a pointer it handed to the cache and writes through it.
    The clock an operation reads is its argument [now], the order of a map
    range its argument [ord]. *)

From Stdlib Require Import ZArith Lia Ascii.
From S2P Require Import Prelude GoLib GoNet CtrlTypes ProtoTypes Graph.
Local Open Scope Z_scope.

(** ** State *)

Record GraphAttr := {
  ga_Bytes : Z;                   (* uint64 *)
  ga_Sessions : Z;                (* uint32 *)
  ga_Severity : Z;                (* uint8 *)
  ga_PolicyAction : Z;            (* uint8 *)
}.

#[export] Instance GraphAttr_eq_dec : EqDecision GraphAttr.
Proof. solve_decision. Defined.

Record WorkloadCache := {
  wc_Workload : Workload;
  wc_Groups : list string;
  wc_PolicyMode : PolicyMode;
  wc_LastSeenAt : Z;
}.

Record GroupCache := {
  gpc_Group : Group;
  gpc_Members : gset string;
  gpc_UsedByPolicy : gset Z;
}.

Record PolicyCache := { pc_Rule : PolicyRule; pc_Order : Z }.
Record HostCache := { hc_Host : Host; hc_Workloads : list string }.
Record AgentCache := { agc_Agent : Agent; agc_Online : bool; agc_LastSeenAt : Z }.
Record ConnectionCache := { cc_Connection : Connection; cc_GraphKey : string }.

Record Cache := {
  workloads : gmap string WorkloadCache;
  groups : gmap string GroupCache;
  policies : gmap Z PolicyCache;
  hosts : gmap string HostCache;
  agents : gmap string AgentCache;
  wlGraph : Graph GraphAttr;
  connections : gmap string ConnectionCache;
}.

Definition NewCache : Cache := {|
  workloads := ∅; groups := ∅; policies := ∅; hosts := ∅; agents := ∅;
  wlGraph := NewGraph; connections := ∅ |}.

Definition set_workloads (m : gmap string WorkloadCache) (c : Cache) : Cache := {|
  workloads := m; groups := groups c; policies := policies c; hosts := hosts c;
  agents := agents c; wlGraph := wlGraph c; connections := connections c |}.
Definition set_groups (m : gmap string GroupCache) (c : Cache) : Cache := {|
  workloads := workloads c; groups := m; policies := policies c; hosts := hosts c;
  agents := agents c; wlGraph := wlGraph c; connections := connections c |}.
Definition set_policies (m : gmap Z PolicyCache) (c : Cache) : Cache := {|
  workloads := workloads c; groups := groups c; policies := m; hosts := hosts c;
  agents := agents c; wlGraph := wlGraph c; connections := connections c |}.
Definition set_hosts (m : gmap string HostCache) (c : Cache) : Cache := {|
  workloads := workloads c; groups := groups c; policies := policies c; hosts := m;
  agents := agents c; wlGraph := wlGraph c; connections := connections c |}.
Definition set_agents (m : gmap string AgentCache) (c : Cache) : Cache := {|
  workloads := workloads c; groups := groups c; policies := policies c; hosts := hosts c;
  agents := m; wlGraph := wlGraph c; connections := connections c |}.
Definition set_wlGraph (g : Graph GraphAttr) (c : Cache) : Cache := {|
  workloads := workloads c; groups := groups c; policies := policies c; hosts := hosts c;
  agents := agents c; wlGraph := g; connections := connections c |}.
Definition set_connections (m : gmap string ConnectionCache) (c : Cache) : Cache := {|
  workloads := workloads c; groups := groups c; policies := policies c; hosts := hosts c;
  agents := agents c; wlGraph := wlGraph c; connections := m |}.

(** ** Workloads *)

Definition AddWorkload (now : Z) (wl : Workload) (c : Cache) : Cache :=
  set_workloads (<[wl_ID wl := {|
    wc_Workload := wl; wc_Groups := []; wc_PolicyMode := wl_PolicyMode wl;
    wc_LastSeenAt := now |}]> (workloads c)) c.

Definition GetWorkload (id : string) (c : Cache) : option Workload :=
  wc_Workload <$> workloads c !! id.

(** [ord_ins] and [ord_outs] are the orders of the ranges of [DeleteNode]. *)
Definition DeleteWorkload (ord_ins ord_outs : list (string * string)) (id : string) (c : Cache)
  : Cache :=
  let c := set_workloads (delete id (workloads c)) c in
  set_wlGraph (DeleteNode ord_ins ord_outs id (wlGraph c)).1.1 c.

Definition ListWorkloads (ord : list (string * WorkloadCache)) : list Workload :=
  (fun p => wc_Workload p.2) <$> ord.

(** ** Groups *)

Definition AddGroup (group : Group) (c : Cache) : Cache :=
  set_groups (<[g_Name group := {|
    gpc_Group := group; gpc_Members := ∅; gpc_UsedByPolicy := ∅ |}]> (groups c)) c.

Definition GetGroup (name : string) (c : Cache) : option Group :=
  gpc_Group <$> groups c !! name.

Definition DeleteGroup (name : string) (c : Cache) : Cache :=
  set_groups (delete name (groups c)) c.

Definition ListGroups (ord : list (string * GroupCache)) : list Group :=
  (fun p => gpc_Group p.2) <$> ord.

Definition set_Members (m : gset string) (g : GroupCache) : GroupCache := {|
  gpc_Group := gpc_Group g; gpc_Members := m; gpc_UsedByPolicy := gpc_UsedByPolicy g |}.
Definition set_UsedByPolicy (m : gset Z) (g : GroupCache) : GroupCache := {|
  gpc_Group := gpc_Group g; gpc_Members := gpc_Members g; gpc_UsedByPolicy := m |}.

(** [if cache, ok := c.groups[name]; ok { f(cache) }] on the shared object. *)
Definition update_group (name : string) (f : GroupCache -> GroupCache) (c : Cache) : Cache :=
  match groups c !! name with
  | Some g => set_groups (<[name := f g]> (groups c)) c
  | None => c
  end.

Definition AddGroupMember (groupName workloadID : string) (c : Cache) : Cache :=
  update_group groupName (fun g => set_Members ({[workloadID]} ∪ gpc_Members g) g) c.

Definition RemoveGroupMember (groupName workloadID : string) (c : Cache) : Cache :=
  update_group groupName (fun g => set_Members (gpc_Members g ∖ {[workloadID]}) g) c.

(** ** Policies *)

Definition use_policy (id : Z) (g : GroupCache) : GroupCache :=
  set_UsedByPolicy ({[id]} ∪ gpc_UsedByPolicy g) g.
Definition unuse_policy (id : Z) (g : GroupCache) : GroupCache :=
  set_UsedByPolicy (gpc_UsedByPolicy g ∖ {[id]}) g.

Definition AddPolicy (rule : PolicyRule) (order : Z) (c : Cache) : Cache :=
  let c := set_policies (<[pr_ID rule := {| pc_Rule := rule; pc_Order := order |}]> (policies c)) c in
  let c := update_group (pr_From rule) (use_policy (pr_ID rule)) c in
  update_group (pr_To rule) (use_policy (pr_ID rule)) c.

Definition GetPolicy (id : Z) (c : Cache) : option PolicyRule := pc_Rule <$> policies c !! id.

Definition DeletePolicy (id : Z) (c : Cache) : Cache :=
  let c := match policies c !! id with
           | Some p =>
               let c := update_group (pr_From (pc_Rule p)) (unuse_policy id) c in
               update_group (pr_To (pc_Rule p)) (unuse_policy id) c
           | None => c
           end in
  set_policies (delete id (policies c)) c.

Definition ListPolicies (ord : list (Z * PolicyCache)) : list PolicyRule :=
  (fun p => pc_Rule p.2) <$> ord.

(** ** Connections and the topology *)

Definition connectionKey (conn : Connection) : string :=
  cn_ClientWL conn +:+ "-" +:+ cn_ServerWL conn.

Definition UpdateConnection (conn : Connection) (c : Cache) : Cache :=
  let key := connectionKey conn in
  let c := set_connections
    (<[key := {| cc_Connection := conn; cc_GraphKey := key |}]> (connections c)) c in
  let attr := {| ga_Bytes := cn_Bytes conn; ga_Sessions := cn_Sessions conn;
                 ga_Severity := cn_Severity conn; ga_PolicyAction := cn_PolicyAction conn |} in
  set_wlGraph (AddLink (cn_ClientWL conn) "graph" (cn_ServerWL conn) attr (wlGraph c)).1 c.

(** [ord_w] and [ord_c] are the orders of the two ranges. *)
Definition GetNetworkGraph (ord_w : list (string * WorkloadCache))
    (ord_c : list (string * ConnectionCache)) : NetworkGraph := {|
  ng_Nodes := (fun p => let wl := wc_Workload p.2 in
    {| gn_ID := wl_ID wl; gn_Name := wl_Name wl; gn_Kind := "workload";
       gn_Domain := wl_Domain wl; gn_Service := wl_Service wl;
       gn_PolicyMode := wl_PolicyMode wl |}) <$> ord_w;
  ng_Links := (fun p => let conn := cc_Connection p.2 in
    {| gl_From := cn_ClientWL conn; gl_To := cn_ServerWL conn; gl_Bytes := cn_Bytes conn;
       gl_Sessions := cn_Sessions conn; gl_Severity := cn_Severity conn;
       gl_PolicyAction := cn_PolicyAction conn |}) <$> ord_c |}.

Definition GetGraphNodeCount (c : Cache) : Z := GetNodeCount (wlGraph c).
Definition GetGraphLinkCount (c : Cache) : Z := GetLinkCount (wlGraph c).

(** ** Hosts and agents *)

Definition AddHost (host : Host) (c : Cache) : Cache :=
  set_hosts (<[h_ID host := {| hc_Host := host; hc_Workloads := [] |}]> (hosts c)) c.

Definition GetHost (id : string) (c : Cache) : option Host := hc_Host <$> hosts c !! id.

Definition ListHosts (ord : list (string * HostCache)) : list Host :=
  (fun p => hc_Host p.2) <$> ord.

Definition AddAgent (now : Z) (agent : Agent) (c : Cache) : Cache :=
  set_agents (<[ag_ID agent := {|
    agc_Agent := agent; agc_Online := true; agc_LastSeenAt := now |}]> (agents c)) c.

Definition GetAgent (id : string) (c : Cache) : option Agent := agc_Agent <$> agents c !! id.

Definition ListAgents (ord : list (string * AgentCache)) : list Agent :=
  (fun p => agc_Agent p.2) <$> ord.

Definition UpdateAgentStatus (now : Z) (id : string) (online : bool) (c : Cache) : Cache :=
  match agents c !! id with
  | Some a => set_agents (<[id := {| agc_Agent := agc_Agent a; agc_Online := online;
                                     agc_LastSeenAt := now |}]> (agents c)) c
  | None => c
  end.

(** ** Updates from the wire *)

Definition proto_ifaces (l : list pb_NetworkInterface) : gmap string (list IPAddr) :=
  foldl (fun ifaces iface =>
    <[pbn_Name iface := (fun addr => {| ia_IP := ParseIP (pbi_Ip addr);
                                        ia_Scope := pbi_Scope addr |}) <$> pbn_Addrs iface]> ifaces)
    ∅ l.

Definition proto_mode (mode : string) : PolicyMode :=
  if bool_decide (mode = "Protect") then PolicyModeProtect else PolicyModeMonitor.

(** [CreatedAt] of the new workload is the zero time. *)
Definition UpdateWorkloadFromProto (now : Z) (wl : option pb_Workload) (c : Cache) : Cache :=
  match wl with
  | None => c
  | Some wl =>
      let ifaces := proto_ifaces (pbw_Ifaces wl) in
      let mode := proto_mode (pbw_PolicyMode wl) in
      set_workloads (<[pbw_Id wl := {|
        wc_Workload := {|
          wl_ID := pbw_Id wl; wl_Name := pbw_Name wl; wl_Domain := pbw_Domain wl;
          wl_HostID := pbw_HostId wl; wl_HostName := pbw_HostName wl; wl_Image := pbw_Image wl;
          wl_Service := pbw_Service wl; wl_PolicyMode := mode; wl_Running := pbw_Running wl;
          wl_Ifaces := ifaces; wl_CreatedAt := 0 |};
        wc_Groups := []; wc_PolicyMode := mode; wc_LastSeenAt := now |}]> (workloads c)) c
  end.

Definition proto_connection (conn : pb_Connection) : Connection := {|
  cn_ClientWL := pbc_ClientWl conn; cn_ServerWL := pbc_ServerWl conn;
  cn_ClientIP := pbc_ClientIp conn; cn_ServerIP := pbc_ServerIp conn;
  cn_ClientPort := u16 (pbc_ClientPort conn); cn_ServerPort := u16 (pbc_ServerPort conn);
  cn_IPProto := u8 (pbc_IpProto conn); cn_Application := pbc_Application conn;
  cn_Bytes := pbc_Bytes conn; cn_Sessions := pbc_Sessions conn;
  cn_FirstSeenAt := pbc_FirstSeenAt conn; cn_LastSeenAt := pbc_LastSeenAt conn;
  cn_ThreatID := pbc_ThreatId conn; cn_Severity := u8 (pbc_Severity conn);
  cn_PolicyAction := u8 (pbc_PolicyAction conn); cn_PolicyID := pbc_PolicyId conn;
  cn_Ingress := pbc_Ingress conn; cn_ExternalPeer := pbc_ExternalPeer conn;
  cn_LocalPeer := pbc_LocalPeer conn |}.

Definition UpdateConnectionFromProto (conn : option pb_Connection) (c : Cache) : Cache :=
  match conn with
  | None => c
  | Some conn =>
      let ctrlConn := proto_connection conn in
      let key := cn_ClientWL ctrlConn +:+ "-" +:+ cn_ServerWL ctrlConn in
      let c := set_connections
        (<[key := {| cc_Connection := ctrlConn; cc_GraphKey := key |}]> (connections c)) c in
      let attr := {| ga_Bytes := cn_Bytes ctrlConn; ga_Sessions := cn_Sessions ctrlConn;
                     ga_Severity := cn_Severity ctrlConn;
                     ga_PolicyAction := cn_PolicyAction ctrlConn |} in
      set_wlGraph
        (AddLink (cn_ClientWL ctrlConn) "graph" (cn_ServerWL ctrlConn) attr (wlGraph c)).1 c
  end.

(** ** Histories *)

(** What a call tells of the topology. *)
Inductive cache_event :=
| EvWorkload (id : string)
| EvDeleted (id : string)
| EvConnection (conn : Connection)
| EvOther.

(** One call on the cache.  With [readd] false a policy is only added under
    an id the cache does not hold. *)
Inductive cache_call (readd : bool) (c : Cache) : cache_event -> Cache -> Prop :=
| cs_AddWorkload now wl : cache_call readd c (EvWorkload (wl_ID wl)) (AddWorkload now wl c)
| cs_DeleteWorkload oi oo id :
    node_orders (wlGraph c) id oi oo -> cache_call readd c (EvDeleted id) (DeleteWorkload oi oo id c)
| cs_AddGroup group : cache_call readd c EvOther (AddGroup group c)
| cs_DeleteGroup name : cache_call readd c EvOther (DeleteGroup name c)
| cs_AddGroupMember name id : cache_call readd c EvOther (AddGroupMember name id c)
| cs_RemoveGroupMember name id : cache_call readd c EvOther (RemoveGroupMember name id c)
| cs_AddPolicy rule order :
    readd = true \/ policies c !! pr_ID rule = None -> cache_call readd c EvOther (AddPolicy rule order c)
| cs_DeletePolicy id : cache_call readd c EvOther (DeletePolicy id c)
| cs_UpdateConnection conn : cache_call readd c (EvConnection conn) (UpdateConnection conn c)
| cs_AddHost host : cache_call readd c EvOther (AddHost host c)
| cs_AddAgent now agent : cache_call readd c EvOther (AddAgent now agent c)
| cs_UpdateAgentStatus now id online : cache_call readd c EvOther (UpdateAgentStatus now id online c)
| cs_UpdateWorkloadFromProto now wl :
    cache_call readd c (from_option (fun wl => EvWorkload (pbw_Id wl)) EvOther wl)
      (UpdateWorkloadFromProto now wl c)
| cs_UpdateConnectionFromProto conn :
    cache_call readd c (from_option (fun conn => EvConnection (proto_connection conn)) EvOther conn)
      (UpdateConnectionFromProto conn c).

Definition cache_step (readd : bool) (c c' : Cache) : Prop := exists e, cache_call readd c e c'.

Lemma call_step readd c e c' : cache_call readd c e c' -> cache_step readd c c'.
Proof. by exists e. Qed.

(** A run from the empty cache, the last event first. *)
Inductive cache_run : list cache_event -> Cache -> Prop :=
| run_new : cache_run [] NewCache
| run_call evs c e c' : cache_run evs c -> cache_call true c e c' -> cache_run (e :: evs) c'.

Lemma cache_run_reachable evs c : cache_run evs c -> rtc (cache_step true) NewCache c.
Proof. induction 1 as [|evs c e c' _ IH Hc]; [done|]. eapply rtc_r; [exact IH|by eapply call_step]. Qed.

(** Every entry of a map sits under the key its own object names. *)
Definition keyed {K V} `{Countable K} (key : V -> K) (m : gmap K V) : Prop :=
  forall k v, m !! k = Some v -> key v = k.

Section keyed.
Context {K V : Type} `{Countable K} (key : V -> K).
Implicit Types m : gmap K V.

Lemma keyed_empty : keyed key (∅ : gmap K V).
Proof. intros k v Hk. by rewrite lookup_empty in Hk. Qed.

Lemma keyed_insert m k v : key v = k -> keyed key m -> keyed key (<[k := v]> m).
Proof. intros Hv Hm k' v' Hk. rewrite lookup_insert in Hk. case_decide; naive_solver. Qed.

Lemma keyed_delete m k : keyed key m -> keyed key (delete k m).
Proof. intros Hm k' v' Hk. apply lookup_delete_Some in Hk. naive_solver. Qed.
End keyed.
#[export] Hint Resolve keyed_empty keyed_insert keyed_delete : microseg.

(** The attribute a link of the topology has for a connection. *)
Definition conn_attr (conn : Connection) : GraphAttr := {|
  ga_Bytes := cn_Bytes conn; ga_Sessions := cn_Sessions conn;
  ga_Severity := cn_Severity conn; ga_PolicyAction := cn_PolicyAction conn |}.

Lemma UpdateConnectionFromProto_UpdateConnection conn c :
  UpdateConnectionFromProto (Some conn) c = UpdateConnection (proto_connection conn) c.
Proof. reflexivity. Qed.

Section cache_wf.
Context (ok : Graph GraphAttr -> Prop) `{GC : !GraphContract ok}.

(** Entries are keyed by their objects, the graph is one the contract talks
    of, every link of the graph is named [graph] and joins the ends of a key
    of [connections], and the link of a cached connection, when the graph has
    it, has that connection's attribute. *)
Record cache_wf (c : Cache) : Prop := {
  cw_workloads : keyed (fun w => wl_ID (wc_Workload w)) (workloads c);
  cw_groups : keyed (fun g => g_Name (gpc_Group g)) (groups c);
  cw_policies : keyed (fun p => pr_ID (pc_Rule p)) (policies c);
  cw_hosts : keyed (fun h => h_ID (hc_Host h)) (hosts c);
  cw_agents : keyed (fun a => ag_ID (agc_Agent a)) (agents c);
  cw_connections : keyed (fun cc => connectionKey (cc_Connection cc)) (connections c);
  cw_graph_keys : keyed cc_GraphKey (connections c);
  cw_graph : ok (wlGraph c);
  cw_links : forall s l d a, Attr s l d (wlGraph c) = Some a ->
    l = "graph" /\ is_Some (connections c !! (s +:+ "-" +:+ d));
  cw_attr : forall k cc a, connections c !! k = Some cc ->
    let conn := cc_Connection cc in
    Attr (cn_ClientWL conn) "graph" (cn_ServerWL conn) (wlGraph c) = Some a -> a = conn_attr conn;
}.

Lemma NewCache_wf : cache_wf NewCache.
Proof.
  split; simpl; auto with microseg.
  - apply gc_new.
  - intros s l d a Ha. done.
  - intros k cc a Hk. by rewrite lookup_empty in Hk.
Qed.

Lemma update_group_keyed name f c :
  (forall g, gpc_Group (f g) = gpc_Group g) ->
  keyed (fun g => g_Name (gpc_Group g)) (groups c) ->
  keyed (fun g => g_Name (gpc_Group g)) (groups (update_group name f c)).
Proof.
  intros Hf Hk. unfold update_group. destruct (groups c !! name) as [g|] eqn:Hg; [|done].
  apply keyed_insert; [|done]. rewrite Hf. by apply Hk.
Qed.

(** A group update leaves the rest of the cache as it is. *)
Lemma update_group_rest name f c :
  let c' := update_group name f c in
  workloads c' = workloads c /\ policies c' = policies c /\ hosts c' = hosts c /\
  agents c' = agents c /\ wlGraph c' = wlGraph c /\ connections c' = connections c.
Proof. unfold update_group. by destruct (groups c !! name). Qed.

Lemma update_group_wf name f c :
  (forall g, gpc_Group (f g) = gpc_Group g) -> cache_wf c -> cache_wf (update_group name f c).
Proof.
  intros Hf Hwf. destruct (update_group_rest name f c) as (E1 & E2 & E3 & E4 & E5 & E6).
  split; rewrite ?E1, ?E2, ?E3, ?E4, ?E5, ?E6; try apply Hwf.
  apply update_group_keyed; [done|]. apply Hwf.
Qed.

Lemma UpdateConnection_wf conn c : cache_wf c -> cache_wf (UpdateConnection conn c).
Proof.
  intros Hwf. split; simpl; try apply Hwf.
  - apply keyed_insert; [done|]. apply Hwf.
  - apply keyed_insert; [done|]. apply Hwf.
  - apply gc_add, Hwf.
  - intros s l d a. rewrite gc_add_attr by apply Hwf. rewrite lookup_insert. unfold connectionKey.
    case_decide as Hd.
    + intros [= <-]. simplify_eq. split; [done|]. case_decide; [by eexists|done].
    + intros Ha. destruct (cw_links c Hwf _ _ _ _ Ha) as [-> Hc]. split; [done|].
      case_decide; [by eexists|done].
  - intros k cc a Hk. rewrite gc_add_attr by apply Hwf. case_decide as Hd.
    + intros [= <-]. rewrite lookup_insert in Hk. case_decide as Hkk; [by simplify_eq/=|].
      exfalso. apply Hkk. injection Hd as Hc Hs.
      rewrite <-(cw_connections c Hwf _ _ Hk). unfold connectionKey. by rewrite Hc, Hs.
    + rewrite lookup_insert in Hk. case_decide as Hkk; [by simplify_eq/=|].
      by apply (cw_attr c Hwf k).
Qed.

Lemma DeleteWorkload_wf oi oo id c :
  node_orders (wlGraph c) id oi oo -> cache_wf c -> cache_wf (DeleteWorkload oi oo id c).
Proof.
  intros Hord Hwf. split; simpl; try apply Hwf.
  - apply keyed_delete, Hwf.
  - apply gc_del; [apply Hwf|done].
  - intros s l d a. rewrite gc_del_attr by (apply Hwf || done). case_decide; [done|].
    apply (cw_links c Hwf).
  - intros k cc a Hk. rewrite gc_del_attr by (apply Hwf || done). case_decide; [done|].
    by apply (cw_attr c Hwf k).
Qed.

Lemma cache_step_wf readd c c' : cache_step readd c c' -> cache_wf c -> cache_wf c'.
Proof.
  intros [e Hs] Hwf. destruct Hs as [| | | | | |rule order|id| | |now agent|now id online|now [wl|]|[conn|]];
    try (split; simpl; try apply Hwf; (apply keyed_insert || apply keyed_delete);
         first [done | apply Hwf]); try done.
  - by apply DeleteWorkload_wf.
  - by apply update_group_wf.
  - by apply update_group_wf.
  - unfold AddPolicy. do 2 (apply update_group_wf; [done|]).
    split; simpl; try apply Hwf. apply keyed_insert; [done|]. apply Hwf.
  - unfold DeletePolicy. set (c' := match policies c !! id with Some _ => _ | None => c end).
    assert (Hc' : cache_wf c').
    { subst c'. destruct (policies c !! id); [|done]. by repeat apply update_group_wf. }
    split; simpl; try apply Hc'. apply keyed_delete, Hc'.
  - by apply UpdateConnection_wf.
  - unfold UpdateAgentStatus. destruct (agents c !! id) as [a|] eqn:Ha; [|done].
    split; simpl; try apply Hwf. apply keyed_insert; [|apply Hwf]. exact (cw_agents c Hwf _ _ Ha).
  - rewrite UpdateConnectionFromProto_UpdateConnection. by apply UpdateConnection_wf.
Qed.

Lemma cache_reachable_wf_from readd c : rtc (cache_step readd) NewCache c -> cache_wf c.
Proof. apply rtc_invariant; [|apply NewCache_wf]. intros; by eapply cache_step_wf. Qed.
End cache_wf.

(** ** Policy references of groups *)

Lemma update_group_lookup name f c n :
  groups (update_group name f c) !! n =
  if decide (n = name) then f <$> groups c !! n else groups c !! n.
Proof.
  unfold update_group. destruct (groups c !! name) as [g|] eqn:Hg; simpl.
  - rewrite lookup_insert. case_decide; [subst; by rewrite decide_True, Hg by done|].
    by rewrite decide_False by congruence.
  - case_decide; [subst; by rewrite Hg|done].
Qed.

(** A policy id a group refers to is that of a cached rule from or to it. *)
Definition refs_sound (c : Cache) : Prop :=
  forall name g id, groups c !! name = Some g -> id ∈ gpc_UsedByPolicy g ->
    exists p, policies c !! id = Some p /\ (pr_From (pc_Rule p) = name \/ pr_To (pc_Rule p) = name).

Lemma refs_sound_ext c c' :
  policies c' = policies c ->
  (forall n g', groups c' !! n = Some g' ->
     gpc_UsedByPolicy g' = ∅ \/
     exists g, groups c !! n = Some g /\ gpc_UsedByPolicy g' = gpc_UsedByPolicy g) ->
  refs_sound c -> refs_sound c'.
Proof.
  intros Hp Hg Hs n g' id Hn Hid. rewrite Hp.
  destruct (Hg n g' Hn) as [He|(g & Hn' & He)]; rewrite He in Hid; [set_solver|].
  by apply (Hs n g).
Qed.

Lemma AddPolicy_refs_sound rule order c :
  policies c !! pr_ID rule = None -> refs_sound c -> refs_sound (AddPolicy rule order c).
Proof.
  intros Hfresh Hs n g id. unfold AddPolicy.
  destruct (update_group_rest (pr_To rule) (use_policy (pr_ID rule))
    (update_group (pr_From rule) (use_policy (pr_ID rule))
       (set_policies (<[pr_ID rule := {| pc_Rule := rule; pc_Order := order |}]> (policies c)) c)))
    as (_ & -> & _).
  destruct (update_group_rest (pr_From rule) (use_policy (pr_ID rule))
       (set_policies (<[pr_ID rule := {| pc_Rule := rule; pc_Order := order |}]> (policies c)) c))
    as (_ & -> & _).
  rewrite !update_group_lookup. simpl. intros Hn Hid. rewrite lookup_insert.
  destruct (decide (pr_ID rule = id)) as [<-|Hne].
  - eexists. split; [done|]. simpl. revert Hn.
    destruct (decide (n = pr_To rule)) as [->|]; [by right|].
    destruct (decide (n = pr_From rule)) as [->|]; [by left|]. intros Hn.
    destruct (Hs n g _ Hn Hid) as (p & Hp & _). congruence.
  - assert (exists g0, groups c !! n = Some g0 /\ id ∈ gpc_UsedByPolicy g0) as (g0 & Hg0 & Hid0).
    { destruct (groups c !! n) as [g0|]; [|by repeat case_decide]. exists g0. split; [done|].
      unfold use_policy, set_UsedByPolicy in Hn. repeat case_decide; simplify_eq/=; set_solver. }
    by apply (Hs n g0).
Qed.

Lemma DeletePolicy_refs_sound id c : refs_sound c -> refs_sound (DeletePolicy id c).
Proof.
  intros Hs n g i. unfold DeletePolicy. simpl.
  destruct (policies c !! id) as [p|] eqn:Hp; simpl.
  - destruct (update_group_rest (pr_To (pc_Rule p)) (unuse_policy id)
      (update_group (pr_From (pc_Rule p)) (unuse_policy id) c)) as (_ & -> & _).
    destruct (update_group_rest (pr_From (pc_Rule p)) (unuse_policy id) c) as (_ & -> & _).
    rewrite !update_group_lookup. intros Hn Hi.
    assert (exists g0, groups c !! n = Some g0 /\ i ∈ gpc_UsedByPolicy g0 /\
      (n = pr_To (pc_Rule p) \/ n = pr_From (pc_Rule p) -> i <> id)) as (g0 & Hg0 & Hi0 & Hne).
    { destruct (groups c !! n) as [g0|]; [|by repeat case_decide]. exists g0. split; [done|].
      unfold unuse_policy, set_UsedByPolicy in Hn. repeat case_decide; simplify_eq/=; set_solver. }
    destruct (Hs n g0 i Hg0 Hi0) as (q & Hq & Hqn). exists q. split; [|done].
    rewrite lookup_delete_ne; [done|]. intros ->. rewrite Hp in Hq. simplify_eq.
    destruct Hqn as [<-|<-]; apply Hne; auto.
  - intros Hn Hi. destruct (Hs n g i Hn Hi) as (q & Hq & Hqn). exists q. split; [|done].
    rewrite lookup_delete_ne; [done|]. intros ->. congruence.
Qed.

Lemma cache_step_refs_sound c c' : cache_step false c c' -> refs_sound c -> refs_sound c'.
Proof.
  intros [e Hs]. destruct Hs as [| |group|name|name id|name id|rule order Hf|id| | | |now id online|now [wl|]|[conn|]];
    try (apply refs_sound_ext; [done|]; simpl; intros n g Hg; right; by exists g).
  - apply refs_sound_ext; [done|]. simpl. intros n g Hg. rewrite lookup_insert in Hg.
    case_decide; [left; by simplify_eq/=|right; by exists g].
  - apply refs_sound_ext; [done|]. simpl. intros n g [_ Hg]%lookup_delete_Some. right. by exists g.
  - apply refs_sound_ext; [apply update_group_rest|]. intros n g'. unfold AddGroupMember.
    rewrite update_group_lookup. case_decide; [|by right; exists g'].
    intros (g & Hg & ->)%fmap_Some. right. by exists g.
  - apply refs_sound_ext; [apply update_group_rest|]. intros n g'. unfold RemoveGroupMember.
    rewrite update_group_lookup. case_decide; [|by right; exists g'].
    intros (g & Hg & ->)%fmap_Some. right. by exists g.
  - destruct Hf as [|Hf]; [done|]. by apply AddPolicy_refs_sound.
  - apply DeletePolicy_refs_sound.
  - unfold UpdateAgentStatus. destruct (agents c !! id); [|done].
    apply refs_sound_ext; [done|]; simpl; intros n g Hg; right; by exists g.
Qed.

(** ** Keys of connections *)

Definition dash : ascii := "-"%char.

Lemma pair_key_inj s d s' d' :
  has_byte dash s = false -> has_byte dash s' = false ->
  s +:+ "-" +:+ d = s' +:+ "-" +:+ d' -> s = s' /\ d = d'.
Proof. intros H H' Heq. by apply (app_byte_inj dash). Qed.

(** ** The topology of a run *)

(** The last report of a connection between two workloads, and the last since
    either was deleted. *)
Fixpoint last_report (src dst : string) (evs : list cache_event) : option Connection :=
  match evs with
  | [] => None
  | EvConnection conn :: evs =>
      if decide (cn_ClientWL conn = src /\ cn_ServerWL conn = dst) then Some conn else last_report src dst evs
  | _ :: evs => last_report src dst evs
  end.

Fixpoint live_report (src dst : string) (evs : list cache_event) : option Connection :=
  match evs with
  | [] => None
  | EvConnection conn :: evs =>
      if decide (cn_ClientWL conn = src /\ cn_ServerWL conn = dst) then Some conn else live_report src dst evs
  | EvDeleted id :: evs => if decide (src = id \/ dst = id) then None else live_report src dst evs
  | _ :: evs => live_report src dst evs
  end.

(** The workload was stored, and not deleted since. *)
Fixpoint stored (id : string) (evs : list cache_event) : bool :=
  match evs with
  | [] => false
  | EvWorkload i :: evs => if decide (i = id) then true else stored id evs
  | EvDeleted i :: evs => if decide (i = id) then false else stored id evs
  | _ :: evs => stored id evs
  end.

Definition clients_ok (evs : list cache_event) : Prop :=
  forall conn, EvConnection conn ∈ evs -> has_byte dash (cn_ClientWL conn) = false.

Definition conn_entry (conn : Connection) : ConnectionCache :=
  {| cc_Connection := conn; cc_GraphKey := connectionKey conn |}.

Record topology_of (evs : list cache_event) (c : Cache) : Prop := {
  to_connections : forall src dst, has_byte dash src = false ->
    connections c !! (src +:+ "-" +:+ dst) = conn_entry <$> last_report src dst evs;
  to_clients : forall k cc, connections c !! k = Some cc -> has_byte dash (cn_ClientWL (cc_Connection cc)) = false;
  to_links : forall src l dst, Attr src l dst (wlGraph c) =
    if decide (l = "graph") then conn_attr <$> live_report src dst evs else None;
  to_workloads : forall id, is_Some (workloads c !! id) <-> stored id evs = true
}.

(** The two caches have the same topology. *)
Definition same_topology (c c' : Cache) : Prop :=
  connections c' = connections c /\ wlGraph c' = wlGraph c /\ workloads c' = workloads c.

Lemma update_group_topology name f c0 c : same_topology c0 c -> same_topology c0 (update_group name f c).
Proof.
  intros (? & ? & ?). destruct (update_group_rest name f c) as (? & _ & _ & _ & ? & ?).
  split_and!; congruence.
Qed.

Lemma topology_other evs c c' : same_topology c c' -> topology_of evs c -> topology_of (EvOther :: evs) c'.
Proof.
  intros (E1 & E2 & E3) [H1 H2 H3 H4]. split; cbn [last_report live_report stored]; by rewrite ?E1, ?E2, ?E3.
Qed.

(** The calls that tell nothing of the topology leave it as it is. *)
Lemma other_same readd c c' : cache_call readd c EvOther c' -> same_topology c c'.
Proof.
  intros Hc. remember EvOther as e eqn:He.
  destruct Hc as [| | | | | |rule order|id| | | |now id online|now [wl|]|[conn|]]; try done;
    try by apply update_group_topology.
  - by do 2 apply update_group_topology.
  - unfold DeletePolicy. by destruct (policies c !! id); [do 2 apply update_group_topology|].
  - unfold UpdateAgentStatus. by destruct (agents c !! id).
Qed.

Lemma topology_workload evs c w id :
  topology_of evs c -> topology_of (EvWorkload id :: evs) (set_workloads (<[id := w]> (workloads c)) c).
Proof.
  intros [H1 H2 H3 H4]. split; cbn [last_report live_report stored workloads set_workloads]; try done.
  intros i. rewrite lookup_insert. by case_decide.
Qed.

Lemma topology_connection evs c conn :
  represents_links (wlGraph c) -> has_byte dash (cn_ClientWL conn) = false ->
  topology_of evs c -> topology_of (EvConnection conn :: evs) (UpdateConnection conn c).
Proof.
  intros Hok Hd [H1 H2 H3 H4].
  split; cbn [last_report live_report stored connections workloads wlGraph UpdateConnection set_wlGraph set_connections];
    [| | |done].
  - intros src dst Hs. rewrite lookup_insert. unfold connectionKey.
    case_decide as Hk.
    + apply pair_key_inj in Hk as [<- <-]; [|done..]. by rewrite decide_True.
    + rewrite decide_False by naive_solver. by apply H1.
  - intros k cc. rewrite lookup_insert. case_decide; [by intros [= <-]|]. apply H2.
  - intros src l dst. rewrite gc_add_attr by done. rewrite H3. fold (conn_attr conn).
    repeat case_decide; naive_solver.
Qed.

Lemma topology_delete evs c oi oo id :
  represents_links (wlGraph c) -> node_orders (wlGraph c) id oi oo ->
  topology_of evs c -> topology_of (EvDeleted id :: evs) (DeleteWorkload oi oo id c).
Proof.
  intros Hok Hord [H1 H2 H3 H4].
  split; cbn [last_report live_report stored connections workloads wlGraph DeleteWorkload set_wlGraph set_workloads];
    [done|done| |].
  - intros src l dst. rewrite (gc_del_attr (ok := represents_links)) by done. rewrite H3. by repeat case_decide.
  - intros i. rewrite lookup_delete. case_decide; [|done]. split; [by intros []|done].
Qed.

Lemma cache_run_topology evs c : cache_run evs c -> clients_ok evs -> topology_of evs c.
Proof.
  induction 1 as [|evs c e c' Hrun IH Hc]; intros Hok.
  - split; simpl; try done; [by intros src dst; rewrite lookup_empty..| |].
    + intros src l dst. by case_decide.
    + intros id. rewrite lookup_empty. split; [by intros []|done].
  - assert (Ht : topology_of evs c) by (apply IH; intros conn Hin; apply Hok; by right).
    assert (Hg : represents_links (wlGraph c))
      by apply (cw_graph _ _ (cache_reachable_wf_from represents_links _ _ (cache_run_reachable _ _ Hrun))).
    destruct e as [id|id|conn|]; [| |assert (has_byte dash (cn_ClientWL conn) = false) by (apply Hok; by left)|];
      [..|by apply (topology_other _ c), Ht; eapply other_same]; inversion Hc as
      [now wl|oi oo ? Hord| | | | | | | | | | |now [wl|]|[cn|]]; simplify_eq/=.
    + by apply topology_workload.
    + by apply topology_workload.
    + by apply topology_delete.
    + by apply topology_connection.
    + by apply topology_connection.
Qed.

(** *** What is reported *)

Definition conn_link (conn : Connection) : GraphLink := {|
  gl_From := cn_ClientWL conn; gl_To := cn_ServerWL conn; gl_Bytes := cn_Bytes conn;
  gl_Sessions := cn_Sessions conn; gl_Severity := cn_Severity conn; gl_PolicyAction := cn_PolicyAction conn |}.

Lemma last_report_ends src dst evs conn :
  last_report src dst evs = Some conn -> cn_ClientWL conn = src /\ cn_ServerWL conn = dst.
Proof.
  induction evs as [|[id|id|cn|] evs IH]; simpl; try done. case_decide; [|done]. by intros [= <-].
Qed.

Lemma reported_nodes c ord_w ord_c :
  cache_wf represents_links c -> visits ord_w (workloads c) ->
  NoDup (gn_ID <$> ng_Nodes (GetNetworkGraph ord_w ord_c)) /\
  forall id, id ∈ gn_ID <$> ng_Nodes (GetNetworkGraph ord_w ord_c) <-> is_Some (workloads c !! id).
Proof.
  intros Hwf Hw. cbn [ng_Nodes GetNetworkGraph]. rewrite <-list_fmap_compose. split.
  - apply NoDup_fmap_2_strong; [|by eapply visits_NoDup_pairs].
    intros [k1 w1] [k2 w2] E1 E2 Heq. simpl in Heq. apply (visits_elem_of _ _ _ _ Hw) in E1, E2.
    rewrite (cw_workloads _ c Hwf _ _ E1), (cw_workloads _ c Hwf _ _ E2) in Heq. congruence.
  - intros id. rewrite list_elem_of_fmap. split.
    + intros ([k w] & -> & Hin). apply (visits_elem_of _ _ _ _ Hw) in Hin. simpl.
      rewrite (cw_workloads _ c Hwf _ _ Hin). by exists w.
    + intros [w Hid]. exists (id, w). simpl. rewrite (cw_workloads _ c Hwf _ _ Hid).
      split; [done|]. by apply (visits_elem_of _ _ _ _ Hw).
Qed.

Lemma reported_links_NoDup c ord_w ord_c :
  cache_wf represents_links c -> visits ord_c (connections c) ->
  NoDup ((fun l => (gl_From l, gl_To l)) <$> ng_Links (GetNetworkGraph ord_w ord_c)).
Proof.
  intros Hwf Hc. cbn [ng_Links GetNetworkGraph]. rewrite <-list_fmap_compose.
  apply NoDup_fmap_2_strong; [|by eapply visits_NoDup_pairs].
  intros [k1 c1] [k2 c2] E1 E2 Heq. simpl in Heq. injection Heq as Hcl Hsv.
  apply (visits_elem_of _ _ _ _ Hc) in E1, E2. assert (k1 = k2) as ->; [|congruence].
  rewrite <-(cw_connections _ c Hwf _ _ E1), <-(cw_connections _ c Hwf _ _ E2).
  unfold connectionKey. by rewrite Hcl, Hsv.
Qed.

Lemma reported_links_exact evs c ord_w ord_c :
  topology_of evs c -> cache_wf represents_links c -> visits ord_c (connections c) -> clients_ok evs ->
  forall l, l ∈ ng_Links (GetNetworkGraph ord_w ord_c) <->
    exists conn, last_report (gl_From l) (gl_To l) evs = Some conn /\ l = conn_link conn.
Proof.
  intros [H1 H2 _ _] Hwf Hc Hok l. cbn [ng_Links GetNetworkGraph]. rewrite list_elem_of_fmap. split.
  - intros ([k cc] & -> & Hin). apply (visits_elem_of _ _ _ _ Hc) in Hin. simpl.
    pose proof (H2 _ _ Hin) as Hd. pose proof (cw_connections _ c Hwf _ _ Hin) as Hk. unfold connectionKey in Hk.
    rewrite <-Hk, H1 in Hin by done. apply fmap_Some in Hin as (conn & Hl & ->). by exists conn.
  - intros (conn & Hl & ->). cbn [gl_From gl_To conn_link] in Hl.
    exists (connectionKey conn, conn_entry conn). split; [done|]. apply (visits_elem_of _ _ _ _ Hc).
    unfold connectionKey. rewrite H1, Hl; [done|].
    clear -Hl Hok. revert Hok. induction evs as [|e evs IH]; simpl in Hl; [done|]. intros Hok.
    assert (clients_ok evs) by (intros cn Hin; apply Hok; by right).
    destruct e as [id|id|cn|]; auto. case_decide; auto. injection Hl as ->. apply Hok. by left.
Qed.

(** ** The theorems *)

(** In every state the cache reaches, by any calls, map entries are
    filed under the ids of their objects, the topology graph is a consistent
    link set, each of its links is labelled [graph] and joins the two ends of
    a cached connection's key, and the link of a cached connection carries
    the byte, session, severity and action values of that connection. *)
Theorem cache_reachable_wf c :
  rtc (cache_step true) NewCache c -> cache_wf represents_links c.
Proof. exact (cache_reachable_wf_from represents_links true c). Qed.

(** As long as policies are added under fresh ids, every policy id a
    group is recorded to be used by is a cached policy whose [From] or [To]
    is that group, through any additions and deletions of groups, members and
    policies. *)
Theorem policy_refs_sound c :
  rtc (cache_step false) NewCache c -> refs_sound c.
Proof.
  apply rtc_invariant; [intros; by eapply cache_step_refs_sound|].
  intros n g id Hn. simpl in Hn. by rewrite lookup_empty in Hn.
Qed.

(** Adding a policy again under its id with another [From] and [To]
    leaves the reference of the group it no longer names, and deleting the
    policy does not remove it: the group stays marked as used by a policy
    that is not in the cache. *)
Theorem AddPolicy_stale_ref c r1 r2 o1 o2 g :
  pr_ID r2 = pr_ID r1 -> groups c !! pr_From r1 = Some g ->
  pr_From r2 <> pr_From r1 -> pr_To r2 <> pr_From r1 ->
  let c' := DeletePolicy (pr_ID r1) (AddPolicy r2 o2 (AddPolicy r1 o1 c)) in
  GetPolicy (pr_ID r1) c' = None /\
  exists g', groups c' !! pr_From r1 = Some g' /\ pr_ID r1 ∈ gpc_UsedByPolicy g'.
Proof.
  intros Hid Hg Hf Ht c'. split.
  - unfold GetPolicy, c', DeletePolicy. cbn [policies set_policies]. by rewrite lookup_delete_eq.
  - set (c2 := AddPolicy r2 o2 (AddPolicy r1 o1 c)) in *.
    assert (Hp : policies c2 !! pr_ID r1 = Some {| pc_Rule := r2; pc_Order := o2 |}).
    { unfold c2, AddPolicy at 1.
      repeat (match goal with |- context [policies (update_group ?n ?f ?x)] =>
        destruct (update_group_rest n f x) as (_ & -> & _) end).
      simpl. rewrite <-Hid. apply lookup_insert_eq. }
    assert (Hg2 : exists g2, groups c2 !! pr_From r1 = Some g2 /\ pr_ID r1 ∈ gpc_UsedByPolicy g2).
    { unfold c2, AddPolicy. rewrite !update_group_lookup. simpl. rewrite !update_group_lookup. simpl.
      rewrite Hg. repeat (case_decide; [congruence|]).
      rewrite (decide_True (P := pr_From r1 = pr_From r1)) by done.
      destruct (decide (pr_From r1 = pr_To r1)); simpl; eexists; (split; [done|]); simpl; set_solver. }
    destruct Hg2 as (g2 & Hg2 & Hin). exists g2. split; [|done].
    unfold c', DeletePolicy. rewrite Hp. simpl. rewrite !update_group_lookup.
    by rewrite !decide_False by congruence.
Qed.

(** C33: after any calls, when no client workload name contains a dash, the
    reported topology has one node for each workload that was stored and not
    deleted since, and one link for each pair of workloads a connection was
    ever reported between, with the values of the last report; the links of
    deleted workloads are listed too.  The graph behind it has exactly the
    links of the pairs whose last report came after the last deletion of
    either end, with the same values. *)
Theorem GetNetworkGraph_exact evs c ord_w ord_c :
  cache_run evs c -> clients_ok evs -> visits ord_w (workloads c) -> visits ord_c (connections c) ->
  let g := GetNetworkGraph ord_w ord_c in
  (NoDup (gn_ID <$> ng_Nodes g) /\ forall id, id ∈ gn_ID <$> ng_Nodes g <-> stored id evs = true) /\
  (NoDup ((fun l => (gl_From l, gl_To l)) <$> ng_Links g) /\
   forall l, l ∈ ng_Links g <-> exists conn, last_report (gl_From l) (gl_To l) evs = Some conn /\ l = conn_link conn) /\
  forall s l d, Attr s l d (wlGraph c) = if decide (l = "graph") then conn_attr <$> live_report s d evs else None.
Proof.
  intros Hrun Hok Hw Hc g. pose proof (cache_run_topology _ _ Hrun Hok) as [H1 H2 H3 H4].
  pose proof (cache_reachable_wf_from represents_links _ _ (cache_run_reachable _ _ Hrun)) as Hwf.
  split_and!; [| | |by apply (reported_links_exact evs c)|done].
  - by apply (reported_nodes c).
  - intros id. rewrite <-H4. by apply (reported_nodes c).
  - by apply (reported_links_NoDup c).
Qed.

(** Deleting a workload removes it and all its links from the graph,
    but not the cached connections: the reported topology still lists a link
    from the workload, which is no longer among its nodes. *)
Theorem DeleteWorkload_dangling c oi oo id k cc ord_w ord_c :
  rtc (cache_step true) NewCache c -> node_orders (wlGraph c) id oi oo ->
  connections c !! k = Some cc -> cn_ClientWL (cc_Connection cc) = id ->
  let c' := DeleteWorkload oi oo id c in
  visits ord_w (workloads c') -> visits ord_c (connections c') ->
  GetWorkload id c' = None /\
  (forall s l d, s = id \/ d = id -> Attr s l d (wlGraph c') = None) /\
  id ∈ gl_From <$> ng_Links (GetNetworkGraph ord_w ord_c) /\
  id ∉ gn_ID <$> ng_Nodes (GetNetworkGraph ord_w ord_c).
Proof.
  intros Hr Hord Hk Hid c' Hw Hc. pose proof (cache_reachable_wf_from represents_links _ _ Hr) as Hwf.
  pose proof (DeleteWorkload_wf represents_links _ _ _ _ Hord Hwf) as Hwf'. fold c' in Hwf'.
  split; [|split; [|split]].
  - unfold GetWorkload. simpl. by rewrite lookup_delete_eq.
  - intros s l d Hsd. simpl. rewrite (gc_del_attr (ok := represents_links)) by (apply Hwf || done).
    by case_decide.
  - simpl. rewrite <-list_fmap_compose. apply list_elem_of_fmap. exists (k, cc).
    split; [by rewrite <-Hid|]. by rewrite (visits_elem_of _ _ _ _ Hc).
  - simpl. rewrite <-list_fmap_compose. intros ([k' w] & Heq & Hin)%list_elem_of_fmap.
    rewrite (visits_elem_of _ _ _ _ Hw) in Hin. simpl in Heq.
    pose proof (cw_workloads _ c' Hwf' _ _ Hin) as Hk'. simpl in Hk'. subst k'. rewrite <-Heq in Hin.
    simpl in Hin. by rewrite lookup_delete_eq in Hin.
Qed.

(** ** Witnesses: a cache with a client, a server and a group *)

Definition ex_wl (id : string) : Workload := {|
  wl_ID := id; wl_Name := id; wl_Domain := ""; wl_HostID := "h1"; wl_HostName := "h1";
  wl_Image := ""; wl_Service := ""; wl_PolicyMode := PolicyModeMonitor; wl_Running := true;
  wl_Ifaces := ∅; wl_CreatedAt := 0 |}.

Definition ex_conn (client server : string) (bytes : Z) : Connection := {|
  cn_ClientWL := client; cn_ServerWL := server; cn_ClientIP := []; cn_ServerIP := [];
  cn_ClientPort := 40000; cn_ServerPort := 80; cn_IPProto := 6; cn_Application := 0;
  cn_Bytes := bytes; cn_Sessions := 1; cn_FirstSeenAt := 0; cn_LastSeenAt := 0;
  cn_ThreatID := 0; cn_Severity := 0; cn_PolicyAction := 1; cn_PolicyID := 0;
  cn_Ingress := true; cn_ExternalPeer := false; cn_LocalPeer := false |}.

Definition ex_prule (id : Z) (from to : string) : PolicyRule := {|
  pr_ID := id; pr_Comment := ""; pr_From := from; pr_To := to; pr_Ports := "";
  pr_Applications := []; pr_Action := "allow"; pr_Disable := false; pr_Priority := 0;
  pr_CreatedAt := 0; pr_UpdatedAt := 0 |}.

Definition ex_group (name : string) : Group := {|
  g_Name := name; g_Comment := ""; g_Domain := ""; g_PolicyMode := PolicyModeMonitor;
  g_Members := []; g_Criteria := []; g_CreatedAt := 0; g_UpdatedAt := 0 |}.

Definition ex_cache : Cache :=
  UpdateConnection (ex_conn "web" "db" 10) (AddWorkload 1 (ex_wl "db") (AddWorkload 1 (ex_wl "web")
    (AddPolicy (ex_prule 7 "front" "back") 0 (AddGroup (ex_group "front") NewCache)))).

Lemma ex_cache_reachable b : rtc (cache_step b) NewCache ex_cache.
Proof.
  eapply rtc_l; [eapply call_step, (cs_AddGroup _ _ (ex_group "front"))|].
  eapply rtc_l; [eapply call_step, (cs_AddPolicy _ _ (ex_prule 7 "front" "back") 0); right; reflexivity|].
  eapply rtc_l; [eapply call_step, (cs_AddWorkload _ _ 1 (ex_wl "web"))|].
  eapply rtc_l; [eapply call_step, (cs_AddWorkload _ _ 1 (ex_wl "db"))|].
  eapply rtc_l; [eapply call_step, (cs_UpdateConnection _ _ (ex_conn "web" "db" 10))|]. apply rtc_refl.
Qed.

Lemma cache_reachable_wf_witness :
  cache_wf represents_links ex_cache /\ GetGraphLinkCount ex_cache = 1.
Proof. split; [apply (cache_reachable_wf ex_cache (ex_cache_reachable true))|vm_compute; reflexivity]. Defined.

Lemma policy_refs_sound_witness :
  exists p, policies ex_cache !! 7 = Some p /\ (pr_From (pc_Rule p) = "front" \/ pr_To (pc_Rule p) = "front").
Proof.
  apply (policy_refs_sound ex_cache (ex_cache_reachable false) "front"
    {| gpc_Group := ex_group "front"; gpc_Members := ∅; gpc_UsedByPolicy := {[7]} |});
    [vm_compute; reflexivity|set_solver].
Defined.

Lemma AddPolicy_stale_ref_witness :
  GetPolicy 7 (DeletePolicy 7 (AddPolicy (ex_prule 7 "a" "b") 0
    (AddPolicy (ex_prule 7 "front" "back") 0 (AddGroup (ex_group "front") NewCache)))) = None.
Proof.
  apply (AddPolicy_stale_ref (AddGroup (ex_group "front") NewCache)
    (ex_prule 7 "front" "back") (ex_prule 7 "a" "b") 0 0
    {| gpc_Group := ex_group "front"; gpc_Members := ∅; gpc_UsedByPolicy := ∅ |});
    [reflexivity|vm_compute; reflexivity|discriminate|discriminate].
Defined.

(** The connection is reported, and the client deleted. *)
Definition ex_events : list cache_event :=
  [EvDeleted "web"; EvConnection (ex_conn "web" "db" 10); EvWorkload "db"; EvWorkload "web"; EvOther; EvOther].
Definition ex_deleted : Cache := DeleteWorkload [] [("graph", "db")] "web" ex_cache.

Lemma ex_run : cache_run ex_events ex_deleted.
Proof.
  eapply run_call; [|apply cs_DeleteWorkload; vm_decide].
  eapply run_call; [|apply (cs_UpdateConnection _ _ (ex_conn "web" "db" 10))].
  eapply run_call; [|apply (cs_AddWorkload _ _ 1 (ex_wl "db"))].
  eapply run_call; [|apply (cs_AddWorkload _ _ 1 (ex_wl "web"))].
  eapply run_call; [|apply (cs_AddPolicy _ _ (ex_prule 7 "front" "back") 0); by left].
  eapply run_call; [apply run_new|apply (cs_AddGroup _ _ (ex_group "front"))].
Qed.

Lemma GetNetworkGraph_exact_witness :
  conn_link (ex_conn "web" "db" 10) ∈
    ng_Links (GetNetworkGraph (map_to_list (workloads ex_deleted)) (map_to_list (connections ex_deleted))) /\
  Attr "web" "graph" "db" (wlGraph ex_deleted) = None.
Proof.
  destruct (GetNetworkGraph_exact ex_events ex_deleted _ _ ex_run
    ltac:(intros conn Hin; repeat (apply elem_of_cons in Hin as [Hin|Hin]; [by simplify_eq|]); by apply elem_of_nil in Hin)
    (visits_refl _) (visits_refl _)) as (_ & [_ Hl] & Ha).
  split; [apply Hl; eexists; split; reflexivity|rewrite Ha; reflexivity].
Defined.

Lemma DeleteWorkload_dangling_witness :
  let c' := DeleteWorkload [] [("graph", "db")] "web" ex_cache in
  "web" ∈ gl_From <$> ng_Links (GetNetworkGraph (map_to_list (workloads c')) (map_to_list (connections c'))).
Proof.
  assert (Hord : node_orders (wlGraph ex_cache) "web" [] [("graph", "db")]) by vm_decide.
  assert (Hk : connections ex_cache !! "web-db" =
    Some {| cc_Connection := ex_conn "web" "db" 10; cc_GraphKey := "web-db" |})
    by (vm_compute; reflexivity).
  destruct (DeleteWorkload_dangling ex_cache _ _ "web" _ _ _ _ (ex_cache_reachable true) Hord Hk
    eq_refl (visits_refl _) (visits_refl _)) as (_ & _ & H & _).
  exact H.
Defined.
