(* ===== verification/Aggregator.v ===== *)
(** * The agent's connection aggregator
    (micro-segment/internal/agent/connection/aggregator.go)

    The map of aggregated connections, the two caches the data plane's
    callbacks fill, and the timer loop that flushes them.  The operations are
    functions; [agg_step] runs them as the goroutines do, with the atomic
    sections of a flush interleaved with the callbacks. *)

From Stdlib Require Import ZArith Lia Ascii.
From S2P Require Import Prelude GoLib GoNet AgentTypes.
Local Open Scope Z_scope.

(** ** State *)

Definition connectionMapMax : Z := 2048 * 64.
Definition connectionListMax : Z := 2048 * 4.
Definition reportInterval : Z := 5.

Record threatLogEntry := { te_mac : list Z; te_slog : ThreatLog }.

(** The callbacks are flags: what they are called with is an output of the
    operation that calls them. *)
Record Aggregator := {
  connectionMap : gmap string AConnection;
  connsCache : list ConnectionData;
  threatLogCache : list threatLogEntry;
  onConnections : bool;
  onThreatLogs : bool;
  agg_agentID : string;
  agg_hostID : string;
  agg_running : bool;
  agg_stopCh_closed : bool;
}.

Definition NewAggregator (agentID hostID : string) : Aggregator := {|
  connectionMap := ∅; connsCache := []; threatLogCache := []; onConnections := false;
  onThreatLogs := false; agg_agentID := agentID; agg_hostID := hostID; agg_running := false;
  agg_stopCh_closed := false |}.

Definition set_connectionMap (m : gmap string AConnection) (a : Aggregator) : Aggregator := {|
  connectionMap := m; connsCache := connsCache a; threatLogCache := threatLogCache a;
  onConnections := onConnections a; onThreatLogs := onThreatLogs a; agg_agentID := agg_agentID a;
  agg_hostID := agg_hostID a; agg_running := agg_running a;
  agg_stopCh_closed := agg_stopCh_closed a |}.
Definition set_connsCache (l : list ConnectionData) (a : Aggregator) : Aggregator := {|
  connectionMap := connectionMap a; connsCache := l; threatLogCache := threatLogCache a;
  onConnections := onConnections a; onThreatLogs := onThreatLogs a; agg_agentID := agg_agentID a;
  agg_hostID := agg_hostID a; agg_running := agg_running a;
  agg_stopCh_closed := agg_stopCh_closed a |}.
Definition set_threatLogCache (l : list threatLogEntry) (a : Aggregator) : Aggregator := {|
  connectionMap := connectionMap a; connsCache := connsCache a; threatLogCache := l;
  onConnections := onConnections a; onThreatLogs := onThreatLogs a; agg_agentID := agg_agentID a;
  agg_hostID := agg_hostID a; agg_running := agg_running a;
  agg_stopCh_closed := agg_stopCh_closed a |}.
Definition set_status (on_c on_t running closed : bool) (a : Aggregator) : Aggregator := {|
  connectionMap := connectionMap a; connsCache := connsCache a;
  threatLogCache := threatLogCache a; onConnections := on_c; onThreatLogs := on_t;
  agg_agentID := agg_agentID a; agg_hostID := agg_hostID a; agg_running := running;
  agg_stopCh_closed := closed |}.

Definition SetOnConnections (a : Aggregator) : Aggregator :=
  set_status true (onThreatLogs a) (agg_running a) (agg_stopCh_closed a) a.
Definition SetOnThreatLogs (a : Aggregator) : Aggregator :=
  set_status (onConnections a) true (agg_running a) (agg_stopCh_closed a) a.

(** [Start] also starts a goroutine that runs the timer loop. *)
Definition agg_Start (a : Aggregator) : Aggregator :=
  set_status (onConnections a) (onThreatLogs a) true (agg_stopCh_closed a) a.

(** Closing the stop channel a second time panics. *)
Definition agg_Stop (a : Aggregator) : outcome Aggregator :=
  let a := set_status (onConnections a) (onThreatLogs a) false (agg_stopCh_closed a) a in
  if agg_stopCh_closed a then Panicked "close of closed channel"
  else Done (set_status (onConnections a) (onThreatLogs a) (agg_running a) true a).

(** ** The callbacks *)

Definition AddConnection (data : ConnectionData) (a : Aggregator) : Aggregator :=
  set_connsCache (connsCache a ++ [data]) a.

Definition AddThreatLog (mac : list Z) (slog : ThreatLog) (a : Aggregator) : Aggregator :=
  set_threatLogCache (threatLogCache a ++ [{| te_mac := mac; te_slog := slog |}]) a.

(** ** Aggregation *)

(** [syscall.IPPROTO_TCP] and [syscall.IPPROTO_UDP]. *)
Definition IPPROTO_TCP : Z := 6.
Definition IPPROTO_UDP : Z := 17.

(** [fmt.Sprintf("%v-...-%v", ...)] of the fields. *)
Definition keyTCPUDPConnection (conn : AConnection) : string :=
  Join [IP_String (ac_ClientIP conn); IP_String (ac_ServerIP conn); fmt_int (ac_ServerPort conn);
        fmt_int (ac_IPProto conn); fmt_bool (ac_Ingress conn); fmt_int (ac_PolicyId conn);
        fmt_int (ac_Application conn)] "-".

Definition keyOtherConnection (conn : AConnection) : string :=
  Join [IP_String (ac_ClientIP conn); IP_String (ac_ServerIP conn); fmt_bool (ac_Ingress conn);
        fmt_int (ac_PolicyId conn); fmt_int (ac_Application conn)] "-".

Definition conn_key (conn : AConnection) : string :=
  if (ac_IPProto conn =? IPPROTO_TCP) || (ac_IPProto conn =? IPPROTO_UDP)
  then keyTCPUDPConnection conn else keyOtherConnection conn.

(** The update of an entry the map already has. *)
Definition merge_connection (entry conn : AConnection) : AConnection :=
  let newer := ac_LastSeenAt entry <=? ac_LastSeenAt conn in
  let worse := ac_Severity entry <? ac_Severity conn in
  {| ac_AgentID := ac_AgentID entry; ac_HostID := ac_HostID entry;
     ac_ClientWL := ac_ClientWL entry; ac_ServerWL := ac_ServerWL entry;
     ac_ClientIP := ac_ClientIP entry; ac_ServerIP := ac_ServerIP entry;
     ac_ClientPort := ac_ClientPort entry; ac_ServerPort := ac_ServerPort entry;
     ac_IPProto := ac_IPProto entry; ac_Application := ac_Application entry;
     ac_Bytes := u64 (ac_Bytes entry + ac_Bytes conn);
     ac_Sessions := u32 (ac_Sessions entry + ac_Sessions conn);
     ac_Violates := u32 (ac_Violates entry + ac_Violates conn);
     ac_FirstSeenAt := ac_FirstSeenAt entry;
     ac_LastSeenAt := if newer then ac_LastSeenAt conn else ac_LastSeenAt entry;
     ac_ThreatID := if worse then ac_ThreatID conn else ac_ThreatID entry;
     ac_Severity := if worse then ac_Severity conn else ac_Severity entry;
     ac_PolicyAction := if newer then ac_PolicyAction conn else ac_PolicyAction entry;
     ac_PolicyId := if newer then ac_PolicyId conn else ac_PolicyId entry;
     ac_Ingress := ac_Ingress entry; ac_ExternalPeer := ac_ExternalPeer entry;
     ac_LocalPeer := ac_LocalPeer entry; ac_Scope := ac_Scope entry;
     ac_Network := ac_Network entry |}.

Definition updateConnectionMap (conn : AConnection) (m : gmap string AConnection)
  : gmap string AConnection :=
  let key := conn_key conn in
  match m !! key with
  | Some entry => <[key := merge_connection entry conn]> m
  | None =>
      if (Z.of_nat (size m) <? connectionMapMax) || (ActionAllow <? ac_PolicyAction conn)
      then <[key := conn]> m else m
  end.

Definition stamp (agentID hostID : string) (c : AConnection) : AConnection := {|
  ac_AgentID := agentID; ac_HostID := hostID;
  ac_ClientWL := ac_ClientWL c; ac_ServerWL := ac_ServerWL c; ac_ClientIP := ac_ClientIP c;
  ac_ServerIP := ac_ServerIP c; ac_ClientPort := ac_ClientPort c; ac_ServerPort := ac_ServerPort c;
  ac_IPProto := ac_IPProto c; ac_Application := ac_Application c; ac_Bytes := ac_Bytes c;
  ac_Sessions := ac_Sessions c; ac_Violates := ac_Violates c; ac_FirstSeenAt := ac_FirstSeenAt c;
  ac_LastSeenAt := ac_LastSeenAt c; ac_ThreatID := ac_ThreatID c; ac_Severity := ac_Severity c;
  ac_PolicyAction := ac_PolicyAction c; ac_PolicyId := ac_PolicyId c; ac_Ingress := ac_Ingress c;
  ac_ExternalPeer := ac_ExternalPeer c; ac_LocalPeer := ac_LocalPeer c; ac_Scope := ac_Scope c;
  ac_Network := ac_Network c |}.

(** The body of the loop of [updateConnections]. *)
Definition update_one (data : ConnectionData) (a : Aggregator) : Aggregator :=
  set_connectionMap
    (updateConnectionMap (stamp (agg_agentID a) (agg_hostID a) (cd_Conn data)) (connectionMap a)) a.

Definition updateConnections (a : Aggregator) : Aggregator :=
  let conns := connsCache a in
  let a := set_connsCache [] a in
  foldl (fun a data => update_one data a) a conns.

(** ** Reports *)

(** The range of [putConnections], which deletes the entry it is at and stops
    after [connectionListMax] entries.  [ord] is the order of the range. *)
Fixpoint putConnections_loop (ord : list (string * AConnection)) (list' : list AConnection)
    (m : gmap string AConnection) : list AConnection * gmap string AConnection :=
  match ord with
  | [] => (list', m)
  | (key, conn) :: ord' =>
      let list' := list' ++ [conn] in
      let m := delete key m in
      if Z.of_nat (length list') =? connectionListMax then (list', m)
      else putConnections_loop ord' list' m
  end.

(** The second result is the argument of the callback, when it is called. *)
Definition putConnections (ord : list (string * AConnection)) (a : Aggregator)
  : Aggregator * option (list AConnection) :=
  let '(list', m) := putConnections_loop ord [] (connectionMap a) in
  (set_connectionMap m a,
   if (0 <? Z.of_nat (length list')) && onConnections a then Some list' else None).

Definition putThreatLogs (a : Aggregator) : Aggregator * option (list ThreatLog) :=
  let tmp := threatLogCache a in
  let a := set_threatLogCache [] a in
  (a, if (0 <? Z.of_nat (length tmp)) && onThreatLogs a then Some (te_slog <$> tmp) else None).

Definition flush (ord : list (string * AConnection)) (a : Aggregator)
  : Aggregator * option (list ThreatLog) * option (list AConnection) :=
  let '(a, logs) := putThreatLogs a in
  let a := updateConnections a in
  let '(a, conns) := putConnections ord a in
  (a, logs, conns).

Definition GetConnectionCount (a : Aggregator) : Z := Z.of_nat (size (connectionMap a)).
Definition GetMaxConnections : Z := connectionMapMax.

(** ** Keys *)

Definition conn_wf (c : AConnection) : Prop :=
  ip_wf (ac_ClientIP c) /\ ip_wf (ac_ServerIP c) /\ 0 <= ac_ServerPort c /\ 0 <= ac_IPProto c /\
  0 <= ac_PolicyId c /\ 0 <= ac_Application c.

Definition tcp_udp (c : AConnection) : bool :=
  (ac_IPProto c =? IPPROTO_TCP) || (ac_IPProto c =? IPPROTO_UDP).

(** The flow two connections are aggregated by: addresses as printed,
    direction, rule and application, and for TCP and UDP also the protocol
    and the server port. *)
Definition same_flow (c1 c2 : AConnection) : Prop :=
  IP_String (ac_ClientIP c1) = IP_String (ac_ClientIP c2) /\
  IP_String (ac_ServerIP c1) = IP_String (ac_ServerIP c2) /\
  ac_Ingress c1 = ac_Ingress c2 /\ ac_PolicyId c1 = ac_PolicyId c2 /\
  ac_Application c1 = ac_Application c2 /\ tcp_udp c1 = tcp_udp c2 /\
  (tcp_udp c1 = true -> ac_ServerPort c1 = ac_ServerPort c2 /\ ac_IPProto c1 = ac_IPProto c2).

Definition key_parts (c : AConnection) : list string :=
  if tcp_udp c
  then [IP_String (ac_ClientIP c); IP_String (ac_ServerIP c); fmt_int (ac_ServerPort c);
        fmt_int (ac_IPProto c); fmt_bool (ac_Ingress c); fmt_int (ac_PolicyId c);
        fmt_int (ac_Application c)]
  else [IP_String (ac_ClientIP c); IP_String (ac_ServerIP c); fmt_bool (ac_Ingress c);
        fmt_int (ac_PolicyId c); fmt_int (ac_Application c)].

Lemma conn_key_parts c : conn_key c = Join (key_parts c) "-".
Proof. unfold conn_key, key_parts, tcp_udp. by destruct (_ || _). Qed.

Lemma key_parts_no_dash c : conn_wf c -> Forall (fun s => has_byte "-"%char s = false) (key_parts c).
Proof.
  intros (Hc & Hs & Hp & Hi & Hr & Ha). unfold key_parts.
  assert (Hb : forall b, has_byte "-"%char (fmt_bool b) = false) by (by intros []).
  destruct (tcp_udp c); repeat constructor; auto using IP_String_no_dash, fmt_int_no_byte.
Qed.

Lemma conn_key_inj c1 c2 :
  conn_wf c1 -> conn_wf c2 -> conn_key c1 = conn_key c2 -> key_parts c1 = key_parts c2.
Proof.
  intros H1 H2. rewrite !conn_key_parts. apply join_byte_inj; auto using key_parts_no_dash.
  - unfold key_parts. by destruct (tcp_udp c1).
  - unfold key_parts. by destruct (tcp_udp c2).
Qed.

Lemma same_flow_parts c1 c2 : same_flow c1 c2 <-> key_parts c1 = key_parts c2.
Proof.
  unfold same_flow, key_parts. split.
  - intros (-> & -> & -> & -> & -> & <- & Ht). destruct (tcp_udp c1); [|done].
    by destruct (Ht eq_refl) as [-> ->].
  - destruct (tcp_udp c1), (tcp_udp c2); intros [=];
      repeat match goal with
        | H : fmt_int _ = fmt_int _ |- _ => apply fmt_int_inj in H
        | H : fmt_bool _ = fmt_bool _ |- _ => apply fmt_bool_inj in H
        end; naive_solver.
Qed.

Lemma conn_key_stamp a h c : conn_key (stamp a h c) = conn_key c.
Proof. done. Qed.

(** An entry keeps its key: the rule id it takes over is part of the key. *)
Lemma conn_key_merge e c :
  conn_wf e -> conn_wf c -> conn_key e = conn_key c -> conn_key (merge_connection e c) = conn_key e.
Proof.
  intros He Hc Hk. apply conn_key_inj in Hk; [|done|done]. apply same_flow_parts in Hk.
  destruct Hk as (_ & _ & _ & Hp & _). rewrite !conn_key_parts. unfold key_parts, tcp_udp. simpl.
  rewrite Hp. by destruct (_ <=? _).
Qed.

(** ** One pass of [putConnections] *)

#[local] Opaque connectionListMax.

Lemma connectionListMax_pos : 0 < connectionListMax.
Proof. reflexivity. Qed.

Lemma putConnections_loop_take ord l m n :
  Z.of_nat (S n + length l) = connectionListMax ->
  putConnections_loop ord l m =
  (l ++ (take (S n) ord).*2, foldl (fun m p => delete p.1 m) m (take (S n) ord)).
Proof.
  revert l m n. induction ord as [|[k c] ord IH]; intros l m n Hl; simpl; [by rewrite app_nil_r|].
  rewrite length_app. cbn [length].
  destruct (Z.eqb_spec (Z.of_nat (length l + 1)) connectionListMax) as [He|He].
  - assert (n = 0%nat) as -> by lia. by rewrite take_0.
  - destruct n as [|n]; [lia|].
    rewrite (IH _ _ n) by (rewrite length_app; cbn [length]; lia). by rewrite <-app_assoc.
Qed.

Definition batch (ord : list (string * AConnection)) : list (string * AConnection) :=
  take (Z.to_nat connectionListMax) ord.

Lemma putConnections_batch ord a :
  putConnections ord a =
  (set_connectionMap (foldl (fun m p => delete p.1 m) (connectionMap a) (batch ord)) a,
   if (0 <? Z.of_nat (length (batch ord))) && onConnections a then Some (batch ord).*2 else None).
Proof.
  pose proof connectionListMax_pos as Hpos. unfold putConnections, batch.
  destruct (Z.to_nat connectionListMax) as [|n] eqn:Hn; [lia|].
  rewrite (putConnections_loop_take _ _ _ n) by (cbn [length]; lia).
  cbn [app]. by rewrite length_fmap.
Qed.

Lemma batch_reported ord :
  default [] (if 0 <? Z.of_nat (length (batch ord)) then Some (batch ord).*2 else None) =
  (batch ord).*2.
Proof. by destruct (batch ord). Qed.

Lemma foldl_delete_lookup (l : list (string * AConnection)) (m : gmap string AConnection) k :
  foldl (fun m p => delete p.1 m) m l !! k = if decide (k ∈ l.*1) then None else m !! k.
Proof.
  revert m. induction l as [|[k' c] l IH]; intros m; simpl; [done|].
  rewrite IH, lookup_delete. repeat case_decide; set_solver.
Qed.

(** ** Counters

    [fld] is a counter of a connection, [w] its width in bits. *)
Section totals.
Context (fld : AConnection -> Z).

(** The counter summed over the connections of a list with key [k]. *)
Definition tot (k : string) (l : list AConnection) : Z :=
  foldr (fun c s => if decide (conn_key c = k) then fld c + s else s) 0 l.

Definition mtot (k : string) (m : gmap string AConnection) : Z := from_option fld 0 (m !! k).

Lemma tot_app k l1 l2 : tot k (l1 ++ l2) = tot k l1 + tot k l2.
Proof. induction l1 as [|c l1 IH]; simpl; [done|]. case_decide; lia. Qed.

Lemma tot_batch k (l : list (string * AConnection)) m :
  NoDup l.*1 -> (forall k c, (k, c) ∈ l -> m !! k = Some c /\ conn_key c = k) ->
  tot k l.*2 + mtot k (foldl (fun m p => delete p.1 m) m l) = mtot k m.
Proof.
  intros Hnd Hl. unfold mtot. rewrite foldl_delete_lookup.
  induction l as [|[k' c] l IH]; [by simpl|]. rewrite !fmap_cons in *. cbn [fst snd tot foldr] in *.
  apply NoDup_cons in Hnd as [Hk' Hnd]. destruct (Hl k' c) as [Hm Hkey]; [set_solver|].
  assert (IH' := IH Hnd (fun k c H => Hl k c (list_elem_of_further _ _ _ H))). clear IH Hl.
  fold (tot k l.*2). destruct (decide (conn_key c = k)) as [Hc|Hc].
  - assert (k' = k) as -> by congruence. rewrite Hm in *. cbn [from_option] in *.
    rewrite decide_False in IH' by done. rewrite decide_True by set_solver.
    cbn [from_option] in *. lia.
  - assert (k' <> k) by congruence. destruct (decide (k ∈ l.*1)).
    + by rewrite decide_True by set_solver.
    + by rewrite decide_False by set_solver.
Qed.

Lemma tot_map k m ord :
  visits ord m -> (forall k c, m !! k = Some c -> conn_key c = k) -> tot k ord.*2 = mtot k m.
Proof.
  intros Hv Hm. rewrite <-(tot_batch k ord m).
  - unfold mtot. rewrite foldl_delete_lookup. case_decide as Hk; simpl; [lia|].
    destruct (m !! k) as [c|] eqn:Hc; simpl; [|lia]. exfalso. apply Hk.
    apply (visits_elem_of _ _ _ _ Hv) in Hc. apply list_elem_of_fmap. by exists (k, c).
  - by eapply visits_NoDup.
  - intros k' c Hin. apply (visits_elem_of _ _ _ _ Hv) in Hin. auto.
Qed.

(** Whether [updateConnectionMap] drops the connection. *)
Definition drops (c : AConnection) (m : gmap string AConnection) : bool :=
  bool_decide (m !! conn_key c = None) &&
  negb ((Z.of_nat (size m) <? connectionMapMax) || (ActionAllow <? ac_PolicyAction c)).

Context (w : Z).
Context (fld_merge : forall e c, fld (merge_connection e c) = wrap w (fld e + fld c)).

(** Up to wrap-around an update adds the counters of the connection to the
    entry of its key, unless the connection is dropped. *)
Lemma mtot_update k c m :
  (forall k c, m !! k = Some c -> conn_key c = k /\ conn_wf c) -> conn_wf c ->
  exists q, mtot k m + tot k [c] =
    mtot k (updateConnectionMap c m) + tot k (if drops c m then [c] else []) + q * 2 ^ w.
Proof.
  intros Hm Hc. unfold updateConnectionMap, drops, mtot, tot; simpl.
  destruct (m !! conn_key c) as [e|] eqn:He.
  - rewrite bool_decide_eq_false_2 by done. simpl. rewrite lookup_insert.
    destruct (decide (conn_key c = k)) as [<-|]; [|exists 0; lia].
    rewrite He. simpl. rewrite fld_merge. exists ((fld e + fld c) / 2 ^ w).
    unfold wrap. pose proof (Z_div_mod_eq_full (fld e + fld c) (2 ^ w)). lia.
  - rewrite bool_decide_eq_true_2 by done. simpl.
    destruct ((Z.of_nat (size m) <? connectionMapMax) || _); simpl; exists 0.
    + rewrite lookup_insert. destruct (decide (conn_key c = k)) as [<-|]; [|lia].
      rewrite He. simpl. lia.
    + lia.
Qed.
End totals.

(** ** The running aggregator

    [ag_pc] is where the timer loop is: waiting in its [select], or before
    one of the atomic sections of a flush.  The callbacks append to the
    caches at any point.  The three lists record what was added, what
    [updateConnectionMap] dropped and what was handed to the callback. *)
Inductive agg_pc :=
| PcWait
| PcPutThreatLogs
| PcSwapCache
| PcUpdate (conns : list ConnectionData)
| PcPutConnections
| PcReturned.

Record agg_sys := {
  ag : Aggregator;
  ag_pc : agg_pc;
  ag_added : list AConnection;
  ag_dropped : list AConnection;
  ag_reported : list AConnection;
}.

Definition stamped (data : ConnectionData) (a : Aggregator) : AConnection :=
  stamp (agg_agentID a) (agg_hostID a) (cd_Conn data).

Inductive agg_step : agg_sys -> agg_sys -> Prop :=
| as_add a pc ad dr re data :
    conn_wf (cd_Conn data) ->
    agg_step (Build_agg_sys a pc ad dr re)
             (Build_agg_sys (AddConnection data a) pc (ad ++ [cd_Conn data]) dr re)
| as_threat a pc ad dr re mac slog :
    agg_step (Build_agg_sys a pc ad dr re) (Build_agg_sys (AddThreatLog mac slog a) pc ad dr re)
| as_tick a ad dr re :
    agg_step (Build_agg_sys a PcWait ad dr re) (Build_agg_sys a PcPutThreatLogs ad dr re)
| as_stopped a ad dr re :
    agg_stopCh_closed a = true ->
    agg_step (Build_agg_sys a PcWait ad dr re) (Build_agg_sys a PcReturned ad dr re)
| as_put_threats a ad dr re :
    agg_step (Build_agg_sys a PcPutThreatLogs ad dr re)
             (Build_agg_sys (putThreatLogs a).1 PcSwapCache ad dr re)
| as_swap a ad dr re :
    agg_step (Build_agg_sys a PcSwapCache ad dr re)
             (Build_agg_sys (set_connsCache [] a) (PcUpdate (connsCache a)) ad dr re)
| as_update a data rest ad dr re :
    agg_step (Build_agg_sys a (PcUpdate (data :: rest)) ad dr re)
             (Build_agg_sys (update_one data a) (PcUpdate rest) ad
                (dr ++ if drops (stamped data a) (connectionMap a) then [cd_Conn data] else []) re)
| as_updated a ad dr re :
    agg_step (Build_agg_sys a (PcUpdate []) ad dr re) (Build_agg_sys a PcPutConnections ad dr re)
| as_put a ord ad dr re :
    visits ord (connectionMap a) ->
    agg_step (Build_agg_sys a PcPutConnections ad dr re)
             (Build_agg_sys (putConnections ord a).1 PcWait ad dr
                (re ++ default [] (putConnections ord a).2))
| as_stop a a' pc ad dr re :
    agg_Stop a = Done a' ->
    agg_step (Build_agg_sys a pc ad dr re) (Build_agg_sys a' pc ad dr re).

(** The aggregator as the engine sets it up and starts it. *)
Definition agg_init (agentID hostID : string) : agg_sys := {|
  ag := agg_Start (SetOnThreatLogs (SetOnConnections (NewAggregator agentID hostID)));
  ag_pc := PcWait; ag_added := []; ag_dropped := []; ag_reported := [] |}.

Definition pc_conns (pc : agg_pc) : list AConnection :=
  match pc with PcUpdate conns => cd_Conn <$> conns | _ => [] end.

(** What was added and neither dropped nor handed over yet. *)
Definition pending (s : agg_sys) : list AConnection :=
  (map_to_list (connectionMap (ag s))).*2 ++ pc_conns (ag_pc s) ++ (cd_Conn <$> connsCache (ag s)).

Record agg_inv (s : agg_sys) : Prop := {
  ai_keys : forall k c, connectionMap (ag s) !! k = Some c -> conn_key c = k /\ conn_wf c;
  ai_waiting : Forall conn_wf (pc_conns (ag_pc s) ++ (cd_Conn <$> connsCache (ag s)));
  ai_callback : onConnections (ag s) = true;
  ai_dropped : Forall (fun c => ac_PolicyAction c <= ActionAllow) (ag_dropped s);
  ai_size : (size (connectionMap (ag s)) + length (pc_conns (ag_pc s)) +
             length (connsCache (ag s)) + length (ag_dropped s) <= length (ag_added s))%nat;
  ai_full : ag_dropped s <> [] -> connectionMapMax < Z.of_nat (length (ag_added s));
}.

Lemma agg_init_inv a h : agg_inv (agg_init a h).
Proof. split; simpl; try done. Qed.

Lemma updateConnectionMap_keys c m :
  conn_wf c -> (forall k c, m !! k = Some c -> conn_key c = k /\ conn_wf c) ->
  forall k c', updateConnectionMap c m !! k = Some c' -> conn_key c' = k /\ conn_wf c'.
Proof.
  intros Hc Hm k c'. unfold updateConnectionMap. destruct (m !! conn_key c) as [e|] eqn:He.
  - rewrite lookup_insert. case_decide; [|auto]. intros [= <-].
    destruct (Hm _ _ He) as [Hk Hwf]. rewrite conn_key_merge by done. split; [congruence|].
    destruct Hwf as (?&?&?&?&?&?), Hc as (?&?&?&?&?&?). repeat split; simpl; try done.
    by destruct (_ <=? _).
  - destruct ((Z.of_nat (size m) <? connectionMapMax) || _); [|auto].
    rewrite lookup_insert. case_decide; [|auto]. by intros [= <-].
Qed.

Lemma updateConnectionMap_size c m :
  (size (updateConnectionMap c m) + length (if drops c m then [c] else []) <= S (size m))%nat.
Proof.
  unfold updateConnectionMap, drops. destruct (m !! conn_key c) as [e|] eqn:He.
  - rewrite bool_decide_eq_false_2 by done. simpl. rewrite map_size_insert_Some by eauto. lia.
  - rewrite bool_decide_eq_true_2 by done. simpl.
    destruct ((Z.of_nat (size m) <? connectionMapMax) || _); simpl; [|lia].
    rewrite map_size_insert_None by done. lia.
Qed.

Lemma drops_spec c m :
  drops c m = true -> ac_PolicyAction c <= ActionAllow /\ connectionMapMax <= Z.of_nat (size m).
Proof.
  unfold drops. intros [_ Hd]%andb_true_iff. apply negb_true_iff, orb_false_iff in Hd as [Hs Ha]. lia.
Qed.

Lemma batch_deletes_size ord (m : gmap string AConnection) :
  visits ord m ->
  (size (foldl (fun m p => delete p.1 m) m (batch ord)) + length (batch ord) = size m)%nat.
Proof.
  intros Hv. pose proof (visits_NoDup _ _ Hv) as Hnd.
  assert (Hin : forall k c, (k, c) ∈ batch ord -> m !! k = Some c).
  { intros k c Hin. apply (visits_elem_of _ _ _ _ Hv). unfold batch in Hin.
    by eapply elem_of_take in Hin as (i & Hi & _); eapply list_elem_of_lookup_2. }
  assert (Hnd' : NoDup (batch ord).*1).
  { unfold batch. rewrite fmap_take. by eapply sublist_NoDup; [|apply sublist_take]. }
  revert Hin Hnd'. generalize (batch ord) as l. clear Hv Hnd. intros l. revert m.
  induction l as [|[k c] l IH]; intros m Hin Hnd; cbn [foldl length fst]; [lia|].
  rewrite fmap_cons in Hnd. apply NoDup_cons in Hnd as [Hk Hnd].
  assert (Hsz : size m = S (size (delete k m))).
  { rewrite map_size_delete, (Hin k c) by set_solver. pose proof (Hin k c ltac:(set_solver)) as Hm.
    assert (size m <> 0%nat); [|lia]. intros Hz%map_size_empty_inv. by rewrite Hz in Hm. }
  rewrite Hsz, <-(IH (delete k m)); [lia| |done]. intros k' c' Hin'.
  rewrite lookup_delete_ne; [apply Hin; set_solver|]. intros <-. apply Hk.
  apply list_elem_of_fmap. by exists (k, c').
Qed.

Lemma agg_step_inv s s' : agg_step s s' -> agg_inv s -> agg_inv s'.
Proof.
  intros Hs [Hk Hw Hcb Hd Hsz Hf].
  destruct Hs as [a pc ad dr re data Hwf| |a|a|a|a|a data rest ad dr re|a|a ord ad dr re Hv|a a' pc ad dr re Hst];
    cbn [ag ag_pc ag_added ag_dropped ag_reported pc_conns] in *; rewrite ?fmap_cons in *; try by split.
  - split; simpl; try done.
    + rewrite fmap_app, app_assoc. apply Forall_app. split; [done|]. by apply Forall_singleton.
    + rewrite !length_app. simpl. lia.
    + intros H. specialize (Hf H). rewrite length_app. lia.
  - split; simpl; try done.
    + by rewrite app_nil_r.
    + rewrite length_fmap. lia.
  - assert (Hc : conn_wf (stamped data a)) by (inversion_clear Hw as [|?? H _]; exact H).
    pose proof (updateConnectionMap_size (stamped data a) (connectionMap a)) as Hs.
    fold (stamped data a). split; simpl; try done.
    + by apply updateConnectionMap_keys.
    + by inversion_clear Hw.
    + apply Forall_app. split; [done|]. destruct (drops _ _) eqn:Hdr; [|done].
      apply Forall_singleton. by apply drops_spec in Hdr as [? _].
    + rewrite length_app. fold (stamped data a). cbn [length] in Hsz.
      destruct (drops _ _); cbn [length] in *; lia.
    + destruct (drops _ _) eqn:Hdr; [|by rewrite app_nil_r]. intros _.
      apply drops_spec in Hdr as [_ ?]. cbn [length] in Hsz. lia.
  - rewrite putConnections_batch. pose proof (batch_deletes_size ord _ Hv) as Hb.
    split; simpl; try done; [|lia].
    intros k c. rewrite foldl_delete_lookup. case_decide; [done|]. apply Hk.
  - unfold agg_Stop in Hst. simpl in Hst. case_match; [done|]. injection Hst as <-. by split.
Qed.

Lemma agg_reachable_inv a h s : rtc agg_step (agg_init a h) s -> agg_inv s.
Proof. apply rtc_invariant; [apply agg_step_inv|apply agg_init_inv]. Qed.

(** ** Conservation *)

Section conservation.
Context (fld : AConnection -> Z) (w : Z).
Context (fld_merge : forall e c, fld (merge_connection e c) = wrap w (fld e + fld c)).
Context (fld_stamp : forall a h c, fld (stamp a h c) = fld c).

(** For one key, what was added is what was reported, dropped or is still in
    the aggregator, up to multiples of [2 ^ w]. *)
Definition balanced (k : string) (s : agg_sys) : Prop :=
  exists q, tot fld k (ag_added s) =
    tot fld k (ag_reported s) + tot fld k (ag_dropped s) + mtot fld k (connectionMap (ag s)) +
    tot fld k (pc_conns (ag_pc s)) + tot fld k (cd_Conn <$> connsCache (ag s)) + q * 2 ^ w.

Lemma tot_stamped k data a : tot fld k [stamped data a] = tot fld k [cd_Conn data].
Proof. unfold tot, stamped; simpl. rewrite conn_key_stamp, fld_stamp. done. Qed.

Lemma agg_step_balanced k s s' : agg_step s s' -> agg_inv s -> balanced k s -> balanced k s'.
Proof.
  intros Hs [Hk Hw Hcb _ _ _] [q Hq].
  destruct Hs as [a pc ad dr re data Hwf| |a|a|a|a|a data rest ad dr re|a|a ord ad dr re Hv|a a' pc ad dr re Hst];
    cbn [ag ag_pc ag_added ag_dropped ag_reported pc_conns] in *; rewrite ?fmap_cons in *; try by exists q.
  - exists q. simpl. rewrite fmap_app, !tot_app, Hq. simpl. lia.
  - exists q. simpl in *. lia.
  - assert (Hc : conn_wf (stamped data a)) by (inversion_clear Hw as [|?? H _]; exact H).
    destruct (mtot_update fld w fld_merge k (stamped data a) (connectionMap a) Hk Hc) as [q' Hq'].
    exists (q + q').
    cbn [ag ag_pc ag_added ag_dropped ag_reported pc_conns update_one set_connectionMap connectionMap connsCache].
    fold (stamped data a).
    rewrite tot_app, Hq. pose proof (tot_app fld k [cd_Conn data] (cd_Conn <$> rest)) as Hcons.
    cbn [app] in Hcons. rewrite Hcons. rewrite tot_stamped in Hq'.
    assert (tot fld k (if drops (stamped data a) (connectionMap a) then [stamped data a] else []) =
            tot fld k (if drops (stamped data a) (connectionMap a) then [cd_Conn data] else [])) as Heq.
    { destruct (drops _ _); [apply tot_stamped|done]. }
    rewrite Heq in Hq'. lia.
  - exists q. rewrite putConnections_batch, Hcb, andb_true_r.
    cbn [ag ag_pc ag_added ag_dropped ag_reported pc_conns fst snd connectionMap connsCache
      set_connectionMap].
    rewrite batch_reported, Hq, tot_app, <-(tot_batch fld k (batch ord) (connectionMap a)); [lia| |].
    + unfold batch. rewrite fmap_take. eapply sublist_NoDup; [|apply sublist_take].
      by eapply visits_NoDup.
    + intros k' c Hin. assert (connectionMap a !! k' = Some c) as Hm.
      { apply (visits_elem_of _ _ _ _ Hv). unfold batch in Hin.
        by eapply elem_of_take in Hin as (i & Hi & _); eapply list_elem_of_lookup_2. }
      split; [done|]. by apply Hk.
  - unfold agg_Stop in Hst. simpl in Hst. case_match; [done|]. injection Hst as <-. by exists q.
Qed.

Lemma agg_reachable_balanced a h s k :
  rtc agg_step (agg_init a h) s ->
  wrap w (tot fld k (ag_added s)) =
  wrap w (tot fld k (ag_reported s ++ ag_dropped s ++ pending s)).
Proof.
  intros Hr. pose proof (agg_reachable_inv _ _ _ Hr) as Hinv.
  assert (Hb : agg_inv s /\ balanced k s).
  { eapply (rtc_invariant agg_step (fun s => agg_inv s /\ balanced k s)); [| |exact Hr].
    - intros x y Hxy [Hx Hbx]. split; [by eapply agg_step_inv|by eapply agg_step_balanced].
    - split; [apply agg_init_inv|]. by exists 0. }
  destruct Hb as [_ [q Hq]]. unfold pending. rewrite !tot_app, Hq.
  rewrite (tot_map fld k (connectionMap (ag s))); [|apply visits_refl|intros; by apply (ai_keys s Hinv)].
  unfold wrap. rewrite Z_mod_plus_full. f_equal. lia.
Qed.
End conservation.

(** ** Properties of single connections

    A property that merging and stamping preserve holds of everything the
    aggregator reports when it holds of everything added. *)
Section agg_all.
Context (P : AConnection -> Prop).
Context (P_merge : forall e c, P e -> P c -> P (merge_connection e c)).
Context (P_stamp : forall a h c, P c -> P (stamp a h c)).

Definition agg_all (s : agg_sys) : Prop :=
  Forall P (ag_added s) ->
  (forall k c, connectionMap (ag s) !! k = Some c -> P c) /\
  Forall P (pc_conns (ag_pc s)) /\ Forall P (cd_Conn <$> connsCache (ag s)) /\
  Forall P (ag_reported s).

Lemma updateConnectionMap_all c m :
  P c -> (forall k c, m !! k = Some c -> P c) ->
  forall k c', updateConnectionMap c m !! k = Some c' -> P c'.
Proof.
  intros Hc Hm k c'. unfold updateConnectionMap. destruct (m !! conn_key c) as [e|] eqn:He.
  - rewrite lookup_insert. case_decide; [|eauto]. intros [= <-]. eauto.
  - destruct ((Z.of_nat (size m) <? connectionMapMax) || _); [|eauto].
    rewrite lookup_insert. case_decide; [|eauto]. by intros [= <-].
Qed.

Lemma agg_step_all s s' : agg_step s s' -> agg_all s -> agg_all s'.
Proof.
  intros Hs IH. unfold agg_all in *.
  destruct Hs as [a pc ad dr re data Hwf| |a|a|a|a|a data rest ad dr re|a|a ord ad dr re Hv|a a' pc ad dr re Hst];
    cbn [ag ag_pc ag_added ag_dropped ag_reported pc_conns] in *; rewrite ?fmap_cons in *; try done.
  - intros [Had Hd]%Forall_app. destruct (IH Had) as (Hm & Hp & Hc & Hr).
    split; [done|]. split; [done|]. split; [|done]. unfold AddConnection, set_connsCache.
    cbn [connsCache]. rewrite fmap_app. apply Forall_app. by split.
  - intros Had. destruct (IH Had) as (Hm & Hp & Hc & Hr). by repeat split.
  - intros Had. destruct (IH Had) as (Hm & Hp & Hc & Hr). apply Forall_cons in Hp as [Hd Hp].
    split; [|by repeat split]. apply updateConnectionMap_all; auto.
  - intros Had. destruct (IH Had) as (Hm & Hp & Hc & Hr). rewrite putConnections_batch.
    cbn [fst snd connectionMap set_connectionMap connsCache]. split; [|split; [done|split; [done|]]].
    + intros k c. rewrite foldl_delete_lookup. case_decide; [done|]. apply Hm.
    + apply Forall_app. split; [done|].
      assert (Hb : Forall P (batch ord).*2).
      { apply Forall_forall. intros c ([k c'] & -> & Hin)%list_elem_of_fmap.
        apply (Hm k), (visits_elem_of _ _ _ _ Hv). unfold batch in Hin.
        by eapply elem_of_take in Hin as (i & Hi & _); eapply list_elem_of_lookup_2. }
      by destruct (_ && _).
  - unfold agg_Stop in Hst. simpl in Hst. case_match; [done|]. by injection Hst as <-.
Qed.

Lemma agg_reachable_all a h s :
  rtc agg_step (agg_init a h) s -> Forall P (ag_added s) -> Forall P (ag_reported s).
Proof.
  intros Hr Hp. assert (Hall : agg_all s); [|by apply Hall].
  eapply (rtc_invariant agg_step agg_all); [apply agg_step_all| |exact Hr].
  intros _. simpl. split; [|done]. intros k c. by rewrite lookup_empty.
Qed.
End agg_all.

(** ** Aggregated entries *)

Lemma merge_newest e0 l :
  let e := foldl merge_connection e0 l in
  exists l1 c l2, e0 :: l = l1 ++ c :: l2 /\
    ac_LastSeenAt e = ac_LastSeenAt c /\ ac_PolicyAction e = ac_PolicyAction c /\
    Forall (fun d => ac_LastSeenAt d <= ac_LastSeenAt c) l1 /\
    Forall (fun d => ac_LastSeenAt d < ac_LastSeenAt c) l2.
Proof.
  induction l as [|d l IH] using rev_ind; simpl in *; [by exists [], e0, []|].
  destruct IH as (l1 & c & l2 & Hl & Hs & Ha & H1 & H2). rewrite foldl_snoc. simpl.
  destruct (Z.leb_spec (ac_LastSeenAt (foldl merge_connection e0 l)) (ac_LastSeenAt d)) as [Hd|Hd].
  - exists (e0 :: l), d, []. split; [done|]. split; [done|]. split; [done|]. split; [|done].
    rewrite Hl. rewrite Hs in Hd. apply Forall_app. split; [eapply Forall_impl; [exact H1|]; simpl; lia|].
    constructor; [done|]. eapply Forall_impl; [exact H2|]; simpl; lia.
  - exists l1, c, (l2 ++ [d]). rewrite app_comm_cons, Hl, <-app_assoc.
    repeat split; try done. apply Forall_app. split; [done|]. apply Forall_singleton. lia.
Qed.

Lemma merge_worst e0 l :
  let e := foldl merge_connection e0 l in
  exists l1 c l2, e0 :: l = l1 ++ c :: l2 /\
    ac_Severity e = ac_Severity c /\ ac_ThreatID e = ac_ThreatID c /\
    Forall (fun d => ac_Severity d < ac_Severity c) l1 /\
    Forall (fun d => ac_Severity d <= ac_Severity c) l2.
Proof.
  induction l as [|d l IH] using rev_ind; simpl in *; [by exists [], e0, []|].
  destruct IH as (l1 & c & l2 & Hl & Hs & Ha & H1 & H2). rewrite foldl_snoc. simpl.
  destruct (Z.ltb_spec (ac_Severity (foldl merge_connection e0 l)) (ac_Severity d)) as [Hd|Hd].
  - exists (e0 :: l), d, []. split; [done|]. split; [done|]. split; [done|]. split; [|done].
    rewrite Hl. rewrite Hs in Hd. apply Forall_app. split; [eapply Forall_impl; [exact H1|]; simpl; lia|].
    constructor; [done|]. eapply Forall_impl; [exact H2|]; simpl; lia.
  - exists l1, c, (l2 ++ [d]). rewrite app_comm_cons, Hl, <-app_assoc.
    repeat split; try done. apply Forall_app. split; [done|]. apply Forall_singleton. lia.
Qed.

Lemma merge_counter (fld : AConnection -> Z) w e0 l :
  0 <= w -> (forall e c, fld (merge_connection e c) = wrap w (fld e + fld c)) ->
  in_width w (fld e0) ->
  fld (foldl merge_connection e0 l) = wrap w (foldr (fun c s => fld c + s) 0 (e0 :: l)).
Proof.
  intros Hw Hm. revert e0. induction l as [|d l IH]; intros e0 He; simpl.
  - by rewrite Z.add_0_r, wrap_small.
  - rewrite IH by (rewrite Hm; by apply wrap_in_width). simpl. rewrite Hm, wrap_add_l. f_equal. lia.
Qed.

Lemma updateConnectionMap_fold k m e0 l :
  m !! k = Some e0 -> Forall (fun c => conn_key c = k) l ->
  foldl (fun m c => updateConnectionMap c m) m l = <[k := foldl merge_connection e0 l]> m.
Proof.
  revert m e0. induction l as [|c l IH]; intros m e0 Hm Hl; simpl; [by rewrite insert_id|].
  apply Forall_cons in Hl as [Hc Hl]. unfold updateConnectionMap at 2. rewrite Hc, Hm.
  rewrite (IH _ (merge_connection e0 c)); [|by rewrite lookup_insert_eq|done].
  by rewrite insert_insert_eq.
Qed.

(** ** Draining *)

(** [n] flushes with nothing added, and what they hand to the callback. *)
Inductive flushes : nat -> Aggregator -> list AConnection -> Aggregator -> Prop :=
| flushes_0 a : flushes 0 a [] a
| flushes_S n a ord reps a' :
    visits ord (connectionMap (updateConnections (putThreatLogs a).1)) ->
    flushes n (flush ord a).1.1 reps a' ->
    flushes (S n) a (default [] (flush ord a).2 ++ reps) a'.

Lemma flush_idle ord a :
  connsCache a = [] -> onConnections a = true -> visits ord (connectionMap a) ->
  let r := flush ord a in
  connsCache r.1.1 = [] /\ onConnections r.1.1 = true /\
  connectionMap r.1.1 = foldl (fun m p => delete p.1 m) (connectionMap a) (batch ord) /\
  default [] r.2 = (batch ord).*2.
Proof.
  intros Hc Hcb Hv r. unfold r, flush, putThreatLogs, updateConnections. simpl. rewrite Hc. simpl.
  rewrite putConnections_batch. simpl. rewrite Hcb, andb_true_r, batch_reported. done.
Qed.

Lemma batch_split ord (m : gmap string AConnection) :
  visits ord m ->
  (map_to_list m).*2 ≡ₚ (batch ord).*2 ++
    (map_to_list (foldl (fun m p => delete p.1 m) m (batch ord))).*2.
Proof.
  intros Hv. unfold batch. set (n := Z.to_nat connectionListMax).
  assert (Hd : drop n ord ≡ₚ map_to_list (foldl (fun m p => delete p.1 m) m (take n ord))).
  { pose proof (visits_NoDup _ _ Hv) as Hnd. rewrite <-(take_drop n ord), fmap_app in Hnd.
    apply NoDup_app in Hnd as (_ & Hdisj & Hnd).
    apply NoDup_Permutation; [by eapply NoDup_fmap_1|apply NoDup_map_to_list|].
    intros [k c]. rewrite elem_of_map_to_list, foldl_delete_lookup.
    assert (Hin : (k, c) ∈ ord <-> (k, c) ∈ take n ord \/ (k, c) ∈ drop n ord)
      by (rewrite <-elem_of_app, take_drop; done).
    rewrite (visits_elem_of _ _ k c Hv) in Hin.
    assert (Hf : forall l : list (string * AConnection), (k, c) ∈ l -> k ∈ l.*1)
      by (intros l Hl; apply list_elem_of_fmap; by exists (k, c)).
    case_decide as Hk; [|naive_solver]. specialize (Hdisj k Hk). naive_solver. }
  rewrite <-Hd, <-fmap_app, take_drop. unfold visits in Hv. by rewrite Hv.
Qed.

Lemma flushes_drain n a reps a' :
  flushes n a reps a' -> connsCache a = [] -> onConnections a = true ->
  (map_to_list (connectionMap a)).*2 ≡ₚ reps ++ (map_to_list (connectionMap a')).*2 /\
  (Z.of_nat (size (connectionMap a)) <= Z.of_nat n * connectionListMax ->
   size (connectionMap a') = 0%nat).
Proof.
  pose proof connectionListMax_pos as Hpos.
  induction 1 as [a|n a ord reps a' Hv Hf IH]; intros Hc Hcb.
  - split; [done|]. lia.
  - assert (Hv' : visits ord (connectionMap a)).
    { revert Hv. unfold putThreatLogs, updateConnections. simpl. by rewrite Hc. }
    destruct (flush_idle ord a Hc Hcb Hv') as (Hc' & Hcb' & Hm & Hr).
    destruct (IH Hc' Hcb') as [Hp Hz]. rewrite Hr. split.
    + rewrite (batch_split _ _ Hv'), <-Hm, Hp. by rewrite app_assoc.
    + intros Hn. apply Hz. rewrite Hm. pose proof (batch_deletes_size _ _ Hv') as Hs.
      pose proof (visits_length _ _ Hv') as Hl. unfold batch in *. rewrite length_take in Hs. lia.
Qed.

(** ** The theorems *)

(** Two connections are aggregated under one key exactly when they are
    the same flow: the printed form of the key separates its fields, and a
    TCP or UDP key is never one of another protocol. *)
Theorem conn_key_same_flow c1 c2 :
  conn_wf c1 -> conn_wf c2 -> conn_key c1 = conn_key c2 <-> same_flow c1 c2.
Proof.
  intros H1 H2. rewrite same_flow_parts. split; [by apply conn_key_inj|].
  rewrite !conn_key_parts. by intros ->.
Qed.

(** C31: through any interleaving of the callbacks with the flushes, for each
    flow the bytes, sessions and violations added are those reported, dropped
    or still held, modulo the width of the counter; denied and violating
    connections are never dropped, and nothing is while no more than
    [connectionMapMax] connections were added. *)
Theorem aggregator_conserves agentID hostID s k :
  rtc agg_step (agg_init agentID hostID) s ->
  let out := ag_reported s ++ ag_dropped s ++ pending s in
  u64 (tot ac_Bytes k (ag_added s)) = u64 (tot ac_Bytes k out) /\
  u32 (tot ac_Sessions k (ag_added s)) = u32 (tot ac_Sessions k out) /\
  u32 (tot ac_Violates k (ag_added s)) = u32 (tot ac_Violates k out) /\
  Forall (fun c => ac_PolicyAction c <= ActionAllow) (ag_dropped s) /\
  (Z.of_nat (length (ag_added s)) <= connectionMapMax -> ag_dropped s = []).
Proof.
  intros Hr out. pose proof (agg_reachable_inv _ _ _ Hr) as Hinv.
  split; [by eapply agg_reachable_balanced|]. split; [by eapply agg_reachable_balanced|].
  split; [by eapply agg_reachable_balanced|]. split; [apply Hinv|].
  intros Hle. pose proof (ai_full s Hinv) as Hf. destruct (ag_dropped s); [done|].
  specialize (Hf ltac:(done)). lia.
Qed.

(** Connections of one flow merge into one entry whose byte counter is
    the wrapped sum, whose last-seen time and action are those of the latest
    of them (the last received among equals) and whose severity and threat
    are those of the most severe (the first received among equals); no other
    entry changes. *)
Theorem aggregated_entry m k e0 l :
  m !! k = Some e0 -> in_width 64 (ac_Bytes e0) -> Forall (fun c => conn_key c = k) l ->
  let m' := foldl (fun m c => updateConnectionMap c m) m l in
  (forall k', k' <> k -> m' !! k' = m !! k') /\
  exists e, m' !! k = Some e /\
    ac_Bytes e = u64 (foldr (fun c s => ac_Bytes c + s) 0 (e0 :: l)) /\
    (exists l1 c l2, e0 :: l = l1 ++ c :: l2 /\
       ac_LastSeenAt e = ac_LastSeenAt c /\ ac_PolicyAction e = ac_PolicyAction c /\
       Forall (fun d => ac_LastSeenAt d <= ac_LastSeenAt c) l1 /\
       Forall (fun d => ac_LastSeenAt d < ac_LastSeenAt c) l2) /\
    (exists l1 c l2, e0 :: l = l1 ++ c :: l2 /\
       ac_Severity e = ac_Severity c /\ ac_ThreatID e = ac_ThreatID c /\
       Forall (fun d => ac_Severity d < ac_Severity c) l1 /\
       Forall (fun d => ac_Severity d <= ac_Severity c) l2).
Proof.
  intros Hm Hw Hl m'. unfold m'. rewrite (updateConnectionMap_fold k m e0 l Hm Hl). split.
  - intros k' Hk. by rewrite lookup_insert_ne.
  - exists (foldl merge_connection e0 l). rewrite lookup_insert_eq. split; [done|].
    split; [by apply merge_counter|]. split; [apply merge_newest|apply merge_worst].
Qed.

(** When nothing more is added, the aggregator hands over everything it
    holds: [n] flushes report each entry at most once and, once [n] times
    [connectionListMax] reaches the number of entries, leave none. *)
Theorem flushes_drain_all n a reps a' :
  flushes n a reps a' -> connsCache a = [] -> onConnections a = true ->
  GetConnectionCount a <= Z.of_nat n * connectionListMax ->
  GetConnectionCount a' = 0 /\ reps ≡ₚ (map_to_list (connectionMap a)).*2.
Proof.
  intros Hf Hc Hcb Hn. destruct (flushes_drain _ _ _ _ Hf Hc Hcb) as [Hp Hz].
  specialize (Hz Hn). unfold GetConnectionCount. rewrite Hz. split; [done|].
  apply map_size_empty_inv in Hz. rewrite Hz, map_to_list_empty, app_nil_r in Hp. done.
Qed.

(** ** Witnesses *)

Definition ex_aconn (server : IP) (bytes seen severity : Z) : AConnection := {|
  ac_AgentID := ""; ac_HostID := ""; ac_ClientWL := ""; ac_ServerWL := "";
  ac_ClientIP := IPv4 10 0 0 1; ac_ServerIP := server; ac_ClientPort := 40000;
  ac_ServerPort := 80; ac_IPProto := 6; ac_Application := 0; ac_Bytes := bytes;
  ac_Sessions := 1; ac_Violates := 0; ac_FirstSeenAt := seen; ac_LastSeenAt := seen;
  ac_ThreatID := severity; ac_Severity := severity; ac_PolicyAction := 1; ac_PolicyId := 0;
  ac_Ingress := true; ac_ExternalPeer := false; ac_LocalPeer := false; ac_Scope := "";
  ac_Network := "" |}.

Definition ex_server : IP := IPv4 10 0 0 2.

Lemma ex_aconn_wf bytes seen sev : conn_wf (ex_aconn ex_server bytes seen sev).
Proof. repeat split; simpl; try lia; repeat constructor; simpl; lia. Qed.

Lemma conn_key_same_flow_witness :
  same_flow (ex_aconn ex_server 1 2 3) (ex_aconn [10; 0; 0; 2] 4 5 6).
Proof.
  apply (conn_key_same_flow (ex_aconn ex_server 1 2 3) (ex_aconn [10; 0; 0; 2] 4 5 6)).
  - apply ex_aconn_wf.
  - repeat split; simpl; try lia; repeat constructor; simpl; lia.
  - vm_compute. reflexivity.
Defined.

Lemma aggregator_conserves_witness :
  let s := Build_agg_sys
    (AddConnection {| cd_EPMAC := []; cd_Conn := ex_aconn ex_server 7 1 0 |} (ag (agg_init "a" "h")))
    PcWait [ex_aconn ex_server 7 1 0] [] [] in
  u64 (tot ac_Bytes (conn_key (ex_aconn ex_server 7 1 0)) (pending s)) = 7.
Proof.
  intros s.
  destruct (aggregator_conserves "a" "h" s (conn_key (ex_aconn ex_server 7 1 0))) as [H _].
  - eapply rtc_l; [|apply rtc_refl]. apply (as_add _ PcWait [] [] []). apply ex_aconn_wf.
  - cbn [s ag_reported ag_dropped app] in H. rewrite <-H. vm_compute. reflexivity.
Defined.

Lemma aggregated_entry_witness :
  let k := conn_key (ex_aconn ex_server 7 1 0) in
  exists e, updateConnectionMap (ex_aconn ex_server 5 4 2) {[k := ex_aconn ex_server 7 1 0]} !! k = Some e /\
    ac_Bytes e = 12.
Proof.
  intros k.
  destruct (aggregated_entry {[k := ex_aconn ex_server 7 1 0]} k (ex_aconn ex_server 7 1 0)
    [ex_aconn ex_server 5 4 2]) as (_ & e & He & Hb & _).
  - apply lookup_singleton_eq.
  - split; simpl; lia.
  - apply Forall_singleton. vm_compute. reflexivity.
  - exists e. split; [exact He|]. rewrite Hb. vm_compute. reflexivity.
Defined.

Definition ex_agg : Aggregator :=
  set_connectionMap {["k" := ex_aconn ex_server 7 1 0]} (ag (agg_init "a" "h")).

Lemma flushes_drain_all_witness :
  GetConnectionCount (flush [("k", ex_aconn ex_server 7 1 0)] ex_agg).1.1 = 0.
Proof.
  apply (flushes_drain_all 1 ex_agg
    (default [] (flush [("k", ex_aconn ex_server 7 1 0)] ex_agg).2 ++ [])).
  - apply flushes_S; [|apply flushes_0]. vm_decide.
  - reflexivity.
  - reflexivity.
  - vm_compute. discriminate.
Defined.
