(* ===== verification/DPClient.v ===== *)
(** * The agent's client of the data plane (micro-segment/internal/agent/dp/client.go)

    The messages are kept as the structs the code marshals; the socket is a
    parameter: the error of a dial or a write is an argument of the call, and
    the JSON decoding of a datagram one of [handleMessage].  [dp_step] runs
    the client with its reader goroutines. *)

From Stdlib Require Import ZArith Lia.
From S2P Require Import Prelude GoNet AgentTypes.
Local Open Scope Z_scope.

(** ** Data *)

Record DPConnection := {
  dc_ClientIP : IP;
  dc_ServerIP : IP;
  dc_ClientPort : Z;              (* uint16 *)
  dc_ServerPort : Z;              (* uint16 *)
  dc_IPProto : Z;                 (* uint8 *)
  dc_Application : Z;             (* uint32 *)
  dc_Bytes : Z;                   (* uint64 *)
  dc_Sessions : Z;                (* uint32 *)
  dc_FirstSeenAt : Z;             (* uint32 *)
  dc_LastSeenAt : Z;              (* uint32 *)
  dc_ThreatID : Z;                (* uint32 *)
  dc_Severity : Z;                (* uint8 *)
  dc_PolicyAction : Z;            (* uint8 *)
  dc_PolicyId : Z;                (* uint32 *)
  dc_Ingress : bool;
  dc_ExternalPeer : bool;
  dc_EPMAC : list Z;
}.

Record DPThreatLog := {
  dt_ThreatID : Z;                (* uint32 *)
  dt_Severity : Z;                (* uint8 *)
  dt_ClientIP : IP;
  dt_ServerIP : IP;
  dt_ServerPort : Z;              (* uint16 *)
  dt_IPProto : Z;                 (* uint8 *)
  dt_PktIngress : bool;
  dt_EPMAC : list Z;
}.

Record DPPolicy := {
  dpp_ID : Z;                     (* uint32 *)
  dpp_SrcIP : IP;
  dpp_DstIP : IP;
  dpp_SrcIPMask : list Z;
  dpp_DstIPMask : list Z;
  dpp_Port : Z;                   (* uint16 *)
  dpp_PortMask : Z;               (* uint16 *)
  dpp_IPProto : Z;                (* uint8 *)
  dpp_Action : Z;                 (* uint8 *)
  dpp_Ingress : bool;
  dpp_Application : Z;            (* uint32 *)
}.

#[export] Instance DPPolicy_eq_dec : EqDecision DPPolicy.
Proof. solve_decision. Defined.

(** A message to the data plane, by its [type] field. *)
Inductive dp_msg :=
| MsgPolicy (policies : list DPPolicy)
| MsgAddMAC (mac workloadID : string)
| MsgDelMAC (mac : string)
| MsgConfigSubnets (subnets : list string).

(** A message from it: its [type] field and its raw [data]. *)
Record DPMessage := { dm_Type : string; dm_Data : list Z }.

(** ** State

    A socket is a number; [conn] is the one the client holds. *)
Record DPClient := {
  dp_socketPath : string;
  dp_conn : option nat;
  dp_connected : bool;
  dp_onConnection : bool;
  dp_onThreatLog : bool;
}.

Definition NewDPClient (socketPath : string) : DPClient := {|
  dp_socketPath := socketPath; dp_conn := None; dp_connected := false;
  dp_onConnection := false; dp_onThreatLog := false |}.

Definition dp_set_conn (conn : option nat) (connected : bool) (c : DPClient) : DPClient := {|
  dp_socketPath := dp_socketPath c; dp_conn := conn; dp_connected := connected;
  dp_onConnection := dp_onConnection c; dp_onThreatLog := dp_onThreatLog c |}.

(** [dial] is the result of [net.DialUnix]: a socket or an error.  A new
    connection starts a reader on it. *)
Definition dp_Connect (dial : nat + string) (c : DPClient) : DPClient * go_error :=
  if dp_connected c then (c, None)
  else match dial with
       | inr err => (c, Some ("failed to connect to DP: " +:+ err))
       | inl conn => (dp_set_conn (Some conn) true c, None)
       end.

(** The second result is the socket that is closed. *)
Definition dp_Disconnect (c : DPClient) : DPClient * option nat :=
  if negb (dp_connected c) then (c, None)
  else (dp_set_conn (dp_conn c) false c, dp_conn c).

Definition dp_IsConnected (c : DPClient) : bool := dp_connected c.

Definition SetOnConnection (c : DPClient) : DPClient := {|
  dp_socketPath := dp_socketPath c; dp_conn := dp_conn c; dp_connected := dp_connected c;
  dp_onConnection := true; dp_onThreatLog := dp_onThreatLog c |}.
Definition SetOnThreatLog (c : DPClient) : DPClient := {|
  dp_socketPath := dp_socketPath c; dp_conn := dp_conn c; dp_connected := dp_connected c;
  dp_onConnection := dp_onConnection c; dp_onThreatLog := true |}.

(** The reader's reaction to a read error. *)
Definition readLoop_error (c : DPClient) : DPClient := dp_set_conn (dp_conn c) false c.

(** What [handleMessage] calls back with. *)
Inductive dp_callback :=
| CbConnection (conn : DPConnection)
| CbThreatLog (threat : DPThreatLog).

Definition handleMessage (unmarshal_msg : list Z -> option DPMessage)
    (unmarshal_conn : list Z -> option DPConnection)
    (unmarshal_threat : list Z -> option DPThreatLog) (data : list Z) (c : DPClient)
  : option dp_callback :=
  match unmarshal_msg data with
  | None => None
  | Some msg =>
      if bool_decide (dm_Type msg = "connection") then
        if dp_onConnection c then CbConnection <$> unmarshal_conn (dm_Data msg) else None
      else if bool_decide (dm_Type msg = "threat") then
        if dp_onThreatLog c then CbThreatLog <$> unmarshal_threat (dm_Data msg) else None
      else None
  end.

(** ** Requests

    Each returns the error and the message it wrote, if any; [write] is the
    socket's answer. *)
Definition not_connected : string := "not connected to DP".

Definition dp_send (write : dp_msg -> go_error) (m : dp_msg) (c : DPClient) : go_error * option dp_msg :=
  if negb (dp_connected c) then (Some not_connected, None) else (write m, Some m).

Definition SendPolicy (write : dp_msg -> go_error) (policies : list DPPolicy) (c : DPClient) :=
  dp_send write (MsgPolicy policies) c.

Definition AddMAC (write : dp_msg -> go_error) (mac : list Z) (workloadID : string) (c : DPClient) :=
  dp_send write (MsgAddMAC (HardwareAddr_String mac) workloadID) c.

Definition DelMAC (write : dp_msg -> go_error) (mac : list Z) (c : DPClient) :=
  dp_send write (MsgDelMAC (HardwareAddr_String mac)) c.

Definition ConfigSubnets (write : dp_msg -> go_error) (subnets : list IPNet) (c : DPClient) :=
  dp_send write (MsgConfigSubnets (IPNet_String <$> subnets)) c.

(** ** The client and its readers

    [dp_open] are the open sockets and [dp_readers] the sockets the reader
    goroutines are blocked on.  A read fails once its socket is closed. *)
Record dp_sys := { dp_cl : DPClient; dp_open : gset nat; dp_readers : list nat }.

Inductive dp_step : dp_sys -> dp_sys -> Prop :=
| dps_connect c op rs conn :
    dp_connected c = false -> conn ∉ op -> conn ∉ rs ->
    dp_step (Build_dp_sys c op rs)
            (Build_dp_sys (dp_Connect (inl conn) c).1 ({[conn]} ∪ op) (rs ++ [conn]))
| dps_connect_noop c op rs dial :
    (dp_connected c = true \/ exists err, dial = inr err) ->
    dp_step (Build_dp_sys c op rs) (Build_dp_sys (dp_Connect dial c).1 op rs)
| dps_disconnect c op rs :
    dp_step (Build_dp_sys c op rs)
            (Build_dp_sys (dp_Disconnect c).1
               (match (dp_Disconnect c).2 with Some s => op ∖ {[s]} | None => op end) rs)
| dps_read_error c op rs1 conn rs2 :
    conn ∉ op ->
    dp_step (Build_dp_sys c op (rs1 ++ conn :: rs2))
            (Build_dp_sys (readLoop_error c) op (rs1 ++ rs2)).

Definition dp_init (path : string) : dp_sys := {|
  dp_cl := NewDPClient path; dp_open := ∅; dp_readers := [] |}.

Lemma dp_step_connected s s' :
  dp_step s s' ->
  (dp_connected (dp_cl s) = true -> exists n, dp_conn (dp_cl s) = Some n /\ n ∈ dp_open s /\ n ∈ dp_readers s) ->
  dp_connected (dp_cl s') = true -> exists n, dp_conn (dp_cl s') = Some n /\ n ∈ dp_open s' /\ n ∈ dp_readers s'.
Proof.
  intros Hs IH. destruct Hs as [c op rs conn Hc _ _|c op rs dial Hd|c op rs|c op rs1 conn rs2 _]; simpl in *.
  - unfold dp_Connect. rewrite Hc. simpl. intros _. exists conn. set_solver.
  - unfold dp_Connect. destruct (dp_connected c) eqn:Hc; [simpl; auto|].
    destruct Hd as [|[err ->]]; [done|]. simpl. congruence.
  - unfold dp_Disconnect. destruct (dp_connected c) eqn:Hc; simpl; [done|]. congruence.
  - done.
Qed.

(** Whenever the client believes it is connected, it holds an open
    socket with a reader on it. *)
Theorem dp_connected_open path s :
  rtc dp_step (dp_init path) s -> dp_IsConnected (dp_cl s) = true ->
  exists n, dp_conn (dp_cl s) = Some n /\ n ∈ dp_open s /\ n ∈ dp_readers s.
Proof.
  intros Hr. apply (rtc_invariant dp_step (fun s => dp_connected (dp_cl s) = true ->
    exists n, dp_conn (dp_cl s) = Some n /\ n ∈ dp_open s /\ n ∈ dp_readers s) (dp_init path));
    [|done|done]. intros x y Hxy IH. by eapply dp_step_connected.
Qed.

(** After a reconnect a client can be marked disconnected although its
    socket is open and read: the reader of the socket that was closed before
    clears the mark when it gets to its error, and every request is refused
    from then on. *)
Theorem dp_reconnect_stale_reader path n1 n2 write m :
  n1 <> n2 -> exists s,
  rtc dp_step (dp_init path) s /\
  dp_conn (dp_cl s) = Some n2 /\ n2 ∈ dp_open s /\ n2 ∈ dp_readers s /\
  dp_IsConnected (dp_cl s) = false /\ dp_send write m (dp_cl s) = (Some not_connected, None).
Proof.
  intros Hn.
  set (c1 := (dp_Connect (inl n1) (NewDPClient path)).1).
  set (c2 := (dp_Disconnect c1).1). set (c3 := (dp_Connect (inl n2) c2).1).
  exists (Build_dp_sys (readLoop_error c3) ({[n2]} ∪ (({[n1]} ∪ ∅) ∖ {[n1]})) ([] ++ [n2])).
  split; [|simpl; set_solver].
  eapply rtc_l; [apply (dps_connect _ _ _ n1); [done|set_solver|set_solver]|].
  eapply rtc_l; [apply dps_disconnect|].
  eapply rtc_l; [apply (dps_connect _ _ _ n2); [done|set_solver|set_solver]|].
  eapply rtc_l; [apply (dps_read_error _ _ [] n1 [n2]); set_solver|]. apply rtc_refl.
Qed.

Lemma dp_connected_open_witness :
  exists n, dp_conn (dp_Connect (inl 3%nat) (NewDPClient "/tmp/dp")).1 = Some n.
Proof.
  destruct (dp_connected_open "/tmp/dp"
    (Build_dp_sys (dp_Connect (inl 3%nat) (NewDPClient "/tmp/dp")).1 ({[3%nat]} ∪ ∅) ([] ++ [3%nat])))
    as (n & Hn & _); [|reflexivity|exists n; exact Hn].
  eapply rtc_l; [|apply rtc_refl]. apply dps_connect; [reflexivity|set_solver|set_solver].
Defined.

Lemma dp_reconnect_stale_reader_witness :
  exists s, rtc dp_step (dp_init "/tmp/dp") s /\ dp_IsConnected (dp_cl s) = false /\ dp_open s <> ∅.
Proof.
  destruct (dp_reconnect_stale_reader "/tmp/dp" 0%nat 1%nat (fun _ => None) (MsgPolicy []))
    as (s & Hr & _ & Ho & _ & Hc & _); [lia|].
  exists s. split; [exact Hr|]. split; [exact Hc|set_solver].
Defined.
