(* ===== verification/AgentPolicy.v ===== *)
(** * The agent's network policy (micro-segment/internal/agent/policy/network.go)

    The rules the agent holds and how it passes them to the data plane. *)

From Stdlib Require Import ZArith Lia.
From S2P Require Import Prelude GoNet AgentTypes DPClient.
Local Open Scope Z_scope.

(** ** State and operations *)

Record NetworkPolicy := {
  np_rules : gmap Z APolicyRule;
  np_dpClient : option DPClient;
}.

Definition NewNetworkPolicy (dpClient : option DPClient) : NetworkPolicy := {|
  np_rules := ∅; np_dpClient := dpClient |}.

Definition np_set_rules (m : gmap Z APolicyRule) (p : NetworkPolicy) : NetworkPolicy := {|
  np_rules := m; np_dpClient := np_dpClient p |}.

Definition AddRule (rule : APolicyRule) (p : NetworkPolicy) : NetworkPolicy :=
  np_set_rules (<[ar_ID rule := rule]> (np_rules p)) p.

Definition DeleteRule (id : Z) (p : NetworkPolicy) : NetworkPolicy :=
  np_set_rules (delete id (np_rules p)) p.

Definition GetRule (id : Z) (p : NetworkPolicy) : option APolicyRule := np_rules p !! id.

Definition ListRules (ord : list (Z * APolicyRule)) : list APolicyRule := ord.*2.

Definition ruleToDPPolicy (rule : APolicyRule) : DPPolicy := {|
  dpp_ID := ar_ID rule; dpp_SrcIP := []; dpp_DstIP := []; dpp_SrcIPMask := [];
  dpp_DstIPMask := []; dpp_Port := 0; dpp_PortMask := 0; dpp_IPProto := 0;
  dpp_Action := u8 (ar_Action rule); dpp_Ingress := ar_Ingress rule; dpp_Application := 0 |}.

(** The message written to the data plane, if any; the error of the write is
    only logged.  [ord] is the order of the range. *)
Definition syncToDP (write : dp_msg -> go_error) (ord : list (Z * APolicyRule)) (p : NetworkPolicy)
  : option dp_msg :=
  match np_dpClient p with
  | None => None
  | Some c =>
      if negb (dp_IsConnected c) then None
      else (SendPolicy write (ruleToDPPolicy <$> ord.*2) c).2
  end.

Definition UpdateRules (write : dp_msg -> go_error) (ord : list (Z * APolicyRule))
    (rules : list APolicyRule) (p : NetworkPolicy) : NetworkPolicy * option dp_msg :=
  let p := np_set_rules ∅ p in
  let p := np_set_rules (foldl (fun m rule => <[ar_ID rule := rule]> m) (np_rules p) rules) p in
  (p, syncToDP write ord p).

(** The loop over the rules has an empty body. *)
Definition MatchPolicy (srcIP dstIP : IP) (dstPort proto : Z) (p : NetworkPolicy) : Z * Z :=
  (0, ActionViolate).

Definition GetRuleCount (p : NetworkPolicy) : Z := Z.of_nat (size (np_rules p)).

(** ** The rules after an update *)

(** The last rule of the list with an id. *)
Definition last_with (id : Z) (rules : list APolicyRule) : option APolicyRule :=
  List.find (fun r => ar_ID r =? id) (reverse rules).

Lemma insert_rules_lookup rules id (m : gmap Z APolicyRule) :
  foldl (fun m rule => <[ar_ID rule := rule]> m) m rules !! id =
  match last_with id rules with Some r => Some r | None => m !! id end.
Proof.
  unfold last_with. induction rules as [|r rules IH] using rev_ind; simpl; [done|].
  rewrite foldl_snoc, reverse_snoc. simpl. rewrite lookup_insert.
  destruct (Z.eqb_spec (ar_ID r) id) as [He|He]; [by rewrite decide_True|by rewrite decide_False].
Qed.

Lemma insert_rules_keyed rules (m : gmap Z APolicyRule) :
  (forall id r, m !! id = Some r -> ar_ID r = id) ->
  forall id r, foldl (fun m rule => <[ar_ID rule := rule]> m) m rules !! id = Some r -> ar_ID r = id.
Proof.
  revert m. induction rules as [|r rules IH]; intros m Hm; simpl; [done|].
  apply IH. intros id r'. rewrite lookup_insert. case_decide; [|apply Hm]. by intros [= <-].
Qed.

(** An update replaces the whole rule set: afterwards an id has the last
    rule of the list with that id and no other rule is left; a connected data
    plane is sent exactly one policy for each id, in one message, with the
    action and direction of that rule. *)
Theorem UpdateRules_replaces write ord rules p c :
  let r := UpdateRules write ord rules p in
  np_dpClient p = Some c -> dp_IsConnected c = true -> visits ord (np_rules r.1) ->
  (forall id, GetRule id r.1 = last_with id rules) /\
  exists pols, r.2 = Some (MsgPolicy pols) /\ NoDup (dpp_ID <$> pols) /\
    (forall q, q ∈ pols <-> exists rule, last_with (dpp_ID q) rules = Some rule /\ q = ruleToDPPolicy rule).
Proof.
  intros r Hc Hconn Hv.
  assert (Hget : forall id, GetRule id r.1 = last_with id rules).
  { intros id. unfold GetRule, r, UpdateRules. simpl. rewrite insert_rules_lookup, lookup_empty.
    by destruct (last_with id rules). }
  assert (Hkey : forall id rule, np_rules r.1 !! id = Some rule -> ar_ID rule = id).
  { apply insert_rules_keyed. intros id rule. simpl. by rewrite lookup_empty. }
  split; [done|]. exists (ruleToDPPolicy <$> ord.*2). split; [|split].
  - unfold r, UpdateRules, syncToDP. simpl. rewrite Hc, Hconn. simpl.
    unfold SendPolicy, dp_send. unfold dp_IsConnected in Hconn. by rewrite Hconn.
  - assert (Heq : dpp_ID <$> (ruleToDPPolicy <$> ord.*2) = ord.*1).
    { rewrite <-!list_fmap_compose. apply list_fmap_ext. intros i [id rule] Hi. simpl. apply Hkey.
      apply (visits_elem_of _ _ _ _ Hv). by eapply list_elem_of_lookup_2. }
    rewrite Heq. by eapply visits_NoDup.
  - intros q. rewrite <-list_fmap_compose, list_elem_of_fmap. split.
    + intros ([id rule] & -> & Hin). apply (visits_elem_of _ _ _ _ Hv) in Hin. simpl.
      exists rule. split; [|done]. rewrite <-Hget, (Hkey _ _ Hin). done.
    + intros (rule & Hl & ->). simpl in Hl. exists (ar_ID rule, rule). split; [done|].
      apply (visits_elem_of _ _ _ _ Hv). rewrite <-Hl. apply Hget.
Qed.

(** The policy sent to the data plane does not depend on what a rule
    selects: rules with different ends, ports and applications, but one id,
    action and direction, become the same policy, with no address, port,
    protocol or application. *)
Theorem ruleToDPPolicy_selectors_lost r1 r2 :
  ar_ID r1 = ar_ID r2 -> ar_Action r1 = ar_Action r2 -> ar_Ingress r1 = ar_Ingress r2 ->
  ruleToDPPolicy r1 = ruleToDPPolicy r2 /\
  dpp_SrcIP (ruleToDPPolicy r1) = [] /\ dpp_DstIP (ruleToDPPolicy r1) = [] /\
  dpp_Port (ruleToDPPolicy r1) = 0 /\ dpp_IPProto (ruleToDPPolicy r1) = 0 /\
  dpp_Application (ruleToDPPolicy r1) = 0.
Proof. intros H1 H2 H3. unfold ruleToDPPolicy. by rewrite H1, H2, H3. Qed.

(** ** Witnesses *)

Definition ex_arule (id action : Z) (ports : string) : APolicyRule := {|
  ar_ID := id; ar_From := "a"; ar_To := "b"; ar_Ports := ports; ar_Applications := [];
  ar_Action := action; ar_Ingress := false |}.

Definition ex_np : NetworkPolicy :=
  NewNetworkPolicy (Some (dp_Connect (inl 0%nat) (NewDPClient "/tmp/dp")).1).

Lemma UpdateRules_replaces_witness :
  GetRule 1 (UpdateRules (fun _ => None) [(1, ex_arule 1 2 "80")]
    [ex_arule 1 1 "443"; ex_arule 1 2 "80"] ex_np).1 = Some (ex_arule 1 2 "80").
Proof.
  destruct (UpdateRules_replaces (fun _ => None) [(1, ex_arule 1 2 "80")]
    [ex_arule 1 1 "443"; ex_arule 1 2 "80"] ex_np (dp_Connect (inl 0%nat) (NewDPClient "/tmp/dp")).1)
    as [H _]; [reflexivity|reflexivity|vm_decide|].
  rewrite H. vm_compute. reflexivity.
Defined.

Lemma ruleToDPPolicy_selectors_lost_witness :
  ruleToDPPolicy (ex_arule 1 2 "tcp/80") = ruleToDPPolicy (ex_arule 1 2 "udp/53").
Proof. apply (ruleToDPPolicy_selectors_lost (ex_arule 1 2 "tcp/80") (ex_arule 1 2 "udp/53")); reflexivity. Defined.
