(* ===== verification/GrpcServer.v ===== *)
(** * The controller's gRPC server (micro-segment/internal/controller/grpc/server.go)

    The agents' states and the handlers of the service.  A handler is a
    function of the server, the cache and the policy engine it is given; the
    callbacks are flags, and the goroutines that call them outputs. *)

From Stdlib Require Import ZArith Lia.
From S2P Require Import Prelude GoLib GoNet CtrlTypes ProtoTypes PolicyEngine Graph Cache.
Local Open Scope Z_scope.

(** ** State *)

Record AgentState := {
  as_Info : pb_AgentInfo;
  as_LastSeen : Z;                (* nanoseconds *)
  as_Online : bool;
  as_Stats : option pb_AgentStats;
}.

Record Server := {
  sv_port : Z;
  sv_running : bool;
  sv_agents : gmap string AgentState;
  sv_onAgentJoin : bool;
  sv_onAgentLeave : bool;
}.

Definition NewServer (port : Z) : Server := {|
  sv_port := port; sv_running := false; sv_agents := ∅; sv_onAgentJoin := false;
  sv_onAgentLeave := false |}.

Definition SetOnAgentJoin (s : Server) : Server := {|
  sv_port := sv_port s; sv_running := sv_running s; sv_agents := sv_agents s;
  sv_onAgentJoin := true; sv_onAgentLeave := sv_onAgentLeave s |}.
Definition SetOnAgentLeave (s : Server) : Server := {|
  sv_port := sv_port s; sv_running := sv_running s; sv_agents := sv_agents s;
  sv_onAgentJoin := sv_onAgentJoin s; sv_onAgentLeave := true |}.

Definition sv_set_running (b : bool) (s : Server) : Server := {|
  sv_port := sv_port s; sv_running := b; sv_agents := sv_agents s;
  sv_onAgentJoin := sv_onAgentJoin s; sv_onAgentLeave := sv_onAgentLeave s |}.
Definition sv_set_agents (m : gmap string AgentState) (s : Server) : Server := {|
  sv_port := sv_port s; sv_running := sv_running s; sv_agents := m;
  sv_onAgentJoin := sv_onAgentJoin s; sv_onAgentLeave := sv_onAgentLeave s |}.

(** [listen] is the error of [net.Listen].  A start also starts the serving
    goroutine and the timeout checker. *)
Definition sv_Start (listen : go_error) (s : Server) : Server * go_error :=
  if sv_running s then (s, Some "server already running")
  else match listen with
       | Some err => (s, Some ("failed to listen: " +:+ err))
       | None => (sv_set_running true s, None)
       end.

Definition sv_Stop (s : Server) : Server :=
  if negb (sv_running s) then s else sv_set_running false s.

Definition IsRunning (s : Server) : bool := sv_running s.

(** ** Agents *)

(** [60 * time.Second]. *)
Definition agent_timeout : Z := 60 * 1000000000.

Inductive agent_event := EvAgentJoin (agentID hostID : string) | EvAgentLeave (agentID : string).

Definition set_offline (st : AgentState) : AgentState := {|
  as_Info := as_Info st; as_LastSeen := as_LastSeen st; as_Online := false;
  as_Stats := as_Stats st |}.

(** One turn of the range of [checkAgentTimeout]. *)
Definition check_agent (now : Z) (s : Server) (p : string * AgentState) : Server * list agent_event :=
  let '(agentID, state) := p in
  if as_Online state && (agent_timeout <? now - as_LastSeen state)
  then (sv_set_agents (<[agentID := set_offline state]> (sv_agents s)) s,
        if sv_onAgentLeave s then [EvAgentLeave agentID] else [])
  else (s, []).

Fixpoint check_agents (now : Z) (ord : list (string * AgentState)) (s : Server)
  : Server * list agent_event :=
  match ord with
  | [] => (s, [])
  | p :: ord' =>
      let '(s, ev) := check_agent now s p in
      let '(s, evs) := check_agents now ord' s in (s, ev ++ evs)
  end.

Definition checkAgentTimeout (now : Z) (ord : list (string * AgentState)) (s : Server)
  : Server * list agent_event := check_agents now ord s.

Definition Register (now : Z) (req : pb_AgentInfo) (s : Server)
  : Server * list agent_event * pb_RegisterResponse :=
  (sv_set_agents (<[pba_AgentId req := {|
     as_Info := req; as_LastSeen := now; as_Online := true; as_Stats := None |}]> (sv_agents s)) s,
   if sv_onAgentJoin s then [EvAgentJoin (pba_AgentId req) (pba_HostId req)] else [],
   {| pbr_Code := 0; pbr_Message := "registered"; pbr_ClusterId := "micro-segment-cluster";
      pbr_ReportInterval := 5 |}).

(** [unix] is the second reading of the clock, in seconds. *)
Definition Heartbeat (now unix : Z) (req : pb_HeartbeatRequest) (s : Server)
  : Server * pb_HeartbeatResponse :=
  (match sv_agents s !! pbh_AgentId req with
   | Some st => sv_set_agents (<[pbh_AgentId req := {|
       as_Info := as_Info st; as_LastSeen := now; as_Online := true;
       as_Stats := pbh_Stats req |}]> (sv_agents s)) s
   | None => s
   end,
   {| pbhr_Code := 0; pbhr_Timestamp := u64 unix |}).

Definition GetAgentCount (s : Server) : Z := Z.of_nat (size (sv_agents s)).

Definition GetOnlineAgentCount (ord : list (string * AgentState)) : Z :=
  foldl (fun count p => if as_Online p.2 then count + 1 else count) 0 ord.

(** ** Reports *)

Definition ReportConnections (req : pb_ConnectionReport) (c : Cache) : Cache * pb_ReportResponse :=
  (foldl (fun c conn => UpdateConnectionFromProto (Some conn) c) c (pbcr_Connections req),
   {| pbrr_Code := 0; pbrr_Message := "ok"; pbrr_ReportInterval := 5 |}).

Definition ReportThreats (req : pb_ThreatReport) : pb_ReportResponse :=
  {| pbrr_Code := 0; pbrr_Message := "ok"; pbrr_ReportInterval := 0 |}.

(** [oi], [oo]: the orders of the ranges of a node deletion. *)
Definition ReportWorkload (now : Z) (oi oo : list (string * string)) (req : pb_WorkloadEvent)
    (c : Cache) : Cache * pb_ReportResponse :=
  ((if bool_decide (pbe_EventType req = "add") || bool_decide (pbe_EventType req = "update")
    then UpdateWorkloadFromProto now (pbe_Workload req) c
    else if bool_decide (pbe_EventType req = "delete") then
      match pbe_Workload req with
      | Some wl => DeleteWorkload oi oo (pbw_Id wl) c
      | None => c
      end
    else c),
   {| pbrr_Code := 0; pbrr_Message := "ok"; pbrr_ReportInterval := 0 |}).

(** ** Policies *)

Definition actionToProto (action : string) : Z :=
  if bool_decide (action = "open") then 0
  else if bool_decide (action = "allow") then 1
  else if bool_decide (action = "deny") then 2
  else if bool_decide (action = "violate") then 3
  else 3.

Definition ruleToProto (rule : PolicyRule) : pb_PolicyRule := {|
  pbp_Id := pr_ID rule; pbp_From := pr_From rule; pbp_To := pr_To rule;
  pbp_Ports := pr_Ports rule; pbp_Applications := []; pbp_Action := actionToProto (pr_Action rule);
  pbp_Ingress := false; pbp_Priority := pr_Priority rule; pbp_Disable := pr_Disable rule;
  pbp_Comment := pr_Comment rule |}.

Definition GetPolicies (req : pb_PolicyRequest) (e : Engine) : pb_PolicyList :=
  {| pbpl_Rules := ruleToProto <$> ListRules e |}.

(** ** Timeouts *)

Definition expired (now : Z) (st : AgentState) : bool :=
  as_Online st && (agent_timeout <? now - as_LastSeen st).

Lemma check_agents_lookup now ord s id :
  (forall k st, (k, st) ∈ ord -> sv_agents s !! k = Some st) -> NoDup ord.*1 ->
  sv_agents (check_agents now ord s).1 !! id =
  match sv_agents s !! id with
  | Some st => if decide (id ∈ ord.*1) then Some (if expired now st then set_offline st else st) else Some st
  | None => None
  end.
Proof.
  revert s. induction ord as [|[k st] ord IH]; intros s Hin Hnd; cbn [check_agents].
  - simpl. by destruct (sv_agents s !! id).
  - rewrite fmap_cons in *. cbn [fst] in *. apply NoDup_cons in Hnd as [Hk Hnd].
    assert (Hst : sv_agents s !! k = Some st) by (apply Hin; set_solver).
    destruct (check_agent now s (k, st)) as [s1 ev] eqn:Hs1.
    destruct (check_agents now ord s1) as [s2 evs] eqn:Hs2.
    assert (Hs1' : sv_agents s1 !! id = if decide (id = k) then
        Some (if expired now st then set_offline st else st) else sv_agents s !! id).
    { unfold check_agent in Hs1. fold (expired now st) in Hs1.
      destruct (expired now st); simplify_eq; simpl; rewrite ?lookup_insert;
        repeat case_decide; naive_solver. }
    specialize (IH s1). rewrite Hs2 in IH. cbn [fst] in *. rewrite IH; [|clear IH|done].
    + rewrite Hs1'. destruct (decide (id = k)) as [->|Hne].
      * rewrite Hst. rewrite (decide_True (P := k ∈ k :: ord.*1)) by set_solver.
        by rewrite decide_False.
      * destruct (sv_agents s !! id) as [st'|]; [|done]. destruct (decide (id ∈ ord.*1)).
        -- by rewrite decide_True by set_solver.
        -- by rewrite decide_False by set_solver.
    + intros k' st' Hin'. assert (k' <> k).
      { intros ->. apply Hk. apply list_elem_of_fmap. by exists (k, st'). }
      unfold check_agent in Hs1. fold (expired now st) in Hs1.
      destruct (expired now st); simplify_eq; simpl; rewrite ?lookup_insert_ne by done;
        apply Hin; set_solver.
Qed.

Lemma check_agents_callback now ord s : sv_onAgentLeave (check_agents now ord s).1 = sv_onAgentLeave s.
Proof.
  revert s. induction ord as [|[k st] ord IH]; intros s; cbn [check_agents]; [done|].
  destruct (check_agent now s (k, st)) as [s1 ev] eqn:Hs1. specialize (IH s1).
  destruct (check_agents now ord s1) as [s2 evs]. simpl in *. rewrite IH.
  unfold check_agent in Hs1. case_match; by simplify_eq.
Qed.

Lemma check_agents_events now ord s :
  sv_onAgentLeave s = true ->
  (check_agents now ord s).2 = (fun p => EvAgentLeave p.1) <$> filter (fun p => expired now p.2 = true) ord.
Proof.
  revert s. induction ord as [|[k st] ord IH]; intros s Hcb; cbn [check_agents]; [done|].
  assert (Hs1 : sv_onAgentLeave (check_agent now s (k, st)).1 = true /\
    (check_agent now s (k, st)).2 = if expired now st then [EvAgentLeave k] else []).
  { unfold check_agent. fold (expired now st). destruct (expired now st); simpl; by rewrite ?Hcb. }
  destruct (check_agent now s (k, st)) as [s1 ev]. simpl in Hs1. destruct Hs1 as [Hcb1 ->].
  specialize (IH s1 Hcb1). destruct (check_agents now ord s1) as [s2 evs]. cbn [snd] in *. rewrite IH.
  rewrite filter_cons. simpl. by destruct (expired now st).
Qed.

(** Whatever the order of its range, a timeout check marks offline
    exactly the online agents last seen more than sixty seconds ago, leaves
    every other agent as it was, and reports the departure of each agent it
    marks, once, and of no other. *)
Theorem checkAgentTimeout_spec now ord s :
  visits ord (sv_agents s) -> sv_onAgentLeave s = true ->
  let r := checkAgentTimeout now ord s in
  (forall id, sv_agents r.1 !! id =
     (fun st => if expired now st then set_offline st else st) <$> sv_agents s !! id) /\
  NoDup r.2 /\
  forall ev, ev ∈ r.2 <-> exists id st, ev = EvAgentLeave id /\ sv_agents s !! id = Some st /\ expired now st = true.
Proof.
  intros Hv Hcb r. unfold r, checkAgentTimeout. split; [|split].
  - intros id. rewrite check_agents_lookup; [|intros k st; by apply (visits_elem_of _ _ _ _ Hv)|by eapply visits_NoDup].
    destruct (sv_agents s !! id) as [st|] eqn:Hst; [|done]. rewrite decide_True; [done|].
    apply (visits_elem_of _ _ _ _ Hv) in Hst. apply list_elem_of_fmap. by exists (id, st).
  - rewrite check_agents_events by done.
    apply NoDup_fmap_2_strong; [|apply list.NoDup_filter; by eapply visits_NoDup_pairs].
    intros [k1 s1] [k2 s2] H1%list_elem_of_filter H2%list_elem_of_filter [= <-].
    destruct H1 as [_ H1], H2 as [_ H2]. apply (visits_elem_of _ _ _ _ Hv) in H1, H2. congruence.
  - intros ev. rewrite check_agents_events, list_elem_of_fmap by done. split.
    + intros ([k st] & -> & [He Hin]%list_elem_of_filter). apply (visits_elem_of _ _ _ _ Hv) in Hin.
      simpl in *. eauto.
    + intros (id & st & -> & Hst & He). exists (id, st). split; [done|].
      apply list_elem_of_filter. split; [done|]. by apply (visits_elem_of _ _ _ _ Hv).
Qed.

(** ** Heartbeats

    [alive_run id last s last' s']: a run of the server in which [id] was
    last heard of at [last], other agents register and beat at will, and no
    check comes more than [agent_timeout] after [id] was last heard of. *)
Inductive alive_run (id : string) : Z -> Server -> Z -> Server -> Prop :=
| ar_nil last s : alive_run id last s last s
| ar_beat last s now unix req last' s' :
    pbh_AgentId req = id ->
    alive_run id now (Heartbeat now unix req s).1 last' s' -> alive_run id last s last' s'
| ar_other_beat last s now unix req last' s' :
    pbh_AgentId req <> id ->
    alive_run id last (Heartbeat now unix req s).1 last' s' -> alive_run id last s last' s'
| ar_other_join last s now req last' s' :
    pba_AgentId req <> id ->
    alive_run id last (Register now req s).1.1 last' s' -> alive_run id last s last' s'
| ar_check last s now ord last' s' :
    now - last <= agent_timeout -> visits ord (sv_agents s) ->
    alive_run id last (checkAgentTimeout now ord s).1 last' s' -> alive_run id last s last' s'.

Lemma alive_run_online id last s last' s' :
  alive_run id last s last' s' ->
  (exists st, sv_agents s !! id = Some st /\ as_Online st = true /\ as_LastSeen st = last) ->
  exists st, sv_agents s' !! id = Some st /\ as_Online st = true /\ as_LastSeen st = last'.
Proof.
  induction 1 as [last s|last s now unix req last' s' Hid _ IH|last s now unix req last' s' Hid _ IH
    |last s now req last' s' Hid _ IH|last s now ord last' s' Hle Hv _ IH]; intros (st & Hst & Hon & Hl).
  - eauto.
  - apply IH. simpl. rewrite Hid, Hst. simpl. rewrite lookup_insert_eq. eauto.
  - apply IH. simpl. destruct (sv_agents s !! pbh_AgentId req); simpl; [|eauto].
    rewrite lookup_insert_ne by done. eauto.
  - apply IH. simpl. rewrite lookup_insert_ne by done. eauto.
  - apply IH. unfold checkAgentTimeout.
    rewrite check_agents_lookup; [|intros k st'; by apply (visits_elem_of _ _ _ _ Hv)|by eapply visits_NoDup].
    rewrite Hst. assert (expired now st = false) as He.
    { unfold expired. rewrite Hon, Hl. simpl. lia. }
    rewrite He. case_decide; eauto.
Qed.

(** An agent that registers and then is never silent for more than sixty
    seconds when a timeout check runs stays online, whatever the other agents
    do and however the checks are ordered. *)
Theorem heartbeat_keeps_online now req s last' s' :
  alive_run (pba_AgentId req) now (Register now req s).1.1 last' s' ->
  exists st, sv_agents s' !! pba_AgentId req = Some st /\ as_Online st = true /\ as_LastSeen st = last'.
Proof.
  intros Hr. apply (alive_run_online _ _ _ _ _ Hr). simpl. rewrite lookup_insert_eq. eauto.
Qed.

(** ** Witnesses *)

Definition ex_info (id : string) : pb_AgentInfo := {|
  pba_AgentId := id; pba_HostId := "h"; pba_HostName := "h"; pba_Version := ""; pba_Platform := "" |}.

Definition ex_server : Server := (Register 5 (ex_info "a1") (SetOnAgentLeave (NewServer 18400))).1.1.

Lemma checkAgentTimeout_spec_witness :
  let st := {| as_Info := ex_info "a1"; as_LastSeen := 5; as_Online := true; as_Stats := None |} in
  sv_agents (checkAgentTimeout 60000000006 [("a1", st)] ex_server).1 !! "a1" = Some (set_offline st).
Proof.
  intros st.
  assert (Hv : visits [("a1", st)] (sv_agents ex_server)).
  { unfold visits, ex_server, Register. simpl. rewrite insert_empty, map_to_list_singleton. done. }
  destruct (checkAgentTimeout_spec 60000000006 [("a1", st)] ex_server Hv eq_refl) as [H _].
  rewrite H. vm_compute. reflexivity.
Defined.

Definition ex_beat : pb_HeartbeatRequest :=
  {| pbh_AgentId := "a1"; pbh_Timestamp := 0; pbh_Stats := None |}.

Lemma heartbeat_keeps_online_witness :
  exists st, sv_agents (Heartbeat 9 0 ex_beat ex_server).1 !! "a1" = Some st /\ as_Online st = true.
Proof.
  destruct (heartbeat_keeps_online 5 (ex_info "a1") (SetOnAgentLeave (NewServer 18400)) 9
    (Heartbeat 9 0 ex_beat ex_server).1)
    as (st & Hst & Hon & _).
  - apply (ar_beat _ _ _ 9 0 ex_beat); [reflexivity|apply ar_nil].
  - exists st. split; [exact Hst|exact Hon].
Defined.
