(* ===== verification/GrpcClient.v ===== *)
(** * The agent's gRPC client (micro-segment/internal/agent/grpc/client.go)

    A remote call is a parameter [call] of the method that makes it: the
    request it sends gives a response or an error.  The goroutine [Register]
    starts is counted in [gc_heartbeats]. *)

From Stdlib Require Import ZArith Lia.
From S2P Require Import Prelude GoLib GoNet AgentTypes ProtoTypes.
Local Open Scope Z_scope.

(** ** State *)

Record Client := {
  gc_serverAddr : string;
  gc_connected : bool;
  gc_agentID : string;
  gc_hostID : string;
  gc_hostName : string;
  gc_version : string;
  gc_stopCh_closed : bool;
  gc_heartbeats : nat;
}.

Definition NewClient (serverAddr agentID hostID hostName version : string) : Client := {|
  gc_serverAddr := serverAddr; gc_connected := false; gc_agentID := agentID; gc_hostID := hostID;
  gc_hostName := hostName; gc_version := version; gc_stopCh_closed := false;
  gc_heartbeats := 0 |}.

Definition gc_set (connected closed : bool) (beats : nat) (c : Client) : Client := {|
  gc_serverAddr := gc_serverAddr c; gc_connected := connected; gc_agentID := gc_agentID c;
  gc_hostID := gc_hostID c; gc_hostName := gc_hostName c; gc_version := gc_version c;
  gc_stopCh_closed := closed; gc_heartbeats := beats |}.

(** [dial] is the error of [grpc.Dial]. *)
Definition gc_Connect (dial : go_error) (c : Client) : Client * go_error :=
  if gc_connected c then (c, None)
  else match dial with
       | Some err => (c, Some ("failed to connect: " +:+ err))
       | None => (gc_set true (gc_stopCh_closed c) (gc_heartbeats c) c, None)
       end.

Definition gc_Disconnect (c : Client) : outcome Client :=
  if negb (gc_connected c) then Done c
  else if gc_stopCh_closed c then Panicked "close of closed channel"
  else Done (gc_set false true (gc_heartbeats c) c).

Definition gc_IsConnected (c : Client) : bool := gc_connected c.

(** A turn of [heartbeatLoop]: what the select may do.  [HbReturn] ends the
    goroutine. *)
Inductive hb_choice := HbSend | HbReturn.
Definition hb_enabled (c : Client) (ticked : bool) (ch : hb_choice) : bool :=
  match ch with HbSend => ticked | HbReturn => gc_stopCh_closed c end.

(** ** Calls *)

Definition err_not_connected : string := "not connected".

Definition gc_Register (call : pb_AgentInfo -> pb_RegisterResponse + string) (c : Client)
  : Client * go_error :=
  if negb (gc_connected c) then (c, Some err_not_connected)
  else match call {| pba_AgentId := gc_agentID c; pba_HostId := gc_hostID c;
                     pba_HostName := gc_hostName c; pba_Version := gc_version c;
                     pba_Platform := "" |} with
       | inr err => (c, Some ("register failed: " +:+ err))
       | inl resp =>
           if negb (pbr_Code resp =? 0) then (c, Some ("register failed: " +:+ pbr_Message resp))
           else (gc_set (gc_connected c) (gc_stopCh_closed c) (S (gc_heartbeats c)) c, None)
       end.

(** The heartbeat sent, if any; its answer is only logged. *)
Definition sendHeartbeat (unix : Z) (c : Client) : option pb_HeartbeatRequest :=
  if negb (gc_connected c) then None
  else Some {| pbh_AgentId := gc_agentID c; pbh_Timestamp := u64 unix; pbh_Stats := None |}.

Definition connToProto (conn : AConnection) : pb_Connection := {|
  pbc_ClientWl := ac_ClientWL conn; pbc_ServerWl := ac_ServerWL conn;
  pbc_ClientIp := ac_ClientIP conn; pbc_ServerIp := ac_ServerIP conn;
  pbc_ClientPort := u32 (ac_ClientPort conn); pbc_ServerPort := u32 (ac_ServerPort conn);
  pbc_IpProto := u32 (ac_IPProto conn); pbc_Application := ac_Application conn;
  pbc_Bytes := ac_Bytes conn; pbc_Sessions := ac_Sessions conn;
  pbc_FirstSeenAt := ac_FirstSeenAt conn; pbc_LastSeenAt := ac_LastSeenAt conn;
  pbc_ThreatId := ac_ThreatID conn; pbc_Severity := u32 (ac_Severity conn);
  pbc_PolicyAction := u32 (ac_PolicyAction conn); pbc_PolicyId := ac_PolicyId conn;
  pbc_Ingress := ac_Ingress conn; pbc_ExternalPeer := ac_ExternalPeer conn;
  pbc_LocalPeer := ac_LocalPeer conn; pbc_Scope := ac_Scope conn;
  pbc_Network := ac_Network conn; pbc_Violates := ac_Violates conn |}.

Definition report_result (what : string) (r : pb_ReportResponse + string) : go_error :=
  match r with
  | inr err => Some (what +:+ " failed: " +:+ err)
  | inl resp => if negb (pbrr_Code resp =? 0) then Some (what +:+ " failed: " +:+ pbrr_Message resp)
                else None
  end.

Definition gc_ReportConnections (call : pb_ConnectionReport -> pb_ReportResponse + string)
    (conns : list AConnection) (c : Client) : go_error :=
  if negb (gc_connected c) then Some err_not_connected
  else report_result "report connections"
         (call {| pbcr_AgentId := gc_agentID c; pbcr_HostId := gc_hostID c;
                  pbcr_Connections := connToProto <$> conns |}).

Definition threatToProto (threat : ThreatLog) : pb_ThreatLog := {|
  pbt_Id := tl_ID threat; pbt_ThreatId := tl_ThreatID threat; pbt_ThreatName := tl_ThreatName threat;
  pbt_Severity := tl_Severity threat; pbt_ClientWl := tl_ClientWL threat;
  pbt_ServerWl := tl_ServerWL threat; pbt_ClientIp := tl_ClientIP threat;
  pbt_ServerIp := tl_ServerIP threat; pbt_ServerPort := u32 (tl_ServerPort threat);
  pbt_IpProto := u32 (tl_IPProto threat); pbt_PktIngress := tl_PktIngress threat;
  pbt_LocalPeer := tl_LocalPeer threat; pbt_ReportedAt := u64 (tl_ReportedAt threat) |}.

Definition gc_ReportThreats (call : pb_ThreatReport -> pb_ReportResponse + string)
    (threats : list ThreatLog) (c : Client) : go_error :=
  if negb (gc_connected c) then Some err_not_connected
  else report_result "report threats"
         (call {| pbtr_AgentId := gc_agentID c; pbtr_HostId := gc_hostID c;
                  pbtr_Threats := threatToProto <$> threats |}).

(** [int32(x)] of an [int]. *)
Definition to_int32 (x : Z) : Z := u32 (x + 2 ^ 31) - 2 ^ 31.

(** [ord] is the order of the range over the interfaces. *)
Definition ifacesToProto (ord : list (string * list AIPAddr)) : list pb_NetworkInterface :=
  (fun '(name, addrs) => {|
     pbn_Name := name; pbn_Mac := "";
     pbn_Addrs := (fun addr => {| pbi_Ip := IP_String (aip_IP addr); pbi_Scope := aip_Scope addr;
                                  pbi_Gateway := aip_Gateway addr |}) <$> addrs |}) <$> ord.

Definition workloadToProto (ord : list (string * list AIPAddr)) (wl : AWorkload) : pb_Workload := {|
  pbw_Id := aw_ID wl; pbw_Name := aw_Name wl; pbw_HostId := aw_HostID wl;
  pbw_HostName := aw_HostName wl; pbw_Domain := aw_Domain wl; pbw_Service := aw_Service wl;
  pbw_Image := ""; pbw_PolicyMode := aw_PolicyMode wl; pbw_Running := aw_Running wl;
  pbw_Pid := to_int32 (aw_Pid wl); pbw_Ifaces := ifacesToProto ord; pbw_Labels := ∅ |}.

Definition gc_ReportWorkload (call : pb_WorkloadEvent -> pb_ReportResponse + string)
    (ord : list (string * list AIPAddr)) (eventType : string) (wl : AWorkload) (c : Client) : go_error :=
  if negb (gc_connected c) then Some err_not_connected
  else report_result "report workload"
         (call {| pbe_AgentId := gc_agentID c; pbe_EventType := eventType;
                  pbe_Workload := Some (workloadToProto ord wl) |}).

Definition ruleFromProto (r : pb_PolicyRule) : APolicyRule := {|
  ar_ID := pbp_Id r; ar_From := pbp_From r; ar_To := pbp_To r; ar_Ports := pbp_Ports r;
  ar_Applications := pbp_Applications r; ar_Action := u8 (pbp_Action r);
  ar_Ingress := pbp_Ingress r |}.

Definition gc_GetPolicies (call : pb_PolicyRequest -> pb_PolicyList + string)
    (workloadIDs : list string) (c : Client) : list APolicyRule + string :=
  if negb (gc_connected c) then inr err_not_connected
  else match call {| pbpq_AgentId := gc_agentID c; pbpq_WorkloadIds := workloadIDs |} with
       | inr err => inr ("get policies failed: " +:+ err)
       | inl resp => inl (ruleFromProto <$> pbpl_Rules resp)
       end.

Definition ipToBytes (ip : IP) : list Z :=
  match To4 ip with Some ip4 => ip4 | None => ip end.

(** ** Connecting again *)

(** A client cannot be used again after a disconnect.  A second
    connection succeeds, but the stop channel stays closed: the heartbeat
    goroutine it registers may return at its first turn without a beat, and
    the second disconnect closes the channel again and panics. *)
Theorem reconnect_broken c c1 call :
  gc_connected c = true -> gc_Disconnect c = Done c1 ->
  (forall req, exists resp, call req = inl resp /\ pbr_Code resp = 0) ->
  let c2 := (gc_Connect None c1).1 in
  let c3 := (gc_Register call c2).1 in
  (gc_Connect None c1).2 = None /\ (gc_Register call c2).2 = None /\
  gc_IsConnected c3 = true /\ hb_enabled c3 false HbReturn = true /\
  panics (gc_Disconnect c3).
Proof.
  intros Hc Hd Hcall c2 c3. unfold gc_Disconnect in Hd. rewrite Hc in Hd. simpl in Hd.
  destruct (gc_stopCh_closed c); [done|]. injection Hd as <-.
  assert (H2 : c2 = gc_set true true (gc_heartbeats c) c) by reflexivity.
  split; [done|]. unfold c3, gc_Register. rewrite H2. simpl.
  destruct (Hcall {| pba_AgentId := gc_agentID c; pba_HostId := gc_hostID c;
    pba_HostName := gc_hostName c; pba_Version := gc_version c; pba_Platform := "" |})
    as (resp & -> & ->). simpl. repeat split; done.
Qed.

Lemma reconnect_broken_witness :
  let call := fun _ => inl {| pbr_Code := 0; pbr_Message := ""; pbr_ClusterId := "";
                              pbr_ReportInterval := 5 |} in
  let c := (gc_Connect None (NewClient "addr" "a" "h" "h" "1")).1 in
  panics (gc_Disconnect (gc_Register call (gc_Connect None
    (gc_set false true 0 c)).1).1).
Proof.
  intros call c.
  destruct (reconnect_broken c (gc_set false true 0 c) call eq_refl eq_refl) as (_ & _ & _ & _ & H).
  - intros req. eexists. split; reflexivity.
  - exact H.
Defined.
