(* ===== verification/AgentEngine.v ===== *)
(** * The agent's engine (micro-segment/internal/agent/engine/engine.go)

    The engine owns the aggregator, the data-plane client, the gRPC client and
    the policy manager.  The policy manager keeps a pointer to the engine's
    data-plane client: [eng_policy] rebuilds it from the one client. *)

From Stdlib Require Import ZArith Lia.
From S2P Require Import Prelude GoLib GoNet AgentTypes ProtoTypes Aggregator DPClient AgentPolicy GrpcClient.
Local Open Scope Z_scope.

(** ** State *)

(** [NetworkManager] is only stored. *)
Record Config := {
  cf_AgentID : string;
  cf_HostID : string;
  cf_HostName : string;
  cf_DPSocketPath : string;
  cf_GRPCAddr : string;
}.

Record AEngine := {
  eng_config : Config;
  eng_aggregator : Aggregator;
  eng_dpClient : DPClient;
  eng_grpcClient : Client;
  eng_rules : gmap Z APolicyRule;
  eng_workloads : gmap string AWorkload;
  eng_hostIPs : gmap string bool;
  eng_subnets : gmap string Subnet;
  eng_defaultPolicyMode : string;
  eng_running : bool;
  eng_stopCh_closed : bool;
}.

Definition eng_policy (e : AEngine) : NetworkPolicy :=
  {| np_rules := eng_rules e; np_dpClient := Some (eng_dpClient e) |}.

Definition NewEngine (config : Config) : AEngine := {|
  eng_config := config;
  eng_aggregator := SetOnThreatLogs (SetOnConnections
    (NewAggregator (cf_AgentID config) (cf_HostID config)));
  eng_dpClient := NewDPClient (cf_DPSocketPath config);
  eng_grpcClient := NewClient (cf_GRPCAddr config) (cf_AgentID config) (cf_HostID config)
    (cf_HostName config) "0.1.0";
  eng_rules := ∅; eng_workloads := ∅; eng_hostIPs := ∅; eng_subnets := ∅;
  eng_defaultPolicyMode := AgentPolicyModeMonitor; eng_running := false;
  eng_stopCh_closed := false |}.

Definition eng_set_parts (a : Aggregator) (d : DPClient) (g : Client) (e : AEngine) : AEngine := {|
  eng_config := eng_config e; eng_aggregator := a; eng_dpClient := d; eng_grpcClient := g;
  eng_rules := eng_rules e; eng_workloads := eng_workloads e; eng_hostIPs := eng_hostIPs e;
  eng_subnets := eng_subnets e; eng_defaultPolicyMode := eng_defaultPolicyMode e;
  eng_running := eng_running e; eng_stopCh_closed := eng_stopCh_closed e |}.
Definition eng_set_data (rules : gmap Z APolicyRule) (wls : gmap string AWorkload)
    (subnets : gmap string Subnet) (mode : string) (e : AEngine) : AEngine := {|
  eng_config := eng_config e; eng_aggregator := eng_aggregator e; eng_dpClient := eng_dpClient e;
  eng_grpcClient := eng_grpcClient e; eng_rules := rules; eng_workloads := wls;
  eng_hostIPs := eng_hostIPs e; eng_subnets := subnets; eng_defaultPolicyMode := mode;
  eng_running := eng_running e; eng_stopCh_closed := eng_stopCh_closed e |}.
Definition eng_set_run (running closed : bool) (e : AEngine) : AEngine := {|
  eng_config := eng_config e; eng_aggregator := eng_aggregator e; eng_dpClient := eng_dpClient e;
  eng_grpcClient := eng_grpcClient e; eng_rules := eng_rules e; eng_workloads := eng_workloads e;
  eng_hostIPs := eng_hostIPs e; eng_subnets := eng_subnets e;
  eng_defaultPolicyMode := eng_defaultPolicyMode e; eng_running := running;
  eng_stopCh_closed := closed |}.

(** ** Start and stop

    The errors of the connections are logged and do not stop the start. *)
Definition eng_Start (dp_dial : nat + string) (grpc_dial : go_error)
    (register : pb_AgentInfo -> pb_RegisterResponse + string) (e : AEngine) : AEngine :=
  let d := (dp_Connect dp_dial (eng_dpClient e)).1 in
  let d := SetOnThreatLog (SetOnConnection d) in
  let '(g, err) := gc_Connect grpc_dial (eng_grpcClient e) in
  let g := match err with Some _ => g | None => (gc_Register register g).1 end in
  let a := agg_Start (eng_aggregator e) in
  eng_set_run true (eng_stopCh_closed e) (eng_set_parts a d g e).

Definition eng_Stop (e : AEngine) : outcome AEngine :=
  let e := eng_set_run false (eng_stopCh_closed e) e in
  if eng_stopCh_closed e then Panicked "close of closed channel"
  else
    let e := eng_set_run (eng_running e) true e in
    a ← agg_Stop (eng_aggregator e);
    let d := (dp_Disconnect (eng_dpClient e)).1 in
    g ← gc_Disconnect (eng_grpcClient e);
    mret (eng_set_parts a d g e).

(** ** Callbacks *)

(** The report sent to the controller, if any. *)
Definition onConnections (call : pb_ConnectionReport -> pb_ReportResponse + string)
    (conns : list AConnection) (e : AEngine) : go_error :=
  if gc_IsConnected (eng_grpcClient e) then gc_ReportConnections call conns (eng_grpcClient e)
  else None.

Definition onThreatLogs (call : pb_ThreatReport -> pb_ReportResponse + string)
    (logs : list ThreatLog) (e : AEngine) : go_error :=
  if gc_IsConnected (eng_grpcClient e) then gc_ReportThreats call logs (eng_grpcClient e)
  else None.

(** The fields the literal does not name have their zero values. *)
Definition dpConnToAgent (conn : DPConnection) : AConnection := {|
  ac_AgentID := ""; ac_HostID := ""; ac_ClientWL := ""; ac_ServerWL := "";
  ac_ClientIP := dc_ClientIP conn; ac_ServerIP := dc_ServerIP conn;
  ac_ClientPort := dc_ClientPort conn; ac_ServerPort := dc_ServerPort conn;
  ac_IPProto := dc_IPProto conn; ac_Application := dc_Application conn;
  ac_Bytes := dc_Bytes conn; ac_Sessions := dc_Sessions conn; ac_Violates := 0;
  ac_FirstSeenAt := dc_FirstSeenAt conn; ac_LastSeenAt := dc_LastSeenAt conn;
  ac_ThreatID := dc_ThreatID conn; ac_Severity := dc_Severity conn;
  ac_PolicyAction := dc_PolicyAction conn; ac_PolicyId := dc_PolicyId conn;
  ac_Ingress := dc_Ingress conn; ac_ExternalPeer := dc_ExternalPeer conn; ac_LocalPeer := false;
  ac_Scope := ""; ac_Network := "" |}.

Definition onDPConnection (conn : DPConnection) (e : AEngine) : AEngine :=
  eng_set_parts
    (AddConnection {| cd_EPMAC := dc_EPMAC conn; cd_Conn := dpConnToAgent conn |} (eng_aggregator e))
    (eng_dpClient e) (eng_grpcClient e) e.

Definition severityToString (severity : Z) : string :=
  if severity =? 1 then "Low"
  else if severity =? 2 then "Medium"
  else if severity =? 3 then "High"
  else if severity =? 4 then "Critical"
  else "Info".

Definition onDPThreatLog (now : Z) (threat : DPThreatLog) (e : AEngine) : AEngine :=
  let agentThreat := {|
    tl_ID := ""; tl_ThreatID := dt_ThreatID threat; tl_ThreatName := "";
    tl_Severity := severityToString (dt_Severity threat); tl_ClientWL := ""; tl_ServerWL := "";
    tl_ClientIP := dt_ClientIP threat; tl_ServerIP := dt_ServerIP threat;
    tl_ServerPort := dt_ServerPort threat; tl_IPProto := dt_IPProto threat;
    tl_PktIngress := dt_PktIngress threat; tl_LocalPeer := false; tl_HostID := "";
    tl_HostName := ""; tl_AgentID := ""; tl_AgentName := ""; tl_WorkloadID := "";
    tl_WorkloadName := ""; tl_ReportedAt := now |} in
  eng_set_parts (AddThreatLog (dt_EPMAC threat) agentThreat (eng_aggregator e))
    (eng_dpClient e) (eng_grpcClient e) e.

(** ** Workloads, policies, subnets *)

(** The loop over the interfaces has an empty body. *)
Definition AddWorkload (wl : AWorkload) (e : AEngine) : AEngine :=
  eng_set_data (eng_rules e) (<[aw_ID wl := wl]> (eng_workloads e)) (eng_subnets e)
    (eng_defaultPolicyMode e) e.

Definition RemoveWorkload (id : string) (e : AEngine) : AEngine :=
  match eng_workloads e !! id with
  | Some _ => eng_set_data (eng_rules e) (delete id (eng_workloads e)) (eng_subnets e)
                (eng_defaultPolicyMode e) e
  | None => e
  end.

Definition GetWorkload (id : string) (e : AEngine) : option AWorkload := eng_workloads e !! id.

Definition ListWorkloads (ord : list (string * AWorkload)) : list AWorkload := ord.*2.

Definition UpdatePolicies (write : dp_msg -> go_error) (ord : list (Z * APolicyRule))
    (rules : list APolicyRule) (e : AEngine) : AEngine * option dp_msg :=
  let '(p, msg) := UpdateRules write ord rules (eng_policy e) in
  (eng_set_data (np_rules p) (eng_workloads e) (eng_subnets e) (eng_defaultPolicyMode e) e, msg).

Definition SetDefaultPolicyMode (mode : string) (e : AEngine) : AEngine :=
  eng_set_data (eng_rules e) (eng_workloads e) (eng_subnets e) mode e.

Definition GetDefaultPolicyMode (e : AEngine) : string := eng_defaultPolicyMode e.

Definition IsLocalIP (ip : IP) (e : AEngine) : bool :=
  default false (eng_hostIPs e !! IP_String ip).

(** The loop of [IsInternalIP]; [ord] is the order of its range. *)
Fixpoint any_contains (ord : list (string * Subnet)) (ip : IP) : bool :=
  match ord with
  | [] => false
  | (_, subnet) :: ord' => if IPNet_Contains (sn_Subnet subnet) ip then true else any_contains ord' ip
  end.

Definition IsInternalIP (ord : list (string * Subnet)) (ip : IP) : bool :=
  if IsLoopback ip then true else any_contains ord ip.

Definition UpdateSubnets (write : dp_msg -> go_error) (ord : list (string * Subnet))
    (subnets : gmap string Subnet) (e : AEngine) : AEngine * option dp_msg :=
  let e := eng_set_data (eng_rules e) (eng_workloads e) subnets (eng_defaultPolicyMode e) e in
  (e, (ConfigSubnets write ((fun p => sn_Subnet p.2) <$> ord) (eng_dpClient e)).2).

Record engine_stats := {
  es_workloads : Z; es_policies : Z; es_connections : Z; es_max_connections : Z;
  es_dp_connected : bool; es_default_mode : string;
}.

Definition eng_GetStats (e : AEngine) : engine_stats := {|
  es_workloads := Z.of_nat (size (eng_workloads e));
  es_policies := GetRuleCount (eng_policy e);
  es_connections := GetConnectionCount (eng_aggregator e);
  es_max_connections := GetMaxConnections;
  es_dp_connected := dp_IsConnected (eng_dpClient e);
  es_default_mode := eng_defaultPolicyMode e |}.

(** ** Theorems *)

Lemma any_contains_existsb ord ip :
  any_contains ord ip = existsb (fun p => IPNet_Contains (sn_Subnet p.2) ip) ord.
Proof. induction ord as [|[k s] ord IH]; simpl; [done|]. rewrite IH. by destruct (IPNet_Contains _ _). Qed.

(** An address is internal exactly when it is a loopback address or one
    of the configured subnets contains it, whatever order the subnets are
    tried in. *)
Theorem IsInternalIP_spec e ord ip :
  visits ord (eng_subnets e) ->
  IsInternalIP ord ip = true <->
  IsLoopback ip = true \/
  exists k s, eng_subnets e !! k = Some s /\ IPNet_Contains (sn_Subnet s) ip = true.
Proof.
  intros Hv. unfold IsInternalIP. rewrite any_contains_existsb. destruct (IsLoopback ip); [by split; auto|].
  rewrite existsb_exists. split.
  - intros ([k s] & Hin & Hc). right. exists k, s. split; [|done].
    apply (visits_elem_of _ _ _ _ Hv). by apply list_elem_of_In.
  - intros [|(k & s & Hs & Hc)]; [done|]. exists (k, s). split; [|done].
    apply list_elem_of_In, (visits_elem_of _ _ _ _ Hv), Hs.
Qed.

(** An engine that was started, whether or not it reached the data plane
    and the controller, stops without a panic, disconnected from both; a
    second stop closes its stop channel again and panics. *)
Theorem engine_start_stop config dp_dial grpc_dial register :
  exists e', eng_Stop (eng_Start dp_dial grpc_dial register (NewEngine config)) = Done e' /\
    eng_running e' = false /\ dp_IsConnected (eng_dpClient e') = false /\
    gc_IsConnected (eng_grpcClient e') = false /\ panics (eng_Stop e').
Proof.
  unfold eng_Start, eng_Stop, gc_Connect, dp_Connect, NewEngine, NewDPClient, NewClient, gc_Register.
  simpl. destruct dp_dial, grpc_dial; simpl;
    try (destruct (register _) as [resp|]; simpl; [destruct (negb _); simpl|]);
    unfold gc_Disconnect, dp_Disconnect; simpl; eexists; repeat split; done.
Qed.

Definition ex_subnets : gmap string Subnet := {["s" := {|
  sn_Subnet := {| ipnet_IP := [10; 1; 2; 0]; ipnet_Mask := CIDRMask 24 32 |}; sn_Scope := "" |}]}.

Lemma IsInternalIP_spec_witness :
  let e := eng_set_data ∅ ∅ ex_subnets "" (NewEngine (Build_Config "a" "h" "h" "" "")) in
  IsInternalIP (map_to_list ex_subnets) (IPv4 10 1 2 9) = true.
Proof.
  intros e. apply (IsInternalIP_spec e _ _ (visits_refl _)). right. exists "s". eexists.
  split; [reflexivity|vm_compute; reflexivity].
Defined.
