(* ===== verification/Rest.v ===== *)
(** * The controller's REST API
    (micro-segment/internal/controller/rest/handler.go and router.go)

    A handler is a function of the request, the cache and the policy engine.
    The JSON decoder of a request body is a parameter; a response keeps the
    value it encodes.  The clock readings and the orders of the map ranges of
    one request come with it, as [Ranges]. *)

From Stdlib Require Import ZArith Lia Ascii.
From S2P Require Import Prelude GoLib GoNet CtrlTypes PolicyEngine Graph Cache.
Local Open Scope Z_scope.

(** ** State, requests, responses *)

Record Controller := { ctl_cache : Cache; ctl_policy : Engine }.

Definition NewHandler : Controller := {| ctl_cache := NewCache; ctl_policy := NewEngine |}.

(** The query string is kept as the first value of each parameter. *)
Record Request := {
  rq_Method : string;
  rq_Path : string;
  rq_Query : gmap string string;
  rq_Body : string;
}.

Definition query (req : Request) (key : string) : string := default "" (rq_Query req !! key).

Record rest_stats := {
  st_workloads : Z; st_groups : Z; st_policies : Z; st_hosts : Z; st_agents : Z;
  st_graph_nodes : Z; st_graph_links : Z;
}.

Inductive payload :=
| PNil
| PWorkloads (l : list Workload) | PWorkload (w : Workload)
| PGroups (l : list Group) | PGroup (g : Group)
| PRules (l : list PolicyRule) | PRule (r : PolicyRule)
| PGraph (g : NetworkGraph)
| PHosts (l : list Host) | PAgents (l : list Agent)
| PStats (s : rest_stats).

Inductive http_response :=
| RespJSON (status code : Z) (message : string) (data : payload)
| RespText (status : Z) (body : string)
| RespEmpty (status : Z).

Definition resp_status (r : http_response) : Z :=
  match r with RespJSON s _ _ _ | RespText s _ | RespEmpty s => s end.

Definition writeError (status : Z) (message : string) : http_response :=
  RespJSON status status message PNil.
Definition writeSuccess (data : payload) : http_response := RespJSON 200 0 "" data.

(** The orders a request's ranges take. *)
Record Ranges := {
  rg_rules : gmap Z PolicyRule -> list Z;
  rg_workloads : gmap string WorkloadCache -> list (string * WorkloadCache);
  rg_groups : gmap string GroupCache -> list (string * GroupCache);
  rg_hosts : gmap string HostCache -> list (string * HostCache);
  rg_agents : gmap string AgentCache -> list (string * AgentCache);
  rg_connections : gmap string ConnectionCache -> list (string * ConnectionCache);
}.

Record ranges_wf (rg : Ranges) : Prop := {
  rw_rules m : visits_keys (rg_rules rg m) m;
  rw_workloads m : visits (rg_workloads rg m) m;
  rw_groups m : visits (rg_groups rg m) m;
  rw_hosts m : visits (rg_hosts rg m) m;
  rw_agents m : visits (rg_agents rg m) m;
  rw_connections m : visits (rg_connections rg m) m;
}.

Section rest.
Context (decodeGroup : string -> option Group) (decodeRule : string -> option PolicyRule).

(** ** Handlers *)

Definition ListWorkloads (rg : Ranges) (h : Controller) : http_response :=
  writeSuccess (PWorkloads (Cache.ListWorkloads (rg_workloads rg (workloads (ctl_cache h))))).

Definition GetWorkload (req : Request) (h : Controller) : http_response :=
  let id := query req "id" in
  if bool_decide (id = "") then writeError 400 "missing workload id"
  else match Cache.GetWorkload id (ctl_cache h) with
       | None => writeError 404 "workload not found"
       | Some wl => writeSuccess (PWorkload wl)
       end.

Definition ListGroups (rg : Ranges) (h : Controller) : http_response :=
  writeSuccess (PGroups (Cache.ListGroups (rg_groups rg (groups (ctl_cache h))))).

Definition GetGroup (req : Request) (h : Controller) : http_response :=
  let name := query req "name" in
  if bool_decide (name = "") then writeError 400 "missing group name"
  else match Cache.GetGroup name (ctl_cache h) with
       | None => writeError 404 "group not found"
       | Some group => writeSuccess (PGroup group)
       end.

Definition CreateGroup (req : Request) (h : Controller) : Controller * http_response :=
  match decodeGroup (rq_Body req) with
  | None => (h, writeError 400 "invalid request body")
  | Some group =>
      if bool_decide (g_Name group = "") then (h, writeError 400 "missing group name")
      else ({| ctl_cache := AddGroup group (ctl_cache h); ctl_policy := ctl_policy h |},
            writeSuccess (PGroup group))
  end.

Definition DeleteGroup (req : Request) (h : Controller) : Controller * http_response :=
  let name := query req "name" in
  if bool_decide (name = "") then (h, writeError 400 "missing group name")
  else ({| ctl_cache := Cache.DeleteGroup name (ctl_cache h); ctl_policy := ctl_policy h |},
        writeSuccess PNil).

Definition ListPolicies (h : Controller) : http_response :=
  writeSuccess (PRules (ListRules (ctl_policy h))).

Definition GetPolicy (req : Request) (h : Controller) : http_response :=
  let idStr := query req "id" in
  if bool_decide (idStr = "") then writeError 400 "missing policy id"
  else match ParseUint10 idStr 32 with
       | None => writeError 400 "invalid policy id"
       | Some id =>
           match GetRule (u32 id) (ctl_policy h) with
           | None => writeError 404 "policy not found"
           | Some rule => writeSuccess (PRule rule)
           end
       end.

(** [AddRule] sets the times of the rule it is given, which the response then
    shows. *)
Definition CreatePolicy (rg : Ranges) (t1 t2 : Z) (req : Request) (h : Controller)
  : Controller * http_response :=
  match decodeRule (rq_Body req) with
  | None => (h, writeError 400 "invalid request body")
  | Some rule =>
      let ord := rg_rules rg (<[pr_ID rule := rule]> (rules (ctl_policy h))) in
      match AddRule t1 t2 ord rule (ctl_policy h) with
      | (e, Some err) => ({| ctl_cache := ctl_cache h; ctl_policy := e |}, writeError 400 err)
      | (e, None) => ({| ctl_cache := ctl_cache h; ctl_policy := e |},
                      writeSuccess (PRule (pr_set_UpdatedAt t2 (pr_set_CreatedAt t1 rule))))
      end
  end.

Definition UpdatePolicy (t : Z) (req : Request) (h : Controller) : Controller * http_response :=
  match decodeRule (rq_Body req) with
  | None => (h, writeError 400 "invalid request body")
  | Some rule =>
      match UpdateRule t rule (ctl_policy h) with
      | (e, Some err) => ({| ctl_cache := ctl_cache h; ctl_policy := e |}, writeError 404 err)
      | (e, None) => ({| ctl_cache := ctl_cache h; ctl_policy := e |},
                      writeSuccess (PRule (pr_set_UpdatedAt t rule)))
      end
  end.

Definition DeletePolicy (rg : Ranges) (req : Request) (h : Controller) : Controller * http_response :=
  let idStr := query req "id" in
  if bool_decide (idStr = "") then (h, writeError 400 "missing policy id")
  else match ParseUint10 idStr 32 with
       | None => (h, writeError 400 "invalid policy id")
       | Some id =>
           let ord := rg_rules rg (delete (u32 id) (rules (ctl_policy h))) in
           match DeleteRule ord (u32 id) (ctl_policy h) with
           | (e, Some err) => ({| ctl_cache := ctl_cache h; ctl_policy := e |}, writeError 404 err)
           | (e, None) => ({| ctl_cache := ctl_cache h; ctl_policy := e |}, writeSuccess PNil)
           end
       end.

Definition GetNetworkGraph (rg : Ranges) (h : Controller) : http_response :=
  writeSuccess (PGraph (Cache.GetNetworkGraph (rg_workloads rg (workloads (ctl_cache h)))
    (rg_connections rg (connections (ctl_cache h))))).

Definition ListHosts (rg : Ranges) (h : Controller) : http_response :=
  writeSuccess (PHosts (Cache.ListHosts (rg_hosts rg (hosts (ctl_cache h))))).

Definition ListAgents (rg : Ranges) (h : Controller) : http_response :=
  writeSuccess (PAgents (Cache.ListAgents (rg_agents rg (agents (ctl_cache h))))).

Definition GetStats (rg : Ranges) (h : Controller) : http_response :=
  let c := ctl_cache h in
  writeSuccess (PStats {|
    st_workloads := Z.of_nat (length (Cache.ListWorkloads (rg_workloads rg (workloads c))));
    st_groups := Z.of_nat (length (Cache.ListGroups (rg_groups rg (groups c))));
    st_policies := GetRuleCount (ctl_policy h);
    st_hosts := Z.of_nat (length (Cache.ListHosts (rg_hosts rg (hosts c))));
    st_agents := Z.of_nat (length (Cache.ListAgents (rg_agents rg (agents c))));
    st_graph_nodes := GetGraphNodeCount c;
    st_graph_links := GetGraphLinkCount c |}).

(** ** Routes *)

(** [http.Error] ends the text with a newline. *)
Definition newline : string := String "010"%char "".
Definition quoted (s : string) : string := String "034"%char (s +:+ String "034"%char "").

Definition method_not_allowed : http_response := RespText 405 ("Method not allowed" +:+ newline).

(** A route that only answers GET. *)
Definition get_only (resp : http_response) (req : Request) (h : Controller) : Controller * http_response :=
  if bool_decide (rq_Method req = "GET") then (h, resp) else (h, method_not_allowed).

Definition handleWorkloads rg req h := get_only (ListWorkloads rg h) req h.
Definition handleWorkload req h := get_only (GetWorkload req h) req h.
Definition handleGroups rg req h := get_only (ListGroups rg h) req h.

Definition handleGroup (req : Request) (h : Controller) : Controller * http_response :=
  if bool_decide (rq_Method req = "GET") then (h, GetGroup req h)
  else if bool_decide (rq_Method req = "POST") then CreateGroup req h
  else if bool_decide (rq_Method req = "DELETE") then DeleteGroup req h
  else (h, method_not_allowed).

Definition handlePolicies req h := get_only (ListPolicies h) req h.

Definition handlePolicy (rg : Ranges) (t1 t2 : Z) (req : Request) (h : Controller)
  : Controller * http_response :=
  if bool_decide (rq_Method req = "GET") then (h, GetPolicy req h)
  else if bool_decide (rq_Method req = "POST") then CreatePolicy rg t1 t2 req h
  else if bool_decide (rq_Method req = "PUT") then UpdatePolicy t1 req h
  else if bool_decide (rq_Method req = "DELETE") then DeletePolicy rg req h
  else (h, method_not_allowed).

Definition handleGraph rg req h := get_only (GetNetworkGraph rg h) req h.
Definition handleHosts rg req h := get_only (ListHosts rg h) req h.
Definition handleAgents rg req h := get_only (ListAgents rg h) req h.
Definition handleStats rg req h := get_only (GetStats rg h) req h.
Definition handleHealth : http_response :=
  RespText 200 ("{" +:+ quoted "status" +:+ ":" +:+ quoted "ok" +:+ "}").

(** [http.ServeMux] with the patterns of [setupRoutes], none of which is a
    subtree: a clean path is served by the pattern equal to it. *)
Definition setupRoutes (rg : Ranges) (t1 t2 : Z) (req : Request) (h : Controller)
  : Controller * http_response :=
  let p := rq_Path req in
  if bool_decide (p = "/api/v1/workloads") then handleWorkloads rg req h
  else if bool_decide (p = "/api/v1/workload") then handleWorkload req h
  else if bool_decide (p = "/api/v1/groups") then handleGroups rg req h
  else if bool_decide (p = "/api/v1/group") then handleGroup req h
  else if bool_decide (p = "/api/v1/policies") then handlePolicies req h
  else if bool_decide (p = "/api/v1/policy") then handlePolicy rg t1 t2 req h
  else if bool_decide (p = "/api/v1/graph") then handleGraph rg req h
  else if bool_decide (p = "/api/v1/hosts") then handleHosts rg req h
  else if bool_decide (p = "/api/v1/agents") then handleAgents rg req h
  else if bool_decide (p = "/api/v1/stats") then handleStats rg req h
  else if bool_decide (p = "/health") then (h, handleHealth)
  else (h, RespText 404 ("404 page not found" +:+ newline)).

Definition ServeHTTP (rg : Ranges) (t1 t2 : Z) (req : Request) (h : Controller)
  : Controller * http_response :=
  if bool_decide (rq_Method req = "OPTIONS") then (h, RespEmpty 200)
  else setupRoutes rg t1 t2 req h.

(** ** Theorems *)

Lemma rebuild_controller (h : Controller) :
  {| ctl_cache := ctl_cache h; ctl_policy := ctl_policy h |} = h.
Proof. by destruct h. Qed.

Lemma get_only_state resp req h : (get_only resp req h).1 = h.
Proof. unfold get_only. by case_bool_decide. Qed.

Lemma handleGroup_error req h :
  400 <= resp_status (handleGroup req h).2 -> (handleGroup req h).1 = h.
Proof.
  unfold handleGroup, CreateGroup, DeleteGroup. case_bool_decide; [done|].
  case_bool_decide.
  { destruct (decodeGroup (rq_Body req)); [|done]. case_bool_decide; [done|]. simpl. lia. }
  case_bool_decide; [|done]. case_bool_decide; [done|]. simpl. lia.
Qed.

Lemma handlePolicy_error rg t1 t2 req h :
  400 <= resp_status (handlePolicy rg t1 t2 req h).2 -> (handlePolicy rg t1 t2 req h).1 = h.
Proof.
  unfold handlePolicy, CreatePolicy, UpdatePolicy, DeletePolicy, AddRule, UpdateRule, DeleteRule.
  case_bool_decide; [done|]. case_bool_decide.
  { destruct (decodeRule (rq_Body req)) as [rule|]; [|done].
    destruct (pr_ID rule =? 0); simpl; [by rewrite rebuild_controller|lia]. }
  case_bool_decide.
  { destruct (decodeRule (rq_Body req)) as [rule|]; [|done].
    destruct (rules (ctl_policy h) !! pr_ID rule); simpl; [lia|by rewrite rebuild_controller]. }
  case_bool_decide; [|done]. case_bool_decide; [done|].
  destruct (ParseUint10 (query req "id") 32) as [id|]; [|done].
  destruct (rules (ctl_policy h) !! u32 id); simpl; [lia|by rewrite rebuild_controller].
Qed.

Lemma setupRoutes_state rg t1 t2 req h :
  (setupRoutes rg t1 t2 req h).1 = h \/
  setupRoutes rg t1 t2 req h = handleGroup req h \/
  setupRoutes rg t1 t2 req h = handlePolicy rg t1 t2 req h.
Proof.
  unfold setupRoutes, handleWorkloads, handleWorkload, handleGroups, handlePolicies, handleGraph,
    handleHosts, handleAgents, handleStats.
  repeat (case_bool_decide; [rewrite ?get_only_state; auto|]). auto.
Qed.

(** A request answered with an error status, whatever its method, path
    and body, leaves the cache and the policy engine as they were. *)
Theorem ServeHTTP_error_unchanged rg t1 t2 req h :
  400 <= resp_status (ServeHTTP rg t1 t2 req h).2 -> (ServeHTTP rg t1 t2 req h).1 = h.
Proof.
  unfold ServeHTTP. case_bool_decide; [done|].
  destruct (setupRoutes_state rg t1 t2 req h) as [Hs|[Hs|Hs]]; [done|rewrite Hs..].
  - apply handleGroup_error.
  - apply handlePolicy_error.
Qed.

(** Only POST, PUT and DELETE change the state of the controller. *)
Theorem ServeHTTP_safe_methods rg t1 t2 req h :
  rq_Method req ∉ ["POST"; "PUT"; "DELETE"] -> (ServeHTTP rg t1 t2 req h).1 = h.
Proof.
  intros Hm. unfold ServeHTTP. case_bool_decide; [done|].
  destruct (setupRoutes_state rg t1 t2 req h) as [Hs|[Hs|Hs]]; [done|rewrite Hs..].
  - unfold handleGroup. repeat (case_bool_decide; [set_solver|]). done.
  - unfold handlePolicy. repeat (case_bool_decide; [set_solver|]). done.
Qed.

Definition policy_request (method : string) (id : Z) (body : string) : Request := {|
  rq_Method := method; rq_Path := "/api/v1/policy"; rq_Query := {["id" := fmt_int id]};
  rq_Body := body |}.

Lemma fmt_int_not_empty id : in_width 32 id -> fmt_int id <> "".
Proof.
  intros Hid He. pose proof (ParseUint10_fmt_int 32 id Hid) as Hp. by rewrite He in Hp.
Qed.

Lemma query_policy_request m id b : query (policy_request m id b) "id" = fmt_int id.
Proof. unfold query, policy_request. cbn [rq_Query]. by rewrite lookup_singleton_eq. Qed.

Lemma GetPolicy_request id body h :
  in_width 32 id ->
  GetPolicy (policy_request "GET" id body) h =
  match GetRule id (ctl_policy h) with
  | None => writeError 404 "policy not found"
  | Some rule => writeSuccess (PRule rule)
  end.
Proof.
  intros Hid. unfold GetPolicy. rewrite query_policy_request.
  rewrite bool_decide_eq_false_2 by by apply fmt_int_not_empty.
  rewrite ParseUint10_fmt_int by done. by rewrite wrap_small.
Qed.

(** C38: a policy that is posted can be read back under its decimal id, with
    the times of the request; once it is deleted the same request is answered
    with 404. *)
Theorem policy_create_get_delete rg t1 t2 body rule h :
  decodeRule body = Some rule -> pr_ID rule <> 0 -> in_width 32 (pr_ID rule) ->
  let id := pr_ID rule in
  let created := pr_set_UpdatedAt t2 (pr_set_CreatedAt t1 rule) in
  let h1 := (ServeHTTP rg t1 t2 (policy_request "POST" id body) h).1 in
  let h2 := (ServeHTTP rg t1 t2 (policy_request "DELETE" id "") h1).1 in
  (ServeHTTP rg t1 t2 (policy_request "POST" id body) h).2 = writeSuccess (PRule created) /\
  (ServeHTTP rg t1 t2 (policy_request "GET" id "") h1).2 = writeSuccess (PRule created) /\
  (ServeHTTP rg t1 t2 (policy_request "DELETE" id "") h1).2 = writeSuccess PNil /\
  (ServeHTTP rg t1 t2 (policy_request "GET" id "") h2).2 = writeError 404 "policy not found".
Proof.
  intros Hd Hnz Hw id created h1 h2.
  assert (Hget : forall h, (ServeHTTP rg t1 t2 (policy_request "GET" id "") h).2 =
    match GetRule id (ctl_policy h) with
    | None => writeError 404 "policy not found"
    | Some rule => writeSuccess (PRule rule)
    end) by (intros h'; by apply GetPolicy_request).
  assert (Hpost : ServeHTTP rg t1 t2 (policy_request "POST" id body) h =
    ({| ctl_cache := ctl_cache h;
        ctl_policy := updateRuleOrder (rg_rules rg (<[id := rule]> (rules (ctl_policy h))))
          (set_rules (<[id := created]> (rules (ctl_policy h))) (ctl_policy h)) |},
     writeSuccess (PRule created))).
  { transitivity (CreatePolicy rg t1 t2 (policy_request "POST" id body) h); [reflexivity|].
    unfold CreatePolicy, AddRule. cbn [rq_Body policy_request]. rewrite Hd.
    destruct (Z.eqb_spec (pr_ID rule) 0); [done|]. reflexivity. }
  assert (Hrule : rules (ctl_policy h1) !! id = Some created).
  { unfold h1. rewrite Hpost. simpl. apply lookup_insert_eq. }
  assert (Hdel : ServeHTTP rg t1 t2 (policy_request "DELETE" id "") h1 =
    ({| ctl_cache := ctl_cache h1;
        ctl_policy := updateRuleOrder (rg_rules rg (delete id (rules (ctl_policy h1))))
          (set_rules (delete id (rules (ctl_policy h1))) (ctl_policy h1)) |}, writeSuccess PNil)).
  { transitivity (DeletePolicy rg (policy_request "DELETE" id "") h1); [reflexivity|].
    unfold DeletePolicy, DeleteRule. rewrite query_policy_request, bool_decide_eq_false_2 by by apply fmt_int_not_empty.
    rewrite ParseUint10_fmt_int, wrap_small by done. rewrite Hrule. reflexivity. }
  split; [by rewrite Hpost|]. split; [|split; [by rewrite Hdel|]].
  - rewrite Hget. unfold GetRule. by rewrite Hrule.
  - rewrite Hget. unfold GetRule, h2. rewrite Hdel. simpl. by rewrite lookup_delete_eq.
Qed.
End rest.

(** ** Witnesses *)

Definition map_ranges : Ranges := {|
  rg_rules := fun m => (map_to_list m).*1; rg_workloads := map_to_list; rg_groups := map_to_list;
  rg_hosts := map_to_list; rg_agents := map_to_list; rg_connections := map_to_list |}.

Lemma map_ranges_wf : ranges_wf map_ranges.
Proof. split; intros m; unfold visits, visits_keys; reflexivity. Qed.

Definition ex_decodeGroup : string -> option Group := fun _ => None.
Definition ex_decodeRule : string -> option PolicyRule := fun _ => Some (ex_rule 12 5 "deny").

Definition ex_request (method path : string) : Request := {|
  rq_Method := method; rq_Path := path; rq_Query := ∅; rq_Body := "" |}.

Lemma ServeHTTP_error_unchanged_witness :
  (ServeHTTP ex_decodeGroup ex_decodeRule map_ranges 0 0 (ex_request "POST" "/api/v1/group") NewHandler).1
  = NewHandler.
Proof. apply (ServeHTTP_error_unchanged ex_decodeGroup ex_decodeRule). vm_compute. discriminate. Defined.

Lemma ServeHTTP_safe_methods_witness :
  (ServeHTTP ex_decodeGroup ex_decodeRule map_ranges 0 0 (ex_request "PATCH" "/api/v1/policy") NewHandler).1
  = NewHandler.
Proof. apply (ServeHTTP_safe_methods ex_decodeGroup ex_decodeRule). vm_decide. Defined.

Lemma policy_create_get_delete_witness :
  (ServeHTTP ex_decodeGroup ex_decodeRule map_ranges 1 2 (policy_request "POST" 12 "") NewHandler).2 =
  writeSuccess (PRule (pr_set_UpdatedAt 2 (pr_set_CreatedAt 1 (ex_rule 12 5 "deny")))).
Proof.
  destruct (policy_create_get_delete ex_decodeGroup ex_decodeRule map_ranges 1 2 "" (ex_rule 12 5 "deny")
    NewHandler) as (H & _); [reflexivity|discriminate|split; [discriminate|reflexivity]|exact H].
Defined.
