(* ===== verification/Locks.v ===== *)
(** * The locks of the controller

    [sync.RWMutex] as the runtime implements it, and the lock operations of
    each method of the controller in the order the method makes them (a
    [defer]red unlock comes last).  Ordered programs cannot deadlock; the two
    methods that are not ordered do. *)

From Stdlib Require Import ZArith Lia.
From S2P Require Import Prelude.

(** ** Mutexes and threads

    A mutex is a number.  [OJoin ts] waits until the threads [ts] have
    finished, as [GracefulStop] waits for the handlers in flight. *)
Inductive lock_op :=
| OLock (m : nat) | OUnlock (m : nat) | ORLock (m : nat) | ORUnlock (m : nat)
| OJoin (ts : list nat).

(** The locks a thread holds ([true] for writing), whether it has announced
    the [Lock] at the head of its program, and the rest of its program.  An
    announced writer keeps new readers and writers out and waits for the
    readers that are in. *)
Record thread := { th_held : list (nat * bool); th_announced : bool; th_prog : list lock_op }.

Definition spawn (prog : list lock_op) : thread :=
  {| th_held := []; th_announced := false; th_prog := prog |}.

(** A writer is in, or has announced itself. *)
Definition writer_at (m : nat) (t : thread) : Prop :=
  (m, true) ∈ th_held t \/ (th_announced t = true /\ exists p, th_prog t = OLock m :: p).
Definition reader_at (m : nat) (t : thread) : Prop := (m, false) ∈ th_held t.

Definition no_writer (m : nat) (ts : list thread) : Prop := Forall (fun t => ~ writer_at m t) ts.
Definition no_reader (m : nat) (ts : list thread) : Prop := Forall (fun t => ~ reader_at m t) ts.

Fixpoint remove_one (x : nat * bool) (l : list (nat * bool)) : list (nat * bool) :=
  match l with [] => [] | y :: l' => if decide (x = y) then l' else y :: remove_one x l' end.

(** What thread [t] of the system [ts] can do. *)
Inductive thread_step (ts : list thread) : thread -> thread -> Prop :=
| ts_announce held m p :
    no_writer m ts ->
    thread_step ts {| th_held := held; th_announced := false; th_prog := OLock m :: p |}
                   {| th_held := held; th_announced := true; th_prog := OLock m :: p |}
| ts_lock held m p :
    no_reader m ts ->
    thread_step ts {| th_held := held; th_announced := true; th_prog := OLock m :: p |}
                   {| th_held := (m, true) :: held; th_announced := false; th_prog := p |}
| ts_rlock held m p :
    no_writer m ts ->
    thread_step ts {| th_held := held; th_announced := false; th_prog := ORLock m :: p |}
                   {| th_held := (m, false) :: held; th_announced := false; th_prog := p |}
| ts_unlock held m p :
    (m, true) ∈ held ->
    thread_step ts {| th_held := held; th_announced := false; th_prog := OUnlock m :: p |}
                   {| th_held := remove_one (m, true) held; th_announced := false; th_prog := p |}
| ts_runlock held m p :
    (m, false) ∈ held ->
    thread_step ts {| th_held := held; th_announced := false; th_prog := ORUnlock m :: p |}
                   {| th_held := remove_one (m, false) held; th_announced := false; th_prog := p |}
| ts_join held js p :
    (forall j, j ∈ js -> exists t, ts !! j = Some t /\ th_prog t = []) ->
    thread_step ts {| th_held := held; th_announced := false; th_prog := OJoin js :: p |}
                   {| th_held := held; th_announced := false; th_prog := p |}.

Inductive lock_step : list thread -> list thread -> Prop :=
| lock_step_at ts i t t' :
    ts !! i = Some t -> thread_step ts t t' -> lock_step ts (<[i := t']> ts).

Definition finished (ts : list thread) : Prop := Forall (fun t => th_prog t = []) ts.

(** Not finished, and no thread can move. *)
Definition deadlocked (ts : list thread) : Prop :=
  ~ finished ts /\ forall ts', ~ lock_step ts ts'.

(** ** Ordered programs *)

(** A program that, holding [held], takes locks only above all it holds,
    gives back only what it holds, and ends with nothing held. *)
Fixpoint ordered (held : list (nat * bool)) (prog : list lock_op) : bool :=
  match prog with
  | [] => bool_decide (held = [])
  | OLock m :: p => forallb (fun x => (x.1 <? m)%nat) held && ordered ((m, true) :: held) p
  | ORLock m :: p => forallb (fun x => (x.1 <? m)%nat) held && ordered ((m, false) :: held) p
  | OUnlock m :: p => bool_decide ((m, true) ∈ held) && ordered (remove_one (m, true) held) p
  | ORUnlock m :: p => bool_decide ((m, false) ∈ held) && ordered (remove_one (m, false) held) p
  | OJoin _ :: _ => false
  end.

Definition th_ordered (t : thread) : Prop :=
  ordered (th_held t) (th_prog t) = true /\
  (th_announced t = true -> exists m p, th_prog t = OLock m :: p).

Lemma thread_step_ordered ts t t' : thread_step ts t t' -> th_ordered t -> th_ordered t'.
Proof.
  unfold th_ordered. intros Hs [Ho Ha].
  destruct Hs; simpl in *; [by split; [|intros _; eauto]|..|done];
    (apply andb_true_iff in Ho as [_ Ho]; by split).
Qed.

Lemma lock_step_ordered ts ts' : lock_step ts ts' -> Forall th_ordered ts -> Forall th_ordered ts'.
Proof.
  intros [ts0 i t t' Hi Hs] Hall. apply Forall_insert; [done|].
  eapply thread_step_ordered; [exact Hs|]. by eapply Forall_lookup_1.
Qed.

(** The lock the head of a program asks for. *)
Definition wants (t : thread) : option nat :=
  match th_prog t with OLock m :: _ | ORLock m :: _ => Some m | _ => None end.

Lemma th_ordered_holds t x :
  th_ordered t -> x ∈ th_held t -> th_prog t <> [] /\ forall m, wants t = Some m -> (x.1 < m)%nat.
Proof.
  intros [Ho _] Hx. unfold wants. destruct (th_prog t) as [|op p] eqn:Hp; simpl in Ho.
  - apply bool_decide_eq_true in Ho. rewrite Ho in Hx. by apply not_elem_of_nil in Hx.
  - split; [done|].
    assert (Hlt : forall m, forallb (fun x => (x.1 <? m)%nat) (th_held t) = true -> (x.1 < m)%nat).
    { intros m Hm. rewrite forallb_forall in Hm. apply Nat.ltb_lt, Hm. by apply list_elem_of_In. }
    destruct op; intros m' [=]; subst; apply andb_true_iff in Ho as [Ho _]; auto.
Qed.

Lemma exists_max {A} (f : A -> nat) (l : list A) :
  l <> [] -> exists x, x ∈ l /\ forall y, y ∈ l -> (f y <= f x)%nat.
Proof.
  induction l as [|a l IH]; [done|]. intros _. destruct l as [|b l].
  - exists a. split; [set_solver|]. intros y Hy. assert (y = a) as -> by set_solver. done.
  - destruct IH as (x & Hx & Hmax); [done|]. destruct (decide (f x <= f a)%nat).
    + exists a. split; [set_solver|]. intros y [->|Hy]%elem_of_cons; [done|]. specialize (Hmax y Hy). lia.
    + exists x. split; [set_solver|]. intros y [->|Hy]%elem_of_cons; [lia|auto].
Qed.

#[local] Instance reader_at_dec m t : Decision (reader_at m t).
Proof. unfold reader_at. apply _. Defined.

#[local] Instance writer_at_dec m t : Decision (writer_at m t).
Proof.
  unfold writer_at. destruct (decide ((m, true) ∈ th_held t)); [by left; left|].
  destruct (th_announced t); [|right; naive_solver].
  destruct (th_prog t) as [|[m'|m'|m'|m'|js] p]; try (right; naive_solver).
  destruct (decide (m = m')); [subst; left; eauto|right; naive_solver].
Defined.

(** [t] waits for lock [m]: as an announced writer for a reader, otherwise
    for a writer. *)
Definition blocked (ts : list thread) (t : thread) : Prop :=
  exists m, wants t = Some m /\
    exists t', t' ∈ ts /\ if th_announced t then reader_at m t' else writer_at m t'.

Lemma thread_cases ts t :
  th_ordered t -> (exists t', thread_step ts t t') \/ th_prog t = [] \/ blocked ts t.
Proof.
  intros [Ho Ha]. destruct t as [held ann prog]. unfold blocked, wants. simpl in *.
  destruct prog as [|op p]; [by right; left|]. destruct ann.
  - destruct (Ha eq_refl) as (m & p' & [= -> ->]).
    destruct (decide (Exists (reader_at m) ts)) as [He|He].
    + right. right. exists m. split; [done|]. apply Exists_exists in He. naive_solver.
    + left. eexists. apply ts_lock. by apply Forall_Exists_neg.
  - destruct op as [m|m|m|m|js]; simpl in Ho; try apply andb_true_iff in Ho as [Ho _].
    + destruct (decide (Exists (writer_at m) ts)) as [He|He].
      * right. right. exists m. split; [done|]. apply Exists_exists in He. naive_solver.
      * left. eexists. apply ts_announce. by apply Forall_Exists_neg.
    + left. eexists. apply ts_unlock. by apply bool_decide_eq_true in Ho.
    + destruct (decide (Exists (writer_at m) ts)) as [He|He].
      * right. right. exists m. split; [done|]. apply Exists_exists in He. naive_solver.
      * left. eexists. apply ts_rlock. by apply Forall_Exists_neg.
    + left. eexists. apply ts_runlock. by apply bool_decide_eq_true in Ho.
    + done.
Qed.

(** A thread that waits for the greatest lock any thread waits for has
    nobody to wait for. *)
Lemma blocked_not_max ts t m :
  Forall th_ordered ts -> (forall t, t ∈ ts -> th_prog t = [] \/ blocked ts t) ->
  t ∈ ts -> wants t = Some m -> (forall t' m', t' ∈ ts -> wants t' = Some m' -> (m' <= m)%nat) -> False.
Proof.
  intros Hall Hcase Ht Hw Hmax. pose proof (proj1 (Forall_forall _ _) Hall) as Hord.
  assert (Hheld : forall t' b, t' ∈ ts -> (m, b) ∈ th_held t' -> False).
  { intros t' b Ht' Hh. destruct (th_ordered_holds t' (m, b) (Hord _ Ht') Hh) as [Hp Hlt].
    destruct (Hcase t' Ht') as [|(m' & Hw' & _)]; [done|]. specialize (Hlt _ Hw').
    specialize (Hmax _ _ Ht' Hw'). simpl in Hlt. lia. }
  destruct (Hcase t Ht) as [Hp|(m0 & Hw0 & t' & Ht' & Hb)].
  { unfold wants in Hw. by rewrite Hp in Hw. }
  rewrite Hw in Hw0. injection Hw0 as <-. destruct (th_announced t); [by eapply Hheld|].
  destruct Hb as [Hb|[Ha [p Hp]]]; [by eapply Hheld|].
  destruct (Hcase t' Ht') as [Hp'|(m1 & Hw1 & t'' & Ht'' & Hb')]; [congruence|].
  unfold wants in Hw1. rewrite Hp in Hw1. injection Hw1 as <-. rewrite Ha in Hb'. by eapply Hheld.
Qed.

Lemma Forall_or_Exists {A} (P Q : A -> Prop) l :
  Forall (fun x => P x \/ Q x) l -> (exists x, x ∈ l /\ P x) \/ Forall Q l.
Proof.
  induction 1 as [|x l [Hx|Hx] _ IH]; [by right|left; exists x; set_solver|].
  destruct IH as [(y & Hy & Hp)|IH]; [left; exists y; set_solver|right; by constructor].
Qed.

(** In a system of ordered threads that is not finished some thread moves. *)
Lemma ordered_progress ts :
  Forall th_ordered ts -> ~ finished ts -> exists ts', lock_step ts ts'.
Proof.
  intros Hall Hnf.
  assert (Hc : Forall (fun t => (exists t', thread_step ts t t') \/ (th_prog t = [] \/ blocked ts t)) ts).
  { eapply Forall_impl; [exact Hall|]. intros t Ht; simpl. by apply thread_cases. }
  destruct (Forall_or_Exists _ _ _ Hc) as [(t & Ht & t' & Hs)|Hb].
  { apply list_elem_of_lookup_1 in Ht as [i Hi]. eexists. by eapply lock_step_at. }
  exfalso. pose proof (proj1 (Forall_forall _ _) Hb) as Hcase.
  set (live := filter (fun t => th_prog t <> []) ts).
  assert (Hlive : live <> []).
  { intros Hl. apply Hnf. unfold finished. apply Forall_forall. intros t Ht.
    destruct (decide (th_prog t = [])) as [|Hp]; [done|].
    assert (Hin : t ∈ live) by (by apply list_elem_of_filter). rewrite Hl in Hin.
    by apply not_elem_of_nil in Hin. }
  destruct (exists_max (fun t => default 0%nat (wants t)) live Hlive) as (t & Ht & Hmax).
  apply list_elem_of_filter in Ht as [Hp Ht].
  destruct (Hcase t Ht) as [|(m & Hw & _)]; [done|].
  apply (blocked_not_max ts t m Hall Hcase Ht Hw). intros t' m' Ht' Hw'.
  assert (Hl' : t' ∈ live).
  { apply list_elem_of_filter. split; [|done]. intros Hn. unfold wants in Hw'. by rewrite Hn in Hw'. }
  specialize (Hmax t' Hl'). simpl in Hmax. rewrite Hw, Hw' in Hmax. done.
Qed.

Lemma ordered_never_deadlocked progs ts :
  Forall (fun p => ordered [] p = true) progs -> rtc lock_step (spawn <$> progs) ts -> ~ deadlocked ts.
Proof.
  intros Hp Hr [Hnf Hstuck].
  assert (Hall : Forall th_ordered ts).
  { eapply (rtc_invariant lock_step (Forall th_ordered)); [apply lock_step_ordered| |exact Hr].
    apply Forall_fmap. eapply Forall_impl; [exact Hp|]. intros p Ho. by split. }
  destruct (ordered_progress ts Hall Hnf) as [ts' Hs]. by eapply Hstuck.
Qed.

(** ** Every run of ordered threads finishes *)

Definition th_measure (t : thread) : nat :=
  2 * length (th_prog t) - (if th_announced t then 1 else 0).
Definition measure (ts : list thread) : nat := sum_list (th_measure <$> ts).

Lemma thread_step_measure ts t t' : thread_step ts t t' -> (th_measure t' < th_measure t)%nat.
Proof. destruct 1; unfold th_measure; simpl; lia. Qed.

Lemma sum_list_insert (l : list nat) i x y :
  l !! i = Some x -> (y < x)%nat -> (sum_list (<[i := y]> l) < sum_list l)%nat.
Proof.
  revert i. induction l as [|a l IH]; intros [|i] Hi Hy; simplify_eq/=; [lia|].
  specialize (IH _ Hi Hy). lia.
Qed.

Lemma lock_step_measure ts ts' : lock_step ts ts' -> (measure ts' < measure ts)%nat.
Proof.
  intros [ts0 i t t' Hi Hs]. unfold measure. rewrite list_fmap_insert.
  eapply sum_list_insert; [|by eapply thread_step_measure]. by rewrite list_lookup_fmap, Hi.
Qed.

Lemma ordered_finishes ts : Forall th_ordered ts -> exists ts', rtc lock_step ts ts' /\ finished ts'.
Proof.
  remember (measure ts) as n eqn:Hn. revert ts Hn.
  induction (lt_wf n) as [n _ IH]. intros ts -> Hall.
  destruct (decide (finished ts)) as [Hf|Hf]; [by exists ts|].
  destruct (ordered_progress ts Hall Hf) as [ts1 Hs].
  destruct (IH (measure ts1)) with (ts := ts1) as (ts' & Hr & Hf');
    [by apply lock_step_measure|done|by eapply lock_step_ordered|].
  exists ts'. split; [by eapply rtc_l|done].
Qed.

(** ** The controller's methods *)

Definition M_cache : nat := 0.
Definition M_graph : nat := 1.
Definition M_policy : nat := 2.
Definition M_server : nat := 3.

(** One constructor per method that takes a lock. *)
Inductive graph_method :=
| GReset | GAddLink | GAttr | GDeleteLink | GDeleteNode | GNode | GAll | GIns | GOuts
| GGetNodeCount | GGetLinkCount.

Definition writes (m : nat) : list lock_op := [OLock m; OUnlock m].
Definition reads (m : nat) : list lock_op := [ORLock m; ORUnlock m].

Definition locks_graph (m : graph_method) : list lock_op :=
  match m with
  | GReset | GAddLink | GDeleteLink | GDeleteNode => writes M_graph
  | GAttr | GNode | GAll | GIns | GOuts | GGetNodeCount | GGetLinkCount => reads M_graph
  end.

Inductive cache_method :=
| CAddWorkload | CGetWorkload | CDeleteWorkload | CListWorkloads
| CAddGroup | CGetGroup | CDeleteGroup | CListGroups | CAddGroupMember | CRemoveGroupMember
| CAddPolicy | CGetPolicy | CDeletePolicy | CListPolicies
| CUpdateConnection | CGetNetworkGraph | CGetGraphNodeCount | CGetGraphLinkCount
| CAddHost | CGetHost | CListHosts | CAddAgent | CGetAgent | CListAgents | CUpdateAgentStatus
| CUpdateWorkloadFromProto | CUpdateConnectionFromProto.

(** The graph's methods are called with the cache's lock held, but for the
    two counts, which take the graph's lock only. *)
Definition locks_cache (m : cache_method) : list lock_op :=
  match m with
  | CDeleteWorkload => [OLock M_cache] ++ locks_graph GDeleteNode ++ [OUnlock M_cache]
  | CUpdateConnection | CUpdateConnectionFromProto =>
      [OLock M_cache] ++ locks_graph GAddLink ++ [OUnlock M_cache]
  | CGetGraphNodeCount => locks_graph GGetNodeCount
  | CGetGraphLinkCount => locks_graph GGetLinkCount
  | CAddWorkload | CAddGroup | CDeleteGroup | CAddGroupMember | CRemoveGroupMember | CAddPolicy
  | CDeletePolicy | CAddHost | CAddAgent | CUpdateAgentStatus | CUpdateWorkloadFromProto => writes M_cache
  | CGetWorkload | CListWorkloads | CGetGroup | CListGroups | CGetPolicy | CListPolicies
  | CGetNetworkGraph | CGetHost | CListHosts | CGetAgent | CListAgents => reads M_cache
  end.

(** [MatchPolicy] here is the call a rule answers. *)
Inductive policy_method :=
| PAddRule | PUpdateRule | PDeleteRule | PGetRule | PListRules | PSetGroupMode | PGetGroupMode
| PMatchPolicy | PGetRuleCount | PGetEnabledRuleCount.

Definition locks_policy (m : policy_method) : list lock_op :=
  match m with
  | PAddRule | PUpdateRule | PDeleteRule | PSetGroupMode => writes M_policy
  | PGetRule | PListRules | PGetGroupMode | PMatchPolicy | PGetRuleCount | PGetEnabledRuleCount =>
      reads M_policy
  end.

(** [MatchPolicy] when no rule matches: [getDefaultAction] calls
    [GetGroupMode] while the read lock is held. *)
Definition locks_MatchPolicy_default : list lock_op :=
  [ORLock M_policy] ++ locks_policy PGetGroupMode ++ [ORUnlock M_policy].

(** The methods of the gRPC server but [Stop]; the reports and [GetPolicies]
    take no lock of the server's own. *)
Inductive server_method :=
| SStart | SIsRunning | ScheckAgentTimeout | SRegister | SHeartbeat | SGetAgentCount | SGetOnlineAgentCount.

Definition locks_server (m : server_method) : list lock_op :=
  match m with
  | SStart | ScheckAgentTimeout | SRegister | SHeartbeat => writes M_server
  | SIsRunning | SGetAgentCount | SGetOnlineAgentCount => reads M_server
  end.

(** [Stop] of the gRPC server waits in [GracefulStop] for the handlers in
    flight, [ts], with the server's lock held. *)
Definition locks_server_Stop (ts : list nat) : list lock_op :=
  [OLock M_server; OJoin ts; OUnlock M_server].

Inductive ctl_method :=
| OfCache (m : cache_method) | OfGraph (m : graph_method) | OfPolicy (m : policy_method)
| OfServer (m : server_method).

Definition locks_of (m : ctl_method) : list lock_op :=
  match m with
  | OfCache m => locks_cache m
  | OfGraph m => locks_graph m
  | OfPolicy m => locks_policy m
  | OfServer m => locks_server m
  end.

(** A thread that serves requests makes calls one after the other. *)
Definition serve (calls : list ctl_method) : list lock_op := calls ≫= locks_of.

Lemma ordered_app held p q : ordered held p = true -> ordered [] q = true -> ordered held (p ++ q) = true.
Proof.
  revert held. induction p as [|op p IH]; intros held Hp Hq; simpl in *.
  - apply bool_decide_eq_true in Hp. by subst.
  - destruct op; try done; apply andb_true_iff in Hp as [-> Hp]; simpl; auto.
Qed.

Lemma ordered_serve calls : ordered [] (serve calls) = true.
Proof.
  unfold serve. induction calls as [|m calls IH]; [done|]. rewrite bind_cons.
  apply ordered_app; [by destruct m as [[]|[]|[]|[]]|done].
Qed.

Lemma serve_ordered (threads : list (list ctl_method)) :
  Forall (fun p => ordered [] p = true) (serve <$> threads).
Proof. apply Forall_fmap, Forall_forall. intros calls _. apply ordered_serve. Qed.

(** C36: however many threads call the methods of the cache, of the graph, of
    the policy engine (with a matching rule) and of the server (but [Stop]),
    in whatever sequences, no interleaving deadlocks: every reachable state
    can still run to the end of all calls. *)
Theorem controller_calls_finish (threads : list (list ctl_method)) ts :
  rtc lock_step (spawn <$> (serve <$> threads)) ts ->
  ~ deadlocked ts /\ exists ts', rtc lock_step ts ts' /\ finished ts'.
Proof.
  intros Hr. pose proof (serve_ordered threads) as Hp.
  split; [by eapply ordered_never_deadlocked|]. apply ordered_finishes.
  eapply (rtc_invariant lock_step (Forall th_ordered)); [apply lock_step_ordered| |exact Hr].
  apply Forall_fmap. eapply Forall_impl; [exact Hp|]. intros p Ho. by split.
Qed.

(** ** The two methods that can hang *)

Ltac lock_run i :=
  eapply rtc_l; [eapply (lock_step_at _ i); [reflexivity|]|].

Definition match_deadlock : list thread :=
  [ {| th_held := [(M_policy, false)]; th_announced := false;
       th_prog := [ORLock M_policy; ORUnlock M_policy; ORUnlock M_policy] |};
    {| th_held := []; th_announced := true; th_prog := [OLock M_policy; OUnlock M_policy] |} ].

Definition stop_deadlock : list thread :=
  [ {| th_held := [(M_server, true)]; th_announced := false;
       th_prog := [OJoin [1%nat]; OUnlock M_server] |};
    {| th_held := []; th_announced := false; th_prog := [OLock M_server; OUnlock M_server] |} ].

Lemma deadlocked_2 t1 t2 :
  th_prog t1 <> [] -> (forall t', ~ thread_step [t1; t2] t1 t') ->
  (forall t', ~ thread_step [t1; t2] t2 t') -> deadlocked [t1; t2].
Proof.
  intros Hp H1 H2. split.
  - intros Hf. inversion Hf. done.
  - intros ts' Hs. inversion Hs as [ts i t t' Hi Ht]; subst.
    destruct i as [|[|i]]; simplify_eq/=; naive_solver.
Qed.

(** A [MatchPolicy] call that falls through to the default action takes
    the engine's read lock twice: when a writer asks for the lock in between,
    both threads wait for each other for ever. *)
Theorem MatchPolicy_default_deadlock :
  exists ts, rtc lock_step (spawn <$> [locks_MatchPolicy_default; locks_policy PAddRule]) ts /\ deadlocked ts.
Proof.
  exists match_deadlock. split.
  - lock_run 0%nat; [apply ts_rlock; vm_decide|].
    lock_run 1%nat; [apply ts_announce; vm_decide|]. apply rtc_refl.
  - apply deadlocked_2; [done| |].
    + intros t' Hs. inversion Hs as [| |??? Hn| | |]; subst.
      inversion Hn as [|?? _ Hn2]; subst. inversion Hn2 as [|?? H _]; subst. apply H. right. simpl. eauto.
    + intros t' Hs. inversion Hs as [|??? Hn| | | |]; subst.
      inversion Hn as [|?? H _]; subst. apply H. unfold reader_at. simpl. set_solver.
Qed.

(** Stopping the server while a heartbeat is being handled hangs: [Stop]
    waits for the handler with the lock the handler asks for. *)
Theorem Stop_deadlock :
  exists ts, rtc lock_step (spawn <$> [locks_server_Stop [1%nat]; locks_server SHeartbeat]) ts /\ deadlocked ts.
Proof.
  exists stop_deadlock. split.
  - lock_run 0%nat; [apply ts_announce; vm_decide|].
    lock_run 0%nat; [apply ts_lock; vm_decide|]. apply rtc_refl.
  - apply deadlocked_2; [done| |].
    + intros t' Hs. inversion Hs as [| | | | |??? Hj]; subst.
      destruct (Hj 1%nat) as (t & Ht & Hp); [set_solver|]. by simplify_eq/=.
    + intros t' Hs. inversion Hs as [??? Hn| | | | |]; subst.
      inversion Hn as [|?? H _]; subst. apply H. left. simpl. set_solver.
Qed.

(** ** Calling a method again with its lock held *)

(** A method that takes [m] and then calls another one [n] times. *)
Definition locks_around (m : nat) (inner : list lock_op) (n : nat) : list lock_op :=
  [OLock m] ++ mjoin (replicate n inner) ++ [OUnlock m].

(** A thread that asks again for the lock it holds does not move. *)
Lemma relock_deadlocked m p :
  deadlocked [{| th_held := [(m, true)]; th_announced := false; th_prog := OLock m :: p |}].
Proof.
  split; [unfold finished; by rewrite Forall_singleton|].
  intros ts' Hs. inversion Hs as [ts i t t' Hi Ht]; subst. destruct i; simplify_eq/=.
  inversion Ht as [??? Hn| | | | |]; subst. unfold no_writer in Hn. rewrite Forall_singleton in Hn.
  apply Hn. left. set_solver.
Qed.

(** It deadlocks with itself when it makes such a call, and only then. *)
Lemma relock_deadlock m n :
  (exists ts, rtc lock_step [spawn (locks_around m (writes m) n)] ts /\ deadlocked ts) <-> n <> 0%nat.
Proof.
  unfold locks_around. destruct n as [|n]; simpl.
  - split; [|done]. intros (ts & Hr & Hd). exfalso. revert Hd.
    apply (ordered_never_deadlocked [[OLock m; OUnlock m]]); [|exact Hr].
    rewrite Forall_singleton. simpl. rewrite bool_decide_eq_true_2 by set_solver.
    by rewrite decide_True.
  - split; [done|intros _]. eexists. split; [|apply (relock_deadlocked m)].
    lock_run 0%nat; [apply ts_announce|].
    { apply Forall_singleton. intros [H|[H _]]; [by apply not_elem_of_nil in H|done]. }
    lock_run 0%nat; [apply ts_lock|simpl; apply rtc_refl].
    apply Forall_singleton. intros H. by apply not_elem_of_nil in H.
Qed.

Lemma controller_calls_finish_witness :
  let threads := [[OfCache CUpdateConnection; OfPolicy PListRules]; [OfCache CDeleteWorkload; OfGraph GReset];
    [OfPolicy PAddRule; OfServer SHeartbeat]] in
  exists ts', rtc lock_step (spawn <$> (serve <$> threads)) ts' /\ finished ts'.
Proof.
  intros threads.
  destruct (controller_calls_finish threads (spawn <$> (serve <$> threads)) (rtc_refl _ _)) as [_ H].
  exact H.
Defined.
