(* ===== verification/TCCapture.v ===== *)
(** * Container traffic capture by traffic control
    (micro-segment/internal/agent/network/tc_traffic_capture.go)

    The commands the code runs and the netlink calls it makes act on a world
    the code does not describe: [world] gives, for the actions taken so far
    and the next one, its error and its output.  The methods are programs of
    a state monad over the capture's state and that history. *)

From Stdlib Require Import ZArith Lia Ascii.
From S2P Require Import Prelude StateMonad GoLib GoNet Locks.
Local Open Scope Z_scope.

(** ** State *)

Definition NV_BRIDGE_NAME : string := "nv-br".
Definition TC_PREF_BASE : Z := 10000.
Definition TC_PREF_MAX : Z := 65536.

Record VethPairInfo := {
  vp_OriginalName : string;
  vp_InternalName : string;
  vp_ExternalName : string;
  vp_OriginalMAC : list Z;
  vp_NVMAC : list Z;
  vp_BroadcastMAC : list Z;
  vp_Index : Z;                   (* uint *)
}.

Record TCPortInfo := { tp_Index : Z; tp_Pref : Z }.

Record TCContainerInfo := {
  tci_ID : string;
  tci_Name : string;
  tci_Pid : Z;
  tci_VethPairs : gmap string VethPairInfo;
  tci_TCRules : list string;
}.

Record IPConfig := { ic_IPAddr : string; ic_Gateway : string }.

(** A shell command, or a call of the netlink library. *)
Inductive action :=
| Sh (cmd : string)
| LinkByName (name : string) | LinkAdd (name : string) | LinkSetUp (name : string)
| LinkSetDown (name : string) | LinkDel (name : string).

(** [tc_prefs] holds the numbers marked [true]. *)
Record TCTrafficCapture := {
  tc_containers : gmap string TCContainerInfo;
  tc_prefs : gset Z;
  tc_portMap : gmap string TCPortInfo;
  tc_bridgeReady : bool;
  tc_hist : list action;
}.

Definition tc_set (cs : gmap string TCContainerInfo) (prefs : gset Z) (pm : gmap string TCPortInfo)
    (s : TCTrafficCapture) : TCTrafficCapture := {|
  tc_containers := cs; tc_prefs := prefs; tc_portMap := pm; tc_bridgeReady := tc_bridgeReady s;
  tc_hist := tc_hist s |}.
Definition tc_set_ready (b : bool) (s : TCTrafficCapture) : TCTrafficCapture := {|
  tc_containers := tc_containers s; tc_prefs := tc_prefs s; tc_portMap := tc_portMap s;
  tc_bridgeReady := b; tc_hist := tc_hist s |}.
Definition tc_log (a : action) (s : TCTrafficCapture) : TCTrafficCapture := {|
  tc_containers := tc_containers s; tc_prefs := tc_prefs s; tc_portMap := tc_portMap s;
  tc_bridgeReady := tc_bridgeReady s; tc_hist := tc_hist s ++ [a] |}.

Abbreviation TCM := (SM TCTrafficCapture).

Section capture.
Context (world : list action -> action -> go_error * string) (parseMAC : string -> list Z + string).

Definition act (a : action) : TCM (go_error * string) :=
  fun s => (world (tc_hist s) a, tc_log a s).

Definition executeCommand (command : string) : TCM go_error :=
  r ← act (Sh command); mret r.1.

(** [exec.Command("sh", "-c", cmd).Output()]. *)
Definition command_output (command : string) : TCM (string + string) :=
  r ← act (Sh command);
  mret (match r.1 with Some err => inr err | None => inl r.2 end).

(** ** The bridge *)

Definition addQDisc (port : string) : TCM go_error :=
  executeCommand ("tc qdisc add dev " +:+ port +:+ " ingress").

Definition nsenter (pid : Z) : string := "nsenter -t " +:+ fmt_int pid +:+ " -n ".

Definition addQDiscInNamespace (pid : Z) (port : string) : TCM go_error :=
  executeCommand (nsenter pid +:+ "tc qdisc add dev " +:+ port +:+ " ingress").

Definition delQDisc (port : string) : TCM go_error :=
  executeCommand ("tc qdisc del dev " +:+ port +:+ " ingress").

Definition offloadFeatures : list string :=
  ["rx-checksumming"; "tx-checksumming"; "scatter-gather"; "tcp-segmentation-offload";
   "udp-fragmentation-offload"; "generic-segmentation-offload"; "generic-receive-offload";
   "large-receive-offload"].

Definition disableOffload (port : string) : TCM unit :=
  for_each offloadFeatures (fun feature =>
    _ ← executeCommand ("ethtool -K " +:+ port +:+ " " +:+ feature +:+ " off"); mret tt).

Definition cleanupBridge : TCM unit :=
  _ ← delQDisc NV_BRIDGE_NAME;
  _ ← act (LinkSetDown NV_BRIDGE_NAME);
  _ ← act (LinkDel NV_BRIDGE_NAME);
  mret tt.

Definition initNVBridge : TCM go_error :=
  found ← act (LinkByName NV_BRIDGE_NAME);
  _ ← (match found.1 with None => cleanupBridge | Some _ => mret tt end);
  added ← act (LinkAdd NV_BRIDGE_NAME);
  match added.1 with
  | Some err => mret (Some ("failed to create bridge: " +:+ err))
  | None =>
      up ← act (LinkSetUp NV_BRIDGE_NAME);
      match up.1 with
      | Some err => mret (Some ("failed to bring up bridge: " +:+ err))
      | None =>
          _ ← addQDisc NV_BRIDGE_NAME;
          _ ← disableOffload NV_BRIDGE_NAME;
          _ ← modify_st (tc_set_ready true);
          mret None
      end
  end.

Definition empty_capture (hist : list action) : TCTrafficCapture := {|
  tc_containers := ∅; tc_prefs := ∅; tc_portMap := ∅; tc_bridgeReady := false; tc_hist := hist |}.

(** The error of the bridge is only logged. *)
Definition NewTCTrafficCapture (hist : list action) : TCTrafficCapture :=
  (initNVBridge (empty_capture hist)).2.

(** ** What the commands print *)

Definition newline : string := String "010"%char "".

(** The name of an interface line ["2: eth0@if3: <...> mtu 1500"]. *)
Definition iface_of_line (line : string) : option string :=
  match Split line ": " with
  | _ :: p1 :: _ => head (Split p1 "@")
  | _ => None
  end.

Definition parse_interfaces (out : string) : list string :=
  omap (fun line => let line := TrimSpace line in
    if Contains line ": " && negb (HasPrefix line " ") then iface_of_line line else None)
    (Split out newline).

Definition getContainerInterfaces (pid : Z) : TCM (list string + string) :=
  r ← command_output (nsenter pid +:+ "ip link show");
  mret (match r with inr err => inr err | inl out => inl (parse_interfaces out) end).

(** The MAC on the first [link/ether] line with an address. *)
Fixpoint mac_of_lines (lines : list string) : list Z + string :=
  match lines with
  | [] => inr "MAC address not found in ip link output"
  | line :: lines' =>
      let line := TrimSpace line in
      if HasPrefix line "link/ether "
      then match Fields line with
           | _ :: p1 :: _ => parseMAC p1
           | _ => mac_of_lines lines'
           end
      else mac_of_lines lines'
  end.

Definition getInterfaceMAC (pid : Z) (iface : string) : TCM (list Z + string) :=
  r ← command_output (nsenter pid +:+ "cat /sys/class/net/" +:+ iface +:+ "/address");
  match r with
  | inl out => mret (parseMAC (TrimSpace out))
  | inr _ =>
      r ← command_output (nsenter pid +:+ "ip link show " +:+ iface);
      mret (match r with
            | inr err => inr ("failed to get interface info: " +:+ err)
            | inl out => mac_of_lines (Split out newline)
            end)
  end.

Fixpoint inet_of_lines (lines : list string) : string :=
  match lines with
  | [] => ""
  | line :: lines' =>
      let line := TrimSpace line in
      if HasPrefix line "inet " && negb (Contains line "127.0.0.1")
      then match Fields line with _ :: p1 :: _ => p1 | _ => inet_of_lines lines' end
      else inet_of_lines lines'
  end.

Definition gateway_of (out : string) : string :=
  let line := TrimSpace out in
  if HasPrefix line "default via "
  then match Fields line with _ :: _ :: p2 :: _ => p2 | _ => "" end
  else "".

Definition getInterfaceIPConfig (pid : Z) (iface : string) : TCM (IPConfig + string) :=
  r ← command_output (nsenter pid +:+ "ip addr show " +:+ iface);
  match r with
  | inr err => mret (inr err)
  | inl out =>
      let addr := inet_of_lines (Split out newline) in
      r ← command_output (nsenter pid +:+ "ip route show default");
      let gw := match r with inl out => gateway_of out | inr _ => "" end in
      mret (if bool_decide (addr = "") then inr "no IP address found"
            else inl {| ic_IPAddr := addr; ic_Gateway := gw |})
  end.

(** ** Numbers

    The loop [for i := 1; i < TC_PREF_MAX; i++] over the numbers not in use;
    [fuel] is the number of turns left. *)
Fixpoint first_free (fuel : nat) (i : Z) (prefs : gset Z) : Z :=
  match fuel with
  | O => 0
  | S fuel' => if decide (i ∈ prefs) then first_free fuel' (i + 1) prefs else i
  end.

Definition pref_turns : nat := Z.to_nat (TC_PREF_MAX - 1).

(** Mark a number in use, unless it is the 0 that says there is none. *)
Definition take_pref (x : Z) : TCM unit :=
  modify_st (fun s => tc_set (tc_containers s)
    (if x =? 0 then tc_prefs s else {[x]} ∪ tc_prefs s) (tc_portMap s) s).

Definition getAvailableIndex : TCM Z :=
  s ← get_st;
  let i := first_free pref_turns 1 (tc_prefs s) in
  _ ← take_pref i; mret i.

Definition getAvailablePref (portIndex : Z) : TCM Z :=
  s ← get_st;
  let pref := portIndex `mod` TC_PREF_MAX in
  if decide (pref ∈ tc_prefs s) then
    let pref := first_free pref_turns 1 (tc_prefs s) in
    _ ← take_pref pref; mret pref
  else
    _ ← modify_st (fun s => tc_set (tc_containers s) ({[pref]} ∪ tc_prefs s) (tc_portMap s) s);
    mret pref.

(** ** Interfaces *)

Definition renameInterface (pid : Z) (oldName newName : string) : TCM go_error :=
  err ← executeCommand (nsenter pid +:+ "ip link set " +:+ oldName +:+ " down");
  match err with
  | Some e => mret (Some e)
  | None => executeCommand (nsenter pid +:+ "ip link set " +:+ oldName +:+ " name " +:+ newName)
  end.

Definition createVethPairInNamespace (pid : Z) (localName peerName : string) : TCM go_error :=
  err ← executeCommand (nsenter pid +:+ "ip link add " +:+ localName +:+ " type veth peer name " +:+ peerName);
  match err with
  | Some e => mret (Some e)
  | None => executeCommand (nsenter pid +:+ "ip link set " +:+ peerName +:+ " netns 1")
  end.

(** Errors of the commands are only logged. *)
Definition configureVethPair (pid : Z) (localName peerName externalName : string)
    (originalMAC nvMAC : list Z) : TCM unit :=
  ipConfig ← getInterfaceIPConfig pid externalName;
  let commands :=
    [nsenter pid +:+ "ip link set " +:+ localName +:+ " address " +:+ HardwareAddr_String originalMAC;
     nsenter pid +:+ "ip link set " +:+ localName +:+ " up";
     nsenter pid +:+ "ip link set " +:+ externalName +:+ " up"] ++
    match ipConfig with
    | inr _ => []
    | inl c =>
        (if bool_decide (ic_IPAddr c = "") then [] else
          [nsenter pid +:+ "ip addr del " +:+ ic_IPAddr c +:+ " dev " +:+ externalName;
           nsenter pid +:+ "ip addr add " +:+ ic_IPAddr c +:+ " dev " +:+ localName]) ++
        (if bool_decide (ic_Gateway c = "") then [] else
          [nsenter pid +:+ "ip route add default via " +:+ ic_Gateway c +:+ " dev " +:+ localName])
    end in
  let hostCommands :=
    ["ip link set " +:+ peerName +:+ " address " +:+ HardwareAddr_String nvMAC;
     "ip link set " +:+ peerName +:+ " up";
     "ip link set " +:+ peerName +:+ " master " +:+ NV_BRIDGE_NAME] in
  _ ← for_each commands (fun cmd => _ ← executeCommand cmd; mret tt);
  for_each hostCommands (fun cmd => _ ← executeCommand cmd; mret tt).

Definition index_bytes (index : Z) : list Z :=
  [u8 (Z.land (Z.shiftr index 8) 255); u8 (Z.land index 255)].

Definition createVethPair (pid : Z) (originalIface : string) : TCM (VethPairInfo + string) :=
  let internalName := "nv-in-" +:+ originalIface in
  let externalName := "nv-ex-" +:+ originalIface in
  mac ← getInterfaceMAC pid originalIface;
  match mac with
  | inr err => mret (inr ("failed to get original MAC: " +:+ err))
  | inl originalMAC =>
      index ← getAvailableIndex;
      let nvMAC := [78; 101; 117; 86] ++ index_bytes index in
      let bcMAC := [255; 255; 255; 0] ++ index_bytes index in
      err ← renameInterface pid originalIface externalName;
      match err with
      | Some e => mret (inr ("failed to rename interface: " +:+ e))
      | None =>
          err ← createVethPairInNamespace pid originalIface internalName;
          match err with
          | Some e => mret (inr ("failed to create veth pair: " +:+ e))
          | None =>
              _ ← configureVethPair pid originalIface internalName externalName originalMAC nvMAC;
              mret (inl {| vp_OriginalName := originalIface; vp_InternalName := internalName;
                           vp_ExternalName := externalName; vp_OriginalMAC := originalMAC;
                           vp_NVMAC := nvMAC; vp_BroadcastMAC := bcMAC; vp_Index := index |})
          end
      end
  end.

(** ** Rules *)

(** [0x%02x...] of bytes of the MAC. *)
Definition hex0x (bs : list Z) : string := "0x" +:+ hexString bs.

Definition mirror_rule (ns dev : string) (pref : Z) (target : string) : string :=
  ns +:+ "tc filter add dev " +:+ dev +:+ " pref " +:+ fmt_int pref +:+
  " parent ffff: protocol all u32 match u8 0 0 action mirred egress mirror dev " +:+ target.

Definition drop_rule (pref : Z) (mac : list Z) : string :=
  "tc filter add dev " +:+ NV_BRIDGE_NAME +:+ " pref " +:+ fmt_int pref +:+
  " parent ffff: protocol all u32 match u16 " +:+ hex0x (take 2 mac) +:+
  " 0xffff at -14 match u32 " +:+ hex0x (take 4 (drop 2 mac)) +:+ " 0xffffffff at -12 action drop".

Definition tc_rules (pid pref : Z) (vp : VethPairInfo) : list string :=
  [mirror_rule (nsenter pid) (vp_ExternalName vp) (TC_PREF_BASE + 2) (vp_OriginalName vp);
   mirror_rule (nsenter pid) (vp_OriginalName vp) (TC_PREF_BASE + 2) (vp_ExternalName vp);
   mirror_rule "" (vp_InternalName vp) (TC_PREF_BASE + 1) NV_BRIDGE_NAME;
   drop_rule pref (vp_NVMAC vp)].

(** The rules that are accepted, in order. *)
Fixpoint run_rules (rules : list string) : TCM (list string) :=
  match rules with
  | [] => mret []
  | rule :: rules' =>
      err ← executeCommand rule;
      done' ← run_rules rules';
      mret (match err with Some _ => done' | None => rule :: done' end)
  end.

Definition add_TCRules (l : list string) (c : TCContainerInfo) : TCContainerInfo := {|
  tci_ID := tci_ID c; tci_Name := tci_Name c; tci_Pid := tci_Pid c;
  tci_VethPairs := tci_VethPairs c; tci_TCRules := tci_TCRules c ++ l |}.
Definition add_VethPair (iface : string) (vp : VethPairInfo) (c : TCContainerInfo) : TCContainerInfo := {|
  tci_ID := tci_ID c; tci_Name := tci_Name c; tci_Pid := tci_Pid c;
  tci_VethPairs := <[iface := vp]> (tci_VethPairs c); tci_TCRules := tci_TCRules c |}.

(** The container with the rules added; its error is only logged. *)
Definition setupTCRules (vp : VethPairInfo) (c : TCContainerInfo) : TCM TCContainerInfo :=
  _ ← addQDiscInNamespace (tci_Pid c) (vp_OriginalName vp);
  _ ← addQDiscInNamespace (tci_Pid c) (vp_ExternalName vp);
  _ ← addQDisc (vp_InternalName vp);
  pref ← getAvailablePref (vp_Index vp);
  if pref =? 0 then mret c
  else
    let port := {| tp_Index := vp_Index vp; tp_Pref := pref |} in
    _ ← modify_st (fun s => tc_set (tc_containers s) (tc_prefs s)
          (<[vp_ExternalName vp := port]> (<[vp_InternalName vp := port]> (tc_portMap s))) s);
    added ← run_rules (tc_rules (tci_Pid c) pref vp);
    mret (add_TCRules added c).

(** ** Start and stop *)

(** The [nv-] interfaces of a listing. *)
Definition nv_interfaces (out : string) : list string :=
  omap (fun line => let line := TrimSpace line in
    if Contains line ": nv-" && negb (HasPrefix line " ") then iface_of_line line else None)
    (Split out newline).

Definition cleanupContainerInterfaces (pid : Z) : TCM unit :=
  r ← command_output (nsenter pid +:+ "ip link show");
  match r with
  | inr _ => mret tt
  | inl out =>
      _ ← for_each (nv_interfaces out) (fun iface =>
            _ ← executeCommand (nsenter pid +:+ "ip link del " +:+ iface); mret tt);
      r ← command_output "ip link show";
      match r with
      | inr _ => mret tt
      | inl out =>
          for_each (nv_interfaces out) (fun iface =>
            if bool_decide (iface = NV_BRIDGE_NAME) then mret tt
            else _ ← executeCommand ("ip link del " +:+ iface); mret tt)
      end
  end.

(** The loop over the interfaces of a container. *)
Fixpoint capture_ifaces (pid : Z) (ifaces : list string) (c : TCContainerInfo) : TCM TCContainerInfo :=
  match ifaces with
  | [] => mret c
  | iface :: ifaces' =>
      if bool_decide (iface = "lo") then capture_ifaces pid ifaces' c
      else
        r ← createVethPair pid iface;
        match r with
        | inr _ => capture_ifaces pid ifaces' c
        | inl vp =>
            c ← setupTCRules vp (add_VethPair iface vp c);
            capture_ifaces pid ifaces' c
        end
  end.

Definition StartContainerCapture (containerID containerName : string) (pid : Z) : TCM go_error :=
  s ← get_st;
  if negb (tc_bridgeReady s) then mret (Some "NV bridge not ready")
  else match tc_containers s !! containerID with
  | Some _ => mret None
  | None =>
      _ ← cleanupContainerInterfaces pid;
      r ← getContainerInterfaces pid;
      match r with
      | inr err => mret (Some ("failed to get container interfaces: " +:+ err))
      | inl interfaces =>
          c ← capture_ifaces pid interfaces {| tci_ID := containerID; tci_Name := containerName;
                tci_Pid := pid; tci_VethPairs := ∅; tci_TCRules := [] |};
          _ ← modify_st (fun s => tc_set (<[containerID := c]> (tc_containers s)) (tc_prefs s) (tc_portMap s) s);
          mret None
      end
  end.

Definition cleanupVethPair (vp : VethPairInfo) : TCM unit :=
  _ ← delQDisc (vp_InternalName vp);
  _ ← delQDisc (vp_ExternalName vp);
  _ ← executeCommand ("ip link del " +:+ vp_InternalName vp);
  mret tt.

(** [if portInfo, exists := tc.portMap[name]; exists] frees its preference. *)
Definition release_port (name : string) (s : TCTrafficCapture) : TCTrafficCapture :=
  match tc_portMap s !! name with
  | Some port => tc_set (tc_containers s) (tc_prefs s ∖ {[tp_Pref port]}) (delete name (tc_portMap s)) s
  | None => s
  end.

Definition release_veth (vp : VethPairInfo) (s : TCTrafficCapture) : TCTrafficCapture :=
  let s := release_port (vp_InternalName vp) s in
  let s := release_port (vp_ExternalName vp) s in
  tc_set (tc_containers s) (tc_prefs s ∖ {[vp_Index vp]}) (tc_portMap s) s.

(** [ord1], [ord2]: the orders of the two ranges over the pairs. *)
Definition StopContainerCapture (ord1 ord2 : list (string * VethPairInfo)) (containerID : string)
  : TCM go_error :=
  s ← get_st;
  match tc_containers s !! containerID with
  | None => mret (Some ("container " +:+ containerID +:+ " not found"))
  | Some c =>
      _ ← for_each (tci_TCRules c) (fun rule => _ ← executeCommand (Replace1 rule "add" "del"); mret tt);
      _ ← for_each ord1.*2 cleanupVethPair;
      _ ← modify_st (fun s => foldl (fun s vp => release_veth vp s) s ord2.*2);
      _ ← modify_st (fun s => tc_set (delete containerID (tc_containers s)) (tc_prefs s) (tc_portMap s) s);
      mret None
  end.

(** [id[:12]] panics on a shorter id. *)
Definition slice12 (id : string) : outcome string :=
  if (12 <=? String.length id)%nat then Done (String.substring 0 12 id)
  else Panicked "slice bounds out of range".

Fixpoint captured_names (ord : list (string * TCContainerInfo)) : outcome (list string) :=
  match ord with
  | [] => Done []
  | (id, info) :: ord' =>
      short ← slice12 id;
      rest ← captured_names ord';
      mret ((tci_Name info +:+ " (" +:+ short +:+ ")") :: rest)
  end.

Definition GetCapturedContainers (ord : list (string * TCContainerInfo)) : outcome (list string) :=
  captured_names ord.

(** [Cleanup] holds the lock [StopContainerCapture] takes: with a container
    captured it never returns ([None]). *)
Definition tc_Cleanup (s : TCTrafficCapture) : option (go_error * TCTrafficCapture) :=
  if decide (tc_containers s = ∅) then
    Some ((found ← act (LinkByName NV_BRIDGE_NAME);
           _ ← (match found.1 with None => cleanupBridge | Some _ => mret tt end);
           _ ← modify_st (tc_set_ready false);
           mret None) s)
  else None.
End capture.

(** ** Reasoning about the programs *)

(** A property of the state that running commands does not affect. *)
Class Quiet (P : TCTrafficCapture -> Prop) : Prop := quiet_log : forall a s, P s -> P (tc_log a s).

Section quiet.
Context (world : list action -> action -> go_error * string) (parseMAC : string -> list Z + string).
Context (P : TCTrafficCapture -> Prop) `{Q : !Quiet P}.

Lemma runs_act a : runs P (act world a).
Proof. intros s Hs. by apply quiet_log. Qed.
Hint Resolve runs_act : runs.

Lemma runs_executeCommand cmd : runs P (executeCommand world cmd).
Proof. unfold executeCommand. auto with runs. Qed.
Hint Resolve runs_executeCommand : runs.
Lemma runs_command_output cmd : runs P (command_output world cmd).
Proof. unfold command_output. auto with runs. Qed.
Hint Resolve runs_command_output : runs.

Lemma runs_getContainerInterfaces pid : runs P (getContainerInterfaces world pid).
Proof. unfold getContainerInterfaces. runs_auto. Qed.
Lemma runs_getInterfaceMAC pid iface : runs P (getInterfaceMAC world parseMAC pid iface).
Proof. unfold getInterfaceMAC. runs_auto. Qed.
Lemma runs_getInterfaceIPConfig pid iface : runs P (getInterfaceIPConfig world pid iface).
Proof. unfold getInterfaceIPConfig. runs_auto. Qed.
Hint Resolve runs_getInterfaceIPConfig : runs.
Lemma runs_renameInterface pid o n : runs P (renameInterface world pid o n).
Proof. unfold renameInterface. runs_auto. Qed.
Lemma runs_createVethPairInNamespace pid l p : runs P (createVethPairInNamespace world pid l p).
Proof. unfold createVethPairInNamespace. runs_auto. Qed.
Lemma runs_configureVethPair pid l p e m1 m2 : runs P (configureVethPair world pid l p e m1 m2).
Proof. unfold configureVethPair. runs_auto. Qed.
Lemma runs_addQDisc port : runs P (addQDisc world port).
Proof. unfold addQDisc. runs_auto. Qed.
Lemma runs_addQDiscInNamespace pid port : runs P (addQDiscInNamespace world pid port).
Proof. unfold addQDiscInNamespace. runs_auto. Qed.
Lemma runs_run_rules rules : runs P (run_rules world rules).
Proof. induction rules; simpl; runs_auto. Qed.
Lemma runs_cleanupContainerInterfaces pid : runs P (cleanupContainerInterfaces world pid).
Proof. unfold cleanupContainerInterfaces. runs_auto. Qed.
Lemma runs_cleanupVethPair vp : runs P (cleanupVethPair world vp).
Proof. unfold cleanupVethPair, delQDisc. runs_auto. Qed.
End quiet.

(** ** Free numbers *)

Lemma first_free_spec fuel i prefs :
  let x := first_free fuel i prefs in
  x = 0 \/ (i <= x < i + Z.of_nat fuel /\ (x ∉ prefs) /\ forall y, i <= y < x -> y ∈ prefs).
Proof.
  revert i. induction fuel as [|fuel IH]; intros i; simpl; [by left|].
  case_decide as Hi.
  - destruct (IH (i + 1)) as [H|(H1 & H2 & H3)]; [by left|]. right. split; [lia|]. split; [done|].
    intros y Hy. destruct (decide (y = i)) as [->|]; [done|]. apply H3. lia.
  - right. split; [lia|]. split; [done|]. lia.
Qed.

Lemma pref_turns_eq : Z.of_nat pref_turns = TC_PREF_MAX - 1.
Proof. unfold pref_turns. rewrite Z2Nat.id; [done|]. by apply Z.leb_le. Qed.
#[local] Opaque pref_turns.

(** The allocator returns the least number from 1 that is not in use, below
    [TC_PREF_MAX], or 0. *)
Lemma first_free_pref prefs :
  let x := first_free pref_turns 1 prefs in
  x = 0 \/ (0 < x < TC_PREF_MAX /\ (x ∉ prefs)).
Proof.
  destruct (first_free_spec pref_turns 1 prefs) as [H|(H1 & H2 & _)]; [by left|right].
  pose proof pref_turns_eq. split; [lia|done].
Qed.

(** ** The numbers in use

    [L] gives the pair of a container's interface, for the pairs that are
    live.  A pair holds its index; the two names of a port share an entry,
    and an entry holds its preference. *)

Definition live : Type := string * string -> option VethPairInfo.

Definition in_name (iface : string) : string := "nv-in-" +:+ iface.
Definition ex_name (iface : string) : string := "nv-ex-" +:+ iface.

Lemma in_name_inj x y : in_name x = in_name y -> x = y.
Proof. unfold in_name. simpl. intros [= H]. exact H. Qed.
Lemma ex_name_inj x y : ex_name x = ex_name y -> x = y.
Proof. unfold ex_name. simpl. intros [= H]. exact H. Qed.
Lemma in_ex_name x y : in_name x <> ex_name y.
Proof. unfold in_name, ex_name. simpl. by intros [=]. Qed.

Record pair_ok (iface : string) (prefs : gset Z) (vp : VethPairInfo) : Prop := {
  po_in : vp_InternalName vp = in_name iface;
  po_ex : vp_ExternalName vp = ex_name iface;
  po_range : 0 <= vp_Index vp < TC_PREF_MAX;
  po_mac : vp_NVMAC vp = [78; 101; 117; 86] ++ index_bytes (vp_Index vp);
  po_marked : vp_Index vp <> 0 -> vp_Index vp ∈ prefs;
}.

Record tc_inv (L : live) (s : TCTrafficCapture) : Prop := {
  ti_pair : forall k vp, L k = Some vp -> pair_ok k.2 (tc_prefs s) vp;
  ti_unique : forall k1 k2 vp1 vp2, L k1 = Some vp1 -> L k2 = Some vp2 ->
    vp_Index vp1 = vp_Index vp2 -> vp_Index vp1 <> 0 -> k1 = k2;
  ti_port : forall iface port, tc_portMap s !! in_name iface = Some port ->
    tp_Pref port ∈ tc_prefs s /\ tp_Pref port <> 0;
  ti_twin : forall iface, tc_portMap s !! in_name iface = tc_portMap s !! ex_name iface;
  ti_port_unique : forall x y p q, tc_portMap s !! in_name x = Some p ->
    tc_portMap s !! in_name y = Some q -> tp_Pref p = tp_Pref q -> x = y;
  ti_apart : forall k vp iface port, L k = Some vp ->
    tc_portMap s !! in_name iface = Some port -> tp_Pref port <> vp_Index vp;
}.

#[export] Instance tc_inv_quiet L : Quiet (tc_inv L).
Proof. intros a s []. by constructor. Qed.

Lemma tc_inv_weaken (L L' : live) s :
  (forall k vp, L' k = Some vp -> L k = Some vp) -> tc_inv L s -> tc_inv L' s.
Proof. intros HL []. constructor; eauto. Qed.

(** Only the numbers and the ports matter. *)
Lemma tc_inv_state L s s' :
  tc_prefs s' = tc_prefs s -> tc_portMap s' = tc_portMap s -> tc_inv L s -> tc_inv L s'.
Proof. intros H1 H2 []. constructor; rewrite ?H1, ?H2; eauto. Qed.

Lemma pair_ok_more iface (X Y : gset Z) vp : X ⊆ Y -> pair_ok iface X vp -> pair_ok iface Y vp.
Proof. intros HXY []. constructor; auto. Qed.

(** Marking more numbers. *)
Lemma tc_inv_mark L s s' :
  tc_prefs s ⊆ tc_prefs s' -> tc_portMap s' = tc_portMap s -> tc_inv L s -> tc_inv L s'.
Proof.
  intros H1 H2 []. constructor; rewrite ?H2; eauto using pair_ok_more.
  intros iface port Hp. destruct (ti_port0 iface port Hp). auto.
Qed.

Definition live_insert (k : string * string) (vp : VethPairInfo) (L : live) : live :=
  fun k' => if decide (k = k') then Some vp else L k'.
Definition live_delete (k : string * string) (L : live) : live :=
  fun k' => if decide (k = k') then None else L k'.

(** A new pair whose number is in use by nothing else. *)
Definition fresh_pair (L : live) (iface : string) (vp : VethPairInfo) (s : TCTrafficCapture) : Prop :=
  pair_ok iface (tc_prefs s) vp /\
  (forall k vp', L k = Some vp' -> vp_Index vp <> 0 -> vp_Index vp' <> vp_Index vp) /\
  (forall x port, tc_portMap s !! in_name x = Some port -> tp_Pref port <> vp_Index vp).

#[export] Instance fresh_pair_quiet L iface vp : Quiet (fresh_pair L iface vp).
Proof. by intros a s. Qed.

Lemma tc_inv_insert L s k vp :
  tc_inv L s -> fresh_pair L k.2 vp s -> tc_inv (live_insert k vp L) s.
Proof.
  intros [] (Hok & Hfr & Hp). constructor; try done; unfold live_insert.
  - intros k' vp'. case_decide; [intros [= <-]; by subst|eauto].
  - intros k1 k2 vp1 vp2. case_decide; case_decide; subst; try done.
    + intros [= <-] H2 Heq Hne. destruct (Hfr _ _ H2 Hne). by rewrite Heq.
    + intros H1 [= <-] Heq Hne. rewrite Heq in Hne. by destruct (Hfr _ _ H1 Hne).
    + eauto.
  - intros k' vp' iface port. case_decide; [intros [= <-]; eauto|eauto].
Qed.

(** A new port. *)
Lemma tc_inv_port L s s' iface port :
  tc_inv L s -> (forall y, y ∈ tc_prefs s -> y <> tp_Pref port) -> tp_Pref port <> 0 ->
  tc_prefs s' = {[tp_Pref port]} ∪ tc_prefs s ->
  tc_portMap s' = <[ex_name iface := port]> (<[in_name iface := port]> (tc_portMap s)) ->
  tc_inv L s'.
Proof.
  intros HI Hfr H0 Hprefs Hpm.
  assert (Hin : forall x, tc_portMap s' !! in_name x =
    if decide (x = iface) then Some port else tc_portMap s !! in_name x).
  { intros x. rewrite Hpm, lookup_insert_ne by (intros E; by apply (in_ex_name x iface)).
    case_decide; [subst; by rewrite lookup_insert_eq|].
    apply lookup_insert_ne. intros E. by apply in_name_inj in E. }
  assert (Hex : forall x, tc_portMap s' !! ex_name x =
    if decide (x = iface) then Some port else tc_portMap s !! ex_name x).
  { intros x. rewrite Hpm. case_decide; [subst; by rewrite lookup_insert_eq|].
    rewrite !lookup_insert_ne; [done| |].
    - apply in_ex_name.
    - intros E. by apply ex_name_inj in E. }
  destruct HI. constructor.
  - intros k vp HL. eapply pair_ok_more; [|by apply ti_pair0]. set_solver.
  - done.
  - intros x p. rewrite Hin. case_decide; [intros [= <-]; set_solver|].
    intros Hp. destruct (ti_port0 x p Hp). set_solver.
  - intros x. by rewrite Hin, Hex, ti_twin0.
  - intros x y p q. rewrite !Hin.
    case_decide; case_decide; subst; try done; intros Hp Hq Heq; simplify_eq.
    + destruct (Hfr (tp_Pref q)); [by apply (ti_port0 y q)|done].
    + destruct (Hfr (tp_Pref p)); [by apply (ti_port0 x p)|done].
    + eauto.
  - intros k vp x p HL. rewrite Hin. case_decide; [intros [= <-]|eauto].
    intros Heq. apply (Hfr (vp_Index vp)); [|done].
    apply (po_marked _ _ _ (ti_pair0 _ _ HL)). congruence.
Qed.

(** Giving a port back: both names or none. *)
Lemma release_ports L s iface :
  tc_inv L s -> let s' := release_port (ex_name iface) (release_port (in_name iface) s) in
  tc_inv L s' /\ tc_containers s' = tc_containers s.
Proof.
  intros HI. unfold release_port at 2. destruct HI.
  destruct (tc_portMap s !! in_name iface) as [p|] eqn:Hp.
  2:{ unfold release_port. rewrite <- ti_twin0, Hp. done. }
  unfold release_port. cbn [tc_portMap tc_set].
  rewrite lookup_delete_ne by apply in_ex_name. rewrite <- ti_twin0, Hp. cbn.
  split; [|done].
  assert (Hin : forall x, delete (ex_name iface) (delete (in_name iface) (tc_portMap s)) !! in_name x =
    if decide (x = iface) then None else tc_portMap s !! in_name x).
  { intros x. rewrite lookup_delete_ne by (intros E; by apply (in_ex_name x iface)).
    case_decide; [subst; apply lookup_delete_eq|].
    apply lookup_delete_ne. intros E. by apply in_name_inj in E. }
  constructor; cbn [tc_prefs tc_portMap tc_set].
  - intros k vp HL. destruct (ti_pair0 _ _ HL). constructor; try done.
    intros Hne. pose proof (ti_apart0 _ _ _ _ HL Hp). specialize (po_marked0 Hne). set_solver.
  - done.
  - intros x q. rewrite Hin. case_decide as Hx; [done|]. intros Hq.
    destruct (ti_port0 _ _ Hq). split; [|done].
    assert (tp_Pref q <> tp_Pref p) by (intros E; apply Hx; by eapply ti_port_unique0).
    set_solver.
  - intros x. rewrite Hin. case_decide; [subst; by rewrite lookup_delete_eq|].
    rewrite !lookup_delete_ne; [apply ti_twin0| |].
    + apply in_ex_name.
    + intros E. by apply ex_name_inj in E.
  - intros x y p' q'. rewrite !Hin. case_decide; [done|]. case_decide; [done|]. eauto.
  - intros k vp x q HL. rewrite Hin. case_decide; [done|]. eauto.
Qed.

Lemma release_veth_inv L s k vp :
  tc_inv L s -> L k = Some vp ->
  tc_inv (live_delete k L) (release_veth vp s) /\ tc_containers (release_veth vp s) = tc_containers s.
Proof.
  intros HI HL. destruct (ti_pair _ _ HI _ _ HL) as [Hin Hex _ _ _].
  unfold release_veth. rewrite Hin, Hex.
  destruct (release_ports L s k.2 HI) as [HI' Hc]. revert HI' Hc.
  generalize (release_port (ex_name k.2) (release_port (in_name k.2) s)) as s1.
  intros s1 HI1 Hc. split; [|done]. destruct HI1. constructor; cbn; unfold live_delete.
  - intros k' vp'. case_decide as Hk; [done|]. intros H'. destruct (ti_pair0 _ _ H').
    constructor; try done. intros Hne. specialize (po_marked0 Hne).
    assert (vp_Index vp' <> vp_Index vp) by (intros E; apply Hk; symmetry; by eapply ti_unique0).
    set_solver.
  - intros k1 k2 vp1 vp2. case_decide; [done|]. case_decide; [done|]. eauto.
  - intros x p Hp. destruct (ti_port0 _ _ Hp). pose proof (ti_apart0 _ _ _ _ HL Hp). set_solver.
  - done.
  - done.
  - intros k' vp' x p. case_decide; [done|]. eauto.
Qed.

(** ** The methods keep the invariant *)

Section invariant.
Context (world : list action -> action -> go_error * string) (parseMAC : string -> list Z + string).

Definition tc_st (cs : gmap string TCContainerInfo) (L : live) (s : TCTrafficCapture) : Prop :=
  tc_inv L s /\ tc_containers s = cs.

#[export] Instance tc_st_quiet cs L : Quiet (tc_st cs L).
Proof. intros a s [HI Hc]. split; [by apply quiet_log|done]. Qed.

#[export] Instance and_quiet P Q : Quiet P -> Quiet Q -> Quiet (fun s => P s /\ Q s).
Proof. intros HP HQ a s [H1 H2]. split; by apply quiet_log. Qed.

Definition fresh_index (L : live) (i : Z) (s : TCTrafficCapture) : Prop :=
  0 <= i < TC_PREF_MAX /\ (i <> 0 -> i ∈ tc_prefs s) /\
  (forall k vp, L k = Some vp -> i <> 0 -> vp_Index vp <> i) /\
  (forall x port, tc_portMap s !! in_name x = Some port -> tp_Pref port <> i).

#[export] Instance fresh_index_quiet L i : Quiet (fresh_index L i).
Proof. by intros a s. Qed.

Lemma getAvailableIndex_inv cs L :
  triple (tc_st cs L) getAvailableIndex (fun i s => tc_st cs L s /\ fresh_index L i s).
Proof.
  intros s [HI Hc]. unfold getAvailableIndex, get_st, take_pref, modify_st, mbind, SM_bind, mret, SM_ret.
  cbn -[first_free pref_turns].
  destruct (first_free_pref (tc_prefs s)) as [->|[Hr Hx]].
  - cbn. split; [split; [by eapply tc_inv_state, HI|done]|]. split; [done|].
    repeat split; try done. intros x port Hp. by apply (ti_port _ _ HI) in Hp as [_ ?].
  - revert Hr Hx. generalize (first_free pref_turns 1 (tc_prefs s)) as i. intros i Hr Hx.
    rewrite (proj2 (Z.eqb_neq i 0)) by lia. cbn.
    split; [split; [eapply tc_inv_mark, HI; cbn; set_solver|done]|].
    split; [lia|]. split; [set_solver|]. split.
    + intros k vp HL _ E. subst i. apply Hx, (po_marked _ _ _ (ti_pair _ _ HI _ _ HL)). lia.
    + intros x port Hp E. subst i. by apply Hx, (ti_port _ _ HI x).
Qed.

(** A preference was taken in a state that kept the invariant. *)
Definition pref_taken cs L (pref : Z) (s : TCTrafficCapture) : Prop :=
  exists s0, tc_st cs L s0 /\ (pref ∉ tc_prefs s0) /\ tc_prefs s = {[pref]} ∪ tc_prefs s0 /\
    tc_portMap s = tc_portMap s0 /\ tc_containers s = cs.

Lemma pref_taken_st cs L pref s : pref_taken cs L pref s -> tc_st cs L s.
Proof.
  intros (s0 & [HI Hc] & _ & Hp & Hm & Hcs). split; [|done].
  eapply tc_inv_mark, HI; [rewrite Hp; set_solver|done].
Qed.

Lemma getAvailablePref_inv cs L i :
  triple (tc_st cs L) (getAvailablePref i)
    (fun pref s => tc_st cs L s /\ (pref <> 0 -> pref_taken cs L pref s)).
Proof.
  intros s Hs. unfold getAvailablePref, get_st, take_pref, modify_st, mbind, SM_bind, mret, SM_ret.
  cbn -[first_free pref_turns].
  assert (Hadd : forall p, p ∉ tc_prefs s -> pref_taken cs L p
    (tc_set (tc_containers s) ({[p]} ∪ tc_prefs s) (tc_portMap s) s)).
  { intros p Hp. exists s. split_and!; try done. apply Hs. }
  case_decide as Hin; cbn -[first_free pref_turns].
  - destruct (first_free_pref (tc_prefs s)) as [->|[Hr Hx]].
    + cbn. split; [|done]. destruct Hs as [HI Hc]. split; [by eapply tc_inv_state, HI|done].
    + rewrite (proj2 (Z.eqb_neq _ 0)) by lia. split; [by eapply pref_taken_st, Hadd|by auto].
  - split; [by eapply pref_taken_st, Hadd|by auto].
Qed.

Lemma createVethPair_inv cs L pid iface :
  triple (tc_st cs L) (createVethPair world parseMAC pid iface)
    (fun r s => tc_st cs L s /\ match r with inl vp => fresh_pair L iface vp s | inr _ => True end).
Proof.
  unfold createVethPair. eapply triple_bind; [apply runs_getInterfaceMAC, _|].
  intros [mac|err]; [|by apply triple_ret].
  eapply triple_bind; [apply getAvailableIndex_inv|]. intros i.
  eapply triple_bind; [apply runs_renameInterface, _|].
  intros [e|]; [by apply triple_ret; intros s []|].
  eapply triple_bind; [apply runs_createVethPairInNamespace, _|].
  intros [e|]; [by apply triple_ret; intros s []|].
  eapply triple_bind; [apply runs_configureVethPair, _|]. intros ?.
  apply triple_ret. intros s [Hs (H1 & H2 & H3 & H4)]. split; [done|].
  split; [by constructor|]. done.
Qed.

Lemma setupTCRules_inv cs L iface vp c :
  vp_InternalName vp = in_name iface -> vp_ExternalName vp = ex_name iface ->
  triple (tc_st cs L) (setupTCRules world vp c)
    (fun c' s => tc_st cs L s /\ tci_VethPairs c' = tci_VethPairs c).
Proof.
  intros Hin Hex. unfold setupTCRules.
  eapply triple_bind; [apply runs_addQDiscInNamespace, _|intros ?].
  eapply triple_bind; [apply runs_addQDiscInNamespace, _|intros ?].
  eapply triple_bind; [apply runs_addQDisc, _|intros ?].
  eapply triple_bind; [apply getAvailablePref_inv|intros pref].
  destruct (Z.eqb_spec pref 0) as [->|Hne]; [apply triple_ret; by intros s []|].
  eapply (triple_bind _ _ (fun _ => tc_st cs L)).
  - apply triple_modify. intros s [_ Ht]. destruct (Ht Hne) as (s0 & [HI Hc] & Hp & Hps & Hpm & Hcs).
    split; [|done]. eapply (tc_inv_port L s0 _ iface {| tp_Index := vp_Index vp; tp_Pref := pref |}); [done| |done|done|].
    + intros y Hy ->. by apply Hp.
    + cbn. by rewrite Hin, Hex, Hpm.
  - intros ?. eapply triple_bind; [apply runs_run_rules, _|intros added].
    by apply triple_ret.
Qed.

(** The pairs once container [cid] has those of [c]. *)
Definition with_container (cid : string) (c : TCContainerInfo) (L : live) : live :=
  fun k => if decide (k.1 = cid) then tci_VethPairs c !! k.2 else L k.

Lemma capture_ifaces_inv cs L cid pid ifaces c :
  triple (tc_st cs (with_container cid c L)) (capture_ifaces world parseMAC pid ifaces c)
    (fun c' => tc_st cs (with_container cid c' L)).
Proof.
  revert c. induction ifaces as [|iface ifaces IH]; intros c; simpl; [by apply triple_ret|].
  case_bool_decide; [apply IH|].
  eapply triple_bind; [apply createVethPair_inv|].
  intros [vp|err]; [|eapply triple_weaken; [|apply IH|done]; by intros s []].
  eapply (triple_weaken _ (fun s => tc_st cs (with_container cid (add_VethPair iface vp c) L) s /\
    vp_InternalName vp = in_name iface /\ vp_ExternalName vp = ex_name iface)); [| |intros ? ? HQ; exact HQ].
  - intros s [[HI Hc] Hf]. split; [|destruct Hf as [[] _]; done]. split; [|done].
    eapply tc_inv_weaken, (tc_inv_insert _ _ (cid, iface)); [|exact HI|exact Hf].
    intros [x y] vp'. unfold with_container, live_insert. simpl.
    destruct (decide (x = cid)) as [->|].
    + destruct (decide (iface = y)) as [->|].
      * rewrite lookup_insert_eq. by case_decide.
      * rewrite lookup_insert_ne by done. case_decide; [congruence|done].
    + by case_decide; simplify_eq.
  - intros s (Hs & Hin & Hex). revert s Hs. fold (triple (tc_st cs (with_container cid (add_VethPair iface vp c) L))
      (c ← setupTCRules world vp (add_VethPair iface vp c); capture_ifaces world parseMAC pid ifaces c)
      (fun c' => tc_st cs (with_container cid c' L))).
    eapply triple_bind; [by eapply setupTCRules_inv|]. intros c'.
    eapply triple_weaken; [|apply IH|done]. intros s [[HI Hc] Hv]. split; [|done].
    eapply tc_inv_weaken, HI. intros k vp'. unfold with_container. by rewrite Hv.
Qed.

(** The live pairs of a state. *)
Definition live_of (cs : gmap string TCContainerInfo) : live :=
  fun k => c ← cs !! k.1; tci_VethPairs c !! k.2.

Definition tc_ok (s : TCTrafficCapture) : Prop := tc_inv (live_of (tc_containers s)) s.

#[export] Instance tc_ok_quiet : Quiet tc_ok.
Proof. intros a s H. unfold tc_ok in *. by apply (quiet_log (P := tc_inv (live_of (tc_containers s)))). Qed.

Lemma StartContainerCapture_ok cid name pid s :
  tc_ok s -> tc_ok (StartContainerCapture world parseMAC cid name pid s).2.
Proof.
  intros Hs. set (cs := tc_containers s).
  assert (Ht : triple (fun s' => s' = s) (StartContainerCapture world parseMAC cid name pid)
    (fun _ s' => tc_ok s')); [|by apply Ht].
  unfold StartContainerCapture. apply triple_read.
  destruct (tc_bridgeReady s); simpl; [|by apply triple_ret; intros ? ->].
  destruct (tc_containers s !! cid) as [c|] eqn:Hc; [by apply triple_ret; intros ? ->|].
  apply (triple_weaken _ (tc_st cs (live_of cs)) _ _ (fun _ s' => tc_ok s')); [by intros ? ->| |done].
  eapply triple_bind; [apply runs_cleanupContainerInterfaces, _|]. intros ?.
  eapply triple_bind; [apply runs_getContainerInterfaces, _|].
  intros [ifaces|err]; [|apply triple_ret; intros s' [HI Hcs]; unfold tc_ok; by rewrite Hcs].
  eapply triple_bind.
  - eapply triple_weaken; [|apply (capture_ifaces_inv cs (live_of cs) cid)|intros ? ? HQ; exact HQ].
    intros s' [HI Hcs]. split; [|done]. eapply tc_inv_weaken, HI.
    intros [x y] vp. unfold with_container. simpl. by case_decide.
  - intros c. eapply (triple_bind _ _ (fun _ => tc_ok)); [|intros ?; by apply triple_ret].
    apply triple_modify. intros s' [HI Hcs]. unfold tc_ok. apply (tc_inv_state _ s'); [done|done|].
    eapply tc_inv_weaken, HI. intros [x y] vp. unfold live_of, with_container. cbn. rewrite Hcs.
    case_decide; [subst; by rewrite lookup_insert_eq|by rewrite lookup_insert_ne].
Qed.

(** Giving back a list of pairs of a container. *)
Lemma release_veths_inv cid ord L s :
  tc_inv L s -> NoDup ord.*1 -> (forall iface vp, (iface, vp) ∈ ord -> L (cid, iface) = Some vp) ->
  let s' := foldl (fun s vp => release_veth vp s) s ord.*2 in
  tc_inv (fun k => if decide (k.1 = cid /\ k.2 ∈ ord.*1) then None else L k) s' /\
  tc_containers s' = tc_containers s.
Proof.
  revert L s. induction ord as [|[iface vp] ord IH]; intros L s HI Hnd HL; simpl.
  { split; [|done]. eapply tc_inv_weaken, HI. intros k vp. case_decide; done. }
  apply NoDup_cons in Hnd as [Hni Hnd].
  destruct (release_veth_inv L s (cid, iface) vp HI) as [HI' Hc]; [apply HL; set_solver|].
  destruct (IH _ _ HI' Hnd) as [HI'' Hc'].
  { intros iface' vp' Hin. unfold live_delete. case_decide as E; [|apply HL; set_solver].
    injection E as <-. destruct Hni. apply list_elem_of_fmap. by exists (iface, vp'). }
  split; [|etrans; [exact Hc'|exact Hc]]. eapply tc_inv_weaken, HI''.
  intros [x y] vp'. unfold live_delete. simpl.
  case_decide as E1; [done|]. case_decide as E2; [set_solver|]. case_decide as E3; [|done].
  injection E3 as <- <-. set_solver.
Qed.

Lemma StopContainerCapture_ok ord1 ord2 cid s :
  (forall c, tc_containers s !! cid = Some c -> visits ord2 (tci_VethPairs c)) ->
  tc_ok s -> tc_ok (StopContainerCapture world ord1 ord2 cid s).2.
Proof.
  intros Hv Hs. set (cs := tc_containers s).
  assert (Ht : triple (fun s' => s' = s) (StopContainerCapture world ord1 ord2 cid)
    (fun _ s' => tc_ok s')); [|by apply Ht].
  unfold StopContainerCapture. apply triple_read.
  destruct (tc_containers s !! cid) as [c|] eqn:Hc; [|by apply triple_ret; intros ? ->].
  specialize (Hv _ eq_refl).
  apply (triple_weaken _ (tc_st cs (live_of cs)) _ _ (fun _ s' => tc_ok s')); [by intros ? ->| |done].
  eapply triple_bind.
  { apply runs_for_each. intros rule. apply runs_bind; [apply runs_executeCommand, _|]. intros ?. apply runs_ret. }
  intros ?. eapply triple_bind; [apply runs_for_each; intros vp; apply runs_cleanupVethPair, _|].
  intros ?. eapply (triple_bind _ _ (fun _ => tc_st cs (fun k =>
    if decide (k.1 = cid /\ k.2 ∈ ord2.*1) then None else live_of cs k))).
  { apply triple_modify. intros s' [HI Hcs].
    destruct (release_veths_inv cid ord2 _ _ HI) as [HI' Hc'].
    - unfold visits in Hv. rewrite Hv. apply NoDup_fst_map_to_list.
    - intros iface vp Hin. unfold live_of, cs. simpl. rewrite Hc. simpl. by apply (visits_elem_of ord2).
    - split; [done|]. by rewrite Hc', Hcs. }
  intros ?. eapply (triple_bind _ _ (fun _ => tc_ok)); [|intros ?; by apply triple_ret].
  apply triple_modify. intros s' [HI Hcs]. unfold tc_ok. apply (tc_inv_state _ s'); [done|done|].
  eapply tc_inv_weaken, HI. intros [x y] vp. unfold live_of. cbn. rewrite Hcs.
  destruct (decide (x = cid)) as [->|]; [by rewrite lookup_delete_eq|].
  rewrite lookup_delete_ne by done. case_decide; [naive_solver|done].
Qed.
End invariant.

(** ** Runs *)

Section execution.
Context (world : list action -> action -> go_error * string) (parseMAC : string -> list Z + string).

(** The calls the agent makes; each takes the lock for its whole duration. *)
Inductive tc_step : TCTrafficCapture -> TCTrafficCapture -> Prop :=
| tc_step_start cid name pid s :
    tc_step s (StartContainerCapture world parseMAC cid name pid s).2
| tc_step_stop ord1 ord2 cid s :
    (forall c, tc_containers s !! cid = Some c ->
      visits ord1 (tci_VethPairs c) /\ visits ord2 (tci_VethPairs c)) ->
    tc_step s (StopContainerCapture world ord1 ord2 cid s).2
| tc_step_cleanup s r : tc_Cleanup world s = Some r -> tc_step s r.2.

Lemma tc_inv_empty s : tc_prefs s = ∅ -> tc_portMap s = ∅ -> tc_inv (fun _ => None) s.
Proof. intros Hp Hm. constructor; rewrite ?Hp, ?Hm; set_solver. Qed.

(** The bridge's set-up and removal leave the numbers and the ports alone. *)
Definition numbers_empty (s : TCTrafficCapture) : Prop :=
  tc_prefs s = ∅ /\ tc_portMap s = ∅ /\ tc_containers s = ∅.

#[export] Instance numbers_empty_quiet : Quiet numbers_empty.
Proof. by intros a s. Qed.

Lemma numbers_empty_ok s : numbers_empty s -> tc_ok s.
Proof.
  intros (H1 & H2 & H3). unfold tc_ok. rewrite H3. by eapply tc_inv_weaken, tc_inv_empty.
Qed.

Lemma runs_cleanupBridge P `{!Quiet P} : runs P (cleanupBridge world).
Proof.
  unfold cleanupBridge, delQDisc.
  apply runs_bind; [apply runs_executeCommand, _|]; intros ?.
  apply runs_bind; [apply runs_act, _|]; intros ?.
  apply runs_bind; [apply runs_act, _|]; intros ?. apply runs_ret.
Qed.

Lemma NewTCTrafficCapture_empty hist : numbers_empty (NewTCTrafficCapture world hist).
Proof.
  unfold NewTCTrafficCapture.
  assert (Ht : runs numbers_empty (initNVBridge world)); [|by apply Ht].
  unfold initNVBridge. apply runs_bind; [apply runs_act, _|]. intros [found ?].
  apply runs_bind; [destruct found; [apply runs_ret|apply runs_cleanupBridge, _]|]. intros ?.
  apply runs_bind; [apply runs_act, _|]. intros [[err|] ?]; [apply runs_ret|].
  apply runs_bind; [apply runs_act, _|]. intros [[err|] ?]; [apply runs_ret|].
  apply runs_bind; [apply runs_addQDisc, _|]. intros ?.
  apply runs_bind.
  { apply runs_for_each. intros ?. apply runs_bind; [apply runs_executeCommand, _|]. intros ?. apply runs_ret. }
  intros ?. apply runs_bind; [by apply triple_modify|]. intros ?. apply runs_ret.
Qed.

(** What [Cleanup] leaves when it returns. *)
Lemma tc_Cleanup_frame s r :
  tc_Cleanup world s = Some r ->
  tc_prefs r.2 = tc_prefs s /\ tc_portMap r.2 = tc_portMap s /\ tc_containers r.2 = ∅.
Proof.
  unfold tc_Cleanup. case_decide as Hc; [|done]. intros [= <-].
  set (P := fun s' => tc_prefs s' = tc_prefs s /\ tc_portMap s' = tc_portMap s /\ tc_containers s' = ∅).
  assert (Quiet P) by (by intros a s').
  match goal with |- context [(?m s).2] => assert (Ht : runs P m) end; [|by apply Ht].
  apply runs_bind; [apply runs_act, _|]. intros [[err|] ?]; simpl;
    (apply runs_bind; [first [apply runs_ret|apply runs_cleanupBridge, _]|]; intros ?;
     apply runs_bind; [by apply triple_modify|]; intros ?; apply runs_ret).
Qed.

Lemma tc_Cleanup_ok s r : tc_Cleanup world s = Some r -> tc_ok s -> tc_ok r.2.
Proof.
  intros Hr Hs. destruct (tc_Cleanup_frame s r Hr) as (H1 & H2 & H3). unfold tc_ok in *.
  rewrite H3. apply (tc_inv_state _ s); [done|done|]. by eapply tc_inv_weaken, Hs.
Qed.

Lemma tc_step_ok s s' : tc_step s s' -> tc_ok s -> tc_ok s'.
Proof.
  intros [cid name pid s0|ord1 ord2 cid s0 Hv|s0 r Hr] Hok.
  - by apply StartContainerCapture_ok.
  - apply (StopContainerCapture_ok world parseMAC); [|done]. intros c Hc. by apply Hv.
  - by eapply tc_Cleanup_ok.
Qed.

Lemma tc_reachable_ok hist s : rtc tc_step (NewTCTrafficCapture world hist) s -> tc_ok s.
Proof.
  apply (rtc_invariant tc_step tc_ok); [apply tc_step_ok|].
  apply numbers_empty_ok, NewTCTrafficCapture_empty.
Qed.

(** Two bytes hold an index. *)
Lemma index_bytes_inj i j :
  0 <= i < TC_PREF_MAX -> 0 <= j < TC_PREF_MAX -> index_bytes i = index_bytes j -> i = j.
Proof.
  unfold index_bytes, u8, wrap, TC_PREF_MAX. intros Hi Hj.
  change 255 with (Z.ones 8). rewrite !Z.land_ones, !Z.shiftr_div_pow2 by lia.
  change (2 ^ 8) with 256. intros [= H1 H2]. rewrite !Z.mod_mod in H1, H2 by lia.
  rewrite !Z.mod_small in H1 by (split; [apply Z.div_pos; lia|apply Z.div_lt_upper_bound; lia]).
  rewrite (Z.div_mod i 256), (Z.div_mod j 256) by lia. congruence.
Qed.

(** At every point of every run of the capture, the pairs it keeps for
    the interfaces of the captured containers have numbers that are marked in
    use, and, as long as the 65535 numbers are not exhausted (index 0), pairs
    of different interfaces have different MAC addresses on the bridge. *)
Theorem captured_macs_distinct hist s cid1 cid2 c1 c2 iface1 iface2 vp1 vp2 :
  rtc tc_step (NewTCTrafficCapture world hist) s ->
  tc_containers s !! cid1 = Some c1 -> tci_VethPairs c1 !! iface1 = Some vp1 ->
  tc_containers s !! cid2 = Some c2 -> tci_VethPairs c2 !! iface2 = Some vp2 ->
  vp_Index vp1 <> 0 -> (cid1, iface1) <> (cid2, iface2) ->
  vp_Index vp1 ∈ tc_prefs s /\ vp_NVMAC vp1 <> vp_NVMAC vp2.
Proof.
  intros Hr Hc1 Hv1 Hc2 Hv2 Hne Hk. pose proof (tc_reachable_ok _ _ Hr) as HI.
  assert (HL1 : live_of (tc_containers s) (cid1, iface1) = Some vp1) by (unfold live_of; simpl; by rewrite Hc1).
  assert (HL2 : live_of (tc_containers s) (cid2, iface2) = Some vp2) by (unfold live_of; simpl; by rewrite Hc2).
  destruct (ti_pair _ _ HI _ _ HL1) as [_ _ Hr1 Hm1 Hp1], (ti_pair _ _ HI _ _ HL2) as [_ _ Hr2 Hm2 _].
  split; [auto|]. rewrite Hm1, Hm2. intros E. apply app_inv_head in E.
  apply index_bytes_inj in E; [|done..]. apply Hk. by eapply (ti_unique _ _ HI).
Qed.

(** ** What a start deletes *)

(** A property of the state that the numbers and the ports do not affect. *)
Class NotNumbers (P : TCTrafficCapture -> Prop) : Prop :=
  not_numbers : forall s s',
    tc_hist s' = tc_hist s -> tc_containers s' = tc_containers s -> P s -> P s'.

#[export] Instance ran_quiet a : Quiet (fun s => a ∈ tc_hist s).
Proof. intros b s H. cbn. set_solver. Qed.

Section history.
Context (P : TCTrafficCapture -> Prop) `{!Quiet P} `{!NotNumbers P}.

Lemma runs_set (f : TCTrafficCapture -> gset Z) (g : TCTrafficCapture -> gmap string TCPortInfo) :
  runs P (modify_st (fun s => tc_set (tc_containers s) (f s) (g s) s)).
Proof. apply triple_modify. intros s Hs. by apply (not_numbers s). Qed.

Lemma runs_getAvailableIndex : runs P getAvailableIndex.
Proof.
  apply runs_read. intros s. apply runs_bind; [apply runs_set|]. intros ?. apply runs_ret.
Qed.

Lemma runs_getAvailablePref i : runs P (getAvailablePref i).
Proof.
  apply runs_read. intros s. cbv zeta.
  case_decide; (apply runs_bind; [apply runs_set|]; intros ?; apply runs_ret).
Qed.

Lemma runs_createVethPair pid iface : runs P (createVethPair world parseMAC pid iface).
Proof.
  unfold createVethPair. apply runs_bind; [apply runs_getInterfaceMAC, _|]. intros [mac|err]; [|apply runs_ret].
  apply runs_bind; [apply runs_getAvailableIndex|]. intros i.
  apply runs_bind; [apply runs_renameInterface, _|]. intros [e|]; [apply runs_ret|].
  apply runs_bind; [apply runs_createVethPairInNamespace, _|]. intros [e|]; [apply runs_ret|].
  apply runs_bind; [apply runs_configureVethPair, _|]. intros ?. apply runs_ret.
Qed.

Lemma runs_setupTCRules vp c : runs P (setupTCRules world vp c).
Proof.
  unfold setupTCRules. do 2 (apply runs_bind; [apply runs_addQDiscInNamespace, _|]; intros ?).
  apply runs_bind; [apply runs_addQDisc, _|]; intros ?.
  apply runs_bind; [apply runs_getAvailablePref|]. intros pref. destruct (pref =? 0); [apply runs_ret|].
  apply runs_bind; [apply runs_set|]. intros ?.
  apply runs_bind; [apply runs_run_rules, _|]. intros ?. apply runs_ret.
Qed.

Lemma runs_capture_ifaces pid ifaces c : runs P (capture_ifaces world parseMAC pid ifaces c).
Proof.
  revert c. induction ifaces as [|iface ifaces IH]; intros c; simpl; [apply runs_ret|].
  case_bool_decide; [apply IH|]. apply runs_bind; [apply runs_createVethPair|].
  intros [vp|err]; [|apply IH]. apply runs_bind; [apply runs_setupTCRules|]. intros ?. apply IH.
Qed.
End history.

Lemma for_each_ran {A} (l : list A) (body : A -> TCM unit) (x : A) a :
  x ∈ l -> (forall y, runs (fun s => a ∈ tc_hist s) (body y)) ->
  (forall s, a ∈ tc_hist (body x s).2) -> forall s, a ∈ tc_hist (for_each l body s).2.
Proof.
  intros Hx Hkeep Hrun. induction l as [|y l IH]; [by apply not_elem_of_nil in Hx|]. intros s. simpl.
  unfold mbind, SM_bind. destruct (body y s) as [u s1] eqn:Hy.
  apply elem_of_cons in Hx as [->|Hx]; [|by apply IH].
  apply (runs_for_each _ l body Hkeep s1). specialize (Hrun s). by rewrite Hy in Hrun.
Qed.

(** The host's [nv-] interfaces are all deleted, but the bridge. *)
Lemma cleanupContainerInterfaces_deletes pid iface out1 out2 :
  (forall h, world h (Sh (nsenter pid +:+ "ip link show")) = (None, out1)) ->
  (forall h, world h (Sh "ip link show") = (None, out2)) ->
  iface ∈ nv_interfaces out2 -> iface <> NV_BRIDGE_NAME ->
  forall s, Sh ("ip link del " +:+ iface) ∈ tc_hist (cleanupContainerInterfaces world pid s).2.
Proof.
  intros H1 H2 Hin Hne s.
  unfold cleanupContainerInterfaces, command_output, act, mbind, SM_bind. rewrite H1. cbn -[for_each].
  destruct (for_each _ _ _) as [u s1]. rewrite H2. cbn -[for_each].
  eapply (for_each_ran _ _ iface); [done| |].
  - intros y. case_bool_decide; [apply runs_ret|].
    apply runs_bind; [apply runs_executeCommand, _|]. intros ?. apply runs_ret.
  - intros s2. rewrite bool_decide_eq_false_2 by done. cbn. set_solver.
Qed.

(** Starting the capture of one container deletes the host side of the
    pairs of the containers captured before: when the host lists such a
    pair's interface, the command that deletes it is among those the start
    runs, and the capture still counts the pair as live. *)
Theorem start_deletes_captured_pairs s cid name pid other c iface vp out1 out2 :
  tc_bridgeReady s = true -> tc_containers s !! cid = None ->
  tc_containers s !! other = Some c -> tci_VethPairs c !! iface = Some vp ->
  (forall h, world h (Sh (nsenter pid +:+ "ip link show")) = (None, out1)) ->
  (forall h, world h (Sh "ip link show") = (None, out2)) ->
  vp_InternalName vp ∈ nv_interfaces out2 -> vp_InternalName vp <> NV_BRIDGE_NAME ->
  let r := StartContainerCapture world parseMAC cid name pid s in
  r.1 = None /\ Sh ("ip link del " +:+ vp_InternalName vp) ∈ tc_hist r.2 /\
  tc_containers r.2 !! other = Some c.
Proof.
  intros Hready Hnew Hother Hvp H1 H2 Hin Hne.
  set (Q := fun s' => Sh ("ip link del " +:+ vp_InternalName vp) ∈ tc_hist s' ).
  assert (Ht : triple (fun s' => s' = s) (StartContainerCapture world parseMAC cid name pid)
    (fun r s' => r = None /\ Q s' /\ tc_containers s' !! other = Some c)); [|by apply Ht].
  unfold StartContainerCapture. apply triple_read. rewrite Hready, Hnew. simpl.
  set (F := fun s' => Q s' /\ tc_containers s' = tc_containers s).
  assert (Quiet F) by (intros a s' [HQ Hc]; split; [by apply ran_quiet|done]).
  assert (NotNumbers F) by (intros s1 s2 Hh Hcs [HQ Hc]; split; [unfold Q; by rewrite Hh|by rewrite Hcs]).
  eapply (triple_bind _ _ (fun _ => F)).
  { intros s' ->. split; [by eapply cleanupContainerInterfaces_deletes|].
    assert (Quiet (fun s' => tc_containers s' = tc_containers s)) by (by intros a s').
    by apply (runs_cleanupContainerInterfaces world (fun s' => tc_containers s' = tc_containers s) pid s). }
  intros ?. eapply (triple_bind _ _ (fun r s' => (exists l, r = inl l) /\ F s')).
  { intros s' HF. split; [|by apply runs_getContainerInterfaces].
    unfold getContainerInterfaces, command_output, act, mbind, SM_bind. rewrite H1. cbn. eauto. }
  intros [ifaces|err]; [|by intros s' [[l ?] _]].
  eapply (triple_bind _ _ (fun _ => F)).
  { eapply triple_weaken; [|apply (runs_capture_ifaces F)|done]. by intros s' [_ ?]. }
  intros c'. eapply (triple_bind _ _ (fun _ s' => Q s' /\ tc_containers s' !! other = Some c)).
  - apply triple_modify. intros s' [HQ Hc]. split; [done|]. cbn. rewrite Hc.
    rewrite lookup_insert_ne; [done|congruence].
  - intros ?. by apply triple_ret.
Qed.
End execution.

(** ** Cleaning up *)

Definition M_tc : nat := 4.

Definition locks_StopContainerCapture : list lock_op := writes M_tc.

(** The lock operations of [Cleanup]: its own, and those of the stop of each
    captured container between them. *)
Definition locks_Cleanup (s : TCTrafficCapture) : list lock_op :=
  locks_around M_tc locks_StopContainerCapture (size (tc_containers s)).

(** [Cleanup] never returns when a container is still captured: it takes
    the capture's lock and then stops the container, which takes the lock
    again; with no container captured its calls of the lock finish. *)
Theorem Cleanup_deadlock world s :
  tc_Cleanup world s = None <->
  exists ts, rtc lock_step [spawn (locks_Cleanup s)] ts /\ deadlocked ts.
Proof.
  unfold locks_Cleanup. rewrite relock_deadlock, map_size_empty_iff. unfold tc_Cleanup. case_decide; naive_solver.
Qed.

(** ** Witnesses *)

Definition ex_listing : string :=
  "1: lo: <LOOPBACK> mtu 65536" +:+ newline +:+ "2: eth0@if7: <BROADCAST,UP> mtu 1500".
Definition ex_host : string :=
  "5: nv-br: <BROADCAST> mtu 1500" +:+ newline +:+ "7: nv-in-eth0@if2: <BROADCAST> mtu 1500".

(** Every command succeeds; the bridge is new; containers have an [eth0]. *)
Definition ex_world (hist : list action) (a : action) : go_error * string :=
  match a with
  | LinkByName _ => (Some "Link not found", "")
  | Sh cmd =>
      (None, if bool_decide (cmd = "ip link show") then ex_host
             else if Contains cmd "ip link show" then ex_listing
             else if Contains cmd "/address" then "02:42:ac:11:00:02" +:+ newline
             else if Contains cmd "ip addr show" then "    inet 172.17.0.2/16 scope global eth0"
             else if Contains cmd "ip route show" then "default via 172.17.0.1 dev eth0"
             else "")
  | _ => (None, "")
  end.
Definition ex_parseMAC (s : string) : list Z + string := inl [2; 66; 172; 17; 0; 2].

Definition ex_tc0 : TCTrafficCapture := NewTCTrafficCapture ex_world [].
Definition ex_tc1 : TCTrafficCapture := (StartContainerCapture ex_world ex_parseMAC "c1" "web" 100 ex_tc0).2.
Definition ex_tc2 : TCTrafficCapture := (StartContainerCapture ex_world ex_parseMAC "c2" "db" 200 ex_tc1).2.

Definition ex_pair (s : TCTrafficCapture) (cid iface : string) : option VethPairInfo :=
  c ← tc_containers s !! cid; tci_VethPairs c !! iface.

Definition ex_container (s : TCTrafficCapture) (cid : string) : TCContainerInfo :=
  default {| tci_ID := ""; tci_Name := ""; tci_Pid := 0; tci_VethPairs := ∅; tci_TCRules := [] |}
    (tc_containers s !! cid).
Definition ex_vp (s : TCTrafficCapture) (cid : string) : VethPairInfo :=
  default {| vp_OriginalName := ""; vp_InternalName := ""; vp_ExternalName := ""; vp_OriginalMAC := [];
    vp_NVMAC := []; vp_BroadcastMAC := []; vp_Index := 0 |} (tci_VethPairs (ex_container s cid) !! "eth0").

Lemma ex_tc2_reachable : rtc (tc_step ex_world ex_parseMAC) ex_tc0 ex_tc2.
Proof.
  eapply rtc_l; [apply (tc_step_start _ _ "c1" "web" 100)|].
  eapply rtc_l; [apply (tc_step_start _ _ "c2" "db" 200)|]. reflexivity.
Qed.

Lemma captured_macs_distinct_witness :
  vp_Index (ex_vp ex_tc2 "c1") ∈ tc_prefs ex_tc2 /\
  vp_NVMAC (ex_vp ex_tc2 "c1") <> vp_NVMAC (ex_vp ex_tc2 "c2").
Proof.
  apply (captured_macs_distinct ex_world ex_parseMAC [] ex_tc2 "c1" "c2"
    (ex_container ex_tc2 "c1") (ex_container ex_tc2 "c2") "eth0" "eth0").
  - exact ex_tc2_reachable.
  - vm_compute. reflexivity.
  - vm_compute. reflexivity.
  - vm_compute. reflexivity.
  - vm_compute. reflexivity.
  - vm_compute. discriminate.
  - discriminate.
Defined.

Lemma start_deletes_captured_pairs_witness :
  Sh "ip link del nv-in-eth0" ∈ tc_hist ex_tc2 /\ tc_containers ex_tc2 !! "c1" = Some (ex_container ex_tc1 "c1").
Proof.
  destruct (start_deletes_captured_pairs ex_world ex_parseMAC ex_tc1 "c2" "db" 200 "c1"
    (ex_container ex_tc1 "c1") "eth0" (ex_vp ex_tc1 "c1") ex_listing ex_host) as (_ & H & H').
  - vm_compute. reflexivity.
  - vm_compute. reflexivity.
  - vm_compute. reflexivity.
  - vm_compute. reflexivity.
  - intros h. vm_compute. reflexivity.
  - intros h. vm_compute. reflexivity.
  - vm_decide.
  - vm_compute. discriminate.
  - split; [exact H|exact H'].
Defined.
