(* ===== verification/NFQueue.v ===== *)
(** * Container traffic capture by NFQUEUE rules
    (micro-segment/internal/agent/network/traffic_capture.go)

    The capture the traffic-control one replaced.  Its state also keeps the
    commands that were run; [world] answers them, and [hostIface] answers
    [net.InterfaceByName]. *)

From Stdlib Require Import ZArith Lia.
From S2P Require Import Prelude StateMonad GoLib GoNet Locks TCCapture.
Local Open Scope Z_scope.

(** ** State *)

Definition NV_INPUT_CHAIN : string := "NV_INPUT".
Definition NV_OUTPUT_CHAIN : string := "NV_OUTPUT".
Definition DEFAULT_NFQUEUE_NUM : Z := 0.

Record IfaceInfo := {
  if_Name : string;
  if_MAC : list Z;
  if_IPs : list (list Z);
  if_Peer : string;
  if_InHost : bool;
}.

Record ContainerNetInfo := {
  cni_ID : string;
  cni_Name : string;
  cni_Pid : Z;
  cni_Interfaces : gmap string IfaceInfo;
  cni_Rules : list string;
}.

Record TrafficCapture := {
  nf_containers : gmap string ContainerNetInfo;
  nf_nfqueueNum : Z;
  nf_dpConnected : bool;
  nf_hist : list action;
}.

Definition nf_set_containers (cs : gmap string ContainerNetInfo) (s : TrafficCapture) : TrafficCapture := {|
  nf_containers := cs; nf_nfqueueNum := nf_nfqueueNum s; nf_dpConnected := nf_dpConnected s;
  nf_hist := nf_hist s |}.
Definition nf_log (a : action) (s : TrafficCapture) : TrafficCapture := {|
  nf_containers := nf_containers s; nf_nfqueueNum := nf_nfqueueNum s; nf_dpConnected := nf_dpConnected s;
  nf_hist := nf_hist s ++ [a] |}.
Definition add_rule (rule : string) (info : ContainerNetInfo) : ContainerNetInfo := {|
  cni_ID := cni_ID info; cni_Name := cni_Name info; cni_Pid := cni_Pid info;
  cni_Interfaces := cni_Interfaces info; cni_Rules := cni_Rules info ++ [rule] |}.
Definition set_IPs (ips : list (list Z)) (i : IfaceInfo) : IfaceInfo := {|
  if_Name := if_Name i; if_MAC := if_MAC i; if_IPs := ips; if_Peer := if_Peer i; if_InHost := if_InHost i |}.

Abbreviation NFM := (SM TrafficCapture).

Section nfqueue.
Context (world : list action -> action -> go_error * string).
Context (hostIface : list action -> string -> list Z + string).

Definition nf_executeCommand (command : string) : NFM go_error :=
  fun s => ((world (nf_hist s) (Sh command)).1, nf_log (Sh command) s).

Definition nf_command_output (command : string) : NFM (string + string) :=
  fun s => let r := world (nf_hist s) (Sh command) in
    (match r.1 with Some err => inr err | None => inl r.2 end, nf_log (Sh command) s).

(** ** The chains *)

Definition init_commands : list string :=
  ["iptables -t filter -N " +:+ NV_INPUT_CHAIN +:+ " 2>/dev/null || true";
   "iptables -t filter -N " +:+ NV_OUTPUT_CHAIN +:+ " 2>/dev/null || true";
   "iptables -t filter -C INPUT -j " +:+ NV_INPUT_CHAIN +:+
     " 2>/dev/null || iptables -t filter -I INPUT -j " +:+ NV_INPUT_CHAIN;
   "iptables -t filter -C OUTPUT -j " +:+ NV_OUTPUT_CHAIN +:+
     " 2>/dev/null || iptables -t filter -I OUTPUT -j " +:+ NV_OUTPUT_CHAIN;
   "iptables -t filter -A " +:+ NV_INPUT_CHAIN +:+ " -j RETURN 2>/dev/null || true";
   "iptables -t filter -A " +:+ NV_OUTPUT_CHAIN +:+ " -j RETURN 2>/dev/null || true"].

Definition run_all (commands : list string) : NFM unit :=
  for_each commands (fun cmd => _ ← nf_executeCommand cmd; mret tt).

Definition initIptablesChains : NFM go_error := _ ← run_all init_commands; mret None.

Definition NewTrafficCapture (hist : list action) : TrafficCapture :=
  (initIptablesChains {| nf_containers := ∅; nf_nfqueueNum := DEFAULT_NFQUEUE_NUM;
     nf_dpConnected := false; nf_hist := hist |}).2.

(** ** A container's interfaces *)

(** The MAC address is that of the host's interface of that name. *)
Definition nf_getInterfaceMAC (ifaceName : string) : NFM (list Z + string) :=
  fun s => (hostIface (nf_hist s) ifaceName, s).

(** The names are those of the traffic-control capture's parser. *)
Fixpoint ifaces_of_names (names : list string) : NFM (list IfaceInfo) :=
  match names with
  | [] => mret []
  | n :: names' =>
      mac ← nf_getInterfaceMAC n;
      rest ← ifaces_of_names names';
      mret ({| if_Name := n; if_MAC := match mac with inl m => m | inr _ => [] end; if_IPs := [];
               if_Peer := ""; if_InHost := false |} :: rest)
  end.

Definition parseNetworkInterfaces (output : string) : NFM (list IfaceInfo) :=
  ifaces_of_names (parse_interfaces output).

Definition ips_of_lines (lines : list string) : list (list Z) :=
  omap (fun line => let line := TrimSpace line in
    if HasPrefix line "inet " then
      match Fields line with
      | _ :: p1 :: _ =>
          match head (Split p1 "/") with
          | Some ipStr => let ip := ParseIP ipStr in if bool_decide (ip = []) then None else Some ip
          | None => None
          end
      | _ => None
      end
    else None) lines.

Definition getInterfaceIPs (pid : Z) (ifaceName : string) : NFM (list (list Z) + string) :=
  r ← nf_command_output (nsenter pid +:+ "ip addr show " +:+ ifaceName);
  mret (match r with inr err => inr err | inl out => inl (ips_of_lines (Split out newline)) end).

Fixpoint with_ips (pid : Z) (ifaces : list IfaceInfo) (m : gmap string IfaceInfo)
  : NFM (gmap string IfaceInfo) :=
  match ifaces with
  | [] => mret m
  | i :: ifaces' =>
      if bool_decide (if_Name i = "lo") then with_ips pid ifaces' m
      else
        ips ← getInterfaceIPs pid (if_Name i);
        with_ips pid ifaces' (<[if_Name i := set_IPs (match ips with inl l => l | inr _ => [] end) i]> m)
  end.

Definition getContainerNetworkInfo (containerID containerName : string) (pid : Z)
  : NFM (ContainerNetInfo + string) :=
  r ← nf_command_output (nsenter pid +:+ "ip link show");
  match r with
  | inr err => mret (inr ("failed to get container interfaces: " +:+ err))
  | inl output =>
      interfaces ← parseNetworkInterfaces output;
      m ← with_ips pid interfaces ∅;
      mret (inl {| cni_ID := containerID; cni_Name := containerName; cni_Pid := pid;
                   cni_Interfaces := m; cni_Rules := [] |})
  end.

(** ** The rules *)

Definition nf_rule (pid : Z) (chain flag ifaceName : string) (num : Z) : string :=
  nsenter pid +:+ "iptables -I " +:+ chain +:+ " " +:+ flag +:+ " " +:+ ifaceName +:+
  " -j NFQUEUE --queue-num " +:+ fmt_int num +:+ " --queue-bypass".

Definition nf_rules (pid : Z) (ifaceName : string) (num : Z) : list string :=
  [nf_rule pid NV_INPUT_CHAIN "-i" ifaceName num; nf_rule pid NV_OUTPUT_CHAIN "-o" ifaceName num].

(** A rule is saved in the entry whose container id is the interface's name. *)
Definition save_rule (ifaceName rule : string) (s : TrafficCapture) : TrafficCapture :=
  nf_set_containers (alter (add_rule rule) ifaceName (nf_containers s)) s.

Fixpoint run_nf_rules (ifaceName : string) (rules : list string) : NFM go_error :=
  match rules with
  | [] => mret None
  | rule :: rules' =>
      err ← nf_executeCommand rule;
      match err with
      | Some err => mret (Some ("failed to execute rule " +:+ rule +:+ ": " +:+ err))
      | None => _ ← modify_st (save_rule ifaceName rule); run_nf_rules ifaceName rules'
      end
  end.

Definition setupNFQueueRules (ifaceName : string) (iface : IfaceInfo) (pid : Z) : NFM go_error :=
  s ← get_st;
  run_nf_rules (if_Name iface) (nf_rules pid ifaceName (nf_nfqueueNum s)).

(** ** Start and stop *)

(** [ranges]: the order in which the map of interfaces is visited. *)
Definition nf_StartContainerCapture (ranges : gmap string IfaceInfo -> list (string * IfaceInfo))
    (containerID containerName : string) (pid : Z) : NFM go_error :=
  r ← getContainerNetworkInfo containerID containerName pid;
  match r with
  | inr err => mret (Some ("failed to get container network info: " +:+ err))
  | inl netInfo =>
      _ ← for_each (ranges (cni_Interfaces netInfo)) (fun kv =>
            _ ← setupNFQueueRules kv.1 kv.2 pid; mret tt);
      _ ← modify_st (fun s => nf_set_containers (<[containerID := netInfo]> (nf_containers s)) s);
      mret None
  end.

Definition nf_StopContainerCapture (containerID : string) : NFM go_error :=
  s ← get_st;
  match nf_containers s !! containerID with
  | None => mret (Some ("container " +:+ containerID +:+ " not found"))
  | Some netInfo =>
      _ ← run_all ((fun rule => Replace1 (Replace1 rule "-I " "-D ") "-A " "-D ") <$> cni_Rules netInfo);
      _ ← modify_st (fun s => nf_set_containers (delete containerID (nf_containers s)) s);
      mret None
  end.

Definition nf_SetDPConnected (connected : bool) : NFM unit :=
  modify_st (fun s => {| nf_containers := nf_containers s; nf_nfqueueNum := nf_nfqueueNum s;
    nf_dpConnected := connected; nf_hist := nf_hist s |}).

Fixpoint nf_GetCapturedContainers (ord : list (string * ContainerNetInfo)) : outcome (list string) :=
  match ord with
  | [] => Done []
  | (id, info) :: ord' =>
      short ← slice12 id;
      rest ← nf_GetCapturedContainers ord';
      mret ((cni_Name info +:+ " (" +:+ short +:+ ")") :: rest)
  end.

Definition cleanup_commands : list string :=
  ["iptables -t filter -D INPUT -j " +:+ NV_INPUT_CHAIN +:+ " 2>/dev/null || true";
   "iptables -t filter -D OUTPUT -j " +:+ NV_OUTPUT_CHAIN +:+ " 2>/dev/null || true";
   "iptables -t filter -F " +:+ NV_INPUT_CHAIN +:+ " 2>/dev/null || true";
   "iptables -t filter -F " +:+ NV_OUTPUT_CHAIN +:+ " 2>/dev/null || true";
   "iptables -t filter -X " +:+ NV_INPUT_CHAIN +:+ " 2>/dev/null || true";
   "iptables -t filter -X " +:+ NV_OUTPUT_CHAIN +:+ " 2>/dev/null || true"].

(** As with the other capture, [None] when a container is captured: the stop
    takes the lock [Cleanup] holds. *)
Definition nf_Cleanup (s : TrafficCapture) : option (go_error * TrafficCapture) :=
  if decide (nf_containers s = ∅) then Some ((_ ← run_all cleanup_commands; mret None) s) else None.
End nfqueue.

Definition M_nf : nat := 5.
Definition nf_locks_Cleanup (s : TrafficCapture) : list lock_op :=
  locks_around M_nf (writes M_nf) (size (nf_containers s)).

(** ** What a start and a stop run *)

Section nfqueue_props.
Context (world : list action -> action -> go_error * string).
Context (hostIface : list action -> string -> list Z + string).

(** A property that more commands and changes of the saved containers keep:
    that a command was run, and the queue number. *)
Class Stays (P : TrafficCapture -> Prop) : Prop := {
  stays_log : forall a s, P s -> P (nf_log a s);
  stays_containers : forall cs s, P s -> P (nf_set_containers cs s);
}.

Definition ran (a : action) (s : TrafficCapture) : Prop := a ∈ nf_hist s.
#[export] Instance ran_stays a : Stays (ran a).
Proof. split; intros; unfold ran in *; cbn; set_solver. Qed.
#[export] Instance num_stays n : Stays (fun s => nf_nfqueueNum s = n).
Proof. by split. Qed.

Section stays.
Context (P : TrafficCapture -> Prop) `{!Stays P}.

Lemma runs_nf_executeCommand cmd : runs P (nf_executeCommand world cmd).
Proof. intros s Hs. by apply stays_log. Qed.

Lemma runs_run_nf_rules ifaceName rules : runs P (run_nf_rules world ifaceName rules).
Proof.
  induction rules as [|rule rules IH]; simpl; [apply runs_ret|].
  apply runs_bind; [apply runs_nf_executeCommand|]. intros [err|]; [apply runs_ret|].
  apply runs_bind; [|by intros ?]. apply triple_modify. intros s Hs. by apply stays_containers.
Qed.

Lemma runs_setupNFQueueRules ifaceName iface pid : runs P (setupNFQueueRules world ifaceName iface pid).
Proof. apply runs_read. intros s. apply runs_run_nf_rules. Qed.

Lemma runs_setup_all (l : list (string * IfaceInfo)) pid :
  runs P (for_each l (fun kv => _ ← setupNFQueueRules world kv.1 kv.2 pid; mret tt)).
Proof.
  apply runs_for_each. intros kv. apply runs_bind; [apply runs_setupNFQueueRules|]. intros ?. apply runs_ret.
Qed.

Lemma runs_with_ips pid ifaces m : runs P (with_ips world pid ifaces m).
Proof.
  revert m. induction ifaces as [|i ifaces IH]; intros m; simpl; [apply runs_ret|].
  case_bool_decide; [apply IH|]. apply runs_bind; [|by intros ?]. unfold getInterfaceIPs.
  apply runs_bind; [intros s Hs; by apply stays_log|]. intros ?. apply runs_ret.
Qed.

Lemma runs_parse output : runs P (parseNetworkInterfaces hostIface output).
Proof.
  unfold parseNetworkInterfaces. induction (parse_interfaces output) as [|n names IH]; simpl; [apply runs_ret|].
  apply runs_bind; [by intros s|]. intros ?. apply runs_bind; [done|]. intros ?. apply runs_ret.
Qed.

Lemma runs_getContainerNetworkInfo id name pid :
  runs P (getContainerNetworkInfo world hostIface id name pid).
Proof.
  unfold getContainerNetworkInfo. apply runs_bind; [intros s Hs; by apply stays_log|].
  intros [out|err]; [|apply runs_ret]. apply runs_bind; [apply runs_parse|]. intros ifaces.
  apply runs_bind; [apply runs_with_ips|]. intros m. apply runs_ret.
Qed.
End stays.

(** The first rule of each interface is run. *)
Lemma run_nf_rules_first ifaceName rule rules s :
  ran (Sh rule) (run_nf_rules world ifaceName (rule :: rules) s).2.
Proof.
  simpl. unfold mbind, SM_bind. simpl.
  assert (Hr : ran (Sh rule) (nf_log (Sh rule) s)) by (unfold ran; cbn; set_solver).
  destruct (world (nf_hist s) (Sh rule)).1 as [err|]; [exact Hr|]. simpl.
  apply (runs_run_nf_rules (ran (Sh rule)) ifaceName rules). by apply stays_containers.
Qed.

Lemma setup_all_ran l pid s k i :
  (k, i) ∈ l ->
  ran (Sh (nf_rule pid NV_INPUT_CHAIN "-i" k (nf_nfqueueNum s)))
    (for_each l (fun kv => _ ← setupNFQueueRules world kv.1 kv.2 pid; mret tt) s).2.
Proof.
  revert s. induction l as [|[k' i'] l IH]; intros s Hin; [by apply not_elem_of_nil in Hin|].
  simpl. unfold mbind, SM_bind.
  destruct (setupNFQueueRules world k' i' pid s) as [e s1] eqn:Hs1. simpl.
  assert (Hn : nf_nfqueueNum s1 = nf_nfqueueNum s).
  { pose proof (runs_setupNFQueueRules (fun s1 => nf_nfqueueNum s1 = nf_nfqueueNum s) k' i' pid s eq_refl) as H.
    by rewrite Hs1 in H. }
  apply elem_of_cons in Hin as [[= -> ->]|Hin].
  - apply (runs_setup_all _ l pid s1). pose proof (run_nf_rules_first (if_Name i')
      (nf_rule pid NV_INPUT_CHAIN "-i" k' (nf_nfqueueNum s))
      [nf_rule pid NV_OUTPUT_CHAIN "-o" k' (nf_nfqueueNum s)] s) as H.
    change (run_nf_rules world (if_Name i') _ s) with (setupNFQueueRules world k' i' pid s) in H.
    by rewrite Hs1 in H.
  - rewrite <- Hn. by apply IH.
Qed.

(** The rules kept for a container that was just started are none. *)
Lemma getContainerNetworkInfo_rules id name pid s info :
  (getContainerNetworkInfo world hostIface id name pid s).1 = inl info -> cni_Rules info = [].
Proof.
  unfold getContainerNetworkInfo, mbind, SM_bind, nf_command_output. simpl.
  destruct (world (nf_hist s) _).1; [done|].
  destruct (parseNetworkInterfaces hostIface _ _) as [l s1].
  destruct (with_ips world pid l ∅ s1) as [m s2]. by intros [= <-].
Qed.

(** A start and the stop that follows leave the NFQUEUE rules of a
    container behind.  The start inserts a rule for each of its interfaces,
    but saves it under the interface's name instead of the container's id; the
    stop succeeds and forgets the container without having run one command. *)
Theorem nfqueue_rules_leak ranges id name pid s s1 :
  (forall m, visits (ranges m) m) ->
  nf_StartContainerCapture world hostIface ranges id name pid s = (None, s1) ->
  exists info, nf_containers s1 !! id = Some info /\
  (forall k i, cni_Interfaces info !! k = Some i ->
    ran (Sh (nf_rule pid NV_INPUT_CHAIN "-i" k (nf_nfqueueNum s))) s1) /\
  let '(err, s2) := nf_StopContainerCapture world id s1 in
  err = None /\ nf_containers s2 !! id = None /\ nf_hist s2 = nf_hist s1.
Proof.
  intros Hv Hs. unfold nf_StartContainerCapture, mbind, SM_bind in Hs.
  pose proof (getContainerNetworkInfo_rules id name pid s) as Hrules.
  pose proof (runs_getContainerNetworkInfo (fun s' => nf_nfqueueNum s' = nf_nfqueueNum s) id name pid s eq_refl) as Hnum.
  destruct (getContainerNetworkInfo world hostIface id name pid s) as [[info|err] s0]; [|by simplify_eq].
  specialize (Hrules info eq_refl). simpl in Hnum.
  pose proof (setup_all_ran (ranges (cni_Interfaces info)) pid s0) as Hran.
  unfold mbind, SM_bind in Hran.
  destruct (for_each _ _ s0) as [u s0'] eqn:Hf. unfold modify_st, mret, SM_ret in Hs. injection Hs as <-.
  exists info. cbn [nf_containers nf_set_containers]. rewrite lookup_insert_eq. split; [done|]. split.
  - intros k i Hk. rewrite <- Hnum. apply (Hran k i). by apply (visits_elem_of _ _ _ _ (Hv _)).
  - unfold nf_StopContainerCapture, mbind, SM_bind, get_st. simpl. rewrite lookup_insert_eq, Hrules. simpl.
    by rewrite lookup_delete_eq.
Qed.

(** [Cleanup] hangs exactly when a container is captured. *)
Lemma nf_Cleanup_deadlock s :
  nf_Cleanup world s = None <->
  exists ts, rtc lock_step [spawn (nf_locks_Cleanup s)] ts /\ deadlocked ts.
Proof.
  unfold nf_locks_Cleanup. rewrite relock_deadlock, map_size_empty_iff. unfold nf_Cleanup. case_decide; naive_solver.
Qed.
End nfqueue_props.

(** ** Witnesses *)

Definition ex_hostIface (hist : list action) (name : string) : list Z + string := inr "no such network interface".
Definition ex_nf : TrafficCapture := NewTrafficCapture ex_world [].
Definition ex_nf1 : TrafficCapture :=
  (nf_StartContainerCapture ex_world ex_hostIface map_to_list "c1" "web" 100 ex_nf).2.

Lemma nfqueue_rules_leak_witness :
  ran (Sh (nf_rule 100 NV_INPUT_CHAIN "-i" "eth0" 0)) ex_nf1 /\
  nf_hist (nf_StopContainerCapture ex_world "c1" ex_nf1).2 = nf_hist ex_nf1.
Proof.
  destruct (nfqueue_rules_leak ex_world ex_hostIface map_to_list "c1" "web" 100 ex_nf ex_nf1)
    as (info & Hi & Hr & Hs).
  - intros m. apply visits_refl.
  - vm_compute. reflexivity.
  - split.
    + vm_compute in Hi. injection Hi as <-. eapply (Hr "eth0"). reflexivity.
    + destruct (nf_StopContainerCapture ex_world "c1" ex_nf1) as [err s2]. apply Hs.
Defined.
