(* ===== verification/Monitor.v ===== *)
(** * The container monitor and the network manager
    (micro-segment/internal/agent/network/container_monitor.go and manager.go)

    The monitor turns what Docker says of the containers into starts and
    stops of the traffic capture; the manager owns the two and their life
    cycle.  Docker is a parameter: its answers may depend on whether the
    monitor's context is cancelled and on the commands run so far. *)

From Stdlib Require Import ZArith Lia.
From S2P Require Import Prelude StateMonad GoLib GoNet Locks TCCapture.
Local Open Scope Z_scope.

(** ** Docker's answers

    The fields of [types.Container] and [types.ContainerJSON] the code reads. *)
Record Container := {
  ct_ID : string;
  ct_Names : list string;
  ct_Image : string;
  ct_Labels : gmap string string;
  ct_State : string;
}.

Record ContainerJSON := {
  cj_Name : string;
  cj_Image : string;                  (* Config.Image *)
  cj_Labels : gmap string string;     (* Config.Labels *)
  cj_Privileged : bool;               (* HostConfig.Privileged *)
  cj_NetworkMode : string;            (* HostConfig.NetworkMode *)
  cj_Pid : Z;                         (* State.Pid *)
}.

Record Docker := {
  docker_list : bool -> list action -> list Container + string;
  docker_inspect : bool -> list action -> string -> ContainerJSON + string;
}.

Record ContainerEvent := {
  ce_Type : string;
  ce_ContainerID : string;
  ce_Name : string;
  ce_Image : string;
  ce_Labels : gmap string string;
  ce_Pid : Z;
}.

(** ** The monitor *)

Section monitor.
Context (world : list action -> action -> go_error * string) (parseMAC : string -> list Z + string).
Context (docker : Docker).

Definition systemImages : list string :=
  ["k8s.gcr.io/pause"; "registry.k8s.io/pause"; "gcr.io/google_containers/pause"; "quay.io/coreos/etcd";
   "calico/node"; "calico/cni"; "flannel/flannel"; "weaveworks/weave"].

Definition shouldSkipContainer (inspect : ContainerJSON) : bool :=
  Contains (cj_Image inspect) "pause" ||
  existsb (fun sysImage => Contains (cj_Image inspect) sysImage) systemImages ||
  cj_Privileged inspect || bool_decide (cj_NetworkMode inspect = "host").

(** [ord1], [ord2]: the orders of the ranges of a stop.  The log line reads
    the first twelve characters of the id. *)
Definition handleContainerEvent (ord1 ord2 : list (string * VethPairInfo)) (event : ContainerEvent)
  : TCM (outcome unit) :=
  match slice12 (ce_ContainerID event) with
  | Panicked p => mret (Panicked p)
  | Done _ =>
      if bool_decide (ce_Type event = "start") then
        if 0 <? ce_Pid event then
          _ ← StartContainerCapture world parseMAC (ce_ContainerID event) (ce_Name event) (ce_Pid event);
          mret (Done tt)
        else mret (Done tt)
      else if bool_decide (ce_Type event = "stop") || bool_decide (ce_Type event = "die") then
        _ ← StopContainerCapture world ord1 ord2 (ce_ContainerID event);
        mret (Done tt)
      else mret (Done tt)
  end.

Definition inspect_container (cancelled : bool) (id : string) : TCM (ContainerJSON + string) :=
  s ← get_st; mret (docker_inspect docker cancelled (tc_hist s) id).

(** [event.Action] and [event.Actor.ID] of a Docker event. *)
Definition processDockerEvent (cancelled : bool) (ord1 ord2 : list (string * VethPairInfo))
    (act_ id : string) : TCM (outcome unit) :=
  match slice12 id with
  | Panicked p => mret (Panicked p)
  | Done _ =>
      r ← inspect_container cancelled id;
      match r with
      | inr _ => mret (Done tt)
      | inl inspect =>
          if shouldSkipContainer inspect then mret (Done tt)
          else handleContainerEvent ord1 ord2 {|
            ce_Type := act_; ce_ContainerID := id; ce_Name := TrimPrefix (cj_Name inspect) "/";
            ce_Image := cj_Image inspect; ce_Labels := cj_Labels inspect; ce_Pid := cj_Pid inspect |}
      end
  end.

(** [container.Names[0]] panics when there is no name. *)
Definition container_event (type : string) (container : Container) (inspect : ContainerJSON)
  : outcome ContainerEvent :=
  match ct_Names container with
  | [] => Panicked "index out of range"
  | name :: _ => Done {|
      ce_Type := type; ce_ContainerID := ct_ID container; ce_Name := TrimPrefix name "/";
      ce_Image := ct_Image container; ce_Labels := ct_Labels container; ce_Pid := cj_Pid inspect |}
  end.

Fixpoint scan_containers (cancelled : bool) (containers : list Container) : TCM (outcome unit) :=
  match containers with
  | [] => mret (Done tt)
  | container :: rest =>
      if bool_decide (ct_State container = "running") then
        r ← inspect_container cancelled (ct_ID container);
        match r with
        | inr _ => scan_containers cancelled rest
        | inl inspect =>
            if shouldSkipContainer inspect then scan_containers cancelled rest
            else match container_event "start" container inspect with
            | Panicked p => mret (Panicked p)
            | Done event =>
                r ← handleContainerEvent [] [] event;
                match r with
                | Panicked p => mret (Panicked p)
                | Done _ => scan_containers cancelled rest
                end
            end
        end
      else scan_containers cancelled rest
  end.

Definition list_containers (cancelled : bool) : TCM (list Container + string) :=
  s ← get_st; mret (docker_list docker cancelled (tc_hist s)).

Definition monitorExistingContainers (cancelled : bool) : TCM (outcome go_error) :=
  r ← list_containers cancelled;
  match r with
  | inr err => mret (Done (Some ("failed to list containers: " +:+ err)))
  | inl containers =>
      r ← scan_containers cancelled containers;
      mret (match r with Panicked p => Panicked p | Done _ => Done None end)
  end.

Definition GetContainerInfo (cancelled : bool) (containerID : string) : TCM (ContainerEvent + string) :=
  r ← inspect_container cancelled containerID;
  mret (match r with
        | inr err => inr err
        | inl inspect => inl {|
            ce_Type := "info"; ce_ContainerID := containerID; ce_Name := TrimPrefix (cj_Name inspect) "/";
            ce_Image := cj_Image inspect; ce_Labels := cj_Labels inspect; ce_Pid := cj_Pid inspect |}
        end).

(** Only reads: the answers are all asked for in the same state. *)
Fixpoint running_events (cancelled : bool) (hist : list action) (containers : list Container)
  : outcome (list ContainerEvent) :=
  match containers with
  | [] => Done []
  | container :: rest =>
      if bool_decide (ct_State container = "running") then
        match docker_inspect docker cancelled hist (ct_ID container) with
        | inr _ => running_events cancelled hist rest
        | inl inspect =>
            if shouldSkipContainer inspect then running_events cancelled hist rest
            else
              event ← container_event "running" container inspect;
              events ← running_events cancelled hist rest;
              mret (event :: events)
        end
      else running_events cancelled hist rest
  end.

Definition ListRunningContainers (cancelled : bool) : TCM (outcome (list ContainerEvent + string)) :=
  r ← list_containers cancelled;
  s ← get_st;
  mret (match r with
        | inr err => Done (inr err)
        | inl containers => events ← running_events cancelled (tc_hist s) containers; mret (inl events)
        end).
End monitor.

(** ** The manager *)

Record NetworkStats := {
  ns_CapturedContainers : Z;
  ns_ActiveRules : Z;
  ns_LastUpdate : Z;
  ns_TotalPackets : Z;
  ns_TotalBytes : Z;
}.

(** [mg_cancelled]: the monitor's context; [mg_loops]: the goroutines that
    read Docker's events. *)
Record Manager := {
  mg_tc : TCTrafficCapture;
  mg_cancelled : bool;
  mg_loops : nat;
  mg_running : bool;
  mg_stats : NetworkStats;
}.

Definition mg_set_tc (tc : TCTrafficCapture) (m : Manager) : Manager := {|
  mg_tc := tc; mg_cancelled := mg_cancelled m; mg_loops := mg_loops m; mg_running := mg_running m;
  mg_stats := mg_stats m |}.
Definition mg_set_run (running cancelled : bool) (loops : nat) (m : Manager) : Manager := {|
  mg_tc := mg_tc m; mg_cancelled := cancelled; mg_loops := loops; mg_running := running;
  mg_stats := mg_stats m |}.
Definition mg_set_stats (st : NetworkStats) (m : Manager) : Manager := {|
  mg_tc := mg_tc m; mg_cancelled := mg_cancelled m; mg_loops := mg_loops m; mg_running := mg_running m;
  mg_stats := st |}.

(** A program of the capture run by a method of the manager. *)
Definition mg_run {A} (p : TCM A) (m : Manager) : A * Manager :=
  let '(a, tc) := p (mg_tc m) in (a, mg_set_tc tc m).

Section manager.
Context (world : list action -> action -> go_error * string) (parseMAC : string -> list Z + string).
Context (docker : Docker).

(** [client]: the error of creating the Docker client. *)
Definition NewManager (client : go_error) (now : Z) (hist : list action) : Manager + string :=
  let tcCapture := NewTCTrafficCapture world hist in
  match client with
  | Some err => inr ("failed to create container monitor: failed to create docker client: " +:+ err)
  | None => inl {|
      mg_tc := tcCapture; mg_cancelled := false; mg_loops := 0; mg_running := false;
      mg_stats := {| ns_CapturedContainers := 0; ns_ActiveRules := 0; ns_LastUpdate := now;
                     ns_TotalPackets := 0; ns_TotalBytes := 0 |} |}
  end.

(** The monitor's own start logs the error of the scan and returns nil. *)
Definition mg_Start (m : Manager) : outcome (go_error * Manager) :=
  if mg_running m then Done (Some "network manager is already running", m)
  else
    let '(r, m) := mg_run (monitorExistingContainers world parseMAC docker (mg_cancelled m)) m in
    match r with
    | Panicked p => Panicked p
    | Done _ => Done (None, mg_set_run true (mg_cancelled m) (S (mg_loops m)) m)
    end.

(** [None]: the call does not return. *)
Definition mg_Stop (m : Manager) : option (go_error * Manager) :=
  if negb (mg_running m) then Some (None, m)
  else
    let m := mg_set_run true true (mg_loops m) m in
    match tc_Cleanup world (mg_tc m) with
    | None => None
    | Some (_, tc) => Some (None, mg_set_run false true (mg_loops m) (mg_set_tc tc m))
    end.

Definition mg_IsRunning (m : Manager) : bool := mg_running m.

Definition SetDPConnected (connected : bool) (m : Manager) : Manager := m.

(** [ord]: the order of the range over the captured containers. *)
Definition updateStats (now : Z) (ord : list (string * TCContainerInfo)) (m : Manager) : outcome Manager :=
  captured ← TCCapture.GetCapturedContainers ord;
  mret (mg_set_stats {|
    ns_CapturedContainers := Z.of_nat (length captured); ns_ActiveRules := ns_ActiveRules (mg_stats m);
    ns_LastUpdate := now; ns_TotalPackets := ns_TotalPackets (mg_stats m);
    ns_TotalBytes := ns_TotalBytes (mg_stats m) |} m).

Definition mg_GetStats (now : Z) (ord : list (string * TCContainerInfo)) (m : Manager)
  : outcome (NetworkStats * Manager) :=
  m ← updateStats now ord m; mret (mg_stats m, m).

(** One tick of the statistics loop; [None] when the loop returns. *)
Definition statsUpdateLoop_tick (now : Z) (ord : list (string * TCContainerInfo)) (m : Manager)
  : option (outcome Manager) :=
  if mg_IsRunning m then Some (updateStats now ord m) else None.

Definition mg_GetContainerInfo (containerID : string) (m : Manager) : (ContainerEvent + string) * Manager :=
  mg_run (GetContainerInfo docker (mg_cancelled m) containerID) m.

Definition GetRunningContainers (m : Manager) : outcome (list ContainerEvent + string) * Manager :=
  mg_run (ListRunningContainers docker (mg_cancelled m)) m.

Definition ForceStartCapture (containerID : string) (m : Manager) : go_error * Manager :=
  let '(info, m) := mg_GetContainerInfo containerID m in
  match info with
  | inr err => (Some ("failed to get container info: " +:+ err), m)
  | inl info =>
      if ce_Pid info <=? 0 then (Some ("container " +:+ containerID +:+ " has no valid PID"), m)
      else mg_run (StartContainerCapture world parseMAC containerID (ce_Name info) (ce_Pid info)) m
  end.

Definition ForceStopCapture (ord1 ord2 : list (string * VethPairInfo)) (containerID : string) (m : Manager)
  : go_error * Manager :=
  mg_run (StopContainerCapture world ord1 ord2 containerID) m.

Record NetworkTopology := {
  nt_containers : list ContainerEvent;
  nt_captured : list string;
  nt_stats : NetworkStats;
  nt_timestamp : Z;
  nt_method : string;
}.

Definition GetNetworkTopology (now : Z) (ord1 ord2 : list (string * TCContainerInfo)) (m : Manager)
  : outcome ((NetworkTopology + string) * Manager) :=
  let '(r, m) := GetRunningContainers m in
  containers ← r;
  match containers with
  | inr err => mret (inr err, m)
  | inl containers =>
      captured ← TCCapture.GetCapturedContainers ord1;
      '(st, m) ← mg_GetStats now ord2 m;
      mret (inl {| nt_containers := containers; nt_captured := captured; nt_stats := st;
                   nt_timestamp := now; nt_method := "traffic_control" |}, m)
  end.

(** The commands in order, up to the first that has to be there and is not. *)
Definition ValidateSetup (m : Manager) : outcome go_error * Manager :=
  mg_run (
    err ← executeCommand world "tc -Version";
    match err with Some err => mret (Done (Some ("tc command not available: " +:+ err))) | None =>
    err ← executeCommand world "ip -Version";
    match err with Some err => mret (Done (Some ("ip command not available: " +:+ err))) | None =>
    err ← executeCommand world "nsenter --version";
    match err with Some err => mret (Done (Some ("nsenter not available: " +:+ err))) | None =>
    _ ← executeCommand world "ethtool --version";
    r ← ListRunningContainers docker (mg_cancelled m);
    mret (r ← r; mret (match r with
                       | inr err => Some ("docker not accessible: " +:+ err)
                       | inl _ => None
                       end))
    end end end) m.

Record DebugInfo := {
  di_running : bool;
  di_captured_containers : list string;
  di_stats : NetworkStats;
  di_timestamp : Z;
  di_method : string;
  di_bridge_ready : bool;
  di_running_containers : option (list ContainerEvent);
}.

Definition GetDebugInfo (now : Z) (ord1 ord2 : list (string * TCContainerInfo)) (m : Manager)
  : outcome (DebugInfo * Manager) :=
  captured ← TCCapture.GetCapturedContainers ord1;
  '(st, m) ← mg_GetStats now ord2 m;
  let '(r, m) := GetRunningContainers m in
  containers ← r;
  mret ({| di_running := mg_running m; di_captured_containers := captured; di_stats := st;
           di_timestamp := now; di_method := "traffic_control";
           di_bridge_ready := tc_bridgeReady (mg_tc m);
           di_running_containers := match containers with inl l => Some l | inr _ => None end |}, m).
End manager.

(** ** What the capture holds after a start and after a stop *)

#[export] Instance containers_quiet cs : Quiet (fun s => tc_containers s = cs).
Proof. by intros a s. Qed.
#[export] Instance containers_not_numbers cs : NotNumbers (fun s => tc_containers s = cs).
Proof. intros s s' _ -> Hc. done. Qed.

Lemma StartContainerCapture_containers world parseMAC cid name pid s :
  let s' := (StartContainerCapture world parseMAC cid name pid s).2 in
  tc_containers s' = tc_containers s \/ exists c, tc_containers s' = <[cid := c]> (tc_containers s).
Proof.
  set (cs := tc_containers s). set (F := fun s' => tc_containers s' = cs).
  assert (Ht : triple (fun s' => s' = s) (StartContainerCapture world parseMAC cid name pid)
    (fun _ s' => tc_containers s' = cs \/ exists c, tc_containers s' = <[cid := c]> cs)); [|by apply Ht].
  unfold StartContainerCapture. apply triple_read.
  destruct (tc_bridgeReady s); simpl; [|apply triple_ret; intros ? ->; by left].
  destruct (tc_containers s !! cid) as [c|]; [apply triple_ret; intros ? ->; by left|].
  apply (triple_bind _ _ (fun _ => F)).
  { intros s' ->. by apply (runs_cleanupContainerInterfaces world F pid s). }
  intros ?. apply (triple_bind _ _ (fun _ => F)); [by apply runs_getContainerInterfaces; apply _|].
  intros [ifaces|err]; [|apply triple_ret; intros s' HF; by left].
  apply (triple_bind _ _ (fun _ => F)); [by apply runs_capture_ifaces; apply _|].
  intros c. eapply (triple_bind _ _ (fun _ s' => tc_containers s' = <[cid := c]> cs)).
  - apply triple_modify. intros s' HF. cbn. by rewrite HF.
  - intros ?. apply triple_ret. eauto.
Qed.

Lemma release_veths_containers l s :
  tc_containers (foldl (fun s vp => release_veth vp s) s l) = tc_containers s.
Proof.
  assert (Hp : forall name s, tc_containers (release_port name s) = tc_containers s).
  { intros name s'. unfold release_port. by destruct (_ !! _). }
  revert s. induction l as [|vp l IH]; intros s; [done|]. simpl. rewrite IH.
  unfold release_veth. cbn. by rewrite !Hp.
Qed.

Lemma StopContainerCapture_containers world ord1 ord2 cid s :
  tc_containers (StopContainerCapture world ord1 ord2 cid s).2 = delete cid (tc_containers s).
Proof.
  set (cs := tc_containers s). set (F := fun s' => tc_containers s' = cs).
  assert (Ht : triple (fun s' => s' = s) (StopContainerCapture world ord1 ord2 cid)
    (fun _ s' => tc_containers s' = delete cid cs)); [|by apply Ht].
  unfold StopContainerCapture. apply triple_read.
  destruct (tc_containers s !! cid) as [c|] eqn:Hc.
  2:{ apply triple_ret. intros ? ->. symmetry. by apply delete_id. }
  apply (triple_bind _ _ (fun _ => F)).
  { eapply triple_weaken; [|apply (runs_for_each F)|done]; [by intros ? ->|].
    intros rule. apply runs_bind; [apply runs_executeCommand, _|]. intros ?. apply runs_ret. }
  intros ?. apply (triple_bind _ _ (fun _ => F)).
  { apply runs_for_each. intros vp. apply runs_cleanupVethPair, _. }
  intros ?. apply (triple_bind _ _ (fun _ => F)).
  { apply triple_modify. intros s' HF. unfold F. by rewrite release_veths_containers. }
  intros ?. apply (triple_bind _ _ (fun _ s' => tc_containers s' = delete cid cs)).
  - apply triple_modify. intros s' HF. cbn. by rewrite HF.
  - intros ?. by apply triple_ret.
Qed.

(** ** Runs of the manager *)

Section manager_runs.
Context (world : list action -> action -> go_error * string) (parseMAC : string -> list Z + string).
Context (docker : Docker).

Definition stop_orders (ord1 ord2 : list (string * VethPairInfo)) (id : string) (s : TCTrafficCapture) : Prop :=
  forall c, tc_containers s !! id = Some c -> visits ord1 (tci_VethPairs c) /\ visits ord2 (tci_VethPairs c).

(** The calls of the agent, with [force] those of the forced start too, and
    the events a monitoring goroutine handles. *)
Inductive mgr_step (force : bool) : Manager -> Manager -> Prop :=
| ms_start m e m' : mg_Start world parseMAC docker m = Done (e, m') -> mgr_step force m m'
| ms_stop m e m' : mg_Stop world m = Some (e, m') -> mgr_step force m m'
| ms_event m act_ id ord1 ord2 m' :
    (0 < mg_loops m)%nat -> stop_orders ord1 ord2 id (mg_tc m) ->
    mg_run (processDockerEvent world parseMAC docker (mg_cancelled m) ord1 ord2 act_ id) m = (Done tt, m') ->
    mgr_step force m m'
| ms_loop_done m : mg_cancelled m = true -> mgr_step force m (mg_set_run (mg_running m) true (pred (mg_loops m)) m)
| ms_force_start m id :
    force = true -> mgr_step force m (ForceStartCapture world parseMAC docker id m).2
| ms_force_stop m id ord1 ord2 :
    stop_orders ord1 ord2 id (mg_tc m) -> mgr_step force m (ForceStopCapture world ord1 ord2 id m).2
| ms_stats m now ord m' : updateStats now ord m = Done m' -> mgr_step force m m'
| ms_validate m : mgr_step force m (ValidateSetup world docker m).2.

(** Docker has described the container as one the monitor handles. *)
Definition eligible (cancelled : bool) (id : string) : Prop :=
  exists h inspect, docker_inspect docker cancelled h id = inl inspect /\ shouldSkipContainer inspect = false.

(** The programs of the monitor keep what starts of eligible containers and
    stops keep. *)
Section keeps.
Context (P : TCTrafficCapture -> Prop) `{!Quiet P} (cancelled : bool).
Hypothesis start_keeps : forall id name pid s,
  eligible cancelled id -> P s -> P (StartContainerCapture world parseMAC id name pid s).2.
Hypothesis stop_keeps : forall ord1 ord2 id s,
  stop_orders ord1 ord2 id s -> P s -> P (StopContainerCapture world ord1 ord2 id s).2.

Lemma handleContainerEvent_keeps ord1 ord2 event s :
  eligible cancelled (ce_ContainerID event) ->
  (ce_Type event <> "start" -> stop_orders ord1 ord2 (ce_ContainerID event) s) ->
  P s -> P (handleContainerEvent world parseMAC ord1 ord2 event s).2.
Proof.
  intros He Ho Hs. unfold handleContainerEvent. destruct (slice12 _); [|done].
  case_bool_decide as Ht.
  - destruct (0 <? _); [|done]. unfold mbind, SM_bind.
    pose proof (start_keeps _ (ce_Name event) (ce_Pid event) _ He Hs) as H. by destruct (StartContainerCapture _ _ _ _ _ _).
  - destruct (_ || _); [|done]. unfold mbind, SM_bind.
    pose proof (stop_keeps _ _ _ _ (Ho Ht) Hs) as H. by destruct (StopContainerCapture _ _ _ _ _).
Qed.

Lemma processDockerEvent_keeps ord1 ord2 act_ id s :
  stop_orders ord1 ord2 id s -> P s -> P (processDockerEvent world parseMAC docker cancelled ord1 ord2 act_ id s).2.
Proof.
  intros Ho Hs. unfold processDockerEvent. destruct (slice12 id); [|done].
  unfold inspect_container, mbind, SM_bind. simpl.
  destruct (docker_inspect docker cancelled (tc_hist s) id) as [j|err] eqn:Hj; [|done].
  destruct (shouldSkipContainer j) eqn:Hk; [done|].
  apply handleContainerEvent_keeps; [by exists (tc_hist s), j|done|done].
Qed.

Lemma scan_containers_keeps l s : P s -> P (scan_containers world parseMAC docker cancelled l s).2.
Proof.
  revert s. induction l as [|ct l IH]; intros s Hs; simpl; [done|].
  case_bool_decide; [|by apply IH]. unfold inspect_container, mbind, SM_bind. simpl.
  destruct (docker_inspect docker cancelled (tc_hist s) (ct_ID ct)) as [j|err] eqn:Hj; [|by apply IH].
  destruct (shouldSkipContainer j) eqn:Hk; [by apply IH|].
  unfold container_event. destruct (ct_Names ct) as [|n ns]; [done|].
  set (event := {| ce_Type := "start"; ce_ContainerID := ct_ID ct; ce_Name := TrimPrefix n "/";
    ce_Image := ct_Image ct; ce_Labels := ct_Labels ct; ce_Pid := cj_Pid j |}).
  assert (Hev : P (handleContainerEvent world parseMAC [] [] event s).2).
  { apply handleContainerEvent_keeps; [by exists (tc_hist s), j|done|done]. }
  destruct (handleContainerEvent _ _ _ _ _ _) as [[u|p] s']; [by apply IH|done].
Qed.

Lemma monitorExistingContainers_keeps s :
  P s -> P (monitorExistingContainers world parseMAC docker cancelled s).2.
Proof.
  intros Hs. unfold monitorExistingContainers, list_containers, mbind, SM_bind. simpl.
  destruct (docker_list docker cancelled (tc_hist s)) as [l|err]; [|done].
  pose proof (scan_containers_keeps l s Hs). by destruct (scan_containers _ _ _ _ _ _) as [[u|p] s'].
Qed.
End keeps.

Lemma mg_run_keeps {A} (P : TCTrafficCapture -> Prop) (p : TCM A) m :
  runs P p -> P (mg_tc m) -> P (mg_tc (mg_run p m).2).
Proof. intros Hp Hm. specialize (Hp _ Hm). unfold mg_run. by destruct (p (mg_tc m)). Qed.

(** One step of the manager, for a property of the capture. *)
Lemma mgr_step_keeps (P : TCTrafficCapture -> Prop) `{!Quiet P} force m m' :
  (forall id name pid s, eligible (mg_cancelled m) id \/
     (force = true /\ exists h j, docker_inspect docker (mg_cancelled m) h id = inl j) ->
     P s -> P (StartContainerCapture world parseMAC id name pid s).2) ->
  (forall ord1 ord2 id s, stop_orders ord1 ord2 id s -> P s -> P (StopContainerCapture world ord1 ord2 id s).2) ->
  (forall s r, tc_Cleanup world s = Some r -> P s -> P r.2) ->
  mgr_step force m m' -> P (mg_tc m) -> P (mg_tc m').
Proof.
  intros Hstart Hstop Hclean Hs Hm.
  destruct Hs as [m e m' Hr|m e m' Hr|m a id ord1 ord2 m' _ Ho Hr|m Hc|m id Hf|m id ord1 ord2 Ho|m now ord m' Hr|m].
  - unfold mg_Start in Hr. destruct (mg_running m); [by simplify_eq|]. unfold mg_run in Hr.
    pose proof (monitorExistingContainers_keeps P (mg_cancelled m)) as Hk.
    specialize (Hk (fun id name pid s He => Hstart id name pid s (or_introl He)) Hstop (mg_tc m) Hm).
    destruct (monitorExistingContainers _ _ _ _ _) as [[u|p] s']; by simplify_eq.
  - unfold mg_Stop in Hr. destruct (mg_running m); simpl in Hr; [|by simplify_eq].
    destruct (tc_Cleanup world (mg_tc m)) as [[e' s']|] eqn:Hcl; [|done]. simplify_eq.
    by apply (Hclean _ _ Hcl).
  - unfold mg_run in Hr.
    pose proof (processDockerEvent_keeps P (mg_cancelled m)) as Hk.
    specialize (Hk (fun id name pid s He => Hstart id name pid s (or_introl He)) Hstop ord1 ord2 a id _ Ho Hm).
    destruct (processDockerEvent _ _ _ _ _ _ _ _ _) as [[u|p] s']; by simplify_eq.
  - done.
  - unfold ForceStartCapture, mg_GetContainerInfo, GetContainerInfo, inspect_container, mg_run.
    unfold mbind, SM_bind. simpl.
    destruct (docker_inspect docker (mg_cancelled m) (tc_hist (mg_tc m)) id) as [j|err] eqn:Hj; [|done]. simpl.
    destruct (cj_Pid j <=? 0); [done|].
    pose proof (Hstart id (TrimPrefix (cj_Name j) "/") (cj_Pid j) (mg_tc m)
      (or_intror (conj Hf (ex_intro _ _ (ex_intro _ _ Hj)))) Hm) as Hk.
    by destruct (StartContainerCapture _ _ _ _ _ _).
  - unfold ForceStopCapture, mg_run. pose proof (Hstop _ _ _ _ Ho Hm) as Hk.
    by destruct (StopContainerCapture _ _ _ _ _).
  - unfold updateStats in Hr. destruct (TCCapture.GetCapturedContainers ord); [|done].
    by injection Hr as <-.
  - unfold ValidateSetup. apply (mg_run_keeps P); [|done].
    do 3 (apply runs_bind; [apply runs_executeCommand, _|]; intros [err|]; [apply runs_ret|]).
    apply runs_bind; [apply runs_executeCommand, _|]. intros ?.
    apply runs_bind; [|intros ?; apply runs_ret].
    unfold ListRunningContainers, list_containers. by intros s.
Qed.

Lemma mgr_step_ok force m m' : mgr_step force m m' -> tc_ok (mg_tc m) -> tc_ok (mg_tc m').
Proof.
  apply (mgr_step_keeps tc_ok).
  - intros id name pid s _. apply StartContainerCapture_ok.
  - intros ord1 ord2 id s Ho. apply (StopContainerCapture_ok world parseMAC). intros c Hc. by apply Ho.
  - intros s r. apply tc_Cleanup_ok.
Qed.

Lemma NewManager_ok now hist m :
  NewManager world None now hist = inl m -> numbers_empty (mg_tc m) /\ mg_cancelled m = false.
Proof. intros [= <-]. split; [apply NewTCTrafficCapture_empty|done]. Qed.

(** A container is captured only if Docker has described it as one that
    is neither a system or pause container, nor privileged, nor on the host's
    network; a forced start is the only way around it. *)
Theorem captured_containers_eligible now hist m0 m id c :
  NewManager world None now hist = inl m0 -> rtc (mgr_step false) m0 m ->
  tc_containers (mg_tc m) !! id = Some c ->
  exists cancelled h inspect, docker_inspect docker cancelled h id = inl inspect /\
    shouldSkipContainer inspect = false.
Proof.
  intros Hn Hr Hc. set (E := fun id => exists cancelled, eligible cancelled id).
  set (P := fun s => forall id, is_Some (tc_containers s !! id) -> E id).
  assert (Quiet P) by (by intros a s Hs).
  assert (HP : P (mg_tc m)).
  { eapply (rtc_invariant (mgr_step false) (fun m => P (mg_tc m))); [|clear Hr|exact Hr].
    - intros x y Hs. apply (mgr_step_keeps P false x y); [| | |done].
      + intros i name pid s [He|[? _]] Hs'; [|done]. intros i'.
        destruct (StartContainerCapture_containers world parseMAC i name pid s) as [->|[c' ->]]; [by apply Hs'|].
        intros [<-|[_ ?]]%lookup_insert_is_Some; [by exists (mg_cancelled x)|by apply Hs'].
      + intros ord1 ord2 i s _ Hs' i'. rewrite StopContainerCapture_containers.
        intros [_ ?]%lookup_delete_is_Some. by apply Hs'.
      + intros s r (_ & _ & Hcs)%tc_Cleanup_frame _ i'. rewrite Hcs. intros [? Hi']. by rewrite lookup_empty in Hi'.
    - apply NewManager_ok in Hn as [(_ & _ & He) _]. intros i. rewrite He. intros [? Hi]. by rewrite lookup_empty in Hi. }
  destruct (HP id) as (cancelled & h & j & Hj); [by exists c|]. by exists cancelled, h, j.
Qed.

(** The context of the monitor stays cancelled. *)
Lemma mgr_step_cancelled force m m' : mgr_step force m m' -> mg_cancelled m = true -> mg_cancelled m' = true.
Proof.
  intros Hs Hm.
  destruct Hs as [m e m' Hr|m e m' Hr|m a id ord1 ord2 m' _ Ho Hr|m Hc|m id Hf|m id ord1 ord2 Ho|m now ord m' Hr|m].
  - unfold mg_Start, mg_run in Hr. destruct (mg_running m); [by simplify_eq|].
    destruct (monitorExistingContainers _ _ _ _ _) as [[u|p] s']; by simplify_eq.
  - unfold mg_Stop in Hr. destruct (mg_running m); simpl in Hr; [|by simplify_eq].
    destruct (tc_Cleanup world (mg_tc m)) as [[e' s']|]; by simplify_eq.
  - unfold mg_run in Hr. by destruct (processDockerEvent _ _ _ _ _ _ _ _ _) as [[u|p] s']; simplify_eq.
  - done.
  - unfold ForceStartCapture, mg_GetContainerInfo, mg_run.
    destruct (GetContainerInfo _ _ _ _) as [[j|err] s']; [|done].
    destruct (ce_Pid j <=? 0); [done|]. by destruct (StartContainerCapture _ _ _ _ _ _).
  - unfold ForceStopCapture, mg_run. by destruct (StopContainerCapture _ _ _ _ _).
  - unfold updateStats in Hr. destruct (TCCapture.GetCapturedContainers ord); [|done]. by injection Hr as <-.
  - unfold ValidateSetup, mg_run. match goal with |- context [let (_, _) := ?p in _] => by destruct p end.
Qed.

(** A manager that was stopped cannot be used again.  Starting it again
    succeeds and it says that it runs, but, as Docker's client fails on a
    cancelled context, no container is ever captured from then on, not even
    by a forced start. *)
Theorem restarted_manager_captures_nothing force m e m1 :
  (forall h, exists err, docker_list docker true h = inr err) ->
  (forall h id, exists err, docker_inspect docker true h id = inr err) ->
  mg_running m = true -> mg_Stop world m = Some (e, m1) ->
  exists m2, mg_Start world parseMAC docker m1 = Done (None, m2) /\ mg_IsRunning m2 = true /\
    forall m', rtc (mgr_step force) m2 m' -> tc_containers (mg_tc m') = ∅.
Proof.
  intros Hlist Hinsp Hrun Hstop. unfold mg_Stop in Hstop. rewrite Hrun in Hstop. simpl in Hstop.
  destruct (tc_Cleanup world (mg_tc m)) as [[e' s']|] eqn:Hcl; [|done]. simplify_eq.
  apply tc_Cleanup_frame in Hcl as (_ & _ & Hcs). simpl in Hcs.
  unfold mg_Start, mg_run, monitorExistingContainers, list_containers, mbind, SM_bind. simpl.
  destruct (Hlist (tc_hist s')) as [err Herr]. rewrite Herr. eexists. split; [done|]. split; [done|].
  intros m' Hr.
  apply (rtc_invariant (mgr_step force) (fun m => mg_cancelled m = true /\ tc_containers (mg_tc m) = ∅))
    in Hr as [_ ?]; [done| |done].
  intros x y Hs [Hc Hx]. split; [by eapply mgr_step_cancelled|]. revert Hx.
  apply (mgr_step_keeps (fun s => tc_containers s = ∅) force x y); [| | |done]; rewrite ?Hc.
  - intros id name pid s [(h & j & Hj & _)|(_ & h & j & Hj)]; destruct (Hinsp h id); congruence.
  - intros ord1 ord2 id s _ Hs0. by rewrite StopContainerCapture_containers, Hs0, delete_empty.
  - intros s r (_ & _ & Hcs')%tc_Cleanup_frame _. done.
Qed.

(** Only a stop ends the running of a manager. *)
Lemma mgr_step_running force m m' :
  mgr_step force m m' -> mg_running m = true \/ mg_cancelled m = true ->
  mg_running m' = true \/ mg_cancelled m' = true.
Proof.
  intros Hs [Hm|Hm]; [|right; by eapply mgr_step_cancelled].
  destruct Hs as [m e m' Hr|m e m' Hr|m a id ord1 ord2 m' _ Ho Hr|m Hc|m id Hf|m id ord1 ord2 Ho|m now ord m' Hr|m].
  - unfold mg_Start in Hr. rewrite Hm in Hr. simplify_eq. by left.
  - unfold mg_Stop in Hr. rewrite Hm in Hr. simpl in Hr.
    destruct (tc_Cleanup world (mg_tc m)) as [[e' s']|]; simplify_eq. by right.
  - left. unfold mg_run in Hr. by destruct (processDockerEvent _ _ _ _ _ _ _ _ _) as [[u|p] s']; simplify_eq.
  - by left.
  - left. unfold ForceStartCapture, mg_GetContainerInfo, mg_run.
    destruct (GetContainerInfo _ _ _ _) as [[j|err] s']; [|done].
    destruct (ce_Pid j <=? 0); [done|]. by destruct (StartContainerCapture _ _ _ _ _ _).
  - left. unfold ForceStopCapture, mg_run. by destruct (StopContainerCapture _ _ _ _ _).
  - left. unfold updateStats in Hr. destruct (TCCapture.GetCapturedContainers ord); [|done]. by injection Hr as <-.
  - left. unfold ValidateSetup, mg_run. match goal with |- context [let (_, _) := ?p in _] => by destruct p end.
Qed.

(** The event of a container Docker does not know any more is ignored: the
    container stays captured. *)
Lemma unknown_container_stays_captured cancelled ord1 ord2 act_ id s err :
  docker_inspect docker cancelled (tc_hist s) id = inr err -> slice12 id <> Panicked "slice bounds out of range" ->
  processDockerEvent world parseMAC docker cancelled ord1 ord2 act_ id s = (Done tt, s).
Proof.
  intros Hd Hid. unfold processDockerEvent. destruct (slice12 id) as [x|w] eqn:Hw.
  - unfold inspect_container, mbind, SM_bind. simpl. by rewrite Hd.
  - unfold slice12 in Hw. by destruct (_ <=? _)%nat; simplify_eq.
Qed.

(** A shutdown with a captured container never comes back from the manager. *)
Lemma mg_Stop_hangs m :
  mg_Stop world m = None <-> mg_running m = true /\ tc_containers (mg_tc m) <> ∅.
Proof.
  unfold mg_Stop, tc_Cleanup. simpl. destruct (mg_running m); simpl; [|naive_solver].
  case_decide; simpl; [|naive_solver]. match goal with |- context [let (_, _) := ?p in _] => destruct p end. naive_solver.
Qed.
End manager_runs.

(** ** Witnesses *)

Definition ex_id : string := "c0ffee000001".
Definition ex_inspect : ContainerJSON := {|
  cj_Name := "/web"; cj_Image := "nginx:1.25"; cj_Labels := ∅; cj_Privileged := false;
  cj_NetworkMode := "bridge"; cj_Pid := 100 |}.
Definition ex_docker (containers : list Container) : Docker := {|
  docker_list cancelled _ := if cancelled then inr "context canceled" else inl containers;
  docker_inspect cancelled _ id :=
    if cancelled then inr "context canceled"
    else if bool_decide (id = ex_id) then inl ex_inspect else inr "No such container" |}.
Definition ex_web : Container := {|
  ct_ID := ex_id; ct_Names := ["/web"]; ct_Image := "nginx:1.25"; ct_Labels := ∅; ct_State := "running" |}.

Definition ex_manager : Manager := {|
  mg_tc := ex_tc0; mg_cancelled := false; mg_loops := 0; mg_running := false;
  mg_stats := {| ns_CapturedContainers := 0; ns_ActiveRules := 0; ns_LastUpdate := 0;
                 ns_TotalPackets := 0; ns_TotalBytes := 0 |} |}.

(** The manager started with the containers Docker lists. *)
Definition ex_started (containers : list Container) : Manager :=
  match mg_Start ex_world ex_parseMAC (ex_docker containers) ex_manager with
  | Done (_, m) => m
  | Panicked _ => ex_manager
  end.

Lemma ex_started_step force containers :
  ~ panics (mg_Start ex_world ex_parseMAC (ex_docker containers) ex_manager) ->
  rtc (mgr_step ex_world ex_parseMAC (ex_docker containers) force) ex_manager (ex_started containers).
Proof.
  intros Hp. unfold ex_started.
  destruct (mg_Start ex_world ex_parseMAC (ex_docker containers) ex_manager) as [[e m]|w] eqn:Hs; [|by destruct Hp].
  apply rtc_once. by eapply ms_start.
Qed.

Lemma captured_containers_eligible_witness :
  exists cancelled h inspect, docker_inspect (ex_docker [ex_web]) cancelled h ex_id = inl inspect /\
    shouldSkipContainer inspect = false.
Proof.
  apply (captured_containers_eligible ex_world ex_parseMAC (ex_docker [ex_web]) 0 [] ex_manager
    (ex_started [ex_web]) ex_id (ex_container (mg_tc (ex_started [ex_web])) ex_id)).
  - reflexivity.
  - apply ex_started_step. vm_compute. intros [].
  - vm_compute. reflexivity.
Defined.

Lemma restarted_manager_captures_nothing_witness :
  exists m1, mg_Stop ex_world (ex_started []) = Some (None, m1) /\
  exists m2, mg_Start ex_world ex_parseMAC (ex_docker []) m1 = Done (None, m2) /\ mg_IsRunning m2 = true /\
    forall m', rtc (mgr_step ex_world ex_parseMAC (ex_docker []) true) m2 m' -> tc_containers (mg_tc m') = ∅.
Proof.
  eexists. split; [vm_compute; reflexivity|].
  apply (restarted_manager_captures_nothing ex_world ex_parseMAC (ex_docker []) true (ex_started []) None).
  - intros h. eexists. reflexivity.
  - intros h id. eexists. reflexivity.
  - reflexivity.
  - vm_compute. reflexivity.
Defined.
