(* ===== verification/AgentMain.v ===== *)
(** * The agent process (micro-segment/cmd/agent/main.go)

    The start of the network manager and of the engine, and the shutdown on a
    signal.  Flags, logging and the wait for the signal are left out. *)

From Stdlib Require Import ZArith Lia.
From S2P Require Import Prelude StateMonad GoLib ProtoTypes Aggregator DPClient GrpcClient AgentEngine Locks.
From S2P Require Import TCCapture Monitor.
Local Open Scope Z_scope.

(** [data[:len(data)-1]] of the file without its newline; an empty file
    panics. *)
Definition getHostID (machine_id : string + string) (uuid : string) : outcome string :=
  match machine_id with
  | inr _ => Done uuid
  | inl data =>
      if bool_decide (data = "") then Panicked "slice bounds out of range"
      else Done (String.substring 0 (String.length data - 1) data)
  end.

Record AgentProcess := { ap_manager : option Manager; ap_engine : AEngine }.

Section agent.
Context (world : list action -> action -> go_error * string) (parseMAC : string -> list Z + string).
Context (docker : Docker).

(** The manager, unless the capture is off or its set-up fails.  [inr] is
    [log.Fatal]. *)
Definition start_manager (enableCapture : bool) (client : go_error) (now : Z) (hist : list action)
  : outcome (option Manager) + string :=
  if negb enableCapture then inl (Done None)
  else match NewManager world client now hist with
  | inr err => inr ("Failed to create network manager: " +:+ err)
  | inl m =>
      inl (let '(r, m) := ValidateSetup world docker m in
           err ← r;
           match err with
           | Some _ => mret None
           | None =>
               '(err, m) ← mg_Start world parseMAC docker m;
               mret (match err with Some _ => None | None => Some m end)
           end)
  end.

(** The engine's start has no error. *)
Definition agent_start (enableCapture : bool) (client : go_error) (now : Z) (hist : list action)
    (config : Config) (dp_dial : nat + string) (grpc_dial : go_error)
    (register : pb_AgentInfo -> pb_RegisterResponse + string) : outcome AgentProcess + string :=
  match start_manager enableCapture client now hist with
  | inr fatal => inr fatal
  | inl r => inl (
      manager ← r;
      mret {| ap_manager := manager;
              ap_engine := eng_Start dp_dial grpc_dial register (NewEngine config) |})
  end.

(** [None]: the process does not get to its end. *)
Definition agent_shutdown (p : AgentProcess) : option (outcome AgentProcess) :=
  match ap_manager p with
  | None => Some (e ← eng_Stop (ap_engine p); mret {| ap_manager := None; ap_engine := e |})
  | Some m =>
      match mg_Stop world m with
      | None => None
      | Some (_, m) => Some (e ← eng_Stop (ap_engine p); mret {| ap_manager := Some m; ap_engine := e |})
      end
  end.

Lemma start_manager_running enableCapture client now hist m :
  start_manager enableCapture client now hist = inl (Done (Some m)) -> mg_running m = true.
Proof.
  unfold start_manager. destruct enableCapture; simpl; [|done].
  destruct (NewManager world client now hist) as [m0|err]; [|done].
  destruct (ValidateSetup world docker m0) as [[[err|]|w] m1]; simpl; try done.
  unfold mg_Start. destruct (mg_running m1); [done|].
  destruct (mg_run _ m1) as [[e|w] m2]; simpl; [|done]. by intros [= <-].
Qed.

(** Once the agent has started and its manager has handled any sequence
    of events and calls but a stop (which cancels its context), the shutdown
    comes to its end exactly when no container is captured; the engine is then
    stopped and disconnected from the data plane and the controller.  With a
    container captured the process hangs, with the engine still running. *)
Theorem agent_shutdown_ends enableCapture client now hist config dp_dial grpc_dial register p m m' :
  agent_start enableCapture client now hist config dp_dial grpc_dial register = inl (Done p) ->
  ap_manager p = Some m -> rtc (mgr_step world parseMAC docker true) m m' -> mg_cancelled m' = false ->
  let p' := {| ap_manager := Some m'; ap_engine := ap_engine p |} in
  if decide (tc_containers (mg_tc m') = ∅)
  then exists q, agent_shutdown p' = Some (Done q) /\ eng_running (ap_engine q) = false /\
    dp_IsConnected (eng_dpClient (ap_engine q)) = false /\
    gc_IsConnected (eng_grpcClient (ap_engine q)) = false
  else agent_shutdown p' = None /\ eng_running (ap_engine p') = true.
Proof.
  intros Hst Hm Hr Hcan p'.
  assert (Hp : ap_engine p = eng_Start dp_dial grpc_dial register (NewEngine config) /\ mg_running m = true).
  { unfold agent_start in Hst. destruct (start_manager _ _ _ _) as [[mo|w]|f] eqn:Hsm; try done.
    injection Hst as <-. simpl in Hm. subst mo. split; [done|]. by eapply start_manager_running. }
  destruct Hp as [Heng Hrm].
  assert (Hrun : mg_running m' = true).
  { destruct (rtc_invariant _ (fun m => mg_running m = true \/ mg_cancelled m = true) m m'
      (mgr_step_running world parseMAC docker true) (or_introl Hrm) Hr); [done|congruence]. }
  unfold agent_shutdown. simpl. pose proof (mg_Stop_hangs world m') as Hh.
  case_decide as Hc.
  - destruct (mg_Stop world m') as [[e m2]|]; [|by destruct (proj1 Hh eq_refl) as [_ ?]].
    rewrite Heng. destruct (engine_start_stop config dp_dial grpc_dial register) as (e' & -> & H1 & H2 & H3 & _).
    eexists. done.
  - rewrite (proj2 Hh) by done. split; [done|]. rewrite Heng. unfold eng_Start. by destruct (gc_Connect _ _).
Qed.
End agent.

(** ** Witnesses *)

Definition ex_register (req : pb_AgentInfo) : pb_RegisterResponse + string := inr "unavailable".
Definition ex_config : Config := Build_Config "a" "h" "h" "/var/run/dp.sock" "localhost:18400".

(** The process as it starts with one container running. *)
Definition ex_process : AgentProcess :=
  match agent_start ex_world ex_parseMAC (ex_docker [ex_web]) true None 0 [] ex_config (inr "refused") None ex_register with
  | inl (Done p) => p
  | _ => {| ap_manager := None; ap_engine := NewEngine ex_config |}
  end.

Definition ex_process_manager : Manager := default ex_manager (ap_manager ex_process).

Lemma agent_shutdown_ends_witness :
  agent_shutdown ex_world {| ap_manager := Some ex_process_manager; ap_engine := ap_engine ex_process |} = None.
Proof.
  pose proof (agent_shutdown_ends ex_world ex_parseMAC (ex_docker [ex_web]) true None 0 [] ex_config (inr "refused")
    None ex_register ex_process ex_process_manager ex_process_manager) as H.
  rewrite decide_False in H by (vm_compute; discriminate).
  apply H; [vm_compute; reflexivity|vm_compute; reflexivity|apply rtc_refl|vm_compute; reflexivity].
Defined.
