(* ===== verification/System.v ===== *)
(** * The controller and its agents together

    [ctl_step] is one request served by the controller (cmd/controller/main.go
    hands one cache and one policy engine to the gRPC server and to the REST
    router).  The theorems follow data across the components: connections from
    the data plane to the topology, rules from the REST API to the data plane,
    workloads from an agent to the cache. *)

From Stdlib Require Import ZArith Lia.
From S2P Require Import Prelude GoLib GoNet CtrlTypes ProtoTypes AgentTypes PolicyEngine Graph Cache.
From S2P Require Import Aggregator DPClient AgentPolicy GrpcServer GrpcClient AgentEngine Rest.
Local Open Scope Z_scope.

(** ** The controller *)

(** The orders of the ranges matter only for a deletion. *)
Definition workload_orders (req : pb_WorkloadEvent) (oi oo : list (string * string)) (c : Cache) : Prop :=
  forall wl, pbe_Workload req = Some wl -> node_orders (wlGraph c) (pbw_Id wl) oi oo.

Inductive ctl_step (dg : string -> option Group) (dr : string -> option PolicyRule)
  : Controller -> Controller -> Prop :=
| ctl_http rg t1 t2 req h :
    ranges_wf rg -> ctl_step dg dr h (ServeHTTP dg dr rg t1 t2 req h).1
| ctl_connections req h :
    ctl_step dg dr h {| ctl_cache := (GrpcServer.ReportConnections req (ctl_cache h)).1;
                        ctl_policy := ctl_policy h |}
| ctl_workload now oi oo req h :
    workload_orders req oi oo (ctl_cache h) ->
    ctl_step dg dr h {| ctl_cache := (GrpcServer.ReportWorkload now oi oo req (ctl_cache h)).1;
                        ctl_policy := ctl_policy h |}.

(** What a request does to the two halves of the state: calls of the cache,
    calls of the engine, and none that sets a group's mode. *)
Record calls_only (h h' : Controller) : Prop := {
  co_cache : rtc (cache_step true) (ctl_cache h) (ctl_cache h');
  co_policy : rtc engine_step (ctl_policy h) (ctl_policy h');
  co_modes : groupModes (ctl_policy h') = groupModes (ctl_policy h);
}.

Lemma calls_only_refl h : calls_only h h.
Proof. by split. Qed.

Lemma handleGroup_calls dg req h : calls_only h (handleGroup dg req h).1.
Proof.
  unfold handleGroup, CreateGroup, Rest.DeleteGroup.
  case_bool_decide; [apply calls_only_refl|]. case_bool_decide.
  { destruct (dg (rq_Body req)); [|apply calls_only_refl]. case_bool_decide; [apply calls_only_refl|].
    split; simpl; [|done|done]. eapply rtc_once, call_step, cs_AddGroup. }
  case_bool_decide; [|apply calls_only_refl]. case_bool_decide; [apply calls_only_refl|].
  split; simpl; [|done|done]. eapply rtc_once, call_step, cs_DeleteGroup.
Qed.

Lemma handlePolicy_calls dr rg t1 t2 req h :
  ranges_wf rg -> calls_only h (handlePolicy dr rg t1 t2 req h).1.
Proof.
  intros Hrg. unfold handlePolicy, CreatePolicy, UpdatePolicy, Rest.DeletePolicy.
  case_bool_decide; [apply calls_only_refl|]. case_bool_decide; [|case_bool_decide].
  - destruct (dr (rq_Body req)) as [rule|]; [|apply calls_only_refl].
    set (ord := rg_rules rg _).
    pose proof (step_AddRule t1 t2 ord rule (ctl_policy h) (rw_rules rg Hrg _)) as Hs.
    assert (Hg : groupModes (PolicyEngine.AddRule t1 t2 ord rule (ctl_policy h)).1 = groupModes (ctl_policy h))
      by (unfold PolicyEngine.AddRule; by destruct (_ =? _)).
    destruct (PolicyEngine.AddRule t1 t2 ord rule (ctl_policy h)) as [e [err|]]; simpl in *;
      split; simpl; auto using rtc_once, rtc_refl.
  - destruct (dr (rq_Body req)) as [rule|]; [|apply calls_only_refl].
    pose proof (step_UpdateRule t1 rule (ctl_policy h)) as Hs.
    assert (Hg : groupModes (UpdateRule t1 rule (ctl_policy h)).1 = groupModes (ctl_policy h))
      by (unfold UpdateRule; by destruct (rules (ctl_policy h) !! pr_ID rule)).
    destruct (UpdateRule t1 rule (ctl_policy h)) as [e [err|]]; simpl in *;
      split; simpl; auto using rtc_once, rtc_refl.
  - case_bool_decide; [|apply calls_only_refl]. case_bool_decide; [apply calls_only_refl|].
    destruct (ParseUint10 (query req "id") 32) as [id|]; [|apply calls_only_refl].
    set (ord := rg_rules rg _).
    pose proof (step_DeleteRule ord (u32 id) (ctl_policy h) (rw_rules rg Hrg _)) as Hs.
    assert (Hg : groupModes (PolicyEngine.DeleteRule ord (u32 id) (ctl_policy h)).1 = groupModes (ctl_policy h))
      by (unfold PolicyEngine.DeleteRule; by destruct (rules (ctl_policy h) !! u32 id)).
    destruct (PolicyEngine.DeleteRule ord (u32 id) (ctl_policy h)) as [e [err|]]; simpl in *;
      split; simpl; auto using rtc_once, rtc_refl.
Qed.

Lemma ReportConnections_calls req c :
  rtc (cache_step true) c (GrpcServer.ReportConnections req c).1.
Proof.
  unfold GrpcServer.ReportConnections. cbn [fst]. generalize (pbcr_Connections req) as l.
  intros l. revert c. induction l as [|conn l IH]; intros c; cbn [foldl]; [done|].
  eapply rtc_l; [eapply call_step, (cs_UpdateConnectionFromProto _ _ (Some conn))|apply IH].
Qed.

Lemma ctl_step_calls dg dr h h' : ctl_step dg dr h h' -> calls_only h h'.
Proof.
  destruct 1 as [rg t1 t2 req h Hrg|req h|now oi oo req h Hord].
  - unfold ServeHTTP. case_bool_decide; [apply calls_only_refl|].
    destruct (setupRoutes_state dg dr rg t1 t2 req h) as [->|[->| ->]];
      auto using calls_only_refl, handleGroup_calls, handlePolicy_calls.
  - split; simpl; [|done|done]. apply ReportConnections_calls.
  - split; simpl; [|done|done]. unfold GrpcServer.ReportWorkload. cbn [fst].
    destruct (bool_decide (pbe_EventType req = "add") || bool_decide (pbe_EventType req = "update")).
    + eapply rtc_once, call_step, cs_UpdateWorkloadFromProto.
    + case_bool_decide; [|done]. destruct (pbe_Workload req) as [wl|] eqn:Hwl; [|done].
      eapply rtc_once, call_step, cs_DeleteWorkload. by apply Hord.
Qed.

Lemma ctl_reachable_calls dg dr h :
  rtc (ctl_step dg dr) NewHandler h -> calls_only NewHandler h.
Proof.
  apply (rtc_invariant (ctl_step dg dr) (calls_only NewHandler)); [|apply calls_only_refl].
  intros x y Hxy%ctl_step_calls [H1 H2 H3]. destruct Hxy as [G1 G2 G3].
  split; [by etrans|by etrans|congruence].
Qed.

Lemma ctl_reachable_engine dg dr h :
  rtc (ctl_step dg dr) NewHandler h -> engine_wf (ctl_policy h).
Proof.
  intros Hr. destruct (ctl_reachable_calls _ _ _ Hr) as [_ Hp _].
  eapply (rtc_invariant engine_step engine_wf); [apply engine_step_wf|apply NewEngine_wf|exact Hp].
Qed.

(** C1: through any sequence of REST requests and agent reports, valid or
    not, the policy engine and the cache keep their invariants, so that
    matching a connection never dereferences a missing rule. *)
Theorem controller_invariant dg dr h from to port proto app :
  rtc (ctl_step dg dr) NewHandler h ->
  engine_wf (ctl_policy h) /\ cache_wf represents_links (ctl_cache h) /\
  ~ panics (PolicyEngine.MatchPolicy from to port proto app (ctl_policy h)).
Proof.
  intros Hr. pose proof (ctl_reachable_engine _ _ _ Hr) as Hwf.
  destruct (ctl_reachable_calls _ _ _ Hr) as [Hc _ _].
  split; [done|]. split; [exact (cache_reachable_wf_from represents_links true _ Hc)|].
  unfold PolicyEngine.MatchPolicy. rewrite MatchPolicy_loop_find; [auto|].
  intros id Hid. by apply (visits_keys_elem_of _ _ id (wf_order _ Hwf)).
Qed.

(** No request sets the mode of a group in the policy engine: a group
    created in Protect mode is stored with that mode, but a connection to it
    that no rule matches is never denied, only marked as a violation. *)
Theorem protect_mode_has_no_effect dg dr h from to port proto app :
  rtc (ctl_step dg dr) NewHandler h ->
  Forall (fun r => rule_matches r from to port proto app = false) (PolicyEngine.ListRules (ctl_policy h)) ->
  PolicyEngine.MatchPolicy from to port proto app (ctl_policy h) = Done (0, PolicyActionViolate).
Proof.
  intros Hr Hno. pose proof (ctl_reachable_engine _ _ _ Hr) as Hwf.
  destruct (ctl_reachable_calls _ _ _ Hr) as [_ _ Hm].
  unfold PolicyEngine.MatchPolicy. rewrite MatchPolicy_loop_find.
  - fold (PolicyEngine.ListRules (ctl_policy h)).
    rewrite (proj2 (list_find_bool_None _ _) Hno). simpl.
    unfold getDefaultAction, GetGroupMode. rewrite Hm. simpl. by rewrite lookup_empty.
  - intros id Hid. by apply (visits_keys_elem_of _ _ id (wf_order _ Hwf)).
Qed.

(** ** Connections, from the data plane to the topology *)

(** A connection with no workload names. *)
Definition nameless (c : AConnection) : Prop := ac_ClientWL c = "" /\ ac_ServerWL c = "".

Lemma reported_nameless agentID hostID s :
  rtc agg_step (agg_init agentID hostID) s ->
  Forall (fun c => exists d, c = dpConnToAgent d) (ag_added s) -> Forall nameless (ag_reported s).
Proof.
  intros Hr Ha. eapply (agg_reachable_all nameless); [| |exact Hr|].
  - intros e c He Hc. exact He.
  - intros a h c Hc. exact Hc.
  - eapply Forall_impl; [exact Ha|]. by intros c [d ->].
Qed.

Definition report_to (agentID hostID : string) (conns : list AConnection) (c : Cache) : Cache :=
  (GrpcServer.ReportConnections {| pbcr_AgentId := agentID; pbcr_HostId := hostID;
     pbcr_Connections := connToProto <$> conns |} c).1.

Lemma report_to_snoc a h conns conn c :
  report_to a h (conns ++ [conn]) c =
  UpdateConnection (proto_connection (connToProto conn)) (report_to a h conns c).
Proof.
  unfold report_to, GrpcServer.ReportConnections. cbn [fst pbcr_Connections].
  rewrite fmap_app, foldl_app. reflexivity.
Qed.

Lemma report_nameless a h conns :
  Forall nameless conns ->
  let c := report_to a h conns NewCache in
  cache_wf represents_links c /\ (forall k, is_Some (connections c !! k) -> k = "-") /\
  (forall s l d, is_Some (Attr s l d (wlGraph c)) -> (s, l, d) = ("", "graph", "")).
Proof.
  induction conns as [|conn conns IH] using rev_ind; intros Hn.
  - split; [apply NewCache_wf; apply _|]. split.
    + intros k [cc Hcc]. done.
    + intros s l d [a' Ha]. done.
  - apply Forall_app in Hn as [Hn Hc]. rewrite Forall_singleton in Hc. destruct (IH Hn) as (Hwf & Hk & Ha).
    destruct Hc as [Hc1 Hc2]. cbn zeta. rewrite report_to_snoc. split; [by apply UpdateConnection_wf; [apply _|]|].
    split.
    + intros k. cbn [connections UpdateConnection set_wlGraph set_connections].
      unfold connectionKey. cbn [proto_connection connToProto cn_ClientWL cn_ServerWL pbc_ClientWl pbc_ServerWl]. 
      rewrite Hc1, Hc2, lookup_insert. case_decide; [done|]. apply Hk.
    + intros s l d. cbn [wlGraph UpdateConnection set_wlGraph set_connections].
      rewrite (gc_add_attr (ok := represents_links)) by apply Hwf. simpl. rewrite Hc1, Hc2.
      case_decide; [done|]. apply Ha.
Qed.

(** The connections the data plane reports reach the controller without
    workload names, so that all of them have the one key of two empty names:
    whatever flows are reported, the topology has at most one cached
    connection and one link, from the empty name to itself, with the counters
    of the last connection reported. *)
Theorem reported_connections_collapse agentID hostID s :
  rtc agg_step (agg_init agentID hostID) s ->
  Forall (fun c => exists d, c = dpConnToAgent d) (ag_added s) ->
  let c := report_to agentID hostID (ag_reported s) NewCache in
  (forall k, is_Some (connections c !! k) -> k = "-") /\ GetGraphLinkCount c <= 1 /\
  forall conn, last (ag_reported s) = Some conn ->
    exists cc, connections c !! "-" = Some cc /\ cn_Bytes (cc_Connection cc) = ac_Bytes conn.
Proof.
  intros Hr Ha c. pose proof (reported_nameless _ _ _ Hr Ha) as Hn.
  destruct (report_nameless agentID hostID _ Hn) as (Hwf & Hk & Hattr). fold c in Hwf, Hk, Hattr.
  split; [done|]. split.
  - destruct (gc_count (ok := represents_links) (wlGraph c) (cw_graph _ _ Hwf)) as (ls & Hnd & Hc & Hls).
    unfold GetGraphLinkCount. rewrite Hc.
    assert (Hall : forall t, t ∈ ls -> t = ("", "graph", "")).
    { intros [[s' l'] d'] Hin. apply Hattr. by apply Hls. }
    destruct ls as [|t1 [|t2 ls]]; simpl; [lia|lia|]. exfalso.
    apply NoDup_cons in Hnd as [Hnin _]. apply Hnin.
    rewrite (Hall t1), (Hall t2) by set_solver. set_solver.
  - intros conn Hlast. apply last_Some in Hlast as [l' Hl']. unfold c. rewrite Hl' in Hn |- *.
    apply Forall_app in Hn as [_ Hn]. rewrite Forall_singleton in Hn. destruct Hn as [Hc1 Hc2].
    rewrite report_to_snoc. cbn. unfold connectionKey. simpl. rewrite Hc1, Hc2, lookup_insert_eq.
    eauto.
Qed.

(** The values a connection's fields can have. *)
Definition conn_in_range (c : AConnection) : Prop :=
  in_width 16 (ac_ClientPort c) /\ in_width 16 (ac_ServerPort c) /\ in_width 8 (ac_IPProto c) /\
  in_width 8 (ac_Severity c) /\ in_width 8 (ac_PolicyAction c).

Lemma wrap_through w x : 0 <= w <= 32 -> in_width w x -> wrap w (u32 x) = x.
Proof. intros Hw Hx. rewrite (wrap_wrap_le w 32); [|lia|done]. by apply wrap_small. Qed.

(** A connection's fields survive the wire: widening to 32 bits for the
    message and narrowing in the controller lose nothing. *)
Theorem connection_wire_roundtrip c :
  conn_in_range c ->
  proto_connection (connToProto c) = {|
    cn_ClientWL := ac_ClientWL c; cn_ServerWL := ac_ServerWL c; cn_ClientIP := ac_ClientIP c;
    cn_ServerIP := ac_ServerIP c; cn_ClientPort := ac_ClientPort c; cn_ServerPort := ac_ServerPort c;
    cn_IPProto := ac_IPProto c; cn_Application := ac_Application c; cn_Bytes := ac_Bytes c;
    cn_Sessions := ac_Sessions c; cn_FirstSeenAt := ac_FirstSeenAt c; cn_LastSeenAt := ac_LastSeenAt c;
    cn_ThreatID := ac_ThreatID c; cn_Severity := ac_Severity c; cn_PolicyAction := ac_PolicyAction c;
    cn_PolicyID := ac_PolicyId c; cn_Ingress := ac_Ingress c; cn_ExternalPeer := ac_ExternalPeer c;
    cn_LocalPeer := ac_LocalPeer c |}.
Proof.
  intros (H1 & H2 & H3 & H4 & H5). unfold proto_connection, connToProto. simpl.
  by rewrite !wrap_through by (done || lia).
Qed.

(** ** Rules, from the controller to an agent *)

Definition distributed (r : PolicyRule) : APolicyRule := {|
  ar_ID := pr_ID r; ar_From := pr_From r; ar_To := pr_To r; ar_Ports := pr_Ports r;
  ar_Applications := []; ar_Action := actionToProto (pr_Action r); ar_Ingress := false |}.

Lemma actionToProto_range a : in_width 8 (actionToProto a).
Proof. unfold actionToProto, in_width. repeat case_bool_decide; lia. Qed.

Lemma ruleFromProto_ruleToProto r : ruleFromProto (ruleToProto r) = distributed r.
Proof.
  unfold ruleFromProto, ruleToProto, distributed. simpl.
  by rewrite wrap_small by apply actionToProto_range.
Qed.

(** An agent that asks for its policies receives every rule of the
    engine in rule order, disabled rules like the others, each with its ends,
    ports and action but without its application list and with no mark that
    it is disabled. *)
Theorem policies_distributed e ids c :
  gc_IsConnected c = true -> engine_wf e ->
  exists l, gc_GetPolicies (fun req => inl (GetPolicies req e)) ids c = inl l /\
    (ar_ID <$> l) = ruleOrder e /\
    (forall id r, rules e !! id = Some r -> distributed r ∈ l) /\
    (forall a, a ∈ l -> exists r, rules e !! ar_ID a = Some r /\ a = distributed r /\ ar_Applications a = []).
Proof.
  intros Hc Hwf. unfold gc_GetPolicies. unfold gc_IsConnected in Hc. rewrite Hc. simpl.
  eexists. split; [done|].
  assert (Heq : ruleFromProto <$> (ruleToProto <$> PolicyEngine.ListRules e) =
    distributed <$> PolicyEngine.ListRules e).
  { rewrite <-list_fmap_compose. apply list_fmap_ext. intros i r _. apply ruleFromProto_ruleToProto. }
  rewrite Heq. split; [|split].
  - unfold PolicyEngine.ListRules.
    assert (Hin : forall id, id ∈ ruleOrder e -> exists r, rules e !! id = Some r /\ pr_ID r = id).
    { intros id Hid. apply (visits_keys_elem_of _ _ _ (wf_order e Hwf)) in Hid as [r Hr].
      exists r. split; [done|]. by apply (wf_id e Hwf). }
    induction (ruleOrder e) as [|id order IH]; [done|].
    destruct (Hin id) as (r & Hr & Hid); [set_solver|]. csimpl. rewrite Hr, !fmap_cons.
    rewrite IH by (intros; apply Hin; set_solver). simpl. by rewrite Hid.
  - intros id r Hr. apply list_elem_of_fmap. exists r. split; [done|].
    apply ListRules_elem_of; [done|]. by rewrite (wf_id e Hwf id r Hr).
  - intros a (r & -> & Hr)%list_elem_of_fmap. apply ListRules_elem_of in Hr; [|done]. eauto.
Qed.

(** The action a rule has on the wire is the one the controller's own
    matching gives it, except for the action "open", which the controller
    treats as a violation and sends as open. *)
Theorem action_wire_agrees a :
  (actionToProto a = actionFromString a <-> a <> "open") /\
  actionToProto "open" = PolicyActionOpen /\ actionFromString "open" = PolicyActionViolate.
Proof.
  split; [|done]. unfold actionToProto, actionFromString.
  repeat case_bool_decide; subst; vm_compute; split; congruence.
Qed.

(** ** Workloads, from an agent to the cache *)

(** The address the controller records for one an agent has. *)
Definition recorded_addr (addr : AIPAddr) : IPAddr :=
  {| ia_IP := ParseIP (IP_String (aip_IP addr)); ia_Scope := aip_Scope addr |}.

Lemma proto_ifaces_foldl ord name (m : gmap string (list IPAddr)) :
  NoDup ord.*1 ->
  let m' := foldl (fun ifaces iface =>
    <[pbn_Name iface := (fun addr => {| ia_IP := ParseIP (pbi_Ip addr);
                                        ia_Scope := pbi_Scope addr |}) <$> pbn_Addrs iface]> ifaces)
    m (ifacesToProto ord) in
  (forall addrs, (name, addrs) ∈ ord -> m' !! name = Some (recorded_addr <$> addrs)) /\
  (name ∉ ord.*1 -> m' !! name = m !! name).
Proof.
  revert m. induction ord as [|[n addrs] ord IH]; intros m Hnd; [set_solver|].
  rewrite fmap_cons in Hnd. apply NoDup_cons in Hnd as [Hn Hnd]. cbn zeta.
  unfold ifacesToProto. rewrite fmap_cons. fold (ifacesToProto ord). cbn [foldl pbn_Name pbn_Addrs].
  rewrite <-list_fmap_compose. fold recorded_addr.
  destruct (IH (<[n := recorded_addr <$> addrs]> m) Hnd) as [IH1 IH2]. split.
  - intros addrs' [Heq|Hin]%elem_of_cons; [|by apply IH1].
    injection Heq as -> ->. etrans; [apply IH2, Hn|]. apply lookup_insert_eq.
  - rewrite fmap_cons. cbn [fst]. intros Hnin. etrans; [apply IH2; set_solver|].
    rewrite lookup_insert_ne by set_solver. done.
Qed.

(** A workload an agent reports is in the cache under its id with its
    names, host, domain, service and state; the image is not sent, every mode
    but Protect is Monitor, and each interface keeps its addresses, where an
    IPv4 address is recorded in its 16-byte form. *)
Theorem workload_report now ord wl event agentID c oi oo name addrs :
  event = "add" \/ event = "update" -> visits ord (aw_Ifaces wl) ->
  aw_Ifaces wl !! name = Some addrs ->
  let c' := (GrpcServer.ReportWorkload now oi oo {| pbe_AgentId := agentID; pbe_EventType := event;
               pbe_Workload := Some (workloadToProto ord wl) |} c).1 in
  exists w, Cache.GetWorkload (aw_ID wl) c' = Some w /\
    wl_ID w = aw_ID wl /\ wl_Name w = aw_Name wl /\ wl_HostID w = aw_HostID wl /\
    wl_Domain w = aw_Domain wl /\ wl_Service w = aw_Service wl /\ wl_Running w = aw_Running wl /\
    wl_Image w = "" /\
    wl_PolicyMode w = (if bool_decide (aw_PolicyMode wl = "Protect") then "Protect" else "Monitor") /\
    wl_Ifaces w !! name = Some (recorded_addr <$> addrs) /\
    forall addr x y z t, addr ∈ addrs -> aip_IP addr = [x; y; z; t] -> ip_wf (aip_IP addr) ->
      ia_IP (recorded_addr addr) = IPv4 x y z t.
Proof.
  intros Hev Hv Hname c'.
  assert (Hc' : c' = UpdateWorkloadFromProto now (Some (workloadToProto ord wl)) c)
    by (unfold c', GrpcServer.ReportWorkload; destruct Hev as [->| ->]; reflexivity).
  eexists. rewrite Hc'. unfold Cache.GetWorkload. cbn [UpdateWorkloadFromProto workloads set_workloads].
  rewrite lookup_insert_eq. split; [done|]. cbn. repeat (split; [done|]). split.
  - destruct (proto_ifaces_foldl ord name ∅ (visits_NoDup _ _ Hv)) as [H _].
    apply H. by apply (visits_elem_of _ _ _ _ Hv).
  - intros addr x y z t _ -> Hip. unfold ip_wf in Hip. rewrite !Forall_cons in Hip.
    destruct Hip as (? & ? & ? & ? & _). by apply ParseIP_IP_String4.
Qed.

(** ** Witnesses *)

Definition ex_protect_group : Group := {|
  g_Name := "db"; g_Comment := ""; g_Domain := ""; g_PolicyMode := PolicyModeProtect;
  g_Members := []; g_Criteria := []; g_CreatedAt := 0; g_UpdatedAt := 0 |}.
Definition ex_decode : string -> option Group := fun _ => Some ex_protect_group.

Definition ex_controller : Controller :=
  (ServeHTTP ex_decode ex_decodeRule map_ranges 0 0 (ex_request "POST" "/api/v1/group") NewHandler).1.

Lemma ex_controller_reachable : rtc (ctl_step ex_decode ex_decodeRule) NewHandler ex_controller.
Proof. apply rtc_once, ctl_http, map_ranges_wf. Qed.

Lemma controller_invariant_witness :
  ~ panics (PolicyEngine.MatchPolicy "web" "db" 80 6 0 (ctl_policy ex_controller)).
Proof. apply (controller_invariant _ _ _ "web" "db" 80 6 0 ex_controller_reachable). Defined.

Lemma protect_mode_has_no_effect_witness :
  g_PolicyMode <$> Cache.GetGroup "db" (ctl_cache ex_controller) = Some PolicyModeProtect /\
  PolicyEngine.MatchPolicy "web" "db" 80 6 0 (ctl_policy ex_controller) = Done (0, PolicyActionViolate).
Proof.
  split; [vm_compute; reflexivity|].
  apply (protect_mode_has_no_effect _ _ _ "web" "db" 80 6 0 ex_controller_reachable). constructor.
Defined.

Definition ex_dpconn (bytes : Z) : DPConnection := {|
  dc_ClientIP := IPv4 10 0 0 1; dc_ServerIP := IPv4 10 0 0 2; dc_ClientPort := 40000;
  dc_ServerPort := 80; dc_IPProto := 6; dc_Application := 0; dc_Bytes := bytes; dc_Sessions := 1;
  dc_FirstSeenAt := 0; dc_LastSeenAt := 0; dc_ThreatID := 0; dc_Severity := 0;
  dc_PolicyAction := 1; dc_PolicyId := 0; dc_Ingress := true; dc_ExternalPeer := false;
  dc_EPMAC := [] |}.

(** Two flows, to the ports 80 and 443 of a server, through one tick of the
    aggregator. *)
Definition ex_flow (port bytes : Z) : ConnectionData := {|
  cd_EPMAC := [];
  cd_Conn := dpConnToAgent {|
    dc_ClientIP := IPv4 10 0 0 1; dc_ServerIP := IPv4 10 0 0 2; dc_ClientPort := 40000;
    dc_ServerPort := port; dc_IPProto := 6; dc_Application := 0; dc_Bytes := bytes; dc_Sessions := 1;
    dc_FirstSeenAt := 0; dc_LastSeenAt := 0; dc_ThreatID := 0; dc_Severity := 0;
    dc_PolicyAction := 1; dc_PolicyId := 0; dc_Ingress := true; dc_ExternalPeer := false;
    dc_EPMAC := [] |} |}.
Definition ex_cached : Aggregator :=
  (putThreatLogs (AddConnection (ex_flow 443 9) (AddConnection (ex_flow 80 5) (ag (agg_init "a" "h"))))).1.
Definition ex_merged : Aggregator :=
  update_one (ex_flow 443 9) (update_one (ex_flow 80 5) (set_connsCache [] ex_cached)).
Definition ex_sent : list AConnection :=
  default [] (putConnections (map_to_list (connectionMap ex_merged)) ex_merged).2.
Definition ex_ticked : agg_sys :=
  Build_agg_sys (putConnections (map_to_list (connectionMap ex_merged)) ex_merged).1 PcWait
    [cd_Conn (ex_flow 80 5); cd_Conn (ex_flow 443 9)] [] ex_sent.

Lemma ex_flow_wf port bytes : in_width 16 port -> in_width 64 bytes -> conn_wf (cd_Conn (ex_flow port bytes)).
Proof. intros Hp Hb. repeat split; simpl; try lia; try apply Hp; try apply Hb; repeat constructor; simpl; lia. Qed.

Lemma ex_ticked_reachable : rtc agg_step (agg_init "a" "h") ex_ticked.
Proof.
  eapply rtc_l; [apply (as_add _ PcWait [] [] [] (ex_flow 80 5)), ex_flow_wf; vm_decide|].
  eapply rtc_l; [apply (as_add _ PcWait _ [] [] (ex_flow 443 9)), ex_flow_wf; vm_decide|].
  eapply rtc_l; [apply as_tick|].
  eapply rtc_l; [apply as_put_threats|].
  eapply rtc_l; [apply as_swap|].
  eapply rtc_l; [apply (as_update _ (ex_flow 80 5) [ex_flow 443 9])|].
  eapply rtc_l; [apply (as_update _ (ex_flow 443 9) [])|].
  eapply rtc_l; [apply as_updated|].
  eapply rtc_l; [apply (as_put _ (map_to_list (connectionMap ex_merged))), visits_refl|].
  apply rtc_refl.
Qed.

Lemma reported_connections_collapse_witness :
  length ex_sent = 2%nat /\ GetGraphLinkCount (report_to "a" "h" ex_sent NewCache) <= 1.
Proof.
  split; [vm_compute; reflexivity|].
  apply (reported_connections_collapse "a" "h" ex_ticked); [exact ex_ticked_reachable|].
  repeat constructor; eexists; reflexivity.
Defined.

Lemma connection_wire_roundtrip_witness :
  cn_ServerPort (proto_connection (connToProto (dpConnToAgent (ex_dpconn 9)))) = 80.
Proof.
  rewrite (connection_wire_roundtrip (dpConnToAgent (ex_dpconn 9))); [reflexivity|].
  repeat split; simpl; lia.
Defined.

Lemma policies_distributed_witness :
  exists l, gc_GetPolicies (fun req => inl (GetPolicies req ex_engine_added)) []
    (gc_Connect None (NewClient "addr" "a" "h" "h" "1")).1 = inl l /\ (ar_ID <$> l) = [1; 2].
Proof.
  destruct (policies_distributed ex_engine_added [] (gc_Connect None (NewClient "addr" "a" "h" "h" "1")).1)
    as (l & Hl & Hids & _); [reflexivity| |].
  - eapply (rtc_invariant engine_step engine_wf);
      [apply engine_step_wf|apply NewEngine_wf|exact ex_engine_added_reachable].
  - exists l. split; [exact Hl|]. rewrite Hids. vm_compute. reflexivity.
Defined.

Definition ex_addr : AIPAddr := {|
  aip_IP := [10; 0; 0; 5]; aip_IPNet := {| ipnet_IP := []; ipnet_Mask := [] |}; aip_Scope := "local";
  aip_Gateway := "" |}.
Definition ex_awl : AWorkload := {|
  aw_ID := "w1"; aw_Name := "web"; aw_HostID := "h"; aw_HostName := "h"; aw_Domain := ""; aw_Service := "s";
  aw_PolicyMode := "Discover"; aw_Running := true; aw_Pid := 7; aw_Ifaces := {["eth0" := [ex_addr]]} |}.

Lemma workload_report_witness :
  exists w, Cache.GetWorkload "w1" (GrpcServer.ReportWorkload 0 [] []
    {| pbe_AgentId := "a"; pbe_EventType := "add";
       pbe_Workload := Some (workloadToProto (map_to_list (aw_Ifaces ex_awl)) ex_awl) |} NewCache).1 = Some w /\
    wl_PolicyMode w = "Monitor".
Proof.
  destruct (workload_report 0 (map_to_list (aw_Ifaces ex_awl)) ex_awl "add" "a" NewCache [] [] "eth0" [ex_addr])
    as (w & Hw & _ & _ & _ & _ & _ & _ & _ & Hm & _).
  - left. reflexivity.
  - apply visits_refl.
  - vm_compute. reflexivity.
  - exists w. split; [exact Hw|]. rewrite Hm. vm_compute. reflexivity.
Defined.
