(* ===== verification/TimerWheel.v ===== *)
(** * The timer wheel: [share/utils/timer_wheel.go]

    The controller and the agent schedule delayed work on a wheel of 3600
    slots, whose cursor moves by one slot at each tick of a ticker.  A task is
    put in the slot its delay leads to, with the number of rounds to wait. *)

From Stdlib Require Import ZArith Lia.
From S2P Require Import Prelude GoLib.
Local Open Scope Z_scope.

Definition nanoseconds : Z := 1000000000.
Definition default_tick_duration : Z := nanoseconds.
Definition default_wheel_count : Z := 3600.

Section wheel.
Context {Task : Type}.

Record WheelTimeOut := { to_delay : Z; to_index : Z; to_rounds : Z; to_task : Task }.

(** A slot is the [items] of its [Iterator]; the unused [mask] is left out,
    and the lock, held by each operation, makes it atomic. *)
Record TimerWheel := {
  tw_tickDuration : Z;
  tw_roundDuration : Z;
  tw_wheelCount : Z;
  tw_wheel : list (gmap string WheelTimeOut);
  tw_wheelCursor : Z
}.

Definition createWheel (wheelCount : Z) : list (gmap string WheelTimeOut) :=
  replicate (Z.to_nat wheelCount) ∅.

Definition NewTimerWheelWithTick (tick : Z) : TimerWheel :=
  {| tw_tickDuration := tick;
     tw_roundDuration := default_tick_duration * default_wheel_count;
     tw_wheelCount := default_wheel_count;
     tw_wheel := createWheel default_wheel_count;
     tw_wheelCursor := 0 |}.

Definition NewTimerWheel : TimerWheel := NewTimerWheelWithTick default_tick_duration.

Definition set_wheel (wheel : list (gmap string WheelTimeOut)) (t : TimerWheel) : TimerWheel :=
  {| tw_tickDuration := tw_tickDuration t; tw_roundDuration := tw_roundDuration t;
     tw_wheelCount := tw_wheelCount t; tw_wheel := wheel; tw_wheelCursor := tw_wheelCursor t |}.

Definition set_cursor (cursor : Z) (t : TimerWheel) : TimerWheel :=
  {| tw_tickDuration := tw_tickDuration t; tw_roundDuration := tw_roundDuration t;
     tw_wheelCount := tw_wheelCount t; tw_wheel := tw_wheel t; tw_wheelCursor := cursor |}.

(** The first of the tries of [GetGuid] that is not a key of the slot; a
    [uuid] is drawn without error. *)
Fixpoint free_key (items : gmap string WheelTimeOut) (guids : list string) : option string :=
  match guids with
  | [] => None
  | key :: guids => match items !! key with None => Some key | Some _ => free_key items guids end
  end.

(** The slot and the rounds of a delay. *)
Definition slot_of (t : TimerWheel) (delay : Z) : Z * Z :=
  let lastRoundDelay := delay mod tw_roundDuration t in
  let relativeIndex := lastRoundDelay / tw_tickDuration t in
  let remainingRounds := delay / tw_roundDuration t in
  let stopIndex := tw_wheelCursor t + relativeIndex in
  (if tw_wheelCount t <=? stopIndex then stopIndex - tw_wheelCount t else stopIndex, remainingRounds).

(** The key, [None] for an error, and the wheel. *)
Definition scheduleTimeOut (guid : nat -> string) (delay : Z) (task : Task) (t : TimerWheel)
  : outcome (option string * TimerWheel) :=
  let delay := if delay <? tw_tickDuration t then tw_tickDuration t else delay in
  let '(stopIndex, rounds) := slot_of t delay in
  match (if stopIndex <? 0 then None else tw_wheel t !! Z.to_nat stopIndex) with
  | None => Panicked "index out of range"
  | Some items =>
      match free_key items (guid <$> seq 0 16) with
      | Some key =>
          let timeOut := {| to_delay := delay; to_index := stopIndex; to_rounds := rounds;
                            to_task := task |} in
          Done (Some key,
                set_wheel (<[Z.to_nat stopIndex := <[key := timeOut]> items]> (tw_wheel t)) t)
      | None => Done (None, t)
      end
  end.

(** A nil task is [None]. *)
Definition AddTask (guid : nat -> string) (task : option Task) (delay : Z) (t : TimerWheel)
  : outcome (option string * TimerWheel) :=
  match task with
  | None => Done (None, t)
  | Some task => if delay <=? 0 then Done (None, t) else scheduleTimeOut guid delay task t
  end.

Definition RemoveTask (taskId : string) (t : TimerWheel) : TimerWheel :=
  set_wheel (delete taskId <$> tw_wheel t) t.

(** The tasks of a slot that expire, in some order, and the slot after. *)
Definition fetchExpiredTimeouts (items : gmap string WheelTimeOut)
  : gmap string WheelTimeOut * gmap string WheelTimeOut :=
  (filter (fun '(_, v) => to_rounds v <= 0) items,
   (fun v => {| to_delay := to_delay v; to_index := to_index v; to_rounds := to_rounds v - 1;
                to_task := to_task v |}) <$> filter (fun '(_, v) => ~ to_rounds v <= 0) items).

(** One tick of [Start]: the expired tasks, whose [Expire] is called, and the
    wheel. *)
Definition tick (t : TimerWheel) : outcome (gmap string WheelTimeOut * TimerWheel) :=
  let cursor := tw_wheelCursor t + 1 in
  let cursor := if cursor =? tw_wheelCount t then 0 else cursor in
  match tw_wheel t !! Z.to_nat cursor with
  | None => Panicked "index out of range"
  | Some items =>
      let '(expired, items') := fetchExpiredTimeouts items in
      Done (expired, set_cursor cursor (set_wheel (<[Z.to_nat cursor := items']> (tw_wheel t)) t))
  end.

End wheel.
Arguments WheelTimeOut : clear implicits.
Arguments TimerWheel : clear implicits.

(** ** When a task expires *)

Section spec.
Context {Task : Type}.

Lemma Done_inj {A} (a b : A) : Done a = Done b -> a = b.
Proof. by intros [= ->]. Qed.

(** The wheels [NewTimerWheel] makes and the operations keep. *)
Record wheel_ok (t : TimerWheel Task) : Prop := {
  wk_tick : tw_tickDuration t = nanoseconds;
  wk_round : tw_roundDuration t = nanoseconds * 3600;
  wk_count : tw_wheelCount t = 3600;
  wk_length : Z.of_nat (length (tw_wheel t)) = 3600;
  wk_cursor : 0 <= tw_wheelCursor t < 3600
}.

Lemma NewTimerWheel_ok : wheel_ok NewTimerWheel.
Proof. constructor; by vm_compute. Qed.

(** What happens to a wheel. *)
Inductive wheel_op :=
| OAdd (guid : nat -> string) (task : option Task) (delay : Z)
| ORemove (key : string)
| OTick.

(** The expired tasks of each tick, and the wheel. *)
Fixpoint run_wheel (ops : list wheel_op) (t : TimerWheel Task)
  : outcome (list (gmap string (WheelTimeOut Task)) * TimerWheel Task) :=
  match ops with
  | [] => Done ([], t)
  | OAdd guid task delay :: ops =>
      r ← AddTask guid task delay t; run_wheel ops r.2
  | ORemove key :: ops => run_wheel ops (RemoveTask key t)
  | OTick :: ops =>
      r ← tick t; r' ← run_wheel ops r.2; Done (r.1 :: r'.1, r'.2)
  end.

Lemma slot_of_range t delay :
  wheel_ok t -> 0 < delay -> 0 <= (slot_of t delay).1 < 3600 /\ 0 <= (slot_of t delay).2.
Proof.
  intros [] Hd. unfold slot_of. rewrite wk_tick0, wk_round0, wk_count0. simpl.
  assert (0 <= delay mod (nanoseconds * 3600) < nanoseconds * 3600)
    by (apply Z.mod_pos_bound; unfold nanoseconds; lia).
  assert (0 <= delay mod (nanoseconds * 3600) / nanoseconds < 3600).
  { split; [apply Z.div_pos; unfold nanoseconds in *; lia|].
    apply Z.div_lt_upper_bound; unfold nanoseconds in *; lia. }
  split; [destruct (Z.leb_spec 3600 (tw_wheelCursor t + delay mod (nanoseconds * 3600) / nanoseconds)); lia|].
  apply Z.div_pos; unfold nanoseconds; lia.
Qed.

Lemma slot_lookup t i : wheel_ok t -> 0 <= i < 3600 -> is_Some (tw_wheel t !! Z.to_nat i).
Proof. intros [] Hi. apply lookup_lt_is_Some. lia. Qed.

Lemma free_key_spec (items : gmap string (WheelTimeOut Task)) guids key :
  free_key items guids = Some key -> items !! key = None /\ key ∈ guids.
Proof.
  induction guids as [|g guids IH]; simpl; [done|].
  destruct (items !! g) eqn:Hg; [|intros [= <-]; split; [done|left]].
  intros H. destruct (IH H) as [? ?]. split; [done|by right].
Qed.

(** Adding a task does not panic; it leaves the wheel, or adds one entry
    under a new key. *)
Lemma AddTask_cases guid task delay t :
  wheel_ok t ->
  AddTask guid task delay t = Done (None, t) \/
  exists i items key v,
    AddTask guid task delay t
    = Done (Some key, set_wheel (<[Z.to_nat i := <[key := v]> items]> (tw_wheel t)) t) /\
    tw_wheel t !! Z.to_nat i = Some items /\ items !! key = None /\ (exists n, key = guid n) /\
    task = Some (to_task v) /\ 0 < delay /\ 0 <= i < 3600 /\
    (i, to_rounds v) = slot_of t (if delay <? nanoseconds then nanoseconds else delay).
Proof.
  intros Hok. unfold AddTask. destruct task as [task|]; [|by left].
  destruct (Z.leb_spec delay 0) as [|Hd]; [by left|]. unfold scheduleTimeOut.
  rewrite (wk_tick t Hok).
  set (d := if delay <? nanoseconds then nanoseconds else delay).
  assert (0 < d) as Hd' by (unfold d; destruct (Z.ltb_spec delay nanoseconds); unfold nanoseconds in *; lia).
  pose proof (slot_of_range t d Hok Hd') as [Hi Hr].
  destruct (slot_of t d) as [i r] eqn:Hs. simpl in Hi, Hr.
  rewrite (proj2 (Z.ltb_ge i 0)) by lia.
  destruct (slot_lookup t i Hok Hi) as [items Hitems]. rewrite Hitems.
  destruct (free_key items _) as [key|] eqn:Hk; [|by left]. right.
  apply free_key_spec in Hk as [Hn (n & -> & _)%list_elem_of_fmap].
  exists i, items, (guid n). eexists. split; [done|]. by eauto 10.
Qed.

Lemma set_wheel_ok wheel t : wheel_ok t -> length wheel = length (tw_wheel t) -> wheel_ok (set_wheel wheel t).
Proof. intros [] Hl. constructor; simpl; try done. by rewrite Hl. Qed.

(** The cursor after the next tick. *)
Definition next_cursor (t : TimerWheel Task) : Z :=
  if tw_wheelCursor t + 1 =? 3600 then 0 else tw_wheelCursor t + 1.

Lemma tick_eq t :
  wheel_ok t ->
  exists items, tw_wheel t !! Z.to_nat (next_cursor t) = Some items /\
    tick t = Done ((fetchExpiredTimeouts items).1,
      set_cursor (next_cursor t)
        (set_wheel (<[Z.to_nat (next_cursor t) := (fetchExpiredTimeouts items).2]> (tw_wheel t)) t)).
Proof.
  intros Hok. pose proof Hok as []. unfold tick. rewrite wk_count0. fold (next_cursor t).
  assert (0 <= next_cursor t < 3600)
    by (unfold next_cursor; destruct (Z.eqb_spec (tw_wheelCursor t + 1) 3600); lia).
  destruct (slot_lookup t (next_cursor t) Hok) as [items Hi]; [done|].
  exists items. by rewrite Hi.
Qed.

Lemma tick_ok t r : wheel_ok t -> tick t = Done r -> wheel_ok r.2.
Proof.
  intros Hok. destruct (tick_eq t Hok) as (items & _ & ->). intros [= <-]. destruct Hok.
  constructor; simpl; try done; [by rewrite length_insert|].
  unfold next_cursor. destruct (Z.eqb_spec (tw_wheelCursor t + 1) 3600); lia.
Qed.

(** The ticks after which an entry of slot [i] with [r] rounds expires. *)
Definition ticks_left (t : TimerWheel Task) (i r : Z) : Z :=
  (i - tw_wheelCursor t - 1) mod 3600 + 1 + 3600 * r.

Lemma ticks_left_next t i r :
  wheel_ok t -> 0 <= i < 3600 ->
  ticks_left (set_cursor (next_cursor t) t) i r =
  if decide (i = next_cursor t) then ticks_left t i r + 3599 else ticks_left t i r - 1.
Proof.
  intros [] Hi. unfold ticks_left, next_cursor. simpl.
  set (c := tw_wheelCursor t) in *.
  assert (Hm : forall x, -3600 <= x < 3600 -> x mod 3600 = if x <? 0 then x + 3600 else x).
  { intros x Hx. destruct (Z.ltb_spec x 0).
    - rewrite <-(Z_mod_plus_full x 1), Z.mod_small by lia. lia.
    - apply Z.mod_small. lia. }
  destruct (Z.eqb_spec (c + 1) 3600); rewrite !Hm by lia; case_decide;
    repeat match goal with |- context [?x <? 0] => destruct (Z.ltb_spec x 0) end; lia.
Qed.

Section one_task.
Context (key : string) (task : Task).

Definition no_key (items : gmap string (WheelTimeOut Task)) : Prop := items !! key = None.

Definition absent (t : TimerWheel Task) : Prop := Forall no_key (tw_wheel t).

(** The task waits in one slot, and expires at the [n]-th tick from now. *)
Definition pending (n : Z) (t : TimerWheel Task) : Prop :=
  exists i items v, 0 <= i < 3600 /\ tw_wheel t !! Z.to_nat i = Some items /\ items !! key = Some v /\
    to_task v = task /\ 0 <= to_rounds v /\ ticks_left t i (to_rounds v) = n /\
    forall j items', j <> Z.to_nat i -> tw_wheel t !! j = Some items' -> no_key items'.

(** The operations of the others: they do not remove the task and draw other
    keys. *)
Definition others (op : wheel_op) : Prop :=
  match op with
  | OAdd guid _ _ => forall n, guid n <> key
  | ORemove k => k <> key
  | OTick => True
  end.

Lemma add_others guid tk delay t r :
  wheel_ok t -> (forall n, guid n <> key) -> AddTask guid tk delay t = Done r ->
  wheel_ok r.2 /\ (absent t -> absent r.2) /\ (forall n, pending n t -> pending n r.2).
Proof.
  intros Hok Hg Hadd.
  destruct (AddTask_cases guid tk delay t Hok) as [Heq|(i & items & k & v & Heq & Hi & _ & [m ->] & _)];
    rewrite Heq in Hadd; injection Hadd as <-; [done|]. simpl.
  split; [apply set_wheel_ok; [done|apply length_insert]|].
  assert (Hk : forall its, (<[guid m := v]> its : gmap _ _) !! key = its !! key)
    by (intros its; by rewrite lookup_insert_ne).
  split.
  - intros Ha. apply Forall_insert; [done|]. unfold no_key. rewrite Hk.
    by eapply (Forall_lookup_1 no_key).
  - intros n (j & its & w & Hj & Hits & Hw & Ht & Hr & Hn & Hoth).
    exists j. destruct (decide (Z.to_nat i = Z.to_nat j)) as [He|He].
    + rewrite He in *. rewrite Hits in Hi. injection Hi as <-.
      exists (<[guid m := v]> its), w. simpl. rewrite Hk. split; [done|].
      rewrite list_lookup_insert_eq by (by eapply lookup_lt_Some).
      split_and!; try first [exact Hn|done|lia]. intros l its' Hl. rewrite list_lookup_insert_ne by done. by apply Hoth.
    + exists its, w. simpl. rewrite list_lookup_insert_ne by done. split_and!; try first [exact Hn|done|lia].
      intros l its' Hl. destruct (decide (l = Z.to_nat i)) as [->|Hli].
      * rewrite list_lookup_insert_eq by (by eapply lookup_lt_Some). intros [= <-].
        unfold no_key. rewrite Hk. by eapply Hoth.
      * rewrite list_lookup_insert_ne by done. by apply Hoth.
Qed.

Lemma remove_others k t :
  wheel_ok t -> k <> key ->
  wheel_ok (RemoveTask k t) /\ (absent t -> absent (RemoveTask k t)) /\
  (forall n, pending n t -> pending n (RemoveTask k t)).
Proof.
  intros Hok Hk. unfold RemoveTask. split; [apply set_wheel_ok; [done|by rewrite length_fmap]|].
  assert (Hd : forall its : gmap string (WheelTimeOut Task), delete k its !! key = its !! key)
    by (intros its; by rewrite lookup_delete_ne).
  split.
  - intros Ha. apply Forall_fmap. eapply Forall_impl; [exact Ha|]. intros its.
    unfold no_key. simpl. by rewrite Hd.
  - intros n (j & its & w & Hj & Hits & Hw & Ht & Hr & Hn & Hoth).
    exists j, (delete k its), w. simpl. rewrite list_lookup_fmap, Hits, Hd. split_and!; try first [exact Hn|done|lia].
    intros l its' Hl. rewrite list_lookup_fmap. destruct (tw_wheel t !! l) as [x|] eqn:Hx; [|done].
    intros [= <-]. unfold no_key. rewrite Hd. by eapply Hoth.
Qed.

Lemma fetch_key (items : gmap string (WheelTimeOut Task)) v :
  items !! key = Some v ->
  (fetchExpiredTimeouts items).1 !! key = (if decide (to_rounds v <= 0) then Some v else None) /\
  (fetchExpiredTimeouts items).2 !! key =
    (if decide (to_rounds v <= 0) then None
     else Some {| to_delay := to_delay v; to_index := to_index v; to_rounds := to_rounds v - 1;
                  to_task := to_task v |}).
Proof.
  intros Hv. unfold fetchExpiredTimeouts. simpl. rewrite lookup_fmap, !map_lookup_filter, Hv. simpl.
  split; repeat case_guard; repeat case_decide; try done; by destruct_and?.
Qed.

Lemma fetch_no_key (items : gmap string (WheelTimeOut Task)) :
  no_key items -> no_key (fetchExpiredTimeouts items).1 /\ no_key (fetchExpiredTimeouts items).2.
Proof.
  unfold no_key, fetchExpiredTimeouts. intros H. simpl.
  by rewrite lookup_fmap, !map_lookup_filter, H.
Qed.

Lemma tick_absent t r : wheel_ok t -> absent t -> tick t = Done r -> absent r.2 /\ r.1 !! key = None.
Proof.
  intros Hok Ha. destruct (tick_eq t Hok) as (items & Hi & ->). intros [= <-]. simpl.
  assert (no_key items) as Hn by (by eapply (Forall_lookup_1 no_key)).
  apply fetch_no_key in Hn as [H1 H2]. split; [by apply Forall_insert|done].
Qed.

(** A tick brings the task one tick nearer, and expires it when it is due. *)
Lemma tick_pending n t r :
  wheel_ok t -> pending n t -> tick t = Done r ->
  1 <= n /\
  if decide (n = 1) then absent r.2 /\ to_task <$> r.1 !! key = Some task
  else pending (n - 1) r.2 /\ r.1 !! key = None.
Proof.
  intros Hok (i & items & v & Hi & Hits & Hv & Ht & Hr & Hn & Hoth).
  destruct (tick_eq t Hok) as (its & Hc & ->). intros <-%Done_inj. cbn [fst snd].
  pose proof (ticks_left_next t i (to_rounds v) Hok Hi) as Hnext.
  assert (Hmod : 0 <= (i - tw_wheelCursor t - 1) mod 3600 < 3600) by (apply Z.mod_pos_bound; lia).
  assert (Hcr : 0 <= next_cursor t < 3600).
  { destruct Hok. unfold next_cursor. destruct (Z.eqb_spec (tw_wheelCursor t + 1) 3600); lia. }
  assert (H1 : 1 <= n) by (unfold ticks_left in Hn; lia). split; [done|].
  destruct (decide (i = next_cursor t)) as [He|He].
  - assert (Hz : ticks_left t i 0 = 1).
    { unfold ticks_left in *. simpl in *.
      pose proof (ticks_left_next t i 0 Hok Hi) as H0. unfold ticks_left in H0. simpl in H0.
      rewrite decide_True in H0 by done.
      assert (0 <= (i - next_cursor t - 1) mod 3600 < 3600) by (apply Z.mod_pos_bound; lia). lia. }
    rewrite <-He, Hits in Hc. injection Hc as <-. rewrite <-He.
    destruct (fetch_key items v Hv) as [Hf1 Hf2]. rewrite Hf1.
    unfold ticks_left in Hz, Hn, Hnext. simpl in Hnext.
    destruct (decide (to_rounds v <= 0)) as [Hr0|Hr0].
    + rewrite decide_True by lia. split; [|simpl; by rewrite Ht].
      apply Forall_lookup_2. intros j x. destruct (decide (j = Z.to_nat i)) as [->|Hj]; simpl.
      * rewrite list_lookup_insert_eq by (by eapply lookup_lt_Some). by intros [= <-].
      * rewrite list_lookup_insert_ne by done. by apply Hoth.
    + rewrite decide_False by lia. split; [|done].
      exists i, (fetchExpiredTimeouts items).2. eexists. simpl.
      rewrite list_lookup_insert_eq by (by eapply lookup_lt_Some).
      split; [done|]. split; [done|]. split; [exact Hf2|]. simpl.
      split; [done|]. split; [lia|]. split; [|].
      * unfold ticks_left. simpl. rewrite He in *. lia.
      * intros j x Hj. rewrite list_lookup_insert_ne by done. by apply Hoth.
  - assert (Hidx : Z.to_nat (next_cursor t) <> Z.to_nat i) by lia.
    assert (Hnk : no_key its) by (by eapply Hoth).
    apply fetch_no_key in Hnk as [Hn1 Hn2].
    assert (ticks_left (set_cursor (next_cursor t) t) i (to_rounds v) = n - 1) as Hleft by lia.
    rewrite decide_False.
    2:{ intros ->. unfold ticks_left in Hleft. simpl in Hleft.
        pose proof (Z.mod_pos_bound (i - next_cursor t - 1) 3600 ltac:(lia)). lia. }
    split; [|done]. exists i, items, v. simpl. rewrite list_lookup_insert_ne by done.
    split; [done|]. split; [done|]. split; [done|]. split; [done|]. split; [done|].
    split; [exact Hleft|].
    intros j x Hj. destruct (decide (j = Z.to_nat (next_cursor t))) as [->|Hjc].
    + rewrite list_lookup_insert_eq by (by eapply lookup_lt_Some). by intros [= <-].
    + rewrite list_lookup_insert_ne by done. by apply Hoth.
Qed.

(** The ticks a sequence of operations lets expire the task in. *)
Definition expires_at (n : Z) (outs : list (gmap string (WheelTimeOut Task))) : Prop :=
  forall k m, outs !! k = Some m ->
    to_task <$> m !! key = if decide (Z.of_nat k + 1 = n) then Some task else None.

Lemma run_absent ops t :
  wheel_ok t -> absent t -> Forall others ops ->
  exists outs t', run_wheel ops t = Done (outs, t') /\ expires_at 0 outs.
Proof.
  intros Hok Ha Hops. revert t Hok Ha. induction Hops as [|op ops Ho _ IH]; intros t Hok Ha.
  { exists [], t. split; [done|]. intros k m. by rewrite lookup_nil. }
  destruct op as [guid tk delay|k|]; simpl.
  - destruct (AddTask guid tk delay t) as [r|w] eqn:Hadd.
    + destruct (add_others _ _ _ _ _ Hok Ho Hadd) as (? & ? & _). simpl. apply IH; auto.
    + destruct (AddTask_cases guid tk delay t Hok) as [Heq|(?&?&?&?&Heq&_)]; by rewrite Heq in Hadd.
  - destruct (remove_others k t Hok Ho) as (? & ? & _). apply IH; auto.
  - destruct (tick_eq t Hok) as (items & _ & Htick).
    pose proof (tick_ok t _ Hok Htick) as Hok'.
    destruct (tick_absent t _ Hok Ha Htick) as [Ha' Hk]. rewrite Htick. cbn [mbind outcome_bind].
    destruct (IH _ Hok' Ha') as (outs & t' & -> & Hout).
    eexists _, t'. split; [reflexivity|]. intros [|j] m Hj; simpl in Hj.
    + apply (inj Some) in Hj as <-. simpl in Hk |- *. rewrite Hk. repeat case_decide; done || lia.
    + rewrite (Hout j m Hj). repeat case_decide; done || lia.
Qed.

Lemma run_pending n ops t :
  wheel_ok t -> pending n t -> Forall others ops ->
  exists outs t', run_wheel ops t = Done (outs, t') /\ expires_at n outs.
Proof.
  intros Hok Hp Hops. revert n t Hok Hp. induction Hops as [|op ops Ho Hops IH]; intros n t Hok Hp.
  { exists [], t. split; [done|]. intros k m. by rewrite lookup_nil. }
  destruct op as [guid tk delay|k|]; simpl.
  - destruct (AddTask guid tk delay t) as [r|w] eqn:Hadd.
    + destruct (add_others _ _ _ _ _ Hok Ho Hadd) as (? & _ & ?). simpl. apply IH; auto.
    + destruct (AddTask_cases guid tk delay t Hok) as [Heq|(?&?&?&?&Heq&_)]; by rewrite Heq in Hadd.
  - destruct (remove_others k t Hok Ho) as (? & _ & ?). apply IH; auto.
  - destruct (tick_eq t Hok) as (items & _ & Htick).
    pose proof (tick_ok t _ Hok Htick) as Hok'.
    destruct (tick_pending n t _ Hok Hp Htick) as [H1 Hp']. rewrite Htick. cbn [mbind outcome_bind].
    destruct (decide (n = 1)) as [->|Hn]; destruct Hp' as [Hp' Hk].
    + destruct (run_absent ops _ Hok' Hp' Hops) as (outs & t' & -> & Hout).
      eexists _, t'. split; [reflexivity|]. intros [|j] m Hj; simpl in Hj.
      * apply (inj Some) in Hj as <-. exact Hk.
      * rewrite (Hout j m Hj). repeat case_decide; done || lia.
    + destruct (IH _ _ Hok' Hp') as (outs & t' & -> & Hout).
      eexists _, t'. split; [reflexivity|]. intros [|j] m Hj; simpl in Hj.
      * apply (inj Some) in Hj as <-. simpl in Hk |- *. rewrite Hk. repeat case_decide; done || lia.
      * rewrite (Hout j m Hj). repeat case_decide; done || lia.
Qed.

End one_task.

(** The slot of a delay of a second or more. *)
Lemma slot_ticks t D i r :
  wheel_ok t -> nanoseconds <= D -> (i, r) = slot_of t D ->
  let d := D / nanoseconds in
  0 <= r /\ ticks_left t i r = if d mod 3600 =? 0 then d + 3600 else d.
Proof.
  intros Hok HD Hs d. pose proof (slot_of_range t D Hok) as Hrange. rewrite <-Hs in Hrange.
  destruct Hrange as [_ Hr]; [unfold nanoseconds in HD; lia|]. split; [done|].
  unfold slot_of in Hs. rewrite (wk_tick t Hok), (wk_round t Hok), (wk_count t Hok) in Hs.
  assert (Hrel : D mod (nanoseconds * 3600) / nanoseconds = d mod 3600).
  { rewrite Z.rem_mul_r by (unfold nanoseconds; lia).
    rewrite Z.mul_comm, Z.div_add by (unfold nanoseconds; lia).
    rewrite (Z.div_small (D mod nanoseconds)); [done|]. apply Z.mod_pos_bound. unfold nanoseconds; lia. }
  assert (Hrounds : D / (nanoseconds * 3600) = d / 3600)
    by (unfold d; rewrite Z.div_div by (unfold nanoseconds; lia); done).
  rewrite Hrel, Hrounds in Hs. injection Hs as Hi ->. unfold ticks_left.
  pose proof (Z.mod_pos_bound d 3600 ltac:(lia)) as Hd. pose proof (Z.div_mod d 3600 ltac:(lia)) as Hdm.
  assert ((i - tw_wheelCursor t - 1) mod 3600 = (d mod 3600 - 1) mod 3600) as ->.
  { destruct (Z.leb_spec 3600 (tw_wheelCursor t + d mod 3600)); subst i; [|f_equal; lia].
    rewrite <-(Z_mod_plus_full _ 1). f_equal. lia. }
  destruct (Z.eqb_spec (d mod 3600) 0) as [H0|H0].
  - rewrite H0. change ((0 - 1) mod 3600) with 3599. lia.
  - rewrite Z.mod_small by lia. lia.
Qed.

(** C29: a task added to the wheel of [NewTimerWheel] expires exactly once, at
    the tick its delay asks for: after as many ticks as the delay has whole
    seconds (one if it has none), but one round of 3600 ticks later if that
    number is a multiple of 3600.  This is so whatever else is added, removed
    and expires in the meantime, as long as the keys drawn are distinct and
    the task is not removed; none of the operations panics. *)
Theorem timer_expires_once guid task delay key t t' ops :
  wheel_ok t -> AddTask guid (Some task) delay t = Done (Some key, t') ->
  absent key t -> Forall (others key) ops ->
  let d := Z.max 1 (delay / nanoseconds) in
  exists outs t'', run_wheel ops t' = Done (outs, t'') /\
    expires_at key task (if d mod 3600 =? 0 then d + 3600 else d) outs.
Proof.
  intros Hok Hadd Habs Hops d.
  destruct (AddTask_cases guid (Some task) delay t Hok)
    as [Heq|(i & items & k & v & Heq & Hi & _ & _ & Htask & Hdelay & Hir & Hs)];
    rewrite Heq in Hadd; [done|]. apply Done_inj in Hadd.
  injection Hadd as Hk Ht'. subst k t'. injection Htask as Htask.
  apply run_pending; [apply set_wheel_ok; [done|apply length_insert]| |done].
  exists i, (<[key := v]> items), v. simpl.
  rewrite list_lookup_insert_eq by (by eapply lookup_lt_Some).
  split; [done|]. split; [done|]. split; [apply lookup_insert_eq|]. split; [done|].
  assert (Hslot : 0 <= to_rounds v /\
    ticks_left t i (to_rounds v) = if d mod 3600 =? 0 then d + 3600 else d).
  { apply slot_ticks in Hs; [|done|destruct (Z.ltb_spec delay nanoseconds); lia]. revert Hs. unfold d.
    destruct (Z.ltb_spec delay nanoseconds) as [Hlt|Hge].
    - rewrite Z.div_same by done. by rewrite (Z.div_small delay) by lia.
    - rewrite Z.max_r; [done|]. apply Z.div_le_lower_bound; unfold nanoseconds in *; lia. }
  split; [apply Hslot|]. split; [apply Hslot|].
  intros j items' Hj. rewrite list_lookup_insert_ne by done. by apply Forall_lookup_1.
Qed.

End spec.

(** A wheel with a tick of less than a second still counts a round as an
    hour: with a tick of 100 ms, a delay of 50 minutes is beyond its slots. *)
Theorem short_tick_panics :
  AddTask (fun _ => "k") (Some tt) (3000 * nanoseconds)
    (NewTimerWheelWithTick (100 * 1000000)) = Panicked "index out of range".
Proof. vm_compute. reflexivity. Qed.

(** ** Witnesses *)

Definition ex_added (delay : Z) : option string * TimerWheel string :=
  match AddTask (fun _ => "k1") (Some "t") delay NewTimerWheel with
  | Done r => r
  | Panicked _ => (None, NewTimerWheel)
  end.

Definition ex_ops : list (wheel_op (Task := string)) :=
  [OTick; OAdd (fun _ => "k2") (Some "u") (2 * nanoseconds); OTick; ORemove "k3"; OTick; OTick].

Lemma absent_new key : absent (Task := string) key NewTimerWheel.
Proof. apply Forall_replicate. apply lookup_empty. Qed.

(** Three seconds expire at the third tick, an hour after two hours. *)
Lemma timer_expires_once_witness :
  (exists outs t'', run_wheel ex_ops (ex_added (3 * nanoseconds)).2 = Done (outs, t'') /\
     expires_at "k1" "t" 3 outs /\ length outs = 4%nat) /\
  (exists outs t'', run_wheel ex_ops (ex_added (3600 * nanoseconds)).2 = Done (outs, t'') /\
     expires_at "k1" "t" 7200 outs).
Proof.
  assert (Hops : Forall (others "k1") ex_ops).
  { repeat apply Forall_cons_2; try apply Forall_nil_2; simpl; try exact I;
      try (intros n; discriminate); discriminate. }
  assert (Hadd : forall d, bool_decide ((ex_added d).1 = Some "k1") = true ->
    AddTask (fun _ => "k1") (Some "t") d NewTimerWheel = Done (Some "k1", (ex_added d).2)).
  { intros d Hd%bool_decide_eq_true. unfold ex_added in *.
    destruct (AddTask _ _ d _) as [[k w]|]; cbn [fst snd] in *; [by rewrite Hd|discriminate Hd]. }
  assert (H3 : bool_decide ((ex_added (3 * nanoseconds)).1 = Some "k1") = true)
    by (vm_compute; reflexivity).
  assert (H3600 : bool_decide ((ex_added (3600 * nanoseconds)).1 = Some "k1") = true)
    by (vm_compute; reflexivity).
  split.
  - destruct (timer_expires_once (fun _ => "k1") "t" (3 * nanoseconds) "k1" NewTimerWheel
      (ex_added (3 * nanoseconds)).2 ex_ops NewTimerWheel_ok
      (Hadd _ H3) (absent_new "k1") Hops) as (outs & t'' & Hrun & He).
    exists outs, t''. split; [exact Hrun|]. split; [exact He|].
    assert ((match run_wheel ex_ops (ex_added (3 * nanoseconds)).2 with
             | Done (outs, _) => length outs | Panicked _ => 0%nat end) = 4%nat) as Hlen
      by (vm_compute; reflexivity).
    rewrite Hrun in Hlen. exact Hlen.
  - exact (timer_expires_once (fun _ => "k1") "t" (3600 * nanoseconds) "k1" NewTimerWheel
      (ex_added (3600 * nanoseconds)).2 ex_ops NewTimerWheel_ok
      (Hadd _ H3600) (absent_new "k1") Hops).
Defined.
