(* ===== verification/NvPorts.v ===== *)
(** * Port links: [share/utils/utils.go] and [controller/rest/policy.go]

    A network rule names its ports by a string such as
    ["icmp,tcp/80,udp/8000-8010"].  The REST server normalises what the user
    wrote ([normalizePorts]); the controller's policy calculation and the
    agent parse the pieces ([ParsePortRangeLink]) and intersect the ports of
    a rule with those of a workload ([GetCommonPorts]).

    A parser's [error] result is [None]: the callers only test it. *)

From Stdlib Require Import ZArith Lia Ascii.
From S2P Require Import Prelude GoLib GoText.
Local Open Scope Z_scope.

Definition cliAny : string := "any".

(** [syscall.IPPROTO_ICMP], [IPPROTO_TCP] and [IPPROTO_UDP]. *)
Definition proto_icmp : Z := 1.
Definition proto_tcp : Z := 6.
Definition proto_udp : Z := 17.

(** ** Printing *)

Definition Proto2Name (ipproto : Z) : string :=
  if ipproto =? proto_tcp then "tcp"
  else if ipproto =? proto_udp then "udp"
  else if ipproto =? proto_icmp then "icmp"
  else fmt_int ipproto.

Definition GetPortLink (ipproto port : Z) : string :=
  if ipproto =? proto_tcp then "tcp/" +:+ fmt_int port
  else if ipproto =? proto_udp then "udp/" +:+ fmt_int port
  else if ipproto =? proto_icmp then "icmp"
  else if negb (ipproto =? 0) then "ip:" +:+ fmt_int ipproto
  else fmt_int port.

Definition getPortRangeStr (port portR : Z) : string :=
  if port =? portR then fmt_int port
  else if (port =? 0) && (portR =? 65535) then cliAny
  else if port <? portR then fmt_int port +:+ "-" +:+ fmt_int portR
  else fmt_int portR +:+ "-" +:+ fmt_int port.

Definition GetPortRangeLink (ipproto port portR : Z) : string :=
  if ipproto =? proto_tcp then "tcp/" +:+ getPortRangeStr port portR
  else if ipproto =? proto_udp then "udp/" +:+ getPortRangeStr port portR
  else if ipproto =? proto_icmp then "icmp"
  else if negb (ipproto =? 0) then "ip:" +:+ fmt_int ipproto
  else getPortRangeStr port portR.

(** ** Parsing *)

(** [uint16(val)] keeps the low 16 bits. *)
Definition getPortRange (port : string) : option (Z * Z) :=
  if bool_decide (port = cliAny) then Some (0, 65535)
  else
    match Split port "-" with
    | [] => None
    | p0 :: rest =>
        v ← Atoi p0;
        let low := u16 v in
        match rest with
        | [p1] =>
            w ← Atoi p1;
            let high := u16 w in
            if low <? high then Some (low, high) else Some (high, low)
        | _ => Some (low, low)
        end
    end.

Definition ParsePortRangeLink (name : string) : option (Z * Z * Z) :=
  if HasPrefix name "tcp/" then
    '(low, high) ← getPortRange (string_drop 4 name); Some (proto_tcp, low, high)
  else if HasPrefix name "udp/" then
    '(low, high) ← getPortRange (string_drop 4 name); Some (proto_udp, low, high)
  else if bool_decide (name = "icmp") then Some (proto_icmp, 0, 65535)
  else if HasPrefix name "ip:" then
    proto ← Atoi (string_drop 3 name); Some (u8 proto, 0, 65535)
  else if bool_decide (name = cliAny) then Some (0, 0, 65535)
  else '(low, high) ← getPortRange name; Some (0, low, high).

(** ** The ports two lists have in common *)

(** The body of the inner loop: the protocol and range two links share. *)
Definition common_range (r1 r2 : Z * Z * Z) : option (Z * Z * Z) :=
  let '(proto1, low1, high1) := r1 in
  let '(proto2, low2, high2) := r2 in
  proto ← (if proto1 =? 0 then Some proto2
           else if proto2 =? 0 then Some proto1
           else if proto1 =? proto2 then Some proto1
           else None);
  if (high1 <? low2) || (high2 <? low1) then None
  else Some (proto, if low2 <? low1 then low1 else low2,
             if high2 <? high1 then high2 else high1).

Definition link_of (r : Z * Z * Z) : string :=
  let '(proto, low, high) := r in GetPortRangeLink proto low high.

(** [p] grows by one link. *)
Definition add_link (p pp : string) : string :=
  if bool_decide (p = "") then pp else p +:+ "," +:+ pp.

Definition GetCommonPorts (ports1 ports2 : string) : string :=
  let p1 := Split ports1 "," in
  let p2 := Split ports2 "," in
  foldl (fun p pp1 =>
    match ParsePortRangeLink pp1 with
    | None => p
    | Some r1 =>
        foldl (fun p pp2 =>
          match ParsePortRangeLink pp2 with
          | None => p
          | Some r2 =>
              match common_range r1 r2 with
              | None => p
              | Some r => add_link p (link_of r)
              end
          end) p p2
    end) "" p1.

(** ** Normalising what a user wrote ([controller/rest/policy.go]) *)

Record portRange := { pr_proto : Z; pr_low : Z; pr_high : Z }.

#[export] Instance portRange_eq_dec : EqDecision portRange.
Proof. solve_decision. Defined.

(** [portRangeSorter.Less]. *)
Definition port_less (x y : portRange) : bool :=
  if pr_proto x <? pr_proto y then true
  else if pr_proto y <? pr_proto x then false
  else if pr_low x <? pr_low y then true
  else if pr_low y <? pr_low x then false
  else if pr_high x <? pr_high y then true
  else false.

Definition parseRange (s : string) : option (Z * Z) :=
  match IndexByte s "-"%char with
  | Some dash =>
      low ← Atoi (string_take dash s);
      high ← Atoi (string_drop (dash + 1) s);
      Some (low, high)
  | None => low ← Atoi s; Some (low, low)
  end.

(** [strings.EqualFold(s, api.PolicyPortAny)]: only the letters of either
    case fold to ["any"]. *)
Definition is_any (s : string) : bool := bool_decide (ToLower s = cliAny).

(** [strings.Trim(s, " ")]. *)
Fixpoint trim_left_space (s : string) : string :=
  match s with
  | String c s' => if bool_decide (c = " "%char) then trim_left_space s' else s
  | EmptyString => ""
  end.
Definition Trim_space (s : string) : string :=
  String.rev (trim_left_space (String.rev (trim_left_space s))).

(** [strings.FieldsFunc] at commas and blanks; [cur] is reversed. *)
Definition is_port_sep (c : ascii) : bool :=
  bool_decide (c = ","%char) || bool_decide (c = " "%char).
Fixpoint port_fields_go (cur s : string) : list string :=
  match s with
  | EmptyString => if bool_decide (cur = "") then [] else [String.rev cur]
  | String c s' =>
      if is_port_sep c
      then (if bool_decide (cur = "") then [] else [String.rev cur]) ++ port_fields_go "" s'
      else port_fields_go (String c cur) s'
  end.
Definition port_fields (s : string) : list string := port_fields_go "" s.

(** What one field contributes to the loop of [normalizePorts]. *)
Inductive port_field :=
| FTcpAny | FUdpAny | FIcmp | FAny
| FRange (r : portRange).

#[export] Instance port_field_eq_dec : EqDecision port_field.
Proof. solve_decision. Defined.

Definition range_field (proto : Z) (s : string) : option port_field :=
  '(low, high) ← parseRange s;
  if (low <? 0) || (65535 <? low) || (high <? 0) || (65535 <? high) || (high <? low) then None
  else Some (FRange {| pr_proto := proto; pr_low := low; pr_high := high |}).

Definition parse_field (f : string) : option port_field :=
  if HasPrefix f "tcp/" || HasPrefix f "TCP/" then
    if is_any (string_drop 4 f) then Some FTcpAny else range_field proto_tcp (string_drop 4 f)
  else if HasPrefix f "udp/" || HasPrefix f "UDP/" then
    if is_any (string_drop 4 f) then Some FUdpAny else range_field proto_udp (string_drop 4 f)
  else if bool_decide (f = "icmp") then Some FIcmp
  else if is_any f then Some FAny
  else range_field proto_tcp f.

(** The loop's variables: [tcpAny], [udpAny], [icmp] and [ports]. *)
Record port_flags := { tcpAny : bool; udpAny : bool; icmp : bool; ports : list portRange }.

Definition add_field (st : port_flags) (f : port_field) : port_flags :=
  match f with
  | FTcpAny => {| tcpAny := true; udpAny := udpAny st; icmp := icmp st; ports := ports st |}
  | FUdpAny => {| tcpAny := tcpAny st; udpAny := true; icmp := icmp st; ports := ports st |}
  | FIcmp => {| tcpAny := tcpAny st; udpAny := udpAny st; icmp := true; ports := ports st |}
  | FAny => {| tcpAny := true; udpAny := true; icmp := icmp st; ports := ports st |}
  | FRange r => {| tcpAny := tcpAny st; udpAny := udpAny st; icmp := icmp st;
                   ports := ports st ++ [r] |}
  end.

Fixpoint scan_fields (st : port_flags) (fs : list string) : option port_flags :=
  match fs with
  | [] => Some st
  | f :: fs' => x ← parse_field f; scan_fields (add_field st x) fs'
  end.

(** The ranges an [any] does not already cover. *)
Definition kept_port (st : port_flags) (p : portRange) : bool :=
  if tcpAny st && (pr_proto p =? proto_tcp) then false
  else if udpAny st && (pr_proto p =? proto_udp) then false
  else true.

Definition port_str (p : portRange) : option string :=
  proto ← (if pr_proto p =? proto_tcp then Some "tcp"
           else if pr_proto p =? proto_udp then Some "udp" else None);
  Some (if pr_low p =? pr_high p
        then proto +:+ "/" +:+ fmt_int (pr_low p)
        else proto +:+ "/" +:+ fmt_int (pr_low p) +:+ "-" +:+ fmt_int (pr_high p)).

Definition port_strs (st : port_flags) : list string :=
  (if icmp st then ["icmp"] else []) ++
  (if tcpAny st && udpAny st then [cliAny]
   else if tcpAny st then ["tcp/any"]
   else if udpAny st then ["udp/any"]
   else []) ++
  omap port_str (sort_slice port_less (List.filter (kept_port st) (ports st))).

Definition no_ports : port_flags :=
  {| tcpAny := false; udpAny := false; icmp := false; ports := [] |}.

Definition normalizePorts (s : string) : option string :=
  let s := Trim_space s in
  if bool_decide (s = "") || is_any s then Some cliAny
  else st ← scan_fields no_ports (port_fields s); Some (Join (port_strs st) ",").

(** ** What the strings denote

    A link covers a protocol and a port; protocol 0 stands for every
    protocol. *)
Definition covers (r : Z * Z * Z) (proto port : Z) : Prop :=
  let '(p, low, high) := r in (p = 0 \/ p = proto) /\ low <= port <= high.

(** The ports a comma-separated list of links names. *)
Definition in_ports (s : string) (proto port : Z) : Prop :=
  exists piece r, piece ∈ Split s "," /\ ParsePortRangeLink piece = Some r /\ covers r proto port.

(** ** Bounds of the parser *)

Definition range_wf (r : Z * Z * Z) : Prop :=
  let '(p, low, high) := r in in_width 8 p /\ in_width 16 low /\ in_width 16 high /\ low <= high.

Lemma getPortRange_wf s low high :
  getPortRange s = Some (low, high) -> in_width 16 low /\ in_width 16 high /\ low <= high.
Proof.
  assert (Hw : forall v, in_width 16 (u16 v)) by (intros; by apply wrap_in_width).
  unfold getPortRange. case_bool_decide; [intros [= <- <-]; unfold in_width; lia|].
  destruct (Split s "-") as [|p0 rest]; [done|].
  destruct (Atoi p0) as [v|]; cbn [mbind option_bind]; [|done].
  destruct rest as [|p1 [|]].
  - intros [= <- <-]. repeat split; apply Hw || lia.
  - destruct (Atoi p1) as [w|]; cbn [mbind option_bind]; [|done].
    destruct (Z.ltb_spec (u16 v) (u16 w)); intros [= <- <-]; repeat split; apply Hw || lia.
  - intros [= <- <-]. repeat split; apply Hw || lia.
Qed.

Lemma ParsePortRangeLink_wf name r : ParsePortRangeLink name = Some r -> range_wf r.
Proof.
  assert (Hp : forall p s x, in_width 8 p ->
    ('(low, high) ← getPortRange s; Some (p, low, high)) = Some x -> range_wf x).
  { intros p s x Hp Hx. destruct (getPortRange s) as [[low high]|] eqn:Hg; [|done].
    apply getPortRange_wf in Hg. by simplify_eq/=. }
  unfold ParsePortRangeLink. repeat case_match; intros Hr.
  - eapply Hp, Hr. unfold in_width, proto_tcp; lia.
  - eapply Hp, Hr. unfold in_width, proto_udp; lia.
  - simplify_eq. repeat split; unfold proto_icmp; lia.
  - destruct (Atoi _) as [v|]; simplify_eq/=. split; [by apply wrap_in_width|].
    unfold in_width; lia.
  - simplify_eq. unfold range_wf, in_width; lia.
  - eapply Hp, Hr. unfold in_width; lia.
Qed.

(** ** Printed links parse back *)

Lemma fmt_int_no_dash n : 0 <= n -> has_byte "-"%char (fmt_int n) = false.
Proof. intros Hn. by apply fmt_int_no_byte. Qed.

Lemma getPortRange_one n : in_width 16 n -> getPortRange (fmt_int n) = Some (n, n).
Proof.
  intros Hn. pose proof Hn as [H0 H1]. unfold getPortRange.
  rewrite bool_decide_eq_false_2 by (by apply fmt_int_ne).
  rewrite Split_no_byte by (by apply fmt_int_no_dash).
  rewrite Atoi_fmt_int by lia. cbn [mbind option_bind]. by rewrite wrap_small.
Qed.

Lemma getPortRange_two low high :
  in_width 16 low -> in_width 16 high -> low <= high ->
  getPortRange (fmt_int low +:+ "-" +:+ fmt_int high) = Some (low, high).
Proof.
  unfold in_width. intros Hl Hh Hle. unfold getPortRange.
  rewrite bool_decide_eq_false_2.
  2: { intros Heq. destruct (fmt_int_head low) as (c & s & d & Hf & Hd); [lia|].
       rewrite Hf, string_app_cons in Heq. by injection Heq as -> _. }
  change (fmt_int low +:+ "-" +:+ fmt_int high)
    with (fmt_int low +:+ String "-"%char (fmt_int high)).
  rewrite (Split_cons "-"%char) by (apply fmt_int_no_dash; lia).
  rewrite Split_no_byte by (apply fmt_int_no_dash; lia).
  rewrite !Atoi_fmt_int by lia. cbn [mbind option_bind].
  rewrite !wrap_small by (unfold in_width; lia).
  destruct (Z.ltb_spec low high); [done|]. by assert (low = high) as -> by lia.
Qed.

Lemma getPortRange_str low high :
  in_width 16 low -> in_width 16 high -> low <= high ->
  getPortRange (getPortRangeStr low high) = Some (low, high).
Proof.
  intros Hl Hh Hle. unfold getPortRangeStr.
  destruct (Z.eqb_spec low high) as [->|Hne]; [by apply getPortRange_one|].
  destruct ((low =? 0) && (high =? 65535)) eqn:Hany.
  - apply andb_true_iff in Hany as [->%Z.eqb_eq ->%Z.eqb_eq]. done.
  - destruct (Z.ltb_spec low high); [by apply getPortRange_two|lia].
Qed.

Lemma getPortRangeStr_head low high :
  in_width 16 low -> in_width 16 high ->
  getPortRangeStr low high = cliAny \/
  exists c s d, getPortRangeStr low high = String c s /\ digit_of c = Some d.
Proof.
  unfold in_width. intros Hl Hh. unfold getPortRangeStr.
  destruct (fmt_int_head low) as (c & s & d & Hf & Hd); [lia|].
  destruct (fmt_int_head high) as (c' & s' & d' & Hf' & Hd'); [lia|].
  repeat case_match; [right; rewrite Hf; eauto|by left|right; rewrite Hf|right; rewrite Hf'];
    rewrite string_app_cons; eauto.
Qed.

(** What a link becomes when it is printed and parsed: only TCP, UDP and
    protocol-less links keep their range. *)
Definition printed (r : Z * Z * Z) : Z * Z * Z :=
  let '(p, low, high) := r in
  if (p =? proto_tcp) || (p =? proto_udp) || (p =? 0) then r else (p, 0, 65535).

Lemma Parse_plain name :
  (name = cliAny \/ exists c s d, name = String c s /\ digit_of c = Some d) ->
  ParsePortRangeLink name = '(low, high) ← getPortRange name; Some (0, low, high).
Proof.
  intros [->|(c & s & d & -> & Hd)]; [done|]. unfold ParsePortRangeLink.
  assert (Hne : forall x, digit_of x = None -> c <> x) by congruence.
  rewrite !HasPrefix_head by (by apply Hne).
  rewrite !bool_decide_eq_false_2; [done|..]; intros [= -> _]; done.
Qed.

Lemma Parse_tcp s :
  ParsePortRangeLink ("tcp/" +:+ s) =
  '(low, high) ← getPortRange s; Some (proto_tcp, low, high).
Proof. unfold ParsePortRangeLink. by rewrite HasPrefix_app, (string_drop_app "tcp/"). Qed.

Lemma Parse_udp s :
  ParsePortRangeLink ("udp/" +:+ s) =
  '(low, high) ← getPortRange s; Some (proto_udp, low, high).
Proof.
  unfold ParsePortRangeLink. rewrite (HasPrefix_app "udp/"), (string_drop_app "udp/").
  by change (HasPrefix ("udp/" +:+ s) "tcp/") with false.
Qed.

Lemma Parse_ip s :
  ParsePortRangeLink ("ip:" +:+ s) = proto ← Atoi s; Some (u8 proto, 0, 65535).
Proof.
  unfold ParsePortRangeLink. rewrite (HasPrefix_app "ip:"), (string_drop_app "ip:").
  change (HasPrefix ("ip:" +:+ s) "tcp/") with false.
  change (HasPrefix ("ip:" +:+ s) "udp/") with false. cbn iota.
  by rewrite bool_decide_eq_false_2 by done.
Qed.

Lemma Parse_link r : range_wf r -> ParsePortRangeLink (link_of r) = Some (printed r).
Proof.
  destruct r as [[p low] high]. intros (Hp & Hl & Hh & Hle).
  unfold link_of, GetPortRangeLink, printed.
  destruct (Z.eqb_spec p proto_tcp) as [->|Hnt].
  { rewrite Parse_tcp, getPortRange_str by done. done. }
  destruct (Z.eqb_spec p proto_udp) as [->|Hnu].
  { rewrite Parse_udp, getPortRange_str by done. done. }
  destruct (Z.eqb_spec p proto_icmp) as [->|Hni]; [done|].
  destruct (Z.eqb_spec p 0) as [->|Hn0]; simpl.
  - rewrite Parse_plain by (by apply getPortRangeStr_head). by rewrite getPortRange_str.
  - unfold in_width in Hp. rewrite Parse_ip, Atoi_fmt_int by lia. simpl.
    by rewrite wrap_small.
Qed.

(** ** [GetCommonPorts] is the intersection *)

(** The links of a list that parse. *)
Definition links (s : string) : list (Z * Z * Z) := omap ParsePortRangeLink (Split s ",").

Definition common_links (s1 s2 : string) : list (Z * Z * Z) :=
  links s1 ≫= fun r1 => omap (common_range r1) (links s2).

Lemma in_ports_links s proto port :
  in_ports s proto port <-> exists r, r ∈ links s /\ covers r proto port.
Proof.
  unfold in_ports, links. setoid_rewrite list_elem_of_omap. naive_solver.
Qed.

Lemma links_wf s r : r ∈ links s -> range_wf r.
Proof. unfold links. rewrite list_elem_of_omap. intros (x & _ & Hx). by eapply ParsePortRangeLink_wf. Qed.

Lemma common_range_wf r1 r2 r :
  range_wf r1 -> range_wf r2 -> common_range r1 r2 = Some r -> range_wf r.
Proof.
  destruct r1 as [[p1 l1] h1], r2 as [[p2 l2] h2], r as [[p l] h].
  unfold range_wf, common_range, in_width. intros (?&?&?&?) (?&?&?&?).
  destruct (Z.eqb_spec p1 0), (Z.eqb_spec p2 0), (Z.eqb_spec p1 p2);
    cbn [mbind option_bind]; try done;
    destruct (Z.ltb_spec h1 l2), (Z.ltb_spec h2 l1); simpl; try done;
    intros [= <- <- <-]; repeat case_match; lia.
Qed.

Lemma common_range_covers r1 r2 proto port :
  proto <> 0 ->
  (exists r, common_range r1 r2 = Some r /\ covers r proto port) <->
  covers r1 proto port /\ covers r2 proto port.
Proof.
  intros Hp0. destruct r1 as [[p1 l1] h1], r2 as [[p2 l2] h2]. unfold common_range, covers.
  destruct (Z.eqb_spec p1 0), (Z.eqb_spec p2 0), (Z.eqb_spec p1 p2); cbn [mbind option_bind];
    try (split; [by intros (?&?&?)|lia]);
    destruct (Z.ltb_spec h1 l2), (Z.ltb_spec h2 l1); simpl;
    try (split; [by intros (?&?&?)|lia]);
    destruct (Z.ltb_spec l2 l1), (Z.ltb_spec h2 h1);
    (split; [intros (r & [= <-] & Hc); lia|
             intros Hc; eexists; split; [reflexivity|]; simpl; lia]).
Qed.

Lemma elem_of_common_links s1 s2 r :
  r ∈ common_links s1 s2 <->
  exists r1 r2, r1 ∈ links s1 /\ r2 ∈ links s2 /\ common_range r1 r2 = Some r.
Proof.
  unfold common_links. rewrite list_elem_of_bind. split.
  - intros (r1 & Hr & Hr1). rewrite list_elem_of_omap in Hr.
    destruct Hr as (r2 & Hr2 & Hr). by exists r1, r2.
  - intros (r1 & r2 & Hr1 & Hr2 & Hr). exists r1. split; [|done].
    apply list_elem_of_omap. by exists r2.
Qed.

Lemma common_links_wf s1 s2 : Forall range_wf (common_links s1 s2).
Proof.
  apply Forall_forall. intros r. rewrite elem_of_common_links.
  intros (r1 & r2 & Hr1 & Hr2 & Hr).
  by eapply common_range_wf; [..|exact Hr]; eapply links_wf.
Qed.

Lemma link_of_ne r : range_wf r -> link_of r <> "".
Proof. intros Hw Heq. pose proof (Parse_link r Hw) as Hp. by rewrite Heq in Hp. Qed.

Lemma add_link_Join l1 l2 :
  Forall (fun s => s <> "") l1 -> Forall (fun s => s <> "") l2 ->
  foldl add_link (Join l1 ",") l2 = Join (l1 ++ l2) ",".
Proof.
  intros H1 H2. revert l1 H1. induction H2 as [|s l2 Hs H2 IH]; intros l1 H1.
  { by rewrite app_nil_r. }
  simpl. assert (Hst : add_link (Join l1 ",") s = Join (l1 ++ [s]) ",").
  { unfold add_link. destruct H1 as [|t l1 Ht H1]; [done|].
    rewrite bool_decide_eq_false_2.
    - clear. unfold Join. revert t. induction l1 as [|u l1 IH]; intros t; [done|].
      cbn [app]. change (String.concat "," (t :: u :: l1)) with (t +:+ "," +:+ String.concat "," (u :: l1)).
      rewrite !string_app_assoc, IH. done.
    - unfold Join. destruct l1; simpl; [done|]. by destruct t. }
  rewrite Hst, IH; [by rewrite <-app_assoc|]. apply Forall_app; auto.
Qed.

Lemma GetCommonPorts_Join s1 s2 :
  GetCommonPorts s1 s2 = Join (link_of <$> common_links s1 s2) ",".
Proof.
  assert (Hin : forall r1 l p, foldl (fun p pp2 => match ParsePortRangeLink pp2 with
      | None => p
      | Some r2 => match common_range r1 r2 with None => p | Some r => add_link p (link_of r) end
      end) p l = foldl add_link p (link_of <$> omap (common_range r1) (omap ParsePortRangeLink l))).
  { intros r1 l. induction l as [|x l IH]; intros p; [done|]. simpl. rewrite IH.
    destruct (ParsePortRangeLink x) as [r2|]; simpl; [|done].
    by destruct (common_range r1 r2). }
  transitivity (foldl add_link (Join [] ",") (link_of <$> common_links s1 s2)).
  - unfold GetCommonPorts, common_links, links. cbv zeta.
    generalize (Split s1 ",") (Split s2 ","). intros l l2. change (Join [] ",") with "".
    generalize "" as p. induction l as [|x l IH]; intros p; [done|]. simpl.
    rewrite IH. destruct (ParsePortRangeLink x) as [r1|]; simpl; [|done].
    by rewrite fmap_app, foldl_app, Hin.
  - rewrite add_link_Join; [done|constructor|]. rewrite Forall_fmap.
    eapply Forall_impl; [apply common_links_wf|]. intros r Hr. by apply link_of_ne.
Qed.

Lemma getPortRangeStr_no_comma low high :
  0 <= low -> 0 <= high -> has_byte ","%char (getPortRangeStr low high) = false.
Proof.
  intros Hl Hh. unfold getPortRangeStr.
  repeat case_match; rewrite ?has_byte_app, ?fmt_int_no_byte; done.
Qed.

Lemma link_of_no_comma r : range_wf r -> has_byte ","%char (link_of r) = false.
Proof.
  destruct r as [[p l] h]. unfold range_wf, in_width. intros (?&?&?&?).
  unfold link_of, GetPortRangeLink.
  repeat case_match; rewrite ?has_byte_app, ?getPortRangeStr_no_comma, ?fmt_int_no_byte; done || lia.
Qed.

(** A list of pieces that parse denotes the union of their links. *)
Lemma links_pieces l rs :
  Forall2 (fun s r => ParsePortRangeLink s = Some r /\ has_byte ","%char s = false) l rs ->
  links (Join l ",") = rs.
Proof.
  intros Hl. unfold links. destruct Hl as [|s r l rs Hs Hl]; [done|]. rewrite Split_Join.
  - destruct Hs as [Hs _]. cbn. rewrite Hs. f_equal.
    induction Hl as [|s' r' l rs [Hs' _] Hl IH]; [done|]. cbn. rewrite Hs'. by f_equal.
  - done.
  - constructor; [apply Hs|]. induction Hl as [|s' r' l rs [_ Hs'] Hl IH]; by constructor.
Qed.

Lemma links_Join l :
  Forall range_wf l -> links (Join (link_of <$> l) ",") = printed <$> l.
Proof.
  intros Hl. apply links_pieces. induction Hl as [|r l Hr Hl IH]; constructor; [|done].
  split; [by apply Parse_link|by apply link_of_no_comma].
Qed.

Definition has_ports (proto : Z) : Prop := proto = proto_tcp \/ proto = proto_udp.

Lemma printed_covers r proto port :
  has_ports proto -> covers (printed r) proto port <-> covers r proto port.
Proof.
  destruct r as [[p l] h]. unfold has_ports, printed, covers, proto_tcp, proto_udp. intros Hp.
  destruct (Z.eqb_spec p 6), (Z.eqb_spec p 17), (Z.eqb_spec p 0); simpl; lia.
Qed.

(** C34: For TCP and for UDP the ports of [GetCommonPorts ports1 ports2], read
    back by the parser that reads rules, are exactly the ports both strings
    name, for any two strings (links that do not parse name nothing). *)
Theorem GetCommonPorts_spec ports1 ports2 proto port :
  has_ports proto ->
  in_ports (GetCommonPorts ports1 ports2) proto port <->
  in_ports ports1 proto port /\ in_ports ports2 proto port.
Proof.
  intros Hp. assert (Hp0 : proto <> 0) by (unfold has_ports, proto_tcp, proto_udp in Hp; lia).
  rewrite !in_ports_links, GetCommonPorts_Join, links_Join by apply common_links_wf.
  setoid_rewrite list_elem_of_fmap. setoid_rewrite elem_of_common_links. split.
  - intros (x & (r & -> & r1 & r2 & Hr1 & Hr2 & Hr) & Hc).
    rewrite printed_covers in Hc by done.
    destruct (proj1 (common_range_covers r1 r2 proto port Hp0)) as [H1 H2]; [by exists r|].
    split; [by exists r1|by exists r2].
  - intros [(r1 & Hr1 & H1) (r2 & Hr2 & H2)].
    destruct (proj2 (common_range_covers r1 r2 proto port Hp0)) as (r & Hr & Hc); [done|].
    exists (printed r). split; [|by apply printed_covers]. eauto 10.
Qed.
Lemma GetCommonPorts_spec_witness :
  GetCommonPorts "tcp/80-90,udp/any" "85-100" = "tcp/85-90,udp/85-100" /\
  (in_ports (GetCommonPorts "tcp/80-90,udp/any" "85-100") proto_udp 99 <->
   in_ports "tcp/80-90,udp/any" proto_udp 99 /\ in_ports "85-100" proto_udp 99).
Proof. split; [vm_compute; reflexivity|]. apply GetCommonPorts_spec. by right. Defined.

(** ** What [normalizePorts] keeps of the request *)

Definition field_covers (f : port_field) (proto port : Z) : Prop :=
  match f with
  | FTcpAny => proto = proto_tcp
  | FUdpAny => proto = proto_udp
  | FIcmp => proto = proto_icmp
  | FAny => has_ports proto
  | FRange r => proto = pr_proto r /\ pr_low r <= port <= pr_high r
  end.

(** The ports a request names. *)
Definition requested (s : string) (proto port : Z) : Prop :=
  let t := Trim_space s in
  t = "" \/ is_any t = true \/
  exists f x, f ∈ port_fields t /\ parse_field f = Some x /\ field_covers x proto port.

Definition flags_cover (st : port_flags) (proto port : Z) : Prop :=
  (tcpAny st = true /\ proto = proto_tcp) \/
  (udpAny st = true /\ proto = proto_udp) \/
  (icmp st = true /\ proto = proto_icmp) \/
  exists r, r ∈ ports st /\ proto = pr_proto r /\ pr_low r <= port <= pr_high r.

Definition port_wf (r : portRange) : Prop :=
  has_ports (pr_proto r) /\ in_width 16 (pr_low r) /\ in_width 16 (pr_high r) /\
  pr_low r <= pr_high r.

Lemma range_field_wf proto s r :
  has_ports proto -> range_field proto s = Some r -> exists p, r = FRange p /\ port_wf p.
Proof.
  intros Hp. unfold range_field. destruct (parseRange s) as [[low high]|]; [|done].
  cbn [mbind option_bind].
  destruct (Z.ltb_spec low 0), (Z.ltb_spec 65535 low), (Z.ltb_spec high 0),
    (Z.ltb_spec 65535 high), (Z.ltb_spec high low); simpl; try done.
  intros [= <-]. eexists; split; [reflexivity|]. unfold port_wf, in_width; simpl.
  repeat split; try lia; done.
Qed.

Lemma parse_field_wf f r : parse_field f = Some (FRange r) -> port_wf r.
Proof.
  assert (Ht : has_ports proto_tcp) by (by left). assert (Hu : has_ports proto_udp) by (by right).
  unfold parse_field. repeat case_match; try done; intros Hr;
    (destruct (range_field_wf _ _ _ Ht Hr) as (? & ? & ?) ||
     destruct (range_field_wf _ _ _ Hu Hr) as (? & ? & ?)); by simplify_eq.
Qed.

Lemma add_field_cover st x proto port :
  has_ports proto ->
  flags_cover (add_field st x) proto port <->
  flags_cover st proto port \/ field_covers x proto port.
Proof.
  intros Hp. unfold flags_cover, field_covers. unfold has_ports in *.
  destruct x; simpl; [by intuition auto..|].
  assert (Hex : forall P : portRange -> Prop,
    (exists p, p ∈ ports st ++ [r] /\ P p) <-> (exists p, p ∈ ports st /\ P p) \/ P r).
  { intros P. setoid_rewrite elem_of_app. setoid_rewrite list_elem_of_singleton. split.
    - intros (p & [Hin| ->] & HP); eauto.
    - intros [(p & Hin & HP)|HP]; eauto. }
  rewrite Hex. tauto.
Qed.

Lemma scan_fields_cover fs st st' proto port :
  has_ports proto -> scan_fields st fs = Some st' ->
  flags_cover st' proto port <->
  flags_cover st proto port \/
  exists f x, f ∈ fs /\ parse_field f = Some x /\ field_covers x proto port.
Proof.
  intros Hp. revert st. induction fs as [|f fs IH]; intros st Hs; simpl in Hs.
  - simplify_eq. split; [by left|]. intros [?|(? & ? & ?%elem_of_nil & _)]; done.
  - destruct (parse_field f) as [x|] eqn:Hf; [|done]. cbn [mbind option_bind] in Hs.
    rewrite (IH _ Hs), add_field_cover by done. setoid_rewrite elem_of_cons. split.
    + intros [[?|?]|(g & y & ? & ? & ?)]; eauto 10.
    + intros [?|(g & y & [->|?] & ? & ?)]; simplify_eq; eauto 10.
Qed.

Lemma scan_fields_wf fs st st' :
  Forall port_wf (ports st) -> scan_fields st fs = Some st' -> Forall port_wf (ports st').
Proof.
  revert st. induction fs as [|f fs IH]; intros st Hst Hs; simpl in Hs; [by simplify_eq|].
  destruct (parse_field f) as [x|] eqn:Hf; [|done]. cbn [mbind option_bind] in Hs.
  eapply IH, Hs. destruct x; simpl; try done.
  apply Forall_app; split; [done|]. constructor; [|done]. by eapply parse_field_wf.
Qed.

(** The link a kept range prints as. *)
Definition range_of (p : portRange) : Z * Z * Z := (pr_proto p, pr_low p, pr_high p).

Lemma port_str_parse p :
  port_wf p ->
  exists s, port_str p = Some s /\ ParsePortRangeLink s = Some (range_of p) /\
    has_byte ","%char s = false.
Proof.
  intros (Hp & Hl & Hh & Hle). unfold port_str, range_of. pose proof Hl as [Hl0 _].
  pose proof Hh as [Hh0 _].
  destruct Hp as [->| ->]; cbn [mbind option_bind proto_tcp proto_udp Z.eqb Pos.eqb];
    destruct (Z.eqb_spec (pr_low p) (pr_high p)) as [Heq|_];
    (eexists; split; [reflexivity|]); rewrite ?has_byte_app, !fmt_int_no_byte by done;
    (split; [|done]).
  - change ("tcp" +:+ "/" +:+ ?x) with ("tcp/" +:+ x).
    rewrite Parse_tcp, getPortRange_one by done. by rewrite Heq.
  - change ("tcp" +:+ "/" +:+ ?x) with ("tcp/" +:+ x).
    by rewrite Parse_tcp, getPortRange_two.
  - change ("udp" +:+ "/" +:+ ?x) with ("udp/" +:+ x).
    rewrite Parse_udp, getPortRange_one by done. by rewrite Heq.
  - change ("udp" +:+ "/" +:+ ?x) with ("udp/" +:+ x).
    by rewrite Parse_udp, getPortRange_two.
Qed.

(** The links of a normalised list. *)
Definition flag_links (st : port_flags) : list (Z * Z * Z) :=
  (if icmp st then [(proto_icmp, 0, 65535)] else []) ++
  (if tcpAny st && udpAny st then [(0, 0, 65535)]
   else if tcpAny st then [(proto_tcp, 0, 65535)]
   else if udpAny st then [(proto_udp, 0, 65535)]
   else []) ++
  (range_of <$> sort_slice port_less (List.filter (kept_port st) (ports st))).

Lemma sorted_ports_wf st :
  Forall port_wf (ports st) ->
  Forall port_wf (sort_slice port_less (List.filter (kept_port st) (ports st))).
Proof.
  intros Hw. rewrite sort_slice_perm. apply Forall_forall. intros x Hx.
  apply list_elem_of_In, List.filter_In in Hx as [Hx _]. apply list_elem_of_In in Hx.
  rewrite Forall_forall in Hw. by apply Hw.
Qed.

Lemma port_strs_links st :
  Forall port_wf (ports st) -> links (Join (port_strs st) ",") = flag_links st.
Proof.
  intros Hw%sorted_ports_wf. apply links_pieces. unfold port_strs, flag_links.
  apply Forall2_app; [destruct (icmp st); repeat constructor|].
  apply Forall2_app; [destruct (tcpAny st), (udpAny st); repeat constructor|].
  induction Hw as [|p l Hp Hl IH]; [constructor|]. cbn.
  destruct (port_str_parse p Hp) as (s & -> & Hs). by constructor.
Qed.

Lemma flag_links_cover st proto port :
  Forall port_wf (ports st) -> has_ports proto -> in_width 16 port ->
  (exists r, r ∈ flag_links st /\ covers r proto port) <-> flags_cover st proto port.
Proof.
  intros Hw Hp Hport. unfold flag_links, flags_cover. rewrite Forall_forall in Hw.
  assert (Hs : forall x, x ∈ sort_slice port_less (List.filter (kept_port st) (ports st)) <->
                         x ∈ ports st /\ kept_port st x = true).
  { intros x. rewrite sort_slice_perm, list_elem_of_In, List.filter_In, <-list_elem_of_In. done. }
  setoid_rewrite elem_of_app. setoid_rewrite elem_of_app. setoid_rewrite list_elem_of_fmap.
  unfold in_width in Hport. unfold kept_port in Hs. unfold has_ports in Hp. split.
  - intros (r & [Hr|[Hr|(p & -> & Hin)]] & Hc).
    + destruct (icmp st); set_unfold in Hr; [|done].
      destruct Hr as [->|[]]. unfold covers, proto_icmp, proto_tcp, proto_udp in *. lia.
    + destruct (tcpAny st), (udpAny st); set_unfold in Hr; try done;
        destruct Hr as [->|[]]; unfold covers, proto_tcp, proto_udp in *; intuition lia.
    + apply Hs in Hin as [Hin _]. right; right; right. exists p. split; [done|].
      unfold covers, range_of in Hc. simpl in Hc.
      destruct (Hw _ Hin) as [Hpp _]. unfold has_ports, proto_tcp, proto_udp in *. lia.
  - intros [[Ht ->]|[[Hu ->]|[[Hi ->]|(p & Hin & -> & Hc)]]].
    + rewrite Ht. destruct (udpAny st);
        [exists (0, 0, 65535)|exists (proto_tcp, 0, 65535)];
        (split; [right; left; simpl; by constructor|unfold covers; lia]).
    + rewrite Hu. destruct (tcpAny st);
        [exists (0, 0, 65535)|exists (proto_udp, 0, 65535)];
        (split; [right; left; simpl; by constructor|unfold covers; lia]).
    + unfold proto_icmp, proto_tcp, proto_udp in Hp. lia.
    + assert (Hk := Hs p). destruct (tcpAny st && (pr_proto p =? proto_tcp)) eqn:Et.
      { apply andb_true_iff in Et as [-> Ep%Z.eqb_eq].
        destruct (udpAny st); [exists (0, 0, 65535)|exists (proto_tcp, 0, 65535)];
          (split; [right; left; simpl; by constructor|unfold covers; lia]). }
      destruct (udpAny st && (pr_proto p =? proto_udp)) eqn:Eu.
      { apply andb_true_iff in Eu as [-> Ep%Z.eqb_eq].
        destruct (tcpAny st); [exists (0, 0, 65535)|exists (proto_udp, 0, 65535)];
          (split; [right; left; simpl; by constructor|unfold covers; lia]). }
      exists (range_of p). split; [|unfold covers, range_of; lia].
      right; right. exists p. split; [done|]. by apply Hk.
Qed.

(** A request that [normalizePorts] accepts names, in its normalised
    form and as the rule parser reads it, exactly the TCP and UDP ports the
    request asks for: sorting, the collapse under [any], printing and the
    second parser lose and add none. *)
Theorem normalizePorts_exact s out proto port :
  normalizePorts s = Some out -> has_ports proto -> in_width 16 port ->
  in_ports out proto port <-> requested s proto port.
Proof.
  intros Hn Hp Hport. unfold normalizePorts in Hn. unfold requested.
  destruct (bool_decide (Trim_space s = "") || is_any (Trim_space s)) eqn:Hany.
  - injection Hn as <-. apply orb_true_iff in Hany. rewrite bool_decide_eq_true in Hany.
    split; [tauto|]. intros _. apply in_ports_links. exists (0, 0, 65535).
    split; [by vm_compute; constructor|]. unfold in_width in Hport. unfold covers. lia.
  - apply orb_false_iff in Hany as [Ht%bool_decide_eq_false Ha].
    destruct (scan_fields no_ports (port_fields (Trim_space s))) as [st|] eqn:Hs; [|done].
    injection Hn as <-. assert (Hw : Forall port_wf (ports st))
      by (by eapply scan_fields_wf; [|exact Hs]; constructor).
    rewrite in_ports_links, port_strs_links, flag_links_cover by done.
    rewrite scan_fields_cover by done. unfold flags_cover at 1. simpl.
    split; [intros [Hf|He]; [|by right; right]|intros [?|[?|He]]; [done|congruence|by right]].
    destruct Hf as [[? _]|[[? _]|[[? _]|(r & Hr%elem_of_nil & _)]]]; done.
Qed.
Lemma normalizePorts_exact_witness :
  normalizePorts "udp/53, 443,TCP/80-90 tcp/8080" = Some "tcp/80-90,tcp/443,tcp/8080,udp/53" /\
  (in_ports "tcp/80-90,tcp/443,tcp/8080,udp/53" proto_tcp 443 <->
   requested "udp/53, 443,TCP/80-90 tcp/8080" proto_tcp 443).
Proof.
  split; [vm_compute; reflexivity|].
  apply normalizePorts_exact; [vm_compute; reflexivity|by left|unfold in_width; lia].
Defined.

(** Every link the rule parser accepts is in range whatever the text: an
    8-bit protocol and 16-bit ports with the lower one first. *)
Theorem ParsePortRangeLink_bounds name proto low high :
  ParsePortRangeLink name = Some (proto, low, high) ->
  in_width 8 proto /\ in_width 16 low /\ in_width 16 high /\ low <= high.
Proof. apply (ParsePortRangeLink_wf name (proto, low, high)). Qed.
Lemma ParsePortRangeLink_bounds_witness :
  ParsePortRangeLink "udp/9000-70000" = Some (proto_udp, 4464, 9000) /\
  in_width 8 proto_udp /\ in_width 16 4464 /\ in_width 16 9000 /\ 4464 <= 9000.
Proof.
  assert (Hp : ParsePortRangeLink "udp/9000-70000" = Some (proto_udp, 4464, 9000))
    by (vm_compute; reflexivity).
  split; [exact Hp|]. exact (ParsePortRangeLink_bounds _ _ _ _ Hp).
Defined.

(** A printed link parses back to itself: [ParsePortRangeLink] inverts
    [GetPortRangeLink] on TCP, UDP and protocol-less ranges, and on every
    other protocol it returns that protocol with the full range. *)
Theorem port_link_roundtrip proto low high :
  in_width 8 proto -> in_width 16 low -> in_width 16 high -> low <= high ->
  ParsePortRangeLink (GetPortRangeLink proto low high) =
  Some (if (proto =? proto_tcp) || (proto =? proto_udp) || (proto =? 0)
        then (proto, low, high) else (proto, 0, 65535)).
Proof. intros Hp Hl Hh Hle. by apply (Parse_link (proto, low, high)). Qed.
Lemma port_link_roundtrip_witness :
  GetPortRangeLink 17 53 5353 = "udp/53-5353" /\
  ParsePortRangeLink (GetPortRangeLink 17 53 5353) = Some (17, 53, 5353).
Proof.
  split; [vm_compute; reflexivity|].
  apply (port_link_roundtrip 17 53 5353); unfold in_width; lia.
Defined.

(** The number in a link is reduced modulo its width instead of being
    rejected: [tcp/n] is port [n mod 65536] and [ip:n] is protocol
    [n mod 256], so that [ip:256] is every protocol. *)
Theorem port_link_truncates n :
  0 <= n < 2 ^ 63 ->
  ParsePortRangeLink ("tcp/" +:+ fmt_int n) = Some (proto_tcp, u16 n, u16 n) /\
  ParsePortRangeLink ("ip:" +:+ fmt_int n) = Some (u8 n, 0, 65535).
Proof.
  intros Hn. rewrite Parse_tcp, Parse_ip, Atoi_fmt_int by done. split; [|done].
  unfold getPortRange. rewrite bool_decide_eq_false_2 by (apply fmt_int_ne; [lia|done]).
  rewrite Split_no_byte by (apply fmt_int_no_dash; lia). by rewrite Atoi_fmt_int.
Qed.
Lemma port_link_truncates_witness :
  ParsePortRangeLink "tcp/65616" = Some (proto_tcp, 80, 80) /\
  ParsePortRangeLink ("ip:" +:+ fmt_int 256) = Some (0, 0, 65535).
Proof.
  split; [vm_compute; reflexivity|]. exact (proj2 (port_link_truncates 256 ltac:(lia))).
Defined.

(** Asking for all TCP and all UDP ports is stored as [any], which the
    rule parser reads as every protocol, ICMP included; and a request of
    separators only is stored as the empty string, which names no port at
    all, while the empty request means [any]. *)
Theorem normalizePorts_widens :
  normalizePorts "tcp/any,udp/any" = Some "any" /\
  (forall port, in_width 16 port ->
     in_ports "any" proto_icmp port /\ ~ requested "tcp/any,udp/any" proto_icmp port) /\
  normalizePorts "," = Some "" /\ normalizePorts "" = Some "any" /\
  (forall proto port, ~ in_ports "" proto port).
Proof.
  split; [vm_compute; reflexivity|]. split; [|split; [vm_compute; reflexivity|]].
  - intros port Hport. split.
    + apply in_ports_links. exists (0, 0, 65535). split; [by vm_compute; constructor|].
      unfold covers, in_width in *. lia.
    + unfold requested.
      replace (Trim_space "tcp/any,udp/any") with "tcp/any,udp/any" by (vm_compute; reflexivity).
      intros [?|[?|(f & x & Hf & Hx & Hc)]]; [done|done|].
      replace (port_fields "tcp/any,udp/any") with ["tcp/any"; "udp/any"] in Hf
        by (vm_compute; reflexivity).
      apply elem_of_cons in Hf as [->|Hf];
        [|apply list_elem_of_singleton in Hf as ->]; vm_compute in Hx; by injection Hx as <-.
  - split; [vm_compute; reflexivity|].
    intros proto port (r & Hr & _)%in_ports_links. by apply elem_of_nil in Hr.
Qed.
