(* ===== verification/NvSubnet.v ===== *)
(** * Addresses and subnets: [share/utils/utils.go]

    The arithmetic the controller and the agents do on addresses: an address
    as an integer, the first and last address of a network, the smallest
    network around some addresses, and the map of internal subnets in which
    a bigger network swallows the smaller ones. *)

From Stdlib Require Import ZArith Lia Ascii.
From S2P Require Import Prelude GoLib GoNet GoText.
Local Open Scope Z_scope.

(** ** Big-endian bytes ([binary.BigEndian], [big.Int.SetBytes], [Bytes]) *)

Definition be (l : list Z) : Z := foldl (fun a b => a * 256 + b) 0 l.

Fixpoint be_split (n : nat) (x : Z) : list Z :=
  match n with
  | O => []
  | S n' => (x / 256 ^ Z.of_nat n') mod 256 :: be_split n' x
  end.

(** ** [net] *)

(** [IP.To16() != nil]. *)
Definition has_To16 (ip : IP) : bool :=
  bool_decide (length ip = 4%nat) || bool_decide (length ip = 16%nat).

(** [IPMask.Size]: [(0, 0)] for a mask that is not ones then zeros. *)
Definition Mask_Size (m : list Z) : Z * Z :=
  match simpleMaskLength m with
  | Some ones => (Z.of_nat ones, 8 * Z.of_nat (length m))
  | None => (0, 0)
  end.

(** [IP.Mask]; [[]] is nil. *)
Definition IP_Mask (ip mask : list Z) : IP :=
  let mask := if bool_decide (length mask = 16%nat) && bool_decide (length ip = 4%nat)
                 && bool_decide (take 12 mask = replicate 12 255) then drop 12 mask else mask in
  let ip := if bool_decide (length mask = 4%nat) && bool_decide (length ip = 16%nat)
               && bool_decide (take 12 ip = v4InV6Prefix) then drop 12 ip else ip in
  if bool_decide (length ip = length mask) then zip_with Z.land ip mask else [].

(** [dtoi] of [net]: the value of the leading digits and the rest; [None]
    when there are none or the value reaches 0xFFFFFF. *)
Fixpoint dtoi_go (n : Z) (s : string) : option (Z * string) :=
  match s with
  | EmptyString => Some (n, "")
  | String c s' =>
      match digit_of c with
      | None => Some (n, s)
      | Some d => let n' := n * 10 + d in if 16777215 <=? n' then None else dtoi_go n' s'
      end
  end.
Definition dtoi (s : string) : option (Z * string) :=
  match s with
  | String c _ => if bool_decide (is_Some (digit_of c)) then dtoi_go 0 s else None
  | EmptyString => None
  end.

(** [net.ParseCIDR], its network; the host part of the prefix length is 32
    bits for a dotted address and 128 for one with colons. *)
Definition ParseCIDR (s : string) : option IPNet :=
  i ← IndexByte s "/"%char;
  let addr := string_take i s in
  let mask := string_drop (S i) s in
  let ip := ParseIP addr in
  if bool_decide (ip = []) then None
  else
    let bits := if bool_decide (addr_kind addr = Some "."%char) then 32 else 128 in
    '(n, rest) ← dtoi mask;
    if bool_decide (rest = "") && (n <=? bits) then
      let m := CIDRMask n bits in
      Some {| ipnet_IP := IP_Mask ip m; ipnet_Mask := m |}
    else None.

(** ** Addresses as integers *)

Definition IsIPv4 (ip : IP) : bool := bool_decide (is_Some (To4 ip)).
Definition IsIPv6 (ip : IP) : bool := has_To16 ip.

(** [binary.BigEndian.Uint32(b)] panics when [b] has fewer than four bytes. *)
Definition BigEndian_Uint32 (b : list Z) : outcome Z :=
  if (length b <? 4)%nat then Panicked "index out of range" else Done (be (take 4 b)).

Definition IPv42Int (ip : IP) : outcome Z :=
  if bool_decide (length ip = 16%nat) then BigEndian_Uint32 (drop 12 ip)
  else BigEndian_Uint32 ip.

Definition Int2IPv4 (addr : Z) : IP := be_split 4 addr.

(** [nil, 0] is [None]. *)
Definition ipToInt (ip : IP) : option (Z * Z) :=
  if IsIPv4 ip && (4 <=? length ip)%nat then Some (be (drop (length ip - 4) ip), 32)
  else if IsIPv6 ip && (16 <=? length ip)%nat then Some (be (drop (length ip - 16) ip), 128)
  else None.

(** The bytes of the integer are packed into the end of [bits / 8] bytes; one
    that does not fit writes before the slice and panics. *)
Definition intToIP (ipInt bits : Z) : outcome IP :=
  if ipInt <? 2 ^ bits then Done (be_split (Z.to_nat (bits / 8)) ipInt)
  else Panicked "index out of range".

(** [nil, nil] is a pair of empty slices.  A prefix longer than the address
    makes [hostLen] wrap around, and the shift cannot be allocated. *)
Definition ipnetToRange (network : IPNet) : outcome (IP * IP) :=
  let firstIP := ipnet_IP network in
  let '(prefixLen, bits) := Mask_Size (ipnet_Mask network) in
  if prefixLen =? bits then Done (firstIP, firstIP)
  else
    match ipToInt firstIP with
    | None => Done ([], [])
    | Some (firstIPInt, bits) =>
        if bits <? prefixLen then Panicked "makeslice: len out of range"
        else
          let hostLen := bits - prefixLen in
          lastIP ← intToIP (Z.lor (Z.shiftl 1 hostLen - 1) firstIPInt) bits;
          Done (firstIP, lastIP)
    end.

Definition ParseIPRange (value : string) : outcome (IP * IP) :=
  match Split value "-" with
  | [v] =>
      match ParseCIDR v with
      | Some ipnet => ipnetToRange ipnet
      | None => Done (ParseIP v, ParseIP v)
      end
  | [v; w] =>
      let ip := ParseIP v in
      let ipR := ParseIP w in
      if bool_decide (ip = []) || bool_decide (ipR = []) then Done ([], []) else Done (ip, ipR)
  | _ => Done ([], [])
  end.

Definition InterpretIP (ip ipR : IP) : string :=
  let str := IP_String ip in
  if negb (bool_decide (ipR = [])) then str +:+ "-" +:+ IP_String ipR
  else if bool_decide (str = "0.0.0.0") then "external" else str.

(** ** Networks *)

Definition IPNet2Subnet (ipnet : IPNet) : IPNet :=
  {| ipnet_IP := IP_Mask (ipnet_IP ipnet) (ipnet_Mask ipnet); ipnet_Mask := ipnet_Mask ipnet |}.

(** [scope] selects the same factor in both branches of the source. *)
Definition IPNet2SubnetLoose (ipnet : IPNet) (scope : string) : IPNet :=
  let loose := 8 in
  let loose := if bool_decide (scope = "global") then 8 else loose in
  let '(ones, bits) := Mask_Size (ipnet_Mask ipnet) in
  let loose := if bits <? loose then bits else loose in
  let mask := if bits - ones <? loose then CIDRMask (bits - loose) bits else ipnet_Mask ipnet in
  {| ipnet_IP := IP_Mask (ipnet_IP ipnet) mask; ipnet_Mask := mask |}.

(** The loop of [GetIPEnclosure]: [None] before the first address. *)
Fixpoint enclosure_go (acc : option (Z * Z * Z)) (ips : list IP) : option (option (Z * Z * Z)) :=
  match ips with
  | [] => Some acc
  | ip :: ips' =>
      match ipToInt ip with
      | None => enclosure_go acc ips'
      | Some (ipInt, ipBits) =>
          match acc with
          | None => enclosure_go (Some (ipInt, ipInt, ipBits)) ips'
          | Some (val, max, bits) =>
              if negb (bits =? ipBits) then None
              else enclosure_go (Some (Z.land val ipInt, if max <? ipInt then ipInt else max, bits)) ips'
          end
      end
  end.

(** [big.Int.BitLen] of a natural number. *)
Definition BitLen (x : Z) : Z := if x =? 0 then 0 else Z.log2 x + 1.

(** [None] is nil. *)
Definition GetIPEnclosure (ips : list IP) : outcome (option IPNet) :=
  match enclosure_go None ips with
  | Some (Some (val, max, bits)) =>
      let zeros := BitLen (max - val) in
      ip ← intToIP val bits;
      Done (Some (IPNet2Subnet {| ipnet_IP := ip; ipnet_Mask := CIDRMask (bits - zeros) bits |}))
  | _ => Done None
  end.

(** Whether one network contains the other, and which: 1, -1 or 0. *)
Definition SubnetContains (n1 n2 : IPNet) : outcome (bool * Z) :=
  '(l1, r1) ← ipnetToRange n1;
  '(l2, r2) ← ipnetToRange n2;
  let c12 := IPNet_Contains n1 l2 && IPNet_Contains n1 r2 in
  let c21 := IPNet_Contains n2 l1 && IPNet_Contains n2 r1 in
  Done (if negb c12 && negb c21 then (false, 0)
        else if c12 && c21 then (true, 0)
        else if c12 then (true, 1)
        else (true, -1)).

(** ** The map of internal subnets *)

Record CLUSSubnet := { cs_Subnet : IPNet; cs_Scope : string }.
Record CLUSSpecSubnet := { ss_Subnet : IPNet; ss_Scope : string; ss_IpType : string }.

(** The loop of [MergeSubnet] and [MergeSpecialSubnet] over the map in the
    order [ord]: [true] when it runs to its end, and the map without the
    networks the new one contains. *)
Fixpoint merge_loop {V} (net_of : V -> IPNet) (snet : IPNet) (ord : list (string * V))
    (subnets : gmap string V) : outcome (bool * gmap string V) :=
  match ord with
  | [] => Done (true, subnets)
  | (key, sn) :: ord' =>
      '(inc, v) ← SubnetContains (net_of sn) snet;
      if inc && (v =? 1) then Done (false, subnets)
      else if inc && (v =? -1) then merge_loop net_of snet ord' (delete key subnets)
      else merge_loop net_of snet ord' subnets
  end.

Definition MergeSubnet (ord : list (string * CLUSSubnet)) (subnets : gmap string CLUSSubnet)
    (snet : CLUSSubnet) : outcome (bool * gmap string CLUSSubnet) :=
  '(go, m) ← merge_loop cs_Subnet (cs_Subnet snet) ord subnets;
  Done (if go : bool then (true, <[IPNet_String (cs_Subnet snet) := snet]> m) else (false, m)).

Definition MergeSpecialSubnet (ord : list (string * CLUSSpecSubnet))
    (subnets : gmap string CLUSSpecSubnet) (snet : CLUSSubnet) (iptype : string)
  : outcome (bool * gmap string CLUSSpecSubnet) :=
  '(go, m) ← merge_loop ss_Subnet (cs_Subnet snet) ord subnets;
  Done (if go : bool then
          (true, <[IPNet_String (cs_Subnet snet) :=
                   {| ss_Subnet := cs_Subnet snet; ss_Scope := cs_Scope snet; ss_IpType := iptype |}]> m)
        else (false, m)).

Example ParseCIDR_v4 : ParseCIDR "10.1.2.3/16" =
  Some {| ipnet_IP := [10; 1; 0; 0]; ipnet_Mask := [255; 255; 0; 0] |}.
Proof. vm_compute. reflexivity. Qed.
Example ParseIPRange_cidr :
  ParseIPRange "10.1.2.3/16" = Done ([10; 1; 0; 0], [10; 1; 255; 255]).
Proof. vm_compute. reflexivity. Qed.

(** ** Bytes and integers *)

Lemma be_snoc l b : be (l ++ [b]) = be l * 256 + b.
Proof. unfold be. by rewrite foldl_app. Qed.

Lemma be_cons b l : be (b :: l) = b * 256 ^ Z.of_nat (length l) + be l.
Proof.
  induction l as [|x l IH] using rev_ind; [unfold be; simpl; lia|].
  rewrite app_comm_cons, !be_snoc, IH, length_app. simpl length.
  rewrite Nat2Z.inj_add, Z.pow_add_r by lia. change (256 ^ Z.of_nat 1) with 256. lia.
Qed.

Lemma be_bound l : ip_wf l -> 0 <= be l < 256 ^ Z.of_nat (length l).
Proof.
  unfold ip_wf, in_width. induction 1 as [|b l Hb Hl IH]; [unfold be; simpl; lia|].
  rewrite be_cons. cbn [length]. rewrite Nat2Z.inj_succ, Z.pow_succ_r by lia. nia.
Qed.

Lemma be_split_length n x : length (be_split n x) = n.
Proof. induction n; simpl; congruence. Qed.

Lemma be_split_wf n x : ip_wf (be_split n x).
Proof. induction n; simpl; constructor; [|done]. by apply wrap_in_width. Qed.

Lemma be_be_split n x : be (be_split n x) = x mod 256 ^ Z.of_nat n.
Proof.
  induction n as [|n IH]; [by rewrite Z.mod_1_r|]. cbn [be_split].
  rewrite be_cons, be_split_length, IH, Nat2Z.inj_succ, Z.pow_succ_r by lia.
  rewrite (Z.mul_comm 256), Z.rem_mul_r by lia. lia.
Qed.

Lemma be_inj l1 l2 : ip_wf l1 -> ip_wf l2 -> length l1 = length l2 -> be l1 = be l2 -> l1 = l2.
Proof.
  intros H1. revert l2. induction H1 as [|a l1 Ha H1 IH]; intros [|b l2] H2 Hlen Hbe; try done.
  inversion_clear H2 as [|?? Hb H2']. injection Hlen as Hlen. rewrite !be_cons, <-Hlen in Hbe.
  pose proof (be_bound _ H1). pose proof (be_bound _ H2') as Hb2. rewrite <-Hlen in Hb2.
  assert (a = b) by nia. subst. f_equal. apply IH; [done..|lia].
Qed.

Lemma be_split_be l : ip_wf l -> be_split (length l) (be l) = l.
Proof.
  intros Hl. apply be_inj; [apply be_split_wf|done|apply be_split_length|].
  rewrite be_be_split. by apply Z.mod_small, be_bound.
Qed.

(** Bits of a number below [2 ^ k], and of one shifted above them. *)
Lemma testbit_high k l i : 0 <= l < 2 ^ k -> 0 <= k <= i -> Z.testbit l i = false.
Proof.
  intros Hl Hi. rewrite <-(Z.mod_small l (2 ^ k)) by done. by apply Z.mod_pow2_bits_high.
Qed.

Lemma land_bound k a b : 0 <= k -> 0 <= a < 2 ^ k -> 0 <= Z.land a b < 2 ^ k.
Proof.
  intros Hk Ha. rewrite <-(Z.mod_small a (2 ^ k)), <-Z.land_ones by done.
  rewrite (Z.land_comm a), <-Z.land_assoc, Z.land_comm, Z.land_ones by done.
  apply Z.mod_pos_bound. lia.
Qed.

Lemma add_shift_testbit k h l i :
  0 <= k -> 0 <= l < 2 ^ k -> 0 <= i ->
  Z.testbit (h * 2 ^ k + l) i = if i <? k then Z.testbit l i else Z.testbit h (i - k).
Proof.
  intros Hk Hl Hi. destruct (Z.ltb_spec i k).
  - rewrite <-(Z.mod_pow2_bits_low (h * 2 ^ k + l) k) by lia.
    by rewrite Z.add_comm, Z.mod_add, Z.mod_small by lia.
  - replace i with (i - k + k) at 1 by lia. rewrite <-Z.shiftr_spec, Z.shiftr_div_pow2 by lia.
    by rewrite Z.div_add_l, Z.div_small, Z.add_0_r by lia.
Qed.

(** Bitwise conjunction works byte by byte. *)
Lemma land_split k h1 l1 h2 l2 :
  0 <= k -> 0 <= l1 < 2 ^ k -> 0 <= l2 < 2 ^ k ->
  Z.land (h1 * 2 ^ k + l1) (h2 * 2 ^ k + l2) = Z.land h1 h2 * 2 ^ k + Z.land l1 l2.
Proof.
  intros Hk H1 H2. pose proof (land_bound k l1 l2 Hk H1).
  apply Z.bits_inj'. intros i Hi. rewrite Z.land_spec, !add_shift_testbit by done.
  by destruct (i <? k); rewrite Z.land_spec.
Qed.

Lemma be_land l1 l2 :
  ip_wf l1 -> ip_wf l2 -> length l1 = length l2 ->
  be (zip_with Z.land l1 l2) = Z.land (be l1) (be l2).
Proof.
  intros H1. revert l2. induction H1 as [|a l1 Ha H1 IH]; intros [|b l2] H2 Hlen; try done.
  inversion_clear H2 as [|?? Hb H2']. injection Hlen as Hlen. cbn [zip_with].
  rewrite !be_cons, IH, length_zip_with_l, <-Hlen by (done || lia).
  pose proof (be_bound _ H1). pose proof (be_bound _ H2') as Hb2. rewrite <-Hlen in Hb2.
  replace 256 with (2 ^ 8) in * by done. rewrite <-!Z.pow_mul_r in * by lia.
  symmetry. apply land_split; lia.
Qed.

Lemma zip_land_wf a m : ip_wf a -> ip_wf (zip_with Z.land a m).
Proof.
  intros Ha. revert m. induction Ha as [|x a Hx Ha IH]; intros [|k m]; simpl; try constructor.
  - by apply (land_bound 8).
  - apply IH.
Qed.

(** ** Masks *)

Definition net_width (w : Z) : Prop := w = 32 \/ w = 128.

(** The mask of a prefix: its length, its integer and its size. *)
Definition mask_ok (w p : Z) : Prop :=
  length (CIDRMask p w) = Z.to_nat (w / 8) /\ ip_wf (CIDRMask p w) /\
  be (CIDRMask p w) = 2 ^ w - 2 ^ (w - p) /\ Mask_Size (CIDRMask p w) = (p, w).

#[local] Instance mask_ok_dec w p : Decision (mask_ok w p).
Proof. unfold mask_ok, ip_wf, in_width. apply _. Defined.

Lemma CIDRMask_all :
  forallb (fun p => bool_decide (mask_ok 32 p)) (seqZ 0 33) = true /\
  forallb (fun p => bool_decide (mask_ok 128 p)) (seqZ 0 129) = true.
Proof. split; vm_compute; reflexivity. Qed.

Lemma CIDRMask_ok w p : net_width w -> 0 <= p <= w -> mask_ok w p.
Proof.
  destruct CIDRMask_all as [H32 H128]. rewrite forallb_forall in H32, H128.
  intros [->| ->] Hp; apply (bool_decide_unpack _), Is_true_true;
    [apply H32|apply H128]; apply list_elem_of_In, elem_of_seqZ; lia.
Qed.

(** Masking clears the host bits. *)
Lemma land_mask w k x :
  0 <= k <= w -> 0 <= x < 2 ^ w -> Z.land x (2 ^ w - 2 ^ k) = x / 2 ^ k * 2 ^ k.
Proof.
  intros Hk Hx. replace (2 ^ w - 2 ^ k) with (Z.ones (w - k) * 2 ^ k + 0).
  2: { rewrite Z.ones_equiv, Z.add_0_r, <-Z.sub_1_r, Z.mul_sub_distr_r, <-Z.pow_add_r by lia.
       replace (w - k + k) with w by lia. lia. }
  rewrite (Z.div_mod x (2 ^ k)) at 1 by lia. rewrite (Z.mul_comm (2 ^ k)).
  rewrite land_split by (try apply Z.mod_pos_bound; lia).
  rewrite Z.land_0_r, Z.land_ones, Z.mod_small by
    (try (split; [apply Z.div_pos; lia|apply Z.div_lt_upper_bound; [lia|];
      rewrite <-Z.pow_add_r by lia; replace (k + (w - k)) with w by lia; lia]); lia).
  lia.
Qed.

(** ** What an address and a network are

    [ipToInt] gives the address as an integer and the width of its family;
    the networks the code handles have a mask of the family of their
    address. *)

Definition addr (ip : IP) (x w : Z) : Prop := ip_wf ip /\ ipToInt ip = Some (x, w).

Definition net_of (n : IPNet) (v p w : Z) : Prop :=
  addr (ipnet_IP n) v w /\ 0 <= p <= w /\ ipnet_Mask n = CIDRMask p w.

(** The family bytes of an address: what [To4] or [To16] leaves of it. *)
Definition fam_bytes (ip : IP) : list Z := default ip (To4 ip).

Lemma To4_drop ip p4 : To4 ip = Some p4 -> p4 = drop (length ip - 4) ip /\ (4 <= length ip)%nat.
Proof.
  unfold To4. intros Ht. repeat case_decide; simplify_eq.
  - rewrite H. by split; [|lia].
  - destruct H0 as [-> _]. split; [done|lia].
Qed.

Lemma addr_bytes ip x w :
  addr ip x w ->
  net_width w /\ ip_wf (fam_bytes ip) /\ length (fam_bytes ip) = Z.to_nat (w / 8) /\
  x = be (fam_bytes ip) /\ (w = 32 <-> is_Some (To4 ip)).
Proof.
  unfold addr, ipToInt, IsIPv4, fam_bytes. intros [Hw Hi].
  destruct (To4 ip) as [p4|] eqn:Ht.
  - destruct (To4_wf _ _ Hw Ht) as [Hp Hl]. destruct (To4_drop _ _ Ht) as [Heq Hlen].
    rewrite bool_decide_eq_true_2 in Hi by eauto. rewrite (proj2 (Nat.leb_le _ _)) in Hi by done.
    simplify_eq/=. unfold net_width. split; [by left|]. split; [done|]. split; [done|].
    split; [done|]. by split; eauto.
  - rewrite bool_decide_eq_false_2 in Hi by (by intros [? ?]). simpl in Hi.
    unfold IsIPv6, has_To16 in Hi.
    destruct (bool_decide_reflect (length ip = 4%nat)) as [H4|H4].
    { exfalso. unfold To4 in Ht. by rewrite decide_True in Ht. }
    destruct (bool_decide_reflect (length ip = 16%nat)) as [H16|H16]; [|done].
    rewrite H16 in Hi. simpl in Hi. simplify_eq/=. unfold net_width.
    split; [by right|]. split; [done|]. split; [done|]. split; [done|].
    split; [done|by intros [? ?]].
Qed.

Lemma addr_bound ip x w : addr ip x w -> net_width w /\ 0 <= x < 2 ^ w.
Proof.
  intros (Hw & Hwf & Hl & -> & _)%addr_bytes. split; [done|].
  pose proof (be_bound _ Hwf) as Hb. rewrite Hl in Hb.
  by destruct Hw as [->| ->].
Qed.

Lemma fam_length_eq ip1 ip2 x1 w1 x2 w2 :
  addr ip1 x1 w1 -> addr ip2 x2 w2 ->
  length (fam_bytes ip1) = length (fam_bytes ip2) <-> w1 = w2.
Proof.
  intros (H1 & _ & -> & _)%addr_bytes (H2 & _ & -> & _)%addr_bytes.
  destruct H1 as [->| ->], H2 as [->| ->]; vm_compute; split; done.
Qed.

(** [IPNet.Contains] compares the network parts. *)
Lemma Contains_spec n v p w ip x w' :
  net_of n v p w -> addr ip x w' ->
  IPNet_Contains n ip = true <-> w' = w /\ x / 2 ^ (w - p) = v / 2 ^ (w - p).
Proof.
  intros (Hn & Hp & Hm) Hip. pose proof (addr_bound _ _ _ Hn) as [Hwd Hv].
  pose proof (addr_bound _ _ _ Hip) as [_ Hx].
  destruct (CIDRMask_ok w p Hwd Hp) as (Hml & Hmw & Hmb & _). rewrite <-Hm in *.
  pose proof (fam_length_eq _ _ _ _ _ _ Hip Hn) as Hfl.
  apply addr_bytes in Hn as (_ & Hnw & Hnl & -> & H4).
  apply addr_bytes in Hip as (_ & Hiw & Hil & -> & _).
  assert (Hnn : networkNumberAndMask n = Some (fam_bytes (ipnet_IP n), ipnet_Mask n)).
  { unfold networkNumberAndMask, fam_bytes in *. destruct (To4 (ipnet_IP n)) as [p4|]; simpl in *.
    - assert (w = 32) as -> by (apply H4; eauto). rewrite decide_True by done.
      by rewrite decide_True.
    - assert (w = 128) as -> by (destruct Hwd as [->|]; [|done]; by destruct (proj1 H4)).
      rewrite decide_True by done. rewrite decide_False by (rewrite Hml; vm_compute; lia).
      rewrite decide_True by done. by rewrite decide_False by (rewrite Hnl; vm_compute; lia). }
  unfold IPNet_Contains. rewrite Hnn. cbn [default from_option id]. fold (fam_bytes ip).
  case_decide as Hlen.
  2: { split; [done|]. intros [-> _]. destruct Hlen. by apply Hfl. }
  apply Hfl in Hlen as ->.
  assert (Hz : forall a b m, length a = length b -> length b = length m ->
     forallb (fun '(x, y, k) => Z.land x k =? Z.land y k) (zip (zip a b) m) = true <->
     zip_with Z.land a m = zip_with Z.land b m).
  { clear. induction a as [|x a IH]; intros [|y b] [|k m] H1 H2; try done.
    injection H1 as H1. injection H2 as H2. cbn. rewrite andb_true_iff, Z.eqb_eq, IH by done.
    split; [by intros [-> ->]|by intros [= -> ->]]. }
  rewrite Hz by (rewrite ?Hnl, ?Hil, ?Hml; done).
  transitivity (Z.land (be (fam_bytes (ipnet_IP n))) (be (ipnet_Mask n)) =
                Z.land (be (fam_bytes ip)) (be (ipnet_Mask n))).
  { rewrite <-!be_land by (done || rewrite ?Hnl, ?Hil, ?Hml; done).
    split; [congruence|]. apply be_inj; [by apply zip_land_wf..|].
    rewrite !length_zip_with. lia. }
  rewrite Hmb, !land_mask by lia. split; [intros Heq; split; [done|]|intros [_ ->]; done].
  pose proof (Z.pow_pos_nonneg 2 (w - p)). nia.
Qed.

(** ** IPv4 networks are intervals

    [subnet4 n v p]: [n] is the IPv4 network with address [v] (no host bits)
    and prefix length [p]. *)
Definition subnet4 (n : IPNet) (v p : Z) : Prop :=
  net_of n v p 32 /\ v mod 2 ^ (32 - p) = 0.

Definition last4 (v p : Z) : Z := v + (2 ^ (32 - p) - 1).

Lemma subnet4_bound n v p :
  subnet4 n v p -> 0 <= p <= 32 /\ 0 <= v /\ v <= last4 v p /\ last4 v p < 2 ^ 32 /\
  v = v / 2 ^ (32 - p) * 2 ^ (32 - p).
Proof.
  intros [(Hn & Hp & _) Hm]. pose proof (addr_bound _ _ _ Hn) as [_ Hv].
  assert (H2 : 0 < 2 ^ (32 - p)) by (apply Z.pow_pos_nonneg; lia).
  assert (Hd : v = v / 2 ^ (32 - p) * 2 ^ (32 - p)) by (rewrite Z.mul_comm; apply Z.div_exact; lia).
  unfold last4. repeat split; try lia.
  assert (v / 2 ^ (32 - p) < 2 ^ p).
  { apply Z.div_lt_upper_bound; [done|]. rewrite <-Z.pow_add_r by lia.
    replace (32 - p + p) with 32 by lia. lia. }
  assert (2 ^ 32 = 2 ^ p * 2 ^ (32 - p)) by (rewrite <-Z.pow_add_r by lia; f_equal; lia).
  nia.
Qed.

Lemma Contains4_spec n v p ip x :
  subnet4 n v p -> addr ip x 32 -> IPNet_Contains n ip = true <-> v <= x <= last4 v p.
Proof.
  intros Hn Hip. pose proof (subnet4_bound _ _ _ Hn) as (Hp & _ & _ & _ & Hd).
  destruct Hn as [Hn _]. rewrite (Contains_spec _ _ _ _ _ _ _ Hn Hip).
  assert (H2 : 0 < 2 ^ (32 - p)) by (apply Z.pow_pos_nonneg; lia).
  unfold last4. rewrite Hd at 2 3. split.
  - intros [_ <-]. pose proof (Z.div_mod x (2 ^ (32 - p))). pose proof (Z.mod_pos_bound x (2 ^ (32 - p))).
    lia.
  - intros Hx. split; [done|]. symmetry. apply (Z.div_unique_pos _ _ _ (x - v)); lia.
Qed.

Lemma To4_4 ip : length ip = 4%nat -> To4 ip = Some ip.
Proof. intros Hl. unfold To4. by rewrite decide_True. Qed.

Lemma addr_4bytes l : length l = 4%nat -> ip_wf l -> addr l (be l) 32.
Proof.
  intros Hl Hw. split; [done|]. unfold ipToInt, IsIPv4. rewrite To4_4, Hl by done.
  rewrite bool_decide_eq_true_2 by eauto. simpl. by rewrite drop_0.
Qed.

(** An integer below [2 ^ 32] as an address. *)
Lemma intToIP_4 x :
  0 <= x < 2 ^ 32 ->
  intToIP x 32 = Done (be_split 4 x) /\ addr (be_split 4 x) x 32.
Proof.
  intros Hx. unfold intToIP. rewrite (proj2 (Z.ltb_lt _ _)) by lia. split; [done|].
  pose proof (addr_4bytes (be_split 4 x) (be_split_length _ _) (be_split_wf _ _)) as Ha.
  by rewrite be_be_split, Z.mod_small in Ha by done.
Qed.

Lemma lor_host v h : 0 <= h -> v mod 2 ^ h = 0 -> Z.lor (Z.shiftl 1 h - 1) v = v + (2 ^ h - 1).
Proof.
  intros Hh Hm. rewrite Z.shiftl_1_l.
  assert (Hd : v = v / 2 ^ h * 2 ^ h + 0).
  { rewrite Z.add_0_r, Z.mul_comm. apply Z.div_exact; [|done]. apply Z.pow_nonzero; lia. }
  pose proof (Z.pow_pos_nonneg 2 h ltac:(lia) Hh).
  replace (v + (2 ^ h - 1)) with (v / 2 ^ h * 2 ^ h + (2 ^ h - 1)) by lia.
  rewrite Hd at 1. apply Z.bits_inj'. intros i Hi.
  rewrite Z.lor_spec, !add_shift_testbit by lia.
  destruct (Z.ltb_spec i h).
  - by rewrite Z.bits_0, orb_false_r.
  - by rewrite (testbit_high h) by lia.
Qed.

Lemma ipnetToRange_spec n v p :
  subnet4 n v p ->
  exists last, ipnetToRange n = Done (ipnet_IP n, last) /\ addr last (last4 v p) 32.
Proof.
  intros Hn. pose proof (subnet4_bound _ _ _ Hn) as (Hp & Hv0 & Hvl & Hl & _).
  destruct Hn as [(Ha & _ & Hmask) Hmod]. unfold ipnetToRange. rewrite Hmask.
  destruct (CIDRMask_ok 32 p) as (_ & _ & _ & ->); [by left|done|].
  destruct (Z.eqb_spec p 32) as [->|Hne].
  - eexists; split; [done|]. by replace (last4 v 32) with v by (unfold last4; simpl; lia).
  - destruct Ha as [Hwf ->]. rewrite (proj2 (Z.ltb_ge _ _)) by lia.
    rewrite lor_host by (done || lia). fold (last4 v p).
    destruct (intToIP_4 (last4 v p)) as [-> Hb]; [lia|]. simpl. eauto.
Qed.

(** ** Which network contains which *)

(** The addresses of a network. *)
Definition in_net (n : IPNet) (x : Z) : Prop :=
  exists v p, subnet4 n v p /\ v <= x <= last4 v p.

Definition is_subnet4 (n : IPNet) : Prop := exists v p, subnet4 n v p.

Lemma addr_inj ip x1 w1 x2 w2 : addr ip x1 w1 -> addr ip x2 w2 -> x1 = x2 /\ w1 = w2.
Proof. intros [_ H1] [_ H2]. rewrite H1 in H2. by simplify_eq. Qed.

Lemma subnet4_inj n v p v' p' : subnet4 n v p -> subnet4 n v' p' -> v = v' /\ p = p'.
Proof.
  intros [(Ha & Hp & Hm) _] [(Ha' & Hp' & Hm') _].
  destruct (addr_inj _ _ _ _ _ Ha Ha') as [-> _]. split; [done|].
  rewrite Hm in Hm'. apply (f_equal Mask_Size) in Hm'.
  destruct (CIDRMask_ok 32 p) as (_ & _ & _ & Hs); [by left|done|].
  destruct (CIDRMask_ok 32 p') as (_ & _ & _ & Hs'); [by left|done|]. congruence.
Qed.

Lemma in_net_spec n v p x : subnet4 n v p -> in_net n x <-> v <= x <= last4 v p.
Proof.
  intros Hn. split; [|by exists v, p]. intros (v' & p' & Hn' & Hx).
  by destruct (subnet4_inj _ _ _ _ _ Hn Hn') as [-> ->].
Qed.

(** [n1] contains [n2]. *)
Definition net_incl (n1 n2 : IPNet) : Prop := forall x, in_net n2 x -> in_net n1 x.

Lemma both_ends n1 v1 p1 n2 v2 p2 l2 r2 :
  subnet4 n1 v1 p1 -> subnet4 n2 v2 p2 -> addr l2 v2 32 -> addr r2 (last4 v2 p2) 32 ->
  IPNet_Contains n1 l2 && IPNet_Contains n1 r2 = true <-> net_incl n1 n2.
Proof.
  intros H1 H2 Hl Hr. rewrite andb_true_iff, (Contains4_spec _ _ _ _ _ H1 Hl),
    (Contains4_spec _ _ _ _ _ H1 Hr). pose proof (subnet4_bound _ _ _ H2) as (_ & _ & Hle & _).
  unfold net_incl. setoid_rewrite (in_net_spec _ _ _ _ H1). setoid_rewrite (in_net_spec _ _ _ _ H2).
  split; [lia|]. intros Hi. split; apply Hi; lia.
Qed.

Lemma SubnetContains_done n1 n2 :
  is_subnet4 n1 -> is_subnet4 n2 ->
  exists c12 c21 : bool,
    (c12 = true <-> net_incl n1 n2) /\ (c21 = true <-> net_incl n2 n1) /\
    SubnetContains n1 n2 =
    Done (match c12, c21 with
          | false, false => (false, 0) | true, true => (true, 0)
          | true, false => (true, 1) | false, true => (true, -1) end).
Proof.
  intros (v1 & p1 & H1) (v2 & p2 & H2). unfold SubnetContains.
  destruct (ipnetToRange_spec _ _ _ H1) as (r1 & -> & Hr1).
  destruct (ipnetToRange_spec _ _ _ H2) as (r2 & -> & Hr2).
  pose proof H1 as [(Hl1 & _) _]. pose proof H2 as [(Hl2 & _) _].
  exists (IPNet_Contains n1 (ipnet_IP n2) && IPNet_Contains n1 r2),
    (IPNet_Contains n2 (ipnet_IP n1) && IPNet_Contains n2 r1).
  split; [by eapply both_ends|]. split; [by eapply both_ends|]. simpl.
  by destruct (IPNet_Contains n1 (ipnet_IP n2) && _), (IPNet_Contains n2 (ipnet_IP n1) && _).
Qed.

(** [SubnetContains] decides inclusion of IPv4 networks: it answers
    [true] when one network contains the other, with 1 when only the first
    contains the second, -1 when only the second contains the first, 0 when
    they hold the same addresses. *)
Theorem SubnetContains_spec n1 n2 :
  is_subnet4 n1 -> is_subnet4 n2 ->
  exists inc v, SubnetContains n1 n2 = Done (inc, v) /\
    (inc = true <-> net_incl n1 n2 \/ net_incl n2 n1) /\
    (inc = true /\ v = 1 <-> net_incl n1 n2 /\ ~ net_incl n2 n1) /\
    (inc = true /\ v = -1 <-> net_incl n2 n1 /\ ~ net_incl n1 n2).
Proof.
  intros H1 H2. destruct (SubnetContains_done n1 n2 H1 H2) as (c12 & c21 & H12 & H21 & ->).
  destruct c12, c21; eexists _, _; (split; [reflexivity|]); intuition congruence.
Qed.

(** Two networks printed alike hold the same addresses. *)
Lemma subnet4_string n v p :
  subnet4 n v p ->
  IPNet_String n = IP_String (be_split 4 v) +:+ "/" +:+ fmt_int p.
Proof.
  intros [(Ha & Hp & Hm) _]. pose proof (addr_bytes _ _ _ Ha) as (_ & Hw & Hl & Hv & H4).
  destruct (proj1 H4 eq_refl) as [p4 Hp4]. unfold fam_bytes in *. rewrite Hp4 in *. simpl in *.
  unfold IPNet_String, networkNumberAndMask. rewrite Hp4, Hm.
  destruct (CIDRMask_ok 32 p) as (Hml & _ & _ & Hs); [by left|done|].
  rewrite !decide_True by done. unfold Mask_Size in Hs.
  destruct (simpleMaskLength (CIDRMask p 32)) as [l|] eqn:Hsl.
  - injection Hs as Hs _. rewrite Hs, Hv. do 3 f_equal.
    rewrite <-(be_split_be p4) at 1 by done. by rewrite Hl.
  - injection Hs as <- Hs. lia.
Qed.

Lemma ParseIP_String_bytes l :
  length l = 4%nat -> ip_wf l -> drop 12 (ParseIP (IP_String l)) = l.
Proof.
  destruct l as [|a [|b [|c [|d [|]]]]]; try done. intros _ Hw. unfold ip_wf in Hw.
  rewrite !Forall_cons in Hw. destruct Hw as (Ha & Hb & Hc & Hd & _).
  by rewrite ParseIP_IP_String4.
Qed.

Lemma IPNet_String_inj n1 n2 :
  is_subnet4 n1 -> is_subnet4 n2 -> IPNet_String n1 = IPNet_String n2 -> net_incl n1 n2.
Proof.
  intros (v1 & p1 & H1) (v2 & p2 & H2).
  pose proof (subnet4_bound _ _ _ H1). pose proof (subnet4_bound _ _ _ H2).
  rewrite (subnet4_string _ _ _ H1), (subnet4_string _ _ _ H2). intros Heq.
  assert (Hns : forall v, has_byte "/"%char (IP_String (be_split 4 v)) = false).
  { intros v. set (l := be_split 4 v). assert (Hl : length l = 4%nat) by apply be_split_length.
    unfold IP_String. rewrite decide_False by (rewrite Hl; lia).
    rewrite decide_False by (rewrite Hl; lia). rewrite To4_4 by done.
    apply has_byte_join; [done|]. rewrite Forall_fmap.
    eapply Forall_impl; [apply (be_split_wf 4 v)|]. intros x [Hx _]; simpl.
    by apply fmt_int_no_byte. }
  destruct (app_byte_inj "/"%char _ _ _ _ (Hns v1) (Hns v2) Heq) as [Hip Hp].
  apply fmt_int_inj in Hp as ->.
  assert (Hv : forall v, 0 <= v <= last4 v p2 -> last4 v p2 < 2 ^ 32 ->
     be (drop 12 (ParseIP (IP_String (be_split 4 v)))) = v).
  { intros v Hv Hl. rewrite ParseIP_String_bytes by (apply be_split_length || apply be_split_wf).
    rewrite be_be_split. apply Z.mod_small. lia. }
  intros x. rewrite (in_net_spec _ _ _ _ H1), (in_net_spec _ _ _ _ H2).
  rewrite <-(Hv v1), <-(Hv v2), Hip by lia. done.
Qed.

(** Networks with the same addresses are printed alike. *)
Lemma same_string n1 n2 :
  is_subnet4 n1 -> is_subnet4 n2 -> net_incl n1 n2 -> net_incl n2 n1 ->
  IPNet_String n1 = IPNet_String n2.
Proof.
  intros (v1 & p1 & H1) (v2 & p2 & H2) Ha Hb.
  pose proof (subnet4_bound _ _ _ H1) as (Hp1 & _ & Hl1 & _).
  pose proof (subnet4_bound _ _ _ H2) as (Hp2 & _ & Hl2 & _).
  assert (Hi : forall x, v1 <= x <= last4 v1 p1 <-> v2 <= x <= last4 v2 p2).
  { intros x. rewrite <-(in_net_spec _ _ _ _ H1), <-(in_net_spec _ _ _ _ H2). split; auto. }
  assert (Hv : v1 = v2 /\ last4 v1 p1 = last4 v2 p2).
  { pose proof (proj1 (Hi v1)). pose proof (proj2 (Hi v2)).
    pose proof (proj1 (Hi (last4 v1 p1))). pose proof (proj2 (Hi (last4 v2 p2))). lia. }
  destruct Hv as [-> Hl]. unfold last4 in Hl.
  assert (Hpow : 2 ^ (32 - p1) = 2 ^ (32 - p2)) by lia.
  apply Z.pow_inj_r in Hpow; [|lia..]. assert (p1 = p2) as -> by lia.
  by rewrite (subnet4_string _ _ _ H1), (subnet4_string _ _ _ H2).
Qed.

(** ** The map of subnets *)

Section merge.
Context {V : Type} (vnet : V -> IPNet).
Implicit Types (m : gmap string V).

(** Every entry is an IPv4 network stored under its own text, and none is
    contained in another. *)
Record subnets_wf m : Prop := {
  sw_nets : map_Forall (fun _ sn => is_subnet4 (vnet sn)) m;
  sw_keys : map_Forall (fun k sn => k = IPNet_String (vnet sn)) m;
  sw_antichain : forall k1 k2 s1 s2,
    m !! k1 = Some s1 -> m !! k2 = Some s2 -> k1 <> k2 -> ~ net_incl (vnet s1) (vnet s2)
}.

Definition covered m (x : Z) : Prop := exists k sn, m !! k = Some sn /\ in_net (vnet sn) x.

(** What the loop removes: the networks strictly inside [n]. *)
Definition inside (n : IPNet) (kv : string * V) : Prop :=
  net_incl n (vnet kv.2) /\ ~ net_incl (vnet kv.2) n.

Lemma merge_loop_spec n ord m :
  is_subnet4 n -> Forall (fun kv => is_subnet4 (vnet kv.2)) ord ->
  exists b m', merge_loop vnet n ord m = Done (b, m') /\
    (b = false -> exists kv, kv ∈ ord /\ net_incl (vnet kv.2) n /\ ~ net_incl n (vnet kv.2)) /\
    (b = true -> Forall (fun kv => net_incl (vnet kv.2) n -> net_incl n (vnet kv.2)) ord /\
       (forall k, (exists sn, (k, sn) ∈ ord /\ inside n (k, sn)) -> m' !! k = None)) /\
    m' ⊆ m /\
    (forall k sn, m !! k = Some sn -> m' !! k = None ->
       exists sn', (k, sn') ∈ ord /\ inside n (k, sn')).
Proof.
  intros Hn Hord. revert m. induction Hord as [|[key sn] ord Hsn Hord IH]; intros m; simpl.
  { exists true, m. split_and!; [done..| |done|intros; congruence].
    intros _. split; [done|]. intros k (? & Hk%elem_of_nil & _). done. }
  destruct (SubnetContains_done (vnet sn) n Hsn Hn) as (c12 & c21 & H12 & H21 & ->).
  assert (Hin : forall m', (forall k s, m !! k = Some s -> m' !! k = None ->
      (k = key /\ c12 = false /\ c21 = true) \/ exists s', (k, s') ∈ ord /\ inside n (k, s')) ->
    forall k s, m !! k = Some s -> m' !! k = None ->
      exists s', (k, s') ∈ (key, sn) :: ord /\ inside n (k, s')).
  { intros m' Hm' k s Hk Hk'. destruct (Hm' k s Hk Hk') as [(-> & Hf & Ht)|(s' & Hs' & Hi)].
    - exists sn. split; [constructor|]. unfold inside; simpl. split; [by apply H21|].
      rewrite <-H12, Hf. done.
    - exists s'. split; [by constructor|done]. }
  destruct c12, c21; cbn [mbind outcome_bind andb Z.eqb Pos.eqb].
  - destruct (IH m) as (b & m' & -> & Hf & Ht & Hsub & Hdel). exists b, m'.
    split_and!; [done| | |done|].
    + intros Hb. destruct (Hf Hb) as (kv & Hkv & ?). exists kv. split; [by constructor|done].
    + intros Hb. destruct (Ht Hb) as [H1 H2]. split; [constructor; [|done]; simpl; tauto|].
      intros k (s & [Heq|Hk]%elem_of_cons & Hi); [|by apply H2; exists s].
      simplify_eq. destruct Hi as [_ []]. by apply H12.
    + apply Hin. eauto.
  - exists false, m. split_and!; [done| |done|done|intros; congruence].
    intros _. exists (key, sn). split; [constructor|]. simpl. rewrite <-H12, <-H21. done.
  - destruct (IH (delete key m)) as (b & m' & -> & Hf & Ht & Hsub & Hdel). exists b, m'.
    split_and!; [done| | | |].
    + intros Hb. destruct (Hf Hb) as (kv & Hkv & ?). exists kv. split; [by constructor|done].
    + intros Hb. destruct (Ht Hb) as [H1 H2]. split; [constructor; [|done]; simpl; tauto|].
      intros k (s & [Heq|Hk]%elem_of_cons & Hi); [|by apply H2; exists s].
      simplify_eq. apply (lookup_weaken_None _ _ _ (lookup_delete_eq m key)). done.
    + etransitivity; [exact Hsub|apply delete_subseteq].
    + apply Hin. intros k s Hk Hk'. destruct (decide (k = key)) as [->|Hne]; [by left|].
      right. apply (Hdel k s); [by rewrite lookup_delete_ne|done].
  - destruct (IH m) as (b & m' & -> & Hf & Ht & Hsub & Hdel). exists b, m'.
    split_and!; [done| | |done|].
    + intros Hb. destruct (Hf Hb) as (kv & Hkv & ?). exists kv. split; [by constructor|done].
    + intros Hb. destruct (Ht Hb) as [H1 H2].
      split; [constructor; [|done]; simpl; rewrite <-H12, <-H21; done|].
      intros k (s & [Heq|Hk]%elem_of_cons & Hi); [|by apply H2; exists s].
      simplify_eq. destruct Hi as [Hi _]. by apply H21 in Hi.
    + apply Hin. eauto.
Qed.

Lemma net_incl_trans n1 n2 n3 : net_incl n1 n2 -> net_incl n2 n3 -> net_incl n1 n3.
Proof. unfold net_incl. eauto. Qed.

(** A submap of a well-formed map is well formed. *)
Lemma subnets_wf_sub m m' : subnets_wf m -> m' ⊆ m -> subnets_wf m'.
Proof.
  intros [Hn Hk Ha] Hsub. split.
  - intros k sn H. by eapply Hn, lookup_weaken.
  - intros k sn H. by eapply Hk, lookup_weaken.
  - intros k1 k2 s1 s2 H1 H2. apply Ha; by eapply lookup_weaken.
Qed.

Section merge_one.
Context (n : IPNet) (ord : list (string * V)) (m m' : gmap string V) (b : bool).
Context (Hwf : subnets_wf m) (Hv : visits ord m) (Hn : is_subnet4 n).
Context (Hrun : merge_loop vnet n ord m = Done (b, m')).

Lemma merge_run :
  (b = false -> exists k big, m !! k = Some big /\ net_incl (vnet big) n /\ ~ net_incl n (vnet big)) /\
  (b = true -> forall k sn, m !! k = Some sn ->
     (net_incl (vnet sn) n -> net_incl n (vnet sn)) /\ (inside n (k, sn) -> m' !! k = None)) /\
  m' ⊆ m /\ (forall k sn, m !! k = Some sn -> m' !! k = Some sn \/ inside n (k, sn)).
Proof.
  assert (Hin : forall k sn, (k, sn) ∈ ord <-> m !! k = Some sn)
    by (intros; by apply visits_elem_of).
  destruct (merge_loop_spec n ord m Hn) as (b' & m'' & Heq & Hf & Ht & Hsub & Hdel).
  { apply Forall_forall. intros [k sn] Hkv. apply Hin in Hkv. by apply (sw_nets _ Hwf k). }
  rewrite Hrun in Heq. injection Heq as <- <-. split_and!; [| |done|].
  - intros Hb. destruct (Hf Hb) as ([k big] & Hbig%Hin & ?). by exists k, big.
  - intros Hb k sn Hk. destruct (Ht Hb) as [H1 H2]. rewrite Forall_forall in H1.
    split; [by apply (H1 (k, sn)), Hin|]. intros Hi. apply H2. exists sn. by rewrite Hin.
  - intros k sn Hk. destruct (m' !! k) as [sn'|] eqn:Hk'.
    + left. pose proof (lookup_weaken _ _ _ _ Hk' Hsub) as Hk2. congruence.
    + right. destruct (Hdel k sn Hk Hk') as (sn' & Hsn' & Hi). apply Hin in Hsn'.
      by rewrite Hk in Hsn'; simplify_eq.
Qed.

(** What is left beside the new network does not compare with it. *)
Lemma merge_left k sn :
  b = true -> m' !! k = Some sn -> k <> IPNet_String n ->
  ~ net_incl (vnet sn) n /\ ~ net_incl n (vnet sn).
Proof.
  intros Hb Hk Hne. destruct merge_run as (_ & Ht & Hsub & _).
  pose proof (lookup_weaken _ _ _ _ Hk Hsub) as Hk2.
  destruct (Ht Hb k sn Hk2) as [Hup Hgone].
  assert (Hni : ~ inside n (k, sn)) by (intros Hi%Hgone; congruence).
  unfold inside in Hni; simpl in Hni.
  assert (Hsame : net_incl (vnet sn) n -> net_incl n (vnet sn) -> False); [|tauto].
  intros Ha Hb'. apply Hne. rewrite (sw_keys _ Hwf _ _ Hk2).
  apply same_string; [by eapply (sw_nets _ Hwf)|done..].
Qed.

Lemma merge_insert_wf v :
  b = true -> vnet v = n -> subnets_wf (<[IPNet_String n := v]> m').
Proof.
  intros Hb Hvn. destruct merge_run as (_ & _ & Hsub & _).
  destruct (subnets_wf_sub _ _ Hwf Hsub) as [Hn' Hk' Ha']. split.
  - apply map_Forall_insert_2; [by rewrite Hvn|done].
  - apply map_Forall_insert_2; [by rewrite Hvn|done].
  - intros k1 k2 s1 s2 H1 H2 Hne. rewrite lookup_insert_Some in H1, H2.
    destruct H1 as [[<- <-]|[Hk1 H1]], H2 as [[<- <-]|[Hk2 H2]]; [done| | |by eapply Ha'].
    + rewrite Hvn. apply (merge_left k2 s2); [done..|congruence].
    + rewrite Hvn. apply (merge_left k1 s1); [done..|congruence].
Qed.

Lemma merge_insert_covered v x :
  vnet v = n ->
  covered (<[IPNet_String n := v]> m') x <-> covered m x \/ in_net n x.
Proof.
  intros Hvn. destruct merge_run as (_ & _ & Hsub & Hlost). unfold covered.
  assert (Hnew : in_net n x ->
    exists k sn, <[IPNet_String n := v]> m' !! k = Some sn /\ in_net (vnet sn) x).
  { exists (IPNet_String n), v. by rewrite lookup_insert_eq, Hvn. }
  split.
  - intros (k & sn & Hk & Hx). rewrite lookup_insert_Some in Hk.
    destruct Hk as [[_ <-]|[_ Hk]]; [right; by rewrite <-Hvn|].
    left. exists k, sn. split; [by eapply lookup_weaken|done].
  - intros [(k & sn & Hk & Hx)|Hx]; [|by apply Hnew].
    destruct (Hlost k sn Hk) as [Hk'|[Hi _]]; [|by apply Hnew, Hi].
    destruct (decide (k = IPNet_String n)) as [->|Hne]; [|by exists k, sn; rewrite lookup_insert_ne].
    apply Hnew. eapply IPNet_String_inj, Hx; [done|by eapply (sw_nets _ Hwf)|].
    by apply (sw_keys _ Hwf).
Qed.

Lemma merge_skip_covered x : b = false -> covered m' x <-> covered m x \/ in_net n x.
Proof.
  intros Hb. destruct merge_run as (Hf & _ & Hsub & Hlost).
  destruct (Hf Hb) as (k0 & big & Hbig & Hup & Hnot). unfold covered. split.
  - intros (k & sn & Hk & Hx). left. exists k, sn. split; [by eapply lookup_weaken|done].
  - assert (Hb' : m' !! k0 = Some big).
    { destruct (Hlost k0 big Hbig) as [?|[Hi _]]; [done|]. by destruct Hnot. }
    intros [(k & sn & Hk & Hx)|Hx]; [|exists k0, big; split; [done|by apply Hup]].
    destruct (Hlost k sn Hk) as [Hk'|[Hi _]]; [by exists k, sn|].
    exists k0, big. split; [done|]. by apply Hup, Hi.
Qed.
End merge_one.

(** The map a merge leaves: well formed, covering the old addresses and the
    new ones, in whatever order the map was visited. *)
Lemma merge_result n ord m v :
  subnets_wf m -> visits ord m -> is_subnet4 n -> vnet v = n ->
  exists b m', merge_loop vnet n ord m = Done (b, m') /\
    let r := if b : bool then <[IPNet_String n := v]> m' else m' in
    subnets_wf r /\ (forall x, covered r x <-> covered m x \/ in_net n x).
Proof.
  intros Hwf Hv Hn Hvn.
  destruct (merge_loop_spec n ord m Hn) as (b & m' & Hrun & _).
  { apply Forall_forall. intros [k sn] Hkv. rewrite visits_elem_of in Hkv by done.
    by apply (sw_nets _ Hwf k). }
  exists b, m'. split; [done|]. destruct b; simpl.
  - split; [by eapply merge_insert_wf|]. intros x. by eapply merge_insert_covered.
  - split; [|intros x; by eapply merge_skip_covered].
    eapply subnets_wf_sub; [done|]. by eapply merge_run.
Qed.
End merge.

(** C35: Whatever the order in which the map is visited, [MergeSubnet] does not
    panic, keeps the map an antichain of IPv4 networks keyed by their text,
    and makes it cover exactly the addresses it covered and those of the new
    subnet. *)
Theorem MergeSubnet_covers ord subnets snet :
  subnets_wf cs_Subnet subnets -> visits ord subnets -> is_subnet4 (cs_Subnet snet) ->
  exists added subnets', MergeSubnet ord subnets snet = Done (added, subnets') /\
    subnets_wf cs_Subnet subnets' /\
    (forall x, covered cs_Subnet subnets' x <->
               covered cs_Subnet subnets x \/ in_net (cs_Subnet snet) x).
Proof.
  intros Hwf Hv Hn. unfold MergeSubnet.
  destruct (merge_result cs_Subnet _ ord subnets snet Hwf Hv Hn eq_refl) as (b & m' & -> & Hr).
  destruct b; eexists _, _; split; try reflexivity; exact Hr.
Qed.

(** The same for the subnets that carry a type. *)
Theorem MergeSpecialSubnet_covers ord subnets snet iptype :
  subnets_wf ss_Subnet subnets -> visits ord subnets -> is_subnet4 (cs_Subnet snet) ->
  exists added subnets', MergeSpecialSubnet ord subnets snet iptype = Done (added, subnets') /\
    subnets_wf ss_Subnet subnets' /\
    (forall x, covered ss_Subnet subnets' x <->
               covered ss_Subnet subnets x \/ in_net (cs_Subnet snet) x).
Proof.
  intros Hwf Hv Hn. unfold MergeSpecialSubnet.
  destruct (merge_result ss_Subnet _ ord subnets
    {| ss_Subnet := cs_Subnet snet; ss_Scope := cs_Scope snet; ss_IpType := iptype |}
    Hwf Hv Hn eq_refl) as (b & m' & -> & Hr).
  destruct b; eexists _, _; split; try reflexivity; exact Hr.
Qed.

(** ** The smallest network around some addresses *)

Lemma interval_div v h x :
  0 <= h -> v mod 2 ^ h = 0 -> v <= x <= v + (2 ^ h - 1) <-> x / 2 ^ h = v / 2 ^ h.
Proof.
  intros Hh Hm. pose proof (Z.pow_pos_nonneg 2 h ltac:(lia) Hh).
  assert (v = 2 ^ h * (v / 2 ^ h)) by (apply Z.div_exact; lia).
  pose proof (Z.div_mod x (2 ^ h)). pose proof (Z.mod_pos_bound x (2 ^ h)).
  split; [|intros Heq; rewrite Heq in *; lia].
  intros Hx. symmetry. apply (Z.div_unique_pos _ _ _ (x - v)); lia.
Qed.

(** [val] is the conjunction of [xs] and [max] their maximum. *)
Definition enclosed (val max : Z) (xs : list Z) : Prop :=
  (forall i, 0 <= i -> Z.testbit val i = true <-> Forall (fun x => Z.testbit x i = true) xs) /\
  max ∈ xs /\ Forall (fun x => x <= max) xs.

Lemma enclosure_go_spec ips xs ys val max w :
  Forall2 (fun ip x => addr ip x w) ips xs -> enclosed val max ys ->
  exists val' max', enclosure_go (Some (val, max, w)) ips = Some (Some (val', max', w)) /\
    enclosed val' max' (ys ++ xs).
Proof.
  intros Hips. revert val max ys. induction Hips as [|ip x ips xs [_ Hx] Hips IH];
    intros val max ys He; simpl.
  { rewrite app_nil_r. eauto. }
  rewrite Hx, Z.eqb_refl. simpl. rewrite cons_middle, app_assoc. apply IH.
  destruct He as (Hb & Hin & Hmax). split; [|split].
  - intros i Hi. rewrite Z.land_spec, andb_true_iff, Forall_app, Hb, Forall_singleton by done. done.
  - rewrite elem_of_app, list_elem_of_singleton. destruct (max <? x); tauto.
  - rewrite Forall_app, Forall_singleton. destruct (Z.ltb_spec max x); split; try lia.
    + eapply Forall_impl; [exact Hmax|]. intros y Hy; simpl in Hy. lia.
    + done.
Qed.

Section enclosure.
Context (val max w : Z) (xs : list Z).
Context (Hw : 0 <= w) (He : enclosed val max xs) (Hxs : Forall (fun x => 0 <= x < 2 ^ w) xs).
Let zeros := BitLen (max - val).

Lemma enclosed_sub x : x ∈ xs -> x - val = Z.ldiff x val.
Proof.
  intros Hx. apply Z.sub_nocarry_ldiff. destruct He as (Hb & _). apply Z.bits_inj'. intros i Hi.
  rewrite Z.ldiff_spec, Z.bits_0. destruct (Z.testbit val i) eqn:Hv; [|done].
  apply Hb in Hv; [|done]. rewrite Forall_forall in Hv. by rewrite (Hv x Hx).
Qed.

Lemma enclosed_range x : x ∈ xs -> 0 <= x - val <= max - val /\ 0 <= x < 2 ^ w.
Proof.
  intros Hx. rewrite Forall_forall in Hxs. pose proof (Hxs x Hx) as Hr. split; [|done].
  destruct He as (_ & _ & Hmax). rewrite Forall_forall in Hmax. split; [|specialize (Hmax x Hx); lia].
  rewrite enclosed_sub by done. apply Z.ldiff_nonneg. lia.
Qed.

Lemma val_range : 0 <= val < 2 ^ w.
Proof.
  assert (Hmx : max ∈ xs) by apply He. pose proof (enclosed_range max Hmx) as [H1 H2].
  split; [|lia]. destruct (decide (0 <= val)) as [|Hneg]; [done|exfalso].
  set (i := Z.max w (Z.log2 (- val) + 1)). destruct He as (Hb & _).
  assert (Ht : Z.testbit val i = true).
  { apply Z.bits_above_log2_neg; [lia|]. pose proof (Z.log2_le_mono (Z.pred (- val)) (- val)). lia. }
  apply Hb in Ht; [|lia]. rewrite Forall_forall in Ht. specialize (Ht max Hmx).
  by rewrite (testbit_high w) in Ht by lia.
Qed.

Lemma BitLen_spec d : 0 <= d -> 0 <= BitLen d /\ d < 2 ^ BitLen d.
Proof.
  intros Hd. unfold BitLen. destruct (Z.eqb_spec d 0) as [->|]; [lia|].
  pose proof (Z.log2_spec d ltac:(lia)). pose proof (Z.log2_nonneg d).
  rewrite <-Z.add_1_r in *. lia.
Qed.

Lemma zeros_range : 0 <= zeros <= w.
Proof.
  pose proof val_range as Hv. assert (Hmx : max ∈ xs) by apply He.
  pose proof (enclosed_range max Hmx) as [H1 H2]. unfold zeros, BitLen.
  destruct (Z.eqb_spec (max - val) 0); [lia|]. pose proof (Z.log2_nonneg (max - val)).
  assert (Z.log2 (max - val) < w); [|lia].
  apply Z.log2_lt_pow2; lia.
Qed.

(** The addresses agree above the lowest [zeros] bits. *)
Lemma enclosed_prefix x : x ∈ xs -> x / 2 ^ zeros = val / 2 ^ zeros.
Proof.
  intros Hx. pose proof zeros_range as Hz. pose proof (enclosed_range x Hx) as [Hd _].
  destruct (BitLen_spec (max - val)) as [_ Hlt]; [lia|]. fold zeros in Hlt.
  rewrite <-!Z.shiftr_div_pow2 by lia. apply Z.bits_inj'. intros i Hi.
  rewrite !Z.shiftr_spec by done. pose proof (enclosed_sub x Hx) as Hs.
  assert (Hl : Z.testbit (Z.ldiff x val) (i + zeros) = false) by (apply (testbit_high zeros); lia).
  rewrite Z.ldiff_spec in Hl. destruct (Z.testbit val (i + zeros)) eqn:Hv.
  - destruct He as (Hb & _). apply Hb in Hv; [|lia]. rewrite Forall_forall in Hv. by apply Hv.
  - by rewrite andb_true_r in Hl.
Qed.

(** And no shorter host part will do. *)
Lemma enclosed_minimal k c :
  0 <= k -> Forall (fun x => x / 2 ^ k = c) xs -> zeros <= k.
Proof.
  intros Hk Hc. destruct (decide (zeros <= k)) as [|Hn]; [done|exfalso].
  assert (Hmx : max ∈ xs) by apply He. pose proof (enclosed_range max Hmx) as [H1 _].
  unfold zeros, BitLen in Hn. destruct (Z.eqb_spec (max - val) 0) as [|Hne]; [lia|].
  set (j := Z.log2 (max - val)) in *.
  assert (Hbit : Z.testbit (Z.ldiff max val) j = true).
  { rewrite <-enclosed_sub by done. apply Z.bit_log2. lia. }
  rewrite Z.ldiff_spec, andb_true_iff, negb_true_iff in Hbit. destruct Hbit as [Hm Hv].
  assert (Ht : Z.testbit val j = true); [|congruence]. destruct He as (Hb & _).
  apply Hb; [apply Z.log2_nonneg|]. apply Forall_forall. intros x Hx.
  rewrite Forall_forall in Hc. pose proof (Hc x Hx) as Hcx. pose proof (Hc max Hmx) as Hcm.
  replace j with (j - k + k) in * by lia.
  rewrite <-Z.shiftr_spec, Z.shiftr_div_pow2 in Hm |- * by lia. congruence.
Qed.
End enclosure.

Lemma enclosure_first ip x ips xs w :
  addr ip x w -> Forall2 (fun ip x => addr ip x w) ips xs ->
  exists val max, enclosure_go None (ip :: ips) = Some (Some (val, max, w)) /\
    enclosed val max (x :: xs).
Proof.
  intros [_ Hx] Hips. simpl. rewrite Hx.
  apply (enclosure_go_spec ips xs [x]); [done|]. split; [|split].
  - intros i _. by rewrite Forall_singleton.
  - constructor.
  - by rewrite Forall_singleton.
Qed.

Lemma IP_Mask_4 ip mask :
  length ip = 4%nat -> length mask = 4%nat -> IP_Mask ip mask = zip_with Z.land ip mask.
Proof.
  intros Hi Hm. unfold IP_Mask. cbv zeta.
  rewrite (bool_decide_eq_false_2 (length mask = 16%nat)) by lia. cbn [andb].
  rewrite (bool_decide_eq_false_2 (length ip = 16%nat)) by lia. rewrite andb_false_r. cbn [andb].
  by rewrite bool_decide_eq_true_2 by lia.
Qed.

(** The network [IPNet2Subnet] makes of an integer and a prefix. *)
Lemma IPNet2Subnet_spec val p :
  0 <= val < 2 ^ 32 -> 0 <= p <= 32 ->
  subnet4 (IPNet2Subnet {| ipnet_IP := be_split 4 val; ipnet_Mask := CIDRMask p 32 |})
    (val / 2 ^ (32 - p) * 2 ^ (32 - p)) p.
Proof.
  intros Hv Hp. destruct (CIDRMask_ok 32 p) as (Hl & Hw & Hb & _); [by left|done|].
  change (Z.to_nat (32 / 8)) with 4%nat in Hl.
  assert (Hm : IP_Mask (be_split 4 val) (CIDRMask p 32) =
               zip_with Z.land (be_split 4 val) (CIDRMask p 32)).
  { apply IP_Mask_4; [apply be_split_length|done]. }
  unfold subnet4, net_of, IPNet2Subnet. cbn [ipnet_IP ipnet_Mask]. rewrite Hm.
  split; [|apply Z.mod_mul; apply Z.pow_nonzero; lia]. split; [|done].
  assert (Hbe : be (zip_with Z.land (be_split 4 val) (CIDRMask p 32)) =
                val / 2 ^ (32 - p) * 2 ^ (32 - p)).
  { rewrite be_land, be_be_split, Z.mod_small, Hb, land_mask
      by (try apply be_split_wf; rewrite ?be_split_length; done || lia). done. }
  rewrite <-Hbe. apply addr_4bytes.
  - rewrite length_zip_with, be_split_length, Hl. done.
  - apply zip_land_wf, be_split_wf.
Qed.

Lemma in_net_div n v p x :
  subnet4 n v p -> in_net n x <-> x / 2 ^ (32 - p) = v / 2 ^ (32 - p).
Proof.
  intros Hn. rewrite (in_net_spec _ _ _ _ Hn). destruct Hn as [(_ & Hp & _) Hm].
  apply interval_div; [lia|done].
Qed.

(** The network [GetIPEnclosure] returns for some IPv4 addresses holds all
    of them, and every network that does contains it. *)
Theorem GetIPEnclosure_smallest ips xs :
  ips <> [] -> Forall2 (fun ip x => addr ip x 32) ips xs ->
  exists n, GetIPEnclosure ips = Done (Some n) /\ is_subnet4 n /\
    Forall (in_net n) xs /\
    (forall n', is_subnet4 n' -> Forall (in_net n') xs -> net_incl n' n).
Proof.
  intros Hne Hips. destruct Hips as [|ip x ips xs Hx Hips]; [done|].
  destruct (enclosure_first _ _ _ _ _ Hx Hips) as (val & max & Hgo & He).
  assert (Hxs : Forall (fun y => 0 <= y < 2 ^ 32) (x :: xs)).
  { constructor; [by apply (addr_bound _ _ _ Hx)|].
    clear -Hips. induction Hips as [|ip y ips xs Hy Hips IH]; constructor; [|done].
    by apply (addr_bound _ _ _ Hy). }
  assert (H32 : 0 <= 32) by lia.
  pose proof (val_range val max 32 _ H32 He Hxs) as Hv.
  pose proof (zeros_range val max 32 _ H32 He Hxs) as Hz. set (z := BitLen (max - val)) in *.
  unfold GetIPEnclosure. rewrite Hgo. destruct (intToIP_4 val Hv) as [-> _].
  cbn [mbind outcome_bind]. fold z. eexists. split; [reflexivity|].
  pose proof (IPNet2Subnet_spec val (32 - z) Hv ltac:(lia)) as Hn.
  replace (32 - (32 - z)) with z in Hn by lia. split; [by eexists _, _|].
  assert (Hpow : 2 ^ z <> 0) by (apply Z.pow_nonzero; lia).
  assert (Hmem : forall y, in_net (IPNet2Subnet
    {| ipnet_IP := be_split 4 val; ipnet_Mask := CIDRMask (32 - z) 32 |}) y <->
    y / 2 ^ z = val / 2 ^ z).
  { intros y. rewrite (in_net_div _ _ _ _ Hn). replace (32 - (32 - z)) with z by lia.
    by rewrite Z.div_mul. }
  split.
  - apply Forall_forall. intros y Hy. apply Hmem.
    by apply (enclosed_prefix val max 32 (x :: xs)).
  - intros n' (v' & p' & Hn') Hall y Hy. rewrite (in_net_div _ _ _ _ Hn').
    pose proof (subnet4_bound _ _ _ Hn') as (Hp' & _).
    assert (Hall' : Forall (fun x => x / 2 ^ (32 - p') = v' / 2 ^ (32 - p')) (x :: xs)).
    { eapply Forall_impl; [exact Hall|]. intros u Hu. by apply (in_net_div _ _ _ _ Hn'). }
    pose proof (enclosed_minimal val max 32 _ He Hxs (32 - p') _ ltac:(lia) Hall') as Hk.
    fold z in Hk. apply Hmem in Hy. inversion_clear Hall' as [|?? Hx' _].
    pose proof (enclosed_prefix val max 32 (x :: xs) H32 He Hxs x ltac:(constructor)) as Hpx.
    fold z in Hpx. rewrite <-Hpx in Hy.
    assert (Hdiv : forall u, u / 2 ^ (32 - p') = u / 2 ^ z / 2 ^ (32 - p' - z)).
    { intros u. rewrite Z.div_div by (apply Z.pow_nonzero || apply Z.pow_pos_nonneg; lia).
      rewrite <-Z.pow_add_r by lia. do 2 f_equal. lia. }
    by rewrite Hdiv, Hy, <-Hdiv.
Qed.

(** ** Integers and addresses *)

(** [IPv42Int] inverts [Int2IPv4] on every 32-bit integer, and the other
    way round on every four-byte address and on its sixteen-byte form; on a
    slice of fewer than four bytes it panics. *)
Theorem IPv4_int_roundtrip x ip :
  in_width 32 x -> length ip = 4%nat -> ip_wf ip ->
  IPv42Int (Int2IPv4 x) = Done x /\
  (exists n, IPv42Int ip = Done n /\ in_width 32 n /\ Int2IPv4 n = ip /\
             IPv42Int (v4InV6Prefix ++ ip) = Done n) /\
  panics (IPv42Int (take 3 ip)).
Proof.
  intros Hx Hl Hw. unfold IPv42Int, BigEndian_Uint32, Int2IPv4.
  rewrite be_split_length. cbn [Nat.ltb Nat.leb].
  rewrite (firstn_all2 (be_split 4 x)) by (by rewrite be_split_length).
  rewrite be_be_split, Z.mod_small by done. split; [done|]. split.
  - exists (be ip). pose proof (be_bound _ Hw) as Hb. rewrite Hl in Hb.
    change (drop 12 (v4InV6Prefix ++ ip)) with ip. rewrite length_app, Hl, (take_ge ip) by lia.
    split; [done|]. split; [done|]. split; [|done].
    rewrite <-(be_split_be ip Hw) at 2. by rewrite Hl.
  - rewrite length_take, Hl. done.
Qed.
Lemma IPv4_int_roundtrip_witness :
  IPv42Int (Int2IPv4 3232235777) = Done 3232235777 /\ Int2IPv4 3232235777 = [192; 168; 1; 1].
Proof.
  split; [|vm_compute; reflexivity].
  apply (IPv4_int_roundtrip 3232235777 [192; 168; 1; 1]);
    [unfold in_width; lia|done|unfold ip_wf, in_width; repeat constructor; lia].
Defined.

(** ** Witnesses *)

Definition net_10_1 : IPNet := {| ipnet_IP := [10; 1; 0; 0]; ipnet_Mask := CIDRMask 16 32 |}.
Definition net_10 : IPNet := {| ipnet_IP := [10; 0; 0; 0]; ipnet_Mask := CIDRMask 8 32 |}.

#[local] Instance addr_dec ip x w : Decision (addr ip x w).
Proof. unfold addr, ip_wf, in_width. apply _. Defined.
#[local] Instance subnet4_dec n v p : Decision (subnet4 n v p).
Proof. unfold subnet4, net_of. apply _. Defined.

Lemma net_10_1_ok : subnet4 net_10_1 167837696 16.
Proof. vm_decide. Qed.
Lemma net_10_ok : subnet4 net_10 167772160 8.
Proof. vm_decide. Qed.

Lemma SubnetContains_spec_witness :
  SubnetContains net_10 net_10_1 = Done (true, 1) /\
  exists inc v, SubnetContains net_10 net_10_1 = Done (inc, v) /\
    (inc = true <-> net_incl net_10 net_10_1 \/ net_incl net_10_1 net_10).
Proof.
  split; [vm_compute; reflexivity|].
  destruct (SubnetContains_spec net_10 net_10_1) as (inc & v & H & Hi & _);
    [eexists _, _; exact net_10_ok|eexists _, _; exact net_10_1_ok|].
  exists inc, v. exact (conj H Hi).
Defined.

Definition one_subnet : gmap string CLUSSubnet :=
  {[ "10.1.0.0/16" := {| cs_Subnet := net_10_1; cs_Scope := "global" |} ]}.

Lemma one_subnet_wf : subnets_wf cs_Subnet one_subnet.
Proof.
  unfold one_subnet. split.
  - apply map_Forall_singleton. eexists _, _. exact net_10_1_ok.
  - apply map_Forall_singleton. vm_compute. reflexivity.
  - intros k1 k2 s1 s2 [<- _]%lookup_singleton_Some [<- _]%lookup_singleton_Some. done.
Qed.

Lemma MergeSubnet_covers_witness :
  (exists added m', MergeSubnet (map_to_list one_subnet) one_subnet
     {| cs_Subnet := net_10; cs_Scope := "global" |} = Done (added, m') /\
     subnets_wf cs_Subnet m') /\
  MergeSubnet (map_to_list one_subnet) one_subnet
     {| cs_Subnet := net_10; cs_Scope := "global" |}
  = Done (true, {[ "10.0.0.0/8" := {| cs_Subnet := net_10; cs_Scope := "global" |} ]}).
Proof.
  split; [|vm_compute; reflexivity].
  destruct (MergeSubnet_covers (map_to_list one_subnet) one_subnet
    {| cs_Subnet := net_10; cs_Scope := "global" |}) as (b & m' & H & Hw & _);
    [exact one_subnet_wf|exact (visits_refl one_subnet)|eexists _, _; exact net_10_ok|].
  exists b, m'. exact (conj H Hw).
Defined.

Lemma GetIPEnclosure_smallest_witness :
  (exists n, GetIPEnclosure [[10; 0; 0; 5]; [10; 0; 0; 6]] = Done (Some n) /\
     Forall (in_net n) [167772165; 167772166]) /\
  GetIPEnclosure [[10; 0; 0; 5]; [10; 0; 0; 6]] =
    Done (Some {| ipnet_IP := [10; 0; 0; 4]; ipnet_Mask := CIDRMask 30 32 |}).
Proof.
  split; [|vm_compute; reflexivity].
  destruct (GetIPEnclosure_smallest [[10; 0; 0; 5]; [10; 0; 0; 6]] [167772165; 167772166])
    as (n & H & _ & Hx & _); [done| |exists n; exact (conj H Hx)].
  constructor; [|constructor; [|constructor]];
    vm_decide.
Defined.
