(* ===== verification/NvPolicyTypes.v ===== *)
(** * Data of the enforcer's network policy

    The records [agent/policy] computes with: the group policies the
    controller distributes ([share/clus_apis.go]), the IP rules the data
    plane takes ([agent/dp/dp_apis.go]), and the names that stand for groups
    of addresses.  A slice that is nil behaves like an empty one in all this
    code, and both are [[]]; a nil [net.IP] is [[]]. *)

From Stdlib Require Import ZArith Lia Ascii.
From S2P Require Import Prelude GoLib GoNet GoText NvPorts NvSubnet.
Local Open Scope Z_scope.

(** ** Constants of [defs.h] *)

Definition DP_POLICY_APPLY_EGRESS : Z := 1.
Definition DP_POLICY_APPLY_INGRESS : Z := 2.

Definition DP_POLICY_ACTION_OPEN : Z := 0.
Definition DP_POLICY_ACTION_LEARN : Z := 1.
Definition DP_POLICY_ACTION_ALLOW : Z := 2.
Definition DP_POLICY_ACTION_CHECK_VH : Z := 3.
Definition DP_POLICY_ACTION_CHECK_NBE : Z := 4.
Definition DP_POLICY_ACTION_CHECK_APP : Z := 5.
Definition DP_POLICY_ACTION_VIOLATE : Z := 6.
Definition DP_POLICY_ACTION_DENY : Z := 7.

Definition DP_POLICY_APP_ANY : Z := 0.
Definition DP_POLICY_APP_UNKNOWN : Z := 4294967295.
Definition DPI_APP_PROTO_MARK : Z := 2001.

(** ** Names of [share] *)

Definition PolicyModeLearn : string := "Discover".
Definition PolicyModeEvaluate : string := "Monitor".
Definition PolicyModeEnforce : string := "Protect".

Definition CLUSWLExternal : string := "nv.external".
Definition CLUSWLModeGroup : string := "nv.mode_group".
Definition CLUSWLAddressGroup : string := "nv.address_group".
Definition CLUSHostAddrGroup : string := "nv.hostaddr_group".
Definition CLUSWLFqdnPrefix : string := "fqdn:".
Definition CLUSWLFqdnVhPrefix : string := "vh:".
Definition CLUSLearnedHostPrefix : string := "Host:".
Definition CLUSLearnedWorkloadPrefix : string := "Workload:".
Definition CLUSEndpointIngress : string := "ingress".
Definition CLUSWLAllContainer : string := "nv.allcontainer".
Definition CLUSPlatformContainerCore : string := "core".
Definition PolicyLearnedIDBase : Z := 10000.
Definition PolicyFedRuleIDBase : Z := 100000.

Definition SpecInternalTunnelIP : string := "tunnelip".
Definition SpecInternalHostIP : string := "hostip".
Definition SpecInternalDevIP : string := "devip".

(** ** Group policies *)

Record CLUSPortApp := { pa_Ports : string; pa_Application : Z; pa_CheckApp : bool }.

Record CLUSMappedPort := { mp_IPProto : Z; mp_Port : Z; mp_HostIP : IP; mp_HostPort : Z }.

Record CLUSApp :=
  { app_IPProto : Z; app_Port : Z; app_Proto : Z; app_Server : Z; app_Application : Z }.

Record CLUSWorkloadAddr := {
  wa_WlID : string;
  wa_PolicyMode : string;
  wa_Domain : string;
  wa_PlatformRole : string;
  wa_LocalIP : list IP;
  wa_GlobalIP : list IP;
  wa_NatIP : list IP;
  wa_LocalPortApp : list CLUSPortApp;
  wa_NatPortApp : list CLUSPortApp;
  wa_Ports : gmap string CLUSMappedPort;
  wa_Apps : gmap string CLUSApp
}.

Record CLUSGroupIPPolicy := {
  gp_ID : Z;
  gp_From : list CLUSWorkloadAddr;
  gp_To : list CLUSWorkloadAddr;
  gp_Action : Z
}.

(** ** Rules of the data plane *)

Record DPPolicyApp := { da_App : Z; da_Action : Z; da_RuleID : Z }.

Record DPPolicyIPRule := {
  ir_ID : Z;
  ir_SrcIP : IP; ir_DstIP : IP; ir_SrcIPR : IP; ir_DstIPR : IP;
  ir_Port : Z; ir_PortR : Z; ir_IPProto : Z;
  ir_Action : Z;
  ir_Ingress : bool;
  ir_Fqdn : string;
  ir_Vhost : bool;
  ir_Apps : list DPPolicyApp
}.

Record DPWorkloadIPPolicy := {
  dw_WlID : string;
  dw_Mode : string;
  dw_DefAction : Z;
  dw_ApplyDir : Z;
  dw_WorkloadMac : list string;
  dw_IPRules : list DPPolicyIPRule
}.

(** [RuleMap] holds pointers into [Policy.IPRules]: here the rule's index. *)
Record WorkloadIPPolicyInfo := {
  pi_RuleMap : gmap string nat;
  pi_Policy : DPWorkloadIPPolicy;
  pi_Configured : bool;
  pi_SkipPush : bool;
  pi_HostMode : bool;
  pi_CapIntcp : bool;
  pi_PolVer : Z;
  pi_Nbe : bool
}.

#[export] Instance DPPolicyApp_eq_dec : EqDecision DPPolicyApp.
Proof. solve_decision. Defined.
#[export] Instance DPPolicyIPRule_eq_dec : EqDecision DPPolicyIPRule.
Proof. solve_decision. Defined.
#[export] Instance DPWorkloadIPPolicy_eq_dec : EqDecision DPWorkloadIPPolicy.
Proof. solve_decision. Defined.
#[export] Instance CLUSSubnet_eq_dec : EqDecision CLUSSubnet.
Proof. solve_decision. Defined.

Definition set_IPRules (rs : list DPPolicyIPRule) (p : DPWorkloadIPPolicy) : DPWorkloadIPPolicy :=
  {| dw_WlID := dw_WlID p; dw_Mode := dw_Mode p; dw_DefAction := dw_DefAction p;
     dw_ApplyDir := dw_ApplyDir p; dw_WorkloadMac := dw_WorkloadMac p; dw_IPRules := rs |}.

(** The rules and the map that finds them again. *)
Definition set_rules (m : gmap string nat) (rs : list DPPolicyIPRule) (p : WorkloadIPPolicyInfo)
  : WorkloadIPPolicyInfo :=
  {| pi_RuleMap := m; pi_Policy := set_IPRules rs (pi_Policy p); pi_Configured := pi_Configured p;
     pi_SkipPush := pi_SkipPush p; pi_HostMode := pi_HostMode p; pi_CapIntcp := pi_CapIntcp p;
     pi_PolVer := pi_PolVer p; pi_Nbe := pi_Nbe p |}.

(** What the first policy of a distribution sets. *)
Definition set_mode (mode : string) (def : Z) (p : WorkloadIPPolicyInfo) : WorkloadIPPolicyInfo :=
  {| pi_RuleMap := pi_RuleMap p;
     pi_Policy := {| dw_WlID := dw_WlID (pi_Policy p); dw_Mode := mode; dw_DefAction := def;
                     dw_ApplyDir := dw_ApplyDir (pi_Policy p);
                     dw_WorkloadMac := dw_WorkloadMac (pi_Policy p);
                     dw_IPRules := dw_IPRules (pi_Policy p) |};
     pi_Configured := true;
     pi_SkipPush := pi_SkipPush p; pi_HostMode := pi_HostMode p; pi_CapIntcp := pi_CapIntcp p;
     pi_PolVer := pi_PolVer p; pi_Nbe := pi_Nbe p |}.

(** An address that only has an identity and ports. *)
Definition wl_addr (id mode : string) (lp np : list CLUSPortApp) : CLUSWorkloadAddr :=
  {| wa_WlID := id; wa_PolicyMode := mode; wa_Domain := ""; wa_PlatformRole := "";
     wa_LocalIP := []; wa_GlobalIP := []; wa_NatIP := [];
     wa_LocalPortApp := lp; wa_NatPortApp := np; wa_Ports := ∅; wa_Apps := ∅ |}.

Definition set_ports (lp np : list CLUSPortApp) (a : CLUSWorkloadAddr) : CLUSWorkloadAddr :=
  {| wa_WlID := wa_WlID a; wa_PolicyMode := wa_PolicyMode a; wa_Domain := wa_Domain a;
     wa_PlatformRole := wa_PlatformRole a; wa_LocalIP := wa_LocalIP a; wa_GlobalIP := wa_GlobalIP a;
     wa_NatIP := wa_NatIP a; wa_LocalPortApp := lp; wa_NatPortApp := np;
     wa_Ports := wa_Ports a; wa_Apps := wa_Apps a |}.

(** ** Names ([agent/policy/network.go]) *)

Definition isWorkloadFqdn (wl : string) : bool := HasPrefix wl CLUSWLFqdnPrefix.

(** The domain name and whether it is a virtual host. *)
Definition getFqdnName (wl : string) : string * bool :=
  let fqdname := ToLower (string_drop (String.length CLUSWLFqdnPrefix) wl) in
  if HasPrefix fqdname CLUSWLFqdnVhPrefix
  then (string_drop (String.length CLUSWLFqdnVhPrefix) fqdname, true)
  else (fqdname, false).

Definition isWorkloadIP (wl : string) : bool :=
  if HasPrefix wl CLUSLearnedWorkloadPrefix then
    match Split wl CLUSLearnedWorkloadPrefix with
    | [_; name] =>
        negb (bool_decide (name = CLUSEndpointIngress)) && negb (bool_decide (ParseIP name = []))
    | _ => false
    end
  else false.

Definition isWorkloadIngress (wl : string) : bool :=
  if HasPrefix wl CLUSLearnedWorkloadPrefix then
    match Split wl CLUSLearnedWorkloadPrefix with
    | [_; name] => bool_decide (name = CLUSEndpointIngress)
    | _ => false
    end
  else false.

Definition isHostWl (wl : string) : bool := HasPrefix wl CLUSLearnedHostPrefix.

Definition isHostWlIP (wl : string) : bool :=
  if HasPrefix wl CLUSLearnedHostPrefix then
    match Split wl CLUSLearnedHostPrefix with
    | [_; name] => negb (bool_decide (ParseIP name = []))
    | _ => false
    end
  else false.

Definition isHostWlID (wl : string) : bool := isHostWl wl && negb (isHostWlIP wl).

Definition isSameHostEP (wl hid : string) : bool :=
  bool_decide (wl = CLUSLearnedHostPrefix +:+ hid).

(** ** [share/utils/utils.go] *)

Definition IsPolicyModeEnforce (addr : CLUSWorkloadAddr)
    (addrMap : gmap string CLUSWorkloadAddr) : bool :=
  match addrMap !! wa_WlID addr with
  | Some a => bool_decide (wa_PolicyMode a = PolicyModeEnforce)
  | None => false
  end.

Definition IsHostRelated (addr : CLUSWorkloadAddr) : bool :=
  if HasPrefix (wa_WlID addr) CLUSLearnedHostPrefix then true
  else negb (bool_decide (length (wa_NatPortApp addr) = 0%nat)).
