(* ===== verification/NvPolicyCalc.v ===== *)
(** * The enforcer's policy calculation: [agent/policy/network.go]

    From the group policies the controller distributes, the agent computes
    the IP rules of every workload it runs and gives them to the data plane.
    [createIPRule] adds the rules of one pair of addresses,
    [createWorkloadRule] those of a pair of workloads, [parseGroupIPPolicy]
    those of a whole distribution, [UpdateNetworkPolicy] pushes what changed.

    What the calculation takes from outside is an argument: the DNS lookup
    [lookup], and [order], which gives for each execution point (a path of
    loop indices) the order in which a map or a set is visited there. *)

From Stdlib Require Import ZArith Lia Ascii.
From S2P Require Import Prelude GoLib GoNet GoText NvPorts NvSubnet NvPolicyTypes.
Local Open Scope Z_scope.

(** ** Actions *)

(** An id of a learned rule. *)
Definition learned_id (id : Z) : bool := (PolicyLearnedIDBase <=? id) && (id <? PolicyFedRuleIDBase).

(** The endpoints for which an allowed connection leaves the namespace. *)
Definition adjustActionNs (action : Z) (from to : CLUSWorkloadAddr) (id : Z) : Z :=
  let either (f : string -> bool) := f (wa_WlID to) || f (wa_WlID from) in
  let named (s : string) := fun wl => bool_decide (wl = s) in
  if either (named CLUSWLExternal) || either (named CLUSWLAddressGroup) || either isWorkloadFqdn
     || either isHostWlIP || either isWorkloadIP
  then DP_POLICY_ACTION_CHECK_NBE
  else if either (named CLUSHostAddrGroup) || either isHostWlID || either isWorkloadIngress
  then action
  else if bool_decide (wa_PlatformRole from = CLUSPlatformContainerCore)
          || bool_decide (wa_PlatformRole to = CLUSPlatformContainerCore)
  then action
  else if negb (bool_decide (wa_Domain from = wa_Domain to)) then DP_POLICY_ACTION_CHECK_NBE
  else action.

(** The source has no policy mode: it is not a managed container. *)
Definition adjust_unmanaged (action : Z) (toMode : string) (id : Z) : Z :=
  if bool_decide (toMode = PolicyModeLearn) then
    if action =? DP_POLICY_ACTION_DENY then DP_POLICY_ACTION_VIOLATE
    else if learned_id id then DP_POLICY_ACTION_LEARN else action
  else if bool_decide (toMode = PolicyModeEvaluate) then
    if action =? DP_POLICY_ACTION_DENY then DP_POLICY_ACTION_VIOLATE else action
  else action.

Definition adjustActionStrict (action : Z) (from to : CLUSWorkloadAddr) (id : Z) : Z :=
  let fromMode := wa_PolicyMode from in
  let toMode := wa_PolicyMode to in
  if bool_decide (fromMode = PolicyModeLearn) then
    if action =? DP_POLICY_ACTION_DENY then
      if negb (bool_decide (toMode = PolicyModeEnforce)) then DP_POLICY_ACTION_VIOLATE else action
    else if learned_id id then DP_POLICY_ACTION_LEARN else action
  else if bool_decide (fromMode = PolicyModeEvaluate) then
    if action =? DP_POLICY_ACTION_DENY then
      if negb (bool_decide (toMode = PolicyModeEnforce)) then DP_POLICY_ACTION_VIOLATE else action
    else if bool_decide (toMode = PolicyModeLearn) && learned_id id then DP_POLICY_ACTION_LEARN
    else action
  else if bool_decide (fromMode = PolicyModeEnforce) then
    if bool_decide (toMode = PolicyModeLearn) && learned_id id then DP_POLICY_ACTION_LEARN else action
  else if bool_decide (fromMode = "") then adjust_unmanaged action toMode id
  else action.

(** [strict] is the global [StrictGroupMode]. *)
Definition adjustAction (strict : bool) (action : Z) (from to : CLUSWorkloadAddr) (id : Z) : Z :=
  if strict then adjustActionStrict action from to id
  else
    let fromMode := wa_PolicyMode from in
    let toMode := wa_PolicyMode to in
    if bool_decide (fromMode = PolicyModeLearn) then
      if action =? DP_POLICY_ACTION_DENY then DP_POLICY_ACTION_VIOLATE
      else if learned_id id then DP_POLICY_ACTION_LEARN else action
    else if bool_decide (fromMode = PolicyModeEvaluate) then
      if action =? DP_POLICY_ACTION_DENY then DP_POLICY_ACTION_VIOLATE
      else if bool_decide (toMode = PolicyModeLearn) && learned_id id then DP_POLICY_ACTION_LEARN
      else action
    else if bool_decide (fromMode = PolicyModeEnforce) then
      if bool_decide (toMode = PolicyModeLearn) && learned_id id then DP_POLICY_ACTION_LEARN
      else if bool_decide (toMode = PolicyModeLearn) || bool_decide (toMode = PolicyModeEvaluate) then
        if action =? DP_POLICY_ACTION_DENY then DP_POLICY_ACTION_VIOLATE else action
      else action
    else if bool_decide (fromMode = "") then adjust_unmanaged action toMode id
    else action.

Definition policyModeToDefaultAction (mode : string) (capIntcp : bool) : Z :=
  if bool_decide (mode = PolicyModeLearn) then DP_POLICY_ACTION_LEARN
  else if bool_decide (mode = PolicyModeEvaluate) then DP_POLICY_ACTION_VIOLATE
  else if bool_decide (mode = PolicyModeEnforce) then
    if capIntcp then DP_POLICY_ACTION_DENY else DP_POLICY_ACTION_VIOLATE
  else DP_POLICY_ACTION_OPEN.

(** ** The rules of a pair of addresses *)

Record ruleContext := { rc_ingress : bool; rc_id : Z; rc_fqdn : string; rc_vhost : bool }.

(** [fmt.Sprintf("%v%v%s%s%d", from, to, ap, fqdn, ...)] and the ends of the
    ranges. *)
Definition rule_key (ctx : ruleContext) (from to fromR toR : IP) (ap : string) : string :=
  IP_String from +:+ IP_String to +:+ ap +:+ rc_fqdn ctx +:+ (if rc_ingress ctx then "1" else "0")
  +:+ (if bool_decide (fromR = []) then "" else IP_String fromR)
  +:+ (if bool_decide (toR = []) then "" else IP_String toR).

(** Its body is commented out in the source. *)
Definition getDerivedAppRule (port : string) (appRule : DPPolicyApp) : option DPPolicyApp := None.

Definition with_derived (ap : string) (a : DPPolicyApp) : list DPPolicyApp :=
  a :: match getDerivedAppRule ap a with Some d => [d] | None => [] end.

Definition add_apps (l : list DPPolicyApp) (r : DPPolicyIPRule) : DPPolicyIPRule :=
  {| ir_ID := ir_ID r; ir_SrcIP := ir_SrcIP r; ir_DstIP := ir_DstIP r; ir_SrcIPR := ir_SrcIPR r;
     ir_DstIPR := ir_DstIPR r; ir_Port := ir_Port r; ir_PortR := ir_PortR r;
     ir_IPProto := ir_IPProto r; ir_Action := ir_Action r; ir_Ingress := ir_Ingress r;
     ir_Fqdn := ir_Fqdn r; ir_Vhost := ir_Vhost r; ir_Apps := ir_Apps r ++ l |}.

(** The rule a piece of a port list becomes. *)
Definition new_rule (ctx : ruleContext) (from to fromR toR : IP) (pa : CLUSPortApp) (action : Z)
    (hostMode : bool) (ap : string) : option DPPolicyIPRule :=
  '(proto, p, pr) ← ParsePortRangeLink ap;
  let check := negb hostMode && pa_CheckApp pa in
  let appRule := {| da_App := pa_Application pa; da_Action := action; da_RuleID := rc_id ctx |} in
  Some {| ir_ID := rc_id ctx; ir_SrcIP := from; ir_DstIP := to; ir_SrcIPR := fromR; ir_DstIPR := toR;
          ir_Port := p; ir_PortR := pr; ir_IPProto := proto;
          ir_Action := if check then DP_POLICY_ACTION_CHECK_APP else action;
          ir_Ingress := rc_ingress ctx; ir_Fqdn := rc_fqdn ctx; ir_Vhost := rc_vhost ctx;
          ir_Apps := if check then with_derived ap appRule else [] |}.

Definition append_rule (key : string) (r : DPPolicyIPRule) (pInfo : WorkloadIPPolicyInfo)
  : WorkloadIPPolicyInfo :=
  let rs := dw_IPRules (pi_Policy pInfo) in
  set_rules (<[key := length rs]> (pi_RuleMap pInfo)) (rs ++ [r]) pInfo.

(** One piece [ap] of one entry of [portApps]. *)
Definition create_piece (ctx : ruleContext) (from to fromR toR : IP) (pa : CLUSPortApp) (action : Z)
    (pInfo : WorkloadIPPolicyInfo) (ap : string) : WorkloadIPPolicyInfo :=
  let key := rule_key ctx from to fromR toR ap in
  let rs := dw_IPRules (pi_Policy pInfo) in
  let fresh :=
    match new_rule ctx from to fromR toR pa action (pi_HostMode pInfo) ap with
    | None => pInfo
    | Some r => append_rule key r pInfo
    end in
  match pi_RuleMap pInfo !! key ≫= fun i => pair i <$> rs !! i with
  | None => fresh
  | Some (i, existRule) =>
      if negb (ir_Action existRule =? DP_POLICY_ACTION_CHECK_APP) then pInfo
      else if negb (rc_id ctx =? 0) then
        if existsb (fun app => da_App app =? pa_Application pa) (ir_Apps existRule) then pInfo
        else
          let appRule :=
            {| da_App := pa_Application pa; da_Action := action; da_RuleID := rc_id ctx |} in
          set_rules (pi_RuleMap pInfo) (<[i := add_apps (with_derived ap appRule) existRule]> rs) pInfo
      else fresh
  end.

Definition createIPRule (from to fromR toR : IP) (portApps : list CLUSPortApp) (action : Z)
    (pInfo : WorkloadIPPolicyInfo) (ctx : ruleContext) : WorkloadIPPolicyInfo :=
  foldl (fun pInfo pa =>
    foldl (create_piece ctx from to fromR toR pa action) pInfo (Split (pa_Ports pa) ","))
    pInfo portApps.

(** ** The rules of a pair of workloads

    The calls of [createIPRule] that [createWorkloadRule] makes, in order.
    None of them depends on what the others did. *)
Record ip_call := {
  ic_from : IP; ic_to : IP; ic_fromR : IP; ic_toR : IP; ic_ports : list CLUSPortApp
}.

Definition call (from to : IP) (ports : list CLUSPortApp) : ip_call :=
  {| ic_from := from; ic_to := to; ic_fromR := []; ic_toR := []; ic_ports := ports |}.

Definition run_call (action : Z) (ctx : ruleContext) (pInfo : WorkloadIPPolicyInfo) (c : ip_call)
  : WorkloadIPPolicyInfo :=
  createIPRule (ic_from c) (ic_to c) (ic_fromR c) (ic_toR c) (ic_ports c) action pInfo ctx.

(** [for i := 0; i < len(l); i += 2] over [l[i]] and [l[i+1]]. *)
Fixpoint nat_pairs (l : list IP) : outcome (list (IP * IP)) :=
  match l with
  | [] => Done []
  | [_] => Panicked "index out of range"
  | a :: b :: l' => r ← nat_pairs l'; Done ((a, b) :: r)
  end.

(** A loop that collects calls; the body gets the index of the iteration. *)
Fixpoint collect {A B} (i : nat) (l : list A) (f : nat -> A -> outcome (list B)) : outcome (list B) :=
  match l with
  | [] => Done []
  | x :: l' => a ← f i x; b ← collect (S i) l' f; Done (a ++ b)
  end.

(** The groups whose [NatIP] is a list of ranges. *)
Definition is_addr_group (wl : string) : bool :=
  bool_decide (wl = CLUSWLAddressGroup) || bool_decide (wl = CLUSHostAddrGroup).

Definition IPv4Loopback : IP := IPv4 127 0 0 1.

(** The ranges of an address group as a destination and as a source. *)
Definition ranges_to (ipFrom : IP) (to : CLUSWorkloadAddr) : outcome (list ip_call) :=
  pairs ← nat_pairs (wa_NatIP to);
  Done (List.map (fun '(a, b) => {| ic_from := ipFrom; ic_to := a; ic_fromR := []; ic_toR := b;
                                    ic_ports := wa_NatPortApp to |}) pairs).

Definition ranges_from (from : CLUSWorkloadAddr) (ipTo : IP) (ports : list CLUSPortApp)
  : outcome (list ip_call) :=
  pairs ← nat_pairs (wa_NatIP from);
  Done (List.map (fun '(a, b) => {| ic_from := a; ic_to := ipTo; ic_fromR := b; ic_toR := [];
                                    ic_ports := ports |}) pairs).

Section workload_rule.
(** [hosts i]: [e.HostIPs.ToSlice()] in the [i]th round of the outer loop. *)
Context (hosts : nat -> list string).

(** The loop over [to.NatIP] when [to] is not an address group; on the same
    host the first address stands for all of them. *)
Definition egress_nat (i : nat) (ipFrom : IP) (to : CLUSWorkloadAddr) (hostMode sameHost : bool)
  : list ip_call :=
  if sameHost then
    match wa_NatIP to with
    | [] => []
    | ipTo :: _ =>
        call ipFrom ipTo (wa_NatPortApp to) ::
        ((fun addr => call ipFrom (ParseIP addr) (wa_NatPortApp to)) <$>
           List.filter (fun addr => negb (bool_decide (addr = IP_String ipTo))) (hosts i)) ++
        (if hostMode then [call ipFrom IPv4Loopback (wa_NatPortApp to)] else [])
    end
  else (fun ipTo => call ipFrom ipTo (wa_NatPortApp to)) <$> wa_NatIP to.

Definition egress_from (to : CLUSWorkloadAddr) (hostMode sameHost : bool) (i : nat) (ipFrom : IP)
  : outcome (list ip_call) :=
  let local := if sameHost then (fun ipTo => call ipFrom ipTo (wa_LocalPortApp to)) <$> wa_LocalIP to
               else [] in
  let global := if hostMode then (fun ipTo => call ipFrom ipTo (wa_LocalPortApp to)) <$> wa_GlobalIP to
                else [] in
  match wa_NatPortApp to with
  | [] => Done (local ++ global)
  | _ =>
      if is_addr_group (wa_WlID to) then
        ranges ← ranges_to ipFrom to;
        Done (local ++ global ++ ranges ++
              (if bool_decide (wa_WlID to = CLUSHostAddrGroup)
               then (fun addr => call ipFrom (ParseIP addr) (wa_NatPortApp to)) <$> hosts i
               else []))
      else Done (local ++ global ++ egress_nat i ipFrom to hostMode sameHost)
  end.

(** The loop over [from.NatIP] when [from] is not an address group. *)
Definition ingress_nat (j : nat) (ipTo : IP) (from : CLUSWorkloadAddr) (ports : list CLUSPortApp)
    (sameHost : bool) : list ip_call :=
  if sameHost && IsHostRelated from then
    match wa_NatIP from with
    | [] => []
    | ipFrom :: _ =>
        call ipFrom ipTo ports ::
        ((fun addr => call (ParseIP addr) ipTo ports) <$>
           List.filter (fun addr => negb (bool_decide (addr = IP_String ipFrom))) (hosts j))
    end
  else (fun ipFrom => call ipFrom ipTo ports) <$> wa_NatIP from.

Definition ingress_to (from : CLUSWorkloadAddr) (ports : list CLUSPortApp) (hostMode sameHost : bool)
    (j : nat) (ipTo : IP) : outcome (list ip_call) :=
  let local := if sameHost then (fun ipFrom => call ipFrom ipTo ports) <$> wa_LocalIP from else [] in
  if is_addr_group (wa_WlID from) then
    pairs ← nat_pairs (wa_NatIP from);
    Done (local ++
          (pairs ≫= fun '(a, b) =>
             {| ic_from := a; ic_to := ipTo; ic_fromR := b; ic_toR := []; ic_ports := ports |} ::
             (if hostMode && IP_Equal a IPv4Loopback then [call a IPv4Loopback ports] else [])) ++
          (if bool_decide (wa_WlID from = CLUSHostAddrGroup)
           then (fun addr => call (ParseIP addr) ipTo ports) <$> hosts j
           else []))
  else
    Done (local ++ ingress_nat j ipTo from ports sameHost ++
          (if hostMode then (fun ipFrom => call ipFrom ipTo ports) <$> wa_GlobalIP from else [])).

(** From global addresses to what is not a container. *)
Definition to_nat_calls (from to : CLUSWorkloadAddr) : outcome (list ip_call) :=
  if is_addr_group (wa_WlID to) then
    collect 0 (wa_GlobalIP from) (fun _ ipFrom => ranges_to ipFrom to)
  else if bool_decide (wa_PolicyMode to = "") then
    Done (wa_GlobalIP from ≫= fun ipFrom =>
            (fun ipTo => call ipFrom ipTo (wa_NatPortApp to)) <$> wa_NatIP to)
  else Done [].

(** From what is not a container to global addresses. *)
Definition from_nat_calls (from to : CLUSWorkloadAddr) : outcome (list ip_call) :=
  if is_addr_group (wa_WlID from) then
    collect 0 (wa_GlobalIP to) (fun _ ipTo => ranges_from from ipTo (wa_LocalPortApp to))
  else if bool_decide (wa_PolicyMode from = "") then
    Done (wa_GlobalIP to ≫= fun ipTo =>
            (fun ipFrom => call ipFrom ipTo (wa_LocalPortApp to)) <$> wa_NatIP from)
  else Done [].

(** The part that follows the direction's own rules. *)
Definition global_calls (from to : CLUSWorkloadAddr) (id : Z) (sameHost : bool)
  : outcome (list ip_call) :=
  let gg : list ip_call := wa_GlobalIP from ≫= fun ipFrom =>
    ((fun ipTo => call ipFrom ipTo (wa_LocalPortApp to)) <$>
       List.filter (fun ipTo => negb ((id =? 0) && IP_Equal ipFrom ipTo)) (wa_GlobalIP to)) ++
    (if negb (is_addr_group (wa_WlID to))
     then (fun ipTo => call ipFrom ipTo (wa_NatPortApp to)) <$> wa_NatIP to else []) in
  let cross (l1 l2 : list IP) : list ip_call := l1 ≫= fun ipFrom => (fun ipTo => call ipFrom ipTo (wa_LocalPortApp to)) <$> l2 in
  let same : list ip_call := if sameHost then cross (wa_GlobalIP from) (wa_LocalIP to) ++
                               cross (wa_LocalIP from) (wa_GlobalIP to) else [] in
  toNat ← to_nat_calls from to;
  fromNat ← from_nat_calls from to;
  Done (gg ++ same ++ toNat ++ fromNat).

(** The ports an ingress rule of [to] is made for. *)
Definition ingress_ports (to : CLUSWorkloadAddr) (hostMode : bool) : list CLUSPortApp :=
  if hostMode then
    (if negb (bool_decide (wa_NatPortApp to = [])) && negb (bool_decide (wa_LocalPortApp to = []))
     then wa_LocalPortApp to else []) ++ wa_NatPortApp to
  else wa_LocalPortApp to.

(** What [createWorkloadRule] makes of the action of the policy. *)
Definition rule_action (strict : bool) (from to : CLUSWorkloadAddr) (policy : CLUSGroupIPPolicy)
    (pInfo : WorkloadIPPolicyInfo) : Z :=
  let action := adjustAction strict (gp_Action policy) from to (gp_ID policy) in
  let action := if negb (pi_CapIntcp pInfo) && (action =? DP_POLICY_ACTION_DENY)
                then DP_POLICY_ACTION_VIOLATE else action in
  if pi_Nbe pInfo && ((action =? DP_POLICY_ACTION_LEARN) || (action =? DP_POLICY_ACTION_ALLOW))
  then adjustActionNs action from to (gp_ID policy) else action.

Definition rule_context (from to : CLUSWorkloadAddr) (policy : CLUSGroupIPPolicy) (ingress : bool)
  : ruleContext :=
  let '(fqdn, vhost) :=
    if negb ingress && isWorkloadFqdn (wa_WlID to) then getFqdnName (wa_WlID to)
    else if ingress && isWorkloadFqdn (wa_WlID from) then getFqdnName (wa_WlID from)
    else ("", false) in
  {| rc_ingress := ingress; rc_id := gp_ID policy; rc_fqdn := fqdn; rc_vhost := vhost |}.

(** The calls of the whole function; a host-mode workload without an address
    has none. *)
Definition workload_calls (from to : CLUSWorkloadAddr) (id : Z) (hostMode ingress sameHost : bool)
  : outcome (list ip_call) :=
  if negb ingress then
    if hostMode && bool_decide (wa_NatIP from = []) then Done []
    else
      own ← collect 0 (if hostMode then wa_NatIP from else wa_LocalIP from)
              (egress_from to hostMode sameHost);
      rest ← global_calls from to id sameHost;
      Done (own ++ rest)
  else
    if hostMode && bool_decide (wa_NatIP to = []) then Done []
    else
      let ports := ingress_ports to hostMode in
      own ← (if bool_decide (ports = []) then Done []
             else collect 0 (if hostMode then wa_NatIP to else wa_LocalIP to)
                    (ingress_to from ports hostMode sameHost));
      rest ← global_calls from to id sameHost;
      Done (own ++ rest).

Definition createWorkloadRule (strict : bool) (from to : CLUSWorkloadAddr)
    (policy : CLUSGroupIPPolicy) (pInfo : WorkloadIPPolicyInfo) (ingress sameHost : bool)
  : outcome WorkloadIPPolicyInfo :=
  let action := rule_action strict from to policy pInfo in
  let ctx := rule_context from to policy ingress in
  calls ← workload_calls from to (gp_ID policy) (pi_HostMode pInfo) ingress sameHost;
  Done (foldl (run_call action ctx) pInfo calls).
End workload_rule.

(** ** Addresses behind names *)

Record fqdnInfo := { fi_ips : list IP; fi_used : bool }.

Section calculation.
(** [net.LookupIP]: [None] is an error or a nil result. *)
Context (lookup : string -> option (list IP)).
Context (order : list nat -> forall A, list A -> list A).
Context (strict : bool) (polAppDir : Z) (HostID : string) (HostIPs : gset string).

Definition ResolveIP (name : string) : option (list IP) :=
  if bool_decide (ParseIP name = []) then lookup name else Some [ParseIP name].

Definition getFqdnIP (name : string) (fqdnMap : gmap string fqdnInfo)
  : list IP * gmap string fqdnInfo :=
  match fqdnMap !! name with
  | Some info => (fi_ips info, <[name := {| fi_ips := fi_ips info; fi_used := true |}]> fqdnMap)
  | None =>
      let ret :=
        if HasPrefix name "*" then [IPv4zero]
        else match ResolveIP name with
             | None => [IPv4zero]
             | Some ips => List.filter IsIPv4 ips
             end in
      (ret, <[name := {| fi_ips := ret; fi_used := true |}]> fqdnMap)
  end.

Definition fillWorkloadAddress (addr : CLUSWorkloadAddr) (addrMap : gmap string CLUSWorkloadAddr)
    (fqdnMap : gmap string fqdnInfo) : CLUSWorkloadAddr * gmap string fqdnInfo :=
  match addrMap !! wa_WlID addr with
  | Some a =>
      ({| wa_WlID := wa_WlID addr; wa_PolicyMode := wa_PolicyMode a; wa_Domain := wa_Domain a;
          wa_PlatformRole := wa_PlatformRole a; wa_LocalIP := wa_LocalIP a;
          wa_GlobalIP := wa_GlobalIP a; wa_NatIP := wa_NatIP a;
          wa_LocalPortApp := wa_LocalPortApp addr; wa_NatPortApp := wa_NatPortApp addr;
          wa_Ports := wa_Ports addr; wa_Apps := wa_Apps addr |}, fqdnMap)
  | None =>
      if isWorkloadFqdn (wa_WlID addr) then
        let '(ips, fqdnMap') := getFqdnIP (getFqdnName (wa_WlID addr)).1 fqdnMap in
        ({| wa_WlID := wa_WlID addr; wa_PolicyMode := wa_PolicyMode addr; wa_Domain := wa_Domain addr;
            wa_PlatformRole := wa_PlatformRole addr; wa_LocalIP := wa_LocalIP addr;
            wa_GlobalIP := wa_GlobalIP addr; wa_NatIP := ips;
            wa_LocalPortApp := wa_LocalPortApp addr; wa_NatPortApp := wa_NatPortApp addr;
            wa_Ports := wa_Ports addr; wa_Apps := wa_Apps addr |}, fqdnMap')
      else (addr, fqdnMap)
  end.

(** ** Ports of applications *)

Definition getPortsForApplicationAg (path : list nat) (appMap : gmap string CLUSApp)
    (application : Z) : string :=
  foldl (fun ports '(port, app) =>
    if (app_Application app =? application) || (app_Proto app =? application)
    then add_link ports port else ports) "" (order path _ (map_to_list appMap)).

Definition getMappedPortAg (path : list nat) (portMap : gmap string CLUSMappedPort) (ports : string)
  : string :=
  (foldl (fun '(i, pp) ap =>
     (S i, match ParsePortRangeLink ap with
           | None => pp
           | Some (proto, pl, ph) =>
               foldl (fun pp '(_, mp) =>
                 if ((mp_IPProto mp =? proto) || (proto =? 0)) && (pl <=? mp_Port mp) && (mp_Port mp <=? ph)
                 then add_link pp (GetPortLink (mp_IPProto mp) (mp_HostPort mp)) else pp)
                 pp (order (i :: path) _ (map_to_list portMap))
           end)) (O, "") (Split ports ",")).2.

Definition port_app (ports : string) (app : Z) (check : bool) : CLUSPortApp :=
  {| pa_Ports := ports; pa_Application := app; pa_CheckApp := check |}.

(** One application: what it adds to [LocalPortApp] and to [NatPortApp]. *)
Definition fill_one (path : list nat) (portsMap : gmap string CLUSMappedPort)
    (appsMap : gmap string CLUSApp) (app : CLUSPortApp) : list CLUSPortApp * list CLUSPortApp :=
  let mapped k pp a check :=
    let mapp := getMappedPortAg (k :: path) portsMap pp in
    if bool_decide (mapp = "") then [] else [port_app mapp a check] in
  let pp := if bool_decide (pa_Ports app = "") then "any" else pa_Ports app in
  let l1 := [port_app pp (pa_Application app) (pa_CheckApp app)] in
  let n1 := mapped 0%nat pp (pa_Application app) (pa_CheckApp app) in
  if pa_CheckApp app && (DPI_APP_PROTO_MARK <=? pa_Application app) then
    let appPorts := getPortsForApplicationAg (1%nat :: path) appsMap (pa_Application app) in
    let pp := if bool_decide (pa_Ports app = "") then appPorts
              else GetCommonPorts appPorts (pa_Ports app) in
    if bool_decide (pp = "") then (l1, n1)
    else (l1 ++ [port_app pp DP_POLICY_APP_UNKNOWN true],
          n1 ++ mapped 2%nat pp DP_POLICY_APP_UNKNOWN true)
  else (l1, n1).

Definition fillPortsForWorkloadAddressAg (path : list nat) (wlAddr : CLUSWorkloadAddr)
    (apps : list CLUSPortApp) (wlMap : gmap string CLUSWorkloadAddr) : CLUSWorkloadAddr :=
  let '(portsMap, appsMap) :=
    match wlMap !! wa_WlID wlAddr with Some a => (wa_Ports a, wa_Apps a) | None => (∅, ∅) end in
  match apps with
  | [] => wlAddr
  | _ =>
      let filled := imap (fun i app => fill_one (i :: path) portsMap appsMap app) apps in
      set_ports (filled ≫= fst) (filled ≫= snd) wlAddr
  end.

(** ** The workloads a policy names *)

(** The local workloads among [addrs], each with the key of its [pInfo]. *)
Definition relevant_of (path : list nat) (addr : CLUSWorkloadAddr)
    (pMap : gmap string WorkloadIPPolicyInfo) (wlMap : gmap string CLUSWorkloadAddr) (isto : bool)
  : list (CLUSWorkloadAddr * string) :=
  if bool_decide (wa_WlID addr = CLUSWLModeGroup) then
    if ((0 <? Z.land polAppDir DP_POLICY_APPLY_EGRESS) && negb isto)
       || ((0 <? Z.land polAppDir DP_POLICY_APPLY_INGRESS) && isto) then
      omap (fun '(id, pInfo) =>
        if Contains (wa_PolicyMode addr) (dw_Mode (pi_Policy pInfo))
        then Some (wl_addr id "" (wa_LocalPortApp addr) (wa_NatPortApp addr), id) else None)
        (order path _ (map_to_list pMap))
    else []
  else if bool_decide (wa_WlID addr = CLUSWLAllContainer) then
    omap (fun '(n, (id, pInfo)) =>
      if pi_Configured pInfo then
        let wlAddr := wl_addr id (dw_Mode (pi_Policy pInfo)) [] [] in
        Some (if isto then fillPortsForWorkloadAddressAg (n :: path) wlAddr (wa_LocalPortApp addr) wlMap
              else wlAddr, id)
      else None) (imap pair (order path _ (map_to_list pMap)))
  else if bool_decide (is_Some (pMap !! wa_WlID addr)) then [(addr, wa_WlID addr)] else [].

Definition getRelevantWorkload (path : list nat) (addrs : list CLUSWorkloadAddr)
    (pMap : gmap string WorkloadIPPolicyInfo) (wlMap : gmap string CLUSWorkloadAddr) (isto : bool)
  : list (CLUSWorkloadAddr * string) :=
  mjoin (imap (fun i addr => relevant_of (i :: path) addr pMap wlMap isto) addrs).

(** All the workloads of [addrs], wherever they run. *)
Definition workloads_of (path : list nat) (addr : CLUSWorkloadAddr)
    (wlMap : gmap string CLUSWorkloadAddr) (isto : bool) : list CLUSWorkloadAddr :=
  if bool_decide (wa_WlID addr = CLUSWLModeGroup) then
    if ((0 <? Z.land polAppDir DP_POLICY_APPLY_EGRESS) && isto)
       || ((0 <? Z.land polAppDir DP_POLICY_APPLY_INGRESS) && negb isto) then
      omap (fun '(id, wl) =>
        if Contains (wa_PolicyMode addr) (wa_PolicyMode wl)
        then Some (wl_addr id "" (wa_LocalPortApp addr)
                     (if bool_decide (wa_NatPortApp addr = []) then wa_NatPortApp addr
                      else wa_NatPortApp wl))
        else None) (order path _ (map_to_list wlMap))
    else []
  else if bool_decide (wa_WlID addr = CLUSWLAllContainer) then
    imap (fun n '(id, wl) =>
       let wlAddr := wl_addr id (wa_PolicyMode wl) [] [] in
       if isto then fillPortsForWorkloadAddressAg (n :: path) wlAddr (wa_LocalPortApp addr) wlMap
       else wlAddr) (order path _ (map_to_list wlMap))
  else [addr].

Definition getWorkload (path : list nat) (addrs : list CLUSWorkloadAddr)
    (wlMap : gmap string CLUSWorkloadAddr) (isto : bool) : list CLUSWorkloadAddr :=
  mjoin (imap (fun i addr => workloads_of (i :: path) addr wlMap isto) addrs).

Definition mixedModeSameWl (pp : CLUSGroupIPPolicy) (from to : CLUSWorkloadAddr) : bool :=
  (gp_ID pp =? 0) && bool_decide (wa_WlID from = wa_WlID to).

(** ** The addresses under policy *)

Definition addPolicyAddrIPNet (path : list nat) (subnets : gmap string CLUSSubnet) (ipnet : IPNet)
    (scope : string) : outcome (gmap string CLUSSubnet) :=
  let subnet := IPNet2Subnet ipnet in
  match subnets !! IPNet_String subnet with
  | Some _ => Done subnets
  | None =>
      '(_, m) ← MergeSubnet (order path _ (map_to_list subnets)) subnets
                  {| cs_Subnet := subnet; cs_Scope := scope |};
      Done m
  end.

(** The three [addWl...AddrToPolicyAddrMap]: one host network per address. *)
Fixpoint add_addrs (path : list nat) (i : nat) (ips : list IP) (scope : string)
    (m : gmap string CLUSSubnet) : outcome (gmap string CLUSSubnet) :=
  match ips with
  | [] => Done m
  | ip :: ips' =>
      m' ← addPolicyAddrIPNet (i :: path) m {| ipnet_IP := ip; ipnet_Mask := CIDRMask 32 32 |} scope;
      add_addrs path (S i) ips' scope m'
  end.
Definition addWlLocalAddrToPolicyAddrMap (path : list nat) (from : CLUSWorkloadAddr) :=
  add_addrs path 0 (wa_LocalIP from) "host".
Definition addWlGlobalAddrToPolicyAddrMap (path : list nat) (from : CLUSWorkloadAddr) :=
  add_addrs path 0 (wa_GlobalIP from) "global".
Definition addWlHostModeAddrToPolicyAddrMap (path : list nat) (from : CLUSWorkloadAddr) :=
  add_addrs path 0 (wa_NatIP from) "nat".

(** ** A whole distribution *)

(** What the loop threads: the domain names and the policies. *)
Record calc := { c_fqdn : gmap string fqdnInfo; c_pol : gmap string WorkloadIPPolicyInfo }.

(** What the first policy builds. *)
Record addr_maps := {
  am_addr : gmap string CLUSWorkloadAddr;
  am_policy : gmap string CLUSSubnet;
  am_host : gmap string CLUSSubnet;
  am_pol : gmap string WorkloadIPPolicyInfo
}.

Definition watched_mode (mode : string) : bool :=
  bool_decide (mode = PolicyModeEvaluate) || bool_decide (mode = PolicyModeEnforce).

(** One workload of the first policy, which contains all containers. *)
Definition first_from (path : list nat) (am : addr_maps) (from : CLUSWorkloadAddr)
  : outcome addr_maps :=
  let watched := watched_mode (wa_PolicyMode from) in
  global ← (if watched then addWlGlobalAddrToPolicyAddrMap (0%nat :: path) from (am_policy am)
            else Done (am_policy am));
  host ← (if watched && bool_decide (wa_GlobalIP from = []) && bool_decide (wa_LocalIP from = [])
          then addWlHostModeAddrToPolicyAddrMap (1%nat :: path) from (am_host am)
          else Done (am_host am));
  let addr := <[wa_WlID from := from]> (am_addr am) in
  match am_pol am !! wa_WlID from with
  | None => Done {| am_addr := addr; am_policy := global; am_host := host; am_pol := am_pol am |}
  | Some pInfo =>
      local ← (if watched then addWlLocalAddrToPolicyAddrMap (2%nat :: path) from global
               else Done global);
      let def := policyModeToDefaultAction (wa_PolicyMode from) (pi_CapIntcp pInfo) in
      Done {| am_addr := addr; am_policy := local; am_host := host;
              am_pol := <[wa_WlID from := set_mode (wa_PolicyMode from) def pInfo]> (am_pol am) |}
  end.

(** A loop whose body may panic, with the index of the iteration. *)
Fixpoint fold_idx {S A} (f : nat -> S -> A -> outcome S) (i : nat) (s : S) (l : list A) : outcome S :=
  match l with
  | [] => Done s
  | x :: l' => s' ← f i s x; fold_idx f (Datatypes.S i) s' l'
  end.

(** Fill both addresses and add the rules to the workload [id]. *)
Definition add_rules (path : list nat) (addrMap : gmap string CLUSWorkloadAddr)
    (pp : CLUSGroupIPPolicy) (id : string) (from to : CLUSWorkloadAddr)
    (ingress sameHost skipSame : bool) (st : calc) : outcome calc :=
  let '(from, fq) := fillWorkloadAddress from addrMap (c_fqdn st) in
  let '(to, fq) := fillWorkloadAddress to addrMap fq in
  if skipSame && mixedModeSameWl pp from to then Done {| c_fqdn := fq; c_pol := c_pol st |}
  else
    match c_pol st !! id with
    | None => Done {| c_fqdn := fq; c_pol := c_pol st |}
    | Some pInfo =>
        pInfo' ← createWorkloadRule (fun i => order (i :: path) _ (elements HostIPs))
                   strict from to pp pInfo ingress sameHost;
        Done {| c_fqdn := fq; c_pol := <[id := pInfo']> (c_pol st) |}
    end.

Definition sameHostWl (pol : gmap string WorkloadIPPolicyInfo) (wl : string) : bool :=
  isSameHostEP wl HostID || bool_decide (is_Some (pol !! wl)).

(** The endpoints outside the cluster's containers. *)
Definition outside_wl (wl : string) : bool :=
  bool_decide (wl = CLUSWLExternal) || bool_decide (wl = CLUSWLAddressGroup)
  || bool_decide (wl = CLUSHostAddrGroup) || isWorkloadFqdn wl || isWorkloadIP wl.

(** The body of the egress loops. *)
Definition egress_pair (path : list nat) (addrMap : gmap string CLUSWorkloadAddr)
    (pp : CLUSGroupIPPolicy) (id : string) (from : CLUSWorkloadAddr) (st : calc)
    (to : CLUSWorkloadAddr) : outcome calc :=
  match c_pol st !! id with
  | None => Done st
  | Some pInfo =>
      if 0 <? Z.land (dw_ApplyDir (pi_Policy pInfo)) DP_POLICY_APPLY_EGRESS then
        add_rules path addrMap pp id from to false (sameHostWl (c_pol st) (wa_WlID to)) true st
      else
        let isStrict := strict && IsPolicyModeEnforce from addrMap
                        && negb (IsPolicyModeEnforce to addrMap) in
        if isStrict || pi_Nbe pInfo || outside_wl (wa_WlID to) then
          add_rules path addrMap pp id from to false false false st
        else if IsHostRelated to then
          add_rules path addrMap pp id from to false (sameHostWl (c_pol st) (wa_WlID to)) false st
        else Done st
  end.

(** The body of the ingress loops. *)
Definition ingress_pair (path : list nat) (addrMap : gmap string CLUSWorkloadAddr)
    (pp : CLUSGroupIPPolicy) (id : string) (to : CLUSWorkloadAddr) (st : calc)
    (from : CLUSWorkloadAddr) : outcome calc :=
  match c_pol st !! id with
  | None => Done st
  | Some pInfo =>
      if 0 <? Z.land (dw_ApplyDir (pi_Policy pInfo)) DP_POLICY_APPLY_INGRESS then
        add_rules path addrMap pp id from to true (sameHostWl (c_pol st) (wa_WlID from)) true st
      else
        let isStrict := strict && IsPolicyModeEnforce to addrMap
                        && negb (IsPolicyModeEnforce from addrMap) in
        if isStrict || pi_Nbe pInfo || outside_wl (wa_WlID from) then
          add_rules path addrMap pp id from to true false false st
        else Done st
  end.

Definition apply_policy (path : list nat) (addrMap : gmap string CLUSWorkloadAddr) (st : calc)
    (pp : CLUSGroupIPPolicy) : outcome calc :=
  let wlList := getRelevantWorkload (0%nat :: path) (gp_From pp) (c_pol st) addrMap false in
  let wlToList := getWorkload (1%nat :: path) (gp_To pp) addrMap true in
  st ← fold_idx (fun i st '(from, id) =>
         fold_idx (fun j st to => egress_pair (j :: i :: 2%nat :: path) addrMap pp id from st to)
           0 st wlToList) 0 st wlList;
  let wlList := getRelevantWorkload (3%nat :: path) (gp_To pp) (c_pol st) addrMap true in
  let wlFromList := getWorkload (4%nat :: path) (gp_From pp) addrMap false in
  fold_idx (fun i st '(to, id) =>
    fold_idx (fun j st from => ingress_pair (j :: i :: 5%nat :: path) addrMap pp id to st from)
      0 st wlFromList) 0 st wlList.

(** The new policy maps, the domain names and the policies. *)
Definition parseGroupIPPolicy (p : list CLUSGroupIPPolicy) (st : calc)
  : outcome (addr_maps * calc) :=
  match p with
  | [] => Done ({| am_addr := ∅; am_policy := ∅; am_host := ∅; am_pol := c_pol st |}, st)
  | first :: rest =>
      am ← fold_idx (fun i am from => first_from [i; 0%nat] am from) 0
             {| am_addr := ∅; am_policy := ∅; am_host := ∅; am_pol := c_pol st |} (gp_From first);
      st' ← fold_idx (fun i st pp => apply_policy [i] (am_addr am) st pp) 1
              {| c_fqdn := c_fqdn st; c_pol := am_pol am |} rest;
      Done (am, st')
  end.

(** ** The engine *)

Record Engine := {
  en_NetworkPolicy : gmap string WorkloadIPPolicyInfo;
  en_PolicyAddrMap : gmap string CLUSSubnet;
  en_HostPolicyAddrMap : gmap string CLUSSubnet;
  en_fqdnMap : gmap string fqdnInfo;
  en_ToggleIcmpPolicy : bool
}.

(** What the engine asks of the data plane and of the cluster store. *)
Inductive dp_cmd :=
| CConfigPolicy (p : DPWorkloadIPPolicy) (add : bool)
| CConfigPolicyAddr (m : gmap string CLUSSubnet)
| CDeleteFqdn (names : list string)
| CStoreDelete (key : string).

Definition fqdnInfoPrePolicyCalc (fqdnMap : gmap string fqdnInfo) : gmap string fqdnInfo :=
  (fun info => {| fi_ips := fi_ips info; fi_used := false |}) <$> fqdnMap.

(** [delOK]: [DPCtrlDeleteFqdn] returned 0; [exist]: [cluster.Exist]. *)
Definition fqdnInfoPostPolicyCalc (delOK : bool) (exist : string -> bool) (path : list nat)
    (fqdnMap : gmap string fqdnInfo) : list dp_cmd * gmap string fqdnInfo :=
  let del := (List.filter (fun '(_, info) => negb (fi_used info)) (order path _ (map_to_list fqdnMap))).*1 in
  match del with
  | [] => ([], fqdnMap)
  | _ =>
      if delOK then
        (CDeleteFqdn del ::
           omap (fun name =>
             let key := "fqdn/ip/" +:+ HostID +:+ "/" +:+ name in
             if HasPrefix name "*" && exist key then Some (CStoreDelete key) else None) del,
         foldl (fun m name => delete name m) fqdnMap del)
      else ([CDeleteFqdn del], fqdnMap)
  end.

Definition drop_rule_map (p : WorkloadIPPolicyInfo) : WorkloadIPPolicyInfo :=
  set_rules ∅ (dw_IPRules (pi_Policy p)) p.

(** One workload of the loop that pushes: a host-mode workload whose policy
    changed, and the command for any other. *)
Definition push_one (old : gmap string WorkloadIPPolicyInfo) (toggle connected : bool)
    (id : string) (pInfo : WorkloadIPPolicyInfo) : list string * list dp_cmd :=
  if negb (pi_Configured pInfo) then ([], [])
  else if pi_SkipPush pInfo then ([], [])
  else
    let push add := if pi_HostMode pInfo then ([id], [])
                    else ([], if connected then [CConfigPolicy (pi_Policy pInfo) add] else []) in
    match old !! id with
    | None => push true
    | Some o =>
        if negb (Bool.eqb (pi_Configured pInfo) (pi_Configured o))
           || negb (bool_decide (pi_Policy pInfo = pi_Policy o)) || toggle
        then push false else ([], [])
    end.

(** The ids returned, the commands issued and the engine afterwards. *)
Definition UpdateNetworkPolicy (connected delOK : bool) (exist : string -> bool)
    (ps : list CLUSGroupIPPolicy) (newPolicy : gmap string WorkloadIPPolicyInfo) (e : Engine)
  : outcome (gset string * list dp_cmd * Engine) :=
  '(am, st) ← parseGroupIPPolicy ps
                {| c_fqdn := fqdnInfoPrePolicyCalc (en_fqdnMap e); c_pol := newPolicy |};
  let '(cmds1, fq) := if connected then fqdnInfoPostPolicyCalc delOK exist [0%nat; 0%nat; 1%nat] (c_fqdn st)
                      else ([], c_fqdn st) in
  let pol := drop_rule_map <$> c_pol st in
  let pushed := (fun '(id, p) => push_one (en_NetworkPolicy e) (en_ToggleIcmpPolicy e) connected id p)
                  <$> order [1%nat; 0%nat; 1%nat] _ (map_to_list pol) in
  let cmds2 := if bool_decide (en_PolicyAddrMap e = am_policy am) then []
               else [CConfigPolicyAddr (am_policy am)] in
  Done (list_to_set (pushed ≫= fst), cmds1 ++ (pushed ≫= snd) ++ cmds2,
        {| en_NetworkPolicy := pol; en_PolicyAddrMap := am_policy am;
           en_HostPolicyAddrMap := am_host am; en_fqdnMap := fq; en_ToggleIcmpPolicy := false |}).

Definition DeleteNetworkPolicy (id : string) (e : Engine) : Engine :=
  {| en_NetworkPolicy := delete id (en_NetworkPolicy e); en_PolicyAddrMap := en_PolicyAddrMap e;
     en_HostPolicyAddrMap := en_HostPolicyAddrMap e; en_fqdnMap := en_fqdnMap e;
     en_ToggleIcmpPolicy := en_ToggleIcmpPolicy e |}.

Definition PushNetworkPolicyToDP (path : list nat) (e : Engine) : list dp_cmd :=
  omap (fun '(_, pInfo) =>
    if pi_Configured pInfo && negb (pi_SkipPush pInfo)
    then Some (CConfigPolicy (pi_Policy pInfo) true) else None)
    (order path _ (map_to_list (en_NetworkPolicy e)))
  ++ [CConfigPolicyAddr (en_PolicyAddrMap e)].
End calculation.
