(* ===== verification/NvPolicySpec.v ===== *)
(** * What the policy calculation guarantees

    Properties of [NvPolicyCalc]: how an action is adjusted to the modes of
    its two ends, which rules a calculation can produce for a workload, and
    what reaches the data plane. *)

From Stdlib Require Import ZArith Lia Ascii.
From S2P Require Import Prelude GoLib GoNet GoText NvPorts NvSubnet NvPolicyTypes NvPolicyCalc.
Local Open Scope Z_scope.

(** ** Adjusted actions *)

(** The modes a workload can have; what is not a container has none. *)
Definition valid_mode (m : string) : Prop :=
  m = "" \/ m = PolicyModeLearn \/ m = PolicyModeEvaluate \/ m = PolicyModeEnforce.

(** A mode in which traffic is watched and not blocked. *)
Definition passive (m : string) : bool :=
  bool_decide (m = PolicyModeLearn) || bool_decide (m = PolicyModeEvaluate).

(** When a deny stays a deny. *)
Definition deny_stays (strict : bool) (fromMode toMode : string) : bool :=
  if strict then
    bool_decide (fromMode = PolicyModeEnforce) || bool_decide (toMode = PolicyModeEnforce)
    || (bool_decide (fromMode = "") && bool_decide (toMode = ""))
  else negb (passive fromMode) && negb (passive toMode).

Ltac modes H := destruct H as [->|[->|[->| ->]]].

(** For workloads with valid modes a deny rule that was not learned (a
    learned rule is an allow rule) blocks, in the normal mode, exactly when
    neither end is in Discover or Monitor mode, and in the strict mode exactly
    when an end is in Protect mode or neither end is a managed container;
    otherwise it becomes a violation that is only reported. *)
Theorem adjustAction_deny strict from to id :
  valid_mode (wa_PolicyMode from) -> valid_mode (wa_PolicyMode to) -> learned_id id = false ->
  adjustAction strict DP_POLICY_ACTION_DENY from to id =
  if deny_stays strict (wa_PolicyMode from) (wa_PolicyMode to)
  then DP_POLICY_ACTION_DENY else DP_POLICY_ACTION_VIOLATE.
Proof.
  unfold adjustAction, adjustActionStrict, adjust_unmanaged, deny_stays, passive.
  generalize (wa_PolicyMode from), (wa_PolicyMode to). intros fm tm Hf Ht ->.
  modes Hf; modes Ht; destruct strict; vm_compute; reflexivity.
Qed.
Lemma adjustAction_deny_witness :
  adjustAction true DP_POLICY_ACTION_DENY (wl_addr "a" PolicyModeLearn [] [])
    (wl_addr "b" PolicyModeEnforce [] []) 5 = DP_POLICY_ACTION_DENY /\
  adjustAction false DP_POLICY_ACTION_DENY (wl_addr "a" PolicyModeLearn [] [])
    (wl_addr "b" PolicyModeEnforce [] []) 5 = DP_POLICY_ACTION_VIOLATE.
Proof.
  split; [exact (adjustAction_deny true (wl_addr "a" PolicyModeLearn [] [])
                   (wl_addr "b" PolicyModeEnforce [] []) 5
                   ltac:(by right; left) ltac:(by right; right; right) eq_refl)|].
  vm_compute. reflexivity.
Defined.

(** An action that is not a deny stays, or becomes LEARN on a learned rule
    with an end in Discover mode. *)
Lemma adjustAction_other strict action from to id :
  action <> DP_POLICY_ACTION_DENY ->
  adjustAction strict action from to id = action \/
  (adjustAction strict action from to id = DP_POLICY_ACTION_LEARN /\ learned_id id = true /\
   (wa_PolicyMode from = PolicyModeLearn \/ wa_PolicyMode to = PolicyModeLearn)).
Proof.
  intros Hne%Z.eqb_neq. unfold adjustAction, adjustActionStrict, adjust_unmanaged. rewrite Hne.
  destruct strict; repeat case_match; repeat case_bool_decide; simplify_eq; auto;
    apply andb_true_iff in H1 as [H1%bool_decide_eq_true ?]; auto.
Qed.

(** In the normal mode no rule with a passive end is a deny. *)
Lemma adjustAction_passive action from to id :
  valid_mode (wa_PolicyMode from) -> valid_mode (wa_PolicyMode to) ->
  passive (wa_PolicyMode from) || passive (wa_PolicyMode to) = true ->
  adjustAction false action from to id <> DP_POLICY_ACTION_DENY.
Proof.
  destruct (decide (action = DP_POLICY_ACTION_DENY)) as [->|Hne].
  - unfold adjustAction, adjust_unmanaged, passive.
    generalize (wa_PolicyMode from), (wa_PolicyMode to). intros fm tm Hf Ht.
    modes Hf; modes Ht; destruct (learned_id id); vm_compute; congruence.
  - intros _ _ _. destruct (adjustAction_other false action from to id Hne) as [->|(-> & _)]; done.
Qed.

(** ** The rules of a workload *)

(** Every action of a rule, and of its applications, satisfies [P]; the
    action that sends the packet to the applications is not a verdict. *)
Definition rule_acts (P : Z -> Prop) (r : DPPolicyIPRule) : Prop :=
  (ir_Action r = DP_POLICY_ACTION_CHECK_APP \/ P (ir_Action r)) /\
  Forall (fun a => P (da_Action a)) (ir_Apps r).

Definition info_acts (P : Z -> Prop) (p : WorkloadIPPolicyInfo) : Prop :=
  Forall (rule_acts P) (dw_IPRules (pi_Policy p)).

(** Two infos that differ in their rules only. *)
Definition same_info (p q : WorkloadIPPolicyInfo) : Prop := set_rules ∅ [] p = set_rules ∅ [] q.

#[export] Instance same_info_equiv : Equivalence same_info.
Proof.
  split; unfold same_info; [intros p; done|intros p q; done|intros p q r -> ->; done].
Qed.

Lemma same_info_set m rs p : same_info (set_rules m rs p) p.
Proof. done. Qed.

Lemma same_info_fields p q :
  same_info p q ->
  pi_HostMode p = pi_HostMode q /\ pi_CapIntcp p = pi_CapIntcp q /\ pi_Nbe p = pi_Nbe q /\
  pi_Configured p = pi_Configured q /\ pi_SkipPush p = pi_SkipPush q /\
  dw_Mode (pi_Policy p) = dw_Mode (pi_Policy q) /\
  dw_DefAction (pi_Policy p) = dw_DefAction (pi_Policy q) /\
  dw_ApplyDir (pi_Policy p) = dw_ApplyDir (pi_Policy q).
Proof. unfold same_info, set_rules. intros [=]. done. Qed.

Section acts.
Context (P : Z -> Prop).

Lemma new_rule_acts ctx from to fromR toR pa action hm ap r :
  P action -> new_rule ctx from to fromR toR pa action hm ap = Some r -> rule_acts P r.
Proof.
  intros HP. unfold new_rule. destruct (ParsePortRangeLink ap) as [[[proto p] pr]|]; [|done].
  intros [= <-]. unfold rule_acts; simpl.
  destruct (negb hm && pa_CheckApp pa); split; auto. by repeat constructor.
Qed.

Lemma create_piece_acts ctx from to fromR toR pa action pInfo ap :
  P action -> info_acts P pInfo ->
  info_acts P (create_piece ctx from to fromR toR pa action pInfo ap) /\
  same_info (create_piece ctx from to fromR toR pa action pInfo ap) pInfo.
Proof.
  intros HP Hi. unfold create_piece. cbv zeta.
  assert (Hfresh : forall q, q = match new_rule ctx from to fromR toR pa action (pi_HostMode pInfo) ap with
    | None => pInfo | Some r => append_rule (rule_key ctx from to fromR toR ap) r pInfo end ->
    info_acts P q /\ same_info q pInfo).
  { intros q ->. destruct (new_rule _ _ _ _ _ _ _ _ _) as [r|] eqn:Hr; [|done]. split; [|done].
    apply Forall_app. split; [done|]. constructor; [|done]. by eapply new_rule_acts. }
  destruct (pi_RuleMap pInfo !! _) as [i|]; simpl; [|by apply Hfresh].
  destruct (dw_IPRules (pi_Policy pInfo) !! i) as [r|] eqn:Hr; simpl; [|by apply Hfresh].
  destruct (negb (ir_Action r =? _)); [done|].
  destruct (negb (rc_id ctx =? 0)); [|by apply Hfresh]. destruct (existsb _ _); [done|].
  split; [|done]. unfold info_acts. simpl. apply Forall_insert; [done|].
  destruct (Forall_lookup_1 _ _ _ _ Hi Hr) as [H1 H2]. split; [done|]. simpl.
  apply Forall_app; split; [done|]. by repeat constructor.
Qed.

(** A fold of steps that keep the actions and the info does. *)
Lemma foldl_acts {A} (f : WorkloadIPPolicyInfo -> A -> WorkloadIPPolicyInfo) l pInfo :
  (forall p x, info_acts P p -> info_acts P (f p x) /\ same_info (f p x) p) ->
  info_acts P pInfo -> info_acts P (foldl f pInfo l) /\ same_info (foldl f pInfo l) pInfo.
Proof.
  intros Hf. revert pInfo. induction l as [|x l IH]; intros p Hp; simpl; [done|].
  destruct (Hf p x Hp) as [H1 H2]. destruct (IH _ H1) as [H3 H4]. split; [done|]. by etransitivity.
Qed.

Lemma createWorkloadRule_acts hosts strict from to pp pInfo ingress sameHost pInfo' :
  P (rule_action strict from to pp pInfo) -> info_acts P pInfo ->
  createWorkloadRule hosts strict from to pp pInfo ingress sameHost = Done pInfo' ->
  info_acts P pInfo' /\ same_info pInfo' pInfo.
Proof.
  intros HP Hi. unfold createWorkloadRule.
  destruct (workload_calls _ _ _ _ _ _ _) as [calls|]; [|done].
  intros [= <-]. apply foldl_acts; [|done]. intros p c Hp. unfold run_call, createIPRule.
  apply foldl_acts; [|done]. intros q pa Hq. apply foldl_acts; [|done]. intros u ap Hu.
  by apply create_piece_acts.
Qed.
End acts.

Lemma createWorkloadRule_same hosts strict from to pp pInfo ingress sameHost pInfo' :
  createWorkloadRule hosts strict from to pp pInfo ingress sameHost = Done pInfo' ->
  same_info pInfo' pInfo.
Proof.
  apply (createWorkloadRule_acts (fun _ => True)); [done|]. apply Forall_true. intros r.
  split; [by right|]. by apply Forall_true.
Qed.

(** ** Loops *)

Lemma fold_idx_inv {S A} (I : S -> Prop) (f : nat -> S -> A -> outcome S) l i s s' :
  (forall i s x s', x ∈ l -> I s -> f i s x = Done s' -> I s') ->
  I s -> fold_idx f i s l = Done s' -> I s'.
Proof.
  revert i s. induction l as [|x l IH]; intros i s Hf Hs Hr; simpl in Hr; [by simplify_eq|].
  apply outcome_bind_done in Hr as (s1 & H1 & H2).
  eapply IH; [|eapply Hf; [|exact Hs|exact H1]|exact H2]; [|constructor].
  intros j t y t' Hy. apply Hf. by constructor.
Qed.

Lemma mjoin_imap_elem {A B} (f : nat -> A -> list B) l x :
  x ∈ mjoin (imap f l) -> exists i a, a ∈ l /\ x ∈ f i a.
Proof.
  rewrite list_elem_of_join. intros (k & Hx & Hk). apply elem_of_lookup_imap_1 in Hk as (i & a & -> & Ha).
  exists i, a. split; [|done]. by eapply list_elem_of_lookup_2.
Qed.

(** ** A whole calculation *)

Section calculation.
Context (lookup : string -> option (list IP)).
Context (order : list nat -> forall A, list A -> list A).
Context (order_perm : forall path A (l : list A), order path A l ≡ₚ l).
Context (strict : bool) (polAppDir : Z) (HostID : string) (HostIPs : gset string).

Lemma order_elem path A (l : list A) x : x ∈ order path A l <-> x ∈ l.
Proof. by rewrite order_perm. Qed.

(** A workload whose traffic the enforcer must not block: it cannot intercept
    it, or the workload is in Discover or Monitor mode (outside the strict
    mode, in which a rule of a peer in Protect mode still blocks). *)
Definition unblocked (p : WorkloadIPPolicyInfo) : bool :=
  negb (pi_CapIntcp p) || (negb strict && passive (dw_Mode (pi_Policy p))).

Definition not_deny (a : Z) : Prop := a <> DP_POLICY_ACTION_DENY.

(** What is true of every configured workload after the first policy. *)
Definition info_ok (addrMap : gmap string CLUSWorkloadAddr) (id : string) (p : WorkloadIPPolicyInfo)
  : Prop :=
  pi_Configured p = true ->
  (exists a, addrMap !! id = Some a /\ wa_PolicyMode a = dw_Mode (pi_Policy p)) /\
  dw_DefAction (pi_Policy p) = policyModeToDefaultAction (dw_Mode (pi_Policy p)) (pi_CapIntcp p) /\
  (unblocked p = true -> info_acts not_deny p).

Definition pol_ok (addrMap : gmap string CLUSWorkloadAddr)
    (pol : gmap string WorkloadIPPolicyInfo) : Prop := map_Forall (info_ok addrMap) pol.

Definition modes_valid (addrMap : gmap string CLUSWorkloadAddr) : Prop :=
  map_Forall (fun _ a => valid_mode (wa_PolicyMode a)) addrMap.

(** An address that has a valid mode once it is filled. *)
Definition addr_ok (addrMap : gmap string CLUSWorkloadAddr) (a : CLUSWorkloadAddr) : Prop :=
  valid_mode (wa_PolicyMode a) \/ is_Some (addrMap !! wa_WlID a).

Lemma fill_spec a addrMap fq a' fq' :
  fillWorkloadAddress lookup a addrMap fq = (a', fq') ->
  wa_WlID a' = wa_WlID a /\
  wa_PolicyMode a' = match addrMap !! wa_WlID a with
                     | Some b => wa_PolicyMode b | None => wa_PolicyMode a end.
Proof.
  unfold fillWorkloadAddress. destruct (addrMap !! wa_WlID a) as [b|]; [by intros [= <- _]|].
  destruct (isWorkloadFqdn _); [|by intros [= <- _]].
  destruct (getFqdnIP _ _ _) as [ips fq1]. by intros [= <- _].
Qed.

Lemma fill_valid a addrMap fq a' fq' :
  modes_valid addrMap -> addr_ok addrMap a ->
  fillWorkloadAddress lookup a addrMap fq = (a', fq') -> valid_mode (wa_PolicyMode a').
Proof.
  intros Hm Ha Hf. destruct (fill_spec _ _ _ _ _ Hf) as [_ ->].
  destruct (addrMap !! wa_WlID a) as [b|] eqn:Hb; [by eapply Hm|].
  destruct Ha as [Ha|Ha]; [done|]. rewrite Hb in Ha. by destruct Ha.
Qed.

Lemma rule_action_unblocked from to pp p :
  unblocked p = true -> valid_mode (wa_PolicyMode from) -> valid_mode (wa_PolicyMode to) ->
  (wa_PolicyMode from = dw_Mode (pi_Policy p) \/ wa_PolicyMode to = dw_Mode (pi_Policy p)) ->
  not_deny (rule_action strict from to pp p).
Proof.
  intros Hu Hf Ht Hown. unfold rule_action, not_deny.
  set (a := adjustAction strict (gp_Action pp) from to (gp_ID pp)).
  assert (Ha : pi_CapIntcp p = false \/ a <> DP_POLICY_ACTION_DENY).
  { unfold unblocked in Hu. apply orb_true_iff in Hu as [Hu|Hu]; [left; by apply negb_true_iff|].
    apply andb_true_iff in Hu as [Hs Hp]. right. apply negb_true_iff in Hs. unfold a. rewrite Hs.
    apply adjustAction_passive; [done..|]. destruct Hown as [->| ->]; rewrite Hp; [done|].
    by rewrite orb_true_r. }
  set (b := if negb (pi_CapIntcp p) && (a =? DP_POLICY_ACTION_DENY) then DP_POLICY_ACTION_VIOLATE else a).
  assert (Hb : b <> DP_POLICY_ACTION_DENY).
  { unfold b. destruct Ha as [->|Ha]; simpl.
    - destruct (Z.eqb_spec a DP_POLICY_ACTION_DENY); done.
    - apply Z.eqb_neq in Ha as Ha'. by rewrite Ha', andb_false_r. }
  destruct (pi_Nbe p && _) eqn:Hn; [|done].
  unfold adjustActionNs. repeat case_match; done.
Qed.

Lemma unblocked_same p q : same_info p q -> unblocked p = unblocked q.
Proof. intros H%same_info_fields. unfold unblocked. naive_solver congruence. Qed.

(** The pair of workloads a rule is made for, seen from the workload [id]. *)
Lemma add_rules_ok path addrMap pp id from to ingress sameHost skip st st' :
  modes_valid addrMap -> addr_ok addrMap from -> addr_ok addrMap to ->
  (if (ingress : bool) then wa_WlID to else wa_WlID from) = id ->
  pol_ok addrMap (c_pol st) ->
  add_rules lookup order strict HostIPs path addrMap pp id from to ingress sameHost skip st = Done st' ->
  pol_ok addrMap (c_pol st').
Proof.
  intros Hm Hf Ht Hown Hp. unfold add_rules.
  destruct (fillWorkloadAddress lookup from addrMap (c_fqdn st)) as [from' fq1] eqn:Hff.
  destruct (fillWorkloadAddress lookup to addrMap fq1) as [to' fq2] eqn:Htf.
  destruct (skip && _); [by intros [= <-]|].
  destruct (c_pol st !! id) as [p|] eqn:Hid; [|by intros [= <-]].
  intros (p' & Hr & Hdone)%outcome_bind_done. injection Hdone as <-. simpl.
  pose proof (fill_valid _ _ _ _ _ Hm Hf Hff) as Hvf.
  pose proof (fill_valid _ _ _ _ _ Hm Ht Htf) as Hvt.
  apply map_Forall_insert_2; [|done]. pose proof (Hp _ _ Hid) as Hok.
  intros Hc.
  pose proof (createWorkloadRule_same _ _ _ _ _ _ _ _ _ Hr) as Hsame.
  pose proof (same_info_fields _ _ Hsame) as (_ & Hcap & _ & Hcfg & _ & Hmode & Hdef & _).
  rewrite Hcfg in Hc. destruct (Hok Hc) as ((a & Ha & Hma) & Hd & Hacts).
  rewrite Hmode, Hdef, Hcap. split; [by exists a|]. split; [done|].
  intros Hu. rewrite (unblocked_same _ _ Hsame) in Hu.
  eapply (createWorkloadRule_acts not_deny); [|by apply Hacts|exact Hr].
  apply rule_action_unblocked; [done..|].
  destruct (fill_spec _ _ _ _ _ Hff) as [_ Hmf], (fill_spec _ _ _ _ _ Htf) as [_ Hmt].
  destruct ingress; rewrite Hown, Ha in *; [right|left]; congruence.
Qed.

(** The addresses of a policy that are used as they are written. *)
Definition policy_addr_ok (a : CLUSWorkloadAddr) : Prop :=
  wa_WlID a = CLUSWLModeGroup \/ wa_WlID a = CLUSWLAllContainer \/ valid_mode (wa_PolicyMode a).

Lemma fillPorts_fields path wl apps wlMap :
  wa_WlID (fillPortsForWorkloadAddressAg order path wl apps wlMap) = wa_WlID wl /\
  wa_PolicyMode (fillPortsForWorkloadAddressAg order path wl apps wlMap) = wa_PolicyMode wl.
Proof.
  unfold fillPortsForWorkloadAddressAg. destruct (wlMap !! wa_WlID wl); by destruct apps.
Qed.

Lemma relevant_ok path a pol addrMap isto wl id :
  pol_ok addrMap pol -> policy_addr_ok a ->
  (wl, id) ∈ relevant_of order polAppDir path a pol addrMap isto ->
  wa_WlID wl = id /\ addr_ok addrMap wl.
Proof.
  intros Hp Ha. unfold relevant_of. case_bool_decide as Hmg; [|case_bool_decide as Hall].
  - case_match; [|by intros ?%elem_of_nil].
    rewrite list_elem_of_omap. intros ([id' p] & _ & Hx). simpl in Hx.
    destruct (Contains _ _); simplify_eq. split; [done|]. left. by left.
  - rewrite list_elem_of_omap. intros ([n [id' p]] & Hin & Hx). simpl in Hx.
    destruct (pi_Configured p) eqn:Hc; simplify_eq.
    apply elem_of_lookup_imap_1 in Hin as (k & kp & Heq & Hin). simplify_eq.
    apply list_elem_of_lookup_2, order_elem, elem_of_map_to_list in Hin.
    destruct (Hp _ _ Hin Hc) as ((b & Hb & _) & _).
    assert (Hid : wa_WlID (if isto then fillPortsForWorkloadAddressAg order (k :: path)
        (wl_addr id (dw_Mode (pi_Policy p)) [] []) (wa_LocalPortApp a) addrMap
        else wl_addr id (dw_Mode (pi_Policy p)) [] []) = id)
      by (destruct isto; [apply fillPorts_fields|done]).
    split; [done|]. right. rewrite Hid. by exists b.
  - case_bool_decide; [|by intros ?%elem_of_nil]. intros Hx%list_elem_of_singleton. simplify_eq.
    split; [done|]. left. destruct Ha as [?|[?|?]]; done.
Qed.

Lemma workloads_ok path a addrMap isto wl :
  policy_addr_ok a -> wl ∈ workloads_of order polAppDir path a addrMap isto -> addr_ok addrMap wl.
Proof.
  intros Ha. unfold workloads_of. case_bool_decide as Hmg; [|case_bool_decide as Hall].
  - case_match; [|by intros ?%elem_of_nil].
    rewrite list_elem_of_omap. intros ([id' p] & _ & Hx). simpl in Hx.
    destruct (Contains _ _); simplify_eq. left. by left.
  - intros Hin. apply elem_of_lookup_imap_1 in Hin as (k & [id b] & -> & Hin).
    apply list_elem_of_lookup_2, order_elem, elem_of_map_to_list in Hin.
    right. exists b. rewrite <-Hin. f_equal. destruct isto; [apply fillPorts_fields|done].
  - intros Hx%list_elem_of_singleton. simplify_eq. left. destruct Ha as [?|[?|?]]; done.
Qed.

Definition policy_ok (pp : CLUSGroupIPPolicy) : Prop :=
  Forall policy_addr_ok (gp_From pp) /\ Forall policy_addr_ok (gp_To pp).

Lemma egress_pair_ok path addrMap pp id from to st st' :
  modes_valid addrMap -> addr_ok addrMap from -> addr_ok addrMap to -> wa_WlID from = id ->
  pol_ok addrMap (c_pol st) ->
  egress_pair lookup order strict HostID HostIPs path addrMap pp id from st to = Done st' ->
  pol_ok addrMap (c_pol st').
Proof.
  intros Hm Hf Ht Hown Hp. unfold egress_pair.
  destruct (c_pol st !! id); [|by intros [= <-]].
  repeat case_match; (by intros [= <-]) || by eapply add_rules_ok.
Qed.

Lemma ingress_pair_ok path addrMap pp id from to st st' :
  modes_valid addrMap -> addr_ok addrMap from -> addr_ok addrMap to -> wa_WlID to = id ->
  pol_ok addrMap (c_pol st) ->
  ingress_pair lookup order strict HostID HostIPs path addrMap pp id to st from = Done st' ->
  pol_ok addrMap (c_pol st').
Proof.
  intros Hm Hf Ht Hown Hp. unfold ingress_pair.
  destruct (c_pol st !! id); [|by intros [= <-]].
  repeat case_match; (by intros [= <-]) || by eapply add_rules_ok.
Qed.

Lemma apply_policy_ok path addrMap pp st st' :
  modes_valid addrMap -> policy_ok pp -> pol_ok addrMap (c_pol st) ->
  apply_policy lookup order strict polAppDir HostID HostIPs path addrMap st pp = Done st' ->
  pol_ok addrMap (c_pol st').
Proof.
  intros Hm [Hfrom Hto] Hp. unfold apply_policy. rewrite Forall_forall in Hfrom, Hto.
  intros (st1 & H1 & H2)%outcome_bind_done.
  assert (Hp1 : pol_ok addrMap (c_pol st1)).
  { revert H1. apply (fold_idx_inv (fun st => pol_ok addrMap (c_pol st))); [|done].
    intros i s [from id] s' (k & a & Ha & Hin)%mjoin_imap_elem Hs.
    destruct (relevant_ok _ _ _ _ _ _ _ Hp (Hfrom _ Ha) Hin) as [Hid Hok].
    apply (fold_idx_inv (fun st => pol_ok addrMap (c_pol st))); [|done].
    intros j t to t' (k' & b & Hb & Hin')%mjoin_imap_elem Ht.
    apply egress_pair_ok; [done|done| |done|done]. by eapply workloads_ok; [by apply Hto|]. }
  revert H2. apply (fold_idx_inv (fun st => pol_ok addrMap (c_pol st))); [|done].
  intros i s [to id] s' (k & a & Ha & Hin)%mjoin_imap_elem Hs.
  destruct (relevant_ok _ _ _ _ _ _ _ Hp1 (Hto _ Ha) Hin) as [Hid Hok].
  apply (fold_idx_inv (fun st => pol_ok addrMap (c_pol st))); [|done].
  intros j t from t' (k' & b & Hb & Hin')%mjoin_imap_elem Ht.
  apply ingress_pair_ok; [done| |done..]. by eapply workloads_ok; [by apply Hfrom|].
Qed.

(** The state of the first policy's loop. *)
Definition first_ok (am : addr_maps) : Prop :=
  modes_valid (am_addr am) /\
  map_Forall (fun id p => dw_IPRules (pi_Policy p) = [] /\ info_ok (am_addr am) id p) (am_pol am).

Lemma first_from_ok path am from am' :
  valid_mode (wa_PolicyMode from) -> first_ok am ->
  first_from order path am from = Done am' -> first_ok am'.
Proof.
  intros Hv [Hm Hp]. unfold first_from.
  intros (g & _ & (h & _ & Hr)%outcome_bind_done)%outcome_bind_done.
  assert (Hm' : modes_valid (<[wa_WlID from:=from]> (am_addr am)))
    by (by apply map_Forall_insert_2).
  (* an info other than the workload's own keeps its entry *)
  assert (Hother : forall id p, id <> wa_WlID from -> info_ok (am_addr am) id p ->
            info_ok (<[wa_WlID from:=from]> (am_addr am)) id p).
  { intros id p Hne Hi Hc. destruct (Hi Hc) as ((a & Ha & Hma) & Hrest). split; [|done].
    exists a. by rewrite lookup_insert_ne. }
  destruct (am_pol am !! wa_WlID from) as [p|] eqn:Hid.
  - apply outcome_bind_done in Hr as (l & _ & [= <-]). split; simpl; [done|].
    destruct (Hp _ _ Hid) as [Hrs _]. intros id q Hq.
    rewrite lookup_insert_Some in Hq. destruct Hq as [[<- <-]|[Hne Hq]].
    + split; [done|]. intros _. split; [exists from; by rewrite lookup_insert_eq|].
      split; [done|]. intros _. unfold info_acts. simpl. rewrite Hrs. constructor.
    + destruct (Hp _ _ Hq) as [Hqr Hqi]. split; [done|]. by apply Hother.
  - injection Hr as <-. split; simpl; [done|]. intros id q Hq. destruct (Hp _ _ Hq) as [Hqr Hqi].
    split; [done|]. apply Hother; [|done]. intros ->. congruence.
Qed.

Definition distribution_ok (ps : list CLUSGroupIPPolicy) : Prop :=
  match ps with
  | [] => True
  | first :: rest => Forall (fun a => valid_mode (wa_PolicyMode a)) (gp_From first) /\
                     Forall policy_ok rest
  end.

(** A map of infos as [UpdateNetworkPolicy] is given it. *)
Definition fresh_policy (pol : gmap string WorkloadIPPolicyInfo) : Prop :=
  map_Forall (fun _ p => pi_Configured p = false /\ dw_IPRules (pi_Policy p) = []) pol.

Lemma parseGroupIPPolicy_ok ps st am st' :
  distribution_ok ps -> fresh_policy (c_pol st) ->
  parseGroupIPPolicy lookup order strict polAppDir HostID HostIPs ps st = Done (am, st') ->
  pol_ok (am_addr am) (c_pol st').
Proof.
  intros Hd Hf. unfold parseGroupIPPolicy. destruct ps as [|first rest].
  { intros [= <- <-]. intros id p Hp Hc. destruct (Hf _ _ Hp). congruence. }
  destruct Hd as [Hv Hrest]. rewrite Forall_forall in Hv. rewrite Forall_forall in Hrest.
  intros (am1 & H1 & (st1 & H2 & [= <- <-])%outcome_bind_done)%outcome_bind_done.
  assert (Hfirst : first_ok am1).
  { revert H1. apply fold_idx_inv.
    - intros i s x s' Hx Hs. apply first_from_ok; [by apply Hv|done].
    - split; simpl; [by intros ? ? ?%lookup_empty_Some|]. intros id p Hp.
      destruct (Hf _ _ Hp) as [Hc Hr]. split; [done|]. intros Hc'. congruence. }
  destruct Hfirst as [Hm Hp]. revert H2.
  apply (fold_idx_inv (fun st => pol_ok (am_addr am1) (c_pol st))).
  - intros i s x s' Hx Hs. by apply apply_policy_ok; [|apply Hrest|].
  - simpl. intros id p Hid. by apply Hp.
Qed.

Lemma unblocked_default p :
  unblocked p = true ->
  policyModeToDefaultAction (dw_Mode (pi_Policy p)) (pi_CapIntcp p) <> DP_POLICY_ACTION_DENY.
Proof.
  unfold unblocked, passive, policyModeToDefaultAction. intros Hu.
  destruct (pi_CapIntcp p), strict; simpl in Hu; try done; repeat case_bool_decide; done.
Qed.

Lemma push_one_cmd old toggle connected id p q add :
  CConfigPolicy q add ∈ (push_one old toggle connected id p).2 ->
  q = pi_Policy p /\ pi_Configured p = true.
Proof.
  unfold push_one. destruct (pi_Configured p); simpl; [|by intros ?%elem_of_nil].
  destruct (pi_SkipPush p); simpl; [by intros ?%elem_of_nil|].
  assert (Hpush : forall b, CConfigPolicy q add ∈
    (if pi_HostMode p then ([id], []) else ([], if connected then [CConfigPolicy (pi_Policy p) b] else [])).2 ->
    q = pi_Policy p /\ true = true).
  { intros b. destruct (pi_HostMode p), connected; simpl; try by intros ?%elem_of_nil.
    intros Hq%list_elem_of_singleton. by simplify_eq. }
  destruct (old !! id); [|apply Hpush].
  destruct (_ || toggle); [apply Hpush|by intros ?%elem_of_nil].
Qed.

(** What the engine holds after an update, and what it pushed. *)
Lemma UpdateNetworkPolicy_state connected delOK exist ps newPolicy e ids cmds e' :
  UpdateNetworkPolicy lookup order strict polAppDir HostID HostIPs connected delOK exist ps newPolicy e
  = Done (ids, cmds, e') ->
  exists am st,
    parseGroupIPPolicy lookup order strict polAppDir HostID HostIPs ps
      {| c_fqdn := fqdnInfoPrePolicyCalc (en_fqdnMap e); c_pol := newPolicy |} = Done (am, st) /\
    en_NetworkPolicy e' = drop_rule_map <$> c_pol st /\
    en_PolicyAddrMap e' = am_policy am /\
    (forall q add, CConfigPolicy q add ∈ cmds ->
       exists id p, en_NetworkPolicy e' !! id = Some p /\ pi_Configured p = true /\ pi_Policy p = q).
Proof.
  unfold UpdateNetworkPolicy. intros ([am st] & Hp & Hr)%outcome_bind_done.
  set (fqr := if connected then _ else _) in Hr. destruct fqr as [cmds1 fq] eqn:Hfq.
  injection Hr as <- <- <-. exists am, st. simpl. split_and!; [done..|].
  intros q add. rewrite !elem_of_app. intros [Hin|[Hin|Hin]].
  - exfalso. unfold fqr in Hfq. destruct connected; [|simplify_eq; by apply elem_of_nil in Hin].
    unfold fqdnInfoPostPolicyCalc in Hfq. cbv zeta in Hfq.
    destruct (fst <$> _) as [|n l]; [simplify_eq; by apply elem_of_nil in Hin|].
    destruct delOK; simplify_eq; apply elem_of_cons in Hin as [?|Hin]; try done;
      [|by apply elem_of_nil in Hin].
    rewrite list_elem_of_omap in Hin. destruct Hin as (name & _ & Hn). by case_match.
  - rewrite list_elem_of_bind in Hin. destruct Hin as (x & Hq & Hx).
    rewrite list_elem_of_fmap in Hx. destruct Hx as ([id p] & -> & Hid).
    apply order_elem, elem_of_map_to_list in Hid.
    apply push_one_cmd in Hq as [-> Hc]. by exists id, p.
  - case_bool_decide; [by apply elem_of_nil in Hin|]. by apply list_elem_of_singleton in Hin.
Qed.

Lemma update_unblocked connected delOK exist ps newPolicy e ids cmds e' id p :
  distribution_ok ps -> fresh_policy newPolicy ->
  UpdateNetworkPolicy lookup order strict polAppDir HostID HostIPs connected delOK exist ps newPolicy e
  = Done (ids, cmds, e') ->
  en_NetworkPolicy e' !! id = Some p -> pi_Configured p = true -> unblocked p = true ->
  info_acts not_deny p /\ dw_DefAction (pi_Policy p) <> DP_POLICY_ACTION_DENY.
Proof.
  intros Hd Hf Hu. destruct (UpdateNetworkPolicy_state _ _ _ _ _ _ _ _ _ Hu)
    as (am & st & Hparse & Hpol & _ & _).
  assert (Hok : pol_ok (am_addr am) (c_pol st))
    by (eapply parseGroupIPPolicy_ok; [exact Hd| |exact Hparse]; exact Hf).
  intros Hid Hc Hub. rewrite Hpol, lookup_fmap in Hid.
  destruct (c_pol st !! id) as [q|] eqn:Hq; [|done]. simplify_eq/=.
  destruct (Hok _ _ Hq Hc) as (_ & Hdef & Hacts). split; [by apply Hacts|].
  rewrite Hdef. by apply unblocked_default.
Qed.

(** C13: After an update no configured workload that must not be blocked (one
    whose traffic cannot be intercepted, or, outside the strict mode, one in
    Discover or Monitor mode) has a deny among the actions of its rules, of
    their applications or as its default; and every policy the update pushed
    to the data plane is the policy of a configured workload. *)
Theorem update_never_blocks connected delOK exist ps newPolicy e ids cmds e' :
  distribution_ok ps -> fresh_policy newPolicy ->
  UpdateNetworkPolicy lookup order strict polAppDir HostID HostIPs connected delOK exist ps newPolicy e
  = Done (ids, cmds, e') ->
  (forall id p, en_NetworkPolicy e' !! id = Some p -> pi_Configured p = true -> unblocked p = true ->
     info_acts not_deny p /\ dw_DefAction (pi_Policy p) <> DP_POLICY_ACTION_DENY) /\
  (forall q add, CConfigPolicy q add ∈ cmds ->
     exists id p, en_NetworkPolicy e' !! id = Some p /\ pi_Configured p = true /\ pi_Policy p = q).
Proof.
  intros Hd Hf Hu. destruct (UpdateNetworkPolicy_state _ _ _ _ _ _ _ _ _ Hu)
    as (_ & _ & _ & _ & _ & Hcmds). split; [|done].
  intros id p. by eapply update_unblocked.
Qed.

(** ** The calculation does not panic *)

(** The ranges of an address group come in pairs. *)
Definition group_ok (a : CLUSWorkloadAddr) : Prop :=
  is_addr_group (wa_WlID a) = true -> Nat.Even (length (wa_NatIP a)).

Lemma nat_pairs_done l : Nat.Even (length l) -> exists r, nat_pairs l = Done r.
Proof.
  intros [n Hn]. revert l Hn. induction n as [|n IH]; intros l Hn.
  - destruct l; [by eexists|done].
  - destruct l as [|a [|b l]]; simpl in Hn; [lia..|].
    destruct (IH l) as [r Hr]; [lia|]. simpl. rewrite Hr. by eexists.
Qed.

Lemma collect_done {A B} (f : nat -> A -> outcome (list B)) l i :
  (forall i x, exists r, f i x = Done r) -> exists r, collect i l f = Done r.
Proof.
  intros Hf. revert i. induction l as [|x l IH]; intros i; simpl; [by eexists|].
  destruct (Hf i x) as [r ->], (IH (S i)) as [r' Hr']. simpl. rewrite Hr'. by eexists.
Qed.

Lemma fold_idx_done {S A} (I : S -> Prop) (f : nat -> S -> A -> outcome S) l i s :
  (forall i s x, x ∈ l -> I s -> exists s', f i s x = Done s' /\ I s') ->
  I s -> exists s', fold_idx f i s l = Done s' /\ I s'.
Proof.
  revert i s. induction l as [|x l IH]; intros i s Hf Hs; simpl; [by eexists|].
  destruct (Hf i s x) as (s1 & -> & H1); [constructor|done|]. simpl.
  apply IH; [|done]. intros j t y Hy. apply Hf. by constructor.
Qed.

Lemma ranges_done ipFrom ipTo ports a :
  group_ok a -> is_addr_group (wa_WlID a) = true ->
  (exists r, ranges_to ipFrom a = Done r) /\ (exists r, ranges_from a ipTo ports = Done r).
Proof.
  intros Ha Hg. unfold ranges_to, ranges_from. destruct (nat_pairs_done _ (Ha Hg)) as [r ->].
  split; by eexists.
Qed.

Lemma workload_calls_done hosts from to id hostMode ingress sameHost :
  group_ok from -> group_ok to ->
  exists r, workload_calls hosts from to id hostMode ingress sameHost = Done r.
Proof.
  intros Hf Ht.
  assert (Hto : exists r, to_nat_calls from to = Done r).
  { unfold to_nat_calls. destruct (is_addr_group (wa_WlID to)) eqn:Hg; [|case_match; by eexists].
    apply collect_done. intros i x. by apply (ranges_done x [] []). }
  assert (Hfr : exists r, from_nat_calls from to = Done r).
  { unfold from_nat_calls. destruct (is_addr_group (wa_WlID from)) eqn:Hg; [|case_match; by eexists].
    apply collect_done. intros i x. by apply (ranges_done [] x (wa_LocalPortApp to)). }
  assert (Hgl : exists r, global_calls from to id sameHost = Done r).
  { unfold global_calls. destruct Hto as [r1 ->], Hfr as [r2 ->]. by eexists. }
  destruct Hgl as [rest Hgl]. unfold workload_calls. rewrite Hgl. destruct ingress; simpl.
  - case_match; [by eexists|].
    assert (Hown : exists own, (if bool_decide (ingress_ports to hostMode = []) then Done []
      else collect 0 (if hostMode then wa_NatIP to else wa_LocalIP to)
             (ingress_to hosts from (ingress_ports to hostMode) hostMode sameHost)) = Done own).
    { case_match; [by eexists|]. apply collect_done. intros i x. unfold ingress_to.
      destruct (is_addr_group (wa_WlID from)) eqn:Hg; [|by eexists].
      destruct (nat_pairs_done _ (Hf Hg)) as [r ->]. by eexists. }
    destruct Hown as [own ->]. by eexists.
  - case_match; [by eexists|].
    destruct (collect_done (egress_from hosts to hostMode sameHost)
                (if hostMode then wa_NatIP from else wa_LocalIP from) 0) as [own ->]; [|by eexists].
    intros i x. unfold egress_from. destruct (wa_NatPortApp to); [by eexists|].
    destruct (is_addr_group (wa_WlID to)) eqn:Hg; [|by eexists].
    destruct (proj1 (ranges_done x [] [] to Ht Hg)) as [r ->]. by eexists.
Qed.

Definition no_group_key (addrMap : gmap string CLUSWorkloadAddr) : Prop :=
  map_Forall (fun id _ => is_addr_group id = false) addrMap.

Lemma fill_group a addrMap fq a' fq' :
  no_group_key addrMap -> group_ok a -> fillWorkloadAddress lookup a addrMap fq = (a', fq') ->
  group_ok a'.
Proof.
  intros Hk Ha. unfold fillWorkloadAddress, group_ok.
  destruct (addrMap !! wa_WlID a) as [b|] eqn:Hb.
  - intros [= <- _]. simpl. intros Hg. pose proof (Hk _ _ Hb). simpl in *. congruence.
  - destruct (isWorkloadFqdn (wa_WlID a)) eqn:Hfq; [|intros [= <- _]; done].
    destruct (getFqdnIP _ _ _) as [ips fq1]. intros [= <- _]. simpl. intros Hg. exfalso.
    unfold isWorkloadFqdn in Hfq. unfold is_addr_group in Hg.
    apply orb_true_iff in Hg as [Hg|Hg]; apply bool_decide_eq_true in Hg; by rewrite Hg in Hfq.
Qed.

Lemma add_rules_done path addrMap pp id from to ingress sameHost skip st :
  no_group_key addrMap -> group_ok from -> group_ok to ->
  exists st', add_rules lookup order strict HostIPs path addrMap pp id from to ingress sameHost skip st
              = Done st'.
Proof.
  intros Hk Hf Ht. unfold add_rules.
  destruct (fillWorkloadAddress lookup from addrMap (c_fqdn st)) as [from' fq1] eqn:Hff.
  destruct (fillWorkloadAddress lookup to addrMap fq1) as [to' fq2] eqn:Htf.
  destruct (skip && _); [by eexists|]. destruct (c_pol st !! id) as [p|]; [|by eexists].
  unfold createWorkloadRule.
  destruct (workload_calls_done (fun i => order (i :: path) _ (elements HostIPs)) from' to' (gp_ID pp)
    (pi_HostMode p) ingress sameHost) as [r ->];
    [exact (fill_group _ _ _ _ _ Hk Hf Hff)|exact (fill_group _ _ _ _ _ Hk Ht Htf)|].
  by eexists.
Qed.

Lemma pair_done path addrMap pp id from to st :
  no_group_key addrMap -> group_ok from -> group_ok to ->
  (exists st', egress_pair lookup order strict HostID HostIPs path addrMap pp id from st to = Done st') /\
  (exists st', ingress_pair lookup order strict HostID HostIPs path addrMap pp id to st from = Done st').
Proof.
  intros Hk Hf Ht. unfold egress_pair, ingress_pair. split; destruct (c_pol st !! id); try by eexists.
  - repeat case_match; by apply add_rules_done || by eexists.
  - repeat case_match; by apply add_rules_done || by eexists.
Qed.

Lemma relevant_group path a pol addrMap isto wl id :
  group_ok a -> (wl, id) ∈ relevant_of order polAppDir path a pol addrMap isto -> group_ok wl.
Proof.
  intros Ha. unfold relevant_of. case_bool_decide as Hmg; [|case_bool_decide as Hall].
  - case_match; [|by intros ?%elem_of_nil].
    rewrite list_elem_of_omap. intros ([id' p] & _ & Hx). simpl in Hx.
    destruct (Contains _ _); simplify_eq. intros _. by exists 0%nat.
  - rewrite list_elem_of_omap. intros ([n [id' p]] & _ & Hx). simpl in Hx.
    destruct (pi_Configured p); simplify_eq. intros _. exists 0%nat.
    destruct isto; [|done]. unfold fillPortsForWorkloadAddressAg.
    destruct (addrMap !! _); by destruct (wa_LocalPortApp a).
  - case_bool_decide; [|by intros ?%elem_of_nil]. intros Hx%list_elem_of_singleton. by simplify_eq.
Qed.

Lemma workloads_group path a addrMap isto wl :
  group_ok a -> wl ∈ workloads_of order polAppDir path a addrMap isto -> group_ok wl.
Proof.
  intros Ha. unfold workloads_of. case_bool_decide as Hmg; [|case_bool_decide as Hall].
  - case_match; [|by intros ?%elem_of_nil].
    rewrite list_elem_of_omap. intros ([id' p] & _ & Hx). simpl in Hx.
    destruct (Contains _ _); simplify_eq. intros _. by exists 0%nat.
  - intros Hin. apply elem_of_lookup_imap_1 in Hin as (k & [id b] & -> & Hin).
    intros _. exists 0%nat. destruct isto; [|done]. unfold fillPortsForWorkloadAddressAg.
    destruct (addrMap !! _); by destruct (wa_LocalPortApp a).
  - intros Hx%list_elem_of_singleton. by simplify_eq.
Qed.

Definition policy_groups_ok (pp : CLUSGroupIPPolicy) : Prop :=
  Forall group_ok (gp_From pp) /\ Forall group_ok (gp_To pp).

Lemma apply_policy_done path addrMap pp st :
  no_group_key addrMap -> policy_groups_ok pp ->
  exists st', apply_policy lookup order strict polAppDir HostID HostIPs path addrMap st pp = Done st'.
Proof.
  intros Hk [Hfrom Hto]. rewrite Forall_forall in Hfrom, Hto. unfold apply_policy.
  assert (Hloop : forall (l1 : list (CLUSWorkloadAddr * string)) (l2 : list CLUSWorkloadAddr) f st,
    (forall path x id y st, (x, id) ∈ l1 -> y ∈ l2 -> exists st', f path id x st y = Done st') ->
    forall n, exists st', fold_idx (fun i st '(x, id) =>
      fold_idx (fun j (st : calc) y => f (j :: i :: n :: path) id x st y) 0 st l2) 0 st l1
      = Done st' /\ True).
  { intros l1 l2 f st0 Hf n. apply fold_idx_done; [|done]. intros i s [x id] Hx _.
    apply (fold_idx_done (fun _ => True)); [|done]. intros j t y Hy _.
    destruct (Hf (j :: i :: n :: path) x id y t Hx Hy) as [t' Ht]. by exists t'. }
  destruct (Hloop (getRelevantWorkload order polAppDir (0%nat :: path) (gp_From pp) (c_pol st) addrMap false)
    (getWorkload order polAppDir (1%nat :: path) (gp_To pp) addrMap true)
    (fun p id x st y => egress_pair lookup order strict HostID HostIPs p addrMap pp id x st y) st)
    with (n := 2%nat) as (st1 & Hst1 & _).
  { intros p x id y t (k & a & Ha & Hx)%mjoin_imap_elem (k' & b & Hb & Hy)%mjoin_imap_elem.
    apply pair_done; [done|by eapply relevant_group; [by apply Hfrom|]|].
    by eapply workloads_group; [by apply Hto|]. }
  destruct (Hloop (getRelevantWorkload order polAppDir (3%nat :: path) (gp_To pp) (c_pol st1) addrMap true)
    (getWorkload order polAppDir (4%nat :: path) (gp_From pp) addrMap false)
    (fun p id x st y => ingress_pair lookup order strict HostID HostIPs p addrMap pp id x st y) st1)
    with (n := 5%nat) as (st2 & Hst2 & _).
  { intros p x id y t (k & a & Ha & Hx)%mjoin_imap_elem (k' & b & Hb & Hy)%mjoin_imap_elem.
    apply pair_done; [done|by eapply workloads_group; [by apply Hfrom|]|].
    by eapply relevant_group; [by apply Hto|]. }
  exists st2. cbv beta in Hst1, Hst2. rewrite Hst1. exact Hst2.
Qed.

(** The maps of the first policy hold networks of one address. *)
Definition hosts_only (m : gmap string CLUSSubnet) : Prop :=
  map_Forall (fun _ sn => ipnet_Mask (cs_Subnet sn) = CIDRMask 32 32) m.

Lemma merge_hosts_done n ord m :
  ipnet_Mask n = CIDRMask 32 32 ->
  Forall (fun kv : string * CLUSSubnet => ipnet_Mask (cs_Subnet kv.2) = CIDRMask 32 32) ord ->
  exists b m', merge_loop cs_Subnet n ord m = Done (b, m') /\ m' ⊆ m.
Proof.
  intros Hn Hord. revert m. induction Hord as [|[k sn] ord Hsn Hord IH]; intros m; simpl.
  { by exists true, m. }
  assert (Hr : forall x, ipnet_Mask x = CIDRMask 32 32 -> ipnetToRange x = Done (ipnet_IP x, ipnet_IP x)).
  { intros x Hx. unfold ipnetToRange. rewrite Hx.
    destruct (CIDRMask_ok 32 32) as (_ & _ & _ & ->); [by left|lia|]. done. }
  unfold SubnetContains. rewrite (Hr (cs_Subnet sn)), (Hr n) by done. cbn [mbind outcome_bind].
  set (res := if negb _ && negb _ then _ else _). destruct res as [inc v].
  case_match; [by exists false, m|]. case_match; [|apply IH].
  destruct (IH (delete k m)) as (b & m' & -> & Hsub). exists b, m'. split; [done|].
  etransitivity; [exact Hsub|apply delete_subseteq].
Qed.

Lemma add_addrs_done path i ips scope m :
  hosts_only m -> exists m', add_addrs order path i ips scope m = Done m' /\ hosts_only m'.
Proof.
  revert i m. induction ips as [|ip ips IH]; intros i m Hm; simpl; [by exists m|].
  assert (Hadd : exists m', addPolicyAddrIPNet order (i :: path) m
    {| ipnet_IP := ip; ipnet_Mask := CIDRMask 32 32 |} scope = Done m' /\ hosts_only m').
  { unfold addPolicyAddrIPNet. destruct (m !! _); [by exists m|]. unfold MergeSubnet.
    destruct (merge_hosts_done (IPNet2Subnet {| ipnet_IP := ip; ipnet_Mask := CIDRMask 32 32 |})
      (order (i :: path) _ (map_to_list m)) m) as (b & m' & Hr & Hsub); [done| |].
    { apply Forall_forall. intros [k sn] Hk%order_elem%elem_of_map_to_list. by apply (Hm k). }
    cbn [cs_Subnet]. rewrite Hr. simpl.
    assert (Hm' : hosts_only m') by (intros k sn Hk; by eapply Hm, lookup_weaken).
    destruct b; eexists; (split; [done|]); [|done]. by apply map_Forall_insert_2. }
  destruct Hadd as (m' & -> & Hm'). simpl. by apply IH.
Qed.

Lemma first_from_done path am from :
  is_addr_group (wa_WlID from) = false ->
  (no_group_key (am_addr am) /\ hosts_only (am_policy am) /\ hosts_only (am_host am)) ->
  exists am', first_from order path am from = Done am' /\
    (no_group_key (am_addr am') /\ hosts_only (am_policy am') /\ hosts_only (am_host am')).
Proof.
  intros Hg (Hk & Hp & Hh). unfold first_from.
  assert (Hif : forall (c : bool) path ips scope m, hosts_only m -> exists m',
    (if c then add_addrs order path 0 ips scope m else Done m) = Done m' /\ hosts_only m').
  { intros c p ips scope m Hm. destruct c; [by apply add_addrs_done|by exists m]. }
  assert (Hk' : no_group_key (<[wa_WlID from := from]> (am_addr am)))
    by (by apply map_Forall_insert_2).
  edestruct Hif as (g & Hg' & Hgo); [exact Hp|]. unfold addWlGlobalAddrToPolicyAddrMap. rewrite Hg'.
  cbn [mbind outcome_bind].
  edestruct Hif as (h & Hh' & Hho); [exact Hh|]. unfold addWlHostModeAddrToPolicyAddrMap. rewrite Hh'.
  cbn [mbind outcome_bind].
  destruct (am_pol am !! wa_WlID from); [|by eexists].
  edestruct Hif as (l & Hl' & Hlo); [exact Hgo|]. unfold addWlLocalAddrToPolicyAddrMap. rewrite Hl'.
  by eexists.
Qed.

Definition distribution_groups_ok (ps : list CLUSGroupIPPolicy) : Prop :=
  match ps with
  | [] => True
  | first :: rest => Forall (fun a => is_addr_group (wa_WlID a) = false) (gp_From first) /\
                     Forall policy_groups_ok rest
  end.

(** The calculation returns for every distribution in which the ranges of
    the address groups come in pairs and no container has the name of a
    group: none of its index expressions and no address arithmetic panics. *)
Theorem UpdateNetworkPolicy_returns connected delOK exist ps newPolicy e :
  distribution_groups_ok ps ->
  exists r, UpdateNetworkPolicy lookup order strict polAppDir HostID HostIPs connected delOK exist
              ps newPolicy e = Done r.
Proof.
  intros Hd. unfold UpdateNetworkPolicy.
  set (st := {| c_fqdn := _; c_pol := newPolicy |}).
  assert (Hp : exists r, parseGroupIPPolicy lookup order strict polAppDir HostID HostIPs ps st = Done r).
  { unfold parseGroupIPPolicy. destruct ps as [|first rest]; [by eexists|].
    destruct Hd as [Hf Hr]. rewrite Forall_forall in Hf. rewrite Forall_forall in Hr.
    edestruct (fold_idx_done (fun am => no_group_key (am_addr am) /\ hosts_only (am_policy am) /\
      hosts_only (am_host am)) (fun i am from => first_from order [i; 0%nat] am from))
      as (am & -> & Hk & _).
    - intros i s x Hx. apply first_from_done. by apply Hf.
    - by split_and!; apply map_Forall_empty.
    - simpl. edestruct (fold_idx_done (fun _ => True) (fun i st pp =>
        apply_policy lookup order strict polAppDir HostID HostIPs [i] (am_addr am) st pp))
        as (st' & -> & _); [|done|by eexists].
      intros i s x Hx _. destruct (apply_policy_done [i] (am_addr am) x s Hk (Hr _ Hx)) as [s' Hs].
      by exists s'. }
  destruct Hp as [[am st'] ->]. simpl. case_match. by eexists.
Qed.

(** ** The shape of the rules *)

(** A property of one info that every piece of a rule and the first policy
    preserve is true of all of them after a calculation. *)
Lemma createWorkloadRule_inv (I : WorkloadIPPolicyInfo -> Prop) hosts from to pp p ingress sameHost p' :
  (forall ctx from to fromR toR pa action p ap,
     I p -> I (create_piece ctx from to fromR toR pa action p ap)) ->
  I p -> createWorkloadRule hosts strict from to pp p ingress sameHost = Done p' -> I p'.
Proof.
  intros HI Hp. unfold createWorkloadRule. intros (calls & _ & [= <-])%outcome_bind_done.
  assert (Hfold : forall A (f : WorkloadIPPolicyInfo -> A -> WorkloadIPPolicyInfo) l q,
    (forall q x, I q -> I (f q x)) -> I q -> I (foldl f q l)).
  { intros A f l. induction l as [|x l IH]; intros q Hf Hq; simpl; auto. }
  apply Hfold; [|done]. intros q c Hq. apply Hfold; [|done]. intros u pa Hu.
  apply Hfold; [|done]. auto.
Qed.

Lemma parse_inv (I : WorkloadIPPolicyInfo -> Prop) ps st am st' :
  (forall ctx from to fromR toR pa action p ap,
     I p -> I (create_piece ctx from to fromR toR pa action p ap)) ->
  (forall mode def p, I p -> I (set_mode mode def p)) ->
  map_Forall (fun _ => I) (c_pol st) ->
  parseGroupIPPolicy lookup order strict polAppDir HostID HostIPs ps st = Done (am, st') ->
  map_Forall (fun _ => I) (c_pol st').
Proof.
  intros HI Hset Hst. unfold parseGroupIPPolicy. destruct ps as [|first rest]; [by intros [= <- <-]|].
  intros (am1 & H1 & (st1 & H2 & [= <- <-])%outcome_bind_done)%outcome_bind_done.
  assert (Hadd : forall path addrMap pp id from to ing sh sk s s',
    map_Forall (fun _ => I) (c_pol s) ->
    add_rules lookup order strict HostIPs path addrMap pp id from to ing sh sk s = Done s' ->
    map_Forall (fun _ => I) (c_pol s')).
  { intros path addrMap pp id from to ing sh sk s s' Hs. unfold add_rules.
    destruct (fillWorkloadAddress _ _ _ _) as [f' fq1], (fillWorkloadAddress _ _ _ _) as [t' fq2].
    destruct (sk && _); [by intros [= <-]|]. destruct (c_pol s !! id) as [p|] eqn:Hp; [|by intros [= <-]].
    intros (p' & Hr & [= <-])%outcome_bind_done. apply map_Forall_insert_2; [|done].
    eapply createWorkloadRule_inv; [done|by eapply Hs|exact Hr]. }
  revert H2. apply (fold_idx_inv (fun s => map_Forall (fun _ => I) (c_pol s))).
  - intros i s pp s' _ Hs (s1 & Ha & Hb)%outcome_bind_done.
    eapply (fold_idx_inv (fun s => map_Forall (fun _ => I) (c_pol s))); [| |exact Hb].
    + intros j t [to id] t' _ Ht. apply (fold_idx_inv (fun s => map_Forall (fun _ => I) (c_pol s))); [|done].
      intros k u from u' _ Hu. unfold ingress_pair. destruct (c_pol u !! id); [|by intros [= <-]].
      repeat case_match; (by intros [= <-]) || by apply Hadd.
    + eapply (fold_idx_inv (fun s => map_Forall (fun _ => I) (c_pol s))); [|exact Hs|exact Ha].
      intros j t [from id] t' _ Ht. apply (fold_idx_inv (fun s => map_Forall (fun _ => I) (c_pol s))); [|done].
      intros k u to u' _ Hu. unfold egress_pair. destruct (c_pol u !! id); [|by intros [= <-]].
      repeat case_match; (by intros [= <-]) || by apply Hadd.
  - simpl. revert H1. apply (fold_idx_inv (fun am => map_Forall (fun _ => I) (am_pol am))); [|done].
    intros i s from s' _ Hs. unfold first_from.
    intros (g & _ & (h & _ & Hr)%outcome_bind_done)%outcome_bind_done.
    destruct (am_pol s !! wa_WlID from) as [p|] eqn:Hp; [|by injection Hr as <-].
    apply outcome_bind_done in Hr as (l & _ & [= <-]). simpl.
    apply map_Forall_insert_2; [|done]. apply Hset. by eapply Hs.
Qed.

(** A rule the data plane can take: ports and protocol in range with the
    lower port first, applications only behind the action that checks them,
    and one verdict for each application. *)
Definition dp_rule_wf (r : DPPolicyIPRule) : Prop :=
  in_width 8 (ir_IPProto r) /\ in_width 16 (ir_Port r) /\ in_width 16 (ir_PortR r) /\
  ir_Port r <= ir_PortR r /\
  (ir_Apps r <> [] -> ir_Action r = DP_POLICY_ACTION_CHECK_APP) /\
  NoDup (da_App <$> ir_Apps r).

(** And the map of a workload's rules points into the rules. *)
Definition info_wf (p : WorkloadIPPolicyInfo) : Prop :=
  Forall dp_rule_wf (dw_IPRules (pi_Policy p)) /\
  map_Forall (fun _ i => (i < length (dw_IPRules (pi_Policy p)))%nat) (pi_RuleMap p).

Lemma create_piece_wf ctx from to fromR toR pa action p ap :
  info_wf p -> info_wf (create_piece ctx from to fromR toR pa action p ap).
Proof.
  intros [Hr Hm]. unfold create_piece. cbv zeta.
  assert (Hfresh : info_wf match new_rule ctx from to fromR toR pa action (pi_HostMode p) ap with
    | None => p | Some r => append_rule (rule_key ctx from to fromR toR ap) r p end).
  { unfold new_rule. destruct (ParsePortRangeLink ap) as [[[proto lo] hi]|] eqn:Hp; [|done]. simpl.
    apply ParsePortRangeLink_wf in Hp as (H8 & Hlo & Hhi & Hle). split; simpl.
    - apply Forall_app. split; [done|]. constructor; [|done].
      unfold dp_rule_wf; simpl. split_and!; [done..| |].
      + by destruct (negb _ && _).
      + destruct (negb _ && _); [apply NoDup_singleton|apply NoDup_nil_2].
    - rewrite length_app; simpl. apply map_Forall_insert_2; [lia|].
      intros k i Hk. specialize (Hm _ _ Hk). simpl in Hm. lia. }
  destruct (pi_RuleMap p !! _) as [i|]; simpl; [|done].
  destruct (dw_IPRules (pi_Policy p) !! i) as [r|] eqn:Hi; simpl; [|done].
  destruct (Z.eqb_spec (ir_Action r) DP_POLICY_ACTION_CHECK_APP) as [Hact|]; [|done]. simpl.
  destruct (negb (rc_id ctx =? 0)); [|done]. destruct (existsb _ _) eqn:Hex; [done|].
  split; simpl.
  - apply Forall_insert; [done|].
    destruct (Forall_lookup_1 _ _ _ _ Hr Hi) as (H8 & Hlo & Hhi & Hle & Ha & Hnd).
    unfold dp_rule_wf; simpl. split_and!; [done..|]. rewrite fmap_app. apply NoDup_app.
    split_and!; [done| |apply NoDup_singleton]. intros x Hx Hx'%list_elem_of_singleton. subst x.
    apply list_elem_of_fmap in Hx as (a & Heq & Hin).
    assert (Hfalse : existsb (fun app => da_App app =? pa_Application pa) (ir_Apps r) = true); [|congruence].
    apply existsb_exists. exists a. split; [by apply list_elem_of_In|]. rewrite <-Heq. apply Z.eqb_refl.
  - rewrite length_insert. done.
Qed.

(** Every rule an update computes, and so every rule it pushes, is one the
    data plane can take: 8-bit protocol, 16-bit ports in order, applications
    only behind CHECK_APP and at most one verdict per application. *)
Theorem update_rules_wf connected delOK exist ps newPolicy e ids cmds e' id p :
  map_Forall (fun _ => info_wf) newPolicy ->
  UpdateNetworkPolicy lookup order strict polAppDir HostID HostIPs connected delOK exist ps newPolicy e
  = Done (ids, cmds, e') ->
  en_NetworkPolicy e' !! id = Some p -> Forall dp_rule_wf (dw_IPRules (pi_Policy p)).
Proof.
  intros Hf Hu Hid. destruct (UpdateNetworkPolicy_state _ _ _ _ _ _ _ _ _ Hu)
    as (am & st & Hparse & Hpol & _ & _).
  rewrite Hpol, lookup_fmap in Hid. destruct (c_pol st !! id) as [q|] eqn:Hq; [|done].
  simplify_eq/=. assert (Hw : map_Forall (fun _ => info_wf) (c_pol st)).
  { eapply parse_inv; [apply create_piece_wf| | |exact Hparse]; [|exact Hf].
    intros mode def u Hu'. exact Hu'. }
  apply (Hw _ _ Hq).
Qed.
End calculation.

(** ** Keys of rules *)

(** The key of a rule runs the two addresses together, so that two pairs
    of addresses can share it: of two such rules the second is dropped, with
    its own action, although it is for other addresses. *)
Theorem colliding_rule_dropped ctx from to from' to' pa action action' p ap r :
  IP_String from +:+ IP_String to = IP_String from' +:+ IP_String to' ->
  pa_CheckApp pa = false -> action <> DP_POLICY_ACTION_CHECK_APP ->
  ParsePortRangeLink ap = Some r ->
  pi_RuleMap p !! rule_key ctx from to [] [] ap = None ->
  let p1 := create_piece ctx from to [] [] pa action p ap in
  length (dw_IPRules (pi_Policy p1)) = S (length (dw_IPRules (pi_Policy p))) /\
  create_piece ctx from' to' [] [] pa action' p1 ap = p1.
Proof.
  intros Hs Hpa Hact Hr Hk p1.
  assert (Hkey : rule_key ctx from' to' [] [] ap = rule_key ctx from to [] [] ap)
    by (unfold rule_key; rewrite <-!string_app_assoc; by rewrite Hs).
  destruct r as [[proto lo] hi].
  assert (Hp1 : exists x, p1 = append_rule (rule_key ctx from to [] [] ap) x p /\ ir_Action x = action).
  { unfold p1, create_piece. rewrite Hk. simpl. unfold new_rule. rewrite Hr. simpl.
    eexists. split; [reflexivity|]. simpl. by rewrite Hpa, andb_false_r. }
  destruct Hp1 as (x & Heq & Hx). rewrite Heq. split; [simpl; by rewrite length_app, Nat.add_comm|].
  unfold create_piece. rewrite Hkey. simpl. rewrite lookup_insert_eq. simpl.
  rewrite list_lookup_middle by done. simpl. rewrite Hx. apply Z.eqb_neq in Hact. by rewrite Hact.
Qed.

(** ** An example distribution *)

Definition ex_addr (id mode : string) (ip : IP) (lp : list CLUSPortApp) : CLUSWorkloadAddr :=
  {| wa_WlID := id; wa_PolicyMode := mode; wa_Domain := "ns"; wa_PlatformRole := "";
     wa_LocalIP := []; wa_GlobalIP := [ip]; wa_NatIP := []; wa_LocalPortApp := lp;
     wa_NatPortApp := []; wa_Ports := ∅; wa_Apps := ∅ |}.

Definition ex_info (id : string) (cap : bool) : WorkloadIPPolicyInfo :=
  {| pi_RuleMap := ∅;
     pi_Policy := {| dw_WlID := id; dw_Mode := ""; dw_DefAction := 0; dw_ApplyDir := 3;
                     dw_WorkloadMac := []; dw_IPRules := [] |};
     pi_Configured := false; pi_SkipPush := false; pi_HostMode := false; pi_CapIntcp := cap;
     pi_PolVer := 1; pi_Nbe := false |}.

Definition ex_ports : list CLUSPortApp :=
  [{| pa_Ports := "tcp/3306"; pa_Application := 0; pa_CheckApp := false |}].

(** [web] in Monitor mode, [db] in Protect mode, and a rule that denies the
    first to connect to the second. *)
Definition ex_policies : list CLUSGroupIPPolicy :=
  [{| gp_ID := 0; gp_Action := 0; gp_To := [];
      gp_From := [ex_addr "web" PolicyModeEvaluate [10; 0; 0; 1] [];
                  ex_addr "db" PolicyModeEnforce [10; 0; 0; 2] []] |};
   {| gp_ID := 5; gp_Action := DP_POLICY_ACTION_DENY;
      gp_From := [ex_addr "web" "" [] []]; gp_To := [ex_addr "db" "" [] ex_ports] |}].

Definition ex_engine : Engine :=
  {| en_NetworkPolicy := ∅; en_PolicyAddrMap := ∅; en_HostPolicyAddrMap := ∅; en_fqdnMap := ∅;
     en_ToggleIcmpPolicy := false |}.

Definition ex_new : gmap string WorkloadIPPolicyInfo :=
  {[ "web" := ex_info "web" true; "db" := ex_info "db" true ]}.

Definition ex_update (strict : bool) : outcome (gset string * list dp_cmd * Engine) :=
  UpdateNetworkPolicy (fun _ => None) (fun _ _ l => l) strict 3 "host1" ∅ true true (fun _ => false)
    ex_policies ex_new ex_engine.

(** The actions of the rules of a workload after the example. *)
Definition ex_actions (strict : bool) (id : string) : list Z :=
  match ex_update strict with
  | Done (_, _, e) =>
      match en_NetworkPolicy e !! id with
      | Some p => ir_Action <$> dw_IPRules (pi_Policy p) | None => [] end
  | Panicked _ => []
  end.

Lemma ex_order_perm : forall path A (l : list A), (fun (_ : list nat) A (l : list A) => l) path A l ≡ₚ l.
Proof. done. Qed.

Lemma ex_distribution : distribution_ok ex_policies /\ distribution_groups_ok ex_policies.
Proof.
  split; split.
  - constructor; [by right; right; left|]. constructor; [by right; right; right|constructor].
  - constructor; [|constructor]. split; apply Forall_singleton; right; right; by left.
  - repeat constructor.
  - constructor; [|constructor]. split; apply Forall_singleton; intros Hg; by vm_compute in Hg.
Qed.

Lemma ex_fresh : fresh_policy ex_new.
Proof. apply map_Forall_insert_2; [done|]. by apply map_Forall_singleton. Qed.

Lemma ex_infos_wf : map_Forall (fun _ => info_wf) ex_new.
Proof.
  assert (Hi : forall id cap, info_wf (ex_info id cap)) by (split; [constructor|apply map_Forall_empty]).
  apply map_Forall_insert_2; [done|]. by apply map_Forall_singleton.
Qed.

Lemma update_never_blocks_witness :
  (exists ids cmds e', ex_update false = Done (ids, cmds, e') /\
     forall id p, en_NetworkPolicy e' !! id = Some p -> pi_Configured p = true ->
       unblocked false p = true -> info_acts not_deny p) /\
  ex_actions false "web" = [DP_POLICY_ACTION_VIOLATE] /\
  ex_actions true "web" = [DP_POLICY_ACTION_DENY].
Proof.
  split; [|split; vm_compute; reflexivity].
  destruct (ex_update false) as [[[ids cmds] e']|w] eqn:Hu; [|vm_compute in Hu; discriminate Hu].
  exists ids, cmds, e'. split; [reflexivity|]. intros id p Hid Hc Hub.
  exact (proj1 (proj1 (update_never_blocks (fun _ => None) (fun _ _ l => l) ex_order_perm false 3
    "host1" ∅ true true (fun _ => false) ex_policies ex_new ex_engine ids cmds e'
    (proj1 ex_distribution) ex_fresh Hu) id p Hid Hc Hub)).
Defined.

Lemma UpdateNetworkPolicy_returns_witness : exists r, ex_update true = Done r.
Proof.
  exact (UpdateNetworkPolicy_returns (fun _ => None) (fun _ _ l => l) ex_order_perm true 3 "host1" ∅
    true true (fun _ => false) ex_policies ex_new ex_engine (proj2 ex_distribution)).
Defined.

Lemma update_rules_wf_witness :
  exists ids cmds e' p, ex_update false = Done (ids, cmds, e') /\
    en_NetworkPolicy e' !! "db" = Some p /\ Forall dp_rule_wf (dw_IPRules (pi_Policy p)).
Proof.
  destruct (ex_update false) as [[[ids cmds] e']|w] eqn:Hu; [|vm_compute in Hu; discriminate Hu].
  destruct (en_NetworkPolicy e' !! "db") as [p|] eqn:Hp.
  - exists ids, cmds, e', p. split; [reflexivity|]. split; [exact Hp|].
    exact (update_rules_wf (fun _ => None) (fun _ _ l => l) ex_order_perm false 3 "host1" ∅
      true true (fun _ => false) ex_policies ex_new ex_engine ids cmds e' "db" p ex_infos_wf Hu Hp).
  - exfalso. assert (Hn : ex_actions false "db" = []) by (unfold ex_actions; by rewrite Hu, Hp).
    by vm_compute in Hn.
Defined.

Lemma colliding_rule_dropped_witness :
  IP_String [1; 1; 1; 1] +:+ IP_String [12; 2; 2; 2] = IP_String [1; 1; 1; 11] +:+ IP_String [2; 2; 2; 2] /\
  let ctx := {| rc_ingress := false; rc_id := 5; rc_fqdn := ""; rc_vhost := false |} in
  let pa := {| pa_Ports := "tcp/80"; pa_Application := 0; pa_CheckApp := false |} in
  let p1 := create_piece ctx [1; 1; 1; 1] [12; 2; 2; 2] [] [] pa DP_POLICY_ACTION_ALLOW
              (ex_info "web" true) "tcp/80" in
  create_piece ctx [1; 1; 1; 11] [2; 2; 2; 2] [] [] pa DP_POLICY_ACTION_DENY p1 "tcp/80" = p1.
Proof.
  split; [vm_compute; reflexivity|]. intros ctx pa p1.
  refine (proj2 (colliding_rule_dropped ctx [1; 1; 1; 1] [12; 2; 2; 2] [1; 1; 1; 11] [2; 2; 2; 2] pa
    DP_POLICY_ACTION_ALLOW DP_POLICY_ACTION_DENY (ex_info "web" true) "tcp/80" (6, 80, 80) _ _ _ _ _));
    try (vm_compute; reflexivity). vm_compute. congruence.
Defined.
