(* ===== verification/NvPolicyLookup.v ===== *)
(** * Verdicts for host-mode workloads: [agent/policy/network.go]

    The traffic of a workload in host mode does not pass the data plane: the
    agent itself looks up the verdict of a reported connection
    ([HostNetworkPolicyLookup]) among the rules it computed, and gives an
    address it does not know yet some time before the default verdict
    applies ([policy_chk_unknown_ip]). *)

From Stdlib Require Import ZArith Lia Ascii.
From S2P Require Import Prelude GoLib GoNet GoText NvPorts NvSubnet NvPolicyTypes NvPolicyCalc NvPolicySpec.
Local Open Scope Z_scope.

(** The fields of [dp.Connection] the lookup reads and writes. *)
Record HostConn := {
  hc_ClientIP : IP;
  hc_ServerIP : IP;
  hc_ServerPort : Z;
  hc_IPProto : Z;
  hc_Application : Z;
  hc_Ingress : bool;
  hc_ExternalPeer : bool;
  hc_Nbe : bool;
  hc_NbeSns : bool
}.

Definition set_nbe (nbe sns : bool) (c : HostConn) : HostConn :=
  {| hc_ClientIP := hc_ClientIP c; hc_ServerIP := hc_ServerIP c; hc_ServerPort := hc_ServerPort c;
     hc_IPProto := hc_IPProto c; hc_Application := hc_Application c; hc_Ingress := hc_Ingress c;
     hc_ExternalPeer := hc_ExternalPeer c; hc_Nbe := nbe; hc_NbeSns := sns |}.

(** ** Matching *)

(** [bytes.Compare]. *)
Fixpoint bytes_Compare (a b : list Z) : comparison :=
  match a, b with
  | [], [] => Eq
  | [], _ :: _ => Lt
  | _ :: _, [] => Gt
  | x :: a', y :: b' => match x ?= y with Eq => bytes_Compare a' b' | c => c end
  end.

Definition ipMatch (ip ipL ipR : IP) (external : bool) : bool :=
  if external && IP_Equal ipL IPv4zero then true
  else
    match bytes_Compare ip ipL with
    | Eq => true
    | s =>
        if bool_decide (ipR = []) then false
        else match s, bytes_Compare ip ipR with Gt, (Lt | Eq) => true | _, _ => false end
    end.

(** The id and the action of a rule that matches. *)
Definition hostPolicyMatch (r : DPPolicyIPRule) (conn : HostConn) : option (Z * Z) :=
  if negb (Bool.eqb (ir_Ingress r) (hc_Ingress conn)) then None
  else if negb (if ir_Ingress r
                then ipMatch (hc_ClientIP conn) (ir_SrcIP r) (ir_SrcIPR r) (hc_ExternalPeer conn)
                else ipMatch (hc_ServerIP conn) (ir_DstIP r) (ir_DstIPR r) (hc_ExternalPeer conn))
  then None
  else if (hc_ServerPort conn <? ir_Port r) || (ir_PortR r <? hc_ServerPort conn) then None
  else if (0 <? ir_IPProto r) && negb (hc_IPProto conn =? ir_IPProto r) then None
  else if ir_Action r =? DP_POLICY_ACTION_CHECK_APP then
    match List.find (fun app => (da_App app =? DP_POLICY_APP_ANY)
                                || (da_App app =? hc_Application conn)) (ir_Apps r) with
    | Some app => Some (da_RuleID app, da_Action app)
    | None => None
    end
  else Some (ir_ID r, ir_Action r).

Definition host_net (ip : IP) : IPNet := {| ipnet_IP := ip; ipnet_Mask := CIDRMask 32 32 |}.

Definition ip4_iptype (SpecialSubnets : gmap string CLUSSpecSubnet) (ip : IP) : string :=
  match SpecialSubnets !! IPNet_String (host_net ip) with
  | Some s => ss_IpType s
  | None => ""
  end.

Definition is_policy_addr (ip : IP) (policyAddrMap : gmap string CLUSSubnet) : bool :=
  bool_decide (is_Some (policyAddrMap !! IPNet_String (host_net ip))).

(** ** Addresses that are not known yet *)

(** [unknown_ip_desc]: the text of the two addresses. *)
Abbreviation unknown_ip_desc := (string * string)%type (only parsing).

(** Times are in nanoseconds, and one call reads the clock once.  The timer
    task of an entry is represented by the time at which it is due; there is
    none when the timer wheel refused it. *)
Record unknown_ip_cache := {
  uc_timerTask : option Z;
  uc_polver : Z;
  uc_start_hit : Z;
  uc_last_hit : Z;
  uc_try_cnt : Z
}.

Definition time_Second : Z := 1000000000.
Definition UNKN_IP_CACHE_TIMEOUT : Z := 600 * time_Second.
Definition POL_VER_CHG_MAX : Z := 60 * time_Second.
Definition UNKN_IP_TRY_COUNT : Z := 10.
Definition HOST_IP_TRY_COUNT : Z := 3.
Definition EXT_IP_TRY_COUNT : Z := 2.

Abbreviation unknown_ip_map := (gmap unknown_ip_desc unknown_ip_cache) (only parsing).

Definition own_net_type (iptype : string) : bool :=
  bool_decide (iptype = SpecInternalHostIP) || bool_decide (iptype = SpecInternalTunnelIP).

(** [unknownIPEvent.Expire]. *)
Definition unknown_ip_expire (desc : unknown_ip_desc) (m : unknown_ip_map) : unknown_ip_map :=
  delete desc m.

(** [added] is whether [AddTask] of the timer wheel accepts the task. *)
Definition add_unkn_ip_cache (desc : unknown_ip_desc) (polver : Z) (iptype : string) (ext added : bool)
    (now : Z) (m : unknown_ip_map) : unknown_ip_map :=
  let try_cnt := if own_net_type iptype then HOST_IP_TRY_COUNT
                 else if ext then EXT_IP_TRY_COUNT else UNKN_IP_TRY_COUNT in
  <[desc := {| uc_polver := polver; uc_start_hit := now; uc_last_hit := now;
               uc_try_cnt := try_cnt;
               uc_timerTask := if added then Some (now + UNKN_IP_CACHE_TIMEOUT) else None |}]> m.

Definition refresh_unkn_ip_cache (c : unknown_ip_cache) (pver try_cnt now : Z) : unknown_ip_cache :=
  {| uc_polver := pver; uc_start_hit := now; uc_last_hit := now; uc_try_cnt := try_cnt;
     uc_timerTask := uc_timerTask c |}.

Definition update_unkn_ip_cache (c : unknown_ip_cache) (now : Z) : unknown_ip_cache :=
  {| uc_polver := uc_polver c; uc_start_hit := uc_start_hit c; uc_last_hit := now;
     uc_try_cnt := uc_try_cnt c; uc_timerTask := uc_timerTask c |}.

(** The check of an entry: whether it opens the connection, and the entry. *)
Definition chk_cache (pver now : Z) (c : unknown_ip_cache) : bool * unknown_ip_cache :=
  let since := now - uc_start_hit c in
  if (pver =? uc_polver c) && (since <? POL_VER_CHG_MAX) then (true, update_unkn_ip_cache c now)
  else if 0 <? uc_try_cnt c then (true, refresh_unkn_ip_cache c pver (uc_try_cnt c - 1) now)
  else (false, c).

Definition policy_chk_unknown_ip (pInfo : option WorkloadIPPolicyInfo) (srcip dstip : IP)
    (iptype : string) (ext added : bool) (action now : Z) (m : unknown_ip_map) : Z * unknown_ip_map :=
  match pInfo with
  | None => (action, m)
  | Some pInfo =>
      let desc := (IP_String srcip, IP_String dstip) in
      if bool_decide (iptype = "") || own_net_type iptype then
        match m !! desc with
        | Some c =>
            let '(opened, c') := chk_cache (pi_PolVer pInfo) now c in
            (if opened then DP_POLICY_ACTION_OPEN else action, <[desc := c']> m)
        | None => (DP_POLICY_ACTION_OPEN, add_unkn_ip_cache desc (pi_PolVer pInfo) iptype ext added now m)
        end
      else if bool_decide (iptype = SpecInternalDevIP) then (DP_POLICY_ACTION_OPEN, m)
      else (action, m)
  end.

(** ** The lookup *)

(** The id and the action after the namespace check, whether it changed
    them, and the connection with its marks. *)
Definition policy_chk_nbe (pInfo : WorkloadIPPolicyInfo) (conn : HostConn) (policyId taction : Z)
  : Z * Z * bool * HostConn :=
  let isNbe := pi_Nbe pInfo in
  let def_action := policyModeToDefaultAction (dw_Mode (pi_Policy pInfo)) (pi_CapIntcp pInfo) in
  if taction =? DP_POLICY_ACTION_CHECK_NBE then
    if isNbe then
      let action := if def_action =? DP_POLICY_ACTION_LEARN then DP_POLICY_ACTION_VIOLATE else taction in
      let action := if def_action =? DP_POLICY_ACTION_VIOLATE then DP_POLICY_ACTION_VIOLATE else action in
      let action := if def_action =? DP_POLICY_ACTION_DENY then DP_POLICY_ACTION_DENY else action in
      (0, action, true, set_nbe true (hc_NbeSns conn) conn)
    else (policyId, DP_POLICY_ACTION_ALLOW, true, conn)
  else
    let dir := if hc_Ingress conn then DP_POLICY_APPLY_INGRESS else DP_POLICY_APPLY_EGRESS in
    let mark := isNbe && negb (hc_ExternalPeer conn)
                && (Z.land (dw_ApplyDir (pi_Policy pInfo)) dir =? 0)
                && (taction =? DP_POLICY_ACTION_DENY) in
    (policyId, taction, false, if mark then set_nbe (hc_Nbe conn) true conn else conn).

(** Whether both ends of an internal connection are under policy. *)
Definition known_peer (policyAddrMap : gmap string CLUSSubnet) (iptype : string) (conn : HostConn)
  : bool :=
  let '(own, peer) := if hc_Ingress conn then (hc_ServerIP conn, hc_ClientIP conn)
                      else (hc_ClientIP conn, hc_ServerIP conn) in
  if own_net_type iptype
  then is_policy_addr own policyAddrMap && is_policy_addr peer policyAddrMap
  else is_policy_addr peer policyAddrMap.

(** The verdict when no rule matches: the default, unless a peer is new. *)
Definition default_verdict (e : Engine) (SpecialSubnets : gmap string CLUSSpecSubnet)
    (pInfo : WorkloadIPPolicyInfo) (conn : HostConn) (added : bool) (now : Z) (m : unknown_ip_map)
  : Z * unknown_ip_map :=
  let action := policyModeToDefaultAction (dw_Mode (pi_Policy pInfo)) (pi_CapIntcp pInfo) in
  if negb (action =? DP_POLICY_ACTION_VIOLATE) && negb (action =? DP_POLICY_ACTION_DENY) then (action, m)
  else if negb (hc_ExternalPeer conn) then
    let iptype := ip4_iptype SpecialSubnets (if hc_Ingress conn then hc_ClientIP conn else hc_ServerIP conn) in
    if known_peer (en_PolicyAddrMap e) iptype conn then (action, m)
    else policy_chk_unknown_ip (Some pInfo) (hc_ClientIP conn) (hc_ServerIP conn) iptype false added action now m
  else
    if is_policy_addr (if hc_Ingress conn then hc_ServerIP conn else hc_ClientIP conn)
         (en_HostPolicyAddrMap e) then (action, m)
    else if hc_Ingress conn
    then policy_chk_unknown_ip (Some pInfo) (ParseIP "0.0.0.0") (hc_ServerIP conn) "" true added action now m
    else policy_chk_unknown_ip (Some pInfo) (hc_ClientIP conn) (ParseIP "0.0.0.0") "" true added action now m.

(** The first rule of the connection's direction that matches. *)
Fixpoint first_match (rules : list DPPolicyIPRule) (conn : HostConn) : option (Z * Z) :=
  match rules with
  | [] => None
  | r :: rules' =>
      if Bool.eqb (ir_Ingress r) (hc_Ingress conn) then
        match hostPolicyMatch r conn with
        | Some x => Some x
        | None => first_match rules' conn
        end
      else first_match rules' conn
  end.

(** The policy id, the action, whether it is a violation, the connection and
    the unknown addresses. *)
Definition HostNetworkPolicyLookup (e : Engine) (SpecialSubnets : gmap string CLUSSpecSubnet)
    (wl : string) (conn : HostConn) (added : bool) (now : Z) (m : unknown_ip_map)
  : Z * Z * bool * HostConn * unknown_ip_map :=
  let result id action conn m := (id, action, DP_POLICY_ACTION_CHECK_APP <? action, conn, m) in
  match en_NetworkPolicy e !! wl with
  | None => (0, DP_POLICY_ACTION_OPEN, false, conn, m)
  | Some pInfo =>
      if negb (pi_Configured pInfo) then (0, DP_POLICY_ACTION_OPEN, false, conn, m)
      else
        let dir := if hc_Ingress conn then DP_POLICY_APPLY_INGRESS else DP_POLICY_APPLY_EGRESS in
        if negb (hc_ExternalPeer conn) && (Z.land (dw_ApplyDir (pi_Policy pInfo)) dir =? 0)
           && negb (pi_Nbe pInfo)
        then (0, DP_POLICY_ACTION_OPEN, false, conn, m)
        else
          match first_match (dw_IPRules (pi_Policy pInfo)) conn with
          | Some (id, action) =>
              let '(tid, taction, tchg, conn') := policy_chk_nbe pInfo conn id action in
              let id := if tchg : bool then tid else id in
              let action := if tchg : bool then taction else action in
              result id action conn' m
          | None =>
              let '(action, m') := default_verdict e SpecialSubnets pInfo conn added now m in
              result 0 action conn m'
          end
  end.

(** ** Properties *)

Lemma hostPolicyMatch_acts P r conn id action :
  rule_acts P r -> hostPolicyMatch r conn = Some (id, action) -> P action.
Proof.
  unfold hostPolicyMatch. intros [Ha Happs] H.
  repeat (case_match; [done|]); try done.
  destruct (ir_Action r =? DP_POLICY_ACTION_CHECK_APP) eqn:Hc; simplify_eq.
  - destruct (List.find _ _) as [app|] eqn:Hf; simplify_eq.
    apply find_some in Hf as [Hin _]. rewrite Forall_forall in Happs.
    by apply Happs, list_elem_of_In.
  - apply Z.eqb_neq in Hc. by destruct Ha.
Qed.

Lemma first_match_acts P rules conn id action :
  Forall (rule_acts P) rules -> first_match rules conn = Some (id, action) -> P action.
Proof.
  induction 1 as [|r rules Hr _ IH]; simpl; [done|].
  destruct (Bool.eqb _ _); [|done]. destruct (hostPolicyMatch r conn) as [[id' a']|] eqn:Hm; [|done].
  intros [= <- <-]. by eapply hostPolicyMatch_acts.
Qed.

Lemma first_match_none rules conn :
  Forall (fun r => hostPolicyMatch r conn = None) rules -> first_match rules conn = None.
Proof. induction 1 as [|r rules Hr _ IH]; simpl; [done|]. rewrite Hr. by destruct (Bool.eqb _ _). Qed.

Lemma policy_chk_unknown_ip_action pInfo srcip dstip iptype ext added action now m :
  (policy_chk_unknown_ip pInfo srcip dstip iptype ext added action now m).1 = action \/
  (policy_chk_unknown_ip pInfo srcip dstip iptype ext added action now m).1 = DP_POLICY_ACTION_OPEN.
Proof.
  unfold policy_chk_unknown_ip. destruct pInfo as [p|]; [|by left].
  destruct (_ || _); [|destruct (bool_decide _); simpl; tauto].
  destruct (m !! _) as [c|]; [|by right]. destruct (chk_cache _ _ c) as [[] ?]; simpl; tauto.
Qed.

Lemma default_verdict_action e snets pInfo conn added now m :
  let def := policyModeToDefaultAction (dw_Mode (pi_Policy pInfo)) (pi_CapIntcp pInfo) in
  (default_verdict e snets pInfo conn added now m).1 = def \/
  (default_verdict e snets pInfo conn added now m).1 = DP_POLICY_ACTION_OPEN.
Proof.
  intros def. unfold default_verdict. fold def.
  repeat (case_match; try (by left); try apply policy_chk_unknown_ip_action).
Qed.

Lemma policy_chk_nbe_not_deny pInfo conn id action :
  not_deny action ->
  policyModeToDefaultAction (dw_Mode (pi_Policy pInfo)) (pi_CapIntcp pInfo) <> DP_POLICY_ACTION_DENY ->
  not_deny (policy_chk_nbe pInfo conn id action).1.1.2.
Proof.
  unfold policy_chk_nbe, not_deny. intros Ha Hd. apply Z.eqb_neq in Hd. rewrite Hd.
  destruct (action =? _); [|done]. destruct (pi_Nbe pInfo); [|done]. simpl.
  repeat case_match; done.
Qed.

(** The verdict of a lookup that the policy of the workload decides. *)
Lemma lookup_not_deny e snets wl conn added now m p :
  en_NetworkPolicy e !! wl = Some p -> info_acts not_deny p ->
  policyModeToDefaultAction (dw_Mode (pi_Policy p)) (pi_CapIntcp p) <> DP_POLICY_ACTION_DENY ->
  not_deny (HostNetworkPolicyLookup e snets wl conn added now m).1.1.1.2.
Proof.
  intros Hp Hacts Hdef. unfold HostNetworkPolicyLookup. rewrite Hp.
  destruct (pi_Configured p); [|done]. simpl. destruct (_ && _ && _); [done|].
  destruct (first_match _ conn) as [[id a]|] eqn:Hm.
  - pose proof (first_match_acts not_deny _ _ _ _ Hacts Hm) as Ha.
    pose proof (policy_chk_nbe_not_deny p conn id a Ha Hdef) as Hn.
    destruct (policy_chk_nbe p conn id a) as [[[tid ta] chg] c']. by destruct chg.
  - destruct (default_verdict_action e snets p conn added now m) as [Hv|Hv];
      destruct (default_verdict _ _ _ _ _ _ _) as [a m']; simpl in *; subst; done.
Qed.

(** C4: after a policy distribution, no connection of a workload whose
    traffic must not be blocked (it cannot intercept it, or it is in Discover
    or Monitor mode outside the strict mode) gets the verdict DENY: whatever
    the connection, the unknown addresses seen so far and the time, and
    including the namespace check and the default verdict. *)
Theorem host_lookup_never_blocks lookup order strict polAppDir HostID HostIPs
    connected delOK exist ps newPolicy e ids cmds e' snets wl conn added now m p :
  (forall path A (l : list A), order path A l ≡ₚ l) ->
  distribution_ok ps -> fresh_policy newPolicy ->
  UpdateNetworkPolicy lookup order strict polAppDir HostID HostIPs connected delOK exist ps newPolicy e
  = Done (ids, cmds, e') ->
  en_NetworkPolicy e' !! wl = Some p -> unblocked strict p = true ->
  not_deny (HostNetworkPolicyLookup e' snets wl conn added now m).1.1.1.2.
Proof.
  intros Hord Hd Hf Hu Hp Hub. destruct (pi_Configured p) eqn:Hc.
  - eapply lookup_not_deny; [exact Hp| |by eapply unblocked_default].
    by eapply (update_unblocked lookup order Hord).
  - unfold HostNetworkPolicyLookup. by rewrite Hp, Hc.
Qed.

(** A connection of a workload in Protect mode that can intercept its
    traffic is denied, as a violation of no particular rule, when its
    direction is under policy, no rule matches it and its peer is an address
    under policy (for an external peer: the workload's own address is). *)
Theorem protect_denies_unmatched e snets wl conn added now m p :
  en_NetworkPolicy e !! wl = Some p -> pi_Configured p = true ->
  dw_Mode (pi_Policy p) = PolicyModeEnforce -> pi_CapIntcp p = true ->
  (hc_ExternalPeer conn = true \/ pi_Nbe p = true \/
   Z.land (dw_ApplyDir (pi_Policy p))
     (if hc_Ingress conn then DP_POLICY_APPLY_INGRESS else DP_POLICY_APPLY_EGRESS) <> 0) ->
  Forall (fun r => hostPolicyMatch r conn = None) (dw_IPRules (pi_Policy p)) ->
  (if hc_ExternalPeer conn
   then is_policy_addr (if hc_Ingress conn then hc_ServerIP conn else hc_ClientIP conn)
          (en_HostPolicyAddrMap e) = true
   else forall ip, ip = hc_ClientIP conn \/ ip = hc_ServerIP conn ->
          is_policy_addr ip (en_PolicyAddrMap e) = true) ->
  HostNetworkPolicyLookup e snets wl conn added now m = (0, DP_POLICY_ACTION_DENY, true, conn, m).
Proof.
  intros Hp Hc Hmode Hcap Hdir Hno Haddr. unfold HostNetworkPolicyLookup.
  rewrite Hp, Hc, (first_match_none _ _ Hno). simpl.
  replace (negb (hc_ExternalPeer conn) && _ && _) with false.
  2:{ symmetry. destruct Hdir as [->|[->|Hz]]; [done|by rewrite andb_false_r|].
      apply Z.eqb_neq in Hz. rewrite Hz. by rewrite andb_false_r. }
  unfold default_verdict. rewrite Hmode, Hcap. simpl.
  destruct (hc_ExternalPeer conn); simpl; [by rewrite Haddr|].
  unfold known_peer. destruct (hc_Ingress conn), (own_net_type _); rewrite ?Haddr; auto.
Qed.

(** *** Unknown addresses *)

(** The checks of one pair of addresses and the firing of its timer. *)
Inductive unknown_event := UCheck (now : Z) | UExpire (now : Z).

Section unknown.
Context (pInfo : WorkloadIPPolicyInfo) (srcip dstip : IP) (action : Z).

Let desc : unknown_ip_desc := (IP_String srcip, IP_String dstip).
Let chk (t : Z) (m : unknown_ip_map) : Z * unknown_ip_map :=
  policy_chk_unknown_ip (Some pInfo) srcip dstip "" false true action t m.

(** The verdicts of the checks. *)
Fixpoint unknown_run (evs : list unknown_event) (m : unknown_ip_map) : list Z :=
  match evs with
  | [] => []
  | UCheck t :: evs => (chk t m).1 :: unknown_run evs (chk t m).2
  | UExpire _ :: evs => unknown_run evs (unknown_ip_expire desc m)
  end.

(** Time does not go back, and the timer of an entry fires, early or late,
    before a minute has passed after the time at which it is due. *)
Fixpoint timely (last : Z) (evs : list unknown_event) (m : unknown_ip_map) : Prop :=
  match evs with
  | [] => True
  | UCheck t :: evs =>
      last <= t /\
      match m !! desc with
      | Some c => match uc_timerTask c with Some due => t < due + POL_VER_CHG_MAX | None => False end
      | None => True end /\
      timely t evs (chk t m).2
  | UExpire t :: evs => last <= t /\ timely t evs (unknown_ip_expire desc m)
  end.

(** Each of the tries that were used lasted a minute. *)
Definition entry_ok (m : unknown_ip_map) : Prop :=
  forall c, m !! desc = Some c ->
    uc_polver c = pi_PolVer pInfo /\ 0 <= uc_try_cnt c /\
    exists due, uc_timerTask c = Some due /\
      due <= uc_start_hit c + uc_try_cnt c * POL_VER_CHG_MAX.

Lemma chk_open t m :
  entry_ok m ->
  match m !! desc with
  | Some c => match uc_timerTask c with Some due => t < due + POL_VER_CHG_MAX | None => False end
  | None => True end ->
  (chk t m).1 = DP_POLICY_ACTION_OPEN /\ entry_ok (chk t m).2.
Proof.
  unfold chk, policy_chk_unknown_ip, entry_ok, desc. simpl. intros Hok Ht.
  destruct (m !! _) as [c|] eqn:Hc; simpl.
  2:{ split; [done|]. unfold add_unkn_ip_cache. simpl. intros c'. rewrite lookup_insert_eq.
      intros [= <-]. simpl. split; [done|]. split; [done|]. eexists. split; [done|].
      unfold UNKN_IP_CACHE_TIMEOUT, UNKN_IP_TRY_COUNT, POL_VER_CHG_MAX. lia. }
  destruct (Hok c eq_refl) as (Hv & Htry & due & Hdue & Hle). rewrite Hdue in Ht.
  unfold chk_cache. rewrite Hv, Z.eqb_refl. simpl.
  destruct (Z.ltb_spec (t - uc_start_hit c) POL_VER_CHG_MAX) as [Hs|Hs]; simpl.
  - split; [done|]. intros c'. rewrite lookup_insert_eq. intros [= <-]. simpl. eauto.
  - destruct (Z.ltb_spec 0 (uc_try_cnt c)) as [Hp|Hp]; simpl.
    2:{ assert (uc_try_cnt c = 0) as Hz by lia. rewrite Hz in Hle. exfalso. lia. }
    split; [done|].
    intros c'. rewrite lookup_insert_eq. intros [= <-]. simpl.
    split; [done|]. split; [lia|]. exists due. split; [done|]. nia.
Qed.

Lemma unknown_run_open evs last m :
  entry_ok m -> timely last evs m -> Forall (eq DP_POLICY_ACTION_OPEN) (unknown_run evs m).
Proof.
  revert last m. induction evs as [|[t|t] evs IH]; intros last m Hok; simpl; [done| |].
  - intros (_ & Ht & Hrest). destruct (chk_open t m Hok Ht) as [Ho Hok']. constructor; eauto.
  - intros (_ & Hrest). eapply IH, Hrest. intros c. unfold unknown_ip_expire.
    by rewrite lookup_delete_eq.
Qed.

End unknown.

(** While the policy version stays the same, every connection between an
    address under policy and an unknown internal address is let through,
    whatever the default verdict: the ten tries of a minute outlast the ten
    minutes after which the entry is dropped and the tries start again. *)
Theorem unknown_ip_always_open pInfo srcip dstip action last evs :
  timely pInfo srcip dstip action last evs ∅ ->
  Forall (eq DP_POLICY_ACTION_OPEN) (unknown_run pInfo srcip dstip action evs ∅).
Proof. apply unknown_run_open. intros c. by rewrite lookup_empty. Qed.

(** The times of the checks of one entry that open the connection; the
    policy version may change between two checks. *)
Fixpoint opened_at (cs : list (Z * Z)) (c : unknown_ip_cache) : list Z :=
  match cs with
  | [] => []
  | (pver, t) :: cs =>
      let '(opened, c') := chk_cache pver t c in
      if opened : bool then t :: opened_at cs c' else opened_at cs c'
  end.

(** An entry opens connections only during [uc_try_cnt] + 1 windows of a
    minute (four for an address of a host or tunnel, three for an external
    peer), whatever the checks and the changes of policy version are, if time
    does not go back. *)
Theorem unknown_ip_windows cs c :
  0 <= uc_try_cnt c -> Sorted Z.le (uc_start_hit c :: cs.*2) ->
  exists starts, Z.of_nat (length starts) <= uc_try_cnt c + 1 /\
    forall t, t ∈ opened_at cs c -> exists s, s ∈ starts /\ s <= t < s + POL_VER_CHG_MAX.
Proof.
  intros Htry Hsort%Sorted_StronglySorted; [|intros ?; lia].
  cut (exists starts, Z.of_nat (length starts) <= uc_try_cnt c /\
    forall t, t ∈ opened_at cs c ->
      exists s, s ∈ uc_start_hit c :: starts /\ s <= t < s + POL_VER_CHG_MAX).
  { intros (starts & Hlen & H). exists (uc_start_hit c :: starts). split; [simpl; lia|done]. }
  revert c Htry Hsort. induction cs as [|[pver t] cs IH]; intros c Htry Hsort; simpl in *.
  { exists []. split; [done|]. by intros t ?%elem_of_nil. }
  apply StronglySorted_inv in Hsort as [Hsort Hle]. pose proof Hsort as Hsort2.
  apply StronglySorted_inv in Hsort as [Hsort Hle2].
  apply Forall_cons in Hle as [Hst Hle]. unfold chk_cache.
  destruct (_ && (_ <? _)) eqn:Hw.
  - apply andb_true_iff in Hw as [_ Hw%Z.ltb_lt].
    destruct (IH (update_unkn_ip_cache c t)) as (starts & Hlen & H); [done|by constructor|].
    exists starts. split; [done|]. intros u [->|Hu]%elem_of_cons; [|by apply H].
    exists (uc_start_hit c). split; [by left|lia].
  - destruct (Z.ltb_spec 0 (uc_try_cnt c)) as [Hpos|Hpos].
    + destruct (IH (refresh_unkn_ip_cache c pver (uc_try_cnt c - 1) t)) as (starts & Hlen & H);
        simpl in *; [lia|done|].
      exists (t :: starts). split; [simpl; lia|]. intros u [->|Hu]%elem_of_cons.
      * exists t. split; [right; left|unfold POL_VER_CHG_MAX, time_Second; lia].
      * destruct (H u Hu) as (s & Hs & ?). exists s. split; [by right|done].
    + apply IH; [done|by constructor].
Qed.

(** ** Witnesses *)

Definition ex_conn (ingress external : bool) : HostConn :=
  {| hc_ClientIP := [10; 0; 0; 1]; hc_ServerIP := [10; 0; 0; 2]; hc_ServerPort := 3306;
     hc_IPProto := 6; hc_Application := 0; hc_Ingress := ingress; hc_ExternalPeer := external;
     hc_Nbe := false; hc_NbeSns := false |}.

(** The rule of the example denies the connection of [web] to [db]; as [web]
    is in Monitor mode it is reported as a violation and let through. *)
Lemma host_lookup_never_blocks_witness :
  exists ids cmds e' p, ex_update false = Done (ids, cmds, e') /\
    en_NetworkPolicy e' !! "web" = Some p /\
    HostNetworkPolicyLookup e' ∅ "web" (ex_conn false false) true 0 ∅
    = (5, DP_POLICY_ACTION_VIOLATE, true, ex_conn false false, ∅) /\
    forall conn now, not_deny (HostNetworkPolicyLookup e' ∅ "web" conn true now ∅).1.1.1.2.
Proof.
  destruct (ex_update false) as [[[ids cmds] e']|w] eqn:Hu; [|vm_compute in Hu; discriminate Hu].
  destruct (en_NetworkPolicy e' !! "web") as [p|] eqn:Hp;
    [|vm_compute in Hu; injection Hu as <- <- <-; vm_compute in Hp; discriminate Hp].
  exists ids, cmds, e', p. split; [reflexivity|]. split; [exact Hp|]. split.
  - vm_compute in Hu. injection Hu as <- <- <-. vm_compute. reflexivity.
  - intros conn now.
    apply (host_lookup_never_blocks (fun _ => None) (fun _ _ l => l) false 3 "host1" ∅ true true
      (fun _ => false) ex_policies ex_new ex_engine ids cmds e' ∅ "web" conn true now ∅ p
      ex_order_perm (proj1 ex_distribution) ex_fresh Hu Hp).
    vm_compute in Hu. injection Hu as <- <- <-. vm_compute in Hp. injection Hp as <-.
    vm_compute. reflexivity.
Defined.

Definition ex_host_info : WorkloadIPPolicyInfo :=
  {| pi_RuleMap := ∅;
     pi_Policy := {| dw_WlID := "db"; dw_Mode := PolicyModeEnforce; dw_DefAction := DP_POLICY_ACTION_DENY;
                     dw_ApplyDir := 3; dw_WorkloadMac := []; dw_IPRules := [] |};
     pi_Configured := true; pi_SkipPush := false; pi_HostMode := true; pi_CapIntcp := true;
     pi_PolVer := 1; pi_Nbe := false |}.

Definition ex_host_engine : Engine :=
  {| en_NetworkPolicy := {[ "db" := ex_host_info ]};
     en_PolicyAddrMap :=
       {[ "10.0.0.1/32" := {| cs_Subnet := host_net [10; 0; 0; 1]; cs_Scope := "" |};
          "10.0.0.2/32" := {| cs_Subnet := host_net [10; 0; 0; 2]; cs_Scope := "" |} ]};
     en_HostPolicyAddrMap := ∅; en_fqdnMap := ∅; en_ToggleIcmpPolicy := false |}.

Lemma protect_denies_unmatched_witness :
  HostNetworkPolicyLookup ex_host_engine ∅ "db" (ex_conn true false) true 0 ∅
  = (0, DP_POLICY_ACTION_DENY, true, ex_conn true false, ∅).
Proof.
  apply (protect_denies_unmatched ex_host_engine ∅ "db" (ex_conn true false) true 0 ∅ ex_host_info).
  - vm_compute. reflexivity.
  - reflexivity.
  - reflexivity.
  - reflexivity.
  - right. right. vm_compute. discriminate.
  - constructor.
  - intros ip [->| ->]; vm_compute; reflexivity.
Defined.

(** One check every minute for twenty minutes, the entry dropped after ten. *)
Definition ex_minutes : list unknown_event :=
  ((fun i => UCheck (Z.of_nat i * POL_VER_CHG_MAX)) <$> seq 0 11) ++
  [UExpire (605 * time_Second)] ++
  ((fun i => UCheck (Z.of_nat i * POL_VER_CHG_MAX)) <$> seq 11 10).

Lemma unknown_ip_always_open_witness :
  Forall (eq DP_POLICY_ACTION_OPEN)
    (unknown_run ex_host_info [10; 0; 0; 9] [10; 0; 0; 2] DP_POLICY_ACTION_DENY ex_minutes ∅) /\
  length (unknown_run ex_host_info [10; 0; 0; 9] [10; 0; 0; 2] DP_POLICY_ACTION_DENY ex_minutes ∅)
  = 21%nat.
Proof.
  split; [|vm_compute; reflexivity].
  apply (unknown_ip_always_open ex_host_info [10; 0; 0; 9] [10; 0; 0; 2] DP_POLICY_ACTION_DENY 0
    ex_minutes).
  vm_compute. repeat split; discriminate.
Defined.

Definition ex_entry : unknown_ip_cache :=
  {| uc_timerTask := None; uc_polver := 1; uc_start_hit := 0; uc_last_hit := 0;
     uc_try_cnt := EXT_IP_TRY_COUNT |}.

Definition ex_checks : list (Z * Z) := (fun i => (1, Z.of_nat i * POL_VER_CHG_MAX)) <$> seq 1 5.

Lemma unknown_ip_windows_witness :
  opened_at ex_checks ex_entry = [POL_VER_CHG_MAX; 2 * POL_VER_CHG_MAX] /\
  exists starts, Z.of_nat (length starts) <= 3 /\
    forall t, t ∈ opened_at ex_checks ex_entry ->
      exists s, s ∈ starts /\ s <= t < s + POL_VER_CHG_MAX.
Proof.
  split; [vm_compute; reflexivity|].
  apply (unknown_ip_windows ex_checks ex_entry); [vm_compute; discriminate|].
  repeat constructor; vm_compute; discriminate.
Defined.
