(* ===== verification/NvDPCtrl.v ===== *)
(** * Messages to the data plane: [agent/dp/ctrl.go]

    The agent configures the data plane with JSON messages over a socket whose
    messages have a maximal size, so it splits rules and addresses into
    several, guessing how many fit and retrying with fewer.  The loop is
    written out once per kind of message in the code; [chunk_loop] is their
    common text, and each kind instantiates it with its own message. *)

From Stdlib Require Import ZArith Lia Ascii.
From S2P Require Import Prelude GoLib GoNet GoText GoJson NvPorts NvSubnet NvPolicyTypes.
Local Open Scope Z_scope.

Definition MSG_START : Z := 1.
Definition MSG_END : Z := 2.
Definition maxMsgSize : Z := 8120.

(** [l[start:end]], for indices in range. *)
Definition slice {A} (l : list A) (start e : Z) : list A :=
  take (Z.to_nat (e - start)) (drop (Z.to_nat start) l).

Inductive send_result := AllSent | TooLarge | SendFailed.

(** The [int] a sending function returns. *)
Definition send_code (r : send_result) : Z := match r with AllSent => 0 | _ => -1 end.

(** ** The loop

    [size] is the length of the message with the given flag and items, [send]
    whether the write of the n-th message succeeds. *)

Section chunks.
Context {A : Type} (size : Z -> list A -> Z) (send : nat -> bool) (items : list A).

Record chunk_state := {
  ck_start : Z;
  ck_num : Z;
  ck_per : Z;
  ck_first : bool;
  ck_sent : list (Z * list A)
}.

Definition set_per (per : Z) (st : chunk_state) : chunk_state :=
  {| ck_start := ck_start st; ck_num := ck_num st; ck_per := per; ck_first := ck_first st;
     ck_sent := ck_sent st |}.

(** One pass from [retry]: the next state, or the result. *)
Definition chunk_iter (st : chunk_state) : outcome (chunk_state + send_result) :=
  let start := ck_start st in
  let num := ck_num st in
  let per := ck_per st in
  let flag := if start =? 0 then MSG_START else 0 in
  let '(flag, e) := if num <=? per then (Z.lor flag MSG_END, start + num) else (flag, start + per) in
  let chunk := slice items start e in
  let sz := size flag chunk in
  if maxMsgSize <? sz then
    if e - start =? 0 then Panicked "integer divide by zero"
    else
      let new := maxMsgSize / (sz / (e - start) + 1) in
      let new := if new =? per then new - 1 else new in
      if new =? 0 then Done (inr TooLarge) else Done (inl (set_per new st))
  else if negb (send (length (ck_sent st))) then Done (inr SendFailed)
  else Done (inl {| ck_start := e; ck_num := num + start - e; ck_per := per; ck_first := false;
                    ck_sent := ck_sent st ++ [(flag, chunk)] |}).

(** A retry does not change what the loop tests, so the test before it is
    the loop's.  [None] is out of fuel. *)
Fixpoint chunk_loop (fuel : nat) (st : chunk_state)
  : option (outcome (send_result * list (Z * list A))) :=
  match fuel with
  | O => None
  | S fuel' =>
      if (0 <? ck_num st) || ck_first st then
        match chunk_iter st with
        | Panicked why => Some (Panicked why)
        | Done (inr r) => Some (Done (r, ck_sent st))
        | Done (inl st') => chunk_loop fuel' st'
        end
      else Some (Done (AllSent, ck_sent st))
  end.

Definition chunk_init (per : Z) : chunk_state :=
  {| ck_start := 0; ck_num := Z.of_nat (length items); ck_per := per; ck_first := true; ck_sent := [] |}.

(** A pass sends at least one item or lowers the number per message. *)
Definition chunk_fuel (per : Z) : nat := (Z.to_nat per + length items + 2)%nat.

Definition send_chunks (per : Z) : option (outcome (send_result * list (Z * list A))) :=
  chunk_loop (chunk_fuel per) (chunk_init per).

End chunks.
Arguments chunk_state : clear implicits.

(** ** The messages *)

Definition DPPolicyApp_json (a : DPPolicyApp) : json :=
  JObj [("app", JInt (da_App a)); ("action", JInt (da_Action a)); ("rid", JInt (da_RuleID a))].

Definition omit_IP (k : string) (ip : IP) : option (list (string * json)) :=
  match ip with [] => Some [] | _ => v ← json_IP ip; Some [(k, v)] end.

Definition DPPolicyIPRule_json (r : DPPolicyIPRule) : option json :=
  sip ← json_IP (ir_SrcIP r);
  dip ← json_IP (ir_DstIP r);
  sipr ← omit_IP "sipr" (ir_SrcIPR r);
  dipr ← omit_IP "dipr" (ir_DstIPR r);
  Some (JObj
    ([("id", JInt (ir_ID r)); ("sip", sip); ("dip", dip)] ++ sipr ++ dipr ++
     [("port", JInt (ir_Port r)); ("portr", JInt (ir_PortR r)); ("proto", JInt (ir_IPProto r));
      ("action", JInt (ir_Action r)); ("ingress", JBool (ir_Ingress r))] ++
     omit_if (bool_decide (ir_Fqdn r = "")) "fqdn" (JStr (ir_Fqdn r)) ++
     omit_if (negb (ir_Vhost r)) "vhost" (JBool (ir_Vhost r)) ++
     omit_if (bool_decide (ir_Apps r = [])) "apps" (json_slice DPPolicyApp_json (ir_Apps r)))).

(** [DPPolicyCfgReq] of one message. *)
Definition DPPolicyCfg_json (policy : DPWorkloadIPPolicy) (cmd flag : Z) (rules : list DPPolicyIPRule)
  : option json :=
  rs ← json_slice_opt DPPolicyIPRule_json rules;
  Some (JObj [("ctrl_cfg_policy", JObj
    [("cmd", JInt cmd); ("flag", JInt flag); ("defact", JInt (dw_DefAction policy));
     ("dir", JInt (dw_ApplyDir policy)); ("mac", json_slice JStr (dw_WorkloadMac policy));
     ("rules", rs)])]).

(** The [len] of a message. *)
Definition msg_len (v : option json) : Z := Z.of_nat (String.length (Marshal v)).

(** What a sending function does: whether it ends, its result, the messages
    it sent as their flags and items. *)
Definition DPCtrlConfigPolicy (send : nat -> bool) (policy : DPWorkloadIPPolicy) (cmd : Z)
  : option (outcome (send_result * list (Z * list DPPolicyIPRule))) :=
  send_chunks (fun flag rules => msg_len (DPPolicyCfg_json policy cmd flag rules)) send
    (dw_IPRules policy) 40.

Definition DPFqdnDelete_json (names : list string) : option json :=
  Some (JObj [("ctrl_cfg_del_fqdn", JObj [("names", json_made JStr names)])]).

(** The lists of names sent before the end or the first failure; the loop
    does at most one pass per name. *)
Fixpoint delete_fqdn_loop (send : nat -> bool) (names : list string) (fuel : nat) (start : Z)
    (sent : list (list string)) : option (send_result * list (list string)) :=
  match fuel with
  | O => None
  | S fuel' =>
      let e := Z.of_nat (length names) in
      if start <? e then
        let chunk := if start + 20 <? e then slice names start (start + 20) else slice names start e in
        if negb (send (length sent)) then Some (SendFailed, sent)
        else delete_fqdn_loop send names fuel' (start + 20) (sent ++ [chunk])
      else Some (AllSent, sent)
  end.

Definition DPCtrlDeleteFqdn (send : nat -> bool) (names : list string)
  : option (send_result * list (list string)) :=
  delete_fqdn_loop send names (S (length names)) 0 [].

Record CLUSFqdnIp := { ff_FqdnName : string; ff_FqdnIP : list IP; ff_Vhost : bool }.

Definition DPFqdnIps_json (name : string) (ips : list IP) (vhost : bool) : option json :=
  l ← json_made_opt json_IP ips;
  Some (JObj [("ctrl_cfg_set_fqdn", JObj
    [("fqdn_name", JStr name); ("fqdn_ips", l); ("vhost", JBool vhost)])]).

(** The result and the message. *)
Definition DPCtrlSetFqdnIp (send : nat -> bool) (fqdnip : CLUSFqdnIp) : Z * string :=
  let fips := List.filter IsIPv4 (ff_FqdnIP fqdnip) in
  let msg := Marshal (DPFqdnIps_json (ff_FqdnName fqdnip) fips (ff_Vhost fqdnip)) in
  (if send 0%nat then 0 else -1, msg).

Record DPSubnet := { ds_IP : IP; ds_Mask : IP }.
Record DPSpecSubnet := { dss_IP : IP; dss_Mask : IP; dss_IpType : string }.

Definition DPSubnet_json (s : DPSubnet) : option json :=
  ip ← json_IP (ds_IP s); mask ← json_IP (ds_Mask s);
  Some (JObj [("ip", ip); ("mask", mask)]).
Definition DPSpecSubnet_json (s : DPSpecSubnet) : option json :=
  ip ← json_IP (dss_IP s); mask ← json_IP (dss_Mask s);
  Some (JObj [("ip", ip); ("mask", mask); ("iptype", JStr (dss_IpType s))]).

(** A message of subnets under the given key of the request. *)
Definition subnet_cfg_json {A} (f : A -> option json) (key : string) (flag : Z) (subnets : list A)
  : option json :=
  l ← json_made_opt f subnets;
  Some (JObj [(key, JObj [("flag", JInt flag); ("subnet_addr", l)])]).

(** The subnets of a map, in the order the map is visited. *)
Definition data_subnets (ord : list CLUSSubnet) : list DPSubnet :=
  (fun addr => {| ds_IP := ipnet_IP (cs_Subnet addr); ds_Mask := ipnet_Mask (cs_Subnet addr) |})
    <$> List.filter (fun addr => IsIPv4 (ipnet_IP (cs_Subnet addr))) ord.

Definition data_spec_subnets (ord : list CLUSSpecSubnet) : list DPSpecSubnet :=
  (fun addr => {| dss_IP := ipnet_IP (ss_Subnet addr); dss_Mask := ipnet_Mask (ss_Subnet addr);
                  dss_IpType := ss_IpType addr |})
    <$> List.filter (fun addr => IsIPv4 (ipnet_IP (ss_Subnet addr))) ord.

Definition DPCtrlConfigPolicyAddr (send : nat -> bool) (ord : list CLUSSubnet)
  : option (outcome (send_result * list (Z * list DPSubnet))) :=
  send_chunks (fun flag l => msg_len (subnet_cfg_json DPSubnet_json "ctrl_cfg_policy_addr" flag l))
    send (data_subnets ord) 600.

Definition DPCtrlConfigInternalSubnet (send : nat -> bool) (ord : list CLUSSubnet)
  : option (outcome (send_result * list (Z * list DPSubnet))) :=
  send_chunks (fun flag l => msg_len (subnet_cfg_json DPSubnet_json "ctrl_cfg_internal_net" flag l))
    send (data_subnets ord) 600.

Definition DPCtrlConfigSpecialIPSubnet (send : nat -> bool) (ord : list CLUSSpecSubnet)
  : option (outcome (send_result * list (Z * list DPSpecSubnet))) :=
  send_chunks (fun flag l => msg_len (subnet_cfg_json DPSpecSubnet_json "ctrl_cfg_specip_net" flag l))
    send (data_spec_subnets ord) 600.

(** ** DLP and WAF rules *)

Record DPDlpSetting := { dl_Name : string; dl_ID : Z; dl_Action : Z }.
Record DPDlpRuleEntry := { dr_Name : string; dr_ID : Z; dr_Patterns : list string }.
Record DPDlpRidSetting := { rs_ID : Z; rs_Action : Z }.

Record DPWorkloadDlpRule := {
  wd_WlID : string;
  wd_Mode : string;
  wd_DefAction : Z;
  wd_ApplyDir : Z;
  wd_WorkloadMac : list string;
  wd_DlpRuleNames : list DPDlpSetting;
  wd_WafRuleNames : list DPDlpSetting;
  wd_PolicyRuleIds : list Z;
  wd_PolWafRuleIds : list Z;
  wd_RuleType : string;
  wd_WafRuleType : string
}.

Definition DPDlpRidSetting_json (s : DPDlpRidSetting) : json :=
  JObj [("id", JInt (rs_ID s)); ("action", JInt (rs_Action s))].

Definition DPDlpRuleEntry_json (r : DPDlpRuleEntry) : json :=
  JObj [("name", JStr (dr_Name r)); ("id", JInt (dr_ID r)); ("patterns", json_slice JStr (dr_Patterns r))].

(** [DPDlpCfgReq] of one message. *)
Definition DPDlpCfg_json (w : DPWorkloadDlpRule) (flag : Z) (dlp waf : list DPDlpRidSetting) : json :=
  JObj [("ctrl_cfg_dlp", JObj
    [("flag", JInt flag); ("mac", json_slice JStr (wd_WorkloadMac w));
     ("dlp_rule_names", json_made DPDlpRidSetting_json dlp);
     ("waf_rule_names", json_made DPDlpRidSetting_json waf);
     ("rule_ids", json_slice JInt (wd_PolicyRuleIds w));
     ("waf_rule_ids", json_slice JInt (wd_PolWafRuleIds w));
     ("ruletype", JStr (wd_RuleType w)); ("wafruletype", JStr (wd_WafRuleType w))])].

(** [drids] and [wrids]. *)
Definition rid_setting (s : DPDlpSetting) : DPDlpRidSetting :=
  {| rs_ID := dl_ID s; rs_Action := dl_Action s |}.

(** The flag, and the DLP and WAF rules, of a sent message. *)
Definition dlp_msg : Type := Z * list DPDlpRidSetting * list DPDlpRidSetting.

Record dlp_state := {
  dc_start : Z; dc_start1 : Z;
  dc_num : Z; dc_num1 : Z;
  dc_per : Z;
  dc_first : bool;
  dc_sent : list dlp_msg
}.

Definition set_dlp_per (per : Z) (st : dlp_state) : dlp_state :=
  {| dc_start := dc_start st; dc_start1 := dc_start1 st; dc_num := dc_num st; dc_num1 := dc_num1 st;
     dc_per := per; dc_first := dc_first st; dc_sent := dc_sent st |}.

(** The flag and the two ends of the next message. *)
Definition dlp_ends (st : dlp_state) : Z * Z * Z :=
  let '(start, start1, num, num1, per) :=
    (dc_start st, dc_start1 st, dc_num st, dc_num1 st, dc_per st) in
  let flag := if start =? 0 then MSG_START else 0 in
  if num + num1 <=? per then (Z.lor flag MSG_END, start + num, start1 + num1)
  else
    let tlen := per / 2 in
    if num <=? tlen then
      (flag, start + num, if per - num <? num1 then start1 + (per - num) else start1 + num1)
    else
      (flag, start + tlen, if per - tlen <? num1 then start1 + (per - tlen) else start1 + num1).

Definition dlp_iter (send : nat -> bool) (w : DPWorkloadDlpRule) (st : dlp_state)
  : outcome (dlp_state + send_result) :=
  let '(flag, e, e1) := dlp_ends st in
  let dlp := rid_setting <$> slice (wd_DlpRuleNames w) (dc_start st) e in
  let waf := rid_setting <$> slice (wd_WafRuleNames w) (dc_start1 st) e1 in
  let sz := msg_len (Some (DPDlpCfg_json w flag dlp waf)) in
  if maxMsgSize <? sz then
    let n := (e - dc_start st) + (e1 - dc_start1 st) in
    if n =? 0 then Panicked "integer divide by zero"
    else
      let new := maxMsgSize / (sz / n + 1) in
      let new := if new =? dc_per st then new - 1 else new in
      if new =? 0 then
        (* The log entry reads the next rule of both kinds. *)
        if (dc_start st <? Z.of_nat (length (wd_DlpRuleNames w)))
           && (dc_start1 st <? Z.of_nat (length (wd_WafRuleNames w)))
        then Done (inr TooLarge) else Panicked "index out of range"
      else Done (inl (set_dlp_per new st))
  else if negb (send (length (dc_sent st))) then Done (inr SendFailed)
  else Done (inl {| dc_start := e; dc_start1 := e1; dc_num := dc_num st + dc_start st - e;
                    dc_num1 := dc_num1 st + dc_start1 st - e1; dc_per := dc_per st;
                    dc_first := false; dc_sent := dc_sent st ++ [(flag, dlp, waf)] |}).

(** [inr] is the state in which the fuel ran out. *)
Fixpoint dlp_loop (send : nat -> bool) (w : DPWorkloadDlpRule) (fuel : nat) (st : dlp_state)
  : outcome (send_result * list dlp_msg) + dlp_state :=
  if (0 <? dc_num st + dc_num1 st) || dc_first st then
    match fuel with
    | O => inr st
    | S fuel' =>
        match dlp_iter send w st with
        | Panicked why => inl (Panicked why)
        | Done (inr r) => inl (Done (r, dc_sent st))
        | Done (inl st') => dlp_loop send w fuel' st'
        end
    end
  else inl (Done (AllSent, dc_sent st)).

Definition dlp_init (w : DPWorkloadDlpRule) : dlp_state :=
  {| dc_start := 0; dc_start1 := 0; dc_num := Z.of_nat (length (wd_DlpRuleNames w));
     dc_num1 := Z.of_nat (length (wd_WafRuleNames w)); dc_per := 40; dc_first := true; dc_sent := [] |}.

Definition DPCtrlConfigDlp (fuel : nat) (send : nat -> bool) (w : DPWorkloadDlpRule)
  : outcome (send_result * list dlp_msg) + dlp_state :=
  dlp_loop send w fuel (dlp_init w).

(** [DPDlpBldReq] of one message. *)
Definition DPDlpBuild_json (dir flag : Z) (rules : list DPDlpRuleEntry) (macs delmacs : list string)
  : json :=
  JObj [("ctrl_bld_dlp", JObj
    [("flag", JInt flag); ("dir", JInt dir); ("dlp_rules", json_slice DPDlpRuleEntry_json rules);
     ("mac", json_made JStr macs); ("delmac", json_made JStr delmacs)])].

(** [macs] and [delmacs] are the elements of the sets in the order they are
    visited, which does not change the length of a message; a nil set has
    none. *)
Definition DPCtrlBldDlp (send : nat -> bool) (dlpRulesInfo : list DPDlpRuleEntry)
    (macs delmacs : list string) (dlpApplyDir : Z)
  : option (outcome (send_result * list (Z * list DPDlpRuleEntry))) :=
  send_chunks (fun flag rules => msg_len (Some (DPDlpBuild_json dlpApplyDir flag rules macs delmacs)))
    send dlpRulesInfo 40.

(** ** The loop ends, and what it sent *)

(** The flags of the messages when the last of [n] messages ends them; none
    ends them if [n] is 0. *)
Definition flags_ok {A} (n : nat) (sent : list (Z * list A)) : Prop :=
  forall i f c, sent !! i = Some (f, c) ->
    f = Z.lor (if decide (i = 0%nat) then MSG_START else 0)
              (if decide (S i = n) then MSG_END else 0).

Section chunk_proofs.
Context {A : Type} (size : Z -> list A -> Z) (send : nat -> bool) (items : list A).

Record chunk_inv (st : chunk_state A) : Prop := {
  ci_len : ck_start st + ck_num st = Z.of_nat (length items);
  ci_start : 0 <= ck_start st;
  ci_num : 0 <= ck_num st;
  ci_per : 1 <= ck_per st;
  ci_first : if ck_first st then ck_start st = 0 /\ ck_sent st = []
             else ck_sent st <> [] /\ (0 < ck_num st -> 0 < ck_start st);
  ci_concat : concat (ck_sent st).*2 = take (Z.to_nat (ck_start st)) items;
  ci_flags : flags_ok (if ck_num st =? 0 then length (ck_sent st) else 0%nat) (ck_sent st);
  ci_size : Forall (fun '(f, c) => size f c <= maxMsgSize) (ck_sent st);
  ci_some : Forall (fun '(_, c) => c = [] -> items = []) (ck_sent st)
}.

Definition chunk_measure (st : chunk_state A) : Z :=
  ck_num st + (if ck_first st then 1 else 0) + ck_per st.

(** Why the loop gives up: a message of [n] items is [n] times too large. *)
Definition too_large : Prop :=
  exists flag pre c post, 0 <= flag <= 3 /\ items = pre ++ c ++ post /\ c <> [] /\
    maxMsgSize < size flag c /\ maxMsgSize * Z.of_nat (length c) <= size flag c.

Lemma slice_length (l : list A) s e :
  0 <= s <= e -> e <= Z.of_nat (length l) -> Z.of_nat (length (slice l s e)) = e - s.
Proof. intros. unfold slice. rewrite length_take, length_drop. lia. Qed.

Lemma slice_take (l : list A) s e :
  0 <= s <= e -> take (Z.to_nat s) l ++ slice l s e = take (Z.to_nat e) l.
Proof.
  intros. unfold slice. rewrite take_take_drop. f_equal. lia.
Qed.

Lemma new_per_lt sz n : maxMsgSize < sz -> 0 < n -> 0 <= maxMsgSize / (sz / n + 1) < n.
Proof.
  intros Hsz Hn. assert (0 <= sz / n) by (apply Z.div_pos; unfold maxMsgSize in *; lia).
  split; [apply Z.div_pos; unfold maxMsgSize; lia|].
  apply Z.div_lt_upper_bound; [lia|]. pose proof (Z.mul_succ_div_gt sz n Hn). nia.
Qed.

Lemma new_per_0 sz n : 0 < n -> 0 <= sz -> maxMsgSize / (sz / n + 1) = 0 -> maxMsgSize * n <= sz.
Proof.
  intros Hn Hsz H0. assert (0 <= sz / n) by (apply Z.div_pos; lia).
  apply Z.div_small_iff in H0; [|lia].
  assert (maxMsgSize <= sz / n) by lia. pose proof (Z.mul_div_le sz n Hn). nia.
Qed.


Lemma flags_ok_snoc (sent : list (Z * list A)) f c (last : bool) :
  flags_ok 0 sent ->
  f = Z.lor (if decide (sent = []) then MSG_START else 0) (if last then MSG_END else 0) ->
  flags_ok (if last then length (sent ++ [(f, c)]) else 0) (sent ++ [(f, c)]).
Proof.
  intros Hf -> i f' c' [Hi|[Hge Hi]]%lookup_app_Some.
  - pose proof (lookup_lt_Some _ _ _ Hi) as Hlt. rewrite (Hf _ _ _ Hi), length_app. simpl.
    destruct last; repeat case_decide; first [done|lia].
  - apply list_lookup_singleton_Some in Hi as [Hi [= <- <-]].
    rewrite length_app. simpl. assert (i = length sent) as -> by lia.
    destruct sent as [|x sent], last; simpl; repeat case_decide; first [done|lia].
Qed.

(** The flag and the end of the next message. *)
Definition next_end (st : chunk_state A) : Z * Z :=
  let flag := if ck_start st =? 0 then MSG_START else 0 in
  if ck_num st <=? ck_per st then (Z.lor flag MSG_END, ck_start st + ck_num st)
  else (flag, ck_start st + ck_per st).

Lemma next_end_range st :
  chunk_inv st ->
  0 <= ck_start st <= (next_end st).2 /\ (next_end st).2 <= Z.of_nat (length items) /\
  (next_end st).2 - ck_start st <= ck_per st /\
  (0 < ck_num st -> ck_start st < (next_end st).2).
Proof. intros []. unfold next_end. destruct (Z.leb_spec (ck_num st) (ck_per st)); simpl; lia. Qed.

Lemma next_end_flag st :
  chunk_inv st -> (0 <? ck_num st) || ck_first st = true ->
  (next_end st).1 = Z.lor (if decide (ck_sent st = []) then MSG_START else 0)
                          (if ck_num st + ck_start st - (next_end st).2 =? 0 then MSG_END else 0).
Proof.
  intros [] Hgo. assert ((ck_start st =? 0) = bool_decide (ck_sent st = [])) as Hst.
  { destruct (ck_first st); [destruct ci_first0 as [-> ->]; done|].
    rewrite orb_false_r in Hgo. apply Z.ltb_lt in Hgo. destruct ci_first0 as [Hne Hpos].
    rewrite bool_decide_eq_false_2 by done. apply Z.eqb_neq. specialize (Hpos Hgo). lia. }
  unfold next_end. rewrite Hst. destruct (Z.leb_spec (ck_num st) (ck_per st)); simpl.
  - replace (_ =? 0) with true by (symmetry; apply Z.eqb_eq; lia).
    case_bool_decide; case_decide; done.
  - replace (_ =? 0) with false by (symmetry; apply Z.eqb_neq; lia).
    case_bool_decide; case_decide; done.
Qed.

Lemma next_end_flag_range st : 0 <= (next_end st).1 <= 3.
Proof. unfold next_end. by destruct (_ =? 0), (_ <=? _). Qed.

Lemma chunk_iter_eq st :
  chunk_iter size send items st =
  let chunk := slice items (ck_start st) (next_end st).2 in
  let sz := size (next_end st).1 chunk in
  let n := (next_end st).2 - ck_start st in
  if maxMsgSize <? sz then
    if n =? 0 then Panicked "integer divide by zero"
    else
      let new := maxMsgSize / (sz / n + 1) in
      let new := if new =? ck_per st then new - 1 else new in
      if new =? 0 then Done (inr TooLarge) else Done (inl (set_per new st))
  else if negb (send (length (ck_sent st))) then Done (inr SendFailed)
  else Done (inl {| ck_start := (next_end st).2; ck_num := ck_num st + ck_start st - (next_end st).2;
                    ck_per := ck_per st; ck_first := false;
                    ck_sent := ck_sent st ++ [((next_end st).1, chunk)] |}).
Proof. unfold chunk_iter, next_end. by destruct (ck_num st <=? ck_per st). Qed.

Lemma chunk_send_inv st :
  chunk_inv st -> (0 <? ck_num st) || ck_first st = true ->
  size (next_end st).1 (slice items (ck_start st) (next_end st).2) <= maxMsgSize ->
  chunk_inv
    {| ck_start := (next_end st).2; ck_num := ck_num st + ck_start st - (next_end st).2;
       ck_per := ck_per st; ck_first := false;
       ck_sent := ck_sent st ++ [((next_end st).1, slice items (ck_start st) (next_end st).2)] |}.
Proof.
  intros Hinv Hgo Hsz. pose proof (next_end_range st Hinv) as (Hr1 & Hr2 & Hr3 & Hr4).
  pose proof (next_end_flag st Hinv Hgo) as Hflag. destruct Hinv.
  assert (Hnf : flags_ok 0 (ck_sent st)).
  { destruct (ck_first st); [destruct ci_first0 as [_ ->]; intros i f c; by rewrite lookup_nil|].
    rewrite orb_false_r in Hgo. apply Z.ltb_lt in Hgo.
    by rewrite (proj2 (Z.eqb_neq (ck_num st) 0)) in ci_flags0 by lia. }
  constructor; simpl; try lia.
  - split; [by destruct (ck_sent st)|]. intros. destruct (Z.ltb_spec 0 (ck_num st)); [|lia].
    specialize (Hr4 ltac:(done)). lia.
  - rewrite fmap_app, concat_app, ci_concat0. simpl. rewrite app_nil_r. by apply slice_take.
  - pose proof (flags_ok_snoc (ck_sent st) (next_end st).1
      (slice items (ck_start st) (next_end st).2)
      (ck_num st + ck_start st - (next_end st).2 =? 0) Hnf Hflag) as H.
    by destruct (_ =? 0).
  - apply Forall_app. split; [done|]. by apply Forall_singleton.
  - apply Forall_app. split; [done|]. apply Forall_singleton. intros Hnil.
    pose proof (slice_length items _ _ Hr1 Hr2) as Hl. rewrite Hnil in Hl. simpl in Hl.
    destruct (Z.ltb_spec 0 (ck_num st)) as [Hpos|Hpos]; [specialize (Hr4 Hpos); lia|].
    apply length_zero_iff_nil. destruct (ck_first st); [|done]. destruct ci_first0. lia.
Qed.

(** One pass keeps the invariant and makes progress, or it gives a reason. *)
Lemma chunk_iter_spec st :
  chunk_inv st -> (0 <? ck_num st) || ck_first st = true ->
  match chunk_iter size send items st with
  | Done (inl st') => chunk_inv st' /\ chunk_measure st' < chunk_measure st
  | Done (inr TooLarge) => too_large
  | Done (inr SendFailed) => send (length (ck_sent st)) = false
  | Done (inr AllSent) => False
  | Panicked _ => items = [] /\ maxMsgSize < size (Z.lor MSG_START MSG_END) []
  end.
Proof.
  intros Hinv Hgo. pose proof (next_end_range st Hinv) as (Hr1 & Hr2 & Hr3 & Hr4).
  rewrite chunk_iter_eq. cbv zeta.
  destruct (Z.ltb_spec maxMsgSize (size (next_end st).1 (slice items (ck_start st) (next_end st).2)))
    as [Hbig|Hfit].
  - destruct (Z.eqb_spec ((next_end st).2 - ck_start st) 0) as [Hn|Hn].
    + destruct (Z.ltb_spec 0 (ck_num st)) as [Hpos|Hpos]; [specialize (Hr4 Hpos); lia|].
      destruct Hinv. simpl in Hgo. rewrite Hgo in ci_first0. destruct ci_first0 as [Hs0 _].
      assert (items = []) as Hnil by (apply length_zero_iff_nil; lia).
      split; [done|]. revert Hbig. unfold next_end, slice. rewrite Hnil, drop_nil, take_nil, Hs0.
      by rewrite (proj2 (Z.leb_le (ck_num st) (ck_per st))) by lia.
    + pose proof (new_per_lt _ ((next_end st).2 - ck_start st) Hbig ltac:(lia)) as Hlt.
      rewrite (proj2 (Z.eqb_neq _ (ck_per st))) by lia.
      destruct (Z.eqb_spec (maxMsgSize / (size (next_end st).1
        (slice items (ck_start st) (next_end st).2) / ((next_end st).2 - ck_start st) + 1)) 0)
        as [H0|H0].
      * apply new_per_0 in H0; [|lia|unfold maxMsgSize in Hbig; lia].
        pose proof (slice_length items _ _ Hr1 Hr2) as Hl.
        exists (next_end st).1, (take (Z.to_nat (ck_start st)) items),
          (slice items (ck_start st) (next_end st).2), (drop (Z.to_nat (next_end st).2) items).
        split; [by apply next_end_flag_range|].
        rewrite app_assoc, slice_take, take_drop by done. split; [done|].
        split; [by intros Hnil; rewrite Hnil in Hl; simpl in Hl; lia|]. split; [done|].
        rewrite Hl. lia.
      * split; [|unfold chunk_measure; simpl; lia]. destruct Hinv; constructor; simpl; try done; lia.
  - destruct (send _) eqn:Hsend; simpl; [|done]. split; [by apply chunk_send_inv|].
    unfold chunk_measure. simpl.
    destruct (Z.ltb_spec 0 (ck_num st)) as [Hpos|Hpos]; [specialize (Hr4 Hpos)|];
      destruct (ck_first st); simpl in Hgo; try done; lia.
Qed.

Lemma chunk_init_inv per : 1 <= per -> chunk_inv (chunk_init items per).
Proof.
  intros Hper. by constructor; simpl; try lia.
Qed.

(** What the loop returns, from a state that satisfies the invariant. *)
Definition chunk_post (r : option (outcome (send_result * list (Z * list A)))) : Prop :=
  match r with
  | None => False
  | Some (Panicked _) => items = [] /\ maxMsgSize < size (Z.lor MSG_START MSG_END) []
  | Some (Done (res, sent)) =>
      Forall (fun '(f, c) => size f c <= maxMsgSize) sent /\
      Forall (fun '(_, c) => c = [] -> items = []) sent /\
      match res with
      | AllSent => concat sent.*2 = items /\ sent <> [] /\ flags_ok (length sent) sent
      | TooLarge => too_large /\ concat sent.*2 `prefix_of` items /\ flags_ok 0 sent
      | SendFailed => send (length sent) = false /\ concat sent.*2 `prefix_of` items /\ flags_ok 0 sent
      end
  end.

Lemma chunk_inv_partial st :
  chunk_inv st -> (0 <? ck_num st) || ck_first st = true ->
  concat (ck_sent st).*2 `prefix_of` items /\ flags_ok 0 (ck_sent st).
Proof.
  intros [] Hgo. split.
  - rewrite ci_concat0. exists (drop (Z.to_nat (ck_start st)) items). by rewrite take_drop.
  - destruct (ck_first st).
    + destruct ci_first0 as [_ ->]. intros i f c. by rewrite lookup_nil.
    + rewrite orb_false_r in Hgo. apply Z.ltb_lt in Hgo.
      by rewrite (proj2 (Z.eqb_neq (ck_num st) 0)) in ci_flags0 by lia.
Qed.

Lemma chunk_loop_spec fuel st :
  chunk_inv st -> chunk_measure st < Z.of_nat fuel ->
  chunk_post (chunk_loop size send items fuel st).
Proof.
  revert st. induction fuel as [|fuel IH]; intros st Hinv Hm; simpl.
  { unfold chunk_measure in Hm. destruct Hinv. destruct (ck_first st); lia. }
  destruct (_ || _) eqn:Hgo.
  - pose proof (chunk_iter_spec st Hinv Hgo) as Hs.
    pose proof (chunk_inv_partial st Hinv Hgo) as Hp.
    destruct (chunk_iter _ _ _ st) as [[st'|[]]|why]; simpl; try done.
    + apply IH; [by apply Hs|]. destruct Hs. lia.
    + destruct Hinv. done.
    + destruct Hinv. done.
  - apply orb_false_iff in Hgo as [Hn%Z.ltb_ge Hfirst]. destruct Hinv. rewrite Hfirst in ci_first0.
    assert (ck_num st = 0) as Hz by lia. rewrite Hz in ci_flags0. simpl in ci_flags0.
    split; [done|]. split; [done|]. split; [|by destruct ci_first0].
    rewrite ci_concat0, take_ge; [done|lia].
Qed.

Lemma send_chunks_spec per : 1 <= per -> chunk_post (send_chunks size send items per).
Proof.
  intros Hper. apply chunk_loop_spec; [by apply chunk_init_inv|].
  unfold chunk_measure, chunk_fuel. simpl. lia.
Qed.

End chunk_proofs.

(** ** Messages whose length is that of their items joined by commas *)

Lemma string_length_app s1 s2 : String.length (s1 +:+ s2) = (String.length s1 + String.length s2)%nat.
Proof. induction s1 as [|c s1 IH]; simpl; [done|]. by rewrite IH. Qed.

Definition text_len (v : json) : Z := Z.of_nat (String.length (json_text v)).

Definition sum_len (l : list json) : Z := foldr (fun v n => text_len v + n) 0 l.

Lemma text_len_JArr l :
  text_len (JArr l) = 2 + sum_len l + Z.max 0 (Z.of_nat (length l) - 1).
Proof.
  unfold text_len at 1. cbn [json_text]. rewrite !string_length_app, !Nat2Z.inj_add.
  assert (Z.of_nat (String.length (Join (List.map json_text l) ",")) =
          sum_len l + Z.max 0 (Z.of_nat (length l) - 1)) as ->; [|simpl; lia].
  induction l as [|v [|v' l] IH]; [done| |].
  - simpl. unfold text_len. lia.
  - change (Join (List.map json_text (v :: v' :: l)) ",")
      with (json_text v +:+ "," +:+ Join (List.map json_text (v' :: l)) ",").
    rewrite !string_length_app, !Nat2Z.inj_add, IH.
    change (sum_len (v :: v' :: l)) with (text_len v + sum_len (v' :: l)).
    change (text_len v) with (Z.of_nat (String.length (json_text v))). simpl String.length. simpl length. lia.
Qed.

Section delivery.
Context {A : Type} (size : Z -> list A -> Z) (enc : A -> option json) (send : nat -> bool).
Context (items : list A) (base : Z).
Context (base_pos : 2 <= base).
Context (size_eq : forall flag c js, 0 <= flag <= 3 -> c <> [] -> mapM enc c = Some js ->
                     size flag c = base + text_len (JArr js) - 2).

Lemma size_single flag x v : 0 <= flag <= 3 -> enc x = Some v -> size flag [x] = base + text_len v.
Proof.
  intros Hf Hv. rewrite (size_eq flag [x] [v]); [|done|done|by simpl; rewrite Hv].
  rewrite text_len_JArr. simpl. lia.
Qed.

(** If each item fits alone, no message is too large for its items. *)
Lemma not_too_large :
  Forall (fun x => is_Some (enc x) /\ size 0 [x] <= maxMsgSize) items -> ~ too_large size items.
Proof.
  intros Hall (flag & pre & c & post & Hflag & -> & Hne & Hbig & Hn).
  apply Forall_app in Hall as [_ [Hc _]%Forall_app].
  assert (exists js, mapM enc c = Some js /\
            sum_len js <= Z.of_nat (length c) * (maxMsgSize - base) /\ length js = length c)
    as (js & Hjs & Hsum & Hlen).
  { clear Hne Hbig Hn. induction Hc as [|x c [[v Hv] Hx] Hc (js & Hjs & Hsum & Hlen)]; [by exists []|].
    exists (v :: js). simpl. rewrite Hv. simpl. rewrite Hjs. split; [done|].
    rewrite (size_single 0 x v) in Hx by (done || lia). simpl. split; [lia|by rewrite Hlen]. }
  rewrite (size_eq flag c js Hflag Hne Hjs), text_len_JArr, Hlen in Hbig, Hn.
  assert (1 <= length c)%nat by (destruct c; simpl; [done|lia]).
  destruct (decide (length c = 1%nat)) as [H1|H1]; [rewrite H1 in *; lia|nia].
Qed.

Lemma send_chunks_delivers per :
  1 <= per -> (forall n, send n = true) ->
  (items = [] -> size (Z.lor MSG_START MSG_END) [] <= maxMsgSize) ->
  Forall (fun x => is_Some (enc x) /\ size 0 [x] <= maxMsgSize) items ->
  exists sent, send_chunks size send items per = Some (Done (AllSent, sent)) /\
    concat sent.*2 = items /\ flags_ok (length sent) sent.
Proof.
  intros Hper Hsend H0 Hall. pose proof (send_chunks_spec size send items per Hper) as Hp.
  apply not_too_large in Hall.
  destruct (send_chunks _ _ _ _) as [[[[] sent]|why]|]; simpl in Hp; [|tauto| | |done].
  - destruct Hp as (_ & _ & ? & _ & ?). eauto.
  - destruct Hp as (_ & _ & Hs & _). by rewrite Hsend in Hs.
  - destruct Hp as [Hnil Hb]. specialize (H0 Hnil). lia.
Qed.

End delivery.

(** ** The policy of a workload *)

Definition policy_size (policy : DPWorkloadIPPolicy) (cmd flag : Z) (rules : list DPPolicyIPRule) : Z :=
  msg_len (DPPolicyCfg_json policy cmd flag rules).

Lemma flag_digit flag : 0 <= flag <= 3 -> String.length (fmt_int flag) = 1%nat.
Proof.
  intros H. assert (flag = 0 \/ flag = 1 \/ flag = 2 \/ flag = 3) as [-> |[-> |[-> | ->]]] by lia;
    vm_compute; reflexivity.
Qed.

(** The length of a policy message without its rules. *)
Definition policy_base (policy : DPWorkloadIPPolicy) (cmd : Z) : Z :=
  policy_size policy cmd 0 [] - 2.

Lemma policy_size_eq policy cmd flag c js :
  0 <= flag <= 3 -> c <> [] -> mapM DPPolicyIPRule_json c = Some js ->
  policy_size policy cmd flag c = policy_base policy cmd + text_len (JArr js) - 2.
Proof.
  intros Hf Hne Hjs. unfold policy_base, policy_size, DPPolicyCfg_json, msg_len.
  destruct c as [|x c]; [done|]. unfold json_slice_opt. rewrite Hjs.
  cbn [mbind option_bind fmap option_fmap option_map Marshal json_text List.map Join String.concat].
  unfold text_len. cbn [json_text]. rewrite !string_length_app, (flag_digit flag Hf). simpl. lia.
Qed.

(** Sending a policy, the policy addresses, the internal or the special
    subnets, or the DLP rules, ends, whatever is sent and whichever writes
    fail: each pass sends at least one rule or lowers the number of rules per
    message. *)
Theorem DPCtrl_messages_end send policy cmd addrs specs rules macs delmacs dir :
  DPCtrlConfigPolicy send policy cmd <> None /\
  DPCtrlConfigPolicyAddr send addrs <> None /\
  DPCtrlConfigInternalSubnet send addrs <> None /\
  DPCtrlConfigSpecialIPSubnet send specs <> None /\
  DPCtrlBldDlp send rules macs delmacs dir <> None.
Proof.
  assert (Hend : forall A size (items : list A) per, 1 <= per -> send_chunks size send items per <> None).
  { intros A size items per Hper Hn. pose proof (send_chunks_spec size send items per Hper) as Hp.
    by rewrite Hn in Hp. }
  repeat split; by apply Hend.
Qed.

(** C9: the messages of a policy are never larger than the data plane
    accepts; they carry the first rules in their order, all of them exactly
    when the function returns 0; the first message, and only it, is flagged
    as the start, and the last, and only it, as the end, so that a policy that
    is not sent in full is not ended. *)
Theorem DPCtrlConfigPolicy_messages send policy cmd res sent :
  DPCtrlConfigPolicy send policy cmd = Some (Done (res, sent)) ->
  Forall (fun '(flag, rules) => policy_size policy cmd flag rules <= maxMsgSize) sent /\
  (if send_code res =? 0
   then concat sent.*2 = dw_IPRules policy /\ sent <> [] /\ flags_ok (length sent) sent
   else concat sent.*2 `prefix_of` dw_IPRules policy /\ flags_ok 0 sent).
Proof.
  intros Hr. pose proof (send_chunks_spec (policy_size policy cmd) send (dw_IPRules policy) 40
    ltac:(lia)) as Hp. change (send_chunks _ _ _ _) with (DPCtrlConfigPolicy send policy cmd) in Hp.
  rewrite Hr in Hp. destruct Hp as (Hs & _ & Hres). split; [done|].
  destruct res; simpl; [|destruct Hres as (_ & ? & ?); done..]. done.
Qed.

(** If each rule fits in a message of its own and no write fails, the
    policy is delivered: the function returns 0 after sending every rule,
    however many there are, and however large they are together. *)
Theorem DPCtrlConfigPolicy_delivers send policy cmd :
  (forall n, send n = true) ->
  (dw_IPRules policy = [] -> policy_size policy cmd 3 [] <= maxMsgSize) ->
  Forall (fun r => is_Some (DPPolicyIPRule_json r) /\ policy_size policy cmd 0 [r] <= maxMsgSize)
    (dw_IPRules policy) ->
  exists sent, DPCtrlConfigPolicy send policy cmd = Some (Done (AllSent, sent)) /\
    concat sent.*2 = dw_IPRules policy /\ flags_ok (length sent) sent.
Proof.
  intros Hsend H0 Hall.
  apply (send_chunks_delivers (policy_size policy cmd) DPPolicyIPRule_json send (dw_IPRules policy)
    (policy_base policy cmd)); [|apply policy_size_eq|lia|done|done|done].
  unfold policy_base, policy_size, DPPolicyCfg_json, msg_len.
  cbn [json_slice_opt mbind option_bind Marshal json_text List.map Join String.concat].
  rewrite !string_length_app. simpl. lia.
Qed.

(** ** Subnets always fit *)

(** Text that JSON does not escape. *)
Fixpoint plain (s : string) : bool :=
  match s with "" => true | String c s => byte_in 39 59 c && plain s end.

Lemma plain_app s1 s2 : plain (s1 +:+ s2) = plain s1 && plain s2.
Proof. induction s1 as [|c s1 IH]; simpl; [done|]. by rewrite IH, andb_assoc. Qed.

Lemma json_byte_plain c : byte_in 39 59 c = true -> json_byte c = String c "" /\ (byte_val c <? 128) = true.
Proof. destruct c as [[] [] [] [] [] [] [] []]; vm_compute; intros H; by (discriminate H || split). Qed.

Lemma json_escape_plain s : plain s = true -> json_escape s = s.
Proof.
  induction s as [|c s IH]; [done|]. cbn [plain json_escape].
  intros [Hc Hs]%andb_true_iff. destruct (json_byte_plain c Hc) as [-> ->]. by rewrite IH.
Qed.

Lemma byte_text b : in_width 8 b -> plain (fmt_int b) = true /\ (String.length (fmt_int b) <= 3)%nat.
Proof.
  intros Hb. assert (forallb (fun b => plain (fmt_int b) && (String.length (fmt_int b) <=? 3)%nat)
    (seqZ 0 256) = true) as Hall by (vm_compute; reflexivity).
  rewrite forallb_forall in Hall.
  assert (In b (seqZ 0 256)) as Hin by (apply list_elem_of_In, elem_of_seqZ; unfold in_width in Hb; lia).
  apply Hall, andb_true_iff in Hin as [? ?%Nat.leb_le]. done.
Qed.

Lemma IP_text4 ip p4 :
  ip_wf ip -> To4 ip = Some p4 ->
  exists v, json_IP ip = Some v /\ text_len v <= 17.
Proof.
  intros Hw Ht. destruct (To4_wf _ _ Hw Ht) as [Hp Hl].
  assert (length ip = 4%nat \/ length ip = 16%nat) as Hlen.
  { unfold To4 in Ht. case_decide; [by left|]. case_decide as H16; [right; apply H16|done]. }
  exists (JStr (string4 p4)). unfold json_IP, IP_String. rewrite Ht.
  split; [repeat (case_decide; try lia); done|].
  destruct p4 as [|a [|b [|c [|d [|]]]]]; try done.
  do 4 (apply Forall_cons in Hp as [?%byte_text Hp]).
  unfold text_len. cbn [json_text]. unfold json_string.
  rewrite json_escape_plain.
  - change (string4 [a; b; c; d])
      with (fmt_int a +:+ "." +:+ fmt_int b +:+ "." +:+ fmt_int c +:+ "." +:+ fmt_int d).
    rewrite !string_length_app. simpl. lia.
  - change (string4 [a; b; c; d])
      with (fmt_int a +:+ "." +:+ fmt_int b +:+ "." +:+ fmt_int c +:+ "." +:+ fmt_int d).
    rewrite !plain_app. repeat match goal with H : _ /\ _ |- _ => destruct H as [-> _] end. done.
Qed.

(** The subnets a map holds: addresses and masks of bytes, and IPv4 masks. *)
Definition subnet_bytes (n : IPNet) : Prop :=
  ip_wf (ipnet_IP n) /\ ip_wf (ipnet_Mask n) /\ length (ipnet_Mask n) = 4%nat.

Lemma DPSubnet_text s p4 :
  ip_wf (ds_IP s) -> To4 (ds_IP s) = Some p4 -> ip_wf (ds_Mask s) -> length (ds_Mask s) = 4%nat ->
  exists v, DPSubnet_json s = Some v /\ text_len v <= 60.
Proof.
  intros Hw Ht Hm Hl. destruct (IP_text4 _ _ Hw Ht) as (ip & Hip & Hlip).
  destruct (IP_text4 (ds_Mask s) (ds_Mask s) Hm) as (m & Hmk & Hlm).
  { unfold To4. by rewrite decide_True. }
  unfold DPSubnet_json. rewrite Hip, Hmk. eexists. split; [done|].
  unfold text_len in *. cbn [json_text List.map Join String.concat].
  rewrite !string_length_app. simpl. lia.
Qed.

Lemma subnet_size_eq {A} (enc : A -> option json) key flag c js :
  0 <= flag <= 3 -> c <> [] -> mapM enc c = Some js ->
  msg_len (subnet_cfg_json enc key flag c)
  = msg_len (subnet_cfg_json enc key 0 []) + text_len (JArr js) - 2.
Proof.
  intros Hf _ Hjs. unfold subnet_cfg_json, json_made_opt, msg_len. rewrite Hjs.
  cbn [mapM mret option_ret mbind option_bind fmap option_fmap option_map Marshal json_text List.map
       Join String.concat].
  unfold text_len. cbn [json_text]. rewrite !string_length_app, (flag_digit flag Hf). simpl. lia.
Qed.

(** Whatever the policy addresses are (IPv4 addresses with their masks
    among them), if no write fails all of them are sent: no number of
    addresses is too large for the splitting. *)
Theorem DPCtrlConfigPolicyAddr_delivers send ord :
  (forall n, send n = true) -> Forall (fun a => subnet_bytes (cs_Subnet a)) ord ->
  exists sent, DPCtrlConfigPolicyAddr send ord = Some (Done (AllSent, sent)) /\
    concat sent.*2 = data_subnets ord /\ flags_ok (length sent) sent.
Proof.
  intros Hsend Hord. set (key := "ctrl_cfg_policy_addr").
  assert (Hbase : msg_len (subnet_cfg_json DPSubnet_json key 0 []) = 52) by (vm_compute; reflexivity).
  apply (send_chunks_delivers (fun flag l => msg_len (subnet_cfg_json DPSubnet_json key flag l))
    DPSubnet_json send (data_subnets ord) (msg_len (subnet_cfg_json DPSubnet_json key 0 []))).
  - rewrite Hbase. lia.
  - intros flag c js. apply subnet_size_eq.
  - lia.
  - done.
  - intros _. vm_compute. discriminate.
  - apply Forall_fmap, Forall_forall. intros a [Hin Hv4]%list_elem_of_In%filter_In.
    apply bool_decide_eq_true in Hv4 as [p4 Hp4]. rewrite Forall_forall in Hord.
    destruct (Hord a) as (Hw & Hm & Hl); [by apply list_elem_of_In|].
    destruct (DPSubnet_text {| ds_IP := ipnet_IP (cs_Subnet a); ds_Mask := ipnet_Mask (cs_Subnet a) |}
      p4) as (v & Hv & Hlen); try done.
    simpl. split; [by exists v|].
    rewrite (subnet_size_eq DPSubnet_json key 0 _ [v]), Hbase, text_len_JArr;
      [|lia|done|by simpl; rewrite Hv].
    simpl. unfold maxMsgSize. lia.
Qed.

(** ** Names *)

Lemma delete_fqdn_loop_spec send names fuel start sent :
  0 <= start -> Z.max 0 (Z.of_nat (length names) - start) < Z.of_nat fuel ->
  concat sent = take (Z.to_nat start) names -> Forall (fun c => length c <= 20)%nat sent ->
  match delete_fqdn_loop send names fuel start sent with
  | Some (AllSent, sent') => concat sent' = names /\ Forall (fun c => length c <= 20)%nat sent'
  | Some (SendFailed, sent') => send (length sent') = false /\ concat sent' `prefix_of` names
  | _ => False
  end.
Proof.
  revert start sent. induction fuel as [|fuel IH]; intros start sent Hs Hf Hc Hl; simpl.
  { lia. }
  destruct (Z.ltb_spec start (Z.of_nat (length names))) as [Hlt|Hge].
  2:{ split; [|done]. by rewrite Hc, take_ge by lia. }
  destruct (send (length sent)) eqn:Hsend; simpl.
  2:{ split; [done|]. rewrite Hc. exists (drop (Z.to_nat start) names). by rewrite take_drop. }
  apply IH; [lia|lia| |].
  - rewrite concat_app, Hc. simpl. rewrite app_nil_r.
    destruct (Z.ltb_spec (start + 20) (Z.of_nat (length names))).
    + apply slice_take. lia.
    + rewrite slice_take by lia. rewrite !take_ge by lia. done.
  - apply Forall_app. split; [done|]. apply Forall_singleton.
    destruct (Z.ltb_spec (start + 20) (Z.of_nat (length names)));
      unfold slice; rewrite length_take, length_drop; lia.
Qed.

(** Deleting names ends; the messages hold at most twenty names each, and
    together all of them in their order unless a write fails. *)
Theorem DPCtrlDeleteFqdn_all send names :
  (forall n, send n = true) ->
  exists sent, DPCtrlDeleteFqdn send names = Some (AllSent, sent) /\ concat sent = names /\
    Forall (fun c => length c <= 20)%nat sent.
Proof.
  intros Hsend. pose proof (delete_fqdn_loop_spec send names (S (length names)) 0 []) as H.
  specialize (H ltac:(lia) ltac:(lia) eq_refl ltac:(constructor)). unfold DPCtrlDeleteFqdn.
  destruct (delete_fqdn_loop _ _ _ _ _) as [[[] sent]|]; [eauto|done| |done].
  rewrite Hsend in H. by destruct H.
Qed.

(** ** DLP rules of a workload *)

(** Two rules or more are left, all of them DLP rules, one may be sent per
    message, and a message without rules fits. *)
Definition dlp_stuck (w : DPWorkloadDlpRule) (st : dlp_state) : Prop :=
  dc_per st = 1 /\ 2 <= dc_num st /\ dc_num1 st = 0 /\
  forall flag, 0 <= flag <= 1 -> msg_len (Some (DPDlpCfg_json w flag [] [])) <= maxMsgSize.

Lemma slice_empty {A} (l : list A) s : slice l s s = [].
Proof. unfold slice. by rewrite Z.sub_diag. Qed.

Lemma dlp_stuck_iter send w st :
  (forall n, send n = true) -> dlp_stuck w st ->
  exists st', dlp_iter send w st = Done (inl st') /\ dlp_stuck w st' /\
    dc_num st' = dc_num st /\ exists flag, dc_sent st' = dc_sent st ++ [(flag, [], [])].
Proof.
  intros Hsend (Hper & Hnum & Hnum1 & Hfit).
  assert (exists flag, 0 <= flag <= 1 /\ dlp_ends st = (flag, dc_start st, dc_start1 st))
    as (flag & Hfl & He).
  { exists (if dc_start st =? 0 then MSG_START else 0). split; [by destruct (_ =? 0)|].
    unfold dlp_ends. rewrite Hper, Hnum1, !Z.add_0_r.
    rewrite (proj2 (Z.leb_gt (dc_num st) 1)) by lia. change (1 / 2) with 0. cbv zeta.
    rewrite (proj2 (Z.leb_gt (dc_num st) 0)) by lia. simpl. by rewrite ?Z.add_0_r. }
  unfold dlp_iter. rewrite He, !slice_empty. cbv zeta.
  change (rid_setting <$> []) with (@nil DPDlpRidSetting).
  rewrite (proj2 (Z.ltb_ge _ _) (Hfit flag Hfl)), Hsend. cbn [negb].
  eexists. split; [reflexivity|]. unfold dlp_stuck. cbn [dc_per dc_num dc_num1 dc_sent].
  replace (dc_num st + dc_start st - dc_start st) with (dc_num st) by lia.
  replace (dc_num1 st + dc_start1 st - dc_start1 st) with (dc_num1 st) by lia.
  split; [done|]. split; [done|]. by exists flag.
Qed.

(** Once the number of rules per message has dropped to one while two or
    more DLP rules and no WAF rule are left, the loop sends messages without
    rules for ever: half of one is zero. *)
Theorem dlp_livelock send w fuel st :
  (forall n, send n = true) -> dlp_stuck w st ->
  exists st', dlp_loop send w fuel st = inr st' /\ dc_num st' = dc_num st /\
    length (dc_sent st') = (length (dc_sent st) + fuel)%nat.
Proof.
  intros Hsend. revert st. induction fuel as [|fuel IH]; intros st Hst; simpl.
  - exists st. destruct Hst as (_ & Hn & Hn1 & _).
    rewrite (proj2 (Z.ltb_lt 0 _)) by lia. split; [done|]. split; [done|lia].
  - destruct (dlp_stuck_iter send w st Hsend Hst) as (st1 & Hi & Hst1 & Hn & flag & Hsent).
    destruct (IH st1 Hst1) as (st' & Hl & Hn' & Hlen). exists st'. rewrite Hi, Hl.
    destruct Hst as (_ & Hn2 & Hn1 & _). rewrite (proj2 (Z.ltb_lt 0 _)) by lia.
    split; [done|]. split; [by rewrite Hn', Hn|]. rewrite Hlen, Hsent, length_app. simpl. lia.
Qed.

(** Only WAF rules are left, from the beginning. *)
Definition waf_only (st : dlp_state) : Prop :=
  dc_start st = 0 /\ dc_num st = 0 /\ 0 <= dc_num1 st /\ 1 <= dc_per st /\
  Forall (fun '(flag, _, _) => Z.testbit flag 0 = true) (dc_sent st).

Lemma waf_only_ends st :
  waf_only st ->
  exists flag n, dlp_ends st = (flag, 0, dc_start1 st + n) /\ Z.testbit flag 0 = true /\
    0 <= n <= dc_num1 st.
Proof.
  intros (Hs & Hn & Hn1 & Hp & _). unfold dlp_ends. rewrite Hs, Hn.
  assert (0 <= dc_per st / 2) by (apply Z.div_pos; lia).
  destruct (Z.leb_spec (0 + dc_num1 st) (dc_per st)); simpl; [by eauto with lia|].
  rewrite (proj2 (Z.leb_le 0 _)) by done.
  destruct (Z.ltb_spec (dc_per st - 0) (dc_num1 st)); eexists _, _; split_and!; try done; lia.
Qed.

Lemma waf_only_iter send w st st' :
  waf_only st -> dlp_iter send w st = Done (inl st') -> waf_only st'.
Proof.
  intros Hst. destruct (waf_only_ends st Hst) as (flag & n & He & Hf & Hn).
  destruct Hst as (Hs & Hnum & Hn1 & Hp & Hsent). unfold dlp_iter. rewrite He, Hs. cbv zeta.
  destruct (Z.ltb_spec maxMsgSize (msg_len (Some (DPDlpCfg_json w flag
    (rid_setting <$> slice (wd_DlpRuleNames w) 0 0)
    (rid_setting <$> slice (wd_WafRuleNames w) (dc_start1 st) (dc_start1 st + n)))))) as [Hbig|_].
  - destruct (Z.eqb_spec (0 - 0 + (dc_start1 st + n - dc_start1 st)) 0) as [|Hne]; [done|].
    pose proof (new_per_lt _ (0 - 0 + (dc_start1 st + n - dc_start1 st)) Hbig ltac:(lia)) as Hlt.
    revert Hlt. generalize (maxMsgSize / (msg_len (Some (DPDlpCfg_json w flag
      (rid_setting <$> slice (wd_DlpRuleNames w) 0 0)
      (rid_setting <$> slice (wd_WafRuleNames w) (dc_start1 st) (dc_start1 st + n))))
      / (0 - 0 + (dc_start1 st + n - dc_start1 st)) + 1)). intros new Hlt.
    destruct (Z.eqb_spec new (dc_per st)).
    + destruct (Z.eqb_spec (new - 1) 0); [by destruct (_ && _)|]. intros [= <-].
      unfold waf_only; simpl; split_and!; try done; lia.
    + destruct (Z.eqb_spec new 0); [by destruct (_ && _)|]. intros [= <-].
      unfold waf_only; simpl; split_and!; try done; lia.
  - destruct (send _); simpl; [|done]. intros [= <-]. unfold waf_only; simpl.
    split_and!; try done; try lia. apply Forall_app. split; [done|]. by apply Forall_singleton.
Qed.

(** When a workload has WAF rules only, every message of its
    configuration is flagged as the start, the second and later ones too: the
    flag looks at the position among the DLP rules alone. *)
Theorem dlp_start_repeated fuel send w sent :
  wd_DlpRuleNames w = [] ->
  DPCtrlConfigDlp fuel send w = inl (Done (AllSent, sent)) ->
  Forall (fun '(flag, _, _) => Z.testbit flag 0 = true) sent.
Proof.
  intros Hnil. unfold DPCtrlConfigDlp.
  assert (H0 : waf_only (dlp_init w)) by (unfold waf_only; simpl; rewrite Hnil; split_and!; done || lia).
  revert H0. generalize (dlp_init w) as st.
  induction fuel as [|fuel IH]; intros st Hst; pose proof Hst as (_ & _ & _ & _ & Hf); simpl.
  { destruct (_ || _); [done|]. by intros [= <-]. }
  destruct (_ || _); [|by intros [= <-]].
  destruct (dlp_iter send w st) as [[st'|r]|why] eqn:Hi; [|intros [= ? ?]; by subst|done].
  by eapply IH, waf_only_iter.
Qed.

(** ** Witnesses *)

Definition ex_rule (i : Z) : DPPolicyIPRule :=
  {| ir_ID := 10000 + i; ir_SrcIP := [10; 0; 0; 1]; ir_DstIP := [10; 0; 1; i]; ir_SrcIPR := [];
     ir_DstIPR := []; ir_Port := 80; ir_PortR := 80; ir_IPProto := 6;
     ir_Action := DP_POLICY_ACTION_ALLOW; ir_Ingress := false; ir_Fqdn := "registry.example.com"; ir_Vhost := false;
     ir_Apps := [{| da_App := 1001; da_Action := DP_POLICY_ACTION_ALLOW; da_RuleID := 10000 + i |};
                 {| da_App := 0; da_Action := DP_POLICY_ACTION_DENY; da_RuleID := 0 |}] |}.

(** A hundred rules with applications: forty do not fit in a message. *)
Definition ex_policy : DPWorkloadIPPolicy :=
  {| dw_WlID := "wl"; dw_Mode := PolicyModeEnforce; dw_DefAction := DP_POLICY_ACTION_DENY;
     dw_ApplyDir := 3; dw_WorkloadMac := ["02:42:ac:11:00:02"]; dw_IPRules := ex_rule <$> seqZ 0 100 |}.

Definition sent_sizes {A} (r : option (outcome (send_result * list (Z * list A)))) : list (Z * nat) :=
  match r with
  | Some (Done (_, sent)) => (fun '(f, c) => (f, length c)) <$> sent
  | _ => []
  end.

Lemma DPCtrlConfigPolicy_messages_witness :
  exists sent, DPCtrlConfigPolicy (fun _ => true) ex_policy 1 = Some (Done (AllSent, sent)) /\
    Forall (fun '(flag, rules) => policy_size ex_policy 1 flag rules <= maxMsgSize) sent /\
    concat sent.*2 = dw_IPRules ex_policy /\
    sent_sizes (DPCtrlConfigPolicy (fun _ => true) ex_policy 1) = [(1, 38%nat); (0, 38%nat); (2, 24%nat)].
Proof.
  destruct (DPCtrlConfigPolicy (fun _ => true) ex_policy 1) as [[[res sent]|why]|] eqn:Hr;
    [|vm_compute in Hr; discriminate Hr|vm_compute in Hr; discriminate Hr].
  pose proof (DPCtrlConfigPolicy_messages (fun _ => true) ex_policy 1 res sent Hr) as [Hs H].
  assert (res = AllSent) as -> by (vm_compute in Hr; injection Hr as <- _; reflexivity).
  exists sent. split; [reflexivity|]. split; [exact Hs|]. split; [exact (proj1 H)|].
  rewrite <-Hr. vm_compute. reflexivity.
Defined.

Lemma DPCtrlConfigPolicy_delivers_witness :
  exists sent, DPCtrlConfigPolicy (fun _ => true) ex_policy 1 = Some (Done (AllSent, sent)) /\
    concat sent.*2 = dw_IPRules ex_policy /\ flags_ok (length sent) sent.
Proof.
  apply (DPCtrlConfigPolicy_delivers (fun _ => true) ex_policy 1).
  - reflexivity.
  - intros H. vm_compute in H. discriminate H.
  - assert (forallb (fun r => bool_decide (is_Some (DPPolicyIPRule_json r)) &&
      (policy_size ex_policy 1 0 [r] <=? maxMsgSize)) (dw_IPRules ex_policy) = true) as Hall
      by (vm_compute; reflexivity).
    rewrite forallb_forall in Hall. apply Forall_forall. intros r Hr%list_elem_of_In%Hall.
    apply andb_true_iff in Hr as [H1%bool_decide_eq_true H2%Z.leb_le]. exact (conj H1 H2).
Defined.

Definition ex_addrs : list CLUSSubnet :=
  (fun i => {| cs_Subnet := {| ipnet_IP := [10; 0; i; 1]; ipnet_Mask := [255; 255; 255; 255] |};
               cs_Scope := "" |}) <$> seqZ 0 200.

Lemma DPCtrlConfigPolicyAddr_delivers_witness :
  (exists sent, DPCtrlConfigPolicyAddr (fun _ => true) ex_addrs = Some (Done (AllSent, sent)) /\
     concat sent.*2 = data_subnets ex_addrs /\ flags_ok (length sent) sent) /\
  (1 < length (sent_sizes (DPCtrlConfigPolicyAddr (fun _ => true) ex_addrs)))%nat.
Proof.
  split; [|apply Nat.ltb_lt; vm_compute; reflexivity].
  apply (DPCtrlConfigPolicyAddr_delivers (fun _ => true) ex_addrs); [reflexivity|].
  apply Forall_fmap, Forall_forall. intros i Hi%elem_of_seqZ. simpl.
  split; [|split; [|reflexivity]]; repeat (apply Forall_cons; split); try apply Forall_nil;
    unfold in_width; lia.
Defined.

Lemma DPCtrlDeleteFqdn_all_witness :
  exists sent, DPCtrlDeleteFqdn (fun _ => true) (fmt_int <$> seqZ 0 45) = Some (AllSent, sent) /\
    concat sent = fmt_int <$> seqZ 0 45 /\ Forall (fun c => length c <= 20)%nat sent.
Proof. apply (DPCtrlDeleteFqdn_all (fun _ => true) (fmt_int <$> seqZ 0 45)). reflexivity. Defined.

(** Two DLP rules, and the ids of the policies that use them. *)
Definition ex_dlp : DPWorkloadDlpRule :=
  {| wd_WlID := "wl"; wd_Mode := PolicyModeEnforce; wd_DefAction := 0; wd_ApplyDir := 3;
     wd_WorkloadMac := ["02:42:ac:11:00:02"];
     wd_DlpRuleNames := (fun i => {| dl_Name := "r"; dl_ID := i; dl_Action := 6 |}) <$> [1; 2];
     wd_WafRuleNames := []; wd_PolicyRuleIds := seqZ 10000 1322; wd_PolWafRuleIds := [];
     wd_RuleType := "inside"; wd_WafRuleType := "" |}.

(** The state after the first retry. *)
Definition ex_dlp_state : dlp_state :=
  match DPCtrlConfigDlp 1 (fun _ => true) ex_dlp with inr st => st | inl _ => dlp_init ex_dlp end.

Lemma dlp_livelock_witness :
  (forall fuel, exists st', DPCtrlConfigDlp (S fuel) (fun _ => true) ex_dlp = inr st' /\
     dc_num st' = 2 /\ length (dc_sent st') = fuel) /\
  msg_len (Some (DPDlpCfg_json ex_dlp 3 [{| rs_ID := 1; rs_Action := 6 |}] [])) <= maxMsgSize.
Proof.
  split; [|vm_compute; discriminate]. intros fuel.
  assert (dlp_iter (fun _ => true) ex_dlp (dlp_init ex_dlp) = Done (inl ex_dlp_state)) as Hi
    by (vm_compute; reflexivity).
  destruct (dlp_livelock (fun _ => true) ex_dlp fuel ex_dlp_state) as (st' & Hl & Hn & Hs).
  - reflexivity.
  - split; [vm_compute; reflexivity|]. split; [vm_compute; discriminate|].
    split; [vm_compute; reflexivity|]. intros flag Hf.
    assert (flag = 0 \/ flag = 1) as [-> | ->] by lia; vm_compute; discriminate.
  - exists st'. split; [|split].
    + unfold DPCtrlConfigDlp. cbn [dlp_loop]. rewrite Hi, Hl. reflexivity.
    + rewrite Hn. vm_compute. reflexivity.
    + rewrite Hs. reflexivity.
Defined.

Definition ex_waf : DPWorkloadDlpRule :=
  {| wd_WlID := "wl"; wd_Mode := PolicyModeEnforce; wd_DefAction := 0; wd_ApplyDir := 3;
     wd_WorkloadMac := ["02:42:ac:11:00:02"]; wd_DlpRuleNames := [];
     wd_WafRuleNames := (fun i => {| dl_Name := "r"; dl_ID := i; dl_Action := 6 |}) <$> seqZ 1 50;
     wd_PolicyRuleIds := []; wd_PolWafRuleIds := [1]; wd_RuleType := ""; wd_WafRuleType := "inside" |}.

Lemma dlp_start_repeated_witness :
  exists sent, DPCtrlConfigDlp 5 (fun _ => true) ex_waf = inl (Done (AllSent, sent)) /\
    Forall (fun '(flag, _, _) => Z.testbit flag 0 = true) sent /\ length sent = 2%nat.
Proof.
  destruct (DPCtrlConfigDlp 5 (fun _ => true) ex_waf) as [[[res sent]|why]|st] eqn:Hr;
    [|vm_compute in Hr; discriminate Hr|vm_compute in Hr; discriminate Hr].
  assert (res = AllSent) as -> by (vm_compute in Hr; injection Hr as <- _; reflexivity).
  exists sent. split; [reflexivity|]. split.
  - exact (dlp_start_repeated 5 (fun _ => true) ex_waf sent eq_refl Hr).
  - vm_compute in Hr. injection Hr as <-. reflexivity.
Defined.
