(* ===== verification/NvBitmap.v ===== *)
(** * Bitmaps of the data plane: [dp/utils/bitmap.c]

    The allocator of small integers behind the codes of domain names.  A
    bitmap is an array of 32-bit words; an access past the array is undefined
    in C, and it is [Panicked] here. *)

From Stdlib Require Import ZArith Lia.
From S2P Require Import Prelude.
Local Open Scope Z_scope.

(** An access to memory the program does not own. *)
Definition invalid_access {A} : outcome A := Panicked "invalid memory access".

Record bitmap := Bitmap {
  bm_bits : Z;
  bm_words : Z;
  bm_array : list Z
}.

Definition bitmap_shift : Z := 5.
Definition bitmap_mask : Z := 31.
Definition bitmap_wordlength : Z := 32.
Definition bitmap_ones : Z := 2 ^ 32 - 1.

(** [~w] of a word. *)
Definition bitmap_not (w : Z) : Z := Z.lxor w bitmap_ones.

(** [b->array[word]]. *)
Definition bitmap_word (b : bitmap) (word : Z) : outcome Z :=
  if decide (0 <= word) then
    match bm_array b !! Z.to_nat word with Some w => Done w | None => invalid_access end
  else invalid_access.

Definition bitmap_update (b : bitmap) (word : Z) (f : Z -> Z) : outcome bitmap :=
  w ← bitmap_word b word;
  Done {| bm_bits := bm_bits b; bm_words := bm_words b;
          bm_array := <[Z.to_nat word := f w]> (bm_array b) |}.

Definition bitmap_set (b : bitmap) (n : Z) : outcome bitmap :=
  let word := Z.shiftr n bitmap_shift in
  let position := Z.land n bitmap_mask in
  bitmap_update b word (fun w => Z.lor w (Z.shiftl 1 position)).

Definition bitmap_clear (b : bitmap) (n : Z) : outcome bitmap :=
  let word := Z.shiftr n bitmap_shift in
  let position := Z.land n bitmap_mask in
  bitmap_update b word (fun w => Z.land w (bitmap_not (Z.shiftl 1 position))).

Definition bitmap_is_set (b : bitmap) (n : Z) : outcome Z :=
  let word := Z.shiftr n bitmap_shift in
  let position := Z.land n bitmap_mask in
  w ← bitmap_word b word; Done (Z.land (Z.shiftr w position) 1).

(** The loop shifts a 32-bit word right: 33 turns empty it. *)
Fixpoint one_pos_loop (fuel : nat) (w start : Z) : Z :=
  match fuel with
  | O => -1
  | S fuel =>
      if 0 <? w then
        if Z.land w 1 =? 1 then start else one_pos_loop fuel (Z.shiftr w 1) (start + 1)
      else -1
  end.

Definition get_one_pos_from_word (w start : Z) : Z := one_pos_loop 33 (Z.shiftr w start) start.

(** The two loops over whole words, from word [i] for [k] words. *)
Fixpoint scan_words (b : bitmap) (i : Z) (k : nat) : outcome (option Z) :=
  match k with
  | O => Done None
  | S k =>
      w ← bitmap_word b i;
      let tmp := bitmap_not w in
      let ret := get_one_pos_from_word tmp 0 + Z.shiftl i bitmap_shift in
      if negb (tmp =? 0) && (ret <? bm_bits b) then Done (Some ret) else scan_words b (i + 1) k
  end.

Definition bitmap_get_next_zero (b : bitmap) (n : Z) : outcome Z :=
  let n := if (n <? 0) || (bm_bits b <=? n) then 0 else n in
  let word := Z.shiftr n bitmap_shift in
  let position := Z.land n bitmap_mask in
  w ← bitmap_word b word;
  let idx := get_one_pos_from_word (bitmap_not w) position in
  let ret := idx + Z.shiftl word bitmap_shift in
  if (0 <=? idx) && (ret <? bm_bits b) then Done ret
  else
    after ← scan_words b (word + 1) (Z.to_nat (bm_words b - (word + 1)));
    match after with
    | Some ret => Done ret
    | None =>
        before ← scan_words b 0 (Z.to_nat (word + 1));
        Done (default (-1) before)
    end.

Definition bitmap_allocate (bits : Z) : bitmap :=
  let words := (bits + bitmap_wordlength - 1) / bitmap_wordlength in
  {| bm_bits := bits; bm_words := words; bm_array := replicate (Z.to_nat words) 0 |}.

(** ** Well-formed bitmaps *)

Record bitmap_wf (b : bitmap) : Prop := {
  bw_bits : 0 < bm_bits b;
  bw_words : bm_words b = (bm_bits b + 31) / 32;
  bw_length : Z.of_nat (length (bm_array b)) = bm_words b;
  bw_range : Forall (in_width 32) (bm_array b)
}.

(** The set of the numbers that are in use. *)
Definition bitmap_mem (b : bitmap) (n : Z) : bool :=
  Z.testbit (bm_array b !!! Z.to_nat (n / 32)) (n mod 32).

Lemma shift_div n : Z.shiftr n bitmap_shift = n / 32.
Proof. unfold bitmap_shift. by rewrite Z.shiftr_div_pow2. Qed.

Lemma mask_mod n : Z.land n bitmap_mask = n mod 32.
Proof. change bitmap_mask with (Z.ones 5). by rewrite Z.land_ones. Qed.

Lemma bitmap_word_done b i :
  bitmap_wf b -> 0 <= i < bm_words b ->
  exists w, bitmap_word b i = Done w /\ bm_array b !! Z.to_nat i = Some w /\ in_width 32 w.
Proof.
  intros Hb Hi. unfold bitmap_word. rewrite decide_True by lia.
  destruct (lookup_lt_is_Some_2 (bm_array b) (Z.to_nat i)) as [w Hw].
  { pose proof (bw_length b Hb). lia. }
  exists w. rewrite Hw. split_and!; [done..|].
  eapply Forall_lookup_1; [apply (bw_range b Hb)|done].
Qed.

Lemma word_index b n :
  bitmap_wf b -> 0 <= n < bm_bits b -> 0 <= n / 32 < bm_words b.
Proof.
  intros Hb Hn. rewrite (bw_words b Hb). split; [apply Z.div_pos; lia|].
  apply Z.div_lt_upper_bound; [lia|].
  pose proof (Z.div_mod (bm_bits b + 31) 32 ltac:(lia)).
  pose proof (Z.mod_pos_bound (bm_bits b + 31) 32 ltac:(lia)). lia.
Qed.

Lemma bitmap_mem_word b n w :
  bm_array b !! Z.to_nat (n / 32) = Some w -> bitmap_mem b n = Z.testbit w (n mod 32).
Proof. intros Hw. unfold bitmap_mem. by rewrite (list_lookup_total_correct _ _ _ Hw). Qed.

Lemma bitmap_not_spec w i : 0 <= i < 32 -> Z.testbit (bitmap_not w) i = negb (Z.testbit w i).
Proof.
  intros Hi. unfold bitmap_not. rewrite Z.lxor_spec.
  change bitmap_ones with (Z.ones 32). rewrite Z.ones_spec_low by lia. by destruct (Z.testbit w i).
Qed.

Lemma bitmap_not_width w : in_width 32 w -> in_width 32 (bitmap_not w).
Proof.
  intros Hw. assert (Hz : bitmap_not w = (bitmap_not w) mod 2 ^ 32).
  { rewrite <-Z.land_ones by lia. apply Z.bits_inj_iff'. intros i Hi.
    rewrite Z.land_spec. unfold bitmap_not. rewrite Z.lxor_spec.
    change bitmap_ones with (Z.ones 32).
    destruct (decide (i < 32)).
    - rewrite Z.ones_spec_low by lia. by destruct (Z.testbit w i).
    - rewrite Z.ones_spec_high by lia. rewrite <-(wrap_small 32 w Hw). unfold wrap.
      rewrite Z.mod_pow2_bits_high by lia. done. }
  rewrite Hz. apply Z.mod_pos_bound. lia.
Qed.

(** ** The search *)

Lemma one_pos_loop_spec fuel w start :
  0 <= w < 2 ^ Z.of_nat fuel -> 0 <= start ->
  let r := one_pos_loop (S fuel) w start in
  (w = 0 /\ r = -1) \/
  (start <= r < start + Z.of_nat fuel /\ Z.testbit w (r - start) = true /\
   forall j, 0 <= j < r - start -> Z.testbit w j = false).
Proof.
  revert w start. induction fuel as [|fuel IH]; intros w start Hw Hs.
  { left. simpl in Hw. assert (w = 0) as -> by lia. done. }
  intros r. unfold r. clear r.
  change (one_pos_loop (S (S fuel)) w start)
    with (if 0 <? w then if Z.land w 1 =? 1 then start
          else one_pos_loop (S fuel) (Z.shiftr w 1) (start + 1) else -1).
  destruct (Z.ltb_spec 0 w) as [Hpos|]; [|left; split; [lia|done]].
  assert (Hland : Z.land w 1 = Z.b2z (Z.testbit w 0)).
  { change 1 with (Z.ones 1). rewrite Z.land_ones by lia. by rewrite Z.bit0_mod. }
  rewrite Hland. destruct (Z.testbit w 0) eqn:H0; cbn [Z.b2z].
  { change (1 =? 1) with true. cbv iota. right. split; [lia|].
    replace (start - start) with 0 by lia. split; [done|]. lia. }
  change (0 =? 1) with false. cbv iota.
  assert (Hw2 : 0 <= Z.shiftr w 1 < 2 ^ Z.of_nat fuel).
  { rewrite Z.shiftr_div_pow2 by lia. change (2 ^ 1) with 2.
    split; [apply Z.div_pos; lia|]. apply Z.div_lt_upper_bound; [lia|].
    rewrite Nat2Z.inj_succ, Z.pow_succ_r in Hw by lia. lia. }
  destruct (IH (Z.shiftr w 1) (start + 1) Hw2 ltac:(lia)) as [[Hz _]|(Hr & Ht & Hmin)].
  - exfalso. rewrite Z.shiftr_div_pow2 in Hz by lia. change (2 ^ 1) with 2 in *.
    pose proof (Z.div_mod w 2 ltac:(lia)) as Hd. rewrite Hz in Hd.
    assert (Z.testbit w 0 = true); [|congruence]. apply Z.b2z_inj. rewrite Z.bit0_mod.
    assert (w = 1) as -> by (pose proof (Z.mod_pos_bound w 2); lia). done.
  - right. split; [lia|]. rewrite Z.shiftr_spec in Ht by lia.
    set (r := one_pos_loop (S fuel) (Z.shiftr w 1) (start + 1)) in *.
    replace (r - start) with (r - (start + 1) + 1) by lia. split; [done|].
    intros j Hj. destruct (decide (j = 0)) as [->|]; [done|].
    specialize (Hmin (j - 1) ltac:(lia)). rewrite Z.shiftr_spec in Hmin by lia.
    by replace (j - 1 + 1) with j in Hmin by lia.
Qed.

(** The first set bit of [w] from [start] on, or none. *)
Lemma get_one_pos_spec w start :
  in_width 32 w -> 0 <= start < 32 ->
  let r := get_one_pos_from_word w start in
  (r = -1 /\ forall i, start <= i -> Z.testbit w i = false) \/
  (start <= r < 32 /\ Z.testbit w r = true /\ forall i, start <= i < r -> Z.testbit w i = false).
Proof.
  intros [Hw1 Hw2] Hs r. unfold r, get_one_pos_from_word. clear r.
  assert (Hsh : 0 <= Z.shiftr w start < 2 ^ Z.of_nat 32).
  { rewrite Z.shiftr_div_pow2 by lia. split; [apply Z.div_pos; lia|].
    apply Z.div_lt_upper_bound; [lia|]. change (Z.of_nat 32) with 32.
    assert (1 <= 2 ^ start) by (pose proof (Z.pow_pos_nonneg 2 start); lia). nia. }
  destruct (one_pos_loop_spec 32 (Z.shiftr w start) start Hsh ltac:(lia)) as [[Hz ->]|(Hr & Ht & Hmin)].
  - left. split; [done|]. intros i Hi.
    replace i with (i - start + start) by lia. rewrite <-Z.shiftr_spec, Hz by lia. apply Z.testbit_0_l.
  - right. set (r := one_pos_loop 33 (Z.shiftr w start) start) in *.
    rewrite Z.shiftr_spec in Ht by lia. replace (r - start + start) with r in Ht by lia.
    split_and!; [lia| |done|].
    + destruct (decide (r < 32)) as [|Hge]; [done|].
      rewrite <-(wrap_small 32 w (conj Hw1 Hw2)) in Ht. unfold wrap in Ht.
      by rewrite Z.mod_pow2_bits_high in Ht by lia.
    + intros i Hi. specialize (Hmin (i - start) ltac:(lia)). rewrite Z.shiftr_spec in Hmin by lia.
      by replace (i - start + start) with i in Hmin by lia.
Qed.

(** The word [i] of the complement, and the number of a position in it. *)
Lemma free_in_word b i w p :
  bm_array b !! Z.to_nat i = Some w -> 0 <= i -> 0 <= p < 32 ->
  bitmap_mem b (p + Z.shiftl i bitmap_shift) = negb (Z.testbit (bitmap_not w) p).
Proof.
  intros Hw Hi Hp. unfold bitmap_shift. rewrite Z.shiftl_mul_pow2 by lia. change (2 ^ 5) with 32.
  assert (Hd : (p + i * 32) / 32 = i) by (rewrite Z.div_add by lia; rewrite Z.div_small by lia; lia).
  assert (Hm : (p + i * 32) mod 32 = p) by (rewrite Z.mod_add by lia; apply Z.mod_small; lia).
  rewrite (bitmap_mem_word _ _ w) by (by rewrite Hd). rewrite Hm, bitmap_not_spec by done.
  by rewrite negb_involutive.
Qed.

(** A scan finds a free number of its words, and it finds none only when all
    the numbers of these words are in use. *)
Lemma scan_words_spec b i k :
  bitmap_wf b -> 0 <= i -> i + Z.of_nat k <= bm_words b ->
  exists r, scan_words b i k = Done r /\
  match r with
  | Some n => 0 <= n < bm_bits b /\ bitmap_mem b n = false
  | None => forall n, 0 <= n < bm_bits b -> i <= n / 32 < i + Z.of_nat k -> bitmap_mem b n = true
  end.
Proof.
  intros Hb. revert i. induction k as [|k IH]; intros i Hi Hk; simpl.
  { exists None. split; [done|]. intros n _ Hn. lia. }
  destruct (bitmap_word_done b i Hb ltac:(lia)) as (w & -> & Hw & Hww). simpl.
  pose proof (bitmap_not_width w Hww) as Hnw.
  destruct (get_one_pos_spec (bitmap_not w) 0 Hnw ltac:(lia)) as [[Hr Hall]|(Hr & Ht & Hmin)].
  - assert (bitmap_not w = 0) as ->.
    { apply Z.bits_inj_0. intros j. destruct (decide (0 <= j)); [auto|apply Z.testbit_neg_r; lia]. }
    simpl. destruct (IH (i + 1)) as (r & -> & Hspec); [lia..|]. exists r. split; [done|].
    destruct r as [n|]; [done|]. intros n Hn Hin. destruct (decide (n / 32 = i)) as [Heq|].
    + rewrite (bitmap_mem_word b n w) by (by rewrite Heq).
      rewrite <-(negb_involutive (Z.testbit w _)), <-bitmap_not_spec by (apply Z.mod_pos_bound; lia).
      rewrite Hall; [done|]. apply Z.mod_pos_bound. lia.
    + apply Hspec; [done|lia].
  - set (p := get_one_pos_from_word (bitmap_not w) 0) in *.
    rewrite (proj2 (Z.eqb_neq (bitmap_not w) 0)) by (intros Hz; by rewrite Hz, Z.testbit_0_l in Ht).
    simpl. pose proof (free_in_word b i w p Hw Hi Hr) as Hfree. rewrite Ht in Hfree. simpl in Hfree.
    assert (Hval : p + Z.shiftl i bitmap_shift = p + i * 32)
      by (unfold bitmap_shift; by rewrite Z.shiftl_mul_pow2 by lia).
    destruct (Z.ltb_spec (p + Z.shiftl i bitmap_shift) (bm_bits b)) as [Hlt|Hge].
    + eexists. split; [done|]. simpl. split; [lia|done].
    + destruct (IH (i + 1)) as (r & -> & Hspec); [lia..|]. exists r. split; [done|].
      destruct r as [n|]; [done|]. intros n Hn Hin.
      destruct (decide (n / 32 = i)) as [Heq|]; [|apply Hspec; [done|lia]].
      pose proof (Z.div_mod n 32 ltac:(lia)). pose proof (Z.mod_pos_bound n 32 ltac:(lia)).
      rewrite (bitmap_mem_word b n w) by (by rewrite Heq).
      rewrite <-(negb_involutive (Z.testbit w _)), <-bitmap_not_spec by done.
      rewrite Hmin; [done|lia].
Qed.

(** [bitmap_get_next_zero] stays in the array; it returns a number of the
    bitmap that is free, and it fails only when every number is in use. *)
Theorem bitmap_get_next_zero_spec b n :
  bitmap_wf b ->
  exists r, bitmap_get_next_zero b n = Done r /\
  ((0 <= r < bm_bits b /\ bitmap_mem b r = false) \/
   (r = -1 /\ forall m, 0 <= m < bm_bits b -> bitmap_mem b m = true)).
Proof.
  intros Hb. unfold bitmap_get_next_zero.
  set (n' := if (n <? 0) || (bm_bits b <=? n) then 0 else n).
  assert (Hn' : 0 <= n' < bm_bits b).
  { unfold n'. pose proof (bw_bits b Hb).
    destruct (Z.ltb_spec n 0), (Z.leb_spec (bm_bits b) n); simpl; lia. }
  cbv zeta. rewrite shift_div, mask_mod. pose proof (word_index b n' Hb Hn') as Hword.
  set (word := n' / 32) in *. set (pos := n' mod 32).
  assert (Hpos : 0 <= pos < 32) by (apply Z.mod_pos_bound; lia).
  destruct (bitmap_word_done b word Hb ltac:(lia)) as (w & -> & Hw & Hww). simpl.
  destruct (scan_words_spec b (word + 1) (Z.to_nat (bm_words b - (word + 1))) Hb)
    as (ra & Ha & Hsa); [lia..|].
  destruct (scan_words_spec b 0 (Z.to_nat (word + 1)) Hb) as (rb & Hbf & Hsb); [lia..|].
  rewrite Z2Nat.id in Hsa by lia. rewrite Z2Nat.id in Hsb by lia.
  destruct (_ && _) eqn:Hc.
  - apply andb_prop in Hc as [Hi%Z.leb_le Hlt%Z.ltb_lt].
    destruct (get_one_pos_spec (bitmap_not w) pos (bitmap_not_width w Hww) Hpos)
      as [[Hr _]|(Hr & Ht & _)]; [lia|].
    eexists. split; [done|]. left. split.
    + split; [|done]. unfold bitmap_shift in *. rewrite Z.shiftl_mul_pow2 by lia. lia.
    + rewrite (free_in_word b word w) by (done || lia). by rewrite Ht.
  - rewrite Ha. simpl. destruct ra as [r|]; [by eauto|].
    rewrite Hbf. simpl. eexists. split; [done|]. destruct rb as [r|]; simpl; [by eauto|].
    right. split; [done|]. intros m Hm. pose proof (word_index b m Hb Hm).
    destruct (decide (m / 32 < word + 1)); [apply Hsb|apply Hsa]; lia.
Qed.

(** ** Updates *)

Lemma bitmap_update_spec b n (f : Z -> Z) :
  bitmap_wf b -> 0 <= n < bm_bits b -> (forall w, in_width 32 w -> in_width 32 (f w)) ->
  exists b', bitmap_update b (n / 32) f = Done b' /\ bitmap_wf b' /\ bm_bits b' = bm_bits b /\
  forall m, 0 <= m < bm_bits b ->
    bitmap_mem b' m =
    if decide (m / 32 = n / 32) then Z.testbit (f (bm_array b !!! Z.to_nat (n / 32))) (m mod 32)
    else bitmap_mem b m.
Proof.
  intros Hb Hn Hf. pose proof (word_index b n Hb Hn) as Hi. unfold bitmap_update.
  destruct (bitmap_word_done b (n / 32) Hb Hi) as (w & -> & Hw & Hww). simpl.
  eexists. split; [done|]. split_and!; [|done|].
  - destruct Hb as [H1 H2 H3 H4]. constructor; simpl; [done..|by rewrite length_insert|].
    apply Forall_insert; auto.
  - intros m Hm. pose proof (word_index b m Hb Hm). unfold bitmap_mem. simpl.
    case_decide as Heq.
    + rewrite Heq, (list_lookup_total_correct _ _ _ Hw). f_equal.
      apply list_lookup_total_correct, list_lookup_insert_eq.
      apply lookup_lt_Some in Hw. done.
    + f_equal. rewrite list_lookup_total_insert_ne; [done|]. lia.
Qed.

Lemma same_number m n : m / 32 = n / 32 -> m mod 32 = n mod 32 -> m = n.
Proof. intros Hd Hm. rewrite (Z.div_mod m 32), (Z.div_mod n 32) by lia. lia. Qed.

Lemma shiftl_1_width p : 0 <= p < 32 -> in_width 32 (Z.shiftl 1 p).
Proof.
  intros Hp. rewrite Z.shiftl_1_l. split; [lia|]. apply Z.pow_lt_mono_r; lia.
Qed.

Lemma in_width_bits w x : 0 <= w -> in_width w x <-> 0 <= x /\ forall i, w <= i -> Z.testbit x i = false.
Proof.
  intros Hw. split.
  - intros Hx. split; [apply Hx|]. intros i Hi. rewrite <-(wrap_small w x Hx). unfold wrap.
    by rewrite Z.mod_pow2_bits_high by lia.
  - intros [H0 Hb]. assert (Hx : x = x mod 2 ^ w).
    { rewrite <-Z.land_ones by done. apply Z.bits_inj_iff'. intros i Hi. rewrite Z.land_spec.
      destruct (decide (i < w)); [rewrite Z.ones_spec_low by lia|rewrite Z.ones_spec_high by lia].
      - by rewrite andb_true_r.
      - rewrite Hb by lia. done. }
    rewrite Hx. apply Z.mod_pos_bound. lia.
Qed.

Lemma lor_width x y : in_width 32 x -> in_width 32 y -> in_width 32 (Z.lor x y).
Proof.
  rewrite !in_width_bits by lia. intros [Hx Hxb] [Hy Hyb]. split; [by apply Z.lor_nonneg|].
  intros i Hi. rewrite Z.lor_spec, Hxb, Hyb by done. done.
Qed.

Lemma land_width x y : in_width 32 x -> 0 <= y -> in_width 32 (Z.land x y).
Proof.
  rewrite !in_width_bits by lia. intros [Hx Hxb] Hy. split; [apply Z.land_nonneg; by left|].
  intros i Hi. rewrite Z.land_spec, Hxb by done. done.
Qed.

Lemma testbit_pow2 p i : 0 <= p -> 0 <= i -> Z.testbit (Z.shiftl 1 p) i = bool_decide (i = p).
Proof.
  intros Hp Hi. rewrite Z.shiftl_1_l, Z.pow2_bits_eqb by lia.
  destruct (Z.eqb_spec p i), (bool_decide_reflect (i = p)); (done || lia).
Qed.

(** The number becomes used, and no other one changes. *)
Theorem bitmap_set_spec b n :
  bitmap_wf b -> 0 <= n < bm_bits b ->
  exists b', bitmap_set b n = Done b' /\ bitmap_wf b' /\ bm_bits b' = bm_bits b /\
  forall m, 0 <= m < bm_bits b -> bitmap_mem b' m = bool_decide (m = n) || bitmap_mem b m.
Proof.
  intros Hb Hn. unfold bitmap_set. rewrite shift_div, mask_mod.
  pose proof (Z.mod_pos_bound n 32 ltac:(lia)) as Hp.
  destruct (bitmap_update_spec b n (fun w => Z.lor w (Z.shiftl 1 (n mod 32))) Hb Hn)
    as (b' & Hu & Hwf & Hbits & Hmem).
  { intros w Hw. apply lor_width; [done|]. by apply shiftl_1_width. }
  exists b'. split_and!; [done..|]. intros m Hm. rewrite Hmem by done.
  pose proof (Z.mod_pos_bound m 32 ltac:(lia)).
  case_decide as Heq.
  - rewrite Z.lor_spec, testbit_pow2 by lia. unfold bitmap_mem at 1. rewrite Heq.
    rewrite orb_comm. f_equal. apply bool_decide_ext. split; [by apply same_number|by intros ->].
  - rewrite bool_decide_false; [done|]. by intros ->.
Qed.

(** The number becomes free, and no other one changes. *)
Theorem bitmap_clear_spec b n :
  bitmap_wf b -> 0 <= n < bm_bits b ->
  exists b', bitmap_clear b n = Done b' /\ bitmap_wf b' /\ bm_bits b' = bm_bits b /\
  forall m, 0 <= m < bm_bits b -> bitmap_mem b' m = negb (bool_decide (m = n)) && bitmap_mem b m.
Proof.
  intros Hb Hn. unfold bitmap_clear. rewrite shift_div, mask_mod.
  pose proof (Z.mod_pos_bound n 32 ltac:(lia)) as Hp.
  pose proof (bitmap_not_width _ (shiftl_1_width _ Hp)) as Hnw.
  destruct (bitmap_update_spec b n (fun w => Z.land w (bitmap_not (Z.shiftl 1 (n mod 32)))) Hb Hn)
    as (b' & Hu & Hwf & Hbits & Hmem).
  { intros w Hw. apply land_width; [done|apply Hnw]. }
  exists b'. split_and!; [done..|]. intros m Hm. rewrite Hmem by done.
  pose proof (Z.mod_pos_bound m 32 ltac:(lia)).
  case_decide as Heq.
  - rewrite Z.land_spec, bitmap_not_spec, testbit_pow2 by lia. unfold bitmap_mem at 1. rewrite Heq.
    rewrite andb_comm. do 2 f_equal. apply bool_decide_ext. split; [by apply same_number|by intros ->].
  - rewrite bool_decide_false; [done|]. by intros ->.
Qed.

Lemma bitmap_allocate_spec bits :
  0 < bits ->
  bitmap_wf (bitmap_allocate bits) /\ forall n, 0 <= n < bits -> bitmap_mem (bitmap_allocate bits) n = false.
Proof.
  intros Hb. assert (Hwf : bitmap_wf (bitmap_allocate bits)).
  { unfold bitmap_allocate, bitmap_wordlength. constructor; simpl; [done| | |].
    - f_equal. lia.
    - rewrite length_replicate, Z2Nat.id; [done|]. apply Z.div_pos; lia.
    - apply Forall_replicate. split; lia. }
  split; [done|]. intros n Hn. pose proof (word_index _ n Hwf Hn) as Hi. simpl in Hi.
  rewrite (bitmap_mem_word _ _ 0); [apply Z.testbit_0_l|]. simpl.
  apply lookup_replicate_2. lia.
Qed.
