(* ===== verification/NvFqdn.v ===== *)
(** * Domain names of the data plane: [dp/dpi/dpi_policy.c]

    A rule for a domain name has a code in place of the address.  The table
    here maps a name to its record, with the code, and an address to the
    records of the names it resolved to; a policy lookup goes from the address
    of a packet to the codes ([NvDPTable]).  The controller configures names
    ([config_fqdn_ipv4_mapping]) and deletes them ([dp_ctrl_del_fqdn]); the
    data plane adds addresses from the DNS answers it sees
    ([snooped_fqdn_ipv4_mapping]).

    Records are shared by pointers, so the model has a heap of records; the
    dereference of a freed record is [invalid_access].  An address, a
    [uint32_t] in network order, is represented by its value in host order
    throughout: the code compares addresses, masks them and orders them after
    [ntohl].  Memory allocation succeeds. *)

From Stdlib Require Import ZArith Lia Ascii.
From S2P Require Import Prelude GoLib NvBitmap.
Local Open Scope Z_scope.

Definition FQDN_RECORD_TO_DELETE : Z := 1.
Definition FQDN_RECORD_DELETED : Z := 2.
Definition FQDN_RECORD_WILDCARD : Z := 4.
Definition DPI_FQDN_DELETE_QLEN : nat := 32.
Definition DPI_FQDN_MAX_ENTRIES : Z := 2048.
Definition MAX_FQDN_LEN : nat := 256.

(** [-1] as a [uint32_t]. *)
Definition no_code : Z := 4294967295.

(** [flags & f] as a condition, [flags | f]. *)
Definition has_flag (flags f : Z) : bool := negb (Z.land flags f =? 0).
Definition set_flag (flags f : Z) : Z := Z.lor flags f.

Record fqdn_record_t := FqdnRecord {
  fr_name : string;
  fr_code : Z;
  fr_flag : Z;
  fr_ip_cnt : Z;
  fr_record_updated : Z;
  fr_iplist : list Z;
  fr_vh : bool
}.

Definition fr_set_flag (flag : Z) (r : fqdn_record_t) : fqdn_record_t :=
  FqdnRecord (fr_name r) (fr_code r) flag (fr_ip_cnt r) (fr_record_updated r) (fr_iplist r) (fr_vh r).
Definition fr_set_updated (u : Z) (r : fqdn_record_t) : fqdn_record_t :=
  FqdnRecord (fr_name r) (fr_code r) (fr_flag r) (fr_ip_cnt r) u (fr_iplist r) (fr_vh r).
Definition fr_set_vh (vh : bool) (r : fqdn_record_t) : fqdn_record_t :=
  FqdnRecord (fr_name r) (fr_code r) (fr_flag r) (fr_ip_cnt r) (fr_record_updated r) (fr_iplist r) vh.
Definition fr_add_ip (ip : Z) (r : fqdn_record_t) : fqdn_record_t :=
  FqdnRecord (fr_name r) (fr_code r) (fr_flag r) (wrap 32 (fr_ip_cnt r + 1)) (fr_record_updated r)
    (fr_iplist r ++ [ip]) (fr_vh r).

(** [dpi_fqdn_hdl_t].  [fh_heap] holds the records by address, [fh_fresh] is
    an address that was never used.  An entry of [fqdn_name_map] has the hash
    it was added with and its record; [fqdn_ipv4_map] gives the record list of
    an address.  Both maps are searched before an addition, so they have no
    duplicate keys. *)
Record dpi_fqdn_hdl_t := FqdnHdl {
  fh_heap : gmap nat fqdn_record_t;
  fh_fresh : nat;
  fh_name_map : list (Z * nat);
  fh_ipv4_map : gmap Z (list nat);
  fh_bm : bitmap;
  fh_code_cnt : Z;
  fh_del_name_list : list nat;
  fh_del_ipv4_list : list Z;
  fh_del_rlist : list nat
}.

Definition fh_set_heap (m : gmap nat fqdn_record_t) (h : dpi_fqdn_hdl_t) : dpi_fqdn_hdl_t :=
  FqdnHdl m (fh_fresh h) (fh_name_map h) (fh_ipv4_map h) (fh_bm h) (fh_code_cnt h)
    (fh_del_name_list h) (fh_del_ipv4_list h) (fh_del_rlist h).
Definition fh_set_ipv4 (m : gmap Z (list nat)) (h : dpi_fqdn_hdl_t) : dpi_fqdn_hdl_t :=
  FqdnHdl (fh_heap h) (fh_fresh h) (fh_name_map h) m (fh_bm h) (fh_code_cnt h)
    (fh_del_name_list h) (fh_del_ipv4_list h) (fh_del_rlist h).
Definition fh_set_codes (bm : bitmap) (cnt : Z) (h : dpi_fqdn_hdl_t) : dpi_fqdn_hdl_t :=
  FqdnHdl (fh_heap h) (fh_fresh h) (fh_name_map h) (fh_ipv4_map h) bm cnt
    (fh_del_name_list h) (fh_del_ipv4_list h) (fh_del_rlist h).

Definition dpi_fqdn_hdl_init : dpi_fqdn_hdl_t :=
  FqdnHdl ∅ 0 [] ∅ (bitmap_allocate DPI_FQDN_MAX_ENTRIES) 0 [] [] [].

(** ** Names *)

Definition strcasecmp (a b : string) : bool := bool_decide (ToLower a = ToLower b).

(** [strlcpy] into an array of [siz] characters. *)
Definition strlcpy (s : string) (siz : nat) : string := String.substring 0 (siz - 1) s.

Fixpoint string_bytes (s : string) : list Z :=
  match s with
  | EmptyString => []
  | String c s' => Z.of_N (N_of_ascii c) :: string_bytes s'
  end.

Definition sdbm_hash (bytes : list Z) : Z :=
  foldl (fun hash a => wrap 32 (a + Z.shiftl hash 6 + Z.shiftl hash 16 - hash)) 0 bytes.

Definition fqdn_name_hash (name : string) : Z := sdbm_hash (string_bytes name).

(** The first token of [strtok_r(name, ".")], the empty string when there is
    none: the leading dots are skipped. *)
Fixpoint until_dot (s : string) : string :=
  match s with
  | EmptyString => EmptyString
  | String c s' => if bool_decide (c = "."%char) then EmptyString else String c (until_dot s')
  end.
Fixpoint first_token (s : string) : string :=
  match s with
  | EmptyString => EmptyString
  | String c s' => if bool_decide (c = "."%char) then first_token s' else until_dot s
  end.

Definition is_fqdn_name_wildcard (name : string) : bool := strcasecmp (first_token name) "*".

(** [for (j = strlen(dname)-2; j > 0; j--) if (dname[j] == '.') break;] *)
Fixpoint last_dot_loop (dname : string) (j : nat) : nat :=
  match j with
  | O => O
  | S j' => if bool_decide (String.get j dname = Some "."%char) then j else last_dot_loop dname j'
  end.

(** The strings [&dname[i]] the second loop compares: at each dot before the
    last one, the character before it replaced by a star. *)
Fixpoint wildcards_from (s : string) (n : nat) : list string :=
  match n, s with
  | S n, String _ s' =>
      match s' with
      | String c _ => if bool_decide (c = "."%char) then String "*" s' :: wildcards_from s' n
                      else wildcards_from s' n
      | EmptyString => wildcards_from s' n
      end
  | _, _ => []
  end.

Definition wildcard_names (name : string) : list string :=
  let dname := strlcpy name MAX_FQDN_LEN in
  let j := last_dot_loop dname (String.length dname - 2) in
  wildcards_from dname (j - 1).

Definition match_fqdn_wildcard_name (vhost fqdname : string) : bool :=
  existsb (strcasecmp fqdname) (wildcard_names vhost).

(** ** Lookup *)

Definition deref (h : dpi_fqdn_hdl_t) (a : nat) : outcome fqdn_record_t :=
  match fh_heap h !! a with Some r => Done r | None => invalid_access end.

(** [r->...= ] through a pointer. *)
Definition store (a : nat) (r : fqdn_record_t) (h : dpi_fqdn_hdl_t) : dpi_fqdn_hdl_t :=
  fh_set_heap (<[a := r]> (fh_heap h)) h.

(** [rcu_map_lookup(&hdl->fqdn_name_map, name)]: the entries with the hash of
    the name are compared with [fqdn_name_match]. *)
Fixpoint name_lookup (h : dpi_fqdn_hdl_t) (name : string) (l : list (Z * nat)) : outcome (option nat) :=
  match l with
  | [] => Done None
  | (hash, a) :: l =>
      if hash =? fqdn_name_hash name then
        r ← deref h a;
        if strcasecmp (fr_name r) name then Done (Some a) else name_lookup h name l
      else name_lookup h name l
  end.

Definition fqdn_name_lookup (h : dpi_fqdn_hdl_t) (name : string) : outcome (option nat) :=
  name_lookup h name (fh_name_map h).

(** ** Configuration *)

(** The code is [htonl(hdl->code_cnt)], or [no_code]. *)
Definition alloc_fqdn_code (h : dpi_fqdn_hdl_t) : outcome (Z * dpi_fqdn_hdl_t) :=
  cnt ← bitmap_get_next_zero (fh_bm h) (fh_code_cnt h);
  if cnt <? 0 then Done (no_code, fh_set_codes (fh_bm h) cnt h)
  else
    bm ← bitmap_set (fh_bm h) cnt;
    Done (cnt + 1, fh_set_codes bm (cnt + 1) h).

(** The result, the record list of the address and the record. *)
Definition config_record_ip_list (ip : Z) (rlist : list nat) (a : nat) (r : fqdn_record_t)
    : Z * list nat * fqdn_record_t :=
  let rlist := if bool_decide (a ∈ rlist) then rlist else rlist ++ [a] in
  if bool_decide (ip ∈ fr_iplist r) then (0, rlist, r) else (1, rlist, fr_add_ip ip r).

(** [config_record_ip_list] on the entry of [ip] in the map, a new one when
    there is none. *)
Definition map_ip (ip : Z) (a : nat) (r : fqdn_record_t) (h : dpi_fqdn_hdl_t) : Z * dpi_fqdn_hdl_t :=
  let '(ret, rlist, r) := config_record_ip_list ip (default [] (fh_ipv4_map h !! ip)) a r in
  (ret, store a r (fh_set_ipv4 (<[ip := rlist]> (fh_ipv4_map h)) h)).

Definition config_fqdn_ipv4_mapping (h : dpi_fqdn_hdl_t) (name : string) (ip : Z) (vh : bool)
    : outcome (Z * dpi_fqdn_hdl_t) :=
  entry ← fqdn_name_lookup h name;
  found ← match entry with
          | None =>
              '(code, h) ← alloc_fqdn_code h;
              if code =? no_code then Done (inr h)
              else
                let rname := strlcpy name MAX_FQDN_LEN in
                let flag := if is_fqdn_name_wildcard rname then FQDN_RECORD_WILDCARD else 0 in
                let r := FqdnRecord rname code flag 0 0 [] vh in
                let a := fh_fresh h in
                Done (inl (a, r, FqdnHdl (<[a := r]> (fh_heap h)) (S a)
                  (fh_name_map h ++ [(fqdn_name_hash name, a)]) (fh_ipv4_map h) (fh_bm h)
                  (fh_code_cnt h) (fh_del_name_list h) (fh_del_ipv4_list h) (fh_del_rlist h)))
          | Some a =>
              r ← deref h a;
              let flag := if has_flag (fr_flag r) FQDN_RECORD_WILDCARD then FQDN_RECORD_WILDCARD else 0 in
              let r := fr_set_flag flag (fr_set_vh vh r) in
              Done (inl (a, r, store a r h))
          end;
  match found with
  | inr h => Done (no_code, h)
  | inl (a, r, h) => if ip =? 0 then Done (fr_code r, h) else Done (fr_code r, (map_ip ip a r h).2)
  end.

(** ** Addresses from DNS answers *)

Fixpoint associate_loop (h : dpi_fqdn_hdl_t) (a : nat) (ips : list Z) (new_ip : bool)
    : outcome (bool * dpi_fqdn_hdl_t) :=
  match ips with
  | [] => Done (new_ip, h)
  | ip :: ips =>
      r ← deref h a;
      let known := bool_decide (is_Some (fh_ipv4_map h !! ip)) in
      let '(ret, h) := map_ip ip a r h in
      let new := (negb known || (ret =? 1)) && has_flag (fr_flag r) FQDN_RECORD_WILDCARD in
      associate_loop h a ips (new_ip || new)
  end.

Definition associate_ip_record (h : dpi_fqdn_hdl_t) (a : nat) (ips : list Z) : outcome dpi_fqdn_hdl_t :=
  '(new_ip, h) ← associate_loop h a ips false;
  if new_ip : bool then r ← deref h a; Done (store a (fr_set_updated 1 r) h) else Done h.

(** One name of the answer: the record, unless it is being deleted. *)
Definition snoop_name (ips : list Z) (h : dpi_fqdn_hdl_t) (name : string) : outcome dpi_fqdn_hdl_t :=
  entry ← fqdn_name_lookup h name;
  match entry with
  | None => Done h
  | Some a =>
      r ← deref h a;
      if has_flag (fr_flag r) (Z.lor FQDN_RECORD_TO_DELETE FQDN_RECORD_DELETED) then Done h
      else associate_ip_record h a ips
  end.

Fixpoint foldM {S A} (f : S -> A -> outcome S) (s : S) (l : list A) : outcome S :=
  match l with [] => Done s | x :: l => s ← f s x; foldM f s l end.

Definition snooped_fqdn_ipv4_mapping (h : dpi_fqdn_hdl_t) (name : string) (ips : list Z)
    : outcome dpi_fqdn_hdl_t :=
  let name := ToLower name in
  h ← snoop_name ips h name;
  foldM (snoop_name ips) h (wildcard_names name).

(** ** Deletion *)

Definition dpi_fqdn_entry_mark_delete (h : dpi_fqdn_hdl_t) (name : string) : outcome dpi_fqdn_hdl_t :=
  entry ← fqdn_name_lookup h name;
  match entry with
  | None => Done h
  | Some a => r ← deref h a; Done (store a (fr_set_flag (set_flag (fr_flag r) FQDN_RECORD_TO_DELETE) r) h)
  end.

(** [enqueue_fqdn_name_to_del] and the removal of the entry from the map. *)
Definition enqueue_name (e : Z * nat) (r : fqdn_record_t) (h : dpi_fqdn_hdl_t) : dpi_fqdn_hdl_t :=
  FqdnHdl (<[e.2 := fr_set_flag (set_flag (fr_flag r) FQDN_RECORD_DELETED) r]> (fh_heap h)) (fh_fresh h)
    (filter (fun e' => e' <> e) (fh_name_map h)) (fh_ipv4_map h) (fh_bm h) (fh_code_cnt h)
    (fh_del_name_list h ++ [e.2]) (fh_del_ipv4_list h) (fh_del_rlist h).

(** [rcu_map_for_each] with [check_fqdn_name_entry]: [ctx->more] is set, and
    the walk ends, when the queue is full. *)
Fixpoint check_names (visit : list (Z * nat)) (h : dpi_fqdn_hdl_t) : outcome (bool * dpi_fqdn_hdl_t) :=
  match visit with
  | [] => Done (false, h)
  | e :: visit =>
      r ← deref h e.2;
      if has_flag (fr_flag r) FQDN_RECORD_TO_DELETE then
        if decide (length (fh_del_name_list h) = DPI_FQDN_DELETE_QLEN) then Done (true, h)
        else check_names visit (enqueue_name e r h)
      else check_names visit h
  end.

(** The records of a list without the deleted ones, and the deleted ones. *)
Fixpoint split_deleted (h : dpi_fqdn_hdl_t) (rlist : list nat) : outcome (list nat * list nat) :=
  match rlist with
  | [] => Done ([], [])
  | a :: rlist =>
      r ← deref h a;
      '(kept, gone) ← split_deleted h rlist;
      if has_flag (fr_flag r) FQDN_RECORD_DELETED then Done (kept, a :: gone)
      else Done (a :: kept, gone)
  end.

Definition set_ipv4_lists (m : gmap Z (list nat)) (ips : list Z) (rl : list nat) (h : dpi_fqdn_hdl_t)
    : dpi_fqdn_hdl_t :=
  FqdnHdl (fh_heap h) (fh_fresh h) (fh_name_map h) m (fh_bm h) (fh_code_cnt h)
    (fh_del_name_list h) ips rl.

(** [rcu_map_for_each] with [check_fqdn_ipv4_entry]. *)
Fixpoint check_ipv4s (visit : list Z) (h : dpi_fqdn_hdl_t) : outcome (bool * dpi_fqdn_hdl_t) :=
  match visit with
  | [] => Done (false, h)
  | ip :: visit =>
      '(kept, gone) ← split_deleted h (default [] (fh_ipv4_map h !! ip));
      let rl := fh_del_rlist h ++ gone in
      match kept with
      | [] =>
          if decide (length (fh_del_ipv4_list h) = DPI_FQDN_DELETE_QLEN) then
            Done (true, set_ipv4_lists (<[ip := []]> (fh_ipv4_map h)) (fh_del_ipv4_list h) rl h)
          else
            check_ipv4s visit
              (set_ipv4_lists (delete ip (fh_ipv4_map h)) (fh_del_ipv4_list h ++ [ip]) rl h)
      | _ => check_ipv4s visit (set_ipv4_lists (<[ip := kept]> (fh_ipv4_map h)) (fh_del_ipv4_list h) rl h)
      end
  end.

Definition free_fqdn_ipv4 (h : dpi_fqdn_hdl_t) : dpi_fqdn_hdl_t :=
  set_ipv4_lists (fh_ipv4_map h) [] (fh_del_rlist h) h.

(** A name of the queue: its code and its record are freed. *)
Definition free_name (h : dpi_fqdn_hdl_t) (a : nat) : outcome dpi_fqdn_hdl_t :=
  r ← deref h a;
  bm ← bitmap_clear (fh_bm h) (fr_code r - 1);
  Done (fh_set_heap (delete a (fh_heap h)) (fh_set_codes bm (fh_code_cnt h) h)).

Definition clear_names (h : dpi_fqdn_hdl_t) : dpi_fqdn_hdl_t :=
  FqdnHdl (fh_heap h) (fh_fresh h) (fh_name_map h) (fh_ipv4_map h) (fh_bm h) (fh_code_cnt h)
    [] (fh_del_ipv4_list h) [].

(** [debug] is whether the policy messages are printed: the one for an item of
    [del_rlist] reads the name of its record. *)
Definition free_fqdn_name (debug : bool) (h : dpi_fqdn_hdl_t) : outcome dpi_fqdn_hdl_t :=
  h ← foldM free_name h (fh_del_name_list h);
  _ ← (if debug then foldM (fun _ a => _ ← deref h a; Done tt) tt (fh_del_rlist h) else Done tt);
  Done (clear_names h).

Section deletion.
(** The order of a walk over a hash table: the path tells the walks apart. *)
Context (order : list nat -> forall A, list A -> list A).
Context (debug : bool).

(** The inner [do ... while (ctx.more)]: every pass that sets [more] empties
    a full queue, so one pass per address and a last one are enough. *)
Fixpoint ipv4_passes (fuel : nat) (path : list nat) (h : dpi_fqdn_hdl_t) : outcome (option dpi_fqdn_hdl_t) :=
  match fuel with
  | O => Done None
  | S fuel =>
      '(more, h) ← check_ipv4s (order (fuel :: path) Z (map_to_list (fh_ipv4_map h)).*1) h;
      let h := match fh_del_ipv4_list h with [] => h | _ => free_fqdn_ipv4 h end in
      if more : bool then ipv4_passes fuel path h else Done (Some h)
  end.

(** The outer loop.  [None] is a run that does not end within the fuel. *)
Fixpoint delete_loop (fuel : nat) (h : dpi_fqdn_hdl_t) : outcome (option dpi_fqdn_hdl_t) :=
  match fuel with
  | O => Done None
  | S fuel =>
      '(more, h) ← check_names (order [fuel] (Z * nat)%type (fh_name_map h)) h;
      h ← match fh_del_name_list h with
          | [] => Done (Some h)
          | _ =>
              h ← ipv4_passes (S (size (fh_ipv4_map h))) [fuel] h;
              match h with
              | None => Done None
              | Some h => h ← free_fqdn_name debug h; Done (Some h)
              end
          end;
      match h with
      | None => Done None
      | Some h => if more : bool then delete_loop fuel h else Done (Some h)
      end
  end.

Definition dpi_fqdn_entry_delete_marked (h : dpi_fqdn_hdl_t) : outcome (option dpi_fqdn_hdl_t) :=
  delete_loop (S (length (fh_name_map h))) h.

Definition dp_ctrl_del_fqdn (h : dpi_fqdn_hdl_t) (names : list string) : outcome (option dpi_fqdn_hdl_t) :=
  h ← foldM dpi_fqdn_entry_mark_delete h names;
  dpi_fqdn_entry_delete_marked h.
End deletion.

Definition dp_ctrl_set_fqdn (h : dpi_fqdn_hdl_t) (fqdn_name : string) (fqdn_ips : list Z) (vhost : bool)
    : outcome dpi_fqdn_hdl_t :=
  let fqdname := strlcpy fqdn_name MAX_FQDN_LEN in
  foldM (fun h ip => '(_, h) ← config_fqdn_ipv4_mapping h fqdname ip vhost; Done h) h fqdn_ips.

(** ** The invariant *)

Definition rlist_of (h : dpi_fqdn_hdl_t) (ip : Z) : list nat := default [] (fh_ipv4_map h !! ip).

Definition marked (r : fqdn_record_t) : bool := has_flag (fr_flag r) FQDN_RECORD_TO_DELETE.
Definition deleted (r : fqdn_record_t) : bool := has_flag (fr_flag r) FQDN_RECORD_DELETED.

(** The records are those of the names and those queued for deletion, which
    alone carry the flag, and a name has one record. *)
Record names_ok (h : dpi_fqdn_hdl_t) : Prop := {
  fi_fresh : forall a, is_Some (fh_heap h !! a) -> (a < fh_fresh h)%nat;
  fi_names : NoDup ((fh_name_map h).*2 ++ fh_del_name_list h);
  fi_dom : forall a, a ∈ (fh_name_map h).*2 ++ fh_del_name_list h <-> is_Some (fh_heap h !! a);
  fi_unique : forall hash a b r s, (hash, a) ∈ fh_name_map h -> (hash, b) ∈ fh_name_map h ->
    fh_heap h !! a = Some r -> fh_heap h !! b = Some s -> strcasecmp (fr_name r) (fr_name s) = true ->
    a = b;
  fi_deleted : forall a r, fh_heap h !! a = Some r -> deleted r = true <-> a ∈ fh_del_name_list h
}.

(** The codes of the records are distinct, and they are the numbers in use in
    the bitmap. *)
Record codes_ok (heap : gmap nat fqdn_record_t) (bm : bitmap) : Prop := {
  fi_bm : bitmap_wf bm;
  fi_bits : bm_bits bm = DPI_FQDN_MAX_ENTRIES;
  fi_code : forall a r, heap !! a = Some r ->
    1 <= fr_code r <= DPI_FQDN_MAX_ENTRIES /\ bitmap_mem bm (fr_code r - 1) = true;
  fi_code_inj : forall a b r s, heap !! a = Some r -> heap !! b = Some s -> fr_code r = fr_code s -> a = b;
  fi_code_used : forall n, 0 <= n < DPI_FQDN_MAX_ENTRIES -> bitmap_mem bm n = true ->
    exists a r, heap !! a = Some r /\ fr_code r = n + 1
}.

(** A record and an address list each other. *)
Record links_ok (h : dpi_fqdn_hdl_t) : Prop := {
  fi_sound : forall ip a, a ∈ rlist_of h ip -> exists r, fh_heap h !! a = Some r /\ ip ∈ fr_iplist r;
  fi_complete : forall ip a r, fh_heap h !! a = Some r -> a ∉ fh_del_name_list h ->
    ip ∈ fr_iplist r -> a ∈ rlist_of h ip;
  fi_rlist : forall ip, NoDup (rlist_of h ip);
  fi_iplist : forall a r, fh_heap h !! a = Some r -> NoDup (fr_iplist r)
}.

Record fqdn_inv (h : dpi_fqdn_hdl_t) : Prop := {
  fi_names_ok : names_ok h;
  fi_codes_ok : codes_ok (fh_heap h) (fh_bm h);
  fi_links_ok : links_ok h
}.

(** Between two calls the queues are empty, and so is no record list. *)
Record fqdn_wf (h : dpi_fqdn_hdl_t) : Prop := {
  fq_inv : fqdn_inv h;
  fq_names : fh_del_name_list h = [];
  fq_ipv4s : fh_del_ipv4_list h = [];
  fq_rlist : fh_del_rlist h = [];
  fq_nonempty : forall ip rl, fh_ipv4_map h !! ip = Some rl -> rl <> []
}.

(** A change of one record that keeps its name, its code and the mark of a
    deleted one. *)
Definition same_identity (r r' : fqdn_record_t) : Prop :=
  fr_name r' = fr_name r /\ fr_code r' = fr_code r /\ deleted r' = deleted r.

Lemma rlist_of_insert h ip rl ip' :
  default [] (<[ip := rl]> (fh_ipv4_map h) !! ip') = if decide (ip' = ip) then rl else rlist_of h ip'.
Proof.
  unfold rlist_of. case_decide as Heq; [subst; by rewrite lookup_insert_eq|].
  by rewrite lookup_insert_ne.
Qed.

Lemma strcasecmp_true a b : strcasecmp a b = true <-> ToLower a = ToLower b.
Proof. apply bool_decide_eq_true. Qed.

Lemma strcasecmp_sym a b : strcasecmp a b = strcasecmp b a.
Proof. apply bool_decide_ext. by split. Qed.

Lemma has_flag_set f g : 0 < g -> has_flag (set_flag f g) g = true.
Proof.
  intros Hg. unfold has_flag, set_flag. rewrite negb_true_iff, Z.eqb_neq.
  rewrite Z.land_lor_distr_l, Z.land_diag. intros [_ ->]%Z.lor_eq_0_iff. lia.
Qed.

Lemma has_flag_set_other f g g' : Z.land g g' = 0 -> has_flag (set_flag f g) g' = has_flag f g'.
Proof. intros Hg. unfold has_flag, set_flag. by rewrite Z.land_lor_distr_l, Hg, Z.lor_0_r. Qed.

(** The record a changed heap holds, and the one it held. *)
Lemma lookup_changed (heap : gmap nat fqdn_record_t) a r r' b s' :
  heap !! a = Some r -> <[a := r']> heap !! b = Some s' ->
  exists s, heap !! b = Some s /\ ((b = a /\ s = r /\ s' = r') \/ (b <> a /\ s' = s)).
Proof.
  intros Ha. rewrite lookup_insert_Some. intros [[<- <-]|[? Hs]]; [by eauto 10|by eauto 10].
Qed.

Lemma dom_changed (heap : gmap nat fqdn_record_t) a r r' b :
  heap !! a = Some r -> is_Some (<[a := r']> heap !! b) <-> is_Some (heap !! b).
Proof. intros Ha. rewrite lookup_insert_is_Some'. naive_solver. Qed.

Lemma identity_changed (heap : gmap nat fqdn_record_t) a r r' b s' :
  heap !! a = Some r -> same_identity r r' -> <[a := r']> heap !! b = Some s' ->
  exists s, heap !! b = Some s /\ same_identity s s'.
Proof.
  intros Ha Hid (s & Hs & Heq)%(lookup_changed _ _ _ _ _ _ Ha). exists s. split; [done|].
  destruct Heq as [(-> & -> & ->)|[? ->]]; [done|by repeat split].
Qed.

Lemma codes_ok_changed heap bm a r r' :
  heap !! a = Some r -> fr_code r' = fr_code r -> codes_ok heap bm -> codes_ok (<[a := r']> heap) bm.
Proof.
  intros Ha Hc [I1 I2 I3 I4 I5].
  assert (Hlook : forall b s', <[a := r']> heap !! b = Some s' ->
    exists s, heap !! b = Some s /\ fr_code s' = fr_code s).
  { intros b s' (s & Hs & Heq)%(lookup_changed _ _ _ _ _ _ Ha). exists s. split; [done|].
    by destruct Heq as [(-> & -> & ->)|[? ->]]. }
  constructor; [done|done| | |].
  - intros b s' (s & Hs & ->)%Hlook. by apply (I3 b).
  - intros b c s' t' (s & Hs & ->)%Hlook (t & Ht & ->)%Hlook. by apply I4.
  - intros n Hn Hu. destruct (I5 n Hn Hu) as (b & s & Hs & Hcs).
    destruct (decide (a = b)) as [<-|Hne].
    + exists a, r'. rewrite lookup_insert_eq. split; [done|]. congruence.
    + exists b, s. by rewrite lookup_insert_ne.
Qed.

Lemma names_ok_changed h h' a r r' :
  names_ok h -> fh_heap h !! a = Some r -> same_identity r r' ->
  fh_heap h' = <[a := r']> (fh_heap h) -> fh_fresh h' = fh_fresh h ->
  fh_name_map h' = fh_name_map h -> fh_del_name_list h' = fh_del_name_list h -> names_ok h'.
Proof.
  intros [I1 I2 I3 I4 I5] Ha Hid Hh Hf Hn Hd. constructor; rewrite ?Hh, ?Hf, ?Hn, ?Hd; [| done | | |].
  - intros b Hb. apply I1. by rewrite (dom_changed _ _ r) in Hb.
  - intros b. rewrite (dom_changed _ _ r) by done. apply I3.
  - intros hash b c s' t' Hb Hc Hs Ht.
    destruct (identity_changed _ _ _ _ _ _ Ha Hid Hs) as (s & Hs' & -> & _).
    destruct (identity_changed _ _ _ _ _ _ Ha Hid Ht) as (t & Ht' & -> & _). by apply (I4 hash).
  - intros b s' Hs. destruct (identity_changed _ _ _ _ _ _ Ha Hid Hs) as (s & Hs' & _ & _ & ->).
    by apply I5.
Qed.

Lemma links_ok_store h a r r' :
  links_ok h -> fh_heap h !! a = Some r -> fr_iplist r' = fr_iplist r -> links_ok (store a r' h).
Proof.
  intros [I1 I2 I3 I4] Ha Hl.
  assert (Hlook : forall b s', fh_heap (store a r' h) !! b = Some s' ->
    exists s, fh_heap h !! b = Some s /\ fr_iplist s' = fr_iplist s).
  { intros b s' (s & Hs & Heq)%(lookup_changed _ _ _ _ _ _ Ha). exists s. split; [done|].
    by destruct Heq as [(-> & -> & ->)|[? ->]]. }
  constructor; [|intros ip b s' (s & Hs & ->)%Hlook; by apply I2|done|
                intros b s' (s & Hs & ->)%Hlook; by apply (I4 b)].
  intros ip b (s & Hs & Hip)%I1. simpl. destruct (decide (a = b)) as [<-|Hne].
  - exists r'. rewrite lookup_insert_eq, Hl. simplify_eq. done.
  - exists s. by rewrite lookup_insert_ne.
Qed.

Lemma fqdn_wf_store h a r r' :
  fqdn_wf h -> fh_heap h !! a = Some r -> same_identity r r' -> fr_iplist r' = fr_iplist r ->
  fqdn_wf (store a r' h).
Proof.
  intros [[H1 H2 H3] ????] Ha Hid Hl. constructor; try done. constructor.
  - by eapply names_ok_changed.
  - eapply codes_ok_changed; [done|apply Hid|done].
  - by eapply links_ok_store.
Qed.

(** ** Lookups never fault *)

Lemma deref_done h a : is_Some (fh_heap h !! a) -> exists r, deref h a = Done r /\ fh_heap h !! a = Some r.
Proof. intros [r Hr]. exists r. unfold deref. by rewrite Hr. Qed.

Lemma deref_eq h a r : fh_heap h !! a = Some r -> deref h a = Done r.
Proof. intros Hr. unfold deref. by rewrite Hr. Qed.

Lemma name_lookup_spec h name l :
  (forall hash a, (hash, a) ∈ l -> is_Some (fh_heap h !! a)) ->
  exists o, name_lookup h name l = Done o /\
  match o with
  | Some a => (fqdn_name_hash name, a) ∈ l /\
      exists r, fh_heap h !! a = Some r /\ strcasecmp (fr_name r) name = true
  | None => forall a r, (fqdn_name_hash name, a) ∈ l -> fh_heap h !! a = Some r ->
      strcasecmp (fr_name r) name = false
  end.
Proof.
  induction l as [|[hash a] l IH]; intros Hl; simpl.
  { exists None. split; [done|]. intros a r Ha. by apply elem_of_nil in Ha. }
  destruct IH as (o & Ho & Hspec). { intros hash' b Hb. apply (Hl hash'). by right. }
  assert (Hskip : (forall r, fqdn_name_hash name = hash -> fh_heap h !! a = Some r ->
                     strcasecmp (fr_name r) name = false) ->
    match o with
    | Some b => (fqdn_name_hash name, b) ∈ (hash, a) :: l /\
        exists r, fh_heap h !! b = Some r /\ strcasecmp (fr_name r) name = true
    | None => forall b r, (fqdn_name_hash name, b) ∈ (hash, a) :: l -> fh_heap h !! b = Some r ->
        strcasecmp (fr_name r) name = false
    end).
  { intros Hno. destruct o as [b|].
    - destruct Hspec as [Hin ?]. split; [by right|done].
    - intros b r Hin Hb. apply elem_of_cons in Hin as [Heq|Hin]; [|by eapply Hspec].
      simplify_eq. by apply Hno. }
  destruct (Z.eqb_spec hash (fqdn_name_hash name)) as [->|Hne].
  - destruct (deref_done h a) as (r & -> & Hr). { apply (Hl (fqdn_name_hash name)). left. }
    simpl. destruct (strcasecmp (fr_name r) name) eqn:Hcmp.
    + exists (Some a). split; [done|]. split; [left|]. eauto.
    + exists o. split; [done|]. apply Hskip. intros s _ Hs. congruence.
  - exists o. split; [done|]. apply Hskip. congruence.
Qed.

Lemma fqdn_name_lookup_spec h name :
  fqdn_inv h ->
  exists o, fqdn_name_lookup h name = Done o /\
  match o with
  | Some a => (fqdn_name_hash name, a) ∈ fh_name_map h /\
      exists r, fh_heap h !! a = Some r /\ strcasecmp (fr_name r) name = true
  | None => forall a r, (fqdn_name_hash name, a) ∈ fh_name_map h -> fh_heap h !! a = Some r ->
      strcasecmp (fr_name r) name = false
  end.
Proof.
  intros [Hi _ _]. apply name_lookup_spec. intros hash a Ha. apply (fi_dom h Hi), elem_of_app. left.
  apply list_elem_of_fmap. by exists (hash, a).
Qed.

(** ** The operations preserve the invariant *)

Lemma alloc_fqdn_code_spec h :
  codes_ok (fh_heap h) (fh_bm h) ->
  exists code h', alloc_fqdn_code h = Done (code, h') /\
  ((code = no_code /\ h' = fh_set_codes (fh_bm h) (-1) h /\
    forall n, 0 <= n < DPI_FQDN_MAX_ENTRIES -> bitmap_mem (fh_bm h) n = true) \/
   (1 <= code <= DPI_FQDN_MAX_ENTRIES /\ bitmap_mem (fh_bm h) (code - 1) = false /\
    exists bm, h' = fh_set_codes bm code h /\ bitmap_wf bm /\ bm_bits bm = DPI_FQDN_MAX_ENTRIES /\
    forall m, 0 <= m < DPI_FQDN_MAX_ENTRIES ->
      bitmap_mem bm m = bool_decide (m = code - 1) || bitmap_mem (fh_bm h) m)).
Proof.
  intros Hi. unfold alloc_fqdn_code. pose proof (fi_bits _ _ Hi) as Hb.
  destruct (bitmap_get_next_zero_spec (fh_bm h) (fh_code_cnt h) (fi_bm _ _ Hi)) as (r & -> & Hr).
  rewrite Hb in Hr. simpl. destruct Hr as [[Hr Hfree]|[-> Hall]].
  - rewrite (proj2 (Z.ltb_ge r 0)) by lia.
    destruct (bitmap_set_spec (fh_bm h) r (fi_bm _ _ Hi)) as (bm & -> & Hwf & Hbits & Hmem);
      [by rewrite Hb|].
    rewrite Hb in Hbits, Hmem. simpl. eexists _, _. split; [done|]. right.
    replace (r + 1 - 1) with r by lia. split_and!; [lia|lia|done|]. by exists bm.
  - simpl. eexists _, _. split; [done|]. by left.
Qed.

(** The codes with a new record under a free one. *)
Lemma codes_ok_new heap bm bm' a r :
  codes_ok heap bm -> heap !! a = None -> bitmap_wf bm' -> bm_bits bm' = DPI_FQDN_MAX_ENTRIES ->
  1 <= fr_code r <= DPI_FQDN_MAX_ENTRIES -> bitmap_mem bm (fr_code r - 1) = false ->
  (forall m, 0 <= m < DPI_FQDN_MAX_ENTRIES ->
     bitmap_mem bm' m = bool_decide (m = fr_code r - 1) || bitmap_mem bm m) ->
  codes_ok (<[a := r]> heap) bm'.
Proof.
  intros [I1 I2 I3 I4 I5] Ha Hbm Hbits Hcode Hfree Hmem.
  assert (Hno : forall b s, heap !! b = Some s -> fr_code s <> fr_code r).
  { intros b s Hs Heq. destruct (I3 b s Hs) as [_ Hu]. rewrite Heq in Hu. congruence. }
  constructor; [done|done| | |].
  - intros b s Hs. apply lookup_insert_Some in Hs as [[<- <-]|[_ Hs]].
    + split; [done|]. rewrite Hmem, bool_decide_true by lia. done.
    + destruct (I3 b s Hs) as [Hc Hu]. split; [done|]. rewrite Hmem, Hu by lia. apply orb_true_r.
  - intros b c s t Hs Ht Heq. apply lookup_insert_Some in Hs as [[<- <-]|[Hna Hs]];
      apply lookup_insert_Some in Ht as [[<- <-]|[Hnb Ht]]; [done| | |by apply (I4 b c s t)].
    + by destruct (Hno c t Ht).
    + by destruct (Hno b s Hs).
  - intros n Hn Hu. rewrite Hmem in Hu by done. destruct (decide (n = fr_code r - 1)) as [->|Hnr].
    + exists a, r. rewrite lookup_insert_eq. split; [done|lia].
    + rewrite bool_decide_false in Hu by done. destruct (I5 n Hn Hu) as (b & s & Hs & Hc).
      exists b, s. rewrite lookup_insert_ne by congruence. done.
Qed.

Definition with_new_record (hash : Z) (r : fqdn_record_t) (bm : bitmap) (cnt : Z) (h : dpi_fqdn_hdl_t)
    : dpi_fqdn_hdl_t :=
  FqdnHdl (<[fh_fresh h := r]> (fh_heap h)) (S (fh_fresh h))
    (fh_name_map h ++ [(hash, fh_fresh h)]) (fh_ipv4_map h) bm cnt
    (fh_del_name_list h) (fh_del_ipv4_list h) (fh_del_rlist h).

Lemma fresh_record h : names_ok h -> fh_heap h !! fh_fresh h = None /\ fh_fresh h ∉ (fh_name_map h).*2.
Proof.
  intros Hi. assert (Hf : fh_heap h !! fh_fresh h = None).
  { apply eq_None_not_Some. intros Hs%(fi_fresh h Hi). lia. }
  split; [done|]. intros Hin. assert (is_Some (fh_heap h !! fh_fresh h)) as [? ?]; [|congruence].
  apply (fi_dom h Hi), elem_of_app. by left.
Qed.

(** The names with a record for a name that has none. *)
Lemma names_ok_new h hash r bm cnt :
  names_ok h -> fh_del_name_list h = [] -> deleted r = false ->
  (forall b s, (hash, b) ∈ fh_name_map h -> fh_heap h !! b = Some s ->
     strcasecmp (fr_name s) (fr_name r) = false) ->
  names_ok (with_new_record hash r bm cnt h).
Proof.
  intros Hi Hq Hdel Hnew. destruct (fresh_record h Hi) as [Hf Hnin].
  destruct Hi as [I1 I2 I3 I4 I5]. rewrite Hq, app_nil_r in I2, I3. setoid_rewrite Hq in I5.
  constructor; simpl; rewrite ?Hq, ?app_nil_r.
  - intros a [s Hs]. apply lookup_insert_Some in Hs as [[<- _]|[_ Hs]]; [lia|].
    assert (is_Some (fh_heap h !! a)) as Ha%I1 by eauto. lia.
  - rewrite fmap_app. simpl. apply NoDup_app. split_and!; [done| |apply NoDup_singleton].
    intros x Hx ->%list_elem_of_singleton. done.
  - intros a. rewrite fmap_app, elem_of_app, I3. simpl.
    rewrite list_elem_of_singleton, lookup_insert_is_Some'. naive_solver.
  - assert (Hold : forall hsh a s, (hsh, a) ∈ fh_name_map h ->
      <[fh_fresh h := r]> (fh_heap h) !! a = Some s -> fh_heap h !! a = Some s).
    { intros hsh a s Ha Hs. apply lookup_insert_Some in Hs as [[<- _]|[_ Hs]]; [|done].
      exfalso. apply Hnin, list_elem_of_fmap. by exists (hsh, fh_fresh h). }
    intros hsh a b s t Ha Hb Hs Ht Hcmp.
    apply elem_of_app in Ha as [Ha|Ha]; apply elem_of_app in Hb as [Hb|Hb];
      rewrite ?list_elem_of_singleton in Ha; rewrite ?list_elem_of_singleton in Hb.
    + eauto.
    + injection Hb as -> ->. rewrite lookup_insert_eq in Ht. injection Ht as <-.
      rewrite (Hnew a s) in Hcmp; [done|done|eauto].
    + injection Ha as -> ->. rewrite lookup_insert_eq in Hs. injection Hs as <-.
      rewrite strcasecmp_sym, (Hnew b t) in Hcmp; [done|done|eauto].
    + congruence.
  - intros a s Hs. apply lookup_insert_Some in Hs as [[<- <-]|[_ Hs]]; [|by apply I5].
    rewrite Hdel. split; [done|]. intros H%elem_of_nil. done.
Qed.

Lemma links_ok_new h hash r bm cnt :
  names_ok h -> links_ok h -> fr_iplist r = [] -> links_ok (with_new_record hash r bm cnt h).
Proof.
  intros Hn [I1 I2 I3 I4] Hips. destruct (fresh_record h Hn) as [Hf _].
  constructor; [| |done|].
  - intros ip a Ha. destruct (I1 ip a Ha) as (s & Hs & Hip). exists s. simpl.
    rewrite lookup_insert_ne by congruence. done.
  - intros ip a s Hs Hd Hip. simpl in Hs. apply lookup_insert_Some in Hs as [[<- <-]|[_ Hs]]; [|by apply (I2 ip a s)].
    rewrite Hips in Hip. by apply elem_of_nil in Hip.
  - intros a s Hs. simpl in Hs. apply lookup_insert_Some in Hs as [[<- <-]|[_ Hs]]; [|by apply (I4 a)].
    rewrite Hips. constructor.
Qed.

(** ** The mapping of an address *)

Section map_ip.
Context (h : dpi_fqdn_hdl_t) (ip : Z) (a : nat) (r : fqdn_record_t).
Context (Hwf : fqdn_wf h) (Ha : fh_heap h !! a = Some r).

Local Definition ip_record : fqdn_record_t := if bool_decide (ip ∈ fr_iplist r) then r else fr_add_ip ip r.
Local Definition ip_rlist : list nat :=
  if bool_decide (a ∈ rlist_of h ip) then rlist_of h ip else rlist_of h ip ++ [a].
Local Definition ip_hdl : dpi_fqdn_hdl_t :=
  store a ip_record (fh_set_ipv4 (<[ip := ip_rlist]> (fh_ipv4_map h)) h).

Lemma map_ip_eq : exists ret, map_ip ip a r h = (ret, ip_hdl).
Proof.
  unfold map_ip, config_record_ip_list, ip_hdl, ip_record, ip_rlist, rlist_of.
  destruct (bool_decide (ip ∈ fr_iplist r)); eauto.
Qed.

Lemma elem_of_ip_rlist b : b ∈ ip_rlist <-> b = a \/ b ∈ rlist_of h ip.
Proof.
  unfold ip_rlist. case_bool_decide; [naive_solver|].
  rewrite elem_of_app, list_elem_of_singleton. naive_solver.
Qed.

Lemma elem_of_ip_record x : x ∈ fr_iplist ip_record <-> x = ip \/ x ∈ fr_iplist r.
Proof.
  unfold ip_record. case_bool_decide; [naive_solver|]. simpl.
  rewrite elem_of_app, list_elem_of_singleton. naive_solver.
Qed.

Lemma ip_record_identity : same_identity r ip_record /\ fr_flag ip_record = fr_flag r.
Proof. unfold ip_record. by case_bool_decide. Qed.

Lemma rlist_of_ip_hdl ip' : rlist_of ip_hdl ip' = if decide (ip' = ip) then ip_rlist else rlist_of h ip'.
Proof. apply rlist_of_insert. Qed.

Lemma NoDup_snoc {A} (l : list A) x : NoDup l -> x ∉ l -> NoDup (l ++ [x]).
Proof.
  intros Hl Hx. apply NoDup_app. split_and!; [done| |apply NoDup_singleton].
  intros y Hy ->%list_elem_of_singleton. done.
Qed.

Lemma links_ok_ip_hdl : links_ok ip_hdl.
Proof.
  destruct Hwf as [[_ _ [I1 I2 I3 I4]] Hq _ _ _]. constructor.
  - intros ip' b Hb. rewrite rlist_of_ip_hdl in Hb.
    assert (Hcase : (b = a /\ ip' ∈ fr_iplist ip_record) \/
                    exists s, fh_heap h !! b = Some s /\ ip' ∈ fr_iplist s).
    { case_decide as Hip; [|right; by apply I1]. subst.
      apply elem_of_ip_rlist in Hb as [->|Hb]; [left|right; by apply I1].
      split; [done|]. apply elem_of_ip_record. by left. }
    change (fh_heap ip_hdl) with (<[a := ip_record]> (fh_heap h)).
    destruct (decide (a = b)) as [<-|Hne].
    + exists ip_record. rewrite lookup_insert_eq. split; [done|].
      destruct Hcase as [[_ ?]|(s & Hs & Hx)]; [done|]. apply elem_of_ip_record. right. congruence.
    + rewrite lookup_insert_ne by done. naive_solver.
  - intros ip' b s' Hs Hd Hx. rewrite rlist_of_ip_hdl.
    destruct (lookup_changed _ _ _ _ _ _ Ha Hs) as (s & Hs0 & Heq).
    assert (Hcase : (ip' = ip /\ b = a) \/ ip' ∈ fr_iplist s).
    { destruct Heq as [(-> & -> & ->)|[? ->]]; [|by right].
      apply elem_of_ip_record in Hx as [->|Hx]; [by left|by right]. }
    destruct Hcase as [[-> ->]|Hx'].
    + rewrite decide_True by done. apply elem_of_ip_rlist. by left.
    + pose proof (I2 ip' b s Hs0 Hd Hx') as Hb. case_decide as Hip; [|done]. subst.
      apply elem_of_ip_rlist. by right.
  - intros ip'. rewrite rlist_of_ip_hdl. case_decide; [|apply I3]. unfold ip_rlist.
    case_bool_decide; [apply I3|by apply NoDup_snoc].
  - intros b s' Hs. destruct (lookup_changed _ _ _ _ _ _ Ha Hs) as (s & Hs0 & Heq).
    destruct Heq as [(-> & -> & ->)|[? ->]]; [|by apply (I4 b)]. unfold ip_record.
    case_bool_decide; [by apply (I4 a)|]. apply NoDup_snoc; [by apply (I4 a)|done].
Qed.

(** The record and the address list each other afterwards; the other records
    and the other lists are as before. *)
Lemma map_ip_spec :
  exists ret h' r', map_ip ip a r h = (ret, h') /\ fqdn_wf h' /\ fh_heap h' !! a = Some r' /\
    fr_flag r' = fr_flag r /\ fr_code r' = fr_code r /\ fh_name_map h' = fh_name_map h /\
    a ∈ rlist_of h' ip /\
    (forall b, b <> a -> fh_heap h' !! b = fh_heap h !! b) /\
    (forall ip', ip' <> ip -> rlist_of h' ip' = rlist_of h ip').
Proof.
  destruct map_ip_eq as [ret Heq], ip_record_identity as [Hid Hf].
  exists ret, ip_hdl, ip_record. split; [done|].
  destruct Hwf as [[Hn Hc _] Hq1 Hq2 Hq3 Hne].
  assert (Hin : a ∈ ip_rlist) by (apply elem_of_ip_rlist; by left).
  split_and!; [|apply lookup_insert_eq|done|apply Hid|done| | |].
  - constructor; [|done..|].
    + constructor; [by eapply names_ok_changed| |apply links_ok_ip_hdl].
      eapply codes_ok_changed; [done|apply Hid|done].
    + intros ip' rl. simpl. rewrite lookup_insert_Some. intros [[_ <-]|[_ Hr]]; [|by eapply Hne].
      intros Hz. rewrite Hz in Hin. by apply elem_of_nil in Hin.
  - rewrite rlist_of_ip_hdl, decide_True by done. done.
  - intros b Hb. by apply lookup_insert_ne.
  - intros ip' Hip'. by rewrite rlist_of_ip_hdl, decide_False.
Qed.
End map_ip.

(** ** Configured names *)

(** The records keep their names and their codes. *)
Definition keeps (h h' : dpi_fqdn_hdl_t) : Prop :=
  forall b s, fh_heap h !! b = Some s ->
  exists s', fh_heap h' !! b = Some s' /\ fr_name s' = fr_name s /\ fr_code s' = fr_code s.

#[export] Instance keeps_preorder : PreOrder keeps.
Proof.
  split.
  - intros h b s Hs. eauto.
  - intros h1 h2 h3 H12 H23 b s Hs. destruct (H12 b s Hs) as (s2 & Hs2 & Hn2 & Hc2).
    destruct (H23 b s2 Hs2) as (s3 & Hs3 & Hn3 & Hc3). exists s3. split_and!; congruence.
Qed.

Lemma keeps_store h a r r' :
  fh_heap h !! a = Some r -> same_identity r r' -> keeps h (store a r' h).
Proof.
  intros Ha (Hn & Hc & _) b s Hs. simpl. destruct (decide (a = b)) as [<-|Hne].
  - exists r'. rewrite lookup_insert_eq. simplify_eq. done.
  - exists s. by rewrite lookup_insert_ne.
Qed.

Lemma keeps_map_ip h ip a r : fh_heap h !! a = Some r -> keeps h (map_ip ip a r h).2.
Proof.
  intros Ha. destruct (map_ip_eq h ip a r) as [ret ->]. simpl.
  change (keeps (fh_set_ipv4 (<[ip := ip_rlist h ip a]> (fh_ipv4_map h)) h)
    (ip_hdl h ip a r)). apply (keeps_store _ _ r); [done|apply ip_record_identity].
Qed.

Lemma substring_all n s : (String.length s <= n)%nat -> String.substring 0 n s = s.
Proof.
  revert n. induction s as [|c s IH]; intros [|n] Hn; simpl in *; try done; [lia|].
  f_equal. apply IH. lia.
Qed.

Lemma strlcpy_short name : (String.length name < MAX_FQDN_LEN)%nat -> strlcpy name MAX_FQDN_LEN = name.
Proof. intros Hn. apply substring_all. unfold MAX_FQDN_LEN in *. lia. Qed.

Lemma fqdn_name_lookup_found h name a r :
  fqdn_inv h -> (fqdn_name_hash name, a) ∈ fh_name_map h -> fh_heap h !! a = Some r ->
  strcasecmp (fr_name r) name = true -> fqdn_name_lookup h name = Done (Some a).
Proof.
  intros Hi Hin Ha Hcmp. destruct (fqdn_name_lookup_spec h name Hi) as (o & -> & Ho).
  destruct o as [b|]; [|rewrite (Ho a r Hin Ha) in Hcmp; done].
  destruct Ho as (Hb & s & Hs & Hcs). do 2 f_equal.
  apply (fi_unique h (fi_names_ok h Hi) (fqdn_name_hash name) b a s r); [done..|].
  rewrite !strcasecmp_true in *. congruence.
Qed.

(** The record of a name that is in the table, or a new one. *)
Lemma config_record_spec h name vh :
  fqdn_wf h -> (String.length name < MAX_FQDN_LEN)%nat ->
  exists h', keeps h h' /\ fqdn_wf h' /\ fh_ipv4_map h' = fh_ipv4_map h /\
  ((forall ip, config_fqdn_ipv4_mapping h name ip vh = Done (no_code, h') /\
      fh_heap h' = fh_heap h /\ fqdn_name_lookup h name = Done None /\
      forall n, 0 <= n < DPI_FQDN_MAX_ENTRIES -> bitmap_mem (fh_bm h) n = true) \/
   exists a r, (fqdn_name_hash name, a) ∈ fh_name_map h' /\ fh_heap h' !! a = Some r /\
     strcasecmp (fr_name r) name = true /\ fr_vh r = vh /\ marked r = false /\
     forall ip, config_fqdn_ipv4_mapping h name ip vh =
       if ip =? 0 then Done (fr_code r, h') else Done (fr_code r, (map_ip ip a r h').2)).
Proof.
  intros Hwf Hlen. pose proof (fq_inv h Hwf) as Hi. unfold config_fqdn_ipv4_mapping.
  destruct (fqdn_name_lookup_spec h name Hi) as ([a|] & -> & Ho); cbn [mbind outcome_bind].
  - destruct Ho as (Hin & r & Hr & Hcmp). rewrite (deref_eq h a r Hr). cbn [mbind outcome_bind].
    set (flag := if has_flag (fr_flag r) FQDN_RECORD_WILDCARD then FQDN_RECORD_WILDCARD else 0).
    assert (Hf : has_flag flag FQDN_RECORD_DELETED = false /\ has_flag flag FQDN_RECORD_TO_DELETE = false)
      by (unfold flag; by destruct (has_flag _ _)).
    assert (Hid : same_identity r (fr_set_flag flag (fr_set_vh vh r))).
    { split_and!; [done..|]. transitivity false; [apply Hf|]. symmetry.
      apply not_true_is_false. rewrite (fi_deleted h (fi_names_ok h Hi) a r Hr), (fq_names h Hwf).
      apply not_elem_of_nil. }
    exists (store a (fr_set_flag flag (fr_set_vh vh r)) h).
    split_and!; [by eapply keeps_store|by eapply fqdn_wf_store|done|]. right.
    exists a, (fr_set_flag flag (fr_set_vh vh r)).
    split_and!; [done|apply lookup_insert_eq|done..|apply Hf|done].
  - destruct (alloc_fqdn_code_spec h (fi_codes_ok h Hi))
      as (code & h1 & -> & [(-> & -> & Hall)|(Hc & Hfree & bm & -> & Hbm & Hbits & Hmem)]);
      cbn [mbind outcome_bind].
    + exists (fh_set_codes (fh_bm h) (-1) h). split_and!; [by intros b s; eauto| |done|left; by intros ip].
      destruct Hwf as [[Hn Hc Hl] ????]. constructor; [|done..].
      constructor; [by destruct Hn; constructor|done|by destruct Hl; constructor].
    + rewrite (proj2 (Z.eqb_neq code no_code)) by (unfold DPI_FQDN_MAX_ENTRIES, no_code in *; lia).
      rewrite (strlcpy_short name Hlen). cbn [mbind outcome_bind].
      set (flag := if is_fqdn_name_wildcard name then FQDN_RECORD_WILDCARD else 0).
      set (r := FqdnRecord name code flag 0 0 [] vh).
      destruct (fresh_record h (fi_names_ok h Hi)) as [Hf _].
      assert (Hfl : has_flag flag FQDN_RECORD_DELETED = false /\ has_flag flag FQDN_RECORD_TO_DELETE = false)
        by (unfold flag; by destruct (is_fqdn_name_wildcard name)).
      exists (with_new_record (fqdn_name_hash name) r bm code h).
      split_and!; [| |done|right; exists (fh_fresh h), r; split_and!].
      * intros b s Hs. exists s. simpl. rewrite lookup_insert_ne by congruence. done.
      * destruct Hwf as [[Hn Hco Hl] Hq ???]. constructor; [|done..]. constructor.
        -- apply names_ok_new; [done..|apply Hfl|done].
        -- by apply (codes_ok_new _ (fh_bm h)).
        -- by apply links_ok_new.
      * simpl. apply elem_of_app. right. by apply list_elem_of_singleton.
      * apply lookup_insert_eq.
      * by apply strcasecmp_true.
      * done.
      * apply Hfl.
      * done.
Qed.

(** A configured name has one code as long as it is in the table, two names
    have different codes, and the table refuses a name only when all its codes
    are in use; the code leads from the address to the name. *)
Theorem config_fqdn_ipv4_mapping_spec h name ip vh :
  fqdn_wf h -> (String.length name < MAX_FQDN_LEN)%nat ->
  exists code h', config_fqdn_ipv4_mapping h name ip vh = Done (code, h') /\ keeps h h' /\ fqdn_wf h' /\
  ((code = no_code /\ fh_heap h' = fh_heap h /\ fqdn_name_lookup h name = Done None /\
    forall n, 1 <= n <= DPI_FQDN_MAX_ENTRIES -> exists a r, fh_heap h !! a = Some r /\ fr_code r = n) \/
   exists a r, fqdn_name_lookup h' name = Done (Some a) /\ fh_heap h' !! a = Some r /\
     fr_code r = code /\ 1 <= code <= DPI_FQDN_MAX_ENTRIES /\ marked r = false /\
     (ip <> 0 -> a ∈ rlist_of h' ip)).
Proof.
  intros Hwf Hlen. destruct (config_record_spec h name vh Hwf Hlen) as (h1 & Hk & Hwf1 & _ & Hcase).
  destruct Hcase as [Hno|(a & r & Hin & Hr & Hcmp & _ & Hm & Hcfg)].
  - destruct (Hno ip) as (Hcfg & Hh & Hl & Hall). exists no_code, h1. split_and!; [done..|]. left.
    split_and!; [done..|]. intros n Hn. specialize (Hall (n - 1) ltac:(lia)).
    destruct (fi_code_used _ _ (fi_codes_ok h (fq_inv h Hwf)) (n - 1) ltac:(lia) Hall) as (a & r & Ha & Hc).
    exists a, r. split; [done|lia].
  - pose proof (proj1 (fi_code _ _ (fi_codes_ok _ (fq_inv _ Hwf1)) a r Hr)) as Hrange.
    rewrite Hcfg. destruct (Z.eqb_spec ip 0) as [Hz|Hnz].
    + eexists _, h1. split; [done|]. split_and!; [done..|]. right. exists a, r.
      split_and!; try (done || lia). by eapply fqdn_name_lookup_found; [apply (fq_inv _ Hwf1)|..].
    + pose proof (keeps_map_ip h1 ip a r Hr) as Hk2.
      destruct (map_ip_spec h1 ip a r Hwf1 Hr)
        as (ret & h2 & r2 & Heq & Hwf2 & Hr2 & Hf2 & Hc2 & Hnm & Hin2 & _).
      rewrite Heq in *. simpl in *. exists (fr_code r), h2. split; [done|].
      split_and!; [by etrans|done|]. right. exists a, r2. split_and!; try (done || lia).
      * eapply (fqdn_name_lookup_found h2 name a r2 (fq_inv _ Hwf2)); [by rewrite Hnm|done|].
        destruct (Hk2 a r Hr) as (s & Hs & Hn & _). simplify_eq. by rewrite Hn.
      * unfold marked in *. by rewrite Hf2.
Qed.

(** ** Snooped addresses *)

(** The same names, codes and flags. *)
Definition same_names (h h' : dpi_fqdn_hdl_t) : Prop :=
  fh_name_map h' = fh_name_map h /\
  forall b, (fun r => (fr_name r, fr_code r, fr_flag r)) <$> fh_heap h' !! b =
            (fun r => (fr_name r, fr_code r, fr_flag r)) <$> fh_heap h !! b.

#[export] Instance same_names_equiv : PreOrder same_names.
Proof.
  split; [done|]. intros h1 h2 h3 [H1 H2] [H3 H4]. split; [congruence|]. intros b. by rewrite H4, H2.
Qed.

Lemma same_names_lookup h h' b r :
  same_names h h' -> fh_heap h !! b = Some r ->
  exists r', fh_heap h' !! b = Some r' /\ fr_name r' = fr_name r /\ fr_code r' = fr_code r /\
             fr_flag r' = fr_flag r.
Proof.
  intros [_ Hs] Hr. specialize (Hs b). rewrite Hr in Hs.
  destruct (fh_heap h' !! b) as [r'|]; simpl in Hs; [|done]. exists r'. simplify_eq. done.
Qed.

Lemma same_names_store h a r r' :
  fh_heap h !! a = Some r -> fr_name r' = fr_name r -> fr_code r' = fr_code r ->
  fr_flag r' = fr_flag r -> same_names h (store a r' h).
Proof.
  intros Ha Hn Hc Hf. split; [done|]. intros b. simpl. destruct (decide (a = b)) as [<-|Hne].
  - rewrite lookup_insert_eq, Ha. simpl. congruence.
  - by rewrite lookup_insert_ne.
Qed.

Lemma same_names_name_lookup h h' name :
  same_names h h' -> fqdn_name_lookup h' name = fqdn_name_lookup h name.
Proof.
  intros [Hnm Hs]. unfold fqdn_name_lookup. rewrite Hnm. clear Hnm.
  induction (fh_name_map h) as [|[hash a] l IH]; simpl; [done|].
  destruct (hash =? fqdn_name_hash name); [|done]. unfold deref. pose proof (Hs a) as Ha.
  destruct (fh_heap h !! a) as [r|], (fh_heap h' !! a) as [r'|]; simpl in *; simplify_eq; [|done].
  assert (fr_name r' = fr_name r) as -> by congruence. by destruct (strcasecmp _ name).
Qed.

Lemma map_ip_same_names h ip a r : fh_heap h !! a = Some r -> same_names h (map_ip ip a r h).2.
Proof.
  intros Ha. destruct (map_ip_eq h ip a r) as [ret ->], (ip_record_identity ip r) as [(Hn & Hc & _) Hf].
  change (same_names (fh_set_ipv4 (<[ip := ip_rlist h ip a]> (fh_ipv4_map h)) h) (ip_hdl h ip a r)).
  by eapply same_names_store.
Qed.

Lemma map_ip_rlist h ip a r ip' b :
  b ∈ rlist_of (map_ip ip a r h).2 ip' <-> b ∈ rlist_of h ip' \/ (b = a /\ ip' = ip).
Proof.
  destruct (map_ip_eq h ip a r) as [ret ->]. simpl. rewrite rlist_of_ip_hdl.
  case_decide as Hip; [subst; rewrite elem_of_ip_rlist|]; naive_solver.
Qed.

Lemma associate_loop_spec h a ips new :
  fqdn_wf h -> is_Some (fh_heap h !! a) ->
  exists new' h', associate_loop h a ips new = Done (new', h') /\ fqdn_wf h' /\ same_names h h' /\
  forall ip b, b ∈ rlist_of h' ip <-> b ∈ rlist_of h ip \/ (b = a /\ ip ∈ ips).
Proof.
  revert h new. induction ips as [|ip ips IH]; intros h new Hwf Ha; simpl.
  { exists new, h. split_and!; [done..|]. intros ip b. rewrite elem_of_nil. naive_solver. }
  destruct (deref_done h a Ha) as (r & -> & Hr). simpl.
  pose proof (map_ip_same_names h ip a r Hr) as Hsn. pose proof (map_ip_rlist h ip a r) as Hrl.
  destruct (map_ip_spec h ip a r Hwf Hr) as (ret & h1 & r1 & Heq & Hwf1 & Hr1 & _).
  rewrite Heq in *. simpl in *.
  edestruct (IH h1) as (new' & h' & -> & Hwf' & Hsn' & Hrl'); [done|by eauto|].
  exists new', h'. split_and!; [done|done|by etrans|].
  intros ip' b. rewrite Hrl', Hrl, elem_of_cons. naive_solver.
Qed.

Lemma associate_ip_record_spec h a ips :
  fqdn_wf h -> is_Some (fh_heap h !! a) ->
  exists h', associate_ip_record h a ips = Done h' /\ fqdn_wf h' /\ same_names h h' /\
  forall ip b, b ∈ rlist_of h' ip <-> b ∈ rlist_of h ip \/ (b = a /\ ip ∈ ips).
Proof.
  intros Hwf [r Ha]. unfold associate_ip_record.
  destruct (associate_loop_spec h a ips false Hwf ltac:(eauto)) as (new & h1 & -> & Hwf1 & Hsn & Hrl).
  simpl. destruct new; [|by exists h1]. destruct (same_names_lookup _ _ _ _ Hsn Ha) as (r1 & Hr1 & _).
  rewrite (deref_eq h1 a r1 Hr1). simpl. eexists. split_and!; [done| | |done].
  - by eapply fqdn_wf_store.
  - etrans; [done|]. by eapply same_names_store.
Qed.

(** A name in the answer that is in the table and not being deleted. *)
Definition live_name (h : dpi_fqdn_hdl_t) (name : string) (a : nat) : Prop :=
  fqdn_name_lookup h name = Done (Some a) /\
  exists r, fh_heap h !! a = Some r /\
    has_flag (fr_flag r) (Z.lor FQDN_RECORD_TO_DELETE FQDN_RECORD_DELETED) = false.

Lemma live_name_same h h' name a :
  same_names h h' -> live_name h' name a <-> live_name h name a.
Proof.
  intros Hsn. unfold live_name. rewrite (same_names_name_lookup h h' name Hsn). destruct Hsn as [_ Hs].
  specialize (Hs a). apply and_iff_compat_l.
  destruct (fh_heap h !! a) as [r|], (fh_heap h' !! a) as [r'|]; simpl in Hs; simplify_eq; [|naive_solver].
  split; intros (s & [= <-] & Hf); [exists r|exists r']; (split; [done|]); congruence.
Qed.

Lemma snoop_name_spec ips h name :
  fqdn_wf h ->
  exists h', snoop_name ips h name = Done h' /\ fqdn_wf h' /\ same_names h h' /\
  forall ip b, b ∈ rlist_of h' ip <-> b ∈ rlist_of h ip \/ (ip ∈ ips /\ live_name h name b).
Proof.
  intros Hwf. unfold snoop_name, live_name.
  destruct (fqdn_name_lookup_spec h name (fq_inv h Hwf)) as ([a|] & Hl & Ho); rewrite Hl; simpl.
  2: { exists h. split_and!; [done..|]. naive_solver. }
  destruct Ho as (_ & r & Hr & _). rewrite (deref_eq h a r Hr). simpl.
  destruct (has_flag (fr_flag r) _) eqn:Hf.
  { exists h. split_and!; [done..|]. intros ip b. split; [by left|]. intros [?|(_ & [= ->] & s & Hs & Hfs)]; [done|].
    simplify_eq. congruence. }
  destruct (associate_ip_record_spec h a ips Hwf ltac:(eauto)) as (h' & -> & Hwf' & Hsn & Hrl).
  exists h'. split_and!; [done..|]. intros ip b. rewrite Hrl. split.
  - intros [?|[-> ?]]; [by left|]. right. eauto.
  - intros [?|(? & [= ->] & _)]; [by left|by right].
Qed.

(** An answer of the DNS: its addresses become addresses of the name and of
    the wildcards it matches, when the table has them, and of no other name. *)
Theorem snooped_fqdn_ipv4_mapping_spec h name ips :
  fqdn_wf h ->
  exists h', snooped_fqdn_ipv4_mapping h name ips = Done h' /\ fqdn_wf h' /\ same_names h h' /\
  forall ip b, b ∈ rlist_of h' ip <->
    b ∈ rlist_of h ip \/
    (ip ∈ ips /\ exists n, n ∈ ToLower name :: wildcard_names (ToLower name) /\ live_name h n b).
Proof.
  intros Hwf. unfold snooped_fqdn_ipv4_mapping.
  assert (Hfold : forall l h, fqdn_wf h ->
    exists h', foldM (snoop_name ips) h l = Done h' /\ fqdn_wf h' /\ same_names h h' /\
    forall ip b, b ∈ rlist_of h' ip <->
      b ∈ rlist_of h ip \/ (ip ∈ ips /\ exists n, n ∈ l /\ live_name h n b)).
  { clear h Hwf. induction l as [|n l IH]; intros h Hwf; simpl.
    - exists h. split_and!; [done..|]. intros ip b. setoid_rewrite elem_of_nil. naive_solver.
    - destruct (snoop_name_spec ips h n Hwf) as (h1 & -> & Hwf1 & Hsn1 & Hrl1). simpl.
      destruct (IH h1 Hwf1) as (h2 & -> & Hwf2 & Hsn2 & Hrl2). exists h2.
      split_and!; [done|done|by etrans|]. intros ip b. rewrite Hrl2, Hrl1.
      setoid_rewrite (live_name_same h h1); [|done]. setoid_rewrite elem_of_cons. naive_solver. }
  exact (Hfold (ToLower name :: wildcard_names (ToLower name)) h Hwf).
Qed.

(** ** Deletion removes the marked names and nothing else *)

Lemma enqueue_names_perm (names : list (Z * nat)) D e :
  NoDup names -> e ∈ names ->
  names.*2 ++ D ≡ₚ (filter (fun e' => e' <> e) names).*2 ++ (D ++ [e.2]).
Proof.
  intros Hnd He. assert (Hp : names ≡ₚ e :: filter (fun e' => e' <> e) names).
  { apply NoDup_Permutation; [done| |].
    - constructor; [|by apply NoDup_filter]. rewrite list_elem_of_filter. naive_solver.
    - intros x. rewrite elem_of_cons, list_elem_of_filter. destruct (decide (x = e)); naive_solver. }
  rewrite Hp at 1. simpl. rewrite app_assoc, Permutation_cons_append. done.
Qed.

Lemma names_NoDup h : names_ok h -> NoDup (fh_name_map h).
Proof. intros Hn. pose proof (fi_names h Hn) as H. apply NoDup_app in H as [H _]. by eapply NoDup_fmap_1. Qed.

Section enqueue.
Context (h : dpi_fqdn_hdl_t) (e : Z * nat) (r : fqdn_record_t).
Context (Hi : fqdn_inv h) (He : e ∈ fh_name_map h) (Hr : fh_heap h !! e.2 = Some r).

Local Definition queued : fqdn_record_t := fr_set_flag (set_flag (fr_flag r) FQDN_RECORD_DELETED) r.

Lemma queued_lookup b s' :
  fh_heap (enqueue_name e r h) !! b = Some s' ->
  exists s, fh_heap h !! b = Some s /\ ((b = e.2 /\ s = r /\ s' = queued) \/ (b <> e.2 /\ s' = s)).
Proof. apply lookup_changed, Hr. Qed.

Lemma enqueue_not_queued : e.2 ∉ fh_del_name_list h.
Proof.
  pose proof (fi_names h (fi_names_ok h Hi)) as Hnd. apply NoDup_app in Hnd as (_ & Hno & _).
  apply Hno. apply list_elem_of_fmap. by exists e.
Qed.

Lemma enqueue_names_ok : names_ok (enqueue_name e r h).
Proof.
  destruct Hi as [Hn _ _]. pose proof (names_NoDup h Hn) as Hnd.
  pose proof (enqueue_names_perm _ (fh_del_name_list h) e Hnd He) as Hp.
  destruct Hn as [I1 I2 I3 I4 I5]. constructor.
  - intros b Hb. apply I1. change (is_Some (<[e.2 := queued]> (fh_heap h) !! b)) in Hb.
    by rewrite (dom_changed _ _ r) in Hb.
  - simpl. by rewrite <-Hp.
  - intros b. change (fh_heap (enqueue_name e r h)) with (<[e.2 := queued]> (fh_heap h)).
    rewrite (dom_changed _ _ r) by done. rewrite <-I3. simpl. by rewrite Hp.
  - intros hash b c s' t' Hb Hc (s & Hs & Hs')%queued_lookup (t & Ht & Ht')%queued_lookup Hcmp.
    simpl in Hb, Hc. rewrite list_elem_of_filter in Hb, Hc.
    apply (I4 hash b c s t); [apply Hb|apply Hc|done|done|].
    by destruct Hs' as [(-> & -> & ->)|[? ->]], Ht' as [(-> & -> & ->)|[? ->]].
  - intros b s' (s & Hs & Hs')%queued_lookup. simpl. rewrite elem_of_app, list_elem_of_singleton.
    destruct Hs' as [(-> & -> & ->)|[? ->]].
    + split; [by right|]. intros _. by apply has_flag_set.
    + rewrite (I5 b s Hs). naive_solver.
Qed.

Lemma enqueue_links_ok : links_ok (enqueue_name e r h).
Proof.
  destruct Hi as [_ _ [I1 I2 I3 I4]].
  assert (Hlook : forall b s', fh_heap (enqueue_name e r h) !! b = Some s' ->
    exists s, fh_heap h !! b = Some s /\ fr_iplist s' = fr_iplist s).
  { intros b s' (s & Hs & Hs')%queued_lookup. exists s. split; [done|].
    by destruct Hs' as [(-> & -> & ->)|[? ->]]. }
  constructor; [| |done|].
  - intros ip b (s & Hs & Hip)%I1.
    change (fh_heap (enqueue_name e r h)) with (<[e.2 := queued]> (fh_heap h)).
    destruct (decide (e.2 = b)) as [<-|Hne].
    + exists queued. rewrite lookup_insert_eq. simplify_eq. done.
    + exists s. by rewrite lookup_insert_ne.
  - intros ip b s' (s & Hs & ->)%Hlook Hd. apply (I2 ip b s Hs). simpl in Hd.
    rewrite elem_of_app in Hd. naive_solver.
  - intros b s' (s & Hs & ->)%Hlook. by apply (I4 b).
Qed.

Lemma enqueue_inv : fqdn_inv (enqueue_name e r h).
Proof.
  constructor; [apply enqueue_names_ok| |apply enqueue_links_ok].
  apply (codes_ok_changed _ _ _ r); [done..|apply Hi].
Qed.
End enqueue.

(** A live record is not marked. *)
Definition live (h : dpi_fqdn_hdl_t) (a : nat) : bool :=
  match fh_heap h !! a with Some r => negb (marked r) | None => false end.

(** A part of the deletion: the records that are not marked stay as they are,
    the others keep their mark, and no list loses a live record. *)
Record del_rel (h h' : dpi_fqdn_hdl_t) : Prop := {
  dr_live : forall a r, fh_heap h !! a = Some r -> marked r = false -> fh_heap h' !! a = Some r;
  dr_old : forall a r', fh_heap h' !! a = Some r' ->
    exists r, fh_heap h !! a = Some r /\ marked r' = marked r;
  dr_rlist : forall ip, filter (live h) (rlist_of h' ip) = filter (live h) (rlist_of h ip)
}.

Lemma del_rel_live h h' a : del_rel h h' -> live h' a = live h a.
Proof.
  intros [H1 H2 _]. unfold live. destruct (fh_heap h !! a) as [r|] eqn:Hr.
  - destruct (marked r) eqn:Hm; simpl.
    + destruct (fh_heap h' !! a) as [r'|] eqn:Hr'; [|done].
      destruct (H2 a r' Hr') as (s & Hs & ->). simplify_eq. by rewrite Hm.
    + rewrite (H1 a r Hr Hm). by rewrite Hm.
  - destruct (fh_heap h' !! a) as [r'|] eqn:Hr'; [|done].
    destruct (H2 a r' Hr') as (s & Hs & _). congruence.
Qed.

Lemma filter_ext_bool {A} (f g : A -> bool) (l : list A) :
  (forall x, f x = g x) -> filter f l = filter g l.
Proof. intros Heq. apply list_filter_iff. intros x. by rewrite Heq. Qed.

#[export] Instance del_rel_preorder : PreOrder del_rel.
Proof.
  split; [split; naive_solver|]. intros h1 h2 h3 H12 H23. constructor.
  - intros a r Ha Hm. apply (dr_live _ _ H23); [|done]. by apply (dr_live _ _ H12).
  - intros a r3 H3. destruct (dr_old _ _ H23 a r3 H3) as (r2 & H2 & ->).
    apply (dr_old _ _ H12 a r2 H2).
  - intros ip. rewrite <-(dr_rlist _ _ H12). rewrite !(filter_ext_bool (live h1) (live h2))
      by (intros x; symmetry; by apply del_rel_live). apply (dr_rlist _ _ H23).
Qed.

Definition queue_marked (h : dpi_fqdn_hdl_t) : Prop :=
  forall a r, a ∈ fh_del_name_list h -> fh_heap h !! a = Some r -> marked r = true.

Lemma queued_marked r : marked (queued r) = marked r.
Proof. by apply has_flag_set_other. Qed.

Lemma enqueue_del_rel h e r : fh_heap h !! e.2 = Some r -> marked r = true -> del_rel h (enqueue_name e r h).
Proof.
  intros Hr Hm. constructor; [| |done].
  - intros a s Ha Hs. simpl. rewrite lookup_insert_ne; [done|]. intros <-. simplify_eq. congruence.
  - intros a s' (s & Hs & Heq)%(queued_lookup h e r Hr). exists s. split; [done|].
    destruct Heq as [(-> & -> & ->)|[_ ->]]; [apply queued_marked|done].
Qed.

Lemma enqueue_queue_marked h e r :
  queue_marked h -> fh_heap h !! e.2 = Some r -> marked r = true -> queue_marked (enqueue_name e r h).
Proof.
  intros Hq Hr Hm a s' Ha (s & Hs & Heq)%(queued_lookup h e r Hr).
  destruct Heq as [(-> & -> & ->)|[Hne ->]]; [by rewrite queued_marked|].
  simpl in Ha. rewrite elem_of_app, list_elem_of_singleton in Ha. destruct Ha as [Ha|Ha]; [|done].
  by apply (Hq a).
Qed.

Lemma enqueue_length h e r :
  names_ok h -> e ∈ fh_name_map h ->
  (length (fh_name_map (enqueue_name e r h)) + length (fh_del_name_list (enqueue_name e r h)) =
   length (fh_name_map h) + length (fh_del_name_list h))%nat.
Proof.
  intros Hn He. pose proof (enqueue_names_perm _ (fh_del_name_list h) e (names_NoDup h Hn) He) as Hp.
  apply Permutation_length in Hp. rewrite !length_app, !length_fmap in Hp. simpl.
  rewrite length_app. simpl in *. lia.
Qed.

(** What a walk over the names leaves alone. *)
Definition names_frame (h h' : dpi_fqdn_hdl_t) : Prop :=
  fh_ipv4_map h' = fh_ipv4_map h /\ fh_del_ipv4_list h' = fh_del_ipv4_list h /\
  fh_del_rlist h' = fh_del_rlist h /\
  (length (fh_name_map h') + length (fh_del_name_list h') =
   length (fh_name_map h) + length (fh_del_name_list h))%nat.

Lemma check_names_spec visit h :
  fqdn_inv h -> queue_marked h -> NoDup visit -> (forall e, e ∈ visit -> e ∈ fh_name_map h) ->
  (length (fh_del_name_list h) <= DPI_FQDN_DELETE_QLEN)%nat ->
  exists more h', check_names visit h = Done (more, h') /\ fqdn_inv h' /\ queue_marked h' /\
    del_rel h h' /\ names_frame h h' /\ (forall e, e ∈ fh_name_map h' -> e ∈ fh_name_map h) /\
    (more = true -> length (fh_del_name_list h') = DPI_FQDN_DELETE_QLEN) /\
    (more = false -> forall e r, e ∈ visit -> e ∈ fh_name_map h' -> fh_heap h' !! e.2 = Some r ->
       marked r = false).
Proof.
  revert h. induction visit as [|e visit IH]; intros h Hi Hq Hnd Hin Hlen; simpl.
  { exists false, h. split_and!; try done. intros _ e r He. by apply elem_of_nil in He. }
  apply NoDup_cons in Hnd as [Hnin Hnd]. assert (He : e ∈ fh_name_map h) by (apply Hin; left).
  destruct (deref_done h e.2) as (r & -> & Hr).
  { apply (fi_dom h (fi_names_ok h Hi)), elem_of_app. left. apply list_elem_of_fmap. by exists e. }
  simpl. fold (marked r). destruct (marked r) eqn:Hm.
  - case_decide as Hfull; [by exists true, h|].
    destruct (IH (enqueue_name e r h)) as (more & h' & -> & Hi' & Hq' & Hd' & Hf' & Hs' & Ht' & Hn').
    + by apply enqueue_inv.
    + by apply enqueue_queue_marked.
    + done.
    + intros e' He'. simpl. apply list_elem_of_filter. split; [by intros ->|]. apply Hin. by right.
    + simpl. rewrite length_app. simpl. lia.
    + pose proof (enqueue_length h e r (fi_names_ok h Hi) He).
      exists more, h'. split; [done|]. split_and!; try done.
      * etrans; [|done]. by apply enqueue_del_rel.
      * destruct Hf' as (? & ? & ? & ?). repeat split; try done; lia.
      * intros e' He'%Hs'. simpl in He'. by apply list_elem_of_filter in He' as [_ ?].
      * intros Hmore e' r' [->|He']%elem_of_cons; [|by apply Hn'].
        intros He'%Hs'. simpl in He'. by apply list_elem_of_filter in He' as [? _].
  - destruct (IH h) as (more & h' & -> & Hi' & Hq' & Hd' & Hf' & Hs' & Ht' & Hn'); try done.
    { intros e' He'. apply Hin. by right. }
    exists more, h'. split_and!; try done. intros Hmore e' r' [->|He']%elem_of_cons; [|by apply Hn'].
    intros _ Hr'. destruct (dr_old _ _ Hd' e.2 r' Hr') as (s & Hs & ->). congruence.
Qed.

(** A record that is not in the queue. *)
Definition kept (h : dpi_fqdn_hdl_t) (a : nat) : bool :=
  match fh_heap h !! a with Some r => negb (deleted r) | None => false end.

Lemma split_deleted_spec h rl :
  (forall a, a ∈ rl -> is_Some (fh_heap h !! a)) ->
  exists gone, split_deleted h rl = Done (filter (kept h) rl, gone).
Proof.
  induction rl as [|a rl IH]; intros Hrl; simpl; [by exists []|].
  destruct (deref_done h a) as (r & -> & Hr); [apply Hrl; left|]. simpl.
  destruct IH as [gone ->]; [intros b Hb; apply Hrl; by right|]. simpl.
  assert (Hk : kept h a = negb (has_flag (fr_flag r) FQDN_RECORD_DELETED))
    by (unfold kept; by rewrite Hr).
  rewrite filter_cons. case_decide as Hd; rewrite Hk in Hd; destruct (has_flag _ _); simpl in *;
    (done || by eexists).
Qed.

(** What the walks over the addresses leave alone. *)
Definition ipv4_frame (h h' : dpi_fqdn_hdl_t) : Prop :=
  fh_heap h' = fh_heap h /\ fh_fresh h' = fh_fresh h /\ fh_name_map h' = fh_name_map h /\
  fh_bm h' = fh_bm h /\ fh_del_name_list h' = fh_del_name_list h.

#[export] Instance ipv4_frame_preorder : PreOrder ipv4_frame.
Proof.
  split; [done|]. intros h1 h2 h3 (? & ? & ? & ? & ?) (? & ? & ? & ? & ?). repeat split; congruence.
Qed.

Lemma kept_frame h h' a : ipv4_frame h h' -> kept h' a = kept h a.
Proof. intros (Hh & _). unfold kept. by rewrite Hh. Qed.

(** The record lists lose records of the queue only. *)
Lemma ipv4_frame_inv h h' :
  fqdn_inv h -> ipv4_frame h h' ->
  (forall ip, rlist_of h' ip = rlist_of h ip \/ rlist_of h' ip = filter (kept h) (rlist_of h ip)) ->
  fqdn_inv h'.
Proof.
  intros [Hn Hc Hl] (Hh & Hf & Hnm & Hb & Hd) Hrl. constructor.
  - destruct Hn as [I1 I2 I3 I4 I5]. constructor; rewrite ?Hh, ?Hf, ?Hnm, ?Hd; done.
  - by rewrite Hh, Hb.
  - pose proof (fi_deleted h Hn) as Hdel. destruct Hl as [I1 I2 I3 I4].
    constructor; rewrite ?Hh, ?Hd; [| | |done].
    + intros ip a Ha. apply I1. destruct (Hrl ip) as [Heq|Heq]; rewrite Heq in Ha; [done|].
      by apply list_elem_of_filter in Ha as [_ ?].
    + intros ip a r Ha Hnd Hip. pose proof (I2 ip a r Ha Hnd Hip) as Hin.
      destruct (Hrl ip) as [-> | ->]; [done|]. apply list_elem_of_filter. split; [|done].
      unfold kept. rewrite Ha. destruct (deleted r) eqn:Hdr; [|done]. by apply (Hdel a r Ha) in Hdr.
    + intros ip. destruct (Hrl ip) as [-> | ->]; [apply I3|]. apply NoDup_filter, I3.
Qed.

Lemma filter_kept_twice (f : nat -> bool) (l : list nat) : filter f (filter f l) = filter f l.
Proof.
  induction l as [|a l IH]; [done|]. rewrite !filter_cons. case_decide as Hf; [|done].
  rewrite filter_cons. rewrite decide_True by done. by rewrite IH.
Qed.

(** A walk over the addresses of [visit], or over the first ones up to a full
    queue. *)
Record walk (visit : list Z) (h : dpi_fqdn_hdl_t) (more : bool) (h' : dpi_fqdn_hdl_t) : Prop := {
  wk_frame : ipv4_frame h h';
  wk_rlist : forall ip, rlist_of h' ip = rlist_of h ip \/
                        rlist_of h' ip = filter (kept h) (rlist_of h ip);
  wk_size : (size (fh_ipv4_map h') + length (fh_del_ipv4_list h') =
             size (fh_ipv4_map h) + length (fh_del_ipv4_list h))%nat;
  wk_other : forall ip, ip ∉ visit -> fh_ipv4_map h' !! ip = fh_ipv4_map h !! ip;
  wk_full : more = true -> length (fh_del_ipv4_list h') = DPI_FQDN_DELETE_QLEN;
  wk_done : more = false -> forall ip, ip ∈ visit ->
    rlist_of h' ip = filter (kept h) (rlist_of h ip) /\ fh_ipv4_map h' !! ip <> Some []
}.

Lemma walk_nil h : walk [] h false h.
Proof.
  constructor; try done; [by left|]. intros _ ip Hip. by apply elem_of_nil in Hip.
Qed.

Lemma walk_cons ip visit h h1 more h' :
  ip ∉ visit -> ipv4_frame h h1 ->
  (forall ip', ip' <> ip -> fh_ipv4_map h1 !! ip' = fh_ipv4_map h !! ip') ->
  rlist_of h1 ip = filter (kept h) (rlist_of h ip) -> fh_ipv4_map h1 !! ip <> Some [] ->
  (size (fh_ipv4_map h1) + length (fh_del_ipv4_list h1) =
   size (fh_ipv4_map h) + length (fh_del_ipv4_list h))%nat ->
  walk visit h1 more h' -> walk (ip :: visit) h more h'.
Proof.
  intros Hnin Hf1 Hother Hfil Hne Hsz [Hf' Hr' Hs' Ho' Ht' Hn'].
  assert (Hro : forall ip', ip' <> ip -> rlist_of h1 ip' = rlist_of h ip')
    by (intros ip' Hip; unfold rlist_of; by rewrite Hother).
  assert (Hrl1 : forall ip', rlist_of h1 ip' = rlist_of h ip' \/
                            rlist_of h1 ip' = filter (kept h) (rlist_of h ip')).
  { intros ip'. destruct (decide (ip' = ip)) as [->|Hip]; [by right|left; auto]. }
  assert (Hk : forall l, filter (kept h1) l = filter (kept h) l)
    by (intros l; apply filter_ext_bool; intros a; by apply kept_frame).
  constructor; [by etrans| |lia| |done|].
  - intros ip'. destruct (Hr' ip') as [-> | ->]; [done|]. rewrite Hk.
    destruct (Hrl1 ip') as [-> | ->]; right; [done|apply filter_kept_twice].
  - intros ip' Hip'. rewrite Ho', Hother; set_solver.
  - intros Hmore ip' [->|Hip']%elem_of_cons.
    + assert (Hsame : fh_ipv4_map h' !! ip = fh_ipv4_map h1 !! ip) by (by apply Ho').
      rewrite Hsame. split; [|done]. rewrite <-Hfil. unfold rlist_of. by rewrite Hsame.
    + destruct (Hn' Hmore ip' Hip') as [-> Hne']. split; [|done].
      rewrite Hk, Hro; [done|]. intros ->. done.
Qed.

(** The walk that stops at an address whose list became empty. *)
Lemma walk_stop ip visit h h' :
  ipv4_frame h h' -> (forall ip', ip' <> ip -> fh_ipv4_map h' !! ip' = fh_ipv4_map h !! ip') ->
  rlist_of h' ip = filter (kept h) (rlist_of h ip) ->
  (size (fh_ipv4_map h') + length (fh_del_ipv4_list h') =
   size (fh_ipv4_map h) + length (fh_del_ipv4_list h))%nat ->
  length (fh_del_ipv4_list h') = DPI_FQDN_DELETE_QLEN -> walk (ip :: visit) h true h'.
Proof.
  intros Hf Hother Hfil Hsz Hfull. constructor; try done.
  - intros ip'. destruct (decide (ip' = ip)) as [->|Hip]; [by right|left].
    unfold rlist_of. by rewrite Hother.
  - intros ip' Hip'. apply Hother. set_solver.
Qed.

Lemma check_ipv4s_spec visit h :
  fqdn_inv h -> NoDup visit -> (forall ip, ip ∈ visit -> is_Some (fh_ipv4_map h !! ip)) ->
  exists more h', check_ipv4s visit h = Done (more, h') /\ walk visit h more h'.
Proof.
  revert h. induction visit as [|ip visit IH]; intros h Hi Hnd Hin; simpl.
  { exists false, h. split; [done|apply walk_nil]. }
  apply NoDup_cons in Hnd as [Hnin Hnd]. destruct (Hin ip) as [rl Hrl]; [left|].
  assert (Hrl' : rlist_of h ip = rl) by (unfold rlist_of; by rewrite Hrl).
  destruct (split_deleted_spec h rl) as [gone Hsplit].
  { intros a Ha. destruct (fi_sound h (fi_links_ok h Hi) ip a) as (r & Hr & _); [by rewrite Hrl'|eauto]. }
  rewrite Hrl. simpl. rewrite Hsplit. simpl.
  assert (Hsize : size (<[ip := filter (kept h) rl]> (fh_ipv4_map h)) = size (fh_ipv4_map h)).
  { rewrite map_size_insert, Hrl. done. }
  assert (Hgo : forall h1, ipv4_frame h h1 ->
    (forall ip', ip' <> ip -> fh_ipv4_map h1 !! ip' = fh_ipv4_map h !! ip') ->
    rlist_of h1 ip = filter (kept h) rl -> fh_ipv4_map h1 !! ip <> Some [] ->
    (size (fh_ipv4_map h1) + length (fh_del_ipv4_list h1) =
     size (fh_ipv4_map h) + length (fh_del_ipv4_list h))%nat ->
    exists more h', check_ipv4s visit h1 = Done (more, h') /\ walk (ip :: visit) h more h').
  { intros h1 Hf Ho Hfil Hne Hs. destruct (IH h1) as (more & h' & -> & Hw); [|done| |].
    - eapply ipv4_frame_inv; [done..|]. intros ip'.
      destruct (decide (ip' = ip)) as [->|Hip]; [right; by rewrite Hrl'|left].
      unfold rlist_of. by rewrite Ho.
    - intros ip' Hip'. rewrite Ho by (intros ->; done). apply Hin. by right.
    - exists more, h'. split; [done|]. eapply walk_cons; try done. by rewrite Hrl'. }
  destruct (filter (kept h) rl) as [|a l] eqn:Hfil.
  - case_decide as Hfull.
    + eexists true, _. split; [done|]. apply walk_stop; simpl; [done| | | |done].
      * intros ip' Hip. by rewrite lookup_insert_ne.
      * rewrite Hrl', Hfil. unfold rlist_of. simpl. by rewrite lookup_insert_eq.
      * lia.
    + apply Hgo; simpl; [done| | | |].
      * intros ip' Hip. by rewrite lookup_delete_ne.
      * unfold rlist_of. simpl. by rewrite lookup_delete_eq.
      * by rewrite lookup_delete_eq.
      * rewrite length_app, map_size_delete, Hrl. simpl.
        assert (size (fh_ipv4_map h) <> 0)%nat; [|lia].
        intros Hz%map_size_empty_inv. rewrite Hz, lookup_empty in Hrl. done.
  - apply Hgo; simpl; [done| | | |].
    * intros ip' Hip. by rewrite lookup_insert_ne.
    * unfold rlist_of. simpl. by rewrite lookup_insert_eq.
    * by rewrite lookup_insert_eq.
    * lia.
Qed.

Section delete_marked.
Context (order : list nat -> forall A, list A -> list A).
Context (order_perm : forall path A (l : list A), order path A l ≡ₚ l).

Lemma visit_ips path h :
  NoDup (order path Z (map_to_list (fh_ipv4_map h)).*1) /\
  forall ip, ip ∈ order path Z (map_to_list (fh_ipv4_map h)).*1 <-> is_Some (fh_ipv4_map h !! ip).
Proof.
  split; [rewrite order_perm; apply NoDup_fst_map_to_list|].
  intros ip. apply (visits_keys_elem_of _ (fh_ipv4_map h)). apply order_perm.
Qed.

(** The passes over the addresses end, and leave in every list the records
    that are not in the queue. *)
Lemma ipv4_passes_spec fuel path h :
  fqdn_inv h -> fh_del_ipv4_list h = [] -> (size (fh_ipv4_map h) < fuel)%nat ->
  exists h', ipv4_passes order fuel path h = Done (Some h') /\ fqdn_inv h' /\ ipv4_frame h h' /\
    fh_del_ipv4_list h' = [] /\
    (forall ip, rlist_of h' ip = filter (kept h) (rlist_of h ip)) /\
    (forall ip, fh_ipv4_map h' !! ip <> Some []).
Proof.
  revert h. induction fuel as [|fuel IH]; intros h Hi Hq Hfuel; [lia|]. simpl.
  destruct (visit_ips (fuel :: path) h) as [Hnd Hin].
  destruct (check_ipv4s_spec _ h Hi Hnd (fun ip => proj1 (Hin ip))) as (more & h1 & -> & Hw). simpl.
  set (h2 := match fh_del_ipv4_list h1 with [] => h1 | _ => free_fqdn_ipv4 h1 end).
  assert (Hh2 : ipv4_frame h1 h2 /\ fh_ipv4_map h2 = fh_ipv4_map h1 /\ fh_del_ipv4_list h2 = []).
  { unfold h2. by destruct (fh_del_ipv4_list h1) eqn:?. }
  destruct Hh2 as (Hf2 & Hm2 & Hq2). destruct Hw as [Hf1 Hr1 Hs1 Ho1 Ht1 Hn1].
  assert (Hro : forall ip, rlist_of h2 ip = rlist_of h1 ip) by (intros ip; unfold rlist_of; by rewrite Hm2).
  assert (Hf : ipv4_frame h h2) by (by etrans).
  assert (Hi2 : fqdn_inv h2).
  { eapply ipv4_frame_inv; [done..|]. intros ip. rewrite Hro. apply Hr1. }
  rewrite Hq in Hs1. simpl in Hs1. destruct more.
  - specialize (Ht1 eq_refl). unfold DPI_FQDN_DELETE_QLEN in Ht1.
    destruct (IH h2 Hi2 Hq2) as (h' & -> & Hi' & Hf' & Hq' & Hr' & Hne'); [rewrite Hm2; lia|].
    exists h'. split_and!; [done|done|by etrans|done| |done].
    intros ip. rewrite Hr', Hro, (filter_ext_bool (kept h2) (kept h))
      by (intros a; by apply kept_frame).
    destruct (Hr1 ip) as [-> | ->]; [done|apply filter_kept_twice].
  - specialize (Hn1 eq_refl). exists h2.
    assert (Hcase : forall ip, rlist_of h2 ip = filter (kept h) (rlist_of h ip) /\
                               fh_ipv4_map h2 !! ip <> Some []).
    { intros ip. rewrite Hro, Hm2. destruct (fh_ipv4_map h !! ip) as [rl|] eqn:Hrl.
      - apply Hn1, Hin. eauto.
      - assert (Hno : fh_ipv4_map h1 !! ip = None).
        { rewrite Ho1; [done|]. rewrite Hin, Hrl. apply is_Some_None. }
        unfold rlist_of. rewrite Hno, Hrl. done. }
    split_and!; try done; intros ip; apply Hcase.
Qed.

(** ** The queued names are freed *)

Lemma codes_ok_free heap bm a r :
  codes_ok heap bm -> heap !! a = Some r ->
  exists bm', bitmap_clear bm (fr_code r - 1) = Done bm' /\ codes_ok (delete a heap) bm'.
Proof.
  intros [I1 I2 I3 I4 I5] Ha. destruct (I3 a r Ha) as [Hc Hu].
  destruct (bitmap_clear_spec bm (fr_code r - 1) I1) as (bm' & -> & Hwf & Hbits & Hmem); [lia|].
  exists bm'. split; [done|]. rewrite I2 in Hbits, Hmem. constructor; [done|done| | |].
  - intros b s Hs. apply lookup_delete_Some in Hs as [Hne Hs]. destruct (I3 b s Hs) as [Hcs Hus].
    split; [done|]. rewrite Hmem, Hus by lia. rewrite bool_decide_false; [done|].
    intros Heq. apply Hne, (I4 a b r s Ha Hs). lia.
  - intros b c s t Hs Ht. apply lookup_delete_Some in Hs as [_ Hs].
    apply lookup_delete_Some in Ht as [_ Ht]. by apply I4.
  - intros n Hn Hun. rewrite Hmem in Hun by done. apply andb_prop in Hun as [Hne Hun].
    destruct (I5 n Hn Hun) as (b & s & Hs & Hcs). exists b, s. split; [|done].
    apply lookup_delete_Some. split; [|done]. intros <-. simplify_eq.
    rewrite bool_decide_true in Hne by lia. done.
Qed.

Lemma free_names_spec ds h :
  codes_ok (fh_heap h) (fh_bm h) -> NoDup ds -> (forall a, a ∈ ds -> is_Some (fh_heap h !! a)) ->
  exists bm, codes_ok (foldr delete (fh_heap h) ds) bm /\
    foldM free_name h ds =
      Done (fh_set_heap (foldr delete (fh_heap h) ds) (fh_set_codes bm (fh_code_cnt h) h)).
Proof.
  revert h. induction ds as [|a ds IH]; intros h Hc Hnd Hin; simpl.
  { exists (fh_bm h). split; [done|]. by destruct h. }
  apply NoDup_cons in Hnd as [Hnin Hnd]. destruct (Hin a) as [r Hr]; [left|].
  destruct (codes_ok_free _ _ a r Hc Hr) as (bm1 & Hclear & Hc1).
  assert (Hfree : free_name h a =
    Done (fh_set_heap (delete a (fh_heap h)) (fh_set_codes bm1 (fh_code_cnt h) h))).
  { unfold free_name. rewrite (deref_eq h a r Hr). cbn [mbind outcome_bind]. by rewrite Hclear. }
  rewrite Hfree. simpl.
  destruct (IH (fh_set_heap (delete a (fh_heap h)) (fh_set_codes bm1 (fh_code_cnt h) h)))
    as (bm & Hcb & Heq); [done|done| |].
  { intros b Hb. simpl. rewrite lookup_delete_ne by (intros ->; done). apply Hin. by right. }
  assert (Hcomm : foldr delete (delete a (fh_heap h)) ds = delete a (foldr delete (fh_heap h) ds)).
  { clear. induction ds as [|b ds IH]; simpl; [done|]. rewrite IH. apply delete_delete. }
  simpl in *. rewrite Hcomm in *. exists bm. split; [done|]. rewrite Heq. done.
Qed.

Lemma lookup_foldr_delete (heap : gmap nat fqdn_record_t) ds a :
  foldr delete heap ds !! a = if bool_decide (a ∈ ds) then None else heap !! a.
Proof.
  induction ds as [|b ds IH]; [by rewrite bool_decide_false by apply not_elem_of_nil|].
  cbn [foldr]. destruct (decide (b = a)) as [->|Hb].
  - rewrite lookup_delete_eq, bool_decide_true; [done|left].
  - rewrite lookup_delete_ne, IH by done. assert (Hiff : a ∈ b :: ds <-> a ∈ ds) by set_solver.
    by rewrite (bool_decide_ext _ _ Hiff).
Qed.

(** After the passes the queued records are in no list, so that freeing them
    leaves no dangling pointer. *)
Lemma free_fqdn_name_spec h :
  fqdn_inv h -> queue_marked h -> fh_del_ipv4_list h = [] ->
  (forall ip, fh_ipv4_map h !! ip <> Some []) ->
  (forall ip a, a ∈ rlist_of h ip -> kept h a = true) ->
  exists h', free_fqdn_name false h = Done h' /\ fqdn_wf h' /\ del_rel h h' /\
    fh_name_map h' = fh_name_map h /\ fh_heap h' = foldr delete (fh_heap h) (fh_del_name_list h).
Proof.
  intros [Hn Hc Hl] Hq Hq4 Hne Hkept. pose proof (fi_names h Hn) as Hnd.
  assert (Hkq : forall ip a, a ∈ rlist_of h ip -> a ∉ fh_del_name_list h).
  { intros ip a Ha Hin. specialize (Hkept ip a Ha). unfold kept in Hkept.
    destruct (fh_heap h !! a) as [r|] eqn:Hr; [|done].
    by rewrite (proj2 (fi_deleted h Hn a r Hr) Hin) in Hkept. }
  apply NoDup_app in Hnd as (Hnd1 & Hdisj & Hnd2).
  destruct (free_names_spec (fh_del_name_list h) h Hc Hnd2) as (bm & Hcb & Hfold).
  { intros a Ha. apply (fi_dom h Hn), elem_of_app. by right. }
  unfold free_fqdn_name. rewrite Hfold. cbn [mbind outcome_bind].
  set (heap' := foldr delete (fh_heap h) (fh_del_name_list h)) in *.
  assert (Hlook : forall a r, heap' !! a = Some r <-> fh_heap h !! a = Some r /\ a ∉ fh_del_name_list h).
  { intros a r. unfold heap'. rewrite lookup_foldr_delete. case_bool_decide; naive_solver. }
  eexists. split; [done|]. split_and!; [|constructor; [| |done]|done|done].
  - constructor; [|done|done|done|intros ip rl Hrl ->; by apply (Hne ip)].
    constructor; [|done|].
    + destruct Hn as [I1 I2 I3 I4 I5]. constructor; simpl; rewrite ?app_nil_r.
      * intros a [r [Hr _]%Hlook]. apply I1. eauto.
      * done.
      * intros a. pose proof (I3 a) as Ha. rewrite elem_of_app in Ha. split.
        -- intros Hin. destruct (proj1 Ha ltac:(by left)) as [r Hr]. exists r. apply Hlook.
           split; [done|]. by apply Hdisj.
        -- intros [r [Hr Hno]%Hlook]. destruct (proj2 Ha ltac:(eauto)); [done|contradiction].
      * intros hash a b r s Ha Hb [Hr _]%Hlook [Hs _]%Hlook. by apply (I4 hash).
      * intros a r [Hr Hno]%Hlook. rewrite (I5 a r Hr). split; [done|]. intros H%elem_of_nil. done.
    + destruct Hl as [I1 I2 I3 I4]. constructor; simpl; [| |done|].
      * intros ip a Ha. destruct (I1 ip a Ha) as (r & Hr & Hip). exists r. rewrite Hlook. eauto.
      * intros ip a r [Hr Hno]%Hlook _. by apply (I2 ip a r).
      * intros a r [Hr _]%Hlook. by apply (I4 a).
  - intros a r Hr Hm. apply Hlook. split; [done|]. intros Hin. specialize (Hq a r Hin Hr). congruence.
  - intros a r [Hr _]%Hlook. eauto.
Qed.

Lemma filter_kept_live h ip :
  fqdn_inv h -> queue_marked h ->
  filter (live h) (filter (kept h) (rlist_of h ip)) = filter (live h) (rlist_of h ip).
Proof.
  intros Hi Hq. rewrite list_filter_filter_l; [done|]. intros a Hlive. unfold live, kept in *.
  destruct (fh_heap h !! a) as [r|] eqn:Hr; [|done]. destruct (deleted r) eqn:Hd; [|done].
  apply (fi_deleted h (fi_names_ok h Hi) a r Hr) in Hd. by rewrite (Hq a r Hd Hr) in Hlive.
Qed.

(** One turn of the outer loop. *)
Lemma delete_turn fuel h :
  fqdn_wf h ->
  exists more h1 h', check_names (order [fuel] (Z * nat)%type (fh_name_map h)) h = Done (more, h1) /\
    match fh_del_name_list h1 with
    | [] => Done (Some h1)
    | _ =>
        h ← ipv4_passes order (S (size (fh_ipv4_map h1))) [fuel] h1;
        match h with
        | None => Done None
        | Some h => h ← free_fqdn_name false h; Done (Some h)
        end
    end = Done (Some h') /\ fqdn_wf h' /\ del_rel h h' /\
    (more = true -> (length (fh_name_map h') < length (fh_name_map h))%nat) /\
    (more = false -> forall a r, fh_heap h' !! a = Some r -> marked r = false).
Proof.
  intros [Hi Hq1 Hq2 Hq3 Hne].
  assert (Hqm : queue_marked h) by (intros a r; rewrite Hq1; by intros ?%elem_of_nil).
  destruct (check_names_spec (order [fuel] (Z * nat)%type (fh_name_map h)) h Hi Hqm)
    as (more & h1 & Hcheck & Hi1 & Hqm1 & Hd1 & (Hf1 & Hf2 & Hf3 & Hf4) & Hsub & Hfull & Hrest).
  { rewrite order_perm. apply names_NoDup, Hi. }
  { intros e. by rewrite order_perm. }
  { rewrite Hq1. simpl. lia. }
  exists more, h1. rewrite Hcheck. rewrite Hq1 in Hf4. simpl in Hf4.
  assert (Hunmarked : more = false -> forall e r, e ∈ fh_name_map h1 -> fh_heap h1 !! e.2 = Some r ->
    marked r = false).
  { intros Hmore e r He. apply (Hrest Hmore); [|done]. rewrite order_perm. by apply Hsub. }
  destruct (fh_del_name_list h1) as [|d ds] eqn:HD.
  - exists h1. split; [done|]. split_and!; [done| |done| |].
    + constructor; try done; [congruence..|]. rewrite Hf1. exact Hne.
    + intros Hmore%Hfull. done.
    + intros Hmore a r Hr. pose proof (fi_dom h1 (fi_names_ok h1 Hi1) a) as Hdom.
      rewrite HD, app_nil_r, list_elem_of_fmap in Hdom. destruct (proj2 Hdom ltac:(eauto)) as (e & -> & He).
      by apply (Hunmarked Hmore e).
  - destruct (ipv4_passes_spec (S (size (fh_ipv4_map h1))) [fuel] h1 Hi1)
      as (h2 & -> & Hi2 & Hfr & Hq4 & Hrl & Hne2); [congruence|lia|]. cbn [mbind outcome_bind].
    assert (Hfr' := Hfr). destruct Hfr as (Hheap2 & _ & Hnm2 & _ & HD2).
    destruct (free_fqdn_name_spec h2 Hi2) as (h3 & Hfree & Hwf3 & Hd3 & Hnm3 & Hheap3); [|done|done| |].
    { intros a r. rewrite HD2, Hheap2. apply Hqm1. }
    { intros ip a Ha. rewrite Hrl in Ha. apply list_elem_of_filter in Ha as [Ha _].
      rewrite (kept_frame h1 h2 a Hfr'). by apply Is_true_true. }
    rewrite Hfree. cbn [mbind outcome_bind]. exists h3. split; [done|]. split_and!; [done|done| | |].
    + etrans; [done|]. etrans; [|done]. constructor.
      * intros a r Ha _. by rewrite Hheap2.
      * intros a r Ha. rewrite Hheap2 in Ha. eauto.
      * intros ip. rewrite Hrl. by apply filter_kept_live.
    + intros Hmore%Hfull. rewrite Hnm3, Hnm2. unfold DPI_FQDN_DELETE_QLEN in *. simpl in *. lia.
    + intros Hmore a r Hr. rewrite Hheap3, lookup_foldr_delete, Hheap2 in Hr.
      case_bool_decide as Hin; [done|]. rewrite HD2 in Hin.
      pose proof (fi_dom h1 (fi_names_ok h1 Hi1) a) as Hdom. rewrite elem_of_app in Hdom.
      destruct (proj2 Hdom ltac:(eauto)) as [(e & -> & He)%list_elem_of_fmap|?]; [|done].
      by apply (Hunmarked Hmore e).
Qed.

Lemma delete_loop_spec fuel h :
  fqdn_wf h -> (length (fh_name_map h) < fuel)%nat ->
  exists h', delete_loop order false fuel h = Done (Some h') /\ fqdn_wf h' /\ del_rel h h' /\
    forall a r, fh_heap h' !! a = Some r -> marked r = false.
Proof.
  revert h. induction fuel as [|fuel IH]; intros h Hwf Hfuel; [lia|].
  destruct (delete_turn fuel h Hwf) as (more & h1 & h2 & Hcheck & Hrest & Hwf2 & Hd2 & Hlen & Hun).
  cbn [delete_loop]. rewrite Hcheck. cbn [mbind outcome_bind].
  match type of Hrest with ?L = _ => change (exists h', (L ≫= fun h => match h with
    | None => Done None
    | Some h => if more then delete_loop order false fuel h else Done (Some h) end) = Done (Some h') /\
    fqdn_wf h' /\ del_rel h h' /\ forall a r, fh_heap h' !! a = Some r -> marked r = false) end.
  rewrite Hrest. cbn [mbind outcome_bind]. destruct more; [|by exists h2; split_and!; [..|apply Hun]].
  destruct (IH h2 Hwf2) as (h' & Heq & Hwf' & Hd' & Hun'); [specialize (Hlen eq_refl); lia|].
  exists h'. split_and!; [done|done|by etrans|done].
Qed.

(** The deletion ends, and never touches freed memory; it removes the marked
    names, whose codes become free, and it takes their records out of the
    lists of the addresses; everything else is as it was. *)
Theorem dpi_fqdn_entry_delete_marked_spec h :
  fqdn_wf h ->
  exists h', dpi_fqdn_entry_delete_marked order false h = Done (Some h') /\ fqdn_wf h' /\
    (forall a, fh_heap h' !! a = match fh_heap h !! a with
                                | Some r => if marked r then None else Some r
                                | None => None
                                end) /\
    (forall ip, rlist_of h' ip = filter (live h) (rlist_of h ip)).
Proof.
  intros Hwf. destruct (delete_loop_spec (S (length (fh_name_map h))) h Hwf) as (h' & Heq & Hwf' & Hd & Hun);
    [lia|].
  exists h'. split; [done|]. split; [done|].
  assert (Hheap : forall a, fh_heap h' !! a = match fh_heap h !! a with
      | Some r => if marked r then None else Some r | None => None end).
  { intros a. destruct (fh_heap h !! a) as [r|] eqn:Hr.
    - destruct (marked r) eqn:Hm; [|by apply (dr_live _ _ Hd)].
      destruct (fh_heap h' !! a) as [r'|] eqn:Hr'; [|done].
      destruct (dr_old _ _ Hd a r' Hr') as (s & Hs & Hms). simplify_eq. rewrite (Hun a r' Hr') in Hms. congruence.
    - destruct (fh_heap h' !! a) as [r'|] eqn:Hr'; [|done].
      destruct (dr_old _ _ Hd a r' Hr') as (s & Hs & _). congruence. }
  split; [done|]. intros ip. rewrite <-(dr_rlist _ _ Hd). symmetry.
  assert (Hall : Forall (fun a => live h a) (rlist_of h' ip)).
  { apply Forall_forall. intros a Ha.
    destruct (fi_sound _ (fi_links_ok _ (fq_inv _ Hwf')) ip a Ha) as (r & Hr & _).
    rewrite <-(del_rel_live h h' a Hd). unfold live. rewrite Hr, (Hun a r Hr). done. }
  induction Hall as [|a l Ha _ IH]; [done|]. rewrite filter_cons, decide_True by done. by rewrite IH.
Qed.
End delete_marked.

(** ** Every sequence of calls *)

Lemma substring_length n s : (String.length (String.substring 0 n s) <= n)%nat.
Proof. revert n. induction s as [|c s IH]; intros [|n]; simpl; [lia..|]. specialize (IH n). lia. Qed.

Lemma strlcpy_length s : (String.length (strlcpy s MAX_FQDN_LEN) < MAX_FQDN_LEN)%nat.
Proof. pose proof (substring_length 255 s). unfold strlcpy, MAX_FQDN_LEN in *. simpl. lia. Qed.

(** The calls on the table: a rule with a domain name, a message of the
    controller with the addresses of a name, an answer of the DNS, and the
    deletion of names. *)
Inductive fqdn_op :=
| OpRule (fqdn : string) (ip : Z) (vh : bool)
| OpSet (fqdn_name : string) (fqdn_ips : list Z) (vhost : bool)
| OpSnoop (name : string) (ips : list Z)
| OpDelete (names : list string).

Section runs.
Context (order : list nat -> forall A, list A -> list A).
Context (debug : bool).

Definition fqdn_step (h : dpi_fqdn_hdl_t) (op : fqdn_op) : outcome dpi_fqdn_hdl_t :=
  match op with
  | OpRule fqdn ip vh =>
      '(_, h) ← config_fqdn_ipv4_mapping h (strlcpy fqdn MAX_FQDN_LEN) ip vh; Done h
  | OpSet name ips vhost => dp_ctrl_set_fqdn h name ips vhost
  | OpSnoop name ips => snooped_fqdn_ipv4_mapping h name ips
  | OpDelete names =>
      r ← dp_ctrl_del_fqdn order debug h names;
      match r with Some h => Done h | None => Panicked "the deletion does not end" end
  end.

Definition fqdn_run (ops : list fqdn_op) : outcome dpi_fqdn_hdl_t := foldM fqdn_step dpi_fqdn_hdl_init ops.
End runs.

Lemma foldM_invariant {S A} (f : S -> A -> outcome S) (P : S -> Prop) :
  (forall s x, P s -> exists s', f s x = Done s' /\ P s') ->
  forall l s, P s -> exists s', foldM f s l = Done s' /\ P s'.
Proof.
  intros Hf l. induction l as [|x l IH]; intros s Hs; simpl; [by eauto|].
  destruct (Hf s x Hs) as (s' & -> & Hs'). by apply IH.
Qed.

Lemma fqdn_init_wf : fqdn_wf dpi_fqdn_hdl_init.
Proof.
  destruct (bitmap_allocate_spec DPI_FQDN_MAX_ENTRIES ltac:(done)) as [Hwf Hfree].
  constructor; [|done..]. constructor.
  - constructor; simpl; [|constructor| |done|done]; intros a.
    + intros [r Hr]. done.
    + split; [by intros ?%elem_of_nil|]. by intros [r Hr].
  - constructor; simpl; [done..| |]; [done|]. intros n Hn Hu. rewrite (Hfree n Hn) in Hu. done.
  - constructor; simpl; [|done| |done]; intros ip.
    + intros a Ha. by apply elem_of_nil in Ha.
    + constructor.
Qed.

Lemma mark_delete_wf h name :
  fqdn_wf h -> exists h', dpi_fqdn_entry_mark_delete h name = Done h' /\ fqdn_wf h'.
Proof.
  intros Hwf. unfold dpi_fqdn_entry_mark_delete.
  destruct (fqdn_name_lookup_spec h name (fq_inv h Hwf)) as ([a|] & -> & Ho); simpl; [|by eauto].
  destruct Ho as (_ & r & Hr & _). rewrite (deref_eq h a r Hr). simpl. eexists. split; [done|].
  eapply fqdn_wf_store; [done..| |done]. split_and!; [done..|]. by apply has_flag_set_other.
Qed.

Lemma config_fqdn_wf h name ip vh :
  fqdn_wf h -> (String.length name < MAX_FQDN_LEN)%nat ->
  exists h', ('(_, h) ← config_fqdn_ipv4_mapping h name ip vh; Done h) = Done h' /\ fqdn_wf h'.
Proof.
  intros Hwf Hlen. destruct (config_fqdn_ipv4_mapping_spec h name ip vh Hwf Hlen)
    as (code & h' & -> & _ & Hwf' & _). by exists h'.
Qed.

Lemma fqdn_step_wf order h op :
  (forall path A (l : list A), order path A l ≡ₚ l) ->
  fqdn_wf h -> exists h', fqdn_step order false h op = Done h' /\ fqdn_wf h'.
Proof.
  intros Hord Hwf. destruct op as [fqdn ip vh|name ips vhost|name ips|names]; cbn [fqdn_step].
  - apply config_fqdn_wf; [done|apply strlcpy_length].
  - apply (foldM_invariant _ fqdn_wf); [|done]. intros h1 ip Hwf1.
    apply config_fqdn_wf; [done|apply strlcpy_length].
  - destruct (snooped_fqdn_ipv4_mapping_spec h name ips Hwf) as (h' & -> & Hwf' & _). eauto.
  - unfold dp_ctrl_del_fqdn.
    destruct (foldM_invariant _ fqdn_wf mark_delete_wf names h Hwf) as (h1 & -> & Hwf1).
    cbn [mbind outcome_bind].
    destruct (dpi_fqdn_entry_delete_marked_spec order Hord h1 Hwf1) as (h2 & -> & Hwf2 & _). by exists h2.
Qed.

Lemma fqdn_run_wf order ops :
  (forall path A (l : list A), order path A l ≡ₚ l) -> exists h, fqdn_run order false ops = Done h /\ fqdn_wf h.
Proof.
  intros Hord. apply (foldM_invariant _ fqdn_wf); [|apply fqdn_init_wf].
  intros h op. by apply fqdn_step_wf.
Qed.

(** *** Runs with the policy messages printed *)

(** [r'] is what [r] is, or a fault. *)
Definition same_or_fault {A} (r r' : outcome A) : Prop := r' = r \/ r' = invalid_access.

Lemma same_or_fault_bind {A B} (r r' : outcome A) (f f' : A -> outcome B) :
  same_or_fault r r' -> (forall x, same_or_fault (f x) (f' x)) -> same_or_fault (r ≫= f) (r' ≫= f').
Proof. intros [-> | ->] Hf; [|by right]. destruct r as [x|]; [apply Hf|by left]. Qed.

Lemma print_names h l :
  let r := foldM (fun _ a => _ ← deref h a; Done tt) tt l in r = Done tt \/ r = invalid_access.
Proof.
  induction l as [|a l IH]; cbn [foldM]; [by left|].
  assert (deref h a = invalid_access \/ exists r, deref h a = Done r) as [-> |[r ->]]; [|by right|exact IH].
  unfold deref. destruct (fh_heap h !! a); eauto.
Qed.

Lemma free_fqdn_name_debug h : same_or_fault (free_fqdn_name false h) (free_fqdn_name true h).
Proof.
  unfold free_fqdn_name. apply same_or_fault_bind; [by left|]. intros h1.
  destruct (print_names h1 (fh_del_rlist h1)) as [-> | ->]; [by left|by right].
Qed.

Lemma delete_loop_debug order fuel h :
  same_or_fault (delete_loop order false fuel h) (delete_loop order true fuel h).
Proof.
  revert h. induction fuel as [|fuel IH]; intros h; cbn [delete_loop]; [by left|].
  apply same_or_fault_bind; [by left|]. intros [more h1]. apply same_or_fault_bind.
  - destruct (fh_del_name_list h1); [by left|]. apply same_or_fault_bind; [by left|].
    intros [h2|]; [|by left]. apply same_or_fault_bind; [apply free_fqdn_name_debug|by left].
  - intros [h2|]; [|by left]. destruct more; [apply IH|by left].
Qed.

Definition is_delete (op : fqdn_op) : bool := match op with OpDelete _ => true | _ => false end.

Lemma fqdn_step_debug order h op :
  fqdn_step order true h op = fqdn_step order false h op \/
  (is_delete op = true /\ fqdn_step order true h op = invalid_access).
Proof.
  destruct op as [| | |names]; [by left..|]. cbn [fqdn_step is_delete].
  assert (same_or_fault (dp_ctrl_del_fqdn order false h names) (dp_ctrl_del_fqdn order true h names)) as [-> | ->];
    [|by left|by right].
  apply same_or_fault_bind; [by left|]. intros h1. apply delete_loop_debug.
Qed.

Lemma fqdn_run_debug order ops :
  fqdn_run order true ops = fqdn_run order false ops \/
  (existsb is_delete ops = true /\ fqdn_run order true ops = invalid_access).
Proof.
  unfold fqdn_run. generalize dpi_fqdn_hdl_init as h.
  induction ops as [|op ops IH]; intros h; cbn [foldM existsb]; [by left|].
  destruct (fqdn_step_debug order h op) as [-> |[-> ->]]; [|by right].
  destruct (fqdn_step order false h op) as [h1|]; cbn [mbind outcome_bind]; [|by left].
  destruct (IH h1) as [-> |[-> ->]]; [by left|]. right. by rewrite orb_true_r.
Qed.

(** C23: Whatever names are configured, learned and deleted, and in whatever order
    the hash tables are walked: while the policy messages are not printed, no
    call touches freed memory or memory out of bounds, every deletion ends,
    and the table is well formed: a name has one record, two records have
    different codes, the codes in use are those of the records, and a record
    and an address list each other.  With the messages printed a run ends
    with the same table, or, only where it deletes names, in a deletion that
    reads freed memory.  Allocations succeed. *)
Theorem fqdn_run_safe order ops :
  (forall path A (l : list A), order path A l ≡ₚ l) ->
  exists h, fqdn_run order false ops = Done h /\ fqdn_wf h /\
    (fqdn_run order true ops = Done h \/
     (existsb is_delete ops = true /\ fqdn_run order true ops = invalid_access)).
Proof.
  intros Hord. destruct (fqdn_run_wf order ops Hord) as (h & Hr & Hwf). exists h. split_and!; [done..|].
  rewrite <-Hr. apply fqdn_run_debug.
Qed.

Definition ex_ops : list fqdn_op :=
  [OpRule "*.example.com" 0 false; OpSet "www.example.com" [134744072; 134743044] false;
   OpSnoop "mail.example.com" [16843009]; OpDelete ["www.example.com"]; OpRule "WWW.example.com" 7 true].

Lemma fqdn_run_safe_witness : exists h, fqdn_run (fun _ _ l => rev l) false ex_ops = Done h /\ fqdn_wf h.
Proof.
  destruct (fqdn_run_safe (fun _ A l => rev l) ex_ops) as (h & Hr & Hwf & _).
  - intros path A l. symmetry. apply Permutation_rev.
  - exists h. split; [exact Hr|exact Hwf].
Defined.

(** *** What a deletion deletes *)

(** The record is that of one of the names. *)
Definition named (h : dpi_fqdn_hdl_t) (names : list string) (a : nat) : Prop :=
  exists n, n ∈ names /\ fqdn_name_lookup h n = Done (Some a).

Lemma store_flag_name_lookup h a r f n :
  fh_heap h !! a = Some r -> fqdn_name_lookup (store a (fr_set_flag f r) h) n = fqdn_name_lookup h n.
Proof.
  intros Ha. unfold fqdn_name_lookup. change (fh_name_map (store _ _ h)) with (fh_name_map h).
  induction (fh_name_map h) as [|[hash b] l IH]; cbn [name_lookup]; [done|]. rewrite IH.
  unfold deref. change (fh_heap (store _ _ h)) with (<[a:=fr_set_flag f r]> (fh_heap h)).
  destruct (decide (a = b)) as [<-|Hne]; [by rewrite lookup_insert_eq, Ha|by rewrite lookup_insert_ne].
Qed.

(** The records after some names have been marked. *)
Definition marks (h h' : dpi_fqdn_hdl_t) (names : list string) : Prop :=
  fqdn_wf h' /\ fh_ipv4_map h' = fh_ipv4_map h /\ (forall n, fqdn_name_lookup h' n = fqdn_name_lookup h n) /\
  (forall a, fh_heap h !! a = None -> fh_heap h' !! a = None) /\
  (forall a r, fh_heap h !! a = Some r -> exists r', fh_heap h' !! a = Some r' /\
     (marked r' = true <-> marked r = true \/ named h names a) /\ (~ named h names a -> r' = r)).

Lemma named_nil h a : ~ named h [] a.
Proof. by intros (n & Hn%elem_of_nil & _). Qed.

Lemma named_cons h n names a : named h (n :: names) a <-> named h [n] a \/ named h names a.
Proof.
  unfold named. split.
  - intros (m & [->|Hm]%elem_of_cons & Hl); [left; exists n|right; exists m]; (split; [|done]); [left|done].
  - intros [(m & ->%list_elem_of_singleton & Hl)|(m & Hm & Hl)]; [exists n|exists m]; split; try done; [left|by right].
Qed.

Lemma mark_one h n :
  fqdn_wf h -> exists h', dpi_fqdn_entry_mark_delete h n = Done h' /\ marks h h' [n].
Proof.
  intros Hwf. unfold dpi_fqdn_entry_mark_delete, named.
  destruct (fqdn_name_lookup_spec h n (fq_inv h Hwf)) as ([a|] & Hl & Ho); rewrite Hl; cbn [mbind outcome_bind].
  2: { exists h. split; [done|]. split_and!; try done. intros a r Hr. exists r.
       assert (~ named h [n] a) by (intros (m & ->%list_elem_of_singleton & Hm); congruence). naive_solver. }
  destruct Ho as (_ & r & Hr & _). rewrite (deref_eq h a r Hr). cbn [mbind outcome_bind].
  set (r1 := fr_set_flag _ r). exists (store a r1 h). split; [done|]. split_and!; try done.
  - eapply fqdn_wf_store; [done..| |done]. split_and!; [done..|]. by apply has_flag_set_other.
  - intros m. by apply store_flag_name_lookup.
  - intros b Hb. cbn. rewrite lookup_insert_ne; [done|]. intros <-. congruence.
  - intros b rb Hb. destruct (decide (a = b)) as [<-|Hne].
    + exists r1. split; [apply lookup_insert_eq|]. assert (marked r1 = true) by by apply has_flag_set.
      assert (named h [n] a) by (exists n; split; [left|done]). naive_solver.
    + exists rb. assert (~ named h [n] b) by (intros (m & ->%list_elem_of_singleton & Hm); congruence).
      split; [by cbn; rewrite lookup_insert_ne|]. naive_solver.
Qed.

(** The marks of the names. *)
Lemma mark_names_spec names h :
  fqdn_wf h -> exists h', foldM dpi_fqdn_entry_mark_delete h names = Done h' /\ marks h h' names.
Proof.
  revert h. induction names as [|n names IH]; intros h Hwf; cbn [foldM].
  { exists h. split; [done|]. split_and!; try done. intros a r Hr. exists r. pose proof (named_nil h a). naive_solver. }
  destruct (mark_one h n Hwf) as (h1 & -> & Hwf1 & Hip1 & Hlk1 & Hno1 & Hrec1). cbn [mbind outcome_bind].
  destruct (IH h1 Hwf1) as (h2 & -> & Hwf2 & Hip2 & Hlk2 & Hno2 & Hrec2). exists h2. split; [done|].
  split_and!; [done|congruence|intros m; by rewrite Hlk2|intros a Ha; by apply Hno2, Hno1|].
  assert (forall a, named h1 names a <-> named h names a) as Hnm by (intros a; unfold named; by setoid_rewrite Hlk1).
  intros a r Ha. destruct (Hrec1 a r Ha) as (r1 & Hr1 & Hm1 & He1).
  destruct (Hrec2 a r1 Hr1) as (r2 & Hr2 & Hm2 & He2). exists r2. rewrite Hnm in Hm2, He2. rewrite named_cons.
  split_and!; [done|rewrite Hm2, Hm1; tauto|]. intros Hn. rewrite He2, He1 by tauto. done.
Qed.

(** C25: After any calls, a deletion ends and removes exactly the records of
    the names it is given, and those marked before; every other record stays
    as it is, and an address keeps exactly the records that stay. *)
Theorem fqdn_delete_exact order ops names :
  (forall path A (l : list A), order path A l ≡ₚ l) ->
  exists h h', fqdn_run order false ops = Done h /\ dp_ctrl_del_fqdn order false h names = Done (Some h') /\
    (forall a, fh_heap h !! a = None -> fh_heap h' !! a = None) /\
    (forall a r, fh_heap h !! a = Some r -> marked r = true \/ named h names a -> fh_heap h' !! a = None) /\
    (forall a r, fh_heap h !! a = Some r -> ~ (marked r = true \/ named h names a) -> fh_heap h' !! a = Some r) /\
    (forall ip a, a ∈ rlist_of h' ip <-> a ∈ rlist_of h ip /\ is_Some (fh_heap h' !! a)).
Proof.
  intros Hord. destruct (fqdn_run_wf order ops Hord) as (h & Hrun & Hwf). exists h.
  destruct (mark_names_spec names h Hwf) as (h1 & Hmark & (Hwf1 & Hip & _ & Hno & Hrec)).
  destruct (dpi_fqdn_entry_delete_marked_spec order Hord h1 Hwf1) as (h2 & Hdel & _ & Hheap & Hrl).
  exists h2. unfold dp_ctrl_del_fqdn. rewrite Hmark. cbn [mbind outcome_bind]. split_and!; try done.
  - intros a Ha. by rewrite Hheap, Hno.
  - intros a r Ha Hm. destruct (Hrec a r Ha) as (r' & Hr' & Hm' & _). rewrite Hheap, Hr'.
    by rewrite (proj2 Hm' Hm).
  - intros a r Ha Hm. destruct (Hrec a r Ha) as (r' & Hr' & Hm' & Heq). rewrite Hheap, Hr'.
    destruct (marked r'); [naive_solver|]. rewrite Heq; [done|]. naive_solver.
  - intros ip a. rewrite Hrl, list_elem_of_filter. unfold rlist_of, live. rewrite Hip, Hheap.
    destruct (fh_heap h1 !! a) as [r|]; [destruct (marked r); cbn|]; split; naive_solver.
Qed.

Lemma fqdn_delete_exact_witness :
  exists h h', fqdn_run (fun _ _ l => l) false ex_ops = Done h /\
    dp_ctrl_del_fqdn (fun _ _ l => l) false h ["*.EXAMPLE.com"] = Done (Some h') /\
    (forall a, fh_heap h !! a = None -> fh_heap h' !! a = None).
Proof.
  destruct (fqdn_delete_exact (fun _ A l => l) ex_ops ["*.EXAMPLE.com"]) as (h & h' & H1 & H2 & H3 & _); [done|].
  exists h, h'. split; [exact H1|]. split; [exact H2|exact H3].
Defined.

(** C26: After any calls, an answer of the DNS adds its addresses to the name
    it is for and to the wildcards that match it, where the table has them
    and they are not being deleted, and to no other name, and it changes
    neither the names nor their codes. *)
Theorem fqdn_snoop_exact order ops name ips :
  (forall path A (l : list A), order path A l ≡ₚ l) ->
  exists h h', fqdn_run order false ops = Done h /\ snooped_fqdn_ipv4_mapping h name ips = Done h' /\
    same_names h h' /\
    forall ip b, b ∈ rlist_of h' ip <->
      b ∈ rlist_of h ip \/
      (ip ∈ ips /\ exists n, n ∈ ToLower name :: wildcard_names (ToLower name) /\ live_name h n b).
Proof.
  intros Hord. destruct (fqdn_run_wf order ops Hord) as (h & Hrun & Hwf).
  destruct (snooped_fqdn_ipv4_mapping_spec h name ips Hwf) as (h' & Hs & _ & Hn & Hr). by exists h, h'.
Qed.

Lemma fqdn_snoop_exact_witness :
  exists h h', fqdn_run (fun _ _ l => l) false ex_ops = Done h /\
    snooped_fqdn_ipv4_mapping h "a.example.com" [9] = Done h' /\ same_names h h'.
Proof.
  destruct (fqdn_snoop_exact (fun _ A l => l) ex_ops "a.example.com" [9]) as (h & h' & H1 & H2 & H3 & _); [done|].
  exists h, h'. split; [exact H1|]. split; [exact H2|exact H3].
Defined.

(** With the policy messages printed, the deletion of a name that has an
    address reads the name of the record it has just freed. *)
Theorem fqdn_debug_use_after_free :
  fqdn_run (fun _ _ l => l) true [OpRule "www.example.com" 134744072 false; OpDelete ["www.example.com"]]
  = invalid_access.
Proof. vm_compute. reflexivity. Qed.

(** ** The report of the learned addresses *)

Definition DPFQDN_IP_FLAG_VH : Z := 1.

(** [(DP_MSG_SIZE - sizeof(DPMsgHdr) - sizeof(DPMsgFqdnIpHdr)) / sizeof(DPMsgFqdnIp)]. *)
Definition FQDN_IPS_PER_MSG : nat := Z.to_nat ((8192 - 4 - 262) / 16).

Record DPMsgFqdn := FqdnMsg { fm_name : string; fm_Flags : Z; fm_ips : list Z }.

(** The walk over the names in the order of [visit].  [flags] is the byte of
    the message buffer [g_notify_msg] that holds [fh->Flags]. *)
Fixpoint dp_ctrl_update_fqdn_ip (visit : list nat) (flags : Z) (h : dpi_fqdn_hdl_t)
    : outcome (list DPMsgFqdn * dpi_fqdn_hdl_t) :=
  match visit with
  | [] => Done ([], h)
  | a :: visit =>
      r ← deref h a;
      if negb (has_flag (fr_flag r) FQDN_RECORD_WILDCARD) then dp_ctrl_update_fqdn_ip visit flags h
      else if fr_record_updated r =? 0 then dp_ctrl_update_fqdn_ip visit flags h
      else
        let flags := if fr_vh r then set_flag flags DPFQDN_IP_FLAG_VH else flags in
        let msg := FqdnMsg (fr_name r) flags (take FQDN_IPS_PER_MSG (fr_iplist r)) in
        '(msgs, h) ← dp_ctrl_update_fqdn_ip visit flags (store a (fr_set_updated 0 r) h);
        Done (msg :: msgs, h)
  end.

(** The report of a name for virtual hosts leaves its flag in the buffer: the
    next name is reported with it, though it was configured without. *)
Theorem fqdn_report_stale_flag :
  (h ← fqdn_run (fun _ _ l => l) false
    [OpRule "*.a.com" 0 true; OpRule "*.b.com" 0 false;
     OpSnoop "x.a.com" [1]; OpSnoop "x.b.com" [2]];
   '(msgs, h) ← dp_ctrl_update_fqdn_ip [0; 1]%nat 0 h;
   Done (msgs, fr_vh <$> fh_heap h !! 1%nat))
  = Done ([FqdnMsg "*.a.com" 1 [1]; FqdnMsg "*.b.com" 1 [2]], Some false).
Proof. vm_compute. reflexivity. Qed.
