(* ===== verification/NvDPTable.v ===== *)
(** * The policy tables of the data plane: [dp/dpi/dpi_policy.c]

    A policy handle holds the rules of a workload in two tables: a hash table
    for the rules with one address on both sides and one port, and lists of
    ranges for the others.  Messages fill the tables ([dpi_policy_cfg]), a
    packet is looked up in them ([dpi_policy_lookup_by_key]).  This file
    translates both; [NvDPEquiv] shows that a lookup finds the first rule that
    covers the packet.

    An address is represented by its value in host order.  The debug output
    and the counters are left out, and memory allocation succeeds, but for
    the one of a handle. *)

From Stdlib Require Import ZArith Lia.
From S2P Require Import Prelude NvBitmap NvFqdn NvPolicyTypes.
Local Open Scope Z_scope.

(** ** Data *)

Record dpi_rule_key_t := RuleKey {
  rk_sip : Z;
  rk_dip : Z;
  rk_dport : Z;
  rk_proto : Z;
  rk_app : Z
}.

Record dpi_policy_desc_t := PolicyDesc {
  pd_id : Z;
  pd_action : Z;
  pd_flags : Z;
  pd_hdl_ver : Z;
  pd_order : Z
}.

Definition POLICY_DESC_CHECK_VER : Z := 1.
Definition POLICY_DESC_INTERNAL : Z := 2.
Definition POLICY_DESC_EXTERNAL : Z := 4.
Definition POLICY_DESC_TUNNEL : Z := 8.
Definition POLICY_DESC_UNKNOWN_IP : Z := 16.
Definition POLICY_DESC_SVC_EXTIP : Z := 32.
Definition POLICY_DESC_HOSTIP : Z := 64.
Definition POLICY_DESC_LINK_LOCAL : Z := 256.
Definition POLICY_DESC_TMP_OPEN : Z := 512.
Definition POLICY_DESC_UWLIP : Z := 1024.
Definition POLICY_DESC_CHK_NBE : Z := 2048.
Definition POLICY_DESC_NBE_SNS : Z := 4096.

(** The key of a list of ranges: the address of the workload's side, with the
    direction as [flag]. *)
Record dpi_range_rule_key_t := RangeKey { gk_ip : Z; gk_proto : Z; gk_flag : Z }.
Definition DP_RANGE_RULE_INGRESS : Z := 1.
Definition DP_RANGE_RULE_EGRESS : Z := 2.

Record dpi_range_rule_item_t := RangeItem {
  ri_desc : dpi_policy_desc_t;
  ri_key_l : dpi_rule_key_t;
  ri_key_h : dpi_rule_key_t
}.

#[export] Instance dpi_rule_key_t_eq_dec : EqDecision dpi_rule_key_t.
Proof. solve_decision. Defined.
#[export] Instance dpi_policy_desc_t_eq_dec : EqDecision dpi_policy_desc_t.
Proof. solve_decision. Defined.
#[export] Instance dpi_range_rule_key_t_eq_dec : EqDecision dpi_range_rule_key_t.
Proof. solve_decision. Defined.
#[export] Instance dpi_range_rule_key_t_countable : Countable dpi_range_rule_key_t.
Proof.
  refine (inj_countable' (fun k => (gk_ip k, gk_proto k, gk_flag k)) (fun '(i, p, f) => RangeKey i p f) _).
  by intros [].
Defined.

(** [dpi_policy_hdl_t].  The hash table of the single rules admits two nodes
    with the same key ([cds_lfht_add]); the one of the range lists is searched
    before an addition. *)
Record dpi_policy_hdl_t := PolicyHdl {
  hd_ref_cnt : Z;
  hd_ver : Z;
  hd_policy_map : list (dpi_rule_key_t * dpi_policy_desc_t);
  hd_range_policy_map : gmap dpi_range_rule_key_t (list dpi_range_rule_item_t);
  hd_def_action : Z;
  hd_apply_dir : Z;
  hd_flag : Z
}.
Definition POLICY_HDL_FLAG_FQDN : Z := 1.

Definition hd_set_ref (n : Z) (h : dpi_policy_hdl_t) : dpi_policy_hdl_t :=
  PolicyHdl n (hd_ver h) (hd_policy_map h) (hd_range_policy_map h) (hd_def_action h) (hd_apply_dir h) (hd_flag h).
Definition hd_set_flag (f : Z) (h : dpi_policy_hdl_t) : dpi_policy_hdl_t :=
  PolicyHdl (hd_ref_cnt h) (hd_ver h) (hd_policy_map h) (hd_range_policy_map h) (hd_def_action h) (hd_apply_dir h) f.
Definition hd_add_rule (k : dpi_rule_key_t) (d : dpi_policy_desc_t) (h : dpi_policy_hdl_t) : dpi_policy_hdl_t :=
  PolicyHdl (hd_ref_cnt h) (hd_ver h) (hd_policy_map h ++ [(k, d)]) (hd_range_policy_map h)
    (hd_def_action h) (hd_apply_dir h) (hd_flag h).
Definition hd_set_ranges (m : gmap dpi_range_rule_key_t (list dpi_range_rule_item_t)) (h : dpi_policy_hdl_t)
    : dpi_policy_hdl_t :=
  PolicyHdl (hd_ref_cnt h) (hd_ver h) (hd_policy_map h) m (hd_def_action h) (hd_apply_dir h) (hd_flag h).

Inductive rule_dir := POLICY_RULE_DIR_EGRESS | POLICY_RULE_DIR_INGRESS | POLICY_RULE_DIR_NONE.
#[export] Instance rule_dir_eq_dec : EqDecision rule_dir.
Proof. solve_decision. Defined.

Record dpi_policy_app_rule_t := AppRule { ar_rule_id : Z; ar_app : Z; ar_action : Z }.

Record dpi_policy_rule_t := PolicyRule {
  pr_id : Z;
  pr_sip : Z;
  pr_sip_r : Z;
  pr_dip : Z;
  pr_dip_r : Z;
  pr_dport : Z;
  pr_dport_r : Z;
  pr_proto : Z;
  pr_action : Z;
  pr_ingress : bool;
  pr_vh : bool;
  pr_fqdn : string;
  pr_app_rules : list dpi_policy_app_rule_t
}.

Record dpi_policy_t := Policy {
  pl_mac_list : list (list Z);
  pl_def_action : Z;
  pl_apply_dir : Z;
  pl_rule_list : list dpi_policy_rule_t
}.

(** ** Kinds of addresses: [dp/dpi/dpi_entry.c] *)

(** What the thread of the caller holds of the global settings: the addresses
    and the masks of the internal subnets, those of the special ones with
    their type, the addresses with a policy (a [None] is a null pointer), and
    the switches. *)
Record dp_env := DPEnv {
  en_internal_subnet4 : option (list (Z * Z));
  en_specialip_subnet4 : option (list (Z * Z * Z));
  en_policy_addr : option (list Z);
  en_disable_net_policy : bool;
  en_detect_unmanaged_wl : bool;
  en_strict_group_mode : bool;
  en_enable_icmp_policy : bool
}.

Definition DP_IPTYPE_NONE : Z := 0.
Definition DP_IPTYPE_TUNNELIP : Z := 1.
Definition DP_IPTYPE_SVCIP : Z := 2.
Definition DP_IPTYPE_HOSTIP : Z := 3.
Definition DP_IPTYPE_DEVIP : Z := 4.
Definition DP_IPTYPE_UWLIP : Z := 5.
Definition DP_IPTYPE_EXTIP : Z := 6.

Definition INADDR_LOOPBACK : Z := 2130706433.
Definition IS_IN_LOOPBACK (i : Z) : bool := Z.land i 4278190080 =? 2130706432.
Definition IS_IN_LINKLOCAL (i : Z) : bool := Z.land i 4294901760 =? 2851995648.

Definition dpi_is_ip4_internal (env : dp_env) (ip : Z) : bool :=
  match en_internal_subnet4 env with
  | None | Some [] => true
  | Some l =>
      (ip =? INADDR_LOOPBACK) || IS_IN_LOOPBACK ip
      || existsb (fun '(net, mask) => Z.land ip mask =? net) l
  end.

Definition dpi_ip4_iptype (env : dp_env) (ip : Z) : Z :=
  match en_specialip_subnet4 env with
  | None => DP_IPTYPE_NONE
  | Some l =>
      match List.find (fun '(net, mask, _) => Z.land ip mask =? net) l with
      | Some (_, _, iptype) => iptype
      | None => DP_IPTYPE_NONE
      end
  end.

Definition dpi_is_policy_addr (env : dp_env) (ip : Z) : bool :=
  match en_policy_addr env with
  | None => false
  | Some l => existsb (fun a => Z.lxor ip a =? 0) l
  end.

(** ** Packets *)

(** The session fields a lookup reads. *)
Record session_view := SessionView { sv_app_ready : bool; sv_vhost : string; sv_vhlen : Z }.

(** A packet: [nbe] of its endpoint, if it has one, and its session. *)
Record pkt_view := PktView { pv_ep_nbe : option bool; pv_session : option session_view }.

Definition _dpi_is_chk_nbe (p : option pkt_view) : bool :=
  match p with Some p => default false (pv_ep_nbe p) | None => false end.

(** ** Lookup *)

Definition IS_X_IN_RANGE (x y z : Z) : bool := (y <=? x) && (x <=? z).

Definition rule_key_in_range (item : dpi_range_rule_item_t) (k : dpi_rule_key_t) : bool :=
  IS_X_IN_RANGE (rk_dport k) (rk_dport (ri_key_l item)) (rk_dport (ri_key_h item))
  && IS_X_IN_RANGE (rk_sip k) (rk_sip (ri_key_l item)) (rk_sip (ri_key_h item))
  && IS_X_IN_RANGE (rk_dip k) (rk_dip (ri_key_l item)) (rk_dip (ri_key_h item))
  && IS_X_IN_RANGE (rk_app k) (rk_app (ri_key_l item)) (rk_app (ri_key_h item)).

Definition dpi_range_rule_match (range_rule_list : list dpi_range_rule_item_t) (key : dpi_rule_key_t)
    : option dpi_range_rule_item_t :=
  List.find (fun item => rule_key_in_range item key) range_rule_list.

Definition set_sip (ip : Z) (k : dpi_rule_key_t) : dpi_rule_key_t :=
  RuleKey ip (rk_dip k) (rk_dport k) (rk_proto k) (rk_app k).
Definition set_dip (ip : Z) (k : dpi_rule_key_t) : dpi_rule_key_t :=
  RuleKey (rk_sip k) ip (rk_dport k) (rk_proto k) (rk_app k).
Definition set_proto (proto : Z) (k : dpi_rule_key_t) : dpi_rule_key_t :=
  RuleKey (rk_sip k) (rk_dip k) (rk_dport k) proto (rk_app k).
Definition set_app (app : Z) (k : dpi_rule_key_t) : dpi_rule_key_t :=
  RuleKey (rk_sip k) (rk_dip k) (rk_dport k) (rk_proto k) app.

(** [desc->id = id; desc->action = action; desc->flags = flags]. *)
Definition set_verdict (id action flags : Z) (d : dpi_policy_desc_t) : dpi_policy_desc_t :=
  PolicyDesc id action flags (pd_hdl_ver d) (pd_order d).
Definition add_flags (f : Z) (d : dpi_policy_desc_t) : dpi_policy_desc_t :=
  PolicyDesc (pd_id d) (pd_action d) (Z.lor (pd_flags d) f) (pd_hdl_ver d) (pd_order d).
Definition set_ver (v : Z) (d : dpi_policy_desc_t) : dpi_policy_desc_t :=
  PolicyDesc (pd_id d) (pd_action d) (pd_flags d) v (pd_order d).

(** The address of the peer in a key: where the other side's address goes. *)
Definition set_peer (is_ingress : bool) (ip : Z) (k : dpi_rule_key_t) : dpi_rule_key_t :=
  if is_ingress then set_sip ip k else set_dip ip k.

Definition policy_desc_merge (desc1 desc2 : dpi_policy_desc_t) : dpi_policy_desc_t :=
  if (0 <? pd_id desc2) && (pd_order desc2 <? pd_order desc1) then desc2 else desc1.

Section lookup.
(** [rcu_map_lookup] returns one of the nodes with the key: which one when
    there are several is up to the hash table. *)
Context (pick : list dpi_policy_desc_t -> option dpi_policy_desc_t).

Definition policy_map_lookup (hdl : dpi_policy_hdl_t) (key : dpi_rule_key_t) : option dpi_policy_desc_t :=
  pick (filter (fun e => e.1 = key) (hd_policy_map hdl)).*2.

(** The first item of the range list under [key2] that has the key. *)
Definition range_lookup (hdl : dpi_policy_hdl_t) (key2 : dpi_range_rule_key_t) (key : dpi_rule_key_t)
    : option dpi_policy_desc_t :=
  match hd_range_policy_map hdl !! key2 with
  | Some r2 => ri_desc <$> dpi_range_rule_match r2 key
  | None => None
  end.

Definition default_desc (hdl : dpi_policy_hdl_t) : dpi_policy_desc_t :=
  PolicyDesc 0 (wrap 8 (hd_def_action hdl)) POLICY_DESC_CHECK_VER 0 4294967295.

Definition _dpi_policy_lookup_by_key (hdl : dpi_policy_hdl_t) (key : dpi_rule_key_t) (is_ingress : bool)
    : dpi_policy_desc_t :=
  match policy_map_lookup hdl key with
  | Some d => d
  | None =>
      let key2 := if is_ingress then RangeKey (rk_dip key) (rk_proto key) DP_RANGE_RULE_INGRESS
                  else RangeKey (rk_sip key) (rk_proto key) DP_RANGE_RULE_EGRESS in
      match range_lookup hdl key2 key with
      | Some d => d
      | None =>
          (* match no direction rule *)
          match range_lookup hdl (RangeKey 0 (rk_proto key) 0) key with
          | Some d => d
          | None => default_desc hdl
          end
      end
  end.

(** The adjustment for a record for virtual hosts. *)
Definition vhost_desc (hdl : dpi_policy_hdl_t) (s : option session_view) (r : fqdn_record_t)
    (desc3 : dpi_policy_desc_t) : dpi_policy_desc_t :=
  if fr_vh r then
    match s with
    | Some s =>
        if sv_app_ready s then
          if 0 <? pd_id desc3 then
            let wildmatch := has_flag (fr_flag r) FQDN_RECORD_WILDCARD
                             && match_fqdn_wildcard_name (sv_vhost s) (fr_name r) in
            if (sv_vhlen s =? 0) || (negb (strcasecmp (fr_name r) (sv_vhost s)) && negb wildmatch)
            then PolicyDesc 0 (wrap 8 (hd_def_action hdl)) (pd_flags desc3) 0 4294967295
            else desc3
          else desc3
        else if (0 <? pd_id desc3) && negb (pd_action desc3 =? DP_POLICY_ACTION_CHECK_APP)
        then PolicyDesc (pd_id desc3) DP_POLICY_ACTION_CHECK_VH (pd_flags desc3) (pd_hdl_ver desc3) (pd_order desc3)
        else desc3
    | None =>
        if (0 <? pd_id desc3) && negb (pd_action desc3 =? DP_POLICY_ACTION_CHECK_APP)
        then PolicyDesc (pd_id desc3) DP_POLICY_ACTION_CHECK_VH (pd_flags desc3) (pd_hdl_ver desc3) (pd_order desc3)
        else desc3
    end
  else desc3.

(** The loop over the names of an address; [None] as long as no record had a
    code. *)
Fixpoint fqdn_code_loop (fqdn_hdl : dpi_fqdn_hdl_t) (hdl : dpi_policy_hdl_t) (key : dpi_rule_key_t)
    (is_ingress : bool) (s : option session_view) (rlist : list nat) (desc2 : option dpi_policy_desc_t)
    : outcome (option dpi_policy_desc_t) :=
  match rlist with
  | [] => Done desc2
  | a :: rlist =>
      r ← deref fqdn_hdl a;
      if fr_code r =? 0 then fqdn_code_loop fqdn_hdl hdl key is_ingress s rlist desc2
      else
        let key := set_peer is_ingress (fr_code r) key in
        let desc3 := vhost_desc hdl s r (_dpi_policy_lookup_by_key hdl key is_ingress) in
        let desc2 := match desc2 with None => desc3 | Some d => policy_desc_merge d desc3 end in
        fqdn_code_loop fqdn_hdl hdl key is_ingress s rlist (Some desc2)
  end.

(** The result is [None] when the C function returns 0.  What it leaves in the
    key is not read afterwards. *)
Definition policy_match_ipv4_fqdn_code (fqdn_hdl : dpi_fqdn_hdl_t) (ip : Z) (hdl : dpi_policy_hdl_t)
    (key : dpi_rule_key_t) (is_ingress : bool) (p : option pkt_view) : outcome (option dpi_policy_desc_t) :=
  match fh_ipv4_map fqdn_hdl !! ip with
  | None => Done None
  | Some rlist =>
      fqdn_code_loop fqdn_hdl hdl key is_ingress (p ≫= pv_session) rlist None
  end.

(** The lookup of the rules for a peer: the tables, the names of the peer, and
    the rules for external addresses. *)
Definition match_rules (fqdn : option dpi_fqdn_hdl_t) (hdl : dpi_policy_hdl_t) (key : dpi_rule_key_t)
    (is_ingress is_internal : bool) (p : option pkt_view) : outcome dpi_policy_desc_t :=
  let peer := if is_ingress then rk_sip key else rk_dip key in
  let desc := _dpi_policy_lookup_by_key hdl key is_ingress in
  desc ← (if has_flag (hd_flag hdl) POLICY_HDL_FLAG_FQDN then
            match fqdn with
            | None => invalid_access
            | Some fqdn_hdl =>
                rt ← policy_match_ipv4_fqdn_code fqdn_hdl peer hdl key is_ingress p;
                Done (match rt with Some desc2 => policy_desc_merge desc desc2 | None => desc end)
            end
          else Done desc);
  if negb is_internal then
    let desc2 := _dpi_policy_lookup_by_key hdl (set_peer is_ingress 0 key) is_ingress in
    Done (add_flags POLICY_DESC_EXTERNAL (policy_desc_merge desc desc2))
  else Done (add_flags POLICY_DESC_INTERNAL desc).

(** [desc->id = 0; desc->action = OPEN; desc->flags = flags]. *)
Definition open_desc (flags : Z) (desc : dpi_policy_desc_t) : dpi_policy_desc_t :=
  set_verdict 0 DP_POLICY_ACTION_OPEN flags desc.

Definition int_or_ext (is_internal : bool) : Z :=
  if is_internal then POLICY_DESC_INTERNAL else POLICY_DESC_EXTERNAL.

Definition lookup_ingress (env : dp_env) (fqdn : option dpi_fqdn_hdl_t) (hdl : dpi_policy_hdl_t)
    (key : dpi_rule_key_t) (is_nbe check_sgm : bool) (desc : dpi_policy_desc_t) (p : option pkt_view)
    : outcome dpi_policy_desc_t :=
  let is_internal := dpi_is_ip4_internal env (rk_sip key) in
  let iptype := dpi_ip4_iptype env (rk_sip key) in
  if is_internal && negb (has_flag (hd_apply_dir hdl) DP_POLICY_APPLY_INGRESS)
     && negb (iptype =? DP_IPTYPE_UWLIP) && negb is_nbe && negb check_sgm then
    (* east-west ingress traffic is always allowed *)
    let desc := open_desc POLICY_DESC_INTERNAL desc in
    Done (if iptype =? DP_IPTYPE_TUNNELIP then add_flags POLICY_DESC_TUNNEL desc
          else if iptype =? DP_IPTYPE_HOSTIP then add_flags POLICY_DESC_HOSTIP desc else desc)
  else if (iptype =? DP_IPTYPE_UWLIP) && negb (en_detect_unmanaged_wl env) then
    Done (open_desc (int_or_ext is_internal) desc)
  else match_rules fqdn hdl key true is_internal p.

Definition lookup_egress (env : dp_env) (fqdn : option dpi_fqdn_hdl_t) (hdl : dpi_policy_hdl_t)
    (key : dpi_rule_key_t) (is_nbe check_sgm : bool) (desc : dpi_policy_desc_t) (p : option pkt_view)
    : outcome dpi_policy_desc_t :=
  match fqdn with
  | None => invalid_access
  | Some fqdn_hdl =>
  let is_internal := dpi_is_ip4_internal env (rk_dip key) in
  let iptype := dpi_ip4_iptype env (rk_dip key) in
  let ipv4_ent := bool_decide (is_Some (fh_ipv4_map fqdn_hdl !! rk_dip key)) in
  let is_src_internal := dpi_is_ip4_internal env (rk_sip key) in
  let apply_egress := has_flag (hd_apply_dir hdl) DP_POLICY_APPLY_EGRESS in
  if is_internal && negb is_src_internal && apply_egress then
    Done (open_desc POLICY_DESC_INTERNAL desc)
  else if negb is_internal && (iptype =? DP_IPTYPE_EXTIP) then
    let action := if hd_def_action hdl =? DP_POLICY_ACTION_DENY then DP_POLICY_ACTION_DENY
                  else DP_POLICY_ACTION_VIOLATE in
    let flags := Z.lor (Z.lor (pd_flags desc) POLICY_DESC_EXTERNAL) POLICY_DESC_SVC_EXTIP in
    Done (PolicyDesc 0 action flags (pd_hdl_ver desc) 4294967295)
  else if is_internal && negb apply_egress && negb ipv4_ent && negb (iptype =? DP_IPTYPE_HOSTIP)
          && negb (iptype =? DP_IPTYPE_UWLIP) && negb is_nbe && negb check_sgm then
    (* east-west egress traffic is always allowed *)
    Done (open_desc POLICY_DESC_INTERNAL desc)
  else if (iptype =? DP_IPTYPE_UWLIP) && negb (en_detect_unmanaged_wl env) then
    Done (open_desc (int_or_ext is_internal) desc)
  else if is_nbe && (iptype =? DP_IPTYPE_SVCIP) then
    Done (open_desc POLICY_DESC_INTERNAL desc)
  else match_rules fqdn hdl key false is_internal p
  end.

(** [desc] is the descriptor the caller passes, which the function writes. *)
Definition dpi_policy_lookup_by_key (env : dp_env) (fqdn : option dpi_fqdn_hdl_t)
    (hdl : option dpi_policy_hdl_t) (sip dip dport proto app : Z) (is_ingress : bool)
    (desc : dpi_policy_desc_t) (p : option pkt_view) : outcome dpi_policy_desc_t :=
  let is_nbe := _dpi_is_chk_nbe p in
  let tmp_open :=
    let peer := if is_ingress then sip else dip in
    open_desc (Z.lor (Z.lor POLICY_DESC_CHECK_VER POLICY_DESC_TMP_OPEN)
                 (int_or_ext (dpi_is_ip4_internal env peer))) desc in
  match hdl with
  | None => Done (set_ver 0 tmp_open)
  | Some hdl =>
      desc ← (if en_disable_net_policy env then Done tmp_open
              else if IS_IN_LINKLOCAL sip || IS_IN_LINKLOCAL dip then
                Done (open_desc (Z.lor (Z.lor POLICY_DESC_CHECK_VER POLICY_DESC_INTERNAL)
                                   POLICY_DESC_LINK_LOCAL) desc)
              else
                let key := RuleKey sip dip dport proto app in
                let check_sgm := en_strict_group_mode env && (hd_def_action hdl =? DP_POLICY_ACTION_DENY) in
                (if is_ingress then lookup_ingress else lookup_egress) env fqdn hdl key is_nbe check_sgm desc p);
      Done (set_ver (hd_ver hdl) desc)
  end.
End lookup.

(** ** Adding rules *)

Definition get_range_key (key_l key_h : dpi_rule_key_t) (dir : rule_dir) : option dpi_range_rule_key_t :=
  if negb (rk_proto key_l =? rk_proto key_h) then None
  else Some match dir with
       | POLICY_RULE_DIR_INGRESS => RangeKey (rk_dip key_l) (rk_proto key_l) DP_RANGE_RULE_INGRESS
       | POLICY_RULE_DIR_EGRESS => RangeKey (rk_sip key_l) (rk_proto key_l) DP_RANGE_RULE_EGRESS
       | POLICY_RULE_DIR_NONE => RangeKey 0 (rk_proto key_l) 0
       end.

(** The result of an addition: -1, 0 for a rule that was there, 1 for a new
    one; the descriptor of the rule that was there; the handle. *)
Definition dpi_range_rule_add (hdl : dpi_policy_hdl_t) (key_l key_h : dpi_rule_key_t) (dir : rule_dir)
    (desc exist_desc : dpi_policy_desc_t) : Z * dpi_policy_desc_t * dpi_policy_hdl_t :=
  match get_range_key key_l key_h dir with
  | None => (-1, exist_desc, hdl)
  | Some key =>
      let items := default [] (hd_range_policy_map hdl !! key) in
      match List.find (fun p => bool_decide (ri_key_l p = key_l) && bool_decide (ri_key_h p = key_h)) items with
      | Some p => (0, ri_desc p, hdl)
      | None =>
          (1, exist_desc,
           hd_set_ranges (<[key := items ++ [RangeItem desc key_l key_h]]> (hd_range_policy_map hdl)) hdl)
      end
  end.

Definition set_opt_app (app : Z) (key_h : option dpi_rule_key_t) : option dpi_rule_key_t :=
  set_app app <$> key_h.

(** [desc] with the id and the action of an application rule. *)
Definition app_desc_of (app_rule : dpi_policy_app_rule_t) (desc : dpi_policy_desc_t) : dpi_policy_desc_t :=
  PolicyDesc (ar_rule_id app_rule) (ar_action app_rule) (pd_flags desc) 0 (pd_order desc).

Definition APP_MAX : Z := 4294967295.

Section add.
Context (pick : list dpi_policy_desc_t -> option dpi_policy_desc_t).
Context (env : dp_env) (fqdn : option dpi_fqdn_hdl_t).

Definition dpi_rule_add_one (hdl : dpi_policy_hdl_t) (key_l : dpi_rule_key_t) (key_h : option dpi_rule_key_t)
    (dir : rule_dir) (desc exist_desc : dpi_policy_desc_t)
    : outcome (Z * dpi_policy_desc_t * dpi_policy_hdl_t) :=
  match key_h with
  | None =>
      exist_desc ← dpi_policy_lookup_by_key pick env fqdn (Some hdl) (rk_sip key_l) (rk_dip key_l)
                     (rk_dport key_l) (rk_proto key_l) (rk_app key_l)
                     (bool_decide (dir = POLICY_RULE_DIR_INGRESS)) exist_desc None;
      if negb (pd_id exist_desc =? 0) then Done (0, exist_desc, hdl)
      else Done (1, exist_desc, hd_add_rule key_l desc hdl)
  | Some key_h => Done (dpi_range_rule_add hdl key_l key_h dir desc exist_desc)
  end.

(** The keys of the caller change too: the last two components. *)
Definition dpi_add_app_rule (hdl : dpi_policy_hdl_t) (key_l : dpi_rule_key_t) (key_h : option dpi_rule_key_t)
    (app_rule : dpi_policy_app_rule_t) (dir : rule_dir) (desc exist_desc : dpi_policy_desc_t)
    : outcome (Z * dpi_policy_desc_t * dpi_policy_hdl_t * dpi_rule_key_t * option dpi_rule_key_t) :=
  let key_l := set_app (ar_app app_rule) key_l in
  let any := ar_app app_rule =? 0 in
  let key_h := set_opt_app (if any then APP_MAX else ar_app app_rule) key_h in
  (* application any on a single rule: a range of one address and one port *)
  let upper := match key_h with
               | Some _ => key_h
               | None => if any then Some (set_app APP_MAX key_l) else None
               end in
  '(ret, exist_desc, hdl) ← dpi_rule_add_one hdl key_l upper dir (app_desc_of app_rule desc) exist_desc;
  Done (ret, exist_desc, hdl, key_l, key_h).

(** What the loop over the application rules changes. *)
Record add_state := AddState {
  as_ret : Z;
  as_exist : dpi_policy_desc_t;
  as_hdl : dpi_policy_hdl_t;
  as_key_l : dpi_rule_key_t;
  as_key_h : option dpi_rule_key_t
}.

Definition add_app_step (dir : rule_dir) (desc : dpi_policy_desc_t) (st : add_state)
    (app_rule : dpi_policy_app_rule_t) : outcome add_state :=
  '(ret, exist_desc, hdl, key_l, key_h) ←
    dpi_add_app_rule (as_hdl st) (as_key_l st) (as_key_h st) app_rule dir desc (as_exist st);
  Done (AddState (if ret =? 1 then as_ret st + 1 else as_ret st) exist_desc hdl key_l key_h).

(** The application-any rule of a rule that is not an application one. *)
Definition any_app_rule (desc : dpi_policy_desc_t) : dpi_policy_app_rule_t :=
  AppRule (pd_id desc) 0 (pd_action desc).

Definition dpi_rule_add (hdl : dpi_policy_hdl_t) (key_l : dpi_rule_key_t) (key_h : option dpi_rule_key_t)
    (app_rules : list dpi_policy_app_rule_t) (dir : rule_dir) (desc : dpi_policy_desc_t)
    : outcome (Z * dpi_policy_hdl_t * dpi_rule_key_t * option dpi_rule_key_t) :=
  '(ret, exist_desc, hdl) ← dpi_rule_add_one hdl key_l key_h dir desc (PolicyDesc 0 0 0 0 0);
  let apps ret exist_desc hdl key_l key_h :=
    match app_rules with
    | [] => Done (ret, hdl, key_l, key_h)
    | _ =>
        st ← foldM (add_app_step dir desc) (AddState ret exist_desc hdl key_l key_h) app_rules;
        (* recover the values as the caller can reuse the same keys *)
        Done (as_ret st, as_hdl st, set_app 0 (as_key_l st), set_opt_app 0 (as_key_h st))
    end in
  let any :=
    '(ret, exist_desc, hdl, key_l, key_h) ←
      dpi_add_app_rule hdl key_l key_h (any_app_rule desc) dir desc exist_desc;
    apps ret exist_desc hdl key_l key_h in
  if ret <? 0 then Done (ret, hdl, key_l, key_h)
  else if (ret =? 0) && (0 <? pd_id exist_desc) then
    if negb (pd_action exist_desc =? DP_POLICY_ACTION_CHECK_APP) then Done (ret, hdl, key_l, key_h)
    else if negb (pd_action desc =? DP_POLICY_ACTION_CHECK_APP) then any
    else apps ret exist_desc hdl key_l key_h
  else if 0 <? ret then
    if (0 <? pd_id desc) && negb (pd_action desc =? DP_POLICY_ACTION_CHECK_APP) then any
    else apps ret exist_desc hdl key_l key_h
  else apps ret exist_desc hdl key_l key_h.

Definition IPPROTO_ICMP : Z := 1.
Definition IPPROTO_TCP : Z := 6.
Definition IPPROTO_UDP : Z := 17.

(** Allow all ICMP traffic. *)
Definition dpi_add_default_policy (hdl : dpi_policy_hdl_t) : outcome dpi_policy_hdl_t :=
  let key_l := RuleKey 0 0 0 IPPROTO_ICMP 0 in
  let key_h := RuleKey 4294967295 4294967295 0 IPPROTO_ICMP 0 in
  let desc := PolicyDesc 0 DP_POLICY_ACTION_ALLOW 0 0 4294967295 in
  '(_, hdl, _, _) ← dpi_rule_add hdl key_l (Some key_h) [] POLICY_RULE_DIR_NONE desc;
  Done hdl.

(** The protocols a rule is added under, one after the other; the keys carry
    over from one to the next. *)
Definition rule_protos (proto : Z) : list Z :=
  if 0 <? proto then [proto]
  else [IPPROTO_TCP; IPPROTO_UDP] ++ (if en_enable_icmp_policy env then [IPPROTO_ICMP] else []).

Definition add_proto (dir : rule_dir) (app_rules : list dpi_policy_app_rule_t) (desc : dpi_policy_desc_t)
    (st : dpi_policy_hdl_t * dpi_rule_key_t * option dpi_rule_key_t) (proto : Z)
    : outcome (dpi_policy_hdl_t * dpi_rule_key_t * option dpi_rule_key_t) :=
  let '(hdl, key, key_r) := st in
  '(_, hdl, key, key_r) ← dpi_rule_add hdl (set_proto proto key) (set_proto proto <$> key_r) app_rules dir desc;
  Done (hdl, key, key_r).

Definition rule_dir_of (r : dpi_policy_rule_t) : rule_dir :=
  if pr_ingress r then POLICY_RULE_DIR_INGRESS else POLICY_RULE_DIR_EGRESS.

(** A rule whose addresses are resolved, at the position [order]. *)
Definition add_rule (hdl : dpi_policy_hdl_t) (order : Z) (r : dpi_policy_rule_t) : outcome dpi_policy_hdl_t :=
  let key := RuleKey (pr_sip r) (pr_dip r) (pr_dport r) (pr_proto r) 0 in
  let desc := PolicyDesc (pr_id r) (pr_action r) POLICY_DESC_CHECK_VER 0 order in
  let key_r :=
    if negb (pr_dport r =? pr_dport_r r) || negb (pr_sip r =? pr_sip_r r) || negb (pr_dip r =? pr_dip_r r)
    then Some (RuleKey (pr_sip_r r) (pr_dip_r r) (pr_dport_r r) (pr_proto r) 0)
    else None in
  st ← foldM (add_proto (rule_dir_of r) (pr_app_rules r) desc) (hdl, key, key_r) (rule_protos (pr_proto r));
  Done st.1.1.
End add.

(** ** Configuration *)

Definition MSG_START : Z := 1.
Definition MSG_END : Z := 2.
Definition CFG_ADD : Z := 1.
Definition CFG_MODIFY : Z := 2.
Definition CFG_DELETE : Z := 3.

Definition dpi_policy_hdl_init (def_action : Z) : dpi_policy_hdl_t := PolicyHdl 0 0 [] ∅ def_action 0 0.

(** The endpoint fields of the policy. *)
Record io_ep_t := Ep { ep_policy_hdl : option nat; ep_policy_ver : Z }.

(** The memory of the configuration.  Handles are shared by the endpoints:
    [ps_hdls] holds them by address, [ps_fresh] is an address that was never
    used.  [ps_eps] gives the endpoint of an original MAC address of
    [g_ep_map]; the unicast and broadcast addresses of an endpoint are not
    used to configure it.  [ps_hdl] and [ps_order] are the static variables of
    [dpi_policy_cfg]. *)
Record policy_state := PolicyState {
  ps_hdls : gmap nat dpi_policy_hdl_t;
  ps_fresh : nat;
  ps_hdl : option nat;
  ps_order : Z;
  ps_policy_ver : Z;
  ps_eps : gmap (list Z) io_ep_t;
  ps_fqdn : option dpi_fqdn_hdl_t
}.

Definition ps_set_hdls (m : gmap nat dpi_policy_hdl_t) (s : policy_state) : policy_state :=
  PolicyState m (ps_fresh s) (ps_hdl s) (ps_order s) (ps_policy_ver s) (ps_eps s) (ps_fqdn s).
Definition ps_set_hdl (h : option nat) (s : policy_state) : policy_state :=
  PolicyState (ps_hdls s) (ps_fresh s) h (ps_order s) (ps_policy_ver s) (ps_eps s) (ps_fqdn s).
Definition ps_set_order (o : Z) (s : policy_state) : policy_state :=
  PolicyState (ps_hdls s) (ps_fresh s) (ps_hdl s) o (ps_policy_ver s) (ps_eps s) (ps_fqdn s).
Definition ps_set_eps (m : gmap (list Z) io_ep_t) (s : policy_state) : policy_state :=
  PolicyState (ps_hdls s) (ps_fresh s) (ps_hdl s) (ps_order s) (ps_policy_ver s) m (ps_fqdn s).
Definition ps_set_fqdn (f : option dpi_fqdn_hdl_t) (s : policy_state) : policy_state :=
  PolicyState (ps_hdls s) (ps_fresh s) (ps_hdl s) (ps_order s) (ps_policy_ver s) (ps_eps s) f.

(** [GET_NEW_POLICY_VER()]: the next version, a [uint16_t] that skips 0. *)
Definition get_new_policy_ver (policy_ver : Z) : Z :=
  let v := wrap 16 (policy_ver + 1) in if v =? 0 then wrap 16 (v + 1) else v.

Definition hdl_deref (s : policy_state) (a : nat) : outcome dpi_policy_hdl_t :=
  match ps_hdls s !! a with Some h => Done h | None => invalid_access end.

Definition hdl_store (a : nat) (h : dpi_policy_hdl_t) (s : policy_state) : policy_state :=
  ps_set_hdls (<[a := h]> (ps_hdls s)) s.

Definition dpi_policy_hdl_destroy (s : policy_state) (a : nat) : outcome policy_state :=
  h ← hdl_deref s a;
  if 1 <? hd_ref_cnt h then Done (hdl_store a (hd_set_ref (hd_ref_cnt h - 1) h) s)
  else Done (ps_set_hdls (delete a (ps_hdls s)) s).

Definition dp_policy_destroy (s : policy_state) (policy_hdl : option nat) : outcome policy_state :=
  match policy_hdl with Some a => dpi_policy_hdl_destroy s a | None => Done s end.

(** One MAC address gets the handle; the handle it had is released. *)
Definition dpi_policy_update (s : policy_state) (mac_addr : list Z) (hdl : option nat)
    : outcome (Z * policy_state) :=
  match ps_eps s !! mac_addr with
  | None => Done (-1, s)
  | Some ep =>
      let old := ep_policy_hdl ep in
      '(ver, s) ← match hdl with
                  | Some a => h ← hdl_deref s a;
                              Done (hd_ver h, hdl_store a (hd_set_ref (wrap 16 (hd_ref_cnt h + 1)) h) s)
                  | None => Done (0, s)
                  end;
      let s := ps_set_eps (<[mac_addr := Ep hdl ver]> (ps_eps s)) s in
      s ← dp_policy_destroy s old;
      Done (0, s)
  end.

(** ** Endpoints: [dp/ctrl.c] *)

(** The policy fields in [dp_ctrl_add_mac]: an endpoint that replaces the one
    of [oldmac] takes over its handle. *)
Definition dp_ctrl_add_mac (s : policy_state) (mac : list Z) (oldmac : option (list Z)) : policy_state :=
  let old := default mac oldmac in
  match ps_eps s !! old with
  | Some old_ep => ps_set_eps (<[mac := old_ep]> (delete old (ps_eps s))) s
  | None => ps_set_eps (<[mac := Ep None 0]> (ps_eps s)) s
  end.

(** [dp_ctrl_del_mac] with [dp_policy_destroy] of [ep_destroy]. *)
Definition dp_ctrl_del_mac (s : policy_state) (mac : list Z) : outcome (Z * policy_state) :=
  match ps_eps s !! mac with
  | None => Done (-1, s)
  | Some ep =>
      s ← dp_policy_destroy (ps_set_eps (delete mac (ps_eps s)) s) (ep_policy_hdl ep);
      Done (0, s)
  end.

Section cfg.
Context (pick : list dpi_policy_desc_t -> option dpi_policy_desc_t).
(** The settings as the thread of the configuration sees them. *)
Context (env : dp_env).

Definition set_rule_sip (ip : Z) (r : dpi_policy_rule_t) : dpi_policy_rule_t :=
  PolicyRule (pr_id r) ip ip (pr_dip r) (pr_dip_r r) (pr_dport r) (pr_dport_r r) (pr_proto r) (pr_action r)
    (pr_ingress r) (pr_vh r) (pr_fqdn r) (pr_app_rules r).
Definition set_rule_dip (ip : Z) (r : dpi_policy_rule_t) : dpi_policy_rule_t :=
  PolicyRule (pr_id r) (pr_sip r) (pr_sip_r r) ip ip (pr_dport r) (pr_dport_r r) (pr_proto r) (pr_action r)
    (pr_ingress r) (pr_vh r) (pr_fqdn r) (pr_app_rules r).

(** The rule with the code of its domain name in place of the peer; [None]
    when the name got no code. *)
Definition resolve_fqdn (fqdn : option dpi_fqdn_hdl_t) (r : dpi_policy_rule_t)
    : outcome (option dpi_policy_rule_t * option dpi_fqdn_hdl_t) :=
  match fqdn with
  | None => invalid_access
  | Some fh =>
      '(code, fh) ← config_fqdn_ipv4_mapping fh (pr_fqdn r) (if pr_ingress r then pr_sip r else pr_dip r) (pr_vh r);
      if code =? no_code then Done (None, Some fh)
      else Done (Some (if pr_ingress r then set_rule_sip code r else set_rule_dip code r), Some fh)
  end.

(** The body of the loop over the rules, on the handle at [a]. *)
Definition cfg_rule (a : nat) (s : policy_state) (r : dpi_policy_rule_t) : outcome policy_state :=
  '(r, s) ← (if bool_decide (pr_fqdn r = "") then Done (Some r, s)
             else
               '(r, fqdn) ← resolve_fqdn (ps_fqdn s) r;
               let s := ps_set_fqdn fqdn s in
               match r with
               | None => Done (None, s)
               | Some r =>
                   h ← hdl_deref s a;
                   Done (Some r, hdl_store a (hd_set_flag (set_flag (hd_flag h) POLICY_HDL_FLAG_FQDN) h) s)
               end);
  match r with
  | None => Done s
  | Some r =>
      let order := wrap 32 (ps_order s + 1) in
      h ← hdl_deref s a;
      h ← add_rule pick env (ps_fqdn s) h order r;
      Done (ps_set_order order (hdl_store a h s))
  end.

Fixpoint update_macs (s : policy_state) (mac_list : list (list Z)) (hdl : option nat) : outcome policy_state :=
  match mac_list with
  | [] => Done s
  | mac :: mac_list => '(_, s) ← dpi_policy_update s mac hdl; update_macs s mac_list hdl
  end.

(** A new handle at a fresh address, with the next version. *)
Definition new_hdl (p : dpi_policy_t) (s : policy_state) : nat * policy_state :=
  let ver := get_new_policy_ver (ps_policy_ver s) in
  let h := PolicyHdl 0 ver [] ∅ (pl_def_action p) (pl_apply_dir p) 0 in
  (ps_fresh s,
   PolicyState (<[ps_fresh s := h]> (ps_hdls s)) (S (ps_fresh s)) (Some (ps_fresh s)) 0 ver
     (ps_eps s) (ps_fqdn s)).

(** A first message throws away the handle of a policy that did not end. *)
Definition cfg_start (start : bool) (s : policy_state) : outcome policy_state :=
  if start then s ← dp_policy_destroy s (ps_hdl s); Done (ps_set_hdl None s) else Done s.

(** The rules of the message go into the handle, or the handle goes.  [alloc]
    is whether the allocation of the handle succeeds: the handle is written
    before it is compared with NULL. *)
Definition cfg_fill (alloc start end_ : bool) (cmd : Z) (p : dpi_policy_t) (s : policy_state)
    : outcome policy_state :=
  if negb (cmd =? CFG_DELETE) then
    s ← (if start then if alloc then Done (new_hdl p s).2 else invalid_access else Done s);
    match ps_hdl s with
    | None => invalid_access
    | Some a =>
        s ← foldM (cfg_rule a) s (pl_rule_list p);
        if end_ && negb (en_enable_icmp_policy env) then
          h ← hdl_deref s a;
          h ← dpi_add_default_policy pick env (ps_fqdn s) h;
          Done (hdl_store a h s)
        else Done s
    end
  else
    match ps_hdl s with
    | Some a => s ← dpi_policy_hdl_destroy s a; Done (ps_set_order 0 (ps_set_hdl None s))
    | None => Done s
    end.

(** After the last message the endpoints get the handle. *)
Definition cfg_end (p : dpi_policy_t) (s : policy_state) : outcome (Z * policy_state) :=
  s ← update_macs s (pl_mac_list p) (ps_hdl s);
  s ← match ps_hdl s with
      | Some a => h ← hdl_deref s a; if hd_ref_cnt h =? 0 then dpi_policy_hdl_destroy s a else Done s
      | None => Done s
      end;
  Done (0, ps_set_hdl None s).

Definition dpi_policy_cfg (alloc : bool) (cmd : Z) (p : dpi_policy_t) (flag : Z) (s : policy_state)
    : outcome (Z * policy_state) :=
  let start := has_flag flag MSG_START in
  let end_ := has_flag flag MSG_END in
  if negb start && bool_decide (ps_hdl s = None) then Done (-1, s)
  else
    s ← cfg_start start s;
    s ← cfg_fill alloc start end_ cmd p s;
    if negb end_ then Done (0, s) else cfg_end p s.
End cfg.
