(* ===== verification/NvDPEquiv.v ===== *)
(** * The policy tables implement the first match

    The agent sends the rules of a workload in their order; the data plane
    spreads them over a hash table and lists of ranges, and leaves out the
    ones it finds covered already ([NvDPTable]).  The reference here goes
    through the rules in their order ([first_match]).  The main theorem of the
    file says that a lookup in the tables gives the verdict of the reference,
    for every sequence of rules, wherever the lookup consults the rules at
    all; two examples show what it needs: the settings must not change
    between the configuration and the lookup, and the endpoint must not
    enforce a namespace boundary. *)

From Stdlib Require Import ZArith Lia.
From S2P Require Import Prelude NvBitmap NvFqdn NvPolicyTypes NvDPTable.
Local Open Scope Z_scope.

(** ** The reference *)

(** A rule covers a packet: the direction, the addresses, the port and the
    protocol. *)
Definition rule_covers (env : dp_env) (is_ingress : bool) (k : dpi_rule_key_t) (r : dpi_policy_rule_t) : bool :=
  Bool.eqb (pr_ingress r) is_ingress
  && IS_X_IN_RANGE (rk_sip k) (pr_sip r) (pr_sip_r r)
  && IS_X_IN_RANGE (rk_dip k) (pr_dip r) (pr_dip_r r)
  && IS_X_IN_RANGE (rk_dport k) (pr_dport r) (pr_dport_r r)
  && bool_decide (rk_proto k ∈ rule_protos env (pr_proto r)).

(** The id and the action a covering rule gives to an application (0 is an
    application that is not known yet): a rule with application rules answers
    with the first one for the application, or not at all. *)
Definition rule_verdict (app : Z) (r : dpi_policy_rule_t) : option (Z * Z) :=
  if negb (pr_action r =? DP_POLICY_ACTION_CHECK_APP) then Some (pr_id r, pr_action r)
  else if app =? 0 then Some (pr_id r, pr_action r)
  else
    match List.find (fun a => (ar_app a =? 0) || (ar_app a =? app)) (pr_app_rules r) with
    | Some a => Some (ar_rule_id a, ar_action a)
    | None => None
    end.

(** The first rule with a verdict, with its position.  A peer outside the
    cluster is also covered by the rules for the address 0. *)
Fixpoint first_match (env : dp_env) (is_ingress external : bool) (k : dpi_rule_key_t)
    (order : Z) (rules : list dpi_policy_rule_t) : option (Z * Z * Z) :=
  match rules with
  | [] => None
  | r :: rules =>
      let order := order + 1 in
      if rule_covers env is_ingress k r
         || (external && rule_covers env is_ingress (set_peer is_ingress 0 k) r)
      then match rule_verdict (rk_app k) r with
           | Some (id, action) => Some (id, action, order)
           | None => first_match env is_ingress external k order rules
           end
      else first_match env is_ingress external k order rules
  end.

(** Without a match: ICMP passes unless it has a policy of its own, the rest
    gets the default action. *)
Definition fallback_desc (env : dp_env) (k : dpi_rule_key_t) (def_action : Z) : dpi_policy_desc_t :=
  if negb (en_enable_icmp_policy env) && (rk_proto k =? IPPROTO_ICMP) && (rk_dport k =? 0) && (rk_app k =? 0)
  then PolicyDesc 0 DP_POLICY_ACTION_ALLOW 0 0 4294967295
  else PolicyDesc 0 (wrap 8 def_action) POLICY_DESC_CHECK_VER 0 4294967295.

(** The descriptor a lookup should give. *)
Definition reference_desc (env : dp_env) (is_ingress external : bool) (k : dpi_rule_key_t)
    (def_action : Z) (rules : list dpi_policy_rule_t) : dpi_policy_desc_t :=
  match first_match env is_ingress external k 0 rules with
  | Some (id, action, order) => PolicyDesc id action POLICY_DESC_CHECK_VER 0 order
  | None => fallback_desc env k def_action
  end.

(** The tables of a policy: its rules in order, and the rule for ICMP. *)
Section policy_tables.
Context (pick : list dpi_policy_desc_t -> option dpi_policy_desc_t).
Context (env : dp_env) (fqdn : option dpi_fqdn_hdl_t).

Fixpoint add_rules (hdl : dpi_policy_hdl_t) (order : Z) (rules : list dpi_policy_rule_t)
    : outcome dpi_policy_hdl_t :=
  match rules with
  | [] => Done hdl
  | r :: rules => hdl ← add_rule pick env fqdn hdl (order + 1) r; add_rules hdl (order + 1) rules
  end.

Definition end_policy (hdl : dpi_policy_hdl_t) : outcome dpi_policy_hdl_t :=
  if negb (en_enable_icmp_policy env) then dpi_add_default_policy pick env fqdn hdl else Done hdl.

Definition empty_hdl (ver def_action apply_dir : Z) : dpi_policy_hdl_t :=
  PolicyHdl 0 ver [] ∅ def_action apply_dir 0.

Definition policy_tables (ver def_action apply_dir : Z) (rules : list dpi_policy_rule_t)
    : outcome dpi_policy_hdl_t :=
  hdl ← add_rules (empty_hdl ver def_action apply_dir) 0 rules; end_policy hdl.
End policy_tables.

(** ** The rules as table entries *)

(** An entry, whether or not it is in a table. *)
Record entry := Entry {
  en_dir : bool;
  en_single : bool;
  en_l : dpi_rule_key_t;
  en_h : dpi_rule_key_t;
  en_desc : dpi_policy_desc_t
}.

Definition own_side (is_ingress : bool) (k : dpi_rule_key_t) : Z :=
  if is_ingress then rk_dip k else rk_sip k.
Definition peer_side (is_ingress : bool) (k : dpi_rule_key_t) : Z :=
  if is_ingress then rk_sip k else rk_dip k.

(** The addresses and the port, without the application. *)
Definition in_box (l h k : dpi_rule_key_t) : bool :=
  IS_X_IN_RANGE (rk_dport k) (rk_dport l) (rk_dport h)
  && IS_X_IN_RANGE (rk_sip k) (rk_sip l) (rk_sip h)
  && IS_X_IN_RANGE (rk_dip k) (rk_dip l) (rk_dip h).

Definition covers (d : bool) (k : dpi_rule_key_t) (e : entry) : bool :=
  Bool.eqb (en_dir e) d && (rk_proto k =? rk_proto (en_l e))
  && (own_side d k =? own_side d (en_l e))
  && (in_box (en_l e) (en_h e) k && IS_X_IN_RANGE (rk_app k) (rk_app (en_l e)) (rk_app (en_h e))).

(** A peer outside the cluster counts as the address 0 too. *)
Definition covers_peer (d external : bool) (k : dpi_rule_key_t) (e : entry) : bool :=
  covers d k e || (external && covers d (set_peer d 0 k) e).

Definition find_desc (d external : bool) (k : dpi_rule_key_t) (L : list entry) : option dpi_policy_desc_t :=
  en_desc <$> List.find (covers_peer d external k) L.

(** The entries of a rule under one protocol, in the order in which the code
    tries to add them: [key_l] and [key_h] have the application 0. *)
Definition app_entry (d : bool) (key_l : dpi_rule_key_t) (key_h : option dpi_rule_key_t)
    (desc : dpi_policy_desc_t) (a : dpi_policy_app_rule_t) : entry :=
  let any := ar_app a =? 0 in
  Entry d (bool_decide (key_h = None) && negb any) (set_app (ar_app a) key_l)
    (set_app (if any then APP_MAX else ar_app a) (default key_l key_h)) (app_desc_of a desc).

Definition proto_entries (d : bool) (key_l : dpi_rule_key_t) (key_h : option dpi_rule_key_t)
    (apps : list dpi_policy_app_rule_t) (desc : dpi_policy_desc_t) : list entry :=
  [Entry d (bool_decide (key_h = None)) key_l (default key_l key_h) desc]
  ++ (if negb (pd_action desc =? DP_POLICY_ACTION_CHECK_APP)
      then [app_entry d key_l key_h desc (any_app_rule desc)] else [])
  ++ (app_entry d key_l key_h desc <$> apps).

Definition rule_key (r : dpi_policy_rule_t) (proto : Z) : dpi_rule_key_t :=
  RuleKey (pr_sip r) (pr_dip r) (pr_dport r) proto 0.

Definition rule_key_r (r : dpi_policy_rule_t) (proto : Z) : option dpi_rule_key_t :=
  if negb (pr_dport r =? pr_dport_r r) || negb (pr_sip r =? pr_sip_r r) || negb (pr_dip r =? pr_dip_r r)
  then Some (RuleKey (pr_sip_r r) (pr_dip_r r) (pr_dport_r r) proto 0) else None.

Definition rule_desc (order : Z) (r : dpi_policy_rule_t) : dpi_policy_desc_t :=
  PolicyDesc (pr_id r) (pr_action r) POLICY_DESC_CHECK_VER 0 order.

Definition rule_entries (env : dp_env) (order : Z) (r : dpi_policy_rule_t) : list entry :=
  mjoin ((fun proto => proto_entries (pr_ingress r) (rule_key r proto) (rule_key_r r proto)
                         (pr_app_rules r) (rule_desc order r)) <$> rule_protos env (pr_proto r)).

Fixpoint rules_entries (env : dp_env) (order : Z) (rules : list dpi_policy_rule_t) : list entry :=
  match rules with
  | [] => []
  | r :: rules => rule_entries env (order + 1) r ++ rules_entries env (order + 1) rules
  end.

(** ** The first entry is the first match *)

Lemma find_app {A} (f : A -> bool) (l1 l2 : list A) :
  List.find f (l1 ++ l2) = match List.find f l1 with Some x => Some x | None => List.find f l2 end.
Proof. induction l1 as [|x l1 IH]; simpl; [done|]. by destruct (f x). Qed.

Lemma find_none_all {A} (f : A -> bool) (l : list A) : (forall x, x ∈ l -> f x = false) -> List.find f l = None.
Proof.
  intros Hl. apply list_find_bool_None, Forall_forall. exact Hl.
Qed.

Lemma in_range_iff x y z : IS_X_IN_RANGE x y z = true <-> y <= x <= z.
Proof. unfold IS_X_IN_RANGE. rewrite andb_true_iff, !Z.leb_le. done. Qed.

(** The workload's side of a rule is one address. *)
Definition own_single (r : dpi_policy_rule_t) : Prop :=
  if pr_ingress r then pr_dip r = pr_dip_r r else pr_sip r = pr_sip_r r.

Definition app_in (app : Z) (e : entry) : bool := IS_X_IN_RANGE app (rk_app (en_l e)) (rk_app (en_h e)).

(** An entry of a rule covers a packet when the rule does, under the protocol
    of the entry, and the entry has the application. *)
Lemma default_rule_key_r r proto :
  default (rule_key r proto) (rule_key_r r proto) =
  RuleKey (pr_sip_r r) (pr_dip_r r) (pr_dport_r r) proto 0.
Proof.
  unfold rule_key_r, rule_key. destruct (Z.eqb_spec (pr_dport r) (pr_dport_r r)) as [->|]; simpl; [|done].
  destruct (Z.eqb_spec (pr_sip r) (pr_sip_r r)) as [->|]; simpl; [|done].
  destruct (Z.eqb_spec (pr_dip r) (pr_dip_r r)) as [->|]; simpl; done.
Qed.

Definition box_covers (d : bool) (k : dpi_rule_key_t) (r : dpi_policy_rule_t) : bool :=
  Bool.eqb (pr_ingress r) d
  && IS_X_IN_RANGE (rk_sip k) (pr_sip r) (pr_sip_r r)
  && IS_X_IN_RANGE (rk_dip k) (pr_dip r) (pr_dip_r r)
  && IS_X_IN_RANGE (rk_dport k) (pr_dport r) (pr_dport_r r).

Lemma own_side_in d k r :
  own_single r -> box_covers d k r = true ->
  own_side d k = own_side d (rule_key r 0).
Proof.
  unfold own_single, box_covers. rewrite !andb_true_iff, Bool.eqb_true_iff, !in_range_iff.
  intros Hown [[[<- Hs] Hd] _]. unfold own_side. destruct (pr_ingress r); simpl; lia.
Qed.

Lemma covers_box d k r proto e :
  own_single r -> en_dir e = pr_ingress r ->
  set_app 0 (en_l e) = rule_key r proto ->
  set_app 0 (en_h e) = default (rule_key r proto) (rule_key_r r proto) ->
  covers d k e = (rk_proto k =? proto) && box_covers d k r && app_in (rk_app k) e.
Proof.
  intros Hown Hd Hl Hh. rewrite default_rule_key_r in Hh. pose proof (own_side_in d k r Hown) as Hos.
  destruct e as [ed es [ls ld lp lpr la] [hs hd hp hpr ha] edesc]. unfold rule_key, set_app in *. simpl in *.
  injection Hl as -> -> -> ->. injection Hh as -> -> -> ->. subst ed.
  unfold covers, app_in, in_box. simpl. unfold box_covers in *. simpl in *.
  destruct (Bool.eqb (pr_ingress r) d); [|by rewrite !andb_false_r].
  destruct (rk_proto k =? proto); [|done]. simpl in *.
  destruct (IS_X_IN_RANGE (rk_sip k) _ _), (IS_X_IN_RANGE (rk_dip k) _ _),
    (IS_X_IN_RANGE (rk_dport k) _ _); simpl in *; rewrite ?andb_false_r; try done.
  rewrite Hos by done. unfold own_side. simpl. destruct d; by rewrite Z.eqb_refl.
Qed.

Lemma proto_entries_shape d r proto apps desc e :
  e ∈ proto_entries d (rule_key r proto) (rule_key_r r proto) apps desc ->
  en_dir e = d /\ set_app 0 (en_l e) = rule_key r proto /\
  set_app 0 (en_h e) = default (rule_key r proto) (rule_key_r r proto).
Proof.
  assert (Happ : forall a, let e := app_entry d (rule_key r proto) (rule_key_r r proto) desc a in
    en_dir e = d /\ set_app 0 (en_l e) = rule_key r proto /\
    set_app 0 (en_h e) = default (rule_key r proto) (rule_key_r r proto)).
  { intros a. simpl. rewrite default_rule_key_r. done. }
  unfold proto_entries. rewrite !elem_of_app, list_elem_of_singleton. intros [->|[He|He]].
  - simpl. rewrite default_rule_key_r. done.
  - destruct (negb _); [|by apply elem_of_nil in He]. apply list_elem_of_singleton in He as ->. apply Happ.
  - apply list_elem_of_fmap in He as (a & -> & _). apply Happ.
Qed.

(** The box of a rule, for a peer that may be outside the cluster. *)
Definition box_peer (d external : bool) (k : dpi_rule_key_t) (r : dpi_policy_rule_t) : bool :=
  box_covers d k r || (external && box_covers d (set_peer d 0 k) r).

Lemma covers_peer_box d external k r proto apps desc e :
  own_single r ->
  e ∈ proto_entries (pr_ingress r) (rule_key r proto) (rule_key_r r proto) apps desc ->
  covers_peer d external k e = (rk_proto k =? proto) && box_peer d external k r && app_in (rk_app k) e.
Proof.
  intros Hown (Hd & Hl & Hh)%proto_entries_shape. unfold covers_peer, box_peer.
  rewrite !(covers_box d _ r proto e Hown Hd Hl Hh).
  assert (Hk : rk_proto (set_peer d 0 k) = rk_proto k /\ rk_app (set_peer d 0 k) = rk_app k) by (by destruct d).
  destruct Hk as [-> ->]. by destruct (rk_proto k =? proto), (box_covers d k r), external,
    (box_covers d (set_peer d 0 k) r), (app_in (rk_app k) e).
Qed.

(** Within a block the application decides. *)
Lemma proto_entries_verdict d r proto order n :
  0 <= n <= APP_MAX ->
  en_desc <$> List.find (app_in n)
    (proto_entries d (rule_key r proto) (rule_key_r r proto) (pr_app_rules r) (rule_desc order r)) =
  match rule_verdict n r with
  | Some (id, action) => Some (PolicyDesc id action POLICY_DESC_CHECK_VER 0 order)
  | None => None
  end.
Proof.
  intros Happ. unfold proto_entries, rule_verdict.
  assert (Hbase : app_in n (Entry d (bool_decide (rule_key_r r proto = None)) (rule_key r proto)
    (default (rule_key r proto) (rule_key_r r proto)) (rule_desc order r)) = (n =? 0)).
  { unfold app_in. cbn [en_l en_h]. rewrite default_rule_key_r. cbn [rk_app rule_key]. unfold IS_X_IN_RANGE.
    destruct (Z.eqb_spec n 0), (Z.leb_spec 0 n), (Z.leb_spec n 0); simpl; lia. }
  assert (Hentry : forall a, app_in n (app_entry d (rule_key r proto) (rule_key_r r proto) (rule_desc order r) a)
    = (ar_app a =? 0) || (ar_app a =? n)).
  { intros a. unfold app_in, app_entry. cbn [en_l en_h rk_app set_app]. unfold IS_X_IN_RANGE.
    destruct (Z.eqb_spec (ar_app a) 0) as [->|Hne]; simpl.
    - destruct (Z.leb_spec 0 n), (Z.leb_spec n APP_MAX); simpl; lia.
    - destruct (Z.eqb_spec (ar_app a) n), (Z.leb_spec (ar_app a) n), (Z.leb_spec n (ar_app a)); simpl; lia. }
  cbn [app List.find]. rewrite Hbase. cbn [pd_action rule_desc].
  destruct (Z.eqb_spec (pr_action r) DP_POLICY_ACTION_CHECK_APP) as [Hc|Hc]; simpl.
  - destruct (Z.eqb_spec n 0); simpl; [done|].
    induction (pr_app_rules r) as [|a apps IH]; simpl; [done|]. rewrite Hentry.
    destruct ((ar_app a =? 0) || (ar_app a =? n)); [done|]. exact IH.
  - destruct (Z.eqb_spec n 0); [done|]. cbn [app List.find]. rewrite Hentry. done.
Qed.

Lemma find_ext_in {A} (f g : A -> bool) (l : list A) :
  (forall x, x ∈ l -> f x = g x) -> List.find f l = List.find g l.
Proof.
  induction l as [|x l IH]; intros Hfg; simpl; [done|]. rewrite Hfg by left.
  destruct (g x); [done|]. apply IH. intros y Hy. apply Hfg. by right.
Qed.

(** The search in blocks of which only the one of [q] can match. *)
Lemma find_blocks {A} (f : A -> bool) (g : Z -> list A) (ps : list Z) (q : Z) :
  (forall p x, p <> q -> x ∈ g p -> f x = false) -> NoDup ps ->
  List.find f (mjoin (g <$> ps)) = if bool_decide (q ∈ ps) then List.find f (g q) else None.
Proof.
  intros Hg. induction 1 as [|p ps Hp Hnd IH].
  { rewrite bool_decide_false by apply not_elem_of_nil. done. }
  cbn [fmap list_fmap mjoin list_join]. rewrite find_app. destruct (decide (p = q)) as [->|Hne].
  - rewrite bool_decide_true by left. destruct (List.find f (g q)); [done|].
    change (List.find f (mjoin (g <$> ps)) = None). rewrite IH. by rewrite bool_decide_false.
  - rewrite (find_none_all f (g p)) by eauto.
    change (List.find f (mjoin (g <$> ps)) = if bool_decide (q ∈ p :: ps) then List.find f (g q) else None).
    rewrite IH. assert (Hiff : q ∈ ps <-> q ∈ p :: ps) by set_solver.
    by rewrite (bool_decide_ext _ _ Hiff).
Qed.

Lemma rule_protos_NoDup env proto : NoDup (rule_protos env proto).
Proof.
  unfold rule_protos. destruct (0 <? proto); [apply NoDup_singleton|].
  destruct (en_enable_icmp_policy env); vm_decide.
Qed.

Lemma rule_entries_verdict env d external k order r :
  own_single r -> 0 <= rk_app k <= APP_MAX ->
  find_desc d external k (rule_entries env order r) =
  if rule_covers env d k r || (external && rule_covers env d (set_peer d 0 k) r)
  then match rule_verdict (rk_app k) r with
       | Some (id, action) => Some (PolicyDesc id action POLICY_DESC_CHECK_VER 0 order)
       | None => None
       end
  else None.
Proof.
  intros Hown Happ. unfold find_desc, rule_entries.
  rewrite (find_blocks _ _ _ (rk_proto k)); [|intros p x Hp Hx|apply rule_protos_NoDup].
  2: { rewrite (covers_peer_box _ _ _ _ _ _ _ _ Hown Hx).
       by rewrite (proj2 (Z.eqb_neq (rk_proto k) p)) by (apply not_eq_sym, Hp). }
  assert (Hcov : rule_covers env d k r || (external && rule_covers env d (set_peer d 0 k) r) =
    box_peer d external k r && bool_decide (rk_proto k ∈ rule_protos env (pr_proto r))).
  { unfold rule_covers, box_peer, box_covers. assert (rk_proto (set_peer d 0 k) = rk_proto k) as -> by (by destruct d).
    destruct (bool_decide _), external; simpl; rewrite ?andb_true_r, ?andb_false_r; done. }
  rewrite Hcov. destruct (bool_decide _); [|by rewrite andb_false_r]. rewrite andb_true_r.
  erewrite find_ext_in; [|intros e He; by eapply covers_peer_box]. rewrite Z.eqb_refl.
  destruct (box_peer d external k r); simpl.
  - by apply proto_entries_verdict.
  - by rewrite find_none_all.
Qed.

(** The first entry of the rules is the first match. *)
Lemma rules_entries_first_match env d external k order rules :
  Forall own_single rules -> 0 <= rk_app k <= APP_MAX ->
  find_desc d external k (rules_entries env order rules) =
  match first_match env d external k order rules with
  | Some (id, action, n) => Some (PolicyDesc id action POLICY_DESC_CHECK_VER 0 n)
  | None => None
  end.
Proof.
  intros Hall Happ. revert order. induction Hall as [|r rules Hr _ IH]; intros order; simpl; [done|].
  pose proof (rule_entries_verdict env d external k (order + 1) r Hr Happ) as Hv.
  specialize (IH (order + 1)). unfold find_desc in *. rewrite find_app.
  destruct (List.find _ (rule_entries env (order + 1) r)) as [e|]; simpl in Hv |- *.
  - destruct (_ || _); [|done]. destruct (rule_verdict (rk_app k) r) as [[id act]|]; [exact Hv|done].
  - destruct (_ || _); [|done]. destruct (rule_verdict (rk_app k) r) as [[id act]|]; done.
Qed.

(** ** Where the rules are consulted *)

(** A lookup that gives its verdict without the rules: the policy is off, a
    link-local address, east-west traffic in a direction without enforcement,
    a workload that is not managed, a service with an external address. *)
Definition skips_rules (env : dp_env) (fh : dpi_fqdn_hdl_t) (def_action apply_dir : Z) (is_ingress : bool)
    (k : dpi_rule_key_t) : bool :=
  let check_sgm := en_strict_group_mode env && (def_action =? DP_POLICY_ACTION_DENY) in
  let peer := peer_side is_ingress k in
  let is_internal := dpi_is_ip4_internal env peer in
  let iptype := dpi_ip4_iptype env peer in
  en_disable_net_policy env || IS_IN_LINKLOCAL (rk_sip k) || IS_IN_LINKLOCAL (rk_dip k)
  || ((iptype =? DP_IPTYPE_UWLIP) && negb (en_detect_unmanaged_wl env))
  || if is_ingress then
       is_internal && negb (has_flag apply_dir DP_POLICY_APPLY_INGRESS)
       && negb (iptype =? DP_IPTYPE_UWLIP) && negb check_sgm
     else
       let apply_egress := has_flag apply_dir DP_POLICY_APPLY_EGRESS in
       (is_internal && negb (dpi_is_ip4_internal env (rk_sip k)) && apply_egress)
       || (negb is_internal && (iptype =? DP_IPTYPE_EXTIP))
       || (is_internal && negb apply_egress && negb (bool_decide (is_Some (fh_ipv4_map fh !! rk_dip k)))
           && negb (iptype =? DP_IPTYPE_HOSTIP) && negb (iptype =? DP_IPTYPE_UWLIP) && negb check_sgm).

Definition external (env : dp_env) (d : bool) (k : dpi_rule_key_t) : bool :=
  negb (dpi_is_ip4_internal env (peer_side d k)).

Section skips.
Context (pick : list dpi_policy_desc_t -> option dpi_policy_desc_t).
Context (env : dp_env) (fh : dpi_fqdn_hdl_t).

Lemma lookup_cases hdl d k desc p :
  _dpi_is_chk_nbe p = false ->
  if skips_rules env fh (hd_def_action hdl) (hd_apply_dir hdl) d k then
    exists x, dpi_policy_lookup_by_key pick env (Some fh) (Some hdl) (rk_sip k) (rk_dip k) (rk_dport k)
                (rk_proto k) (rk_app k) d desc p = Done x /\ pd_id x = 0
  else
    dpi_policy_lookup_by_key pick env (Some fh) (Some hdl) (rk_sip k) (rk_dip k) (rk_dport k)
      (rk_proto k) (rk_app k) d desc p =
    (x ← match_rules pick (Some fh) hdl k d (dpi_is_ip4_internal env (peer_side d k)) p;
     Done (set_ver (hd_ver hdl) x)).
Proof.
  intros Hnbe. unfold skips_rules, dpi_policy_lookup_by_key. rewrite Hnbe. cbv zeta.
  destruct (en_disable_net_policy env); simpl; [by eexists|].
  destruct (IS_IN_LINKLOCAL (rk_sip k)); simpl; [by eexists|].
  destruct (IS_IN_LINKLOCAL (rk_dip k)); simpl; [by eexists|].
  destruct k as [sip dip dport proto app]. cbn [rk_sip rk_dip rk_dport rk_proto rk_app].
  destruct d; unfold lookup_ingress, lookup_egress, peer_side; cbn [rk_sip rk_dip rk_dport rk_proto rk_app].
  - destruct (dpi_ip4_iptype env sip =? DP_IPTYPE_UWLIP) eqn:Hu;
      destruct (en_detect_unmanaged_wl env); destruct (dpi_is_ip4_internal env sip);
      destruct (has_flag _ _); destruct (en_strict_group_mode env && _); simpl; try done; try (by eexists);
      (eexists; split; [done|]); by repeat case_match.
  - destruct (dpi_ip4_iptype env dip =? DP_IPTYPE_UWLIP) eqn:Hu;
      destruct (en_detect_unmanaged_wl env); destruct (dpi_is_ip4_internal env dip);
      destruct (dpi_is_ip4_internal env sip); destruct (has_flag _ _);
      destruct (dpi_ip4_iptype env dip =? DP_IPTYPE_EXTIP);
      destruct (dpi_ip4_iptype env dip =? DP_IPTYPE_HOSTIP);
      destruct (bool_decide _); destruct (en_strict_group_mode env && _); simpl; try done; by eexists.
Qed.
End skips.

(** ** The invariant of the tables *)

Section tables.
Context (pick : list dpi_policy_desc_t -> option dpi_policy_desc_t).
(** The hash table finds a node with the key when there is one. *)
Context (pick_some : forall l d, pick l = Some d -> d ∈ l).
Context (pick_none : forall l, pick l = None -> l = []).
Context (env : dp_env) (fh : dpi_fqdn_hdl_t).
Context (ver def_action apply_dir : Z).
(** The addresses of the workload. *)
Context (own : Z -> bool) (own_0 : own 0 = false).
(** The address 0 is that of an external peer, if there are external peers. *)
Context (zero_external : (forall ip, dpi_is_ip4_internal env ip = true) \/
  (dpi_is_ip4_internal env 0 = false /\ dpi_ip4_iptype env 0 = DP_IPTYPE_NONE)).

(** The key of a packet of the workload in the direction. *)
Definition dir_ok (d : bool) (k : dpi_rule_key_t) : Prop :=
  own (own_side d k) = true /\ own (peer_side d k) = false.

(** The keys for which the tables count. *)
Definition enforced (d : bool) (k : dpi_rule_key_t) : Prop :=
  dir_ok d k /\ skips_rules env fh def_action apply_dir d k = false /\ 0 <= rk_app k <= APP_MAX.

Definition zero_key (d : bool) (k : dpi_rule_key_t) : dpi_rule_key_t := set_peer d 0 k.

Lemma zero_key_sides d k :
  own_side d (zero_key d k) = own_side d k /\ peer_side d (zero_key d k) = 0 /\
  rk_proto (zero_key d k) = rk_proto k /\ rk_app (zero_key d k) = rk_app k /\
  rk_dport (zero_key d k) = rk_dport k.
Proof. by destruct d. Qed.

Lemma zero_key_twice d k : zero_key d (zero_key d k) = zero_key d k.
Proof. by destruct d. Qed.

Lemma dir_ok_zero d k : dir_ok d k -> dir_ok d (zero_key d k).
Proof. intros [H1 H2]. destruct (zero_key_sides d k) as (Ho & Hp & _). unfold dir_ok. by rewrite Ho, Hp. Qed.

Lemma skips_zero d k :
  skips_rules env fh def_action apply_dir d k = false -> external env d k = true ->
  skips_rules env fh def_action apply_dir d (zero_key d k) = false.
Proof.
  intros Hs He. unfold external in He. apply negb_true_iff in He.
  destruct zero_external as [Hall|[Hz Ht]]; [by rewrite Hall in He|].
  unfold skips_rules in *. destruct (zero_key_sides d k) as (_ & -> & _). rewrite Hz, Ht.
  rewrite !orb_false_iff in Hs. destruct Hs as [[[[H1 H2] H3] _] _].
  rewrite H1. cbn [orb]. assert (HL0 : IS_IN_LINKLOCAL 0 = false) by done.
  destruct d; cbn [zero_key set_peer set_sip set_dip rk_sip rk_dip]; rewrite ?H2, ?H3, ?HL0; simpl; done.
Qed.

Lemma enforced_zero d k : enforced d k -> external env d k = true -> enforced d (zero_key d k).
Proof.
  intros (Hd & Hs & Ha) He. split_and!; [by apply dir_ok_zero|by apply skips_zero|..];
    destruct (zero_key_sides d k) as (_ & _ & _ & -> & _); lia.
Qed.

(** The keys of the two directions are different. *)
Lemma dir_ok_other d d' k : dir_ok d k -> dir_ok d' k -> d = d'.
Proof. unfold dir_ok, own_side, peer_side. destruct d, d'; intros [] []; congruence. Qed.

(** What the tables hold for a key. *)
Definition dir_key (d : bool) (k : dpi_rule_key_t) : dpi_range_rule_key_t :=
  if d then RangeKey (rk_dip k) (rk_proto k) DP_RANGE_RULE_INGRESS
  else RangeKey (rk_sip k) (rk_proto k) DP_RANGE_RULE_EGRESS.

Definition lookup_opt (hdl : dpi_policy_hdl_t) (d : bool) (k : dpi_rule_key_t) : option dpi_policy_desc_t :=
  match policy_map_lookup pick hdl k with
  | Some x => Some x
  | None => range_lookup hdl (dir_key d k) k
  end.

(** The better one of two results. *)
Definition merge_opt (o1 o2 : option dpi_policy_desc_t) : option dpi_policy_desc_t :=
  match o1, o2 with
  | Some a, Some b => Some (if pd_order b <? pd_order a then b else a)
  | Some a, None => Some a
  | None, o2 => o2
  end.

Definition peer_lookup (hdl : dpi_policy_hdl_t) (d : bool) (k : dpi_rule_key_t) : option dpi_policy_desc_t :=
  merge_opt (lookup_opt hdl d k) (if external env d k then lookup_opt hdl d (zero_key d k) else None).

Definition ORDER_MAX : Z := 4294967295.
Definition desc_ok (n : Z) (x : dpi_policy_desc_t) : Prop := 0 < pd_id x /\ 0 <= pd_order x <= n.

Record entry_ok (e : entry) : Prop := {
  eo_single : en_single e = true -> en_h e = en_l e /\ dir_ok (en_dir e) (en_l e);
  eo_proto : rk_proto (en_h e) = rk_proto (en_l e);
  eo_app : 0 <= rk_app (en_l e)
}.

(** The box of an entry. *)
Definition box_of (k : dpi_rule_key_t) : Z * Z * Z := (rk_sip k, rk_dip k, rk_dport k).
Definition boxed (bl bh : Z * Z * Z) (e : entry) : Prop := box_of (en_l e) = bl /\ box_of (en_h e) = bh.

Definition item_of (e : entry) : dpi_range_rule_item_t := RangeItem (en_desc e) (en_l e) (en_h e).

(** [L] are the entries that were tried, up to the order [n], whose entries
    all have the box [bl], [bh]: the tables hold some of them, and a lookup
    finds the first one that covers the key. *)
Record table_inv (n : Z) (bl bh : Z * Z * Z) (hdl : dpi_policy_hdl_t) (L : list entry) : Prop := {
  ti_action : hd_def_action hdl = def_action;
  ti_dir : hd_apply_dir hdl = apply_dir;
  ti_flag : hd_flag hdl = 0;
  ti_nodir : forall proto, hd_range_policy_map hdl !! RangeKey 0 proto 0 = None;
  ti_exact : forall k x, (k, x) ∈ hd_policy_map hdl ->
    exists e, e ∈ L /\ en_single e = true /\ en_l e = k /\ en_desc e = x;
  ti_range : forall key items it, hd_range_policy_map hdl !! key = Some items -> it ∈ items ->
    exists e, e ∈ L /\ it = item_of e /\ key = dir_key (en_dir e) (en_l e);
  ti_entry : forall e, e ∈ L -> entry_ok e /\ desc_ok n (en_desc e) /\
    (pd_order (en_desc e) = n -> boxed bl bh e);
  ti_match : forall d k, enforced d k ->
    peer_lookup hdl d k = find_desc d (external env d k) k L;
  ti_ver : hd_ver hdl = ver
}.

Lemma range_item_covers e k d :
  dir_key (en_dir e) (en_l e) = dir_key d k -> rule_key_in_range (item_of e) k = covers d k e.
Proof.
  intros Heq. unfold rule_key_in_range, covers, in_box, item_of. simpl.
  assert (Hd : en_dir e = d /\ rk_proto (en_l e) = rk_proto k /\ own_side d (en_l e) = own_side d k)
    by (destruct (en_dir e), d; simpl in *; by simplify_eq).
  destruct Hd as (-> & -> & ->). rewrite Bool.eqb_reflx, !Z.eqb_refl. simpl.
  by rewrite <-!andb_assoc.
Qed.

Lemma covers_dir_key e k d : covers d k e = true -> dir_key (en_dir e) (en_l e) = dir_key d k.
Proof.
  unfold covers. rewrite !andb_true_iff, Bool.eqb_true_iff, !Z.eqb_eq.
  intros [[[-> Hp] Ho] _]. unfold dir_key, own_side in *. destruct d; congruence.
Qed.

Lemma single_covers e d k :
  entry_ok e -> en_single e = true -> covers d k e = true -> k = en_l e /\ en_dir e = d.
Proof.
  intros He Hs Hc. destruct (eo_single e He Hs) as [Hh _].
  unfold covers, in_box in Hc. rewrite Hh, !andb_true_iff, Bool.eqb_true_iff, !Z.eqb_eq, !in_range_iff in Hc.
  destruct Hc as [[[Hd Hp] Ho] [[[Hx Hy] Hz] Ha]]. split; [|done]. destruct k, (en_l e); simpl in *. f_equal; lia.
Qed.

Lemma single_covers_self e : entry_ok e -> en_single e = true -> covers (en_dir e) (en_l e) e = true.
Proof.
  intros He Hs. destruct (eo_single e He Hs) as [Hh _]. unfold covers, in_box.
  rewrite Hh, !andb_true_iff, Bool.eqb_true_iff, !Z.eqb_eq, !in_range_iff. split_and!; lia || done.
Qed.

(** A result of the tables is an entry that covers the key. *)
Lemma lookup_opt_sound n bl bh hdl L d k x :
  table_inv n bl bh hdl L -> dir_ok d k -> lookup_opt hdl d k = Some x ->
  exists e, e ∈ L /\ en_desc e = x /\ covers d k e = true /\
    (en_single e = true \/ exists items, hd_range_policy_map hdl !! dir_key d k = Some items /\ item_of e ∈ items).
Proof.
  intros Hi Hd. unfold lookup_opt, policy_map_lookup.
  destruct (pick _) as [y|] eqn:Hp.
  - intros [= <-]. apply pick_some in Hp. apply list_elem_of_fmap in Hp as ([k' y'] & -> & Hin).
    apply list_elem_of_filter in Hin as [Heq Hin]. simpl in Heq. subst k'.
    destruct (ti_exact _ _ _ _ _ Hi k y' Hin) as (e & He & Hs & <- & Hx). exists e.
    destruct (ti_entry _ _ _ _ _ Hi e He) as (Hok & _ & _).
    pose proof (single_covers_self e Hok Hs) as Hc. destruct (eo_single e Hok Hs) as [_ Hde].
    rewrite (dir_ok_other _ _ _ Hde Hd) in Hc. eauto.
  - unfold range_lookup. destruct (hd_range_policy_map hdl !! dir_key d k) as [items|] eqn:Hr; [|done].
    unfold dpi_range_rule_match. destruct (List.find _ items) as [it|] eqn:Hf; [|done]. intros [= <-].
    apply find_some in Hf as [Hin Hcov]. apply list_elem_of_In in Hin.
    destruct (ti_range _ _ _ _ _ Hi _ _ it Hr Hin) as (e & He & -> & Hk). exists e.
    rewrite (range_item_covers e k d) in Hcov by done. eauto 10.
Qed.

(** A range in the table that covers the key gives a result. *)
Lemma lookup_opt_range hdl d k e items :
  hd_range_policy_map hdl !! dir_key d k = Some items -> item_of e ∈ items -> covers d k e = true ->
  lookup_opt hdl d k <> None.
Proof.
  intros Hr Hin Hc. unfold lookup_opt. destruct (policy_map_lookup pick hdl k); [done|].
  unfold range_lookup. rewrite Hr. unfold dpi_range_rule_match.
  destruct (List.find _ items) eqn:Hf; [done|]. apply list_find_bool_None in Hf.
  rewrite Forall_forall in Hf. specialize (Hf _ Hin). simpl in Hf.
  rewrite (range_item_covers e k d) in Hf by (by apply covers_dir_key). congruence.
Qed.

(** ** Adding entries *)

Definition with_item (e : entry) (hdl : dpi_policy_hdl_t) : dpi_policy_hdl_t :=
  let key := dir_key (en_dir e) (en_l e) in
  hd_set_ranges (<[key := default [] (hd_range_policy_map hdl !! key) ++ [item_of e]]>
                   (hd_range_policy_map hdl)) hdl.

Lemma lookup_opt_with_item hdl e d k :
  lookup_opt (with_item e hdl) d k =
  match lookup_opt hdl d k with
  | Some x => Some x
  | None => if covers d k e then Some (en_desc e) else None
  end.
Proof.
  unfold lookup_opt, with_item, policy_map_lookup. simpl. destruct (pick _); [done|].
  unfold range_lookup. simpl. destruct (decide (dir_key (en_dir e) (en_l e) = dir_key d k)) as [Heq|Hne].
  - rewrite Heq, lookup_insert_eq. unfold dpi_range_rule_match.
    rewrite find_app. pose proof (range_item_covers e k d Heq) as Hc. simpl. rewrite Hc.
    destruct (hd_range_policy_map hdl !! dir_key d k) as [items|]; simpl;
      [destruct (List.find _ items); simpl; [done|]|]; by destruct (covers d k e).
  - rewrite lookup_insert_ne by done.
    assert (Hc : covers d k e = false).
    { destruct (covers d k e) eqn:Hc; [|done]. by apply covers_dir_key in Hc. }
    rewrite Hc. by repeat case_match.
Qed.

Lemma find_desc_app d ext k L es x :
  (forall e, e ∈ es -> en_desc e = x) ->
  find_desc d ext k (L ++ es) =
  match find_desc d ext k L with
  | Some y => Some y
  | None => if existsb (covers_peer d ext k) es then Some x else None
  end.
Proof.
  intros Hx. unfold find_desc. rewrite find_app. destruct (List.find _ L); simpl; [done|].
  induction es as [|e es IH]; simpl; [done|]. destruct (covers_peer d ext k e); simpl.
  - f_equal. apply Hx. left.
  - apply IH. intros e' He'. apply Hx. by right.
Qed.

Lemma existsb_covers_peer d ext k es e :
  (forall d k, existsb (covers d k) es = covers d k e) ->
  existsb (covers_peer d ext k) es = covers_peer d ext k e.
Proof.
  intros He. unfold covers_peer. rewrite <-!He. clear He. induction es as [|x es IH]; simpl.
  - by rewrite andb_false_r.
  - rewrite IH. destruct (covers d k x), ext, (covers d (set_peer d 0 k) x); simpl; try done.
    by rewrite !orb_true_r.
Qed.

(** Entries whose keys are covered already. *)
Lemma table_inv_skip n bl bh hdl L es :
  table_inv n bl bh hdl L ->
  (forall e, e ∈ es -> entry_ok e /\ desc_ok n (en_desc e) /\ (pd_order (en_desc e) = n -> boxed bl bh e)) ->
  (forall d k e, enforced d k -> e ∈ es -> covers_peer d (external env d k) k e = true ->
     exists e', e' ∈ L /\ covers_peer d (external env d k) k e' = true) ->
  table_inv n bl bh hdl (L ++ es).
Proof.
  intros [I1 I2 I3 I4 I5 I6 I7 I8 I9] Hok Hsh. constructor; try done.
  - intros k x Hin. destruct (I5 k x Hin) as (e & He & ?). exists e. rewrite elem_of_app. auto.
  - intros key items it Hr Hin. destruct (I6 key items it Hr Hin) as (e & He & ?). exists e.
    rewrite elem_of_app. auto.
  - intros e [He|He]%elem_of_app; auto.
  - intros d k Henf. rewrite (I8 d k Henf). unfold find_desc. rewrite find_app.
    destruct (List.find _ L) eqn:Hf; [done|]. rewrite find_none_all; [done|].
    intros e He. destruct (covers_peer d _ k e) eqn:Hc; [|done].
    destruct (Hsh d k e Henf He Hc) as (e' & He' & Hc'). apply list_find_bool_None in Hf.
    rewrite Forall_forall in Hf. rewrite (Hf e' He') in Hc'. done.
Qed.

(** Of two entries of the current order the box is the same: one that covers
    the key with the peer 0 covers the key when the other one does. *)
Lemma boxed_covers bl bh d k e e0 :
  boxed bl bh e -> boxed bl bh e0 -> covers d k e = true -> covers d (zero_key d k) e0 = true ->
  covers d k e0 = true.
Proof.
  intros [Hl Hh] [Hl0 Hh0]. destruct (zero_key_sides d k) as (Ho & _ & Hp & Ha & _).
  unfold covers, in_box. rewrite Ho, Hp, Ha.
  unfold box_of in *. rewrite !andb_true_iff. intros [[[Hd _] _] [[[H1 H2] H3] _]] [[[Hd0 Hp0] Ho0] [_ Ha0]].
  assert (Hb : rk_sip (en_l e) = rk_sip (en_l e0) /\ rk_dip (en_l e) = rk_dip (en_l e0) /\
    rk_dport (en_l e) = rk_dport (en_l e0) /\ rk_sip (en_h e) = rk_sip (en_h e0) /\
    rk_dip (en_h e) = rk_dip (en_h e0) /\ rk_dport (en_h e) = rk_dport (en_h e0))
    by (split_and!; congruence).
  destruct Hb as (-> & -> & -> & -> & -> & ->) in H1, H2, H3. by rewrite H1, H2, H3.
Qed.

(** A new range: [es] are entries with its descriptor that together cover
    what it covers. *)
Lemma table_inv_range n bl bh hdl L e es :
  n < ORDER_MAX -> table_inv n bl bh hdl L -> entry_ok e -> desc_ok n (en_desc e) ->
  pd_order (en_desc e) = n -> boxed bl bh e ->
  (forall x, x ∈ es -> entry_ok x /\ boxed bl bh x /\ en_desc x = en_desc e) -> e ∈ es ->
  (forall d k, existsb (covers d k) es = covers d k e) ->
  table_inv n bl bh (with_item e hdl) (L ++ es).
Proof.
  intros Hn Hi Hok Hdesc Hord Hbox Hes Hin Hcov. pose proof Hi as [I1 I2 I3 I4 I5 I6 I7 I8 I9].
  constructor; try done.
  - intros proto. simpl. rewrite lookup_insert_ne; [apply I4|]. by destruct (en_dir e).
  - intros k x Hx. destruct (I5 k x Hx) as (e0 & He0 & ?). exists e0. rewrite elem_of_app. auto.
  - intros key items it. simpl. rewrite lookup_insert_Some. intros [[<- <-]|[_ Hr]].
    + rewrite elem_of_app, list_elem_of_singleton. intros [Hit| ->].
      * destruct (hd_range_policy_map hdl !! dir_key (en_dir e) (en_l e)) as [items|] eqn:Hr;
          [|by apply elem_of_nil in Hit].
        destruct (I6 _ _ it Hr Hit) as (e0 & He0 & ?). exists e0. rewrite elem_of_app. auto.
      * exists e. rewrite elem_of_app. auto.
    + intros Hit. destruct (I6 _ _ it Hr Hit) as (e0 & He0 & ?). exists e0. rewrite elem_of_app. auto.
  - intros x [Hx|Hx]%elem_of_app; [by apply I7|]. destruct (Hes x Hx) as (H1 & H2 & ->). auto.
  - intros d k Henf. rewrite (find_desc_app _ _ _ _ _ (en_desc e)) by (intros x Hx; by apply Hes).
    rewrite <-(I8 d k Henf), (existsb_covers_peer d _ k es e Hcov). unfold peer_lookup.
    rewrite !lookup_opt_with_item. unfold covers_peer. fold (zero_key d k).
    assert (Hle : forall k', dir_ok d k' -> forall x, lookup_opt hdl d k' = Some x -> pd_order x <= n).
    { intros k' Hd' x Hx. destruct (lookup_opt_sound _ _ _ _ _ _ _ _ Hi Hd' Hx) as (e0 & He0 & <- & _).
      apply (I7 e0 He0). }
    destruct Henf as (Hd & _ & _). pose proof (dir_ok_zero d k Hd) as Hd0.
    destruct (lookup_opt hdl d k) as [a|] eqn:Ha.
    + destruct (external env d k); simpl; [|done].
      destruct (lookup_opt hdl d (zero_key d k)) as [b|]; [done|]. destruct (covers d (zero_key d k) e); [|done].
      simpl. rewrite (proj2 (Z.ltb_ge _ _)); [done|]. rewrite Hord. by apply (Hle k).
    + destruct (external env d k); simpl; [|by destruct (covers d k e)].
      destruct (lookup_opt hdl d (zero_key d k)) as [b|] eqn:Hb.
      2: { destruct (covers d k e), (covers d (zero_key d k) e); simpl; try done.
           by rewrite (proj2 (Z.ltb_ge _ _)). }
      destruct (covers d k e) eqn:Hc; [|done]. simpl.
      destruct (lookup_opt_sound _ _ _ _ _ _ _ _ Hi Hd0 Hb) as (e0 & He0 & Hdb & Hc0 & Htab).
      destruct (I7 e0 He0) as (Hok0 & [_ Hle0] & Hbx). rewrite Hdb in *.
      rewrite (proj2 (Z.ltb_lt _ _)); [done|]. rewrite Hord.
      destruct (decide (pd_order b = n)) as [Heq|]; [exfalso|lia].
      pose proof (boxed_covers _ _ d k e e0 Hbox (Hbx Heq) Hc Hc0) as Hck.
      destruct Htab as [Hs|(items & Hr & Hit)].
      * destruct (single_covers e0 d k Hok0 Hs Hck) as [-> _].
        destruct (single_covers e0 d (zero_key d (en_l e0)) Hok0 Hs Hc0) as [Hz _]. rewrite Hz in Hb. congruence.
      * apply (lookup_opt_range hdl d k e0 items); [|done|done|done].
        destruct (zero_key_sides d k) as (Ho & _ & Hp & _).
        rewrite <-Hr. f_equal. unfold dir_key, own_side in *. destruct d; congruence.
Qed.

(** *** A new single rule *)

Lemma policy_map_lookup_add hdl key x k :
  policy_map_lookup pick hdl key = None ->
  policy_map_lookup pick (hd_add_rule key x hdl) k =
  if decide (k = key) then Some x else policy_map_lookup pick hdl k.
Proof.
  unfold policy_map_lookup. simpl. intros Hnone%pick_none. rewrite filter_app, fmap_app, filter_cons, filter_nil.
  simpl. case_decide as Heq; case_decide as Heq'; try congruence.
  - subst. rewrite Hnone. simpl. destruct (pick [x]) as [y|] eqn:Hp; [|by apply pick_none in Hp].
    apply pick_some, list_elem_of_singleton in Hp. by subst.
  - by rewrite app_nil_r.
Qed.

Lemma policy_map_lookup_add_ne hdl key x k :
  k <> key -> policy_map_lookup pick (hd_add_rule key x hdl) k = policy_map_lookup pick hdl k.
Proof.
  intros Hne. unfold policy_map_lookup. simpl. rewrite filter_app, fmap_app, filter_cons, filter_nil.
  simpl. rewrite decide_False by congruence. by rewrite app_nil_r.
Qed.

Lemma lookup_opt_add_ne hdl key x d k :
  k <> key -> lookup_opt (hd_add_rule key x hdl) d k = lookup_opt hdl d k.
Proof. intros Hne. unfold lookup_opt. by rewrite policy_map_lookup_add_ne. Qed.

Lemma lookup_opt_add_eq hdl key x d :
  lookup_opt hdl d key = None -> lookup_opt (hd_add_rule key x hdl) d key = Some x.
Proof.
  unfold lookup_opt. destruct (policy_map_lookup pick hdl key) eqn:Hp; [done|]. intros _.
  by rewrite (policy_map_lookup_add hdl key x key Hp), decide_True.
Qed.

(** The single rule that is not covered, or whose lookups skip the rules. *)
Lemma exact_match n bl bh hdl L e d k :
  table_inv n bl bh hdl L -> entry_ok e -> en_single e = true -> pd_order (en_desc e) = n ->
  (enforced (en_dir e) (en_l e) -> peer_lookup hdl (en_dir e) (en_l e) = None) ->
  enforced d k ->
  peer_lookup (hd_add_rule (en_l e) (en_desc e) hdl) d k = find_desc d (external env d k) k (L ++ [e]).
Proof.
  intros Hi Hok Hs Hord Hnone Henf. set (key := en_l e) in *. set (x := en_desc e) in *.
  assert (Hsame : forall k', enforced d k' -> k' = key -> d = en_dir e /\ lookup_opt hdl d key = None).
  { intros k' Hk' ->. assert (d = en_dir e) as Hd.
    { apply (dir_ok_other d (en_dir e) key); [apply Hk'|apply (eo_single e Hok Hs)]. }
    split; [done|]. rewrite Hd in Hk' |- *. specialize (Hnone Hk'). unfold peer_lookup in Hnone.
    by destruct (lookup_opt hdl (en_dir e) key), (external env (en_dir e) key), (lookup_opt hdl (en_dir e) (zero_key (en_dir e) key)). }
  assert (Hcov : forall k', covers d k' e = bool_decide (k' = key /\ d = en_dir e)).
  { intros k'. destruct (covers d k' e) eqn:Hc.
    - destruct (single_covers e d k' Hok Hs Hc) as [-> <-]. by rewrite bool_decide_true.
    - rewrite bool_decide_false; [done|]. intros [-> ->].
      pose proof (single_covers_self e Hok Hs) as Hself. unfold key in Hc. congruence. }
  rewrite (find_desc_app _ _ _ _ [e] x) by (by intros ? ->%list_elem_of_singleton).
  rewrite <-(ti_match _ _ _ _ _ Hi d k Henf). simpl. rewrite orb_false_r.
  unfold covers_peer. fold (zero_key d k). rewrite !Hcov. unfold peer_lookup.
  assert (Hzero : external env d k = true -> zero_key d k = key ->
            d = en_dir e /\ lookup_opt hdl d key = None).
  { intros He Hz. apply (Hsame (zero_key d k)); [by apply enforced_zero|done]. }
  destruct (decide (k = key)) as [Hk|Hk].
  - destruct (Hsame k Henf Hk) as [Hd Hno]. rewrite (bool_decide_true (k = key /\ _)) by done.
    rewrite Hk, (lookup_opt_add_eq hdl key x d Hno), Hno.
    destruct (external env d key) eqn:He; [|done]. simpl.
    destruct (decide (zero_key d key = key)) as [Hz|Hz].
    + rewrite Hz, (lookup_opt_add_eq hdl key x d Hno), Hno. simpl. by rewrite Z.ltb_irrefl.
    + rewrite (lookup_opt_add_ne hdl key x d _ Hz).
      assert (Hz0 : lookup_opt hdl d (zero_key d key) = None).
      { rewrite Hk in Henf. rewrite Hd in Henf. specialize (Hnone Henf). unfold peer_lookup in Hnone.
        rewrite <-Hd, Hno, He in Hnone. by destruct (lookup_opt hdl d (zero_key d key)). }
      rewrite Hz0. done.
  - rewrite (bool_decide_false (k = key /\ _)) by naive_solver. rewrite (lookup_opt_add_ne hdl key x d k Hk).
    destruct (external env d k) eqn:He; simpl; [|by destruct (lookup_opt hdl d k)].
    destruct (decide (zero_key d k = key)) as [Hz|Hz].
    + destruct (Hzero eq_refl Hz) as [Hd Hno]. rewrite bool_decide_true by done.
      rewrite Hz, (lookup_opt_add_eq hdl key x d Hno), Hno.
      destruct (lookup_opt hdl d k) as [a|] eqn:Ha; [|done]. simpl.
      destruct (lookup_opt_sound _ _ _ _ _ _ _ _ Hi (proj1 Henf) Ha) as (e0 & He0 & <- & _).
      destruct (ti_entry _ _ _ _ _ Hi e0 He0) as (_ & [_ Hle] & _).
      rewrite (proj2 (Z.ltb_ge _ _)); [done|]. rewrite Hord. lia.
    + rewrite (lookup_opt_add_ne hdl key x d _ Hz), bool_decide_false by naive_solver.
      by destruct (merge_opt _ _).
Qed.

Lemma table_inv_exact n bl bh hdl L e :
  table_inv n bl bh hdl L -> entry_ok e -> en_single e = true ->
  desc_ok n (en_desc e) -> pd_order (en_desc e) = n -> boxed bl bh e ->
  (enforced (en_dir e) (en_l e) -> peer_lookup hdl (en_dir e) (en_l e) = None) ->
  table_inv n bl bh (hd_add_rule (en_l e) (en_desc e) hdl) (L ++ [e]).
Proof.
  intros Hi Hok Hs Hdesc Hord Hbox Hnone. pose proof Hi as [I1 I2 I3 I4 I5 I6 I7 I8 I9].
  constructor; try done.
  - intros k x. simpl. rewrite elem_of_app, list_elem_of_singleton. intros [Hin|[= -> ->]].
    + destruct (I5 k x Hin) as (e0 & He0 & ?). exists e0. rewrite elem_of_app. auto.
    + exists e. rewrite elem_of_app, list_elem_of_singleton. auto.
  - intros key items it Hr Hit. destruct (I6 _ _ it Hr Hit) as (e0 & He0 & ?). exists e0.
    rewrite elem_of_app. auto.
  - intros x [Hx|Hx]%elem_of_app; [by apply I7|]. apply list_elem_of_singleton in Hx as ->. auto.
  - intros d k Henf. by eapply exact_match.
Qed.

(** ** A lookup reads the tables *)

Definition fallback (hdl : dpi_policy_hdl_t) (k : dpi_rule_key_t) : dpi_policy_desc_t :=
  default (default_desc hdl) (range_lookup hdl (RangeKey 0 (rk_proto k) 0) k).

Lemma base_lookup hdl d k :
  _dpi_policy_lookup_by_key pick hdl k d = default (fallback hdl k) (lookup_opt hdl d k).
Proof.
  unfold _dpi_policy_lookup_by_key, lookup_opt, fallback.
  destruct (policy_map_lookup pick hdl k); [done|].
  change (if d then RangeKey (rk_dip k) (rk_proto k) DP_RANGE_RULE_INGRESS
          else RangeKey (rk_sip k) (rk_proto k) DP_RANGE_RULE_EGRESS) with (dir_key d k).
  destruct (range_lookup hdl (dir_key d k) k); [done|]. by destruct (range_lookup hdl (RangeKey _ _ _) k).
Qed.

Lemma merge_lookups o1 o2 f1 f2 n :
  n < ORDER_MAX -> (forall x, o2 = Some x -> desc_ok n x) -> pd_order f1 = ORDER_MAX -> pd_id f2 = 0 ->
  policy_desc_merge (default f1 o1) (default f2 o2) = default f1 (merge_opt o1 o2).
Proof.
  intros Hn Ho2 Hf1 Hf2. unfold policy_desc_merge. destruct o2 as [b|]; simpl.
  - destruct (Ho2 b eq_refl) as [Hid [_ Hle]]. rewrite (proj2 (Z.ltb_lt 0 _) Hid). simpl.
    destruct o1 as [a|]; simpl; [by destruct (_ <? _)|]. rewrite (proj2 (Z.ltb_lt _ _)); [done|]. lia.
  - rewrite Hf2. by destruct o1.
Qed.

Lemma lookup_opt_desc_ok n bl bh hdl L d k x :
  table_inv n bl bh hdl L -> dir_ok d k -> lookup_opt hdl d k = Some x -> desc_ok n x.
Proof.
  intros Hi Hd Hx. destruct (lookup_opt_sound _ _ _ _ _ _ _ _ Hi Hd Hx) as (e & He & <- & _).
  apply (ti_entry _ _ _ _ _ Hi e He).
Qed.

(** [hdl'] is the handle [hdl], perhaps with rules without direction. *)
Lemma match_rules_tables n bl bh hdl hdl' L d k fqdn p :
  n < ORDER_MAX -> table_inv n bl bh hdl L -> dir_ok d k -> hd_flag hdl' = 0 ->
  (forall k', lookup_opt hdl' d k' = lookup_opt hdl d k') ->
  (forall k', pd_id (fallback hdl' k') = 0 /\ pd_order (fallback hdl' k') = ORDER_MAX) ->
  match_rules pick fqdn hdl' k d (dpi_is_ip4_internal env (peer_side d k)) p =
  Done (add_flags (int_or_ext (dpi_is_ip4_internal env (peer_side d k)))
          (default (fallback hdl' k) (peer_lookup hdl d k))).
Proof.
  intros Hn Hi Hd Hflag Hsame Hfall. unfold match_rules. rewrite Hflag.
  change (has_flag 0 POLICY_HDL_FLAG_FQDN) with false. cbn [mbind outcome_bind].
  rewrite !base_lookup, !Hsame. unfold peer_lookup, external.
  destruct (dpi_is_ip4_internal env (peer_side d k)); simpl.
  - by destruct (lookup_opt hdl d k).
  - rewrite (merge_lookups _ _ _ _ n Hn); [done| |apply Hfall|apply Hfall]. intros x.
    apply (lookup_opt_desc_ok _ _ _ _ _ _ _ _ Hi). by apply dir_ok_zero.
Qed.

Lemma fallback_default n bl bh hdl L k : table_inv n bl bh hdl L -> fallback hdl k = default_desc hdl.
Proof. intros Hi. unfold fallback, range_lookup. by rewrite (ti_nodir _ _ _ _ _ Hi). Qed.

(** ** One addition *)

Definition dir_of (d : bool) : rule_dir := if d then POLICY_RULE_DIR_INGRESS else POLICY_RULE_DIR_EGRESS.

(** [e'] covers every packet that [e] covers. *)
Definition shadows (e' e : entry) : Prop :=
  forall d k, covers_peer d (external env d k) k e = true -> covers_peer d (external env d k) k e' = true.

Lemma shadow_single e e0 :
  entry_ok e -> en_single e = true ->
  covers_peer (en_dir e) (external env (en_dir e) (en_l e)) (en_l e) e0 = true -> shadows e0 e.
Proof.
  intros Hok Hs Hc0 d k. unfold covers_peer in *. fold (zero_key d k) (zero_key (en_dir e) (en_l e)) in *.
  rewrite !orb_true_iff, !andb_true_iff in *. intros [Hc|[He Hc]].
  - destruct (single_covers e d k Hok Hs Hc) as [-> <-]. done.
  - destruct (single_covers e d _ Hok Hs Hc) as [Hz Hd]. right. split; [done|].
    rewrite <-Hz, Hd, zero_key_twice in Hc0. tauto.
Qed.

(** What an addition tells the caller: the rule is new, or an entry shadows
    it and gives the descriptor. *)
Definition add_result (ret : Z) (exist_desc : dpi_policy_desc_t) (L : list entry) (e : entry) : Prop :=
  ret = 1 \/
  (ret = 0 /\ 0 < pd_id exist_desc /\
   exists e0, e0 ∈ L /\ shadows e0 e /\ pd_action exist_desc = pd_action (en_desc e0)).

Lemma add_one_single n bl bh hdl L e exist_desc :
  n < ORDER_MAX -> table_inv n bl bh hdl L -> entry_ok e -> en_single e = true -> desc_ok n (en_desc e) ->
  pd_order (en_desc e) = n -> boxed bl bh e -> rk_app (en_l e) <= APP_MAX ->
  exists ret exist' hdl',
    dpi_rule_add_one pick env (Some fh) hdl (en_l e) None (dir_of (en_dir e)) (en_desc e) exist_desc
      = Done (ret, exist', hdl') /\
    table_inv n bl bh hdl' (L ++ [e]) /\ add_result ret exist' L e.
Proof.
  intros Hn Hi Hok Hs Hdesc Hord Hbox Happ. unfold dpi_rule_add_one.
  assert (bool_decide (dir_of (en_dir e) = POLICY_RULE_DIR_INGRESS) = en_dir e) as ->
    by (by destruct (en_dir e)).
  destruct (eo_single e Hok Hs) as [_ Hd].
  pose proof (lookup_cases pick env fh hdl (en_dir e) (en_l e) exist_desc None eq_refl) as Hcases.
  rewrite (ti_action _ _ _ _ _ Hi), (ti_dir _ _ _ _ _ Hi) in Hcases.
  destruct (skips_rules env fh def_action apply_dir (en_dir e) (en_l e)) eqn:Hskip.
  - destruct Hcases as (x & -> & Hx). cbn [mbind outcome_bind]. rewrite Hx. simpl.
    do 3 eexists. split; [done|]. split; [|by left]. apply table_inv_exact; try done.
    intros (_ & Hf & _). congruence.
  - assert (Henf : enforced (en_dir e) (en_l e)) by (split_and!; try done; apply (eo_app e Hok)).
    rewrite Hcases, (match_rules_tables n bl bh hdl hdl L); [|done..|by apply (ti_flag _ _ _ _ _ Hi)|done|].
    2: { intros k'. by rewrite (fallback_default _ _ _ _ _ _ Hi). }
    rewrite (fallback_default _ _ _ _ _ _ Hi). cbn [mbind outcome_bind].
    destruct (peer_lookup hdl (en_dir e) (en_l e)) as [x|] eqn:Hpl; simpl.
    + rewrite (ti_match _ _ _ _ _ Hi _ _ Henf) in Hpl. unfold find_desc in Hpl.
      destruct (List.find _ L) as [e0|] eqn:Hf; [|done]. simpl in Hpl. injection Hpl as <-.
      apply find_some in Hf as [Hin%list_elem_of_In Hc].
      destruct (ti_entry _ _ _ _ _ Hi e0 Hin) as (_ & [Hid _] & _).
      pose proof (shadow_single e e0 Hok Hs Hc) as Hsh.
      rewrite (proj2 (Z.eqb_neq _ 0)) by lia. simpl. do 3 eexists. split; [done|]. split.
      * apply table_inv_skip; [done| |].
        -- intros ? ->%list_elem_of_singleton. auto.
        -- intros d k ? _ ->%list_elem_of_singleton Hck. exists e0. auto.
      * right. simpl. eauto 10.
    + do 3 eexists. split; [done|]. split; [|by left]. by apply table_inv_exact.
Qed.

Lemma get_range_key_dir e :
  entry_ok e -> get_range_key (en_l e) (en_h e) (dir_of (en_dir e)) = Some (dir_key (en_dir e) (en_l e)).
Proof.
  intros Hok. unfold get_range_key. rewrite (eo_proto e Hok), Z.eqb_refl. simpl. by destruct (en_dir e).
Qed.

Lemma same_covers e e0 d k :
  en_dir e0 = en_dir e -> en_l e0 = en_l e -> en_h e0 = en_h e -> covers d k e0 = covers d k e.
Proof. intros H1 H2 H3. unfold covers. by rewrite H1, H2, H3. Qed.

Lemma add_one_range n bl bh hdl L e es exist_desc :
  n < ORDER_MAX -> table_inv n bl bh hdl L -> entry_ok e -> desc_ok n (en_desc e) ->
  pd_order (en_desc e) = n -> boxed bl bh e ->
  (forall x, x ∈ es -> entry_ok x /\ boxed bl bh x /\ en_desc x = en_desc e) -> e ∈ es ->
  (forall d k, existsb (covers d k) es = covers d k e) ->
  exists ret exist' hdl',
    dpi_rule_add_one pick env (Some fh) hdl (en_l e) (Some (en_h e)) (dir_of (en_dir e)) (en_desc e) exist_desc
      = Done (ret, exist', hdl') /\
    table_inv n bl bh hdl' (L ++ es) /\ add_result ret exist' L e.
Proof.
  intros Hn Hi Hok Hdesc Hord Hbox Hes Hin Hcov. unfold dpi_rule_add_one, dpi_range_rule_add.
  rewrite (get_range_key_dir e Hok). set (key := dir_key (en_dir e) (en_l e)).
  destruct (List.find _ _) as [it|] eqn:Hf.
  - apply find_some in Hf as [Hit%list_elem_of_In Heq]. apply andb_prop in Heq as [Hl Hh].
    apply bool_decide_eq_true in Hl. apply bool_decide_eq_true in Hh.
    destruct (hd_range_policy_map hdl !! key) as [items|] eqn:Hr; simpl in Hit; [|by apply elem_of_nil in Hit].
    destruct (ti_range _ _ _ _ _ Hi key items it Hr Hit) as (e0 & He0 & -> & Hk). simpl in *.
    assert (Hd : en_dir e0 = en_dir e) by (unfold key, dir_key, DP_RANGE_RULE_INGRESS, DP_RANGE_RULE_EGRESS in Hk;
          destruct (en_dir e0), (en_dir e); congruence).
    assert (Hsh : shadows e0 e) by (intros d k; unfold covers_peer; by rewrite !(same_covers e e0)).
    destruct (ti_entry _ _ _ _ _ Hi e0 He0) as (_ & [Hid _] & _).
    do 3 eexists. split; [done|]. split; [|right; eauto 10].
    apply table_inv_skip; [done| |].
    + intros x Hx. destruct (Hes x Hx) as (H1 & H2 & ->). auto.
    + intros d k x _ Hx Hc. exists e0. split; [done|]. apply Hsh.
      rewrite <-(existsb_covers_peer d _ k es e Hcov). apply existsb_exists. exists x.
      by rewrite <-list_elem_of_In.
  - do 3 eexists. split; [done|]. split; [|by left].
    change (table_inv n bl bh (with_item e hdl) (L ++ es)). by apply table_inv_range.
Qed.

(** ** The entries of a rule under one protocol *)

Lemma table_inv_dedup n bl bh hdl L x M :
  table_inv n bl bh hdl (L ++ x :: M) -> x ∈ L -> table_inv n bl bh hdl (L ++ M).
Proof.
  intros [I1 I2 I3 I4 I5 I6 I7 I8 I9] Hx.
  assert (Hsub : forall e, e ∈ L ++ x :: M <-> e ∈ L ++ M) by set_solver.
  constructor; try done.
  - intros k y Hin. destruct (I5 k y Hin) as (e & He & ?). exists e. by rewrite <-Hsub.
  - intros key items it Hr Hit. destruct (I6 key items it Hr Hit) as (e & He & ?). exists e. by rewrite <-Hsub.
  - intros e He. apply I7. by rewrite Hsub.
  - intros d k Henf. rewrite (I8 d k Henf). unfold find_desc. rewrite !find_app.
    destruct (List.find _ L) eqn:Hf; [done|]. simpl. apply list_find_bool_None in Hf.
    rewrite Forall_forall in Hf. by rewrite (Hf x Hx).
Qed.

Section block.
Context (n : Z) (bl bh : Z * Z * Z) (d : bool) (kl : dpi_rule_key_t) (kh : option dpi_rule_key_t).
Context (desc : dpi_policy_desc_t).
Context (Hn : n < ORDER_MAX) (Hdesc : desc_ok n desc) (Hord : pd_order desc = n) (Hver : pd_hdl_ver desc = 0).
Context (Hkl : rk_app kl = 0) (Hkh : forall h, kh = Some h -> rk_app h = 0 /\ rk_proto h = rk_proto kl).
Context (Hdir : kh = None -> dir_ok d kl).
Context (Hbl : box_of kl = bl) (Hbh : box_of (default kl kh) = bh).

Definition app_ok (a : dpi_policy_app_rule_t) : Prop := 0 < ar_rule_id a /\ 0 <= ar_app a <= APP_MAX.

Let base : entry := Entry d (bool_decide (kh = None)) kl (default kl kh) desc.
Let any : entry := app_entry d kl kh desc (any_app_rule desc).

Lemma set_app_same k : rk_app k = 0 -> set_app 0 k = k.
Proof. intros H. destruct k; simpl in *. by subst. Qed.

Lemma default_proto : rk_proto (default kl kh) = rk_proto kl.
Proof. destruct kh as [h|]; simpl; [apply (Hkh h eq_refl)|done]. Qed.

Lemma base_ok : entry_ok base /\ boxed bl bh base.
Proof.
  split; [|done]. constructor; simpl; [|apply default_proto|lia].
  intros Hs%bool_decide_eq_true. rewrite Hs. split; [done|]. by apply Hdir.
Qed.

Lemma app_entry_ok a :
  0 <= ar_app a -> entry_ok (app_entry d kl kh desc a) /\ boxed bl bh (app_entry d kl kh desc a).
Proof.
  intros Ha. split.
  - constructor; simpl; [|apply default_proto|done].
    intros [Hs Hne]%andb_prop. apply bool_decide_eq_true in Hs. apply negb_true_iff in Hne.
    rewrite Hs, Hne. simpl. split; [done|]. by apply Hdir.
  - split; simpl; [apply Hbl|apply Hbh].
Qed.

Lemma app_desc_ok a : app_ok a -> desc_ok n (app_desc_of a desc) /\ pd_order (app_desc_of a desc) = n.
Proof. intros [Hid _]. split; [split; simpl; [done|apply Hdesc]|done]. Qed.

Lemma existsb_single (e : entry) d' k : existsb (covers d' k) [e] = covers d' k e.
Proof. simpl. by rewrite orb_false_r. Qed.

Lemma add_app_rule_spec hdl L a key_l key_h exist_desc :
  table_inv n bl bh hdl L -> app_ok a -> set_app 0 key_l = kl -> set_opt_app 0 key_h = kh ->
  exists ret exist' hdl',
    dpi_add_app_rule pick env (Some fh) hdl key_l key_h a (dir_of d) desc exist_desc =
    Done (ret, exist', hdl', set_app (ar_app a) kl, set_opt_app (if ar_app a =? 0 then APP_MAX else ar_app a) kh) /\
    table_inv n bl bh hdl' (L ++ [app_entry d kl kh desc a]).
Proof.
  intros Hi Ha Hl Hh. set (e := app_entry d kl kh desc a).
  destruct (app_entry_ok a ltac:(apply Ha)) as [Hok Hbox]. destruct (app_desc_ok a Ha) as [Hd Ho].
  assert (Hl' : set_app (ar_app a) key_l = en_l e) by (unfold e; simpl; by rewrite <-Hl).
  assert (Hone : exists ret exist' hdl',
    dpi_rule_add_one pick env (Some fh) hdl (en_l e) (if en_single e then None else Some (en_h e))
      (dir_of d) (en_desc e) exist_desc = Done (ret, exist', hdl') /\ table_inv n bl bh hdl' (L ++ [e])).
  { destruct (en_single e) eqn:Hs.
    - destruct (add_one_single n bl bh hdl L e exist_desc) as (ret & exist' & hdl' & Heq & Hi' & _);
        try done; [apply Ha|]. exists ret, exist', hdl'. by split; [exact Heq|].
    - destruct (add_one_range n bl bh hdl L e [e] exist_desc) as (ret & exist' & hdl' & Heq & Hi' & _);
        try done; [|by apply list_elem_of_singleton|apply existsb_single|].
      + by intros ? ->%list_elem_of_singleton.
      + exists ret, exist', hdl'. by split; [exact Heq|]. }
  destruct Hone as (ret & exist' & hdl' & Hone & Hi'). exists ret, exist', hdl'. split; [|done].
  unfold dpi_add_app_rule. rewrite Hl'.
  assert (Hh' : set_opt_app (if ar_app a =? 0 then APP_MAX else ar_app a) key_h =
    set_opt_app (if ar_app a =? 0 then APP_MAX else ar_app a) kh).
  { rewrite <-Hh. by destruct key_h. }
  rewrite Hh'.
  assert (Hup : match set_opt_app (if ar_app a =? 0 then APP_MAX else ar_app a) kh with
    | Some _ => set_opt_app (if ar_app a =? 0 then APP_MAX else ar_app a) kh
    | None => if ar_app a =? 0 then Some (set_app APP_MAX (en_l e)) else None
    end = if en_single e then None else Some (en_h e)).
  { unfold e. simpl. destruct kh as [h|]; simpl; [done|]. destruct (ar_app a =? 0); simpl; done. }
  rewrite Hup. change (app_desc_of a desc) with (en_desc e). rewrite Hone. done.
Qed.

Lemma add_apps_spec apps hdl L key_l key_h ret exist_desc :
  table_inv n bl bh hdl L -> Forall app_ok apps -> set_app 0 key_l = kl -> set_opt_app 0 key_h = kh ->
  exists st', foldM (add_app_step pick env (Some fh) (dir_of d) desc)
                (AddState ret exist_desc hdl key_l key_h) apps = Done st' /\
    set_app 0 (as_key_l st') = kl /\ set_opt_app 0 (as_key_h st') = kh /\
    table_inv n bl bh (as_hdl st') (L ++ (app_entry d kl kh desc <$> apps)).
Proof.
  intros Hi Hall. revert hdl L key_l key_h ret exist_desc Hi.
  induction Hall as [|a apps Ha _ IH]; intros hdl L key_l key_h ret exist_desc Hi Hl Hh; simpl.
  { eexists. split; [done|]. rewrite app_nil_r. done. }
  unfold add_app_step at 2. cbn [as_hdl as_key_l as_key_h as_exist as_ret].
  destruct (add_app_rule_spec hdl L a key_l key_h exist_desc Hi Ha Hl Hh) as (r & x & hdl' & -> & Hi').
  cbn [mbind outcome_bind].
  edestruct (IH hdl' (L ++ [app_entry d kl kh desc a])) as (st' & -> & Hl' & Hh' & Hi''); [done| | |].
  3: { exists st'. split_and!; [done..|]. by rewrite <-app_assoc in Hi''. }
  - by apply (set_app_same kl).
  - destruct kh as [h|]; simpl; [|done]. f_equal. by apply (set_app_same h), Hkh.
Qed.

(** [e1] is [e0] for every application. *)
Definition any_of (e0 e1 : entry) : Prop :=
  en_dir e1 = en_dir e0 /\ set_app 0 (en_l e1) = set_app 0 (en_l e0) /\
  set_app 0 (en_h e1) = set_app 0 (en_h e0) /\ rk_app (en_l e1) = 0 /\ rk_app (en_h e1) = APP_MAX.

(** The entries for an unknown application that decide have a counterpart for
    every application. *)
Definition closed (L : list entry) : Prop :=
  forall e0, e0 ∈ L -> rk_app (en_l e0) <= 0 -> pd_action (en_desc e0) <> DP_POLICY_ACTION_CHECK_APP ->
  exists e1, e1 ∈ L /\ any_of e0 e1.

Lemma covers_set_app d' k e0 e1 :
  any_of e0 e1 -> covers d' (set_app 0 k) e0 = true -> 0 <= rk_app k <= APP_MAX -> covers d' k e1 = true.
Proof.
  intros (Hd & Hl & Hh & Hal & Hah). unfold covers, in_box. rewrite !andb_true_iff, !in_range_iff.
  destruct e0 as [d0 s0 [] [] x0], e1 as [d1 s1 [] [] x1], k. unfold set_app in *. simpl in *. simplify_eq.
  destruct d'; simpl; intuition lia.
Qed.

Lemma covers_unset_app d' k e0 e :
  en_dir e = en_dir e0 -> set_app 0 (en_l e) = set_app 0 (en_l e0) -> set_app 0 (en_h e) = set_app 0 (en_h e0) ->
  rk_app (en_l e0) = 0 -> rk_app (en_h e0) = 0 -> covers d' k e = true -> covers d' (set_app 0 k) e0 = true.
Proof.
  intros Hd Hl Hh Hal Hah. unfold covers, in_box. rewrite !andb_true_iff, !in_range_iff.
  destruct e0 as [d0 s0 [] [] x0], e as [d1 s1 [] [] x1], k. unfold set_app in *. simpl in *. simplify_eq.
  destruct d'; simpl; intuition lia.
Qed.

Lemma covers_app_0 d' k e : rk_app k = 0 -> covers d' k e = true -> rk_app (en_l e) <= 0.
Proof. intros Hk. unfold covers. rewrite !andb_true_iff, !in_range_iff, Hk. tauto. Qed.

Lemma set_app_external d' k : external env d' (set_app 0 k) = external env d' k.
Proof. unfold external, peer_side. by destruct d'. Qed.

Lemma default_app : rk_app (default kl kh) = 0.
Proof. destruct kh as [h|]; simpl; [apply (Hkh h eq_refl)|done]. Qed.

(** Every entry of the block is the base one under other applications. *)
Lemma block_entry apps e :
  e ∈ proto_entries d kl kh apps desc ->
  en_dir e = d /\ set_app 0 (en_l e) = kl /\ set_app 0 (en_h e) = default kl kh.
Proof.
  assert (Happ : forall a, set_app 0 (en_l (app_entry d kl kh desc a)) = kl /\
    set_app 0 (en_h (app_entry d kl kh desc a)) = default kl kh).
  { intros a. split; [by apply (set_app_same kl)|]. by apply (set_app_same (default kl kh)), default_app. }
  unfold proto_entries. rewrite !elem_of_app, list_elem_of_singleton. intros [->|[He|He]]; simpl.
  - split_and!; [done|by apply set_app_same|]. apply set_app_same, default_app.
  - destruct (negb _); [|by apply elem_of_nil in He]. apply list_elem_of_singleton in He as ->.
    split; [done|]. apply Happ.
  - apply list_elem_of_fmap in He as (a & -> & _). split; [done|]. apply Happ.
Qed.

Lemma block_ok apps e :
  Forall app_ok apps -> e ∈ proto_entries d kl kh apps desc ->
  entry_ok e /\ desc_ok n (en_desc e) /\ (pd_order (en_desc e) = n -> boxed bl bh e).
Proof.
  intros Hall. assert (Hany : app_ok (any_app_rule desc)).
  { split; simpl; [apply Hdesc|]. unfold APP_MAX. lia. }
  assert (Happ : forall a, app_ok a -> let e := app_entry d kl kh desc a in
    entry_ok e /\ desc_ok n (en_desc e) /\ (pd_order (en_desc e) = n -> boxed bl bh e)).
  { intros a Ha. destruct (app_entry_ok a ltac:(apply Ha)) as [H1 H2].
    destruct (app_desc_ok a Ha) as [H3 _]. split_and!; auto. }
  unfold proto_entries. rewrite !elem_of_app, list_elem_of_singleton. intros [->|[He|He]].
  - destruct base_ok as [H1 H2]. auto.
  - destruct (negb _); [|by apply elem_of_nil in He]. apply list_elem_of_singleton in He as ->. by apply Happ.
  - apply list_elem_of_fmap in He as (a & -> & Ha). rewrite Forall_forall in Hall. auto.
Qed.

Lemma set_peer_app d' k : set_peer d' 0 (set_app 0 k) = set_app 0 (set_peer d' 0 k).
Proof. by destruct d'. Qed.

Lemma base_covers_peer apps d' ext k e :
  e ∈ proto_entries d kl kh apps desc -> covers_peer d' ext k e = true ->
  covers_peer d' ext (set_app 0 k) base = true.
Proof.
  intros He. destruct (block_entry apps e He) as (Hd & Hl & Hh).
  assert (Hone : forall k', covers d' k' e = true -> covers d' (set_app 0 k') base = true).
  { intros k'. apply covers_unset_app; [done| | |done|apply default_app]; simpl.
    - by rewrite Hl, set_app_same.
    - by rewrite Hh, set_app_same by apply default_app. }
  unfold covers_peer. rewrite set_peer_app, !orb_true_iff, !andb_true_iff. intuition auto.
Qed.

(** A base entry that is shadowed by a verdict for every application: the
    whole block is. *)
Lemma block_shadowed hdl L M es apps e0 :
  table_inv n bl bh hdl M -> L ⊆ M -> es ⊆ proto_entries d kl kh apps desc ->
  closed L -> Forall app_ok apps -> e0 ∈ L -> shadows e0 base ->
  pd_action (en_desc e0) <> DP_POLICY_ACTION_CHECK_APP ->
  table_inv n bl bh hdl (M ++ es).
Proof.
  intros Hi HL Hes Hcl Hall He0 Hsh Hact.
  apply table_inv_skip; [done|intros e He; by apply (block_ok apps), Hes|].
  intros d' k e (_ & _ & Happ) He%Hes Hc. apply (base_covers_peer apps) in Hc; [|done].
  rewrite <-set_app_external in Hc. apply Hsh in Hc. rewrite set_app_external in Hc.
  unfold covers_peer in Hc. rewrite set_peer_app in Hc.
  assert (H0 : rk_app (en_l e0) <= 0).
  { apply orb_true_iff in Hc as [Hb|[_ Hb]%andb_prop]; by apply covers_app_0 in Hb. }
  destruct (Hcl e0 He0 H0 Hact) as (e1 & He1 & Hany). exists e1. split; [by apply HL|].
  unfold covers_peer. apply orb_true_iff in Hc as [Hb|[Hx Hb]%andb_prop].
  - by rewrite (covers_set_app d' k e0 e1).
  - rewrite Hx, (covers_set_app d' (set_peer d' 0 k) e0 e1); [apply orb_true_r|done|done|by destruct d'].
Qed.

Lemma block_closed L apps :
  closed L -> Forall app_ok apps -> closed (L ++ proto_entries d kl kh apps desc).
Proof.
  intros Hcl Hall e0 He0 H0 Hact. apply elem_of_app in He0 as [He0|He0].
  { destruct (Hcl e0 He0 H0 Hact) as (e1 & He1 & ?). exists e1. rewrite elem_of_app. auto. }
  destruct (block_entry apps e0 He0) as (Hd & Hl & Hh).
  assert (Happ : forall a, ar_app a = 0 -> let e := app_entry d kl kh desc a in
    en_dir e = en_dir e0 /\ set_app 0 (en_l e) = set_app 0 (en_l e0) /\
    set_app 0 (en_h e) = set_app 0 (en_h e0) /\ rk_app (en_l e) = 0 /\ rk_app (en_h e) = APP_MAX).
  { intros a Ha. rewrite Hd, Hl, Hh. unfold app_entry. cbn [en_dir en_l en_h]. rewrite Ha.
    split_and!; try done; [change (set_app 0 kl = kl); by apply set_app_same|].
    change (set_app 0 (default kl kh) = default kl kh). apply set_app_same, default_app. }
  pose proof He0 as Hin. unfold proto_entries in He0.
  rewrite !elem_of_app, list_elem_of_singleton in He0. destruct He0 as [->|[He|He]].
  - simpl in Hact. exists any. rewrite elem_of_app. split; [right|by apply Happ].
    unfold proto_entries. rewrite (proj2 (Z.eqb_neq _ _) Hact). simpl. rewrite !elem_of_cons. auto.
  - exists e0. rewrite elem_of_app. split; [by right|]. destruct (negb _); [|by apply elem_of_nil in He].
    apply list_elem_of_singleton in He as ->. split_and!; done.
  - apply list_elem_of_fmap in He as (a & -> & Ha). exists (app_entry d kl kh desc a).
    rewrite elem_of_app. split; [by right|]. rewrite Forall_forall in Hall. destruct (Hall a Ha) as [_ Har].
    apply Happ. simpl in H0. lia.
Qed.

(** The upper key between two protocols of a rule: an application-any rule
    leaves its application in it. *)
Definition leftover_ok (key_h : option dpi_rule_key_t) : Prop :=
  set_opt_app 0 key_h = kh /\
  forall h, key_h = Some h ->
    rk_app h = 0 \/ (rk_app h = APP_MAX /\ pd_action desc <> DP_POLICY_ACTION_CHECK_APP).

Lemma any_desc : en_desc any = desc.
Proof. unfold any. simpl. unfold app_desc_of. simpl. destruct desc; simpl in *. by subst. Qed.

Lemma any_covers_base d' k : kh <> None -> covers d' k base = true -> covers d' k any = true.
Proof.
  intros Hne. unfold covers, in_box. rewrite !andb_true_iff, !in_range_iff. simpl.
  pose proof default_app as Hda. unfold own_side, APP_MAX. destruct d'; simpl; intuition lia.
Qed.

(** The entries the first addition stands for. *)
Definition first_entries (B : list entry) : Prop :=
  B = [base] \/ (B = [base; any] /\ pd_action desc <> DP_POLICY_ACTION_CHECK_APP).

Lemma base_add hdl L key_h exist_desc :
  table_inv n bl bh hdl L -> leftover_ok key_h ->
  exists ret exist' hdl' B,
    dpi_rule_add_one pick env (Some fh) hdl kl key_h (dir_of d) desc exist_desc = Done (ret, exist', hdl') /\
    table_inv n bl bh hdl' (L ++ B) /\ first_entries B /\ add_result ret exist' L base.
Proof.
  intros Hi [Hkey Hleft]. destruct base_ok as [Hok Hbox].
  destruct key_h as [h0|]; simpl in Hkey.
  - assert (Hs : en_single base = false) by (unfold base; simpl; by rewrite <-Hkey).
    assert (Hhh : default kl kh = set_app 0 h0) by (by rewrite <-Hkey).
    destruct (Hleft h0 eq_refl) as [Ha|[Ha Hact]].
    + destruct (add_one_range n bl bh hdl L base [base] exist_desc) as (ret & x & hdl' & Heq & Hi' & Hr);
        try done; [by intros ? ->%list_elem_of_singleton|by apply list_elem_of_singleton|apply existsb_single|].
      exists ret, x, hdl', [base]. split_and!; [|done|by left|done].
      rewrite <-Heq. f_equal. unfold base. cbn [en_h]. rewrite Hhh. by rewrite set_app_same.
    + destruct (app_entry_ok (any_app_rule desc)) as [Hoka Hboxa]; [done|].
      assert (Hne : kh <> None) by (by rewrite <-Hkey).
      destruct (add_one_range n bl bh hdl L any [base; any] exist_desc) as (ret & x & hdl' & Heq & Hi' & Hr);
        try (by rewrite any_desc); try done.
      * intros e. rewrite !elem_of_cons, elem_of_nil, any_desc. intros [->|[->|[]]]; [done|].
        by rewrite any_desc.
      * rewrite !elem_of_cons. auto.
      * intros d' k. simpl. rewrite orb_false_r. destruct (covers d' k base) eqn:Hc; [|done].
        by rewrite (any_covers_base d' k Hne Hc).
      * exists ret, x, hdl', [base; any]. split_and!; [|done|by right|].
        -- rewrite <-Heq, any_desc. unfold any. cbn [en_l en_h app_entry any_app_rule ar_app en_dir].
           rewrite Z.eqb_refl. f_equal; [by rewrite set_app_same|]. f_equal. rewrite Hhh.
           destruct h0. simpl in *. by subst.
        -- destruct Hr as [->|(-> & Hid & e0 & He0 & Hsh & Hac)]; [by left|right]. split_and!; [done|done|].
           exists e0. split_and!; [done| |done]. intros d' k Hc. apply Hsh. unfold covers_peer in *.
           rewrite !orb_true_iff, !andb_true_iff in *. destruct Hc as [Hc|[? Hc]]; auto using any_covers_base.
  - assert (Hs : en_single base = true) by (unfold base; simpl; by rewrite <-Hkey).
    destruct (add_one_single n bl bh hdl L base exist_desc) as (ret & x & hdl' & Heq & Hi' & Hr); try done.
    { simpl. rewrite Hkl. unfold APP_MAX. lia. }
    exists ret, x, hdl', [base]. split_and!; [exact Heq|done|by left|done].
Qed.

Lemma upper_norm x : set_opt_app 0 (set_opt_app x kh) = kh.
Proof. destruct kh as [h|]; simpl; [|done]. f_equal. by apply (set_app_same h), Hkh. Qed.

Lemma upper_app x (o : option dpi_rule_key_t) h : set_opt_app x o = Some h -> rk_app h = x.
Proof. destruct o; [|done]. by intros [= <-]. Qed.

(** The end of [dpi_rule_add]: the application rules. *)
Lemma apps_result apps hdl M key_h ret exist_desc :
  table_inv n bl bh hdl M -> Forall app_ok apps -> leftover_ok key_h ->
  exists ret' hdl' key_h',
    match apps with
    | [] => Done (ret, hdl, kl, key_h)
    | _ =>
        st ← foldM (add_app_step pick env (Some fh) (dir_of d) desc) (AddState ret exist_desc hdl kl key_h) apps;
        Done (as_ret st, as_hdl st, set_app 0 (as_key_l st), set_opt_app 0 (as_key_h st))
    end = Done (ret', hdl', kl, key_h') /\ leftover_ok key_h' /\
    table_inv n bl bh hdl' (M ++ (app_entry d kl kh desc <$> apps)).
Proof.
  intros Hi Hall Hleft. destruct apps as [|a apps].
  { exists ret, hdl, key_h. rewrite app_nil_r. done. }
  destruct (add_apps_spec (a :: apps) hdl M kl key_h ret exist_desc Hi Hall) as (st & -> & Hl & Hh & Hi');
    [by apply set_app_same|apply Hleft|]. cbn [mbind outcome_bind]. rewrite Hl, Hh.
  exists (as_ret st), (as_hdl st), kh. split_and!; [done| |done]. split.
  - rewrite <-Hh at 2. rewrite <-Hh. by destruct (as_key_h st).
  - intros h Hk. left. by apply Hkh.
Qed.

(** The application-any rule and then the application rules. *)
Lemma any_result apps hdl L B key_h exist_desc :
  table_inv n bl bh hdl (L ++ B) -> first_entries B -> Forall app_ok apps -> leftover_ok key_h ->
  pd_action desc <> DP_POLICY_ACTION_CHECK_APP ->
  exists ret' hdl' key_h',
    ('(ret, exist_desc, hdl, key_l, key_h) ←
       dpi_add_app_rule pick env (Some fh) hdl kl key_h (any_app_rule desc) (dir_of d) desc exist_desc;
     match apps with
     | [] => Done (ret, hdl, key_l, key_h)
     | _ =>
         st ← foldM (add_app_step pick env (Some fh) (dir_of d) desc) (AddState ret exist_desc hdl key_l key_h) apps;
         Done (as_ret st, as_hdl st, set_app 0 (as_key_l st), set_opt_app 0 (as_key_h st))
     end) = Done (ret', hdl', kl, key_h') /\ leftover_ok key_h' /\
    table_inv n bl bh hdl' (L ++ [base; any] ++ (app_entry d kl kh desc <$> apps)).
Proof.
  intros Hi HB Hall Hleft Hact.
  assert (Hany : app_ok (any_app_rule desc)) by (split; simpl; [apply Hdesc|unfold APP_MAX; lia]).
  destruct (add_app_rule_spec hdl (L ++ B) (any_app_rule desc) kl key_h exist_desc Hi Hany)
    as (ret & x & hdl1 & -> & Hi1); [by apply set_app_same|apply Hleft|]. cbn [mbind outcome_bind].
  change (ar_app (any_app_rule desc)) with 0. rewrite Z.eqb_refl, (set_app_same kl Hkl).
  assert (Hi2 : table_inv n bl bh hdl1 (L ++ [base; any])).
  { fold any in Hi1. destruct HB as [->|[-> _]]; [by rewrite <-app_assoc in Hi1|].
    apply table_inv_dedup in Hi1; [by rewrite app_nil_r in Hi1|]. rewrite elem_of_app, !elem_of_cons. auto. }
  destruct (apps_result apps hdl1 (L ++ [base; any]) (set_opt_app APP_MAX kh) ret x Hi2 Hall)
    as (ret' & hdl' & key_h' & Heq & Hl' & Hi').
  { split; [apply upper_norm|]. intros h Hh. right. split; [by apply upper_app in Hh|done]. }
  exists ret', hdl', key_h'. split_and!; [done|done|]. by rewrite <-app_assoc in Hi'.
Qed.

Lemma rule_add_spec apps hdl L key_h :
  table_inv n bl bh hdl L -> closed L -> Forall app_ok apps -> leftover_ok key_h ->
  exists ret hdl' key_h',
    dpi_rule_add pick env (Some fh) hdl kl key_h apps (dir_of d) desc = Done (ret, hdl', kl, key_h') /\
    leftover_ok key_h' /\ table_inv n bl bh hdl' (L ++ proto_entries d kl kh apps desc) /\
    closed (L ++ proto_entries d kl kh apps desc).
Proof.
  intros Hi Hcl Hall Hleft. pose proof (block_closed L apps Hcl Hall) as Hcl'.
  destruct (base_add hdl L key_h (PolicyDesc 0 0 0 0 0) Hi Hleft) as (ret & x & hdl1 & B & Hone & Hi1 & HB & Hr).
  unfold dpi_rule_add. rewrite Hone. cbn [mbind outcome_bind]. cbv zeta.
  assert (Happs : pd_action desc = DP_POLICY_ACTION_CHECK_APP ->
    L ++ proto_entries d kl kh apps desc = (L ++ B) ++ (app_entry d kl kh desc <$> apps)).
  { intros Hact. destruct HB as [->|[_ Hno]]; [|done]. unfold proto_entries. rewrite Hact, Z.eqb_refl. simpl.
    by rewrite <-app_assoc. }
  assert (Hanys : pd_action desc <> DP_POLICY_ACTION_CHECK_APP ->
    L ++ proto_entries d kl kh apps desc = L ++ [base; any] ++ (app_entry d kl kh desc <$> apps)).
  { intros Hact. unfold proto_entries. by rewrite (proj2 (Z.eqb_neq _ _) Hact). }
  destruct Hr as [->|(-> & Hid & e0 & He0 & Hsh & Hac)].
  - change (1 <? 0) with false. change (1 =? 0) with false. change (0 <? 1) with true. cbn [andb].
    destruct Hdesc as [Hpos _]. rewrite (proj2 (Z.ltb_lt 0 _) Hpos). cbn [andb].
    destruct (Z.eqb_spec (pd_action desc) DP_POLICY_ACTION_CHECK_APP) as [Hact|Hact]; cbn [negb].
    + destruct (apps_result apps hdl1 (L ++ B) key_h 1 x Hi1 Hall Hleft) as (r' & h' & k' & -> & Hl' & Hi').
      exists r', h', k'. rewrite (Happs Hact). rewrite (Happs Hact) in Hcl'. done.
    + destruct (any_result apps hdl1 L B key_h x Hi1 HB Hall Hleft Hact) as (r' & h' & k' & -> & Hl' & Hi').
      exists r', h', k'. rewrite (Hanys Hact). rewrite (Hanys Hact) in Hcl'. done.
  - change (0 <? 0) with false. change (0 =? 0) with true. rewrite (proj2 (Z.ltb_lt 0 _) Hid). cbn [andb].
    destruct (Z.eqb_spec (pd_action x) DP_POLICY_ACTION_CHECK_APP) as [Hx|Hx]; cbn [negb].
    + destruct (Z.eqb_spec (pd_action desc) DP_POLICY_ACTION_CHECK_APP) as [Hact|Hact]; cbn [negb].
      * destruct (apps_result apps hdl1 (L ++ B) key_h 0 x Hi1 Hall Hleft) as (r' & h' & k' & -> & Hl' & Hi').
        exists r', h', k'. rewrite (Happs Hact). rewrite (Happs Hact) in Hcl'. done.
      * destruct (any_result apps hdl1 L B key_h x Hi1 HB Hall Hleft Hact) as (r' & h' & k' & -> & Hl' & Hi').
        exists r', h', k'. rewrite (Hanys Hact). rewrite (Hanys Hact) in Hcl'. done.
    + exists 0, hdl1, key_h. split_and!; [done|done| |done].
      assert (Hrest : exists es, L ++ proto_entries d kl kh apps desc = (L ++ B) ++ es /\
                                 es ⊆ proto_entries d kl kh apps desc).
      { destruct HB as [->|[-> Hact]].
        - unfold proto_entries. eexists. rewrite <-app_assoc. split; [done|]. set_solver.
        - exists (app_entry d kl kh desc <$> apps). rewrite <-app_assoc, (Hanys Hact). split; [done|].
          unfold proto_entries. set_solver. }
      destruct Hrest as (es & -> & Hes). apply (block_shadowed hdl1 L _ _ apps e0); try done; [set_solver|].
      by rewrite <-Hac.
Qed.
End block.

(** ** The rules of a policy *)

Record rule_ok (r : dpi_policy_rule_t) : Prop := {
  ro_id : 0 < pr_id r;
  ro_own : own_single r;
  ro_dir : rule_key_r r 0 = None -> dir_ok (pr_ingress r) (rule_key r 0);
  ro_apps : Forall app_ok (pr_app_rules r)
}.

Lemma table_inv_next n bl bh n' bl' bh' hdl L :
  table_inv n bl bh hdl L -> n < n' -> table_inv n' bl' bh' hdl L.
Proof.
  intros [I1 I2 I3 I4 I5 I6 I7 I8 I9] Hn. constructor; try done. intros e He.
  destruct (I7 e He) as (H1 & [H2 H3] & _). split_and!; [done|split; [done|lia]|lia].
Qed.

Section rule.
Context (r : dpi_policy_rule_t) (n : Z) (Hr : rule_ok r) (Hn : 0 <= n < ORDER_MAX).

Let lower : Z * Z * Z := (pr_sip r, pr_dip r, pr_dport r).
Let upper : Z * Z * Z := (pr_sip_r r, pr_dip_r r, pr_dport_r r).

(** The upper key as one protocol leaves it to the next. *)
Definition upper_ok (key_r : option dpi_rule_key_t) : Prop :=
  set_opt_app 0 (set_proto 0 <$> key_r) = rule_key_r r 0 /\
  forall h, key_r = Some h ->
    rk_app h = 0 \/ (rk_app h = APP_MAX /\ pr_action r <> DP_POLICY_ACTION_CHECK_APP).

Lemma rule_key_r_proto p : rule_key_r r p = set_proto p <$> rule_key_r r 0.
Proof. unfold rule_key_r. by destruct (_ || _). Qed.

Lemma add_proto_spec hdl L key key_r p :
  table_inv n lower upper hdl L -> closed L -> set_proto 0 key = rule_key r 0 -> upper_ok key_r ->
  exists hdl' key' key_r',
    add_proto pick env (Some fh) (rule_dir_of r) (pr_app_rules r) (rule_desc n r) (hdl, key, key_r) p
      = Done (hdl', key', key_r') /\ set_proto 0 key' = rule_key r 0 /\ upper_ok key_r' /\
    table_inv n lower upper hdl'
      (L ++ proto_entries (pr_ingress r) (rule_key r p) (rule_key_r r p) (pr_app_rules r) (rule_desc n r)) /\
    closed (L ++ proto_entries (pr_ingress r) (rule_key r p) (rule_key_r r p) (pr_app_rules r) (rule_desc n r)).
Proof.
  intros Hi Hcl Hk [Hu1 Hu2]. unfold add_proto.
  assert (Hkp : set_proto p key = rule_key r p) by (destruct key; unfold rule_key, set_proto in *; simpl in *; by simplify_eq).
  assert (rule_dir_of r = dir_of (pr_ingress r)) as -> by (unfold rule_dir_of, dir_of; by destruct (pr_ingress r)).
  destruct (rule_add_spec n lower upper (pr_ingress r) (rule_key r p) (rule_key_r r p) (rule_desc n r)
              ltac:(lia) ltac:(split; simpl; [apply Hr|lia]) eq_refl eq_refl eq_refl)
    with (apps := pr_app_rules r) (hdl := hdl) (L := L) (key_h := set_proto p <$> key_r)
    as (ret & hdl' & key_h' & Heq & Hl & Hi' & Hcl'); try done.
  - intros h. rewrite rule_key_r_proto. intros (h0 & Hh0 & ->)%fmap_Some. unfold rule_key_r in Hh0.
    destruct (_ || _); [|done]. by simplify_eq.
  - rewrite rule_key_r_proto. intros Hno%fmap_None. apply (ro_dir r Hr Hno).
  - rewrite default_rule_key_r. done.
  - apply Hr.
  - split.
    + rewrite rule_key_r_proto, <-Hu1. by destruct key_r.
    + intros h (h0 & Hh0 & ->)%fmap_Some. apply (Hu2 h0 Hh0).
  - rewrite Hkp, Heq. cbn [mbind outcome_bind]. exists hdl', (rule_key r p), key_h'. split_and!; try done.
    destruct Hl as [Hl1 Hl2]. split; [|done]. rewrite rule_key_r_proto in Hl1.
    destruct key_h' as [h|], (rule_key_r r 0) as [h0|] eqn:Hk0; simpl in *; try done. f_equal.
    injection Hl1 as Hl1. destruct h, h0. unfold set_app, set_proto in *. simpl in *. simplify_eq.
    f_equal. unfold rule_key_r in Hk0. destruct (_ || _); by simplify_eq.
Qed.

Lemma add_protos_spec ps hdl L key key_r :
  table_inv n lower upper hdl L -> closed L -> set_proto 0 key = rule_key r 0 -> upper_ok key_r ->
  exists hdl' key' key_r',
    foldM (add_proto pick env (Some fh) (rule_dir_of r) (pr_app_rules r) (rule_desc n r)) (hdl, key, key_r) ps
      = Done (hdl', key', key_r') /\
    let M := L ++ mjoin ((fun p => proto_entries (pr_ingress r) (rule_key r p) (rule_key_r r p)
                                     (pr_app_rules r) (rule_desc n r)) <$> ps) in
    table_inv n lower upper hdl' M /\ closed M.
Proof.
  revert hdl L key key_r. induction ps as [|p ps IH]; intros hdl L key key_r Hi Hcl Hk Hu.
  { exists hdl, key, key_r. simpl. rewrite app_nil_r. done. }
  destruct (add_proto_spec hdl L key key_r p Hi Hcl Hk Hu) as (h1 & k1 & u1 & Heq & Hk1 & Hu1 & Hi1 & Hcl1).
  cbn [foldM]. rewrite Heq. cbn [mbind outcome_bind].
  destruct (IH h1 _ k1 u1 Hi1 Hcl1 Hk1 Hu1) as (h2 & k2 & u2 & -> & Hi2 & Hcl2).
  exists h2, k2, u2. split; [done|]. rewrite <-app_assoc in Hi2, Hcl2. done.
Qed.

Lemma add_rule_spec hdl L :
  table_inv n lower upper hdl L -> closed L ->
  exists hdl', add_rule pick env (Some fh) hdl n r = Done hdl' /\
    table_inv n lower upper hdl' (L ++ rule_entries env n r) /\ closed (L ++ rule_entries env n r).
Proof.
  intros Hi Hcl. unfold add_rule.
  destruct (add_protos_spec (rule_protos env (pr_proto r)) hdl L (rule_key r (pr_proto r)) (rule_key_r r (pr_proto r)))
    as (hdl' & k' & u' & Heq & Hi' & Hcl'); [done|done|done| |].
  { split.
    - unfold rule_key_r. by destruct (_ || _).
    - intros h. unfold rule_key_r. destruct (_ || _); [|done]. intros [= <-]. by left. }
  exists hdl'. unfold rule_key, rule_key_r, rule_desc in Heq. rewrite Heq. done.
Qed.
End rule.

Lemma add_rules_spec rules n bl bh hdl L :
  0 <= n -> n + Z.of_nat (length rules) < ORDER_MAX -> Forall rule_ok rules ->
  table_inv n bl bh hdl L -> closed L ->
  exists n' bl' bh' hdl', add_rules pick env (Some fh) hdl n rules = Done hdl' /\ n' < ORDER_MAX /\
    table_inv n' bl' bh' hdl' (L ++ rules_entries env n rules).
Proof.
  intros Hn Hlen Hall. revert n bl bh hdl L Hn Hlen.
  induction Hall as [|r rules Hr _ IH]; intros n bl bh hdl L Hn Hlen Hi Hcl; cbn [length] in Hlen; simpl.
  { exists n, bl, bh, hdl. rewrite app_nil_r. split_and!; [done|simpl in Hlen; lia|done]. }
  apply (table_inv_next n _ _ (n + 1) (pr_sip r, pr_dip r, pr_dport r) (pr_sip_r r, pr_dip_r r, pr_dport_r r))
    in Hi; [|lia].
  destruct (add_rule_spec r (n + 1) Hr ltac:(lia) hdl L Hi Hcl) as (h1 & -> & Hi1 & Hcl1).
  cbn [mbind outcome_bind].
  destruct (IH (n + 1) _ _ h1 (L ++ rule_entries env (n + 1) r) ltac:(lia) ltac:(lia) Hi1 Hcl1)
    as (n' & bl' & bh' & h' & -> & Hn' & Hi'). exists n', bl', bh', h'. by rewrite <-app_assoc in Hi'.
Qed.

Lemma table_inv_empty : table_inv 0 (0, 0, 0) (0, 0, 0) (empty_hdl ver def_action apply_dir) [].
Proof.
  constructor; try done.
  - intros k x Hin. by apply elem_of_nil in Hin.
  - intros e He. by apply elem_of_nil in He.
  - intros d k _. unfold peer_lookup, lookup_opt, policy_map_lookup. simpl.
    assert (pick [] = None) as ->.
    { destruct (pick []) eqn:Hp; [|done]. apply pick_some, elem_of_nil in Hp. done. }
    unfold range_lookup. simpl. rewrite lookup_empty. by destruct (external env d k); rewrite ?lookup_empty.
Qed.

(** The rule for ICMP changes the result of a lookup without a match only. *)
Lemma end_policy_spec fqdn hdl :
  (forall proto, hd_range_policy_map hdl !! RangeKey 0 proto 0 = None) ->
  exists hdl', end_policy pick env fqdn hdl = Done hdl' /\ hd_flag hdl' = hd_flag hdl /\
    hd_def_action hdl' = hd_def_action hdl /\ hd_apply_dir hdl' = hd_apply_dir hdl /\
    hd_ver hdl' = hd_ver hdl /\
    (forall d k, lookup_opt hdl' d k = lookup_opt hdl d k) /\
    (forall k, pd_id (fallback hdl' k) = 0 /\ pd_order (fallback hdl' k) = ORDER_MAX) /\
    (forall k, in_width 32 (rk_sip k) -> in_width 32 (rk_dip k) ->
       fallback hdl' k = fallback_desc env k (hd_def_action hdl)).
Proof.
  intros Hno. unfold end_policy, fallback_desc. destruct (en_enable_icmp_policy env) eqn:Hicmp; simpl.
  { exists hdl. split_and!; try done; intros k; unfold fallback, range_lookup; by rewrite Hno. }
  unfold dpi_add_default_policy, dpi_rule_add. cbn [dpi_rule_add_one mbind outcome_bind].
  unfold dpi_range_rule_add, get_range_key. cbn [rk_proto]. rewrite Z.eqb_refl. cbn [negb]. rewrite Hno. simpl.
  eexists. split; [done|]. split_and!; try done.
  - intros d k. unfold lookup_opt, policy_map_lookup, range_lookup. simpl.
    rewrite lookup_insert_ne; [done|]. by destruct d.
  - intros k. unfold fallback, range_lookup. simpl.
    destruct (decide (rk_proto k = IPPROTO_ICMP)) as [->|Hp].
    + rewrite lookup_insert_eq. simpl. by destruct (rule_key_in_range _ k).
    + rewrite lookup_insert_ne, Hno by congruence. done.
  - intros k [Hs1 Hs2] [Hd1 Hd2]. unfold fallback, range_lookup. simpl.
    destruct (Z.eqb_spec (rk_proto k) IPPROTO_ICMP) as [->|Hp]; simpl.
    + rewrite lookup_insert_eq. simpl. unfold rule_key_in_range, IS_X_IN_RANGE. simpl.
      rewrite (proj2 (Z.leb_le 0 (rk_sip k)) Hs1), (proj2 (Z.leb_le 0 (rk_dip k)) Hd1).
      rewrite (proj2 (Z.leb_le (rk_sip k) _)) by lia. rewrite (proj2 (Z.leb_le (rk_dip k) _)) by lia. simpl.
      rewrite !andb_true_r. assert (Hz : forall x, (0 <=? x) && (x <=? 0) = (x =? 0)).
      { intros x. destruct (Z.leb_spec 0 x), (Z.leb_spec x 0), (Z.eqb_spec x 0); simpl; lia. }
      rewrite !Hz. by destruct (_ && _).
    + rewrite lookup_insert_ne, Hno by congruence. done.
Qed.

Lemma tables_match rules :
  Z.of_nat (length rules) < ORDER_MAX -> Forall rule_ok rules ->
  exists hdl, policy_tables pick env (Some fh) ver def_action apply_dir rules = Done hdl /\
  hd_ver hdl = ver /\ hd_def_action hdl = def_action /\ hd_apply_dir hdl = apply_dir /\
  forall fqdn d k p, enforced d k -> in_width 32 (rk_sip k) -> in_width 32 (rk_dip k) ->
    match_rules pick fqdn hdl k d (dpi_is_ip4_internal env (peer_side d k)) p =
    Done (add_flags (int_or_ext (dpi_is_ip4_internal env (peer_side d k)))
            (reference_desc env d (external env d k) k def_action rules)).
Proof.
  intros Hlen Hall.
  destruct (add_rules_spec rules 0 (0, 0, 0) (0, 0, 0) (empty_hdl ver def_action apply_dir) [])
    as (n & bl & bh & h & Hadd & Hn & Hi); [lia|lia|done|apply table_inv_empty|by intros e He%elem_of_nil|].
  destruct (end_policy_spec (Some fh) h (ti_nodir _ _ _ _ _ Hi))
    as (hdl & Hend & Hf & Ha & Hd & Hv & Hl & Hfb & Hfall).
  rewrite (ti_action _ _ _ _ _ Hi) in Ha, Hfall. rewrite (ti_dir _ _ _ _ _ Hi) in Hd.
  rewrite (ti_ver _ _ _ _ _ Hi) in Hv. rewrite (ti_flag _ _ _ _ _ Hi) in Hf.
  exists hdl. unfold policy_tables. rewrite Hadd. cbn [mbind outcome_bind]. rewrite Hend. split_and!; try done.
  intros fqdn d k p Henf Hs Hdip.
  rewrite (match_rules_tables n bl bh h hdl (rules_entries env 0 rules)) by (done || apply Henf).
  do 2 f_equal. rewrite (ti_match _ _ _ _ _ Hi d k Henf). simpl.
  rewrite rules_entries_first_match; [|by eapply Forall_impl; [exact Hall|intros r Hr; apply Hr]|apply Henf].
  unfold reference_desc. rewrite <-(Hfall k) by done.
  by destruct (first_match env d (external env d k) k 0 rules) as [[[id act] o]|].
Qed.
End tables.

(** ** The theorem *)

(** [rcu_map_lookup] finds a node with the key, if there is one. *)
Definition pick_ok (pick : list dpi_policy_desc_t -> option dpi_policy_desc_t) : Prop :=
  (forall l x, pick l = Some x -> x ∈ l) /\ (forall l, pick l = None -> l = []).

(** The address 0 stands for the external peers. *)
Definition zero_ok (env : dp_env) : Prop :=
  (forall ip, dpi_is_ip4_internal env ip = true) \/
  (dpi_is_ip4_internal env 0 = false /\ dpi_ip4_iptype env 0 = DP_IPTYPE_NONE).

Lemma tables_lookup pick env fh own ver def_action apply_dir rules :
  pick_ok pick -> own 0 = false -> zero_ok env ->
  Z.of_nat (length rules) < ORDER_MAX -> Forall (rule_ok own) rules ->
  exists hdl, policy_tables pick env (Some fh) ver def_action apply_dir rules = Done hdl /\ hd_ver hdl = ver /\
  hd_def_action hdl = def_action /\
  forall env' fh' d k desc p,
    in_width 32 (rk_sip k) -> in_width 32 (rk_dip k) -> _dpi_is_chk_nbe p = false ->
    enforced env fh def_action apply_dir own d k ->
    skips_rules env' fh' def_action apply_dir d k = false ->
    dpi_is_ip4_internal env' (peer_side d k) = dpi_is_ip4_internal env (peer_side d k) ->
    dpi_policy_lookup_by_key pick env' (Some fh') (Some hdl) (rk_sip k) (rk_dip k) (rk_dport k)
      (rk_proto k) (rk_app k) d desc p =
    Done (set_ver ver (add_flags (int_or_ext (dpi_is_ip4_internal env (peer_side d k)))
            (reference_desc env d (external env d k) k def_action rules))).
Proof.
  intros [Hp1 Hp2] Hown Hzero Hlen Hall.
  destruct (tables_match pick Hp1 Hp2 env fh ver def_action apply_dir own Hown Hzero rules Hlen Hall)
    as (hdl & -> & Hv & Ha & Hd & Hmatch).
  exists hdl. split_and!; [done..|]. intros env' fh' d k desc p Hs Hdip Hnbe Henf Hskip Hint.
  pose proof (lookup_cases pick env' fh' hdl d k desc p Hnbe) as Hc.
  rewrite Ha, Hd, Hskip in Hc. rewrite Hc, Hint, Hmatch by done. cbn [mbind outcome_bind]. by rewrite Hv.
Qed.

(** C7: The tables that a policy fills give every packet the verdict of the first
    rule that covers it, wherever the rules are consulted: under the settings
    of the configuration ([env]) and under those of the lookup ([env']), which
    agree on whether the peer is inside the cluster. *)
Theorem dp_lookup_first_match pick env fh own ver def_action apply_dir rules :
  pick_ok pick -> own 0 = false -> zero_ok env ->
  Z.of_nat (length rules) < ORDER_MAX -> Forall (rule_ok own) rules ->
  exists hdl, policy_tables pick env (Some fh) ver def_action apply_dir rules = Done hdl /\
  forall env' fh' d k desc p,
    in_width 32 (rk_sip k) -> in_width 32 (rk_dip k) -> _dpi_is_chk_nbe p = false ->
    enforced env fh def_action apply_dir own d k ->
    skips_rules env' fh' def_action apply_dir d k = false ->
    dpi_is_ip4_internal env' (peer_side d k) = dpi_is_ip4_internal env (peer_side d k) ->
    dpi_policy_lookup_by_key pick env' (Some fh') (Some hdl) (rk_sip k) (rk_dip k) (rk_dport k)
      (rk_proto k) (rk_app k) d desc p =
    Done (set_ver ver (add_flags (int_or_ext (dpi_is_ip4_internal env (peer_side d k)))
            (reference_desc env d (external env d k) k def_action rules))).
Proof.
  intros Hpick Hown Hzero Hlen Hall.
  destruct (tables_lookup pick env fh own ver def_action apply_dir rules Hpick Hown Hzero Hlen Hall)
    as (hdl & Hh & _ & _ & Hl). by exists hdl.
Qed.

(** ** Examples *)

(** A workload at 10.0.0.5 in the subnet 10.0.0.0/8. *)
Definition ex_ip : Z := 167772165.
Definition ex_own (ip : Z) : bool := ip =? ex_ip.
Definition ex_env : dp_env := DPEnv (Some [(167772160, 4278190080)]) (Some []) (Some []) false false false false.

(** Deny 8.8.0.0-8.8.255.255 and 10.0.0.0-10.0.0.255, then allow 8.8.8.8 and
    10.0.0.9 on port 80. *)
Definition ex_rules : list dpi_policy_rule_t :=
  [ PolicyRule 1 134742016 134807551 ex_ip ex_ip 0 65535 6 DP_POLICY_ACTION_DENY true false "" [];
    PolicyRule 2 167772160 167772415 ex_ip ex_ip 0 65535 6 DP_POLICY_ACTION_DENY true false "" [];
    PolicyRule 3 134744072 134744072 ex_ip ex_ip 80 80 0 DP_POLICY_ACTION_ALLOW true false "" [];
    PolicyRule 4 167772169 167772169 ex_ip ex_ip 80 80 6 DP_POLICY_ACTION_ALLOW true false "" [] ].

Definition ex_external : dpi_rule_key_t := RuleKey 134744072 ex_ip 80 6 0.
Definition ex_peer : dpi_rule_key_t := RuleKey 167772169 ex_ip 80 6 0.

Definition ex_lookup (env : dp_env) (p : option pkt_view) (k : dpi_rule_key_t) (hdl : dpi_policy_hdl_t)
    : outcome (Z * Z) :=
  x ← dpi_policy_lookup_by_key head env (Some dpi_fqdn_hdl_init) (Some hdl) (rk_sip k) (rk_dip k) (rk_dport k)
        (rk_proto k) (rk_app k) true (PolicyDesc 0 0 0 0 0) p;
  Done (pd_id x, pd_action x).

Lemma dp_lookup_first_match_witness :
  exists hdl, policy_tables head ex_env (Some dpi_fqdn_hdl_init) 1 DP_POLICY_ACTION_DENY
                DP_POLICY_APPLY_EGRESS ex_rules = Done hdl /\
    ex_lookup ex_env None ex_external hdl = Done (1, DP_POLICY_ACTION_DENY).
Proof.
  destruct (dp_lookup_first_match head ex_env dpi_fqdn_hdl_init ex_own 1 DP_POLICY_ACTION_DENY
              DP_POLICY_APPLY_EGRESS ex_rules) as (hdl & Hh & Hl).
  - split; [|by intros []]. intros [|y l] x [= ->]. left.
  - reflexivity.
  - right. split; reflexivity.
  - reflexivity.
  - repeat constructor; simpl; intros; reflexivity || done.
  - exists hdl. split; [exact Hh|]. unfold ex_lookup.
    rewrite (Hl ex_env dpi_fqdn_hdl_init true ex_external (PolicyDesc 0 0 0 0 0) None);
      [reflexivity|split; reflexivity || done..|reflexivity| |reflexivity|reflexivity].
    split; [split; reflexivity|]. split; [reflexivity|]. split; reflexivity || done.
Defined.

(** The control thread reads the settings of packet thread 0, which are null
    before its first packet: then every address counts as internal, the
    overlap of the rules is not seen, and the tables let the packet pass that
    the first rule denies. *)
Theorem stale_settings_invert_order :
  let env0 := DPEnv None None None false false false false in
  (hdl ← policy_tables head env0 (Some dpi_fqdn_hdl_init) 1 DP_POLICY_ACTION_DENY DP_POLICY_APPLY_EGRESS ex_rules;
   ex_lookup ex_env None ex_external hdl) = Done (3, DP_POLICY_ACTION_ALLOW) /\
  first_match ex_env true true ex_external 0 ex_rules = Some (1, DP_POLICY_ACTION_DENY, 1).
Proof. split; vm_compute; reflexivity. Qed.

(** The rules are added without a packet, as if the endpoint did not enforce a
    namespace boundary; a packet of an endpoint that does gets the later
    rule. *)
Theorem nbe_inverts_order :
  (hdl ← policy_tables head ex_env (Some dpi_fqdn_hdl_init) 1 DP_POLICY_ACTION_DENY DP_POLICY_APPLY_EGRESS ex_rules;
   ex_lookup ex_env (Some (PktView (Some true) None)) ex_peer hdl) = Done (4, DP_POLICY_ACTION_ALLOW) /\
  first_match ex_env true false ex_peer 0 ex_rules = Some (2, DP_POLICY_ACTION_DENY, 2).
Proof. split; vm_compute; reflexivity. Qed.
