(* ===== verification/NvDPCfg.v ===== *)
(** * The life of the policies in the data plane

    A policy arrives in one or several messages ([dpi_policy_cfg]); its handle
    is shared by the endpoints it is for, counts them, and is freed with the
    last one.  Endpoints come and go ([dp_ctrl_add_mac], [dp_ctrl_del_mac]),
    and so do domain names.  The file shows that no sequence of these
    operations touches freed memory, frees a handle that is in use or leaks
    one, that an endpoint always has the version of its handle, and that a
    policy cut into messages fills the same tables as in one piece. *)

From Stdlib Require Import ZArith Lia.
From S2P Require Import Prelude NvBitmap NvFqdn NvPolicyTypes NvDPTable NvDPEquiv.
Local Open Scope Z_scope.

(** ** Operations *)

(** [alloc] is whether the allocation of a handle succeeds, [debug] whether the
    policy messages are printed: both may change from one operation to the
    next. *)
Inductive policy_op :=
  | OpCfg (alloc : bool) (cmd : Z) (p : dpi_policy_t) (flag : Z)
  | OpAddMac (mac : list Z) (oldmac : option (list Z))
  | OpDelMac (mac : list Z)
  | OpName (debug : bool) (op : fqdn_op).

Definition policy_init : policy_state := PolicyState ∅ 0 None 0 0 ∅ (Some dpi_fqdn_hdl_init).

Section steps.
Context (pick : list dpi_policy_desc_t -> option dpi_policy_desc_t).
Context (env : dp_env).
Context (order : list nat -> forall A, list A -> list A).

Definition policy_step (s : policy_state) (op : policy_op) : outcome policy_state :=
  match op with
  | OpCfg alloc cmd p flag => '(_, s) ← dpi_policy_cfg pick env alloc cmd p flag s; Done s
  | OpAddMac mac oldmac => Done (dp_ctrl_add_mac s mac oldmac)
  | OpDelMac mac => '(_, s) ← dp_ctrl_del_mac s mac; Done s
  | OpName debug op =>
      match ps_fqdn s with
      | Some fh => fh ← fqdn_step order debug fh op; Done (ps_set_fqdn (Some fh) s)
      | None => invalid_access
      end
  end.

(** What the callers see to: a name fits its buffer, a MAC address that
    replaces another one is new, and the number of endpoints fits 16 bits. *)
Definition op_ok (s : policy_state) (op : policy_op) : Prop :=
  match op with
  | OpCfg _ _ p _ => Forall (fun r => (String.length (pr_fqdn r) < MAX_FQDN_LEN)%nat) (pl_rule_list p)
  | OpAddMac mac oldmac =>
      (ps_eps s !! mac = None \/ default mac oldmac = mac) /\ Z.of_nat (size (ps_eps s)) < 65534
  | _ => True
  end.

End steps.

(** The settings of the data plane and the order of the walks may change from
    one operation to the next. *)
Inductive policy_reach (pick : list dpi_policy_desc_t -> option dpi_policy_desc_t) : policy_state -> Prop :=
  | reach_init : policy_reach pick policy_init
  | reach_step env (order : list nat -> forall A, list A -> list A) s op s' :
      (forall path A (l : list A), order path A l ≡ₚ l) ->
      policy_reach pick s -> op_ok s op -> policy_step pick env order s op = Done s' -> policy_reach pick s'.

(** ** The invariant *)

(** The number of endpoints with the handle at [a]. *)
Definition refs (m : gmap (list Z) io_ep_t) (a : nat) : nat :=
  size (filter (fun e => ep_policy_hdl e.2 = Some a) m).

Definition points (o : option nat) (a : nat) : nat := if decide (o = Some a) then 1%nat else 0%nat.

(** Handles and endpoints, while one more reference is held in [extra]: the
    counts are right, no pointer dangles, no handle is leaked. *)
Record held (extra : option nat) (s : policy_state) : Prop := {
  hl_fresh : forall a, is_Some (ps_hdls s !! a) -> (a < ps_fresh s)%nat;
  hl_count : forall a h, ps_hdls s !! a = Some h ->
    hd_ref_cnt h = Z.of_nat (refs (ps_eps s) a + points extra a);
  hl_ep : forall mac ep a, ps_eps s !! mac = Some ep -> ep_policy_hdl ep = Some a ->
    exists h, ps_hdls s !! a = Some h /\ ep_policy_ver ep = hd_ver h;
  hl_none : forall mac ep, ps_eps s !! mac = Some ep -> ep_policy_hdl ep = None -> ep_policy_ver ep = 0;
  hl_static : forall a, ps_hdl s = Some a -> is_Some (ps_hdls s !! a);
  hl_extra : forall a, extra = Some a -> is_Some (ps_hdls s !! a);
  hl_live : forall a, is_Some (ps_hdls s !! a) ->
    (0 < refs (ps_eps s) a)%nat \/ ps_hdl s = Some a \/ extra = Some a;
  hl_size : Z.of_nat (size (ps_eps s)) < 65535
}.

Record policy_wf (s : policy_state) : Prop := {
  pw_held : held None s;
  pw_static : forall a, ps_hdl s = Some a -> refs (ps_eps s) a = 0%nat;
  pw_fqdn : exists fh, ps_fqdn s = Some fh /\ fqdn_wf fh
}.

(** ** Counting *)

Lemma refs_insert_new m mac ep a :
  m !! mac = None -> refs (<[mac := ep]> m) a = (points (ep_policy_hdl ep) a + refs m a)%nat.
Proof.
  intros Hm. unfold refs, points. case_decide as Hd.
  - rewrite map_filter_insert_True by done. rewrite map_size_insert_None; [done|].
    apply map_lookup_filter_None. by left.
  - rewrite map_filter_insert_False by done. by rewrite delete_id.
Qed.

Lemma refs_delete m mac ep a :
  m !! mac = Some ep -> refs m a = (points (ep_policy_hdl ep) a + refs (delete mac m) a)%nat.
Proof.
  intros Hm. rewrite <-(insert_id m mac ep Hm) at 1. rewrite <-insert_delete_eq.
  by rewrite refs_insert_new by apply lookup_delete_eq.
Qed.

Lemma refs_update m mac ep ep' a :
  m !! mac = Some ep ->
  (refs (<[mac := ep']> m) a + points (ep_policy_hdl ep) a = refs m a + points (ep_policy_hdl ep') a)%nat.
Proof.
  intros Hm. rewrite <-insert_delete_eq, refs_insert_new by apply lookup_delete_eq.
  rewrite (refs_delete m mac ep a Hm). lia.
Qed.

Lemma refs_size m a : (refs m a <= size m)%nat.
Proof. apply map_subseteq_size, map_filter_subseteq. Qed.

Lemma refs_pos m mac ep a : m !! mac = Some ep -> ep_policy_hdl ep = Some a -> (0 < refs m a)%nat.
Proof. intros Hm He. rewrite (refs_delete m mac ep a Hm). unfold points. rewrite decide_True by done. lia. Qed.

Lemma points_None a : points None a = 0%nat.
Proof. unfold points. by rewrite decide_False. Qed.

(** ** Handles and endpoints *)

(** The handles of [m'] are handles of [m], up to the counts. *)
Definition sub_tables (m m' : gmap nat dpi_policy_hdl_t) : Prop :=
  forall a h', m' !! a = Some h' -> exists h, m !! a = Some h /\ hd_set_ref 0 h' = hd_set_ref 0 h.

Lemma sub_tables_refl m : sub_tables m m.
Proof. intros a h Ha. by exists h. Qed.

Lemma sub_tables_trans m1 m2 m3 : sub_tables m1 m2 -> sub_tables m2 m3 -> sub_tables m1 m3.
Proof.
  intros H12 H23 a h3 H3. destruct (H23 a h3 H3) as (h2 & H2 & ->). by apply H12.
Qed.

Lemma sub_tables_set_ref m a h n : m !! a = Some h -> sub_tables m (<[a := hd_set_ref n h]> m).
Proof.
  intros Ha b h'. rewrite lookup_insert_Some. intros [[-> <-]|[_ Hb]]; [by exists h|by exists h'].
Qed.

Lemma sub_tables_delete m a : sub_tables m (delete a m).
Proof. intros b h' [_ Hb]%lookup_delete_Some. by exists h'. Qed.

(** A change of the counts, or handles that are freed. *)
Definition only_hdls (s s' : policy_state) : Prop :=
  exists m, s' = ps_set_hdls m s /\ sub_tables (ps_hdls s) m.

Lemma hdl_deref_eq s a h : ps_hdls s !! a = Some h -> hdl_deref s a = Done h.
Proof. unfold hdl_deref. by intros ->. Qed.

Lemma points_self a : points (Some a) a = 1%nat.
Proof. unfold points. by rewrite decide_True. Qed.

Lemma points_ne o a : o <> Some a -> points o a = 0%nat.
Proof. intros H. unfold points. by rewrite decide_False. Qed.

(** A handle that only changes its count. *)
Lemma held_set_ref extra extra' s a h n :
  held extra s -> ps_hdls s !! a = Some h -> n = Z.of_nat (refs (ps_eps s) a + points extra' a) ->
  (forall b, b <> a -> extra = Some b <-> extra' = Some b) ->
  (extra = Some a -> extra' <> Some a -> (0 < refs (ps_eps s) a)%nat \/ ps_hdl s = Some a) ->
  held extra' (hdl_store a (hd_set_ref n h) s).
Proof.
  intros H Ha Hn Hother Hlive.
  assert (forall b, is_Some (<[a := hd_set_ref n h]> (ps_hdls s) !! b) <-> is_Some (ps_hdls s !! b)) as Hdom.
  { intros b. destruct (decide (b = a)) as [->|Hb]; [rewrite lookup_insert_eq, Ha|by rewrite lookup_insert_ne].
    split; by eexists. }
  constructor; cbn.
  - intros b Hb. by apply (hl_fresh _ _ H), Hdom.
  - intros b h'. destruct (decide (b = a)) as [->|Hb].
    + rewrite lookup_insert_eq. by intros [= <-].
    + rewrite lookup_insert_ne by done. intros Hh. rewrite (hl_count _ _ H b h' Hh). unfold points.
      pose proof (Hother b Hb). repeat case_decide; tauto.
  - intros mac ep b Hm He. destruct (hl_ep _ _ H mac ep b Hm He) as (h' & Hh & Hv).
    destruct (decide (b = a)) as [->|Hb]; [|rewrite lookup_insert_ne by done; by eauto].
    rewrite lookup_insert_eq. eexists. split; [done|]. cbn. congruence.
  - apply (hl_none _ _ H).
  - intros b Hb. by apply Hdom, (hl_static _ _ H).
  - intros b Hb. apply Hdom. destruct (decide (b = a)) as [->|Hne]; [by eexists|].
    by apply (hl_extra _ _ H), Hother.
  - intros b Hb%Hdom. destruct (hl_live _ _ H b Hb) as [?|[?|He]]; [by left|by right; left|].
    destruct (decide (b = a)) as [->|Hne]; [|by right; right; apply Hother].
    destruct (decide (extra' = Some a)) as [|Hn']; [by right; right|]. destruct (Hlive He Hn'); eauto.
  - apply H.
Qed.

(** A handle that nothing refers to is freed. *)
Lemma held_free extra s a static :
  held extra s -> refs (ps_eps s) a = 0%nat -> static <> Some a ->
  (forall b, b <> a -> static = Some b <-> ps_hdl s = Some b) ->
  (forall b, extra = Some b -> b = a) ->
  held None (ps_set_hdls (delete a (ps_hdls s)) (ps_set_hdl static s)).
Proof.
  intros H H0 Hst Hst' Hex.
  assert (forall b, b <> a -> delete a (ps_hdls s) !! b = ps_hdls s !! b) as Hdel
    by (intros b Hb; by rewrite lookup_delete_ne).
  constructor; cbn.
  - intros b [h' [_ Hh]%lookup_delete_Some]. apply (hl_fresh _ _ H). by eexists.
  - intros b h' [Hb Hh]%lookup_delete_Some. rewrite (hl_count _ _ H b h' Hh), points_None.
    rewrite points_ne; [done|]. intros He. by apply Hb, eq_sym, Hex.
  - intros mac ep b Hm He. destruct (decide (b = a)) as [->|Hb].
    { pose proof (refs_pos _ _ _ _ Hm He). lia. }
    rewrite Hdel by done. by apply (hl_ep _ _ H mac).
  - apply (hl_none _ _ H).
  - intros b Hb. rewrite Hdel by congruence. apply (hl_static _ _ H), Hst'; congruence.
  - done.
  - intros b [h' [Hb Hh]%lookup_delete_Some].
    destruct (hl_live _ _ H b) as [?|[?|He]]; [by eexists|by left|right; left; by apply Hst'|].
    by destruct Hb; rewrite (Hex b He).
  - apply H.
Qed.

(** Releasing the reference held in [extra]. *)
Lemma release_extra s a :
  held (Some a) s -> (ps_hdl s = Some a -> (0 < refs (ps_eps s) a)%nat) ->
  exists s', dpi_policy_hdl_destroy s a = Done s' /\ only_hdls s s' /\ held None s'.
Proof.
  intros H Hst. destruct (hl_extra _ _ H a eq_refl) as [h Ha].
  unfold dpi_policy_hdl_destroy. rewrite (hdl_deref_eq s a h Ha). cbn [mbind outcome_bind].
  pose proof (hl_count _ _ H a h Ha) as Hc. rewrite points_self in Hc.
  destruct (Z.ltb_spec 1 (hd_ref_cnt h)) as [Hlt|Hle]; (eexists; split; [done|]).
  - split; [eexists; split; [done|by apply sub_tables_set_ref]|]. eapply held_set_ref; [done|done|rewrite points_None; lia| |left; lia]. intros b Hb. split; congruence.
  - split; [eexists; split; [done|apply sub_tables_delete]|]. assert (refs (ps_eps s) a = 0%nat) as H0 by lia.
    apply (held_free (Some a) s a (ps_hdl s)); [done|done| |done|congruence].
    intros Hs. pose proof (Hst Hs). lia.
Qed.

(** The static handle of a policy that no endpoint has yet is freed. *)
Lemma release_static s a :
  held None s -> ps_hdl s = Some a -> refs (ps_eps s) a = 0%nat ->
  exists s', dpi_policy_hdl_destroy s a = Done s' /\ only_hdls s s' /\ held None (ps_set_hdl None s').
Proof.
  intros H Hs H0. destruct (hl_static _ _ H a Hs) as [h Ha].
  unfold dpi_policy_hdl_destroy. rewrite (hdl_deref_eq s a h Ha). cbn [mbind outcome_bind].
  pose proof (hl_count _ _ H a h Ha) as Hc. rewrite points_None, H0 in Hc.
  rewrite (proj2 (Z.ltb_ge _ _)) by lia. eexists. split; [done|].
  split; [eexists; split; [done|apply sub_tables_delete]|]. apply (held_free None s a None); [done..| |done]. intros b Hb. split; congruence.
Qed.

Lemma points_pos o a : (0 < points o a)%nat <-> o = Some a.
Proof. unfold points. case_decide; split; intros; try done; [lia|exfalso; lia]. Qed.

(** The endpoint of [mac] takes over the reference in [hdl] and gives up the
    one it had. *)
Lemma held_ep hdl s mac ep ver :
  held hdl s -> ps_eps s !! mac = Some ep ->
  (forall a h, hdl = Some a -> ps_hdls s !! a = Some h -> ver = hd_ver h) -> (hdl = None -> ver = 0) ->
  held (ep_policy_hdl ep) (ps_set_eps (<[mac := Ep hdl ver]> (ps_eps s)) s).
Proof.
  intros H Hm Hv Hv0. pose proof (refs_update (ps_eps s) mac ep (Ep hdl ver)) as Hr. cbn in Hr.
  constructor; cbn.
  - apply H.
  - intros a h Ha. rewrite (hl_count _ _ H a h Ha), <-Hr by done. done.
  - intros mac' ep' a. rewrite lookup_insert_Some. intros [[-> <-]|[_ Hm']]; cbn.
    + intros ->. destruct (hl_extra _ _ H a eq_refl) as [h Hh]. eauto.
    + apply (hl_ep _ _ H mac' ep' a Hm').
  - intros mac' ep'. rewrite lookup_insert_Some. intros [[-> <-]|[_ Hm']]; cbn; [done|].
    apply (hl_none _ _ H mac' ep' Hm').
  - apply H.
  - intros a Ha. destruct (hl_ep _ _ H mac ep a Hm Ha) as (h & Hh & _). by eexists.
  - intros a Ha. specialize (Hr a Hm). rewrite <-(points_pos (ep_policy_hdl ep)).
    destruct (hl_live _ _ H a Ha) as [?|[?|Hh%points_pos]]; [|by right; left|]; lia.
  - rewrite map_size_insert_Some by by eexists. apply H.
Qed.

Lemma held_remove s mac ep :
  held None s -> ps_eps s !! mac = Some ep ->
  held (ep_policy_hdl ep) (ps_set_eps (delete mac (ps_eps s)) s).
Proof.
  intros H Hm. pose proof (refs_delete (ps_eps s) mac ep) as Hr.
  constructor; cbn.
  - apply H.
  - intros a h Ha. rewrite (hl_count _ _ H a h Ha), points_None, (Hr a Hm). lia.
  - intros mac' ep' a [_ Hm']%lookup_delete_Some. by apply (hl_ep _ _ H mac').
  - intros mac' ep' [_ Hm']%lookup_delete_Some. by apply (hl_none _ _ H mac').
  - apply H.
  - intros a Ha. destruct (hl_ep _ _ H mac ep a Hm Ha) as (h & Hh & _). by eexists.
  - intros a Ha. specialize (Hr a Hm). rewrite <-(points_pos (ep_policy_hdl ep)).
    destruct (hl_live _ _ H a Ha) as [?|[?|?]]; [|by right; left|done]. lia.
  - rewrite map_size_delete_Some by by eexists. pose proof (hl_size _ _ H). lia.
Qed.

(** An endpoint without a policy joins. *)
Lemma held_new s mac :
  held None s -> ps_eps s !! mac = None -> Z.of_nat (size (ps_eps s)) < 65534 ->
  held None (ps_set_eps (<[mac := Ep None 0]> (ps_eps s)) s).
Proof.
  intros H Hm Hsz.
  assert (forall a, refs (<[mac := Ep None 0]> (ps_eps s)) a = refs (ps_eps s) a) as Hr
    by (intros a; rewrite refs_insert_new by done; cbn; by rewrite points_None).
  constructor; cbn; try apply H.
  - intros a h Ha. rewrite Hr. apply (hl_count _ _ H a h Ha).
  - intros mac' ep' a. rewrite lookup_insert_Some. intros [[-> <-]|[_ Hm']]; [done|]. by apply (hl_ep _ _ H mac').
  - intros mac' ep'. rewrite lookup_insert_Some. intros [[-> <-]|[_ Hm']]; [done|]. by apply (hl_none _ _ H mac').
  - intros a Ha. rewrite Hr. by apply (hl_live _ _ H).
  - rewrite map_size_insert_None by done. lia.
Qed.

(** An endpoint moves to another address with its handle. *)
Lemma held_move s mac old ep :
  held None s -> ps_eps s !! old = Some ep -> ps_eps s !! mac = None \/ old = mac ->
  held None (ps_set_eps (<[mac := ep]> (delete old (ps_eps s))) s).
Proof.
  intros H Hm Hnew.
  assert (delete old (ps_eps s) !! mac = None) as Hn.
  { destruct Hnew as [Hn| ->]; [by rewrite lookup_delete_None; right|apply lookup_delete_eq]. }
  assert (forall a, refs (<[mac := ep]> (delete old (ps_eps s))) a = refs (ps_eps s) a) as Hr
    by (intros a; by rewrite refs_insert_new, (refs_delete (ps_eps s) old ep a) by done).
  constructor; cbn; try apply H.
  - intros a h Ha. rewrite Hr. apply (hl_count _ _ H a h Ha).
  - intros mac' ep' a. rewrite lookup_insert_Some. intros [[-> <-]|[_ [_ Hm']%lookup_delete_Some]];
      [by apply (hl_ep _ _ H old)|by apply (hl_ep _ _ H mac')].
  - intros mac' ep'. rewrite lookup_insert_Some. intros [[-> <-]|[_ [_ Hm']%lookup_delete_Some]];
      [by apply (hl_none _ _ H old)|by apply (hl_none _ _ H mac')].
  - intros a Ha. rewrite Hr. by apply (hl_live _ _ H).
  - rewrite map_size_insert_None, map_size_delete_Some by (done || by eexists). pose proof (hl_size _ _ H).
    assert (0 < size (ps_eps s))%nat; [|lia]. apply Nat.neq_0_lt_0. intros He%map_size_empty_iff.
    by rewrite He in Hm.
Qed.

(** What [dpi_policy_update] does not change. *)
Definition same_frame (s s' : policy_state) : Prop :=
  ps_fresh s' = ps_fresh s /\ ps_hdl s' = ps_hdl s /\ ps_order s' = ps_order s /\
  ps_policy_ver s' = ps_policy_ver s /\ ps_fqdn s' = ps_fqdn s /\ sub_tables (ps_hdls s) (ps_hdls s').

Lemma same_frame_refl s : same_frame s s.
Proof. split_and!; (done || apply sub_tables_refl). Qed.

Lemma same_frame_trans s1 s2 s3 : same_frame s1 s2 -> same_frame s2 s3 -> same_frame s1 s3.
Proof.
  intros (? & ? & ? & ? & ? & ?) (? & ? & ? & ? & ? & ?).
  split_and!; try congruence. by eapply sub_tables_trans.
Qed.

Lemma only_hdls_frame s s' : only_hdls s s' -> same_frame s s' /\ ps_eps s' = ps_eps s.
Proof. by intros (m & -> & Hm). Qed.

(** The version an endpoint gets with a handle. *)
Definition ver_of (s : policy_state) (hdl : option nat) : Z :=
  match hdl ≫= fun a => ps_hdls s !! a with Some h => hd_ver h | None => 0 end.

Definition switch_eps (s : policy_state) (mac : list Z) : gmap (list Z) io_ep_t :=
  match ps_eps s !! mac with
  | Some _ => <[mac := Ep (ps_hdl s) (ver_of s (ps_hdl s))]> (ps_eps s)
  | None => ps_eps s
  end.

Lemma ref_fits s a h : held None s -> ps_hdls s !! a = Some h -> 0 <= hd_ref_cnt h < 65535.
Proof.
  intros H Ha. rewrite (hl_count _ _ H a h Ha), points_None.
  pose proof (refs_size (ps_eps s) a). pose proof (hl_size _ _ H). lia.
Qed.

Lemma take_ref s :
  held None s ->
  exists s1,
    match ps_hdl s with
    | Some a => h ← hdl_deref s a;
                Done (hd_ver h, hdl_store a (hd_set_ref (wrap 16 (hd_ref_cnt h + 1)) h) s)
    | None => Done (0, s)
    end = Done (ver_of s (ps_hdl s), s1) /\ held (ps_hdl s) s1 /\ only_hdls s s1 /\
    ver_of s1 (ps_hdl s) = ver_of s (ps_hdl s).
Proof.
  intros H. unfold ver_of. destruct (ps_hdl s) as [a|] eqn:Hs; simpl.
  - destruct (hl_static _ _ H a Hs) as [h Ha]. rewrite (hdl_deref_eq s a h Ha), Ha. cbn [mbind outcome_bind].
    pose proof (ref_fits s a h H Ha) as Hfit.
    eexists. split; [done|]. split_and!.
    + apply (held_set_ref None); [done|done| |by intros b Hb; split; congruence|done].
      rewrite wrap_small by (unfold in_width; lia). rewrite points_self.
      rewrite (hl_count _ _ H a h Ha), points_None. lia.
    + eexists. split; [done|]. by apply sub_tables_set_ref.
    + unfold hdl_store, ps_set_hdls. cbn. by rewrite lookup_insert_eq.
  - exists s. split_and!; [done..| |done]. exists (ps_hdls s). split; [by destruct s|apply sub_tables_refl].
Qed.

Lemma frame_ver s s' : same_frame s s' -> held None s' -> ver_of s' (ps_hdl s') = ver_of s (ps_hdl s).
Proof.
  intros (_ & Hs & _ & _ & _ & Hsub) H. unfold ver_of. rewrite <-Hs.
  destruct (ps_hdl s') as [a|] eqn:Ha; [|done]. destruct (hl_static _ _ H a Ha) as [h' Hh'].
  destruct (Hsub a h' Hh') as (h & Hh & Heq). simpl. rewrite Hh, Hh'. by injection Heq.
Qed.

Lemma dpi_policy_update_spec s mac :
  held None s ->
  exists ret s', dpi_policy_update s mac (ps_hdl s) = Done (ret, s') /\
    held None s' /\ same_frame s s' /\ ps_eps s' = switch_eps s mac.
Proof.
  intros H. unfold dpi_policy_update, switch_eps. destruct (ps_eps s !! mac) as [ep|] eqn:Hm.
  2:{ exists (-1), s. split_and!; try done. apply same_frame_refl. }
  destruct (take_ref s H) as (s1 & -> & H1 & Ho & Hv). cbn [mbind outcome_bind].
  destruct (only_hdls_frame s s1 Ho) as [Hf He].
  assert (held (ep_policy_hdl ep)
    (ps_set_eps (<[mac := Ep (ps_hdl s) (ver_of s (ps_hdl s))]> (ps_eps s1)) s1)) as H2.
  { apply held_ep; [done|by rewrite He|..].
    - intros a h Ha Hh. rewrite <-Hv. unfold ver_of. by rewrite Ha; simpl; rewrite Hh.
    - unfold ver_of. by intros ->. }
  set (s2 := ps_set_eps _ s1) in *. assert (same_frame s s2) as Hf2 by exact Hf.
  assert (ps_eps s2 = <[mac := Ep (ps_hdl s) (ver_of s (ps_hdl s))]> (ps_eps s)) as He2
    by (unfold s2; cbn; by rewrite He).
  destruct (ep_policy_hdl ep) as [a|] eqn:Hold; cbn [dp_policy_destroy].
  - destruct (release_extra s2 a H2) as (s3 & -> & Ho3 & H3).
    { destruct Hf2 as (_ & -> & _). intros Hs. rewrite He2. rewrite Hs.
      eapply (refs_pos _ mac); [apply lookup_insert_eq|done]. }
    destruct (only_hdls_frame s2 s3 Ho3) as [Hf3 He3]. exists 0, s3.
    split_and!; [done|done| |by rewrite He3]. by eapply same_frame_trans.
  - by exists 0, s2.
Qed.

(** The endpoints after the loop over the addresses of the message. *)
Lemma update_macs_spec macs s :
  held None s ->
  exists s', update_macs s macs (ps_hdl s) = Done s' /\ held None s' /\ same_frame s s' /\
    forall mac, ps_eps s' !! mac =
      if decide (mac ∈ macs /\ is_Some (ps_eps s !! mac))
      then Some (Ep (ps_hdl s) (ver_of s (ps_hdl s))) else ps_eps s !! mac.
Proof.
  revert s. induction macs as [|m macs IH]; intros s H; cbn [update_macs].
  - exists s. split_and!; [done..|apply same_frame_refl|]. intros mac.
    rewrite decide_False; [done|]. by intros [?%elem_of_nil _].
  - destruct (dpi_policy_update_spec s m H) as (ret & s1 & -> & H1 & Hf1 & He1). cbn [mbind outcome_bind].
    pose proof (frame_ver s s1 Hf1 H1) as Hv. destruct (IH s1 H1) as (s2 & Hs2 & H2 & Hf2 & He2).
    assert (ps_hdl s1 = ps_hdl s) as Hh by apply Hf1. rewrite Hh in Hs2. exists s2.
    split_and!; [done..|by eapply same_frame_trans|]. intros mac. rewrite He2, Hv, Hh, He1. clear He2.
    assert (forall x : list Z, x <> m -> x ∈ m :: macs <-> x ∈ macs) as Hcons by set_solver.
    unfold switch_eps. destruct (decide (mac = m)) as [->|Hne].
    + destruct (ps_eps s !! m) as [ep|] eqn:Hm.
      * rewrite lookup_insert_eq. rewrite (decide_True (P := m ∈ m :: macs /\ _)) by (split; [left|by eexists]).
        by destruct (decide _).
      * rewrite Hm. by rewrite !decide_False by (intros [_ [? ?]]; done).
    + assert (match ps_eps s !! m with
              | Some _ => <[m := Ep (ps_hdl s) (ver_of s (ps_hdl s))]> (ps_eps s)
              | None => ps_eps s end !! mac = ps_eps s !! mac) as ->
        by (destruct (ps_eps s !! m); [by rewrite lookup_insert_ne|done]).
      apply decide_ext. by rewrite Hcons.
Qed.

(** ** Filling the tables is safe *)

Section safe.
Context (pick : list dpi_policy_desc_t -> option dpi_policy_desc_t).
Context (env : dp_env) (fh : dpi_fqdn_hdl_t).
Context (Hwf : fqdn_wf fh).

Lemma fqdn_code_loop_safe hdl key ingress sv rl desc2 :
  (forall a, a ∈ rl -> is_Some (fh_heap fh !! a)) ->
  exists d, fqdn_code_loop pick fh hdl key ingress sv rl desc2 = Done d.
Proof.
  revert key desc2. induction rl as [|a rl IH]; intros key desc2 Hrl; cbn [fqdn_code_loop]; [by eexists|].
  destruct (deref_done fh a) as (r & -> & _); [by apply Hrl; left|]. cbn [mbind outcome_bind].
  assert (forall b, b ∈ rl -> is_Some (fh_heap fh !! b)) by (intros b Hb; apply Hrl; by right).
  destruct (fr_code r =? 0); by apply IH.
Qed.

Lemma match_rules_safe hdl key ingress internal p :
  exists d, match_rules pick (Some fh) hdl key ingress internal p = Done d.
Proof.
  unfold match_rules, policy_match_ipv4_fqdn_code.
  assert (forall ip rl a, fh_ipv4_map fh !! ip = Some rl -> a ∈ rl -> is_Some (fh_heap fh !! a)) as Hrl.
  { intros ip rl a Hl Ha. destruct (fi_sound _ (fi_links_ok _ (fq_inv _ Hwf)) ip a) as (r & Hr & _).
    - unfold rlist_of. by rewrite Hl.
    - by eexists. }
  destruct (has_flag (hd_flag hdl) POLICY_HDL_FLAG_FQDN); [|destruct internal; cbn; by eexists].
  set (ip := if ingress then _ else _). destruct (fh_ipv4_map fh !! ip) as [rl|] eqn:Hl.
  - destruct (fqdn_code_loop_safe hdl key ingress (p ≫= pv_session) rl None) as [d ->]; [intros a; by apply (Hrl ip)|].
    destruct internal; cbn; by eexists.
  - destruct internal; cbn; by eexists.
Qed.

Lemma lookup_safe hdl sip dip dport proto app ingress desc p :
  exists d, dpi_policy_lookup_by_key pick env (Some fh) hdl sip dip dport proto app ingress desc p = Done d.
Proof.
  unfold dpi_policy_lookup_by_key. destruct hdl as [hdl|]; [|by eexists].
  assert (forall o : outcome dpi_policy_desc_t, (exists d, o = Done d) ->
    exists d, (x ← o; Done (set_ver (hd_ver hdl) x)) = Done d) as Hbind by (intros ? [? ->]; by eexists).
  apply Hbind. destruct (en_disable_net_policy env); [by eexists|].
  destruct (IS_IN_LINKLOCAL sip || IS_IN_LINKLOCAL dip); [by eexists|].
  destruct ingress; unfold lookup_ingress, lookup_egress;
    repeat match goal with
           | |- exists d, (if ?b then _ else _) = Done d => destruct b
           | |- exists d, Done _ = Done d => by eexists
           end; apply match_rules_safe.
Qed.

(** The additions only fill the tables. *)
Definition fills (h h' : dpi_policy_hdl_t) : Prop :=
  hd_ref_cnt h' = hd_ref_cnt h /\ hd_ver h' = hd_ver h /\ hd_flag h' = hd_flag h /\
  hd_def_action h' = hd_def_action h /\ hd_apply_dir h' = hd_apply_dir h.

Lemma fills_refl h : fills h h.
Proof. by split_and!. Qed.

Lemma fills_trans h1 h2 h3 : fills h1 h2 -> fills h2 h3 -> fills h1 h3.
Proof. intros (? & ? & ? & ? & ?) (? & ? & ? & ? & ?). split_and!; congruence. Qed.

Lemma rule_add_one_safe hdl kl kh dir desc ex :
  exists ret ex' hdl', dpi_rule_add_one pick env (Some fh) hdl kl kh dir desc ex = Done (ret, ex', hdl') /\
    fills hdl hdl'.
Proof.
  unfold dpi_rule_add_one. destruct kh as [kh|].
  - unfold dpi_range_rule_add. destruct (get_range_key kl kh dir) as [key|]; [|by do 3 eexists; split].
    destruct (List.find _ _); by do 3 eexists; split.
  - edestruct lookup_safe as [d ->]. cbn [mbind outcome_bind].
    destruct (negb (pd_id d =? 0)); by do 3 eexists; split.
Qed.

Lemma add_app_rule_safe hdl kl kh a dir desc ex :
  exists ret ex' hdl' kl' kh', dpi_add_app_rule pick env (Some fh) hdl kl kh a dir desc ex =
    Done (ret, ex', hdl', kl', kh') /\ fills hdl hdl'.
Proof.
  unfold dpi_add_app_rule. edestruct rule_add_one_safe as (ret & ex' & hdl' & -> & Hf).
  by do 5 eexists; split.
Qed.

Lemma add_app_step_safe dir desc st a :
  exists st', add_app_step pick env (Some fh) dir desc st a = Done st' /\ fills (as_hdl st) (as_hdl st').
Proof.
  unfold add_app_step. edestruct add_app_rule_safe as (ret & ex' & hdl' & kl' & kh' & -> & Hf).
  by eexists; split.
Qed.

Lemma add_apps_safe apps dir desc st :
  exists st', foldM (add_app_step pick env (Some fh) dir desc) st apps = Done st' /\
    fills (as_hdl st) (as_hdl st').
Proof.
  revert st. induction apps as [|a apps IH]; intros st; cbn [foldM]; [exists st; split; [done|apply fills_refl]|].
  destruct (add_app_step_safe dir desc st a) as (st1 & -> & Hf1). cbn [mbind outcome_bind].
  destruct (IH st1) as (st' & Hst' & Hf'). exists st'. split; [exact Hst'|]. by eapply fills_trans.
Qed.

Lemma rule_add_safe hdl kl kh apps dir desc :
  exists ret hdl' kl' kh', dpi_rule_add pick env (Some fh) hdl kl kh apps dir desc = Done (ret, hdl', kl', kh') /\
    fills hdl hdl'.
Proof.
  unfold dpi_rule_add. edestruct rule_add_one_safe as (ret & ex & h1 & -> & Hf). cbn [mbind outcome_bind].
  assert (forall ret ex h kl kh, fills hdl h -> exists ret' h' kl' kh',
    match apps with
    | [] => Done (ret, h, kl, kh)
    | _ => st ← foldM (add_app_step pick env (Some fh) dir desc) (AddState ret ex h kl kh) apps;
           Done (as_ret st, as_hdl st, set_app 0 (as_key_l st), set_opt_app 0 (as_key_h st))
    end = Done (ret', h', kl', kh') /\ fills hdl h') as Happs.
  { intros r e h l u Hh. destruct apps as [|a apps']; [by do 4 eexists; split|].
    destruct (add_apps_safe (a :: apps') dir desc (AddState r e h l u)) as (st & -> & Hst).
    do 4 eexists. split; [done|]. by eapply fills_trans. }
  destruct (ret <? 0); [by do 4 eexists; split|].
  destruct ((ret =? 0) && (0 <? pd_id ex)); [destruct (negb (pd_action ex =? DP_POLICY_ACTION_CHECK_APP))|].
  - by do 4 eexists; split.
  - destruct (negb (pd_action desc =? DP_POLICY_ACTION_CHECK_APP)); [|by apply Happs].
    edestruct add_app_rule_safe as (r2 & e2 & h2 & l2 & u2 & -> & Hf2). cbn [mbind outcome_bind].
    apply Happs. by eapply fills_trans.
  - destruct (0 <? ret); [|by apply Happs].
    destruct ((0 <? pd_id desc) && negb (pd_action desc =? DP_POLICY_ACTION_CHECK_APP)); [|by apply Happs].
    edestruct add_app_rule_safe as (r2 & e2 & h2 & l2 & u2 & -> & Hf2). cbn [mbind outcome_bind].
    apply Happs. by eapply fills_trans.
Qed.

Lemma add_proto_safe dir apps desc st q :
  exists st', add_proto pick env (Some fh) dir apps desc st q = Done st' /\ fills st.1.1 st'.1.1.
Proof.
  destruct st as [[h k] u]. unfold add_proto. edestruct rule_add_safe as (ret & h1 & k1 & u1 & -> & Hf).
  by eexists; split.
Qed.

Lemma add_protos_safe dir apps desc ps st :
  exists st', foldM (add_proto pick env (Some fh) dir apps desc) st ps = Done st' /\ fills st.1.1 st'.1.1.
Proof.
  revert st. induction ps as [|q ps IH]; intros st; cbn [foldM]; [exists st; split; [done|apply fills_refl]|].
  destruct (add_proto_safe dir apps desc st q) as (st1 & -> & Hf1). cbn [mbind outcome_bind].
  destruct (IH st1) as (st' & Hst' & Hf'). exists st'. split; [exact Hst'|]. by eapply fills_trans.
Qed.

Lemma add_rule_safe hdl order r :
  exists hdl', add_rule pick env (Some fh) hdl order r = Done hdl' /\ fills hdl hdl'.
Proof.
  unfold add_rule. edestruct add_protos_safe as (st & -> & Hf). by exists st.1.1.
Qed.

Lemma add_default_policy_safe hdl :
  exists hdl', dpi_add_default_policy pick env (Some fh) hdl = Done hdl' /\ fills hdl hdl'.
Proof.
  unfold dpi_add_default_policy. edestruct rule_add_safe as (ret & h1 & k1 & u1 & -> & Hf). by eexists; split.
Qed.
End safe.

(** ** Messages *)

Lemma held_fill extra s a h h' :
  held extra s -> ps_hdls s !! a = Some h -> hd_ref_cnt h' = hd_ref_cnt h -> hd_ver h' = hd_ver h ->
  held extra (hdl_store a h' s).
Proof.
  intros H Ha Hr Hv.
  assert (forall b, is_Some (<[a := h']> (ps_hdls s) !! b) <-> is_Some (ps_hdls s !! b)) as Hdom.
  { intros b. destruct (decide (b = a)) as [->|Hb]; [rewrite lookup_insert_eq, Ha|by rewrite lookup_insert_ne].
    split; by eexists. }
  constructor; cbn; try apply H.
  - intros b Hb. by apply (hl_fresh _ _ H), Hdom.
  - intros b x. rewrite lookup_insert_Some. intros [[<- <-]|[_ Hb]]; [|by apply (hl_count _ _ H)].
    rewrite Hr. by apply (hl_count _ _ H).
  - intros mac ep b Hm He. destruct (hl_ep _ _ H mac ep b Hm He) as (x & Hx & Hxv).
    destruct (decide (b = a)) as [->|Hb]; [|rewrite lookup_insert_ne by done; by eauto].
    rewrite lookup_insert_eq. exists h'. split; [done|]. congruence.
  - intros b Hb. by apply Hdom, (hl_static _ _ H).
  - intros b Hb. by apply Hdom, (hl_extra _ _ H).
  - intros b Hb%Hdom. by apply (hl_live _ _ H).
Qed.

Lemma wf_fill s a h h' :
  policy_wf s -> ps_hdls s !! a = Some h -> hd_ref_cnt h' = hd_ref_cnt h -> hd_ver h' = hd_ver h ->
  policy_wf (hdl_store a h' s).
Proof. intros [Hh Hs Hf] Ha Hr Hv. constructor; [by eapply held_fill|done..]. Qed.

Lemma wf_fqdn s fh : policy_wf s -> fqdn_wf fh -> policy_wf (ps_set_fqdn (Some fh) s).
Proof.
  intros [Hh Hs Hf] Hw. constructor; [|done|by exists fh].
  destruct Hh. by constructor.
Qed.

Lemma wf_order s o : policy_wf s -> policy_wf (ps_set_order o s).
Proof. intros [Hh Hs Hf]. constructor; [|done..]. destruct Hh. by constructor. Qed.

Lemma static_hdl s a : policy_wf s -> ps_hdl s = Some a -> exists h, ps_hdls s !! a = Some h.
Proof. intros [Hh _ _] Ha. by apply (hl_static _ _ Hh). Qed.

(** A message in progress: the state is well formed and [a] is the handle. *)
Definition filling (a : nat) (s0 s : policy_state) : Prop :=
  policy_wf s /\ ps_hdl s = Some a /\ ps_eps s = ps_eps s0.

Section cfg.
Context (pick : list dpi_policy_desc_t -> option dpi_policy_desc_t).
Context (env : dp_env).

Lemma add_rule_filling a s0 s r :
  filling a s0 s ->
  exists s', (h ← hdl_deref s a;
              h ← add_rule pick env (ps_fqdn s) h (wrap 32 (ps_order s + 1)) r;
              Done (ps_set_order (wrap 32 (ps_order s + 1)) (hdl_store a h s))) = Done s' /\ filling a s0 s'.
Proof.
  intros (Hwf & Hs & He). destruct (static_hdl s a Hwf Hs) as [h Ha].
  destruct (pw_fqdn s Hwf) as (fh & Hfh & Hfw). rewrite (hdl_deref_eq s a h Ha), Hfh. cbn [mbind outcome_bind].
  destruct (add_rule_safe pick env fh Hfw h (wrap 32 (ps_order s + 1)) r) as (h' & -> & Hf).
  eexists. split; [done|]. split; [|done]. apply wf_order. by eapply wf_fill; [done..|apply Hf|apply Hf].
Qed.

Lemma cfg_rule_filling a s0 s r :
  filling a s0 s -> (String.length (pr_fqdn r) < MAX_FQDN_LEN)%nat ->
  exists s', cfg_rule pick env a s r = Done s' /\ filling a s0 s'.
Proof.
  intros Hf Hlen. unfold cfg_rule. destruct (bool_decide (pr_fqdn r = "")); [by apply add_rule_filling|].
  destruct Hf as (Hwf & Hs & He). destruct (pw_fqdn s Hwf) as (fh & Hfh & Hfw). unfold resolve_fqdn. rewrite Hfh.
  destruct (config_fqdn_ipv4_mapping_spec fh (pr_fqdn r) (if pr_ingress r then pr_sip r else pr_dip r) (pr_vh r) Hfw Hlen)
    as (code & fh' & -> & _ & Hfw' & _). cbn [mbind outcome_bind].
  assert (policy_wf (ps_set_fqdn (Some fh') s)) as Hwf' by by apply wf_fqdn.
  destruct (code =? no_code); cbn [mbind outcome_bind]; [by eexists|].
  destruct (static_hdl _ a Hwf' Hs) as [h Ha]. rewrite (hdl_deref_eq _ a h Ha). cbn [mbind outcome_bind].
  apply add_rule_filling. split; [|done]. by eapply wf_fill.
Qed.

Lemma cfg_rules_filling a s0 s rules :
  filling a s0 s -> Forall (fun r => (String.length (pr_fqdn r) < MAX_FQDN_LEN)%nat) rules ->
  exists s', foldM (cfg_rule pick env a) s rules = Done s' /\ filling a s0 s'.
Proof.
  revert s. induction rules as [|r rules IH]; intros s Hf Hall; cbn [foldM]; [by eexists|].
  apply Forall_cons in Hall as [Hr Hall]. destruct (cfg_rule_filling a s0 s r Hf Hr) as (s1 & -> & Hf1).
  cbn [mbind outcome_bind]. by apply IH.
Qed.

Lemma default_policy_filling (end_ : bool) a s0 s :
  filling a s0 s ->
  exists s', (if end_ && negb (en_enable_icmp_policy env) then
                h ← hdl_deref s a;
                h ← dpi_add_default_policy pick env (ps_fqdn s) h;
                Done (hdl_store a h s)
              else Done s) = Done s' /\ filling a s0 s'.
Proof.
  intros Hf. destruct (end_ && negb (en_enable_icmp_policy env)); [|by eexists].
  destruct Hf as (Hwf & Hs & He). destruct (static_hdl s a Hwf Hs) as [h Ha].
  destruct (pw_fqdn s Hwf) as (fh & Hfh & Hfw). rewrite (hdl_deref_eq s a h Ha), Hfh. cbn [mbind outcome_bind].
  destruct (add_default_policy_safe pick env fh Hfw h) as (h' & -> & Hf).
  eexists. split; [done|]. split; [|done]. by eapply wf_fill; [done..|apply Hf|apply Hf].
Qed.

Lemma drop_static s :
  policy_wf s ->
  exists s', cfg_start true s = Done s' /\ policy_wf s' /\ ps_hdl s' = None /\ ps_eps s' = ps_eps s /\
    same_frame (ps_set_hdl None s) s'.
Proof.
  intros Hwf. unfold cfg_start. destruct (ps_hdl s) as [a|] eqn:Hs; cbn [dp_policy_destroy].
  - destruct (release_static s a (pw_held s Hwf) Hs (pw_static s Hwf a Hs)) as (s' & -> & (m & -> & Hm) & H').
    eexists. split; [done|]. split_and!; try done. constructor; [exact H'|done|apply Hwf].
  - eexists. split; [done|]. split_and!; [|done..|apply same_frame_refl]. destruct s; cbn in *. by subst.
Qed.

Lemma new_hdl_wf p s :
  policy_wf s -> ps_hdl s = None -> filling (ps_fresh s) s (new_hdl p s).2.
Proof.
  intros [H Hst Hf] Hs. split; [|done].
  assert (ps_hdls s !! ps_fresh s = None) as Hnew.
  { apply eq_None_not_Some. intros Hi%(hl_fresh _ _ H). lia. }
  assert (refs (ps_eps s) (ps_fresh s) = 0%nat) as H0.
  { apply map_size_empty_iff, map_empty. intros mac. apply map_lookup_filter_None. right.
    intros ep Hm He. destruct (hl_ep _ _ H mac ep _ Hm He) as (h & Hh & _). congruence. }
  constructor; cbn.
  - constructor; cbn; try apply H.
    + intros a. rewrite lookup_insert_is_Some. intros [<-|[_ Ha]]; [lia|]. apply (hl_fresh _ _ H) in Ha. lia.
    + intros a h. rewrite lookup_insert_Some. intros [[<- <-]|[_ Ha]]; [by rewrite H0|by apply (hl_count _ _ H)].
    + intros mac ep a Hm He. destruct (hl_ep _ _ H mac ep a Hm He) as (h & Hh & Hv). exists h.
      split; [|done]. rewrite lookup_insert_ne by congruence. done.
    + intros a [= <-]. rewrite lookup_insert_eq. by eexists.
    + done.
    + intros a. rewrite lookup_insert_is_Some. intros [<-|[_ Ha]]; [by right; left|].
      destruct (hl_live _ _ H a Ha) as [?|[?|?]]; [by left|congruence|done].
  - intros a [= <-]. done.
  - done.
Qed.

(** The endpoints get the handle, which is freed when there are none. *)
Lemma cfg_end_spec p s :
  policy_wf s ->
  exists s', cfg_end p s = Done (0, s') /\ policy_wf s' /\ ps_hdl s' = None /\
    ps_fqdn s' = ps_fqdn s /\ sub_tables (ps_hdls s) (ps_hdls s') /\
    forall mac, ps_eps s' !! mac =
      if decide (mac ∈ pl_mac_list p /\ is_Some (ps_eps s !! mac))
      then Some (Ep (ps_hdl s) (ver_of s (ps_hdl s))) else ps_eps s !! mac.
Proof.
  intros Hwf. unfold cfg_end. destruct (update_macs_spec (pl_mac_list p) s (pw_held s Hwf)) as (s1 & -> & H1 & Hf1 & He1).
  destruct Hf1 as (_ & Hs1 & _ & _ & Hq1 & Hsub1). cbn [mbind outcome_bind].
  destruct (pw_fqdn s Hwf) as (fh & Hfh & Hfw).
  destruct (ps_hdl s1) as [a|] eqn:Ha.
  - destruct (hl_static _ _ H1 a Ha) as [h Hh]. rewrite (hdl_deref_eq s1 a h Hh). cbn [mbind outcome_bind].
    pose proof (hl_count _ _ H1 a h Hh) as Hc. rewrite points_None in Hc.
    destruct (Z.eqb_spec (hd_ref_cnt h) 0) as [H0|Hn0].
    + destruct (release_static s1 a H1 Ha) as (s2 & -> & (m & -> & Hm) & H2); [lia|].
      eexists. split; [done|]. split_and!; try done.
      * constructor; [exact H2|done|]. cbn. rewrite Hq1. by exists fh.
      * by eapply sub_tables_trans.
    + eexists. split; [done|]. split_and!; try done.
      constructor; [|done|cbn; rewrite Hq1; by exists fh].
      destruct H1. constructor; try done. intros b Hb. destruct (hl_live0 b Hb) as [?|[[= <-]%(eq_trans (eq_sym Ha))|?]];
        [by left|left; cbn; lia|done].
  - eexists. split; [done|]. split_and!; try done.
    constructor; [|done|cbn; rewrite Hq1; by exists fh].
    destruct H1. constructor; try done. intros b Hb. destruct (hl_live0 b Hb) as [?|[?|?]]; [by left|congruence|done].
Qed.

Lemma cfg_fill_wf (start end_ : bool) cmd p s :
  policy_wf s -> (if start then ps_hdl s = None else ps_hdl s <> None) ->
  Forall (fun r => (String.length (pr_fqdn r) < MAX_FQDN_LEN)%nat) (pl_rule_list p) ->
  exists s', cfg_fill pick env true start end_ cmd p s = Done s' /\ policy_wf s'.
Proof.
  intros Hwf Hs Hnames. unfold cfg_fill. destruct (negb (cmd =? CFG_DELETE)).
  - assert (exists a s2, (if start then Done (new_hdl p s).2 else Done s) = Done s2 /\ filling a s s2)
      as (a & s2 & -> & Hf).
    { destruct start; [do 2 eexists; split; [done|by apply new_hdl_wf]|].
      destruct (ps_hdl s) as [a|] eqn:Ha; [|done]. by exists a, s. }
    cbn [mbind outcome_bind]. rewrite (proj1 (proj2 Hf)).
    destruct (cfg_rules_filling a s s2 _ Hf Hnames) as (s3 & -> & Hf3). cbn [mbind outcome_bind].
    destruct (default_policy_filling end_ a s s3 Hf3) as (s4 & -> & Hf4).
    exists s4. split; [done|apply Hf4].
  - destruct (drop_static s Hwf) as (s2 & Hd & Hw2 & _). unfold cfg_start in Hd.
    destruct (ps_hdl s) as [a|]; [|by exists s].
    cbn [dp_policy_destroy] in Hd. destruct (dpi_policy_hdl_destroy s a) as [s3|]; [|done].
    injection Hd as Hd. subst s2. eexists. split; [done|]. by apply wf_order.
Qed.

(** A message without its beginning is refused; any other one is carried out. *)
Lemma dpi_policy_cfg_wf cmd p flag s :
  policy_wf s -> Forall (fun r => (String.length (pr_fqdn r) < MAX_FQDN_LEN)%nat) (pl_rule_list p) ->
  exists ret s', dpi_policy_cfg pick env true cmd p flag s = Done (ret, s') /\ policy_wf s' /\
    (ret = -1 -> has_flag flag MSG_START = false /\ ps_hdl s = None /\ s' = s).
Proof.
  intros Hwf Hnames. unfold dpi_policy_cfg.
  destruct (negb (has_flag flag MSG_START) && bool_decide (ps_hdl s = None)) eqn:Hmiss.
  { apply andb_true_iff in Hmiss as [Hst%negb_true_iff Hn%bool_decide_eq_true]. by exists (-1), s. }
  assert (exists s1, cfg_start (has_flag flag MSG_START) s = Done s1 /\ policy_wf s1 /\
                     (if has_flag flag MSG_START then ps_hdl s1 = None else ps_hdl s1 <> None))
    as (s1 & -> & Hwf1 & Hs1).
  { destruct (has_flag flag MSG_START).
    - destruct (drop_static s Hwf) as (s1 & -> & ? & ? & _). by exists s1.
    - exists s. split_and!; [done..|]. by apply bool_decide_eq_false in Hmiss. }
  cbn [mbind outcome_bind].
  destruct (cfg_fill_wf (has_flag flag MSG_START) (has_flag flag MSG_END) cmd p s1 Hwf1 Hs1 Hnames)
    as (s2 & -> & Hwf2).
  cbn [mbind outcome_bind]. destruct (has_flag flag MSG_END); cbn [negb]; [|by exists 0, s2].
  destruct (cfg_end_spec p s2 Hwf2) as (s3 & -> & Hw3 & _). by exists 0, s3.
Qed.
End cfg.

Lemma dp_ctrl_del_mac_wf s mac :
  policy_wf s -> exists ret s', dp_ctrl_del_mac s mac = Done (ret, s') /\ policy_wf s' /\
    ps_eps s' = delete mac (ps_eps s).
Proof.
  intros Hwf. unfold dp_ctrl_del_mac. destruct (ps_eps s !! mac) as [ep|] eqn:Hm.
  2:{ exists (-1), s. by rewrite delete_id. }
  pose proof (held_remove s mac ep (pw_held s Hwf) Hm) as H1.
  assert (forall a, ps_hdl s = Some a -> refs (delete mac (ps_eps s)) a = 0%nat) as H0.
  { intros a Ha. pose proof (pw_static s Hwf a Ha) as H0. rewrite (refs_delete _ _ _ a Hm) in H0. lia. }
  destruct (ep_policy_hdl ep) as [a|] eqn:He; cbn [dp_policy_destroy].
  - destruct (release_extra _ a H1) as (s2 & -> & (m & -> & _) & H2).
    { cbn. intros Hs. pose proof (pw_static s Hwf a Hs). pose proof (refs_pos _ _ _ _ Hm He). lia. }
    eexists _, _. split; [done|]. split; [|done]. constructor; [exact H2|exact H0|apply Hwf].
  - eexists _, _. split; [done|]. split; [|done]. constructor; [exact H1|exact H0|apply Hwf].
Qed.

Lemma dp_ctrl_add_mac_wf s mac oldmac :
  policy_wf s -> op_ok s (OpAddMac mac oldmac) -> policy_wf (dp_ctrl_add_mac s mac oldmac).
Proof.
  intros Hwf [Hnew Hsz]. unfold dp_ctrl_add_mac.
  destruct (ps_eps s !! default mac oldmac) as [ep|] eqn:Hm.
  - constructor; [by apply held_move; [apply Hwf|..]| |apply Hwf].
    cbn. intros a Ha. pose proof (pw_static s Hwf a Ha) as H0. rewrite (refs_delete _ _ _ a Hm) in H0.
    rewrite refs_insert_new; [done|].
    destruct Hnew as [Hn|Heq]; [by rewrite lookup_delete_None; right|rewrite Heq; apply lookup_delete_eq].
  - assert (ps_eps s !! mac = None) as Hn by (destruct Hnew as [|Heq]; congruence).
    constructor; [by apply held_new; [apply Hwf|..]| |apply Hwf].
    cbn. intros a Ha. rewrite refs_insert_new by done. cbn. rewrite points_None. by apply (pw_static s Hwf).
Qed.

(** ** Every sequence of operations *)

Lemma policy_init_wf : policy_wf policy_init.
Proof.
  constructor; [|done|].
  - constructor; try (intros; done); cbn.
    + by intros a [].
    + by intros a [].
  - eexists. split; [done|]. apply fqdn_init_wf.
Qed.

(** The two operations that may fault: the first message of a policy when its
    handle is not allocated, and the deletion of names with the messages
    printed. *)
Definition may_fault (op : policy_op) : bool :=
  match op with
  | OpCfg alloc cmd _ flag => negb alloc && has_flag flag MSG_START && negb (cmd =? CFG_DELETE)
  | OpName debug op => debug && is_delete op
  | _ => false
  end.

(** Only the first message of a policy allocates its handle. *)
Lemma cfg_alloc pick env cmd p flag s :
  policy_wf s ->
  dpi_policy_cfg pick env false cmd p flag s =
    if has_flag flag MSG_START && negb (cmd =? CFG_DELETE) then invalid_access
    else dpi_policy_cfg pick env true cmd p flag s.
Proof.
  intros Hwf. unfold dpi_policy_cfg. destruct (has_flag flag MSG_START); [|done]. cbn [negb andb].
  destruct (drop_static s Hwf) as (s1 & -> & _). cbn [mbind outcome_bind]. unfold cfg_fill.
  by destruct (negb (cmd =? CFG_DELETE)).
Qed.

Lemma policy_step_wf pick env order s op :
  (forall path A (l : list A), order path A l ≡ₚ l) -> policy_wf s -> op_ok s op ->
  (exists s', policy_step pick env order s op = Done s' /\ policy_wf s') \/
  (may_fault op = true /\ policy_step pick env order s op = invalid_access).
Proof.
  intros Hord Hwf Hok. destruct op as [alloc cmd p flag|mac oldmac|mac|debug op]; cbn [policy_step may_fault].
  - destruct (dpi_policy_cfg_wf pick env cmd p flag s Hwf Hok) as (ret & s' & Hd & Hw & _).
    destruct alloc; [left; rewrite Hd; by exists s'|]. rewrite (cfg_alloc _ _ _ _ _ _ Hwf). cbn [negb].
    destruct (_ && _); [by right|]. left. rewrite Hd. by exists s'.
  - left. eexists. split; [done|]. by apply dp_ctrl_add_mac_wf.
  - left. destruct (dp_ctrl_del_mac_wf s mac Hwf) as (ret & s' & -> & Hw & _). by exists s'.
  - destruct (pw_fqdn s Hwf) as (fh & -> & Hfw).
    destruct (fqdn_step_wf order fh op Hord Hfw) as (fh' & Hs & Hfw').
    assert (Hdone : exists s', (fh ← fqdn_step order false fh op; Done (ps_set_fqdn (Some fh) s)) = Done s' /\ policy_wf s').
    { rewrite Hs. eexists. split; [done|]. by apply wf_fqdn. }
    destruct debug; [|by left]. destruct (fqdn_step_debug order fh op) as [-> |[-> ->]]; [by left|by right].
Qed.

Lemma policy_reach_wf pick s : policy_reach pick s -> policy_wf s.
Proof.
  intros Hr. induction Hr as [|env order s op s' Hord _ Hwf Hok Hstep]; [apply policy_init_wf|].
  destruct (policy_step_wf pick env order s op Hord Hwf Hok) as [(s1 & Hs1 & Hw1)|[_ Hs1]];
    [congruence|by rewrite Hs1 in Hstep].
Qed.

(** C15: In every state that the messages, the endpoints and the domain names
    can lead to, under settings and orders of the hash tables that may change
    from one operation to the next, the counts of the handles are right, no pointer dangles and
    no handle is leaked; and every further operation is carried out without
    touching freed memory, with two exceptions: the first message of a policy
    that is not a deletion writes through a null pointer when the handle
    cannot be allocated, and a deletion of domain names may read a freed
    record when the policy messages are printed.  The operations are those
    whose domain names fit their buffer, that replace a MAC address only by
    one that is new, and that add an endpoint only while there are fewer than
    65534; allocations other than that of the handle succeed. *)
Theorem policy_reach_safe pick env order s :
  (forall path A (l : list A), order path A l ≡ₚ l) -> policy_reach pick s ->
  policy_wf s /\
  forall op, op_ok s op ->
    (exists s', policy_step pick env order s op = Done s' /\ policy_wf s') \/
    (may_fault op = true /\ policy_step pick env order s op = invalid_access).
Proof.
  intros Hord Hr. pose proof (policy_reach_wf pick s Hr) as Hwf.
  split; [done|]. intros op Hok. by apply policy_step_wf.
Qed.

(** ** A policy in several messages *)

Definition with_rules (p : dpi_policy_t) (rules : list dpi_policy_rule_t) : dpi_policy_t :=
  Policy (pl_mac_list p) (pl_def_action p) (pl_apply_dir p) rules.

(** The messages for the parts of a policy: the first one and the last one
    are flagged. *)
Fixpoint policy_msgs (start : bool) (p : dpi_policy_t) (parts : list (list dpi_policy_rule_t))
    : list (dpi_policy_t * Z) :=
  match parts with
  | [] => []
  | rules :: parts =>
      (with_rules p rules,
       Z.lor (if start then MSG_START else 0) (if bool_decide (parts = []) then MSG_END else 0))
      :: policy_msgs false p parts
  end.

Section delivery.
Context (pick : list dpi_policy_desc_t -> option dpi_policy_desc_t).
Context (env : dp_env).

Definition cfg_msgs (cmd : Z) (s : policy_state) (msgs : list (dpi_policy_t * Z)) : outcome policy_state :=
  foldM (fun s m => '(_, s) ← dpi_policy_cfg pick env true cmd m.1 m.2 s; Done s) s msgs.

(** The handle at [a] holds the rules [sent] of the policy [p]; [s0] is the
    state before the handle was made. *)
Record progress (p : dpi_policy_t) (s0 : policy_state) (a : nat) (sent : list dpi_policy_rule_t)
    (s : policy_state) : Prop := {
  pg_filling : filling a s0 s;
  pg_hdl : exists h, ps_hdls s !! a = Some h /\
    add_rules pick env (ps_fqdn s0)
      (empty_hdl (get_new_policy_ver (ps_policy_ver s0)) (pl_def_action p) (pl_apply_dir p)) 0 sent = Done h;
  pg_order : ps_order s = Z.of_nat (length sent);
  pg_fqdn : ps_fqdn s = ps_fqdn s0;
  pg_rest : forall b, b <> a -> ps_hdls s !! b = ps_hdls s0 !! b
}.

Lemma add_rules_snoc fqdn h n l r :
  add_rules pick env fqdn h n (l ++ [r]) =
  (h ← add_rules pick env fqdn h n l; add_rule pick env fqdn h (n + Z.of_nat (length l) + 1) r).
Proof.
  revert h n. induction l as [|x l IH]; intros h n; cbn [app add_rules length].
  - rewrite Z.add_0_r. cbn [mbind outcome_bind]. by destruct (add_rule _ _ _ _ _ _).
  - destruct (add_rule pick env fqdn h (n + 1) x) as [h1|]; cbn [mbind outcome_bind]; [|done].
    rewrite IH. replace (n + 1 + Z.of_nat (length l) + 1) with (n + Z.of_nat (S (length l)) + 1) by lia. done.
Qed.

Lemma progress_new p s0 :
  policy_wf s0 -> ps_hdl s0 = None -> progress p s0 (ps_fresh s0) [] (new_hdl p s0).2.
Proof.
  intros Hwf Hs. constructor; [by apply new_hdl_wf| |done..|].
  - eexists. split; [apply lookup_insert_eq|done].
  - intros b Hb. cbn. by rewrite lookup_insert_ne.
Qed.

Lemma progress_rule p s0 a sent s r :
  progress p s0 a sent s -> pr_fqdn r = ""%string -> Z.of_nat (length sent) + 1 < 4294967296 ->
  exists s', cfg_rule pick env a s r = Done s' /\ progress p s0 a (sent ++ [r]) s'.
Proof.
  intros Hp Hr Hlen. pose proof (pg_filling _ _ _ _ _ Hp) as (Hwf & Hs & He).
  destruct (pg_hdl _ _ _ _ _ Hp) as (h & Ha & Hadd). destruct (pw_fqdn s Hwf) as (fh & Hfh & Hfw).
  unfold cfg_rule. rewrite bool_decide_eq_true_2 by done. cbn [mbind outcome_bind].
  rewrite (hdl_deref_eq s a h Ha), (pg_order _ _ _ _ _ Hp), Hfh. cbn [mbind outcome_bind].
  rewrite wrap_small by (unfold in_width; lia).
  destruct (add_rule_safe pick env fh Hfw h (Z.of_nat (length sent) + 1) r) as (h' & Hh' & Hf).
  rewrite Hh'. eexists. split; [done|]. constructor.
  - split; [|done]. apply wf_order. by eapply wf_fill; [done..|apply Hf|apply Hf].
  - exists h'. split; [apply lookup_insert_eq|]. rewrite add_rules_snoc, Hadd. cbn [mbind outcome_bind].
    by rewrite <-(pg_fqdn _ _ _ _ _ Hp), Hfh.
  - cbn. rewrite length_app. cbn. lia.
  - apply (pg_fqdn _ _ _ _ _ Hp).
  - intros b Hb. cbn. rewrite lookup_insert_ne by done. by apply (pg_rest _ _ _ _ _ Hp).
Qed.

Lemma progress_rules p s0 a sent s rules :
  progress p s0 a sent s -> Forall (fun r => pr_fqdn r = ""%string) rules ->
  Z.of_nat (length sent + length rules) < 4294967296 ->
  exists s', foldM (cfg_rule pick env a) s rules = Done s' /\ progress p s0 a (sent ++ rules) s'.
Proof.
  revert sent s. induction rules as [|r rules IH]; intros sent s Hp Hall Hlen; cbn [foldM].
  - rewrite app_nil_r. by eexists.
  - apply Forall_cons in Hall as [Hr Hall]. cbn in Hlen.
    destruct (progress_rule p s0 a sent s r Hp Hr) as (s1 & -> & Hp1); [lia|]. cbn [mbind outcome_bind].
    destruct (IH (sent ++ [r]) s1 Hp1 Hall) as (s2 & Hs2 & Hp2); [rewrite length_app; cbn; lia|].
    exists s2. split; [exact Hs2|]. by rewrite <-app_assoc in Hp2.
Qed.

(** The state after the last message: the addresses of the policy have one
    handle with the tables [h], the others keep theirs. *)
Definition delivered (p : dpi_policy_t) (s0 s : policy_state) (h : dpi_policy_hdl_t) : Prop :=
  policy_wf s /\ ps_hdl s = None /\ ps_fqdn s = ps_fqdn s0 /\
  exists a, forall mac ep, ps_eps s0 !! mac = Some ep ->
    if decide (mac ∈ pl_mac_list p) then
      ps_eps s !! mac = Some (Ep (Some a) (hd_ver h)) /\
      exists h', ps_hdls s !! a = Some h' /\ hd_set_ref 0 h' = h
    else
      ps_eps s !! mac = Some ep /\
      forall b h', ep_policy_hdl ep = Some b -> ps_hdls s !! b = Some h' ->
        exists h0, ps_hdls s0 !! b = Some h0 /\ hd_set_ref 0 h' = hd_set_ref 0 h0.

(** The last step before the endpoints: the handle is complete. *)
Lemma progress_tables p s0 a sent s :
  progress p s0 a sent s ->
  exists s' h,
    (if negb (en_enable_icmp_policy env) then
       h ← hdl_deref s a; h ← dpi_add_default_policy pick env (ps_fqdn s) h; Done (hdl_store a h s)
     else Done s) = Done s' /\
    policy_tables pick env (ps_fqdn s0) (get_new_policy_ver (ps_policy_ver s0)) (pl_def_action p)
      (pl_apply_dir p) sent = Done h /\
    filling a s0 s' /\ ps_hdls s' !! a = Some h /\ ps_fqdn s' = ps_fqdn s0 /\
    forall b, b <> a -> ps_hdls s' !! b = ps_hdls s0 !! b.
Proof.
  intros Hp. pose proof (pg_filling _ _ _ _ _ Hp) as (Hwf & Hs & He).
  destruct (pg_hdl _ _ _ _ _ Hp) as (h & Ha & Hadd). unfold policy_tables, end_policy. rewrite Hadd.
  cbn [mbind outcome_bind]. pose proof (pg_fqdn _ _ _ _ _ Hp) as Hq. pose proof (pg_rest _ _ _ _ _ Hp) as Hrest.
  destruct (negb (en_enable_icmp_policy env)); [|by exists s, h].
  destruct (pw_fqdn s Hwf) as (fh & Hfh & Hfw). rewrite (hdl_deref_eq s a h Ha), <-Hq, Hfh. cbn [mbind outcome_bind].
  destruct (add_default_policy_safe pick env fh Hfw h) as (h' & -> & Hf).
  eexists _, h'. split; [done|]. split; [done|]. split_and!.
  - split; [|done]. by eapply wf_fill; [done..|apply Hf|apply Hf].
  - apply lookup_insert_eq.
  - done.
  - intros b Hb. cbn. rewrite lookup_insert_ne by done. by apply Hrest.
Qed.

Lemma set_ref_same h n : hd_ref_cnt h = n -> hd_set_ref n h = h.
Proof. intros <-. by destruct h. Qed.

Lemma filling_end p q s0 a s h :
  filling a s0 s -> ps_hdls s !! a = Some h -> ps_fqdn s = ps_fqdn s0 ->
  (forall b, b <> a -> ps_hdls s !! b = ps_hdls s0 !! b) -> pl_mac_list q = pl_mac_list p ->
  exists s', cfg_end q s = Done (0, s') /\ delivered p s0 s' h.
Proof.
  intros (Hwf & Hs & He) Ha Hq Hrest Hmacs.
  destruct (cfg_end_spec q s Hwf) as (s' & -> & Hwf' & Hs' & Hq' & Hsub & Heps).
  exists s'. split; [done|]. split_and!; [done|done|congruence|]. exists a. intros mac ep Hm.
  assert (hd_ref_cnt h = 0) as Href.
  { rewrite (hl_count _ _ (pw_held s Hwf) a h Ha), (pw_static s Hwf a Hs), points_None. done. }
  specialize (Heps mac). rewrite He, Hs, Hm, Hmacs in Heps. unfold ver_of in Heps. simpl in Heps. rewrite Ha in Heps.
  destruct (decide (mac ∈ pl_mac_list p)) as [Hin|Hin].
  - rewrite decide_True in Heps by (split; [done|by eexists]). split; [done|].
    destruct (hl_ep _ _ (pw_held s' Hwf') mac _ a Heps eq_refl) as (h' & Hh' & _). exists h'. split; [done|].
    destruct (Hsub a h' Hh') as (h1 & Hh1 & ->). rewrite Ha in Hh1. injection Hh1 as <-. by apply set_ref_same.
  - rewrite decide_False in Heps by by intros [? _]. split; [done|]. intros b h' Hb Hh'.
    destruct (Hsub b h' Hh') as (h1 & Hh1 & Heq). exists h1. split; [|done].
    rewrite <-Hrest; [done|]. intros ->. rewrite <-He in Hm. pose proof (refs_pos _ _ _ _ Hm Hb) as Hpos.
    rewrite (pw_static s Hwf a Hs) in Hpos. lia.
Qed.

(** The rules of one message, from a state whose handle is [a] once a new one
    is made. *)
Lemma fill_part (start : bool) cmd p s0 a sent s rules :
  progress p s0 a sent (if start then (new_hdl p s).2 else s) -> cmd <> CFG_DELETE ->
  Forall (fun r => pr_fqdn r = ""%string) rules -> Z.of_nat (length sent + length rules) < 4294967296 ->
  exists s1, progress p s0 a (sent ++ rules) s1 /\
    cfg_fill pick env true start false cmd (with_rules p rules) s = Done s1 /\
    cfg_fill pick env true start true cmd (with_rules p rules) s =
      (if negb (en_enable_icmp_policy env) then
         h ← hdl_deref s1 a; h ← dpi_add_default_policy pick env (ps_fqdn s1) h; Done (hdl_store a h s1)
       else Done s1).
Proof.
  intros Hp Hcmd Hall Hlen. unfold cfg_fill. rewrite (proj2 (Z.eqb_neq _ _) Hcmd). cbn [negb].
  destruct (progress_rules p s0 a sent _ rules Hp Hall Hlen) as (s1 & Hs1 & Hp1). exists s1. split; [done|].
  pose proof (pg_filling _ _ _ _ _ Hp) as (_ & Hs & _).
  assert ((if start then Done (new_hdl (with_rules p rules) s).2 else Done s) =
          Done (if start then (new_hdl p s).2 else s)) as -> by by destruct start.
  cbn [mbind outcome_bind]. rewrite Hs. cbn [pl_rule_list with_rules]. rewrite Hs1. by cbn [mbind outcome_bind].
Qed.

(** One message of the policy, after [cfg_start]. *)
Lemma part_msg (start last : bool) cmd p s0 a sent s rules :
  progress p s0 a sent (if start then (new_hdl p s).2 else s) -> cmd <> CFG_DELETE ->
  Forall (fun r => pr_fqdn r = ""%string) rules -> Z.of_nat (length sent + length rules) < 4294967296 ->
  exists s', (s ← cfg_fill pick env true start last cmd (with_rules p rules) s;
              if negb last then Done (0, s) else cfg_end (with_rules p rules) s) = Done (0, s') /\
    if last then
      exists h, policy_tables pick env (ps_fqdn s0) (get_new_policy_ver (ps_policy_ver s0)) (pl_def_action p)
        (pl_apply_dir p) (sent ++ rules) = Done h /\ delivered p s0 s' h
    else progress p s0 a (sent ++ rules) s'.
Proof.
  intros Hp Hcmd Hall Hlen.
  destruct (fill_part start cmd p s0 a sent s rules Hp Hcmd Hall Hlen) as (s1 & Hp1 & Hnext & Hlast).
  destruct last; [|rewrite Hnext; by exists s1]. rewrite Hlast.
  destruct (progress_tables p s0 a (sent ++ rules) s1 Hp1) as (s2 & h & -> & Htab & Hf & Ha & Hq & Hrest).
  cbn [mbind outcome_bind negb].
  destruct (filling_end p (with_rules p rules) s0 a s2 h Hf Ha Hq Hrest eq_refl) as (s3 & -> & Hd).
  exists s3. split; [done|]. by exists h.
Qed.

Definition part_flag (start last : bool) : Z := Z.lor (if start then MSG_START else 0) (if last then MSG_END else 0).

Lemma part_flags start last :
  has_flag (part_flag start last) MSG_START = start /\ has_flag (part_flag start last) MSG_END = last.
Proof. by destruct start, last. Qed.

Lemma later_msgs cmd p s0 a parts sent s :
  progress p s0 a sent s -> cmd <> CFG_DELETE -> parts <> [] ->
  Forall (fun r => pr_fqdn r = ""%string) (concat parts) ->
  Z.of_nat (length sent + length (concat parts)) < 4294967296 ->
  exists s' h, cfg_msgs cmd s (policy_msgs false p parts) = Done s' /\
    policy_tables pick env (ps_fqdn s0) (get_new_policy_ver (ps_policy_ver s0)) (pl_def_action p)
      (pl_apply_dir p) (sent ++ concat parts) = Done h /\ delivered p s0 s' h.
Proof.
  revert sent s. induction parts as [|rules parts IH]; intros sent s Hp Hcmd Hne Hall Hlen; [done|].
  cbn [concat] in *. apply Forall_app in Hall as [Hr Hall]. rewrite length_app in Hlen.
  pose proof (pg_filling _ _ _ _ _ Hp) as (_ & Hs & _).
  set (last := bool_decide (parts = [])).
  destruct (part_msg false last cmd p s0 a sent s rules Hp Hcmd Hr ltac:(lia)) as (s1 & Hs1 & Hres).
  assert (dpi_policy_cfg pick env true cmd (with_rules p rules) (part_flag false last) s = Done (0, s1)) as Hmsg.
  { unfold dpi_policy_cfg. destruct (part_flags false last) as [-> ->]. rewrite Hs. exact Hs1. }
  unfold cfg_msgs. cbn [policy_msgs foldM]. cbn [fst snd]. fold last. fold (part_flag false last). rewrite Hmsg.
  cbn [mbind outcome_bind]. subst last. destruct parts as [|r2 parts].
  - destruct Hres as (h & Htab & Hd). exists s1, h. cbn [concat]. by rewrite app_nil_r.
  - destruct (IH (sent ++ rules) s1) as (s2 & h & Hs2 & Htab & Hd); [done..|rewrite length_app; lia|].
    exists s2, h. rewrite app_assoc. by split_and!.
Qed.
Lemma delivered_from p s s0 s' h :
  delivered p s0 s' h -> ps_eps s0 = ps_eps s -> ps_fqdn s0 = ps_fqdn s -> sub_tables (ps_hdls s) (ps_hdls s0) ->
  delivered p s s' h.
Proof.
  intros (Hwf & Hs & Hq & a & Hd) He Hq0 Hsub. split_and!; [done|done|congruence|]. exists a. intros mac ep Hm.
  rewrite <-He in Hm. specialize (Hd mac ep Hm). destruct (decide (mac ∈ pl_mac_list p)); [done|].
  destruct Hd as [Hep Hb]. split; [done|]. intros b h' Hbe Hh'. destruct (Hb b h' Hbe Hh') as (h0 & Hh0 & ->).
  by apply Hsub.
Qed.

(** The messages of a policy, however it is cut, and whatever policy was left
    unfinished before: its endpoints get the tables of all its rules. *)
Lemma cfg_msgs_delivered cmd p s parts :
  policy_wf s -> cmd <> CFG_DELETE -> parts <> [] ->
  Forall (fun r => pr_fqdn r = ""%string) (concat parts) -> Z.of_nat (length (concat parts)) < 4294967296 ->
  exists s' h, cfg_msgs cmd s (policy_msgs true p parts) = Done s' /\
    policy_tables pick env (ps_fqdn s) (get_new_policy_ver (ps_policy_ver s)) (pl_def_action p)
      (pl_apply_dir p) (concat parts) = Done h /\ delivered p s s' h.
Proof.
  intros Hwf Hcmd Hne Hall Hlen. destruct parts as [|rules parts]; [done|]. clear Hne.
  cbn [concat] in *. apply Forall_app in Hall as [Hr Hall]. rewrite length_app in Hlen.
  destruct (drop_static s Hwf) as (s0 & Hst & Hwf0 & Hs0 & He0 & _ & _ & _ & Hv0 & Hq0 & Hsub).
  cbn in Hv0, Hq0, Hsub. pose proof (progress_new p s0 Hwf0 Hs0) as Hp.
  set (last := bool_decide (parts = [])).
  destruct (part_msg true last cmd p s0 (ps_fresh s0) [] s0 rules Hp Hcmd Hr) as (s1 & Hs1 & Hres); [cbn; lia|].
  assert (dpi_policy_cfg pick env true cmd (with_rules p rules) (part_flag true last) s = Done (0, s1)) as Hmsg.
  { unfold dpi_policy_cfg. destruct (part_flags true last) as [-> ->]. cbn [negb andb]. rewrite Hst. exact Hs1. }
  unfold cfg_msgs. cbn [policy_msgs foldM fst snd]. fold last. fold (part_flag true last). rewrite Hmsg.
  cbn [mbind outcome_bind]. rewrite <-Hv0, <-Hq0. subst last. destruct parts as [|r2 parts].
  - destruct Hres as (h & Htab & Hd). exists s1, h. cbn [concat]. rewrite app_nil_r. split_and!; [done..|].
    by eapply delivered_from.
  - destruct (later_msgs cmd p s0 _ (r2 :: parts) rules s1 Hres Hcmd) as (s2 & h & Hs2 & Htab & Hd); [done..|].
    exists s2, h. split_and!; [done..|]. by eapply delivered_from.
Qed.
End delivery.

(** The count of a handle has no part in a lookup. *)
Lemma fqdn_code_loop_set_ref pick fh h n key d sv rl desc2 :
  fqdn_code_loop pick fh (hd_set_ref n h) key d sv rl desc2 = fqdn_code_loop pick fh h key d sv rl desc2.
Proof.
  revert key desc2. induction rl as [|a rl IH]; intros key desc2; cbn [fqdn_code_loop]; [done|].
  destruct (deref fh a) as [r|]; cbn [mbind outcome_bind]; [|done]. destruct (fr_code r =? 0); apply IH.
Qed.

Lemma match_rules_set_ref pick fqdn h n key d internal p :
  match_rules pick fqdn (hd_set_ref n h) key d internal p = match_rules pick fqdn h key d internal p.
Proof.
  unfold match_rules, policy_match_ipv4_fqdn_code. cbn [hd_flag hd_set_ref].
  destruct (has_flag _ _); [|done]. destruct fqdn as [fh|]; [|done].
  destruct (fh_ipv4_map fh !! _); [|done]. by rewrite fqdn_code_loop_set_ref.
Qed.

Lemma lookup_set_ref pick env fqdn h n sip dip dport proto app d desc p :
  dpi_policy_lookup_by_key pick env fqdn (Some (hd_set_ref n h)) sip dip dport proto app d desc p =
  dpi_policy_lookup_by_key pick env fqdn (Some h) sip dip dport proto app d desc p.
Proof.
  unfold dpi_policy_lookup_by_key. destruct d; unfold lookup_ingress, lookup_egress; by rewrite match_rules_set_ref.
Qed.

(** From the messages to the verdict: in any state that can be reached, a
    policy without domain names that arrives in any number of messages gives
    each of its endpoints a handle with which every packet gets the verdict of
    the first rule that covers it, wherever rules are consulted; an endpoint
    that the policy is not for keeps its own. *)
Lemma policy_messages_first_match pick env own cmd p s fh parts :
  policy_reach pick s -> ps_fqdn s = Some fh ->
  pick_ok pick -> own 0 = false -> zero_ok env -> cmd <> CFG_DELETE -> parts <> [] ->
  Z.of_nat (length (concat parts)) < ORDER_MAX ->
  Forall (fun r => pr_fqdn r = ""%string /\ rule_ok own r) (concat parts) ->
  exists s', cfg_msgs pick env cmd s (policy_msgs true p parts) = Done s' /\ policy_wf s' /\ ps_hdl s' = None /\
  forall mac ep, ps_eps s !! mac = Some ep ->
    if decide (mac ∈ pl_mac_list p) then
      exists a h, ps_eps s' !! mac = Some (Ep (Some a) (get_new_policy_ver (ps_policy_ver s))) /\
        ps_hdls s' !! a = Some h /\
        forall env' fh' d k desc pkt,
          in_width 32 (rk_sip k) -> in_width 32 (rk_dip k) -> _dpi_is_chk_nbe pkt = false ->
          enforced env fh (pl_def_action p) (pl_apply_dir p) own d k ->
          skips_rules env' fh' (pl_def_action p) (pl_apply_dir p) d k = false ->
          dpi_is_ip4_internal env' (peer_side d k) = dpi_is_ip4_internal env (peer_side d k) ->
          dpi_policy_lookup_by_key pick env' (Some fh') (Some h) (rk_sip k) (rk_dip k) (rk_dport k)
            (rk_proto k) (rk_app k) d desc pkt =
          Done (set_ver (get_new_policy_ver (ps_policy_ver s))
                 (add_flags (int_or_ext (dpi_is_ip4_internal env (peer_side d k)))
                   (reference_desc env d (external env d k) k (pl_def_action p) (concat parts))))
    else ps_eps s' !! mac = Some ep.
Proof.
  intros Hr Hfh Hpick Hown Hzero Hcmd Hne Hlen Hall.
  pose proof (policy_reach_wf pick s Hr) as Hwf.
  assert (Forall (fun r => pr_fqdn r = ""%string) (concat parts)) as Hnames
    by (eapply Forall_impl; [exact Hall|by intros r []]).
  assert (Forall (rule_ok own) (concat parts)) as Hrules by (eapply Forall_impl; [exact Hall|by intros r []]).
  destruct (tables_lookup pick env fh own (get_new_policy_ver (ps_policy_ver s)) (pl_def_action p) (pl_apply_dir p)
    (concat parts) Hpick Hown Hzero Hlen Hrules) as (h & Hh & Hv & _ & Hl).
  destruct (cfg_msgs_delivered pick env cmd p s parts Hwf Hcmd Hne Hnames) as (s' & h1 & Hs' & Hh1 & Hd);
    [unfold ORDER_MAX in Hlen; lia|].
  rewrite Hfh, Hh in Hh1. injection Hh1 as <-. destruct Hd as (Hwf' & Hst' & _ & a & Hd).
  exists s'. split_and!; [done..|]. intros mac ep Hm. specialize (Hd mac ep Hm).
  destruct (decide (mac ∈ pl_mac_list p)); [|by destruct Hd].
  destruct Hd as (Hep & h' & Hh' & Heq). exists a, h'. rewrite <-Hv at 1. split_and!; [done..|].
  intros env' fh' d k desc pkt H1 H2 H3 H4 H5 H6. rewrite <-(Hl env' fh' d k desc pkt) by done.
  rewrite <-Heq. by rewrite lookup_set_ref.
Qed.

(** ** Examples *)

(** One endpoint, and the rules of [NvDPEquiv] in two messages. *)
Definition ex_mac : list Z := [2; 0; 0; 0; 0; 1].
Definition ex_state : policy_state := dp_ctrl_add_mac policy_init ex_mac None.
Definition ex_policy : dpi_policy_t := Policy [ex_mac] DP_POLICY_ACTION_DENY DP_POLICY_APPLY_EGRESS [].
Definition ex_parts : list (list dpi_policy_rule_t) := [take 1 ex_rules; drop 1 ex_rules].

Lemma ex_state_reach : policy_reach head ex_state.
Proof.
  apply (reach_step _ ex_env (fun _ _ l => l) policy_init (OpAddMac ex_mac None)); [by intros|constructor| |reflexivity].
  split; [by left|reflexivity].
Defined.

Lemma policy_reach_safe_witness :
  policy_wf ex_state /\ exists s', policy_step head ex_env (fun _ _ l => l) ex_state
    (OpCfg true CFG_ADD (with_rules ex_policy ex_rules) (Z.lor MSG_START MSG_END)) = Done s' /\ policy_wf s'.
Proof.
  destruct (policy_reach_safe head ex_env (fun _ _ l => l) ex_state) as [Hwf Hstep];
    [by intros|apply ex_state_reach|].
  split; [exact Hwf|].
  destruct (Hstep (OpCfg true CFG_ADD (with_rules ex_policy ex_rules) (Z.lor MSG_START MSG_END))) as [Hd|[Hm _]];
    [repeat constructor|exact Hd|discriminate].
Defined.

Lemma ex_messages_first_match :
  exists s' a h, cfg_msgs head ex_env CFG_ADD ex_state (policy_msgs true ex_policy ex_parts) = Done s' /\
    ps_eps s' !! ex_mac = Some (Ep (Some a) 1) /\ ps_hdls s' !! a = Some h /\
    ex_lookup ex_env None ex_external h = Done (1, DP_POLICY_ACTION_DENY).
Proof.
  destruct (policy_messages_first_match head ex_env ex_own CFG_ADD ex_policy ex_state
              dpi_fqdn_hdl_init ex_parts) as (s' & Hs' & _ & _ & Hm).
  - apply ex_state_reach.
  - reflexivity.
  - split; [|by intros []]. intros [|y l] x [= ->]. left.
  - reflexivity.
  - right. split; reflexivity.
  - done.
  - done.
  - reflexivity.
  - repeat constructor; simpl; intros; reflexivity || done.
  - destruct (Hm ex_mac (Ep None 0) eq_refl) as (a & h & Hep & Hh & Hl).
    exists s', a, h. split; [exact Hs'|]. split; [exact Hep|]. split; [exact Hh|]. unfold ex_lookup.
    rewrite (Hl ex_env dpi_fqdn_hdl_init true ex_external (PolicyDesc 0 0 0 0 0) None);
      [reflexivity|split; reflexivity || done..|reflexivity| |reflexivity|reflexivity].
    split; [split; reflexivity|]. split; [reflexivity|]. split; reflexivity || done.
Qed.

(** A new version is never 0 and differs from the one before. *)
Lemma get_new_policy_ver_spec v :
  in_width 16 v ->
  in_width 16 (get_new_policy_ver v) /\ get_new_policy_ver v <> 0 /\ get_new_policy_ver v <> v.
Proof.
  unfold in_width, get_new_policy_ver, wrap. intros Hv. change (2 ^ 16) with 65536 in *.
  destruct (decide (v = 65535)) as [->|Hne]; [by split_and!|].
  rewrite (Z.mod_small (v + 1)) by lia. destruct (Z.eqb_spec (v + 1) 0); lia.
Qed.

(** When the allocation of the handle fails, the first message writes through
    the null pointer before it looks at it. *)
Theorem policy_alloc_failure_faults :
  dpi_policy_cfg head ex_env false CFG_ADD ex_policy MSG_START policy_init = invalid_access.
Proof. reflexivity. Qed.
