(* ===== verification/NvDPVerdict.v ===== *)
(** * The verdict on a packet: [dp/dpi/dpi_policy.c], [dp/dpi/dpi_packet.c]

    A lookup in the tables is not the last word on a packet: an endpoint that
    enforces its namespace changes it, an unknown address gets some time
    before the default action applies ([_dpi_policy_chk_unknown_ip]), and a
    session is looked at again when the policy or the application changes
    ([dpi_policy_reeval]).  This file translates these steps, the creation of
    a session and the actions they lead to, and shows that the verdict of a
    rule stands, that the default action applies between known addresses, that
    a session follows its policy, and that a denied one is blocked. *)

From Stdlib Require Import ZArith Lia.
From S2P Require Import Prelude NvBitmap NvFqdn NvPolicyTypes NvDPTable NvDPEquiv NvDPCfg.
Local Open Scope Z_scope.

(** ** Data *)

Definition POLICY_DESC_MESH_TO_SVR : Z := 128.
Definition DP_POLICY_APP_UNKNOWN : Z := 4294967295.

Definition DPI_SESS_FLAG_INGRESS : Z := 16.
Definition DPI_SESS_FLAG_MID_STREAM : Z := 64.
Definition DPI_SESS_FLAG_POLICY_APP_READY : Z := 512.
Definition DPI_SESS_FLAG_XFF : Z := 8192.
Definition DPI_SESS_FLAG_MESH_TO_SVR : Z := 32768.

Definition DPI_PKT_FLAG_INGRESS : Z := 256.
Definition DPI_PKT_FLAG_LOG_MID : Z := 2048.
Definition DPI_PKT_FLAG_LOG_VIOLATE : Z := 4096.
Definition DPI_PKT_FLAG_LOG_XFF : Z := 8192.
Definition DPI_PKT_FLAG_LOG_XFF_VIO : Z := 16384.

Definition DPI_ACTION_NONE : Z := 0.
Definition DPI_ACTION_ALLOW : Z := 1.
Definition DPI_ACTION_DROP : Z := 2.
Definition DPI_ACTION_RESET : Z := 3.
Definition DPI_ACTION_BYPASS : Z := 4.
Definition DPI_ACTION_BLOCK : Z := 5.

Definition ETH_P_IP : Z := 2048.

(** The fields of a session that the policy reads or writes. *)
Record dpi_session_t := Session {
  ss_flags : Z;
  ss_app : Z;
  ss_base_app : Z;
  ss_action : Z;
  ss_policy_desc : dpi_policy_desc_t;
  ss_xff_desc : dpi_policy_desc_t;
  ss_xff_client_ip : Z;
  ss_xff_app : Z;
  ss_xff_port : Z;
  ss_vhost : string;
  ss_vhlen : Z
}.

Definition ss_set_policy_desc (d : dpi_policy_desc_t) (s : dpi_session_t) : dpi_session_t :=
  Session (ss_flags s) (ss_app s) (ss_base_app s) (ss_action s) d (ss_xff_desc s)
    (ss_xff_client_ip s) (ss_xff_app s) (ss_xff_port s) (ss_vhost s) (ss_vhlen s).
Definition ss_set_xff_desc (d : dpi_policy_desc_t) (s : dpi_session_t) : dpi_session_t :=
  Session (ss_flags s) (ss_app s) (ss_base_app s) (ss_action s) (ss_policy_desc s) d
    (ss_xff_client_ip s) (ss_xff_app s) (ss_xff_port s) (ss_vhost s) (ss_vhlen s).
Definition ss_set_xff_app (a : Z) (s : dpi_session_t) : dpi_session_t :=
  Session (ss_flags s) (ss_app s) (ss_base_app s) (ss_action s) (ss_policy_desc s) (ss_xff_desc s)
    (ss_xff_client_ip s) a (ss_xff_port s) (ss_vhost s) (ss_vhlen s).
Definition ss_set_xff_port (n : Z) (s : dpi_session_t) : dpi_session_t :=
  Session (ss_flags s) (ss_app s) (ss_base_app s) (ss_action s) (ss_policy_desc s) (ss_xff_desc s)
    (ss_xff_client_ip s) (ss_xff_app s) n (ss_vhost s) (ss_vhlen s).
Definition ss_set_action (a : Z) (s : dpi_session_t) : dpi_session_t :=
  Session (ss_flags s) (ss_app s) (ss_base_app s) a (ss_policy_desc s) (ss_xff_desc s)
    (ss_xff_client_ip s) (ss_xff_app s) (ss_xff_port s) (ss_vhost s) (ss_vhlen s).

Definition session_view_of (s : dpi_session_t) : session_view :=
  SessionView (has_flag (ss_flags s) DPI_SESS_FLAG_POLICY_APP_READY) (ss_vhost s) (ss_vhlen s).

(** The endpoint of a packet: whether it enforces its namespace and whether it
    is only watched, its handle and version, the handle of the parent of a
    proxy ([get_parent_policy_hdl]), whether it is a proxy, and the addresses
    of the parent. *)
Record ep_view := EpView {
  ev_nbe : bool;
  ev_tap : bool;
  ev_hdl : option dpi_policy_hdl_t;
  ev_ver : Z;
  ev_proxymesh : bool;
  ev_parent_hdl : option dpi_policy_hdl_t;
  ev_pips : option (list Z)
}.

Record dpi_packet_t := Packet {
  pk_eth_type : Z;
  pk_ip_proto : Z;
  pk_saddr : Z;
  pk_daddr : Z;
  pk_sport : Z;
  pk_dport : Z;
  pk_flags : Z;
  pk_action : Z;
  pk_ep : ep_view
}.

Definition pk_add_flags (f : Z) (p : dpi_packet_t) : dpi_packet_t :=
  Packet (pk_eth_type p) (pk_ip_proto p) (pk_saddr p) (pk_daddr p) (pk_sport p) (pk_dport p)
    (set_flag (pk_flags p) f) (pk_action p) (pk_ep p).
Definition pk_set_action (a : Z) (p : dpi_packet_t) : dpi_packet_t :=
  Packet (pk_eth_type p) (pk_ip_proto p) (pk_saddr p) (pk_daddr p) (pk_sport p) (pk_dport p)
    (pk_flags p) a (pk_ep p).

Definition packet_view (p : dpi_packet_t) (s : option dpi_session_t) : pkt_view :=
  PktView (Some (ev_nbe (pk_ep p))) (session_view_of <$> s).

Definition zero_desc : dpi_policy_desc_t := PolicyDesc 0 0 0 0 0.
Definition set_action (a : Z) (d : dpi_policy_desc_t) : dpi_policy_desc_t :=
  PolicyDesc (pd_id d) a (pd_flags d) (pd_hdl_ver d) (pd_order d).
Definition set_id (i : Z) (d : dpi_policy_desc_t) : dpi_policy_desc_t :=
  PolicyDesc i (pd_action d) (pd_flags d) (pd_hdl_ver d) (pd_order d).
Definition del_flags (f : Z) (d : dpi_policy_desc_t) : dpi_policy_desc_t :=
  PolicyDesc (pd_id d) (pd_action d) (Z.ldiff (pd_flags d) f) (pd_hdl_ver d) (pd_order d).

(** ** Unknown addresses *)

Definition UNKNOWN_IP_CACHE_TIMEOUT : Z := 600.
Definition POLICY_DESC_VER_CHG_MAX : Z := 60.
Definition UNKNOWN_IP_TRY_COUNT : Z := 10.
Definition HOST_IP_TRY_COUNT : Z := 3.
Definition EXT_IP_TRY_COUNT : Z := 2.

(** [ui_timer] is the tick at which the timer of the entry was last started. *)
Record dpi_unknown_ip_cache_t := UnknownIp {
  ui_hdl_ver : Z;
  ui_start_hit : Z;
  ui_last_hit : Z;
  ui_try_cnt : Z;
  ui_timer : Z
}.

(** [th_unknown_ip_map]: by the addresses. *)
Abbreviation unknown_ip_map := (gmap (Z * Z) dpi_unknown_ip_cache_t).

Definition unknown_ip_release (key : Z * Z) (m : unknown_ip_map) : unknown_ip_map := delete key m.

Section tick.
(** [th_snap.tick] *)
Context (tick : Z).

Definition add_unknown_ip_cache (key : Z * Z) (hdl_ver iptype : Z) (ext : bool) (m : unknown_ip_map)
    : unknown_ip_map :=
  let try_cnt :=
    if (iptype =? DP_IPTYPE_HOSTIP) || (iptype =? DP_IPTYPE_TUNNELIP) then HOST_IP_TRY_COUNT
    else if ext then EXT_IP_TRY_COUNT else UNKNOWN_IP_TRY_COUNT in
  <[key := UnknownIp hdl_ver tick tick try_cnt tick]> m.

Definition refresh_unknown_ip_cache (thdl_ver try_cnt : Z) : dpi_unknown_ip_cache_t :=
  UnknownIp thdl_ver tick tick try_cnt tick.

Definition update_unknown_ip_cache (c : dpi_unknown_ip_cache_t) : dpi_unknown_ip_cache_t :=
  UnknownIp (ui_hdl_ver c) (ui_start_hit c) tick (ui_try_cnt c) tick.

(** The connection passes for now. *)
Definition tmp_open (d : dpi_policy_desc_t) : dpi_policy_desc_t :=
  set_action DP_POLICY_ACTION_OPEN (add_flags POLICY_DESC_TMP_OPEN (del_flags POLICY_DESC_CHECK_VER d)).

Definition _dpi_policy_chk_unknown_ip (hdl : option dpi_policy_hdl_t) (sip dip iptype : Z)
    (desc : dpi_policy_desc_t) (m : unknown_ip_map) : dpi_policy_desc_t * unknown_ip_map :=
  match hdl with
  | None => (desc, m)
  | Some hdl =>
      let is_external := has_flag (pd_flags desc) POLICY_DESC_EXTERNAL in
      let key := (sip, dip) in
      let opened := add_flags POLICY_DESC_UNKNOWN_IP (tmp_open desc) in
      if (iptype =? DP_IPTYPE_NONE) || (iptype =? DP_IPTYPE_HOSTIP) || (iptype =? DP_IPTYPE_TUNNELIP) then
        match m !! key with
        | Some c =>
            if (hd_ver hdl =? ui_hdl_ver c) && (wrap 32 (tick - ui_start_hit c) <? POLICY_DESC_VER_CHG_MAX)
            then (opened, <[key := update_unknown_ip_cache c]> m)
            else if 0 <? ui_try_cnt c
            then (opened, <[key := refresh_unknown_ip_cache (hd_ver hdl) (ui_try_cnt c - 1)]> m)
            else (desc, m)
        | None => (opened, add_unknown_ip_cache key (hd_ver hdl) iptype is_external m)
        end
      else if iptype =? DP_IPTYPE_DEVIP then (tmp_open desc, m)
      else (desc, m)
  end.
End tick.

Definition _dpi_policy_implicit_default (hdl : option dpi_policy_hdl_t) (desc : dpi_policy_desc_t) : bool :=
  match hdl with
  | None => false
  | Some hdl =>
      (pd_order desc =? 4294967295) && (pd_id desc =? 0) && has_flag (pd_flags desc) POLICY_DESC_CHECK_VER
      && (pd_action desc =? hd_def_action hdl)
      && ((pd_action desc =? DP_POLICY_ACTION_VIOLATE) || (pd_action desc =? DP_POLICY_ACTION_DENY))
  end.

(** ** Lookup for a packet *)

(** [p->ep] is set. *)
Definition _dpi_policy_chk_nbe (env : dp_env) (nbe : bool) (sip dip : Z) (is_ingress : bool)
    (hdl : option dpi_policy_hdl_t) (desc : dpi_policy_desc_t) : dpi_policy_desc_t :=
  match hdl with
  | None => desc
  | Some hdl =>
      if pd_action desc =? DP_POLICY_ACTION_CHECK_NBE then
        if nbe then
          let desc := add_flags POLICY_DESC_CHK_NBE (set_id 0 desc) in
          if (hd_def_action hdl =? DP_POLICY_ACTION_LEARN) || (hd_def_action hdl =? DP_POLICY_ACTION_VIOLATE)
          then set_action DP_POLICY_ACTION_VIOLATE desc
          else if hd_def_action hdl =? DP_POLICY_ACTION_DENY then set_action DP_POLICY_ACTION_DENY desc
          else desc
        else set_action DP_POLICY_ACTION_ALLOW desc
      else if nbe then
        let is_internal := dpi_is_ip4_internal env (if is_ingress then sip else dip) in
        let applied := has_flag (hd_apply_dir hdl)
                         (if is_ingress then DP_POLICY_APPLY_INGRESS else DP_POLICY_APPLY_EGRESS) in
        if is_internal && negb applied && (pd_action desc =? DP_POLICY_ACTION_DENY)
        then add_flags POLICY_DESC_NBE_SNS desc else desc
      else desc
  end.

(** The check of unknown addresses on the result of a lookup. *)
Definition chk_default (env : dp_env) (tick : Z) (hdl : option dpi_policy_hdl_t) (sip dip : Z) (is_ingress : bool)
    (desc : dpi_policy_desc_t) (m : unknown_ip_map) : dpi_policy_desc_t * unknown_ip_map :=
  let own := if is_ingress then dip else sip in
  let peer := if is_ingress then sip else dip in
  if has_flag (pd_flags desc) POLICY_DESC_INTERNAL then
    let check_sgm :=
      match hdl with
      | Some hdl => en_strict_group_mode env
                    && ((hd_def_action hdl =? DP_POLICY_ACTION_DENY) || (hd_def_action hdl =? DP_POLICY_ACTION_VIOLATE))
      | None => false
      end in
    let iptype := dpi_ip4_iptype env peer in
    let '(desc, m) :=
      if _dpi_policy_implicit_default hdl desc then
        let inPolicyAddr :=
          if (iptype =? DP_IPTYPE_HOSTIP) || (iptype =? DP_IPTYPE_TUNNELIP) then dpi_is_policy_addr env own
          else if check_sgm then true else dpi_is_policy_addr env peer in
        if negb inPolicyAddr then _dpi_policy_chk_unknown_ip tick hdl sip dip iptype desc m else (desc, m)
      else (desc, m) in
    (if iptype =? DP_IPTYPE_UWLIP then add_flags POLICY_DESC_UWLIP desc else desc, m)
  else if _dpi_policy_implicit_default hdl desc then
    if negb (dpi_is_policy_addr env own) then
      if is_ingress then _dpi_policy_chk_unknown_ip tick hdl 0 dip DP_IPTYPE_NONE desc m
      else _dpi_policy_chk_unknown_ip tick hdl sip 0 DP_IPTYPE_NONE desc m
    else (desc, m)
  else (desc, m).

(** The port of the server, for the protocols with a policy. *)
Definition server_port (p : dpi_packet_t) (to_server : bool) : option Z :=
  if negb (pk_eth_type p =? ETH_P_IP) then None
  else if (pk_ip_proto p =? IPPROTO_TCP) || (pk_ip_proto p =? IPPROTO_UDP)
  then Some (if to_server then pk_dport p else pk_sport p)
  else if pk_ip_proto p =? IPPROTO_ICMP then Some 0 else None.

Definition is_ingress_pkt (p : dpi_packet_t) (to_server : bool) : bool :=
  if to_server then has_flag (pk_flags p) DPI_PKT_FLAG_INGRESS
  else negb (has_flag (pk_flags p) DPI_PKT_FLAG_INGRESS).

(** What the lookups of a packet change besides the descriptor: the unknown
    addresses, the session ([p->session]), and the count of threats logged. *)
Record lookup_state := LookupState {
  ls_unknown : unknown_ip_map;
  ls_session : option dpi_session_t;
  ls_threats : Z
}.

Section lookup.
Context (pick : list dpi_policy_desc_t -> option dpi_policy_desc_t).
Context (env : dp_env) (fqdn : option dpi_fqdn_hdl_t) (tick : Z).

(** From the addresses on. *)
Definition policy_lookup_addrs (p : dpi_packet_t) (hdl : option dpi_policy_hdl_t) (app : Z) (is_ingress : bool)
    (sip dip dport : Z) (desc : dpi_policy_desc_t) (st : lookup_state)
    : outcome (dpi_policy_desc_t * lookup_state) :=
  desc ← dpi_policy_lookup_by_key pick env fqdn hdl sip dip dport (pk_ip_proto p) app is_ingress desc
           (Some (packet_view p (ls_session st)));
  let desc := _dpi_policy_chk_nbe env (ev_nbe (pk_ep p)) sip dip is_ingress hdl desc in
  let '(desc, m) := chk_default env tick hdl sip dip is_ingress desc (ls_unknown st) in
  let threat := has_flag (pd_flags desc) POLICY_DESC_SVC_EXTIP in
  Done (desc, LookupState m (ls_session st) (if threat then ls_threats st + 1 else ls_threats st)).

Definition dpi_policy_lookup (p : dpi_packet_t) (hdl : option dpi_policy_hdl_t) (app : Z) (to_server xff : bool)
    (desc : dpi_policy_desc_t) (xff_replace_dst_ip : Z) (st : lookup_state)
    : outcome (dpi_policy_desc_t * lookup_state) :=
  let desc := if xff then desc else zero_desc in
  match server_port p to_server with
  | None => Done (desc, st)
  | Some dport =>
      let sip := if to_server then pk_saddr p else pk_daddr p in
      let dip := if to_server then pk_daddr p else pk_saddr p in
      let is_ingress := is_ingress_pkt p to_server in
      if xff then
        match ls_session st with
        | None => invalid_access
        | Some s =>
            if negb (sip =? ss_xff_client_ip s) then
              let '(dport, s) := if 0 <? ss_xff_port s then (ss_xff_port s, s)
                                 else (dport, ss_set_xff_port dport s) in
              let dip := if 0 <? xff_replace_dst_ip then xff_replace_dst_ip else dip in
              policy_lookup_addrs p hdl app is_ingress (ss_xff_client_ip s) dip dport zero_desc
                (LookupState (ls_unknown st) (Some s) (ls_threats st))
            else Done (desc, st)
        end
      else policy_lookup_addrs p hdl app is_ingress sip dip dport desc st
  end.

(** ** A new session: [dp/dpi/dpi_session.c] *)

Definition dpi_set_action (act : Z) (p : dpi_packet_t) : dpi_packet_t :=
  if (DPI_ACTION_ALLOW <? pk_action p) && (act <=? DPI_ACTION_ALLOW) then p else pk_set_action act p.

Definition dpi_fill_proxymesh_policy_desc (p : dpi_packet_t) (to_server : bool) : dpi_policy_desc_t :=
  if negb (pk_eth_type p =? ETH_P_IP) then zero_desc
  else
    let sip := if to_server then pk_saddr p else pk_daddr p in
    let dip := if to_server then pk_daddr p else pk_saddr p in
    let peer := if is_ingress_pkt p to_server then sip else dip in
    PolicyDesc 0 DP_POLICY_ACTION_OPEN (int_or_ext (dpi_is_ip4_internal env peer)) 0 0.

(** The part of [dpi_session_create] for the policy: [None] when the packet is
    denied, else the descriptor of the session; [p->session] is not set yet. *)
Definition session_policy (p : dpi_packet_t) (to_server : bool) (st : lookup_state)
    : outcome (option dpi_policy_desc_t * dpi_packet_t * lookup_state) :=
  if negb (ev_proxymesh (pk_ep p)) then
    '(desc, st) ← dpi_policy_lookup p (ev_hdl (pk_ep p)) 0 to_server false zero_desc 0
                    (LookupState (ls_unknown st) None (ls_threats st));
    if pd_action desc =? DP_POLICY_ACTION_DENY
    then Done (None, dpi_set_action DPI_ACTION_DROP p, st)
    else Done (Some desc, p, st)
  else Done (Some (dpi_fill_proxymesh_policy_desc p to_server), p, st).
End lookup.

Definition DPI_POLICY_LOG_VIOLATE (action : Z) : bool := DP_POLICY_ACTION_CHECK_APP <? action.

(** ** A session is looked at again *)

(** The session, the unknown addresses, the threats and [policy_eval]. *)
Record reeval_state := ReevalState {
  re_s : dpi_session_t;
  re_unknown : unknown_ip_map;
  re_threats : Z;
  re_eval : bool
}.

Definition re_set_s (s : dpi_session_t) (r : reeval_state) : reeval_state :=
  ReevalState s (re_unknown r) (re_threats r) (re_eval r).
Definition re_set_eval (r : reeval_state) : reeval_state :=
  ReevalState (re_s r) (re_unknown r) (re_threats r) true.

(** The application of a session, for a lookup. *)
Definition session_app (s : dpi_session_t) : Z :=
  if negb (ss_app s =? 0) then ss_app s
  else if negb (ss_base_app s =? 0) then ss_base_app s else DP_POLICY_APP_UNKNOWN.

Definition app_ready (s : dpi_session_t) : bool := has_flag (ss_flags s) DPI_SESS_FLAG_POLICY_APP_READY.

Section reeval.
Context (pick : list dpi_policy_desc_t -> option dpi_policy_desc_t).
Context (env : dp_env) (fqdn : option dpi_fqdn_hdl_t) (tick : Z).
(** [th_xff_enabled] *)
Context (xff_enabled : bool).
Context (p : dpi_packet_t) (to_server : bool).

(** [dpi_policy_lookup(p, hdl, app, to_server, false, &s->policy_desc, 0)] *)
Definition lookup_policy_desc (hdl : option dpi_policy_hdl_t) (app : Z) (r : reeval_state) : outcome reeval_state :=
  '(d, st) ← dpi_policy_lookup pick env fqdn tick p hdl app to_server false (ss_policy_desc (re_s r)) 0
               (LookupState (re_unknown r) (Some (re_s r)) (re_threats r));
  let s := default (re_s r) (ls_session st) in
  Done (ReevalState (ss_set_policy_desc d s) (ls_unknown st) (ls_threats st) (re_eval r)).

(** [dpi_policy_lookup(p, hdl, app, to_server, true, &s->xff_desc, ip)] *)
Definition lookup_xff_desc (hdl : option dpi_policy_hdl_t) (app ip : Z) (r : reeval_state) : outcome reeval_state :=
  '(d, st) ← dpi_policy_lookup pick env fqdn tick p hdl app to_server true (ss_xff_desc (re_s r)) ip
               (LookupState (re_unknown r) (Some (re_s r)) (re_threats r));
  let s := default (re_s r) (ls_session st) in
  Done (ReevalState (ss_set_xff_desc d s) (ls_unknown st) (ls_threats st) (re_eval r)).

Definition reeval_when (b : bool) (hdl : option dpi_policy_hdl_t) (app : Z) (r : reeval_state) : outcome reeval_state :=
  if b then r ← lookup_policy_desc hdl app r; Done (re_set_eval r) else Done r.

Definition ver_changed (s : dpi_session_t) (flag : Z) : bool :=
  negb (pd_hdl_ver (ss_policy_desc s) =? ev_ver (pk_ep p)) && has_flag (pd_flags (ss_policy_desc s)) flag.

(** The policy changed, or what was missing is known now. *)
Definition reeval_policy (hdl : option dpi_policy_hdl_t) (r : reeval_state) : outcome reeval_state :=
  r ← reeval_when (ver_changed (re_s r) POLICY_DESC_UNKNOWN_IP) hdl 0 r;
  r ← reeval_when (ver_changed (re_s r) POLICY_DESC_CHECK_VER) hdl 0 r;
  r ← reeval_when ((pd_action (ss_policy_desc (re_s r)) =? DP_POLICY_ACTION_CHECK_VH) && app_ready (re_s r)) hdl 0 r;
  let s := re_s r in
  let app := session_app s in
  reeval_when ((pd_action (ss_policy_desc s) =? DP_POLICY_ACTION_CHECK_APP) && app_ready s
               && (negb (app =? DP_POLICY_APP_UNKNOWN) || negb (has_flag (ss_flags s) DPI_SESS_FLAG_MID_STREAM)))
    hdl app r.

Definition loopback_pkt : bool :=
  (pk_saddr p =? pk_daddr p)
  || (pk_daddr p =? INADDR_LOOPBACK) || IS_IN_LOOPBACK (pk_daddr p)
  || (pk_saddr p =? INADDR_LOOPBACK) || IS_IN_LOOPBACK (pk_saddr p).

(** A packet that a service mesh sends on to the server is matched with the
    policy of the parent; the handle carries over. *)
Definition reeval_mesh (hdl : option dpi_policy_hdl_t) (r : reeval_state)
    : outcome (option dpi_policy_hdl_t * reeval_state) :=
  if has_flag (ss_flags (re_s r)) DPI_SESS_FLAG_MESH_TO_SVR && negb loopback_pkt && ev_proxymesh (pk_ep p) then
    let hdl := ev_parent_hdl (pk_ep p) in
    r ← lookup_policy_desc hdl 0 r;
    let s := re_s r in
    let app := session_app s in
    r ← (if (pd_action (ss_policy_desc s) =? DP_POLICY_ACTION_CHECK_APP) && app_ready s
            && (negb (app =? DP_POLICY_APP_UNKNOWN) || negb (has_flag (ss_flags s) DPI_SESS_FLAG_MID_STREAM))
         then lookup_policy_desc hdl app r else Done r);
    let d := add_flags POLICY_DESC_MESH_TO_SVR (del_flags POLICY_DESC_CHECK_VER (ss_policy_desc (re_s r))) in
    Done (hdl, re_set_eval (re_set_s (ss_set_policy_desc d (re_s r)) r))
  else Done (hdl, r).

(** One destination for the client of the [X-Forwarded-For] header. *)
Definition lookup_xff_app (hdl : option dpi_policy_hdl_t) (ip : Z) (r : reeval_state) : outcome reeval_state :=
  r ← lookup_xff_desc hdl 0 ip r;
  if pd_action (ss_xff_desc (re_s r)) =? DP_POLICY_ACTION_CHECK_APP
  then lookup_xff_desc hdl (ss_xff_app (re_s r)) ip r else Done r.

(** The addresses of the parent, until one is a violation. *)
Fixpoint xff_pips (hdl : option dpi_policy_hdl_t) (pips : list Z) (r : reeval_state) : outcome reeval_state :=
  match pips with
  | [] => Done r
  | ip :: pips =>
      r ← lookup_xff_app hdl ip r;
      if DPI_POLICY_LOG_VIOLATE (pd_action (ss_xff_desc (re_s r))) then Done r else xff_pips hdl pips r
  end.

Definition is_xff (s : dpi_session_t) : bool :=
  xff_enabled && has_flag (ss_flags s) DPI_SESS_FLAG_INGRESS && has_flag (ss_flags s) DPI_SESS_FLAG_XFF.

Definition reeval_xff (hdl : option dpi_policy_hdl_t) (r : reeval_state) : outcome reeval_state :=
  let proxy := ev_proxymesh (pk_ep p) in
  let hdl := if proxy then ev_parent_hdl (pk_ep p) else hdl in
  let dstlo := proxy && IS_IN_LOOPBACK (if to_server then pk_daddr p else pk_saddr p) in
  let s := re_s r in
  let s := if ss_xff_app s =? 0 then ss_set_xff_app (wrap 16 (session_app s)) s else s in
  let r := re_set_s s r in
  r ← (if dstlo then xff_pips hdl (default [] (ev_pips (pk_ep p))) r else lookup_xff_app hdl 0 r);
  Done (re_set_eval r).

Definition changed (d0 d : dpi_policy_desc_t) : bool :=
  negb (pd_action d0 =? pd_action d) || negb (pd_id d0 =? pd_id d).

(** The count to log, and the flags of the packet. *)
Definition reeval_log (xff : bool) (s0 s : dpi_session_t) : Z * dpi_packet_t :=
  let log d := if DPI_POLICY_LOG_VIOLATE (pd_action d) then 1 else 0 in
  let chg := changed (ss_policy_desc s0) (ss_policy_desc s) in
  if xff then
    let xchg := changed (ss_xff_desc s0) (ss_xff_desc s) in
    let p := if xchg then pk_add_flags DPI_PKT_FLAG_LOG_XFF p else p in
    let p := if chg then pk_add_flags DPI_PKT_FLAG_LOG_MID p else p in
    (if xchg || chg then log (ss_policy_desc s) + log (ss_xff_desc s) else 0, p)
  else if chg then (log (ss_policy_desc s), pk_add_flags DPI_PKT_FLAG_LOG_MID p) else (0, p).

Definition dpi_policy_reeval (s : dpi_session_t) (m : unknown_ip_map) (threats : Z)
    : outcome (Z * dpi_packet_t * reeval_state) :=
  r ← reeval_policy (ev_hdl (pk_ep p)) (ReevalState s m threats false);
  '(hdl, r) ← reeval_mesh (ev_hdl (pk_ep p)) r;
  let xff := is_xff (re_s r) in
  r ← (if xff then reeval_xff hdl r else Done r);
  let '(log_violate, p) := if re_eval r then reeval_log xff s (re_s r) else (0, p) in
  Done (log_violate, p, r).

(** [dp/dpi/dpi_packet.c] *)
Definition dpi_pkt_policy_reeval (s : dpi_session_t) (m : unknown_ip_map) (threats : Z)
    : outcome (dpi_packet_t * reeval_state) :=
  '(log_violate, p, r) ← dpi_policy_reeval s m threats;
  if 1 <=? log_violate then
    let s := re_s r in
    let p := if DPI_POLICY_LOG_VIOLATE (pd_action (ss_policy_desc s)) then pk_add_flags DPI_PKT_FLAG_LOG_VIOLATE p else p in
    let p := if DPI_POLICY_LOG_VIOLATE (pd_action (ss_xff_desc s)) then pk_add_flags DPI_PKT_FLAG_LOG_XFF_VIO p else p in
    if (pd_action (ss_policy_desc s) =? DP_POLICY_ACTION_DENY) || (pd_action (ss_xff_desc s) =? DP_POLICY_ACTION_DENY)
    then Done (dpi_set_action DPI_ACTION_DROP p, re_set_s (ss_set_action DPI_ACTION_BLOCK s) r)
    else Done (p, r)
  else Done (p, r).
End reeval.

(** ** The verdict of a rule stands *)

(** An endpoint that does not enforce its namespace lets the traffic to
    another namespace pass. *)
Definition nbe_action (action : Z) : Z :=
  if action =? DP_POLICY_ACTION_CHECK_NBE then DP_POLICY_ACTION_ALLOW else action.

(** The addresses of the connection that must be known for the default action
    to apply: that of the workload, and that of a peer inside the cluster. *)
Definition known_addrs (env : dp_env) (d : bool) (k : dpi_rule_key_t) : bool :=
  dpi_is_policy_addr env (own_side d k)
  && (negb (dpi_is_ip4_internal env (peer_side d k)) || dpi_is_policy_addr env (peer_side d k)).

Lemma chk_nbe_off env sip dip d hdl desc :
  _dpi_policy_chk_nbe env false sip dip d (Some hdl) desc = set_action (nbe_action (pd_action desc)) desc.
Proof.
  unfold _dpi_policy_chk_nbe, nbe_action. destruct (pd_action desc =? DP_POLICY_ACTION_CHECK_NBE); [done|].
  by destruct desc.
Qed.

(** The check of unknown addresses changes nothing for the verdict of a rule,
    nor between known addresses. *)
Lemma chk_default_keeps env tick hdl sip dip (d : bool) desc m :
  _dpi_policy_implicit_default hdl desc = false \/
  (dpi_is_policy_addr env (if d then dip else sip) = true /\
   (has_flag (pd_flags desc) POLICY_DESC_INTERNAL = true -> dpi_is_policy_addr env (if d then sip else dip) = true)) ->
  exists desc', chk_default env tick hdl sip dip d desc m = (desc', m) /\
    pd_id desc' = pd_id desc /\ pd_action desc' = pd_action desc.
Proof.
  intros H. unfold chk_default.
  destruct (has_flag (pd_flags desc) POLICY_DESC_INTERNAL) eqn:Hint.
  - set (peer := if d then sip else dip) in *. set (own := if d then dip else sip) in *.
    assert (forall b : bool, _dpi_policy_implicit_default hdl desc = false \/ b = true ->
      (if _dpi_policy_implicit_default hdl desc then
         if negb b then _dpi_policy_chk_unknown_ip tick hdl sip dip (dpi_ip4_iptype env peer) desc m else (desc, m)
       else (desc, m)) = (desc, m)) as Hb
      by (intros b [->| ->]; [done|by destruct (_dpi_policy_implicit_default hdl desc)]).
    rewrite Hb; [destruct (_ =? DP_IPTYPE_UWLIP); by eexists|].
    destruct H as [H|[Hown Hpeer]]; [by left|right]. rewrite Hown, (Hpeer eq_refl).
    by repeat match goal with |- context [if ?c then _ else _] => destruct c end.
  - destruct H as [->|[H _]]; [by eexists|]. destruct (_dpi_policy_implicit_default hdl desc); [|by eexists].
    destruct d; rewrite H; by eexists.
Qed.

Lemma first_match_id env own d ext k n rules id action order :
  Forall (rule_ok own) rules -> first_match env d ext k n rules = Some (id, action, order) -> 0 < id.
Proof.
  intros Hall. revert n. induction Hall as [|r rules Hr Hall IH]; intros n; cbn [first_match]; [done|].
  destruct (_ || _); [|apply IH]. unfold rule_verdict.
  destruct (negb _); [intros [= <- <- <-]; apply Hr|].
  destruct (rk_app k =? 0); [intros [= <- <- <-]; apply Hr|].
  destruct (List.find _ (pr_app_rules r)) as [a|] eqn:Hf; [|apply IH]. intros [= <- <- <-].
  apply List.find_some in Hf as [Hin _]. pose proof (ro_apps own r Hr) as Happs.
  rewrite List.Forall_forall in Happs. apply (Happs a Hin).
Qed.

(** The version in a descriptor is that of the handle. *)
Lemma chk_unknown_ver tick hdl sip dip iptype desc m :
  pd_hdl_ver (_dpi_policy_chk_unknown_ip tick hdl sip dip iptype desc m).1 = pd_hdl_ver desc.
Proof.
  unfold _dpi_policy_chk_unknown_ip. destruct hdl as [h|]; [|done].
  destruct (_ || _); [|by destruct (_ =? _)]. destruct (m !! _) as [c|]; [|done].
  destruct (_ && _); [done|]. by destruct (0 <? _).
Qed.

Lemma chk_default_ver env tick hdl sip dip d desc m :
  pd_hdl_ver (chk_default env tick hdl sip dip d desc m).1 = pd_hdl_ver desc.
Proof.
  unfold chk_default. destruct (has_flag _ _).
  - set (b := if _ || _ then _ else _). set (iptype := dpi_ip4_iptype _ _).
    pose proof (chk_unknown_ver tick hdl sip dip iptype desc m) as Hv.
    destruct (_dpi_policy_implicit_default hdl desc); [|by destruct (iptype =? _)].
    destruct (negb b); [|by destruct (iptype =? _)].
    destruct (_dpi_policy_chk_unknown_ip _ _ _ _ _ _ _) as [x m']. cbn [fst] in *. by destruct (iptype =? _).
  - destruct (_dpi_policy_implicit_default hdl desc); [|done]. destruct (negb _); [|done].
    destruct d; apply chk_unknown_ver.
Qed.

Lemma chk_nbe_ver env nbe sip dip d hdl desc :
  pd_hdl_ver (_dpi_policy_chk_nbe env nbe sip dip d hdl desc) = pd_hdl_ver desc.
Proof.
  unfold _dpi_policy_chk_nbe. destruct hdl; [|done]. by repeat match goal with |- context [if ?c then _ else _] => destruct c end.
Qed.

(** The key of a packet in the tables, before its application is known. *)
Definition packet_key (p : dpi_packet_t) (to_server : bool) (dport : Z) : dpi_rule_key_t :=
  RuleKey (if to_server then pk_saddr p else pk_daddr p) (if to_server then pk_daddr p else pk_saddr p)
    dport (pk_ip_proto p) 0.

(** What the reference says: the first rule, or the default action when the
    addresses are known. *)
Definition verdict_ok (env env' : dp_env) (d : bool) (k : dpi_rule_key_t) (def_action : Z)
    (rules : list dpi_policy_rule_t) (m : unknown_ip_map) (x : dpi_policy_desc_t) (m' : unknown_ip_map) : Prop :=
  match first_match env d (external env d k) k 0 rules with
  | Some (id, action, _) => pd_id x = id /\ pd_action x = nbe_action action /\ m' = m
  | None =>
      known_addrs env' d k = true ->
      pd_id x = 0 /\ pd_action x = nbe_action (pd_action (fallback_desc env k def_action)) /\ m' = m
  end.

Lemma chk_reference env env' tick own d k h def_action ver rules m :
  Forall (rule_ok own) rules ->
  dpi_is_ip4_internal env' (peer_side d k) = dpi_is_ip4_internal env (peer_side d k) ->
  let x := set_ver ver (add_flags (int_or_ext (dpi_is_ip4_internal env (peer_side d k)))
             (reference_desc env d (external env d k) k def_action rules)) in
  let r := chk_default env' tick (Some h) (rk_sip k) (rk_dip k) d
             (_dpi_policy_chk_nbe env' false (rk_sip k) (rk_dip k) d (Some h) x) m in
  verdict_ok env env' d k def_action rules m r.1 r.2.
Proof.
  intros Hall Hint x r. unfold verdict_ok. subst r. rewrite chk_nbe_off.
  set (y := set_action (nbe_action (pd_action x)) x).
  assert (pd_id y = pd_id (reference_desc env d (external env d k) k def_action rules) /\
    pd_action y = nbe_action (pd_action (reference_desc env d (external env d k) k def_action rules)) /\
    pd_flags y = Z.lor (pd_flags (reference_desc env d (external env d k) k def_action rules))
                   (int_or_ext (dpi_is_ip4_internal env (peer_side d k)))) as (Hid & Hact & Hfl) by done.
  unfold reference_desc in Hid, Hact, Hfl.
  destruct (first_match env d (external env d k) k 0 rules) as [[[id action] order]|] eqn:Hf.
  - destruct (chk_default_keeps env' tick (Some h) (rk_sip k) (rk_dip k) d y m) as (y' & -> & Hy1 & Hy2).
    { left. unfold _dpi_policy_implicit_default. rewrite Hid. cbn [pd_id].
      apply first_match_id with (own := own) in Hf; [|done].
      rewrite (proj2 (Z.eqb_neq id 0)) by lia. by rewrite andb_false_r. }
    cbn [fst snd]. by rewrite Hy1, Hy2, Hid, Hact.
  - intros [Hown Hpeer]%andb_true_iff.
    destruct (chk_default_keeps env' tick (Some h) (rk_sip k) (rk_dip k) d y m) as (y' & -> & Hy1 & Hy2).
    { right. split; [by destruct d|]. rewrite Hfl. intros Hi. apply orb_true_iff in Hpeer as [Hp|Hp]; [|by destruct d].
      exfalso. revert Hi Hp. rewrite Hint. unfold fallback_desc.
      destruct (dpi_is_ip4_internal env (peer_side d k)); [done|]. by repeat case_match. }
    cbn [fst snd]. rewrite Hy1, Hy2, Hid, Hact. split_and!; try done. unfold fallback_desc. by case_match.
Qed.

(** C6: The first packet of a connection, with the tables that the rules of a
    policy fill under some settings, where the rules are written for the
    workload's own address, not 0 (each has an identifier above 0,
    applications in range, a single own address and, where it is for single
    addresses, another one for the peer: [rule_ok]), are fewer than the order
    of rules can count, a lookup in a hash table finds a node of the key if
    there is one, and these settings take the address 0
    for an external one, or every address for an internal one.  For an IPv4
    packet of TCP, UDP or ICMP, its application in range, between the workload
    and another address, whose
    endpoint does not enforce the boundary of its namespace, where the rules
    are consulted both under the settings of the tables and under those of the
    lookup, and the two agree on whether the peer is internal: the lookup ends
    and gives, with the version of the tables, the verdict of the first rule
    that covers the packet (a verdict that asks for the check of the namespace
    becomes an allowance), and the window for unknown addresses neither
    softens it nor is opened; without a rule the default action applies
    between known addresses. *)
Theorem packet_verdict pick env fh own ver def_action apply_dir rules :
  pick_ok pick -> own 0 = false -> zero_ok env ->
  Z.of_nat (length rules) < ORDER_MAX -> Forall (rule_ok own) rules ->
  exists hdl, policy_tables pick env (Some fh) ver def_action apply_dir rules = Done hdl /\
  forall env' fh' tick p to_server dport desc st,
    server_port p to_server = Some dport -> ev_nbe (pk_ep p) = false ->
    let d := is_ingress_pkt p to_server in
    let k := packet_key p to_server dport in
    in_width 32 (pk_saddr p) -> in_width 32 (pk_daddr p) ->
    enforced env fh def_action apply_dir own d k ->
    skips_rules env' fh' def_action apply_dir d k = false ->
    dpi_is_ip4_internal env' (peer_side d k) = dpi_is_ip4_internal env (peer_side d k) ->
    exists x st', dpi_policy_lookup pick env' (Some fh') tick p (Some hdl) 0 to_server false desc 0 st = Done (x, st') /\
      pd_hdl_ver x = ver /\
      verdict_ok env env' d k def_action rules (ls_unknown st) x (ls_unknown st').
Proof.
  intros Hpick Hown Hzero Hlen Hall.
  destruct (tables_lookup pick env fh own ver def_action apply_dir rules Hpick Hown Hzero Hlen Hall)
    as (hdl & Hh & Hv & Hda & Hl).
  exists hdl. split; [done|]. intros env' fh' tick p to_server dport desc st Hport Hnbe d k Hsa Hda' Henf Hskip Hint.
  unfold dpi_policy_lookup. rewrite Hport. unfold policy_lookup_addrs.
  assert (in_width 32 (rk_sip k) /\ in_width 32 (rk_dip k)) as [Hw1 Hw2] by (by destruct to_server).
  pose proof (Hl env' fh' d k zero_desc (Some (packet_view p (ls_session st))) Hw1 Hw2) as Hlk.
  cbn [packet_view pv_ep_nbe _dpi_is_chk_nbe default] in Hlk. specialize (Hlk Hnbe Henf Hskip Hint).
  change (dpi_policy_lookup_by_key _ _ _ _ _ _ _ _ _ _ _ _) with
    (dpi_policy_lookup_by_key pick env' (Some fh') (Some hdl) (rk_sip k) (rk_dip k) (rk_dport k) (rk_proto k)
      (rk_app k) d zero_desc (Some (packet_view p (ls_session st)))).
  rewrite Hlk. cbn [mbind outcome_bind]. rewrite Hnbe.
  pose proof (chk_reference env env' tick own d k hdl def_action ver rules (ls_unknown st) Hall Hint) as Href.
  cbn zeta in Href. set (x0 := set_ver ver _) in *.
  pose proof (chk_default_ver env' tick (Some hdl) (rk_sip k) (rk_dip k) d
    (_dpi_policy_chk_nbe env' false (rk_sip k) (rk_dip k) d (Some hdl) x0) (ls_unknown st)) as Hver.
  rewrite chk_nbe_ver in Hver.
  change (if to_server then pk_saddr p else pk_daddr p) with (rk_sip k).
  change (if to_server then pk_daddr p else pk_saddr p) with (rk_dip k). change (is_ingress_pkt p to_server) with d.
  destruct (chk_default _ _ _ _ _ _ _ _) as [x m']. by do 2 eexists.
Qed.

(** ** Sessions follow their policy *)

(** The version of a handle, as an endpoint has it. *)
Definition hdl_ver (hdl : option dpi_policy_hdl_t) : Z := match hdl with Some h => hd_ver h | None => 0 end.

Lemma lookup_by_key_ver pick env fqdn hdl sip dip dport proto app d desc p x :
  dpi_policy_lookup_by_key pick env fqdn hdl sip dip dport proto app d desc p = Done x -> pd_hdl_ver x = hdl_ver hdl.
Proof.
  unfold dpi_policy_lookup_by_key. destruct hdl as [h|]; [|by intros [= <-]].
  match goal with |- (?o ≫= _) = _ -> _ => destruct o as [y|]; [|done] end. by intros [= <-].
Qed.

(** A lookup for the [X-Forwarded-For] header may set the port of the session,
    nothing else. *)
Definition same_session (s s' : dpi_session_t) : Prop := exists n, s' = ss_set_xff_port n s.

Lemma same_session_refl s : same_session s s.
Proof. exists (ss_xff_port s). by destruct s. Qed.

Section total.
Context (pick : list dpi_policy_desc_t -> option dpi_policy_desc_t).
Context (env : dp_env) (fh : dpi_fqdn_hdl_t) (tick : Z).
Context (Hfh : fqdn_wf fh).

Lemma policy_lookup_addrs_total p hdl app d sip dip dport desc st :
  exists x st', policy_lookup_addrs pick env (Some fh) tick p hdl app d sip dip dport desc st = Done (x, st') /\
    ls_session st' = ls_session st /\ pd_hdl_ver x = hdl_ver hdl.
Proof.
  unfold policy_lookup_addrs.
  destruct (lookup_safe pick env fh Hfh hdl sip dip dport (pk_ip_proto p) app d desc
    (Some (packet_view p (ls_session st)))) as [x Hx].
  rewrite Hx. cbn [mbind outcome_bind].
  set (y := _dpi_policy_chk_nbe _ _ _ _ _ _ x).
  pose proof (chk_default_ver env tick hdl sip dip d y (ls_unknown st)) as Hv.
  unfold y in Hv at 2. rewrite chk_nbe_ver, (lookup_by_key_ver _ _ _ _ _ _ _ _ _ _ _ _ _ Hx) in Hv.
  destruct (chk_default _ _ _ _ _ _ y _) as [z m]. by do 2 eexists.
Qed.

Lemma dpi_policy_lookup_total p hdl app to_server xff desc ip st s :
  ls_session st = Some s ->
  exists x st' s', dpi_policy_lookup pick env (Some fh) tick p hdl app to_server xff desc ip st = Done (x, st') /\
    ls_session st' = Some s' /\ same_session s s' /\ (xff = false -> s' = s) /\
    (xff = false -> server_port p to_server <> None -> pd_hdl_ver x = hdl_ver hdl).
Proof.
  intros Hs. unfold dpi_policy_lookup. destruct (server_port p to_server) as [dport|].
  2:{ eexists _, st, s. split_and!; try done. apply same_session_refl. }
  destruct xff.
  - rewrite Hs. destruct (negb _).
    2:{ eexists _, st, s. split_and!; try done. apply same_session_refl. }
    destruct (0 <? ss_xff_port s).
    + edestruct policy_lookup_addrs_total as (x & st' & -> & Hs' & Hv). do 3 eexists.
      split_and!; [done|exact Hs'|apply same_session_refl|done|done].
    + edestruct policy_lookup_addrs_total as (x & st' & -> & Hs' & Hv). do 3 eexists.
      split_and!; [done|exact Hs'|by eexists|done|done].
  - edestruct policy_lookup_addrs_total as (x & st' & -> & Hs' & Hv). exists x, st', s. rewrite Hs', Hs.
    split_and!; try done. apply same_session_refl.
Qed.

Section session.
Context (xff_enabled : bool) (p : dpi_packet_t) (to_server : bool).

(** A step that may change the descriptor of the session only. *)
Definition policy_step_of (r r' : reeval_state) : Prop :=
  exists d, re_s r' = ss_set_policy_desc d (re_s r) /\
    (re_eval r' = false -> re_eval r = false /\ re_s r' = re_s r).

(** Likewise for the client of the header. *)
Definition xff_step_of (r r' : reeval_state) : Prop :=
  ss_action (re_s r') = ss_action (re_s r) /\ ss_policy_desc (re_s r') = ss_policy_desc (re_s r) /\
  re_eval r' = re_eval r.

Lemma policy_step_refl r : policy_step_of r r.
Proof. exists (ss_policy_desc (re_s r)). split; [by destruct r as [[] ? ? ?]|done]. Qed.

Lemma policy_step_trans r1 r2 r3 : policy_step_of r1 r2 -> policy_step_of r2 r3 -> policy_step_of r1 r3.
Proof.
  intros (d1 & H1 & E1) (d2 & H2 & E2). exists d2. split; [by rewrite H2, H1|].
  intros [? Hs]%E2. rewrite Hs. by apply E1.
Qed.

Lemma xff_step_trans r1 r2 r3 : xff_step_of r1 r2 -> xff_step_of r2 r3 -> xff_step_of r1 r3.
Proof. intros (? & ? & ?) (? & ? & ?). split_and!; congruence. Qed.

Lemma lookup_policy_desc_spec hdl app r :
  exists d m t, lookup_policy_desc pick env (Some fh) tick p to_server hdl app r =
    Done (ReevalState (ss_set_policy_desc d (re_s r)) m t (re_eval r)) /\
    (server_port p to_server <> None -> pd_hdl_ver d = hdl_ver hdl).
Proof.
  unfold lookup_policy_desc.
  destruct (dpi_policy_lookup_total p hdl app to_server false (ss_policy_desc (re_s r)) 0
    (LookupState (re_unknown r) (Some (re_s r)) (re_threats r)) (re_s r) eq_refl)
    as (x & st' & s' & -> & Hs' & _ & Heq & Hv).
  cbn [mbind outcome_bind]. rewrite Hs', (Heq eq_refl). do 3 eexists. split; [done|]. by apply Hv.
Qed.

Lemma lookup_xff_desc_spec hdl app ip r :
  exists r', lookup_xff_desc pick env (Some fh) tick p to_server hdl app ip r = Done r' /\ xff_step_of r r'.
Proof.
  unfold lookup_xff_desc.
  destruct (dpi_policy_lookup_total p hdl app to_server true (ss_xff_desc (re_s r)) ip
    (LookupState (re_unknown r) (Some (re_s r)) (re_threats r)) (re_s r) eq_refl)
    as (x & st' & s' & -> & Hs' & [n ->] & _).
  cbn [mbind outcome_bind]. rewrite Hs'. by eexists.
Qed.

Lemma reeval_when_spec b hdl app r :
  exists r', reeval_when pick env (Some fh) tick p to_server b hdl app r = Done r' /\ policy_step_of r r' /\
    (b = false -> r' = r) /\
    (b = true -> server_port p to_server <> None -> pd_hdl_ver (ss_policy_desc (re_s r')) = hdl_ver hdl).
Proof.
  unfold reeval_when. destruct b.
  - destruct (lookup_policy_desc_spec hdl app r) as (d & m & t & -> & Hv). eexists. split; [done|].
    split_and!; [|done|done]. by exists d.
  - exists r. split_and!; try done. apply policy_step_refl.
Qed.

(** The descriptor is of the present policy, or it does not depend on it. *)
Definition current (s : dpi_session_t) : Prop :=
  ver_changed p s POLICY_DESC_UNKNOWN_IP = false /\ ver_changed p s POLICY_DESC_CHECK_VER = false.

(** The session [s'] after a packet of the session [s]: a verdict of another
    version of the policy is replaced. *)
Definition follows (s s' : dpi_session_t) : Prop :=
  current s' /\
  (ver_changed p s POLICY_DESC_CHECK_VER = true -> pd_hdl_ver (ss_policy_desc s') = ev_ver (pk_ep p)).

Lemma current_ver s : pd_hdl_ver (ss_policy_desc s) = ev_ver (pk_ep p) -> current s.
Proof. intros H. unfold current, ver_changed. by rewrite H, Z.eqb_refl. Qed.

Lemma reeval_policy_spec hdl r :
  exists r', reeval_policy pick env (Some fh) tick p to_server hdl r = Done r' /\ policy_step_of r r' /\
    (server_port p to_server <> None -> hdl_ver hdl = ev_ver (pk_ep p) ->
     follows (re_s r) (re_s r')).
Proof.
  unfold reeval_policy.
  destruct (reeval_when_spec (ver_changed p (re_s r) POLICY_DESC_UNKNOWN_IP) hdl 0 r)
    as (r1 & -> & H1 & F1 & V1). cbn [mbind outcome_bind].
  destruct (reeval_when_spec (ver_changed p (re_s r1) POLICY_DESC_CHECK_VER) hdl 0 r1)
    as (r2 & -> & H2 & F2 & V2). cbn [mbind outcome_bind].
  set (b3 := _ && app_ready (re_s r2)).
  destruct (reeval_when_spec b3 hdl 0 r2) as (r3 & -> & H3 & F3 & V3). cbn [mbind outcome_bind].
  set (b4 := _ && app_ready (re_s r3) && _).
  destruct (reeval_when_spec b4 hdl (session_app (re_s r3)) r3) as (r4 & -> & H4 & F4 & V4).
  exists r4. split; [done|]. split.
  { eapply policy_step_trans; [exact H1|]. eapply policy_step_trans; [exact H2|]. by eapply policy_step_trans. }
  intros Hp Hv. rewrite Hv in *.
  assert (forall b r r', (b = false -> r' = r) ->
    (b = true -> server_port p to_server <> None -> pd_hdl_ver (ss_policy_desc (re_s r')) = ev_ver (pk_ep p)) ->
    (current (re_s r) -> current (re_s r')) /\
    (pd_hdl_ver (ss_policy_desc (re_s r)) = ev_ver (pk_ep p) ->
     pd_hdl_ver (ss_policy_desc (re_s r')) = ev_ver (pk_ep p))) as Hkeep.
  { intros [] q q' F V; [|by rewrite (F eq_refl)]. split; [|by auto]. intros _. by apply current_ver, V. }
  destruct (Hkeep b3 r2 r3 F3 V3) as [K3 L3]. destruct (Hkeep b4 r3 r4 F4 V4) as [K4 L4].
  destruct (Hkeep _ r1 r2 F2 V2) as [_ L2]. split.
  - apply K4, K3. destruct (ver_changed p (re_s r1) POLICY_DESC_CHECK_VER) eqn:E; [by apply current_ver, V2|].
    rewrite (F2 eq_refl). split; [|done].
    destruct (ver_changed p (re_s r) POLICY_DESC_UNKNOWN_IP) eqn:E1; [|by rewrite (F1 eq_refl)].
    apply current_ver. by apply V1.
  - intros Hst. apply L4, L3. destruct (ver_changed p (re_s r) POLICY_DESC_UNKNOWN_IP); [by apply L2, V1|].
    rewrite (F1 eq_refl) in V2. by apply V2.
Qed.

Lemma reeval_mesh_spec hdl r :
  exists hdl' r', reeval_mesh pick env (Some fh) tick p to_server hdl r = Done (hdl', r') /\ policy_step_of r r' /\
    (has_flag (ss_flags (re_s r)) DPI_SESS_FLAG_MESH_TO_SVR = false -> r' = r).
Proof.
  unfold reeval_mesh.
  destruct (has_flag (ss_flags (re_s r)) DPI_SESS_FLAG_MESH_TO_SVR); cbn [andb];
    [|exists hdl, r; split_and!; try done; apply policy_step_refl].
  destruct (negb (loopback_pkt p) && ev_proxymesh (pk_ep p));
    [|exists hdl, r; split_and!; try done; apply policy_step_refl].
  set (h := ev_parent_hdl (pk_ep p)).
  destruct (lookup_policy_desc_spec h 0 r) as (d & m & t & -> & _). cbn [mbind outcome_bind re_s].
  destruct (_ && _ && _).
  - destruct (lookup_policy_desc_spec h (session_app (ss_set_policy_desc d (re_s r)))
      (ReevalState (ss_set_policy_desc d (re_s r)) m t (re_eval r))) as (d2 & m2 & t2 & -> & _).
    cbn [mbind outcome_bind re_s]. do 2 eexists. split_and!; [done| |done]. eexists. by split.
  - cbn [mbind outcome_bind re_s]. do 2 eexists. split_and!; [done| |done]. eexists. by split.
Qed.

Lemma lookup_xff_app_spec hdl ip r :
  exists r', lookup_xff_app pick env (Some fh) tick p to_server hdl ip r = Done r' /\ xff_step_of r r'.
Proof.
  unfold lookup_xff_app. destruct (lookup_xff_desc_spec hdl 0 ip r) as (r1 & -> & H1).
  cbn [mbind outcome_bind]. destruct (_ =? _); [|by eexists].
  destruct (lookup_xff_desc_spec hdl (ss_xff_app (re_s r1)) ip r1) as (r2 & -> & H2).
  eexists. split; [done|]. by eapply xff_step_trans.
Qed.

Lemma xff_pips_spec hdl pips r :
  exists r', xff_pips pick env (Some fh) tick p to_server hdl pips r = Done r' /\ xff_step_of r r'.
Proof.
  revert r. induction pips as [|ip pips IH]; intros r; cbn [xff_pips]; [by eexists|].
  destruct (lookup_xff_app_spec hdl ip r) as (r1 & -> & H1). cbn [mbind outcome_bind].
  destruct (DPI_POLICY_LOG_VIOLATE _); [by eexists|]. destruct (IH r1) as (r2 & -> & H2).
  eexists. split; [done|]. by eapply xff_step_trans.
Qed.

Lemma reeval_xff_spec hdl r :
  exists r', reeval_xff pick env (Some fh) tick p to_server hdl r = Done r' /\ re_eval r' = true /\
    ss_action (re_s r') = ss_action (re_s r) /\ ss_policy_desc (re_s r') = ss_policy_desc (re_s r).
Proof.
  unfold reeval_xff. set (s := if ss_xff_app (re_s r) =? 0 then _ else _).
  assert (ss_action s = ss_action (re_s r) /\ ss_policy_desc s = ss_policy_desc (re_s r)) as [Ha Hd]
    by (unfold s; by destruct (_ =? _)).
  set (h := if ev_proxymesh _ then _ else _).
  destruct (_ && _).
  - destruct (xff_pips_spec h (default [] (ev_pips (pk_ep p))) (re_set_s s r)) as (r1 & -> & X1 & X2 & _).
    eexists. split; [done|]. split_and!; [done| |]; cbn in *; congruence.
  - destruct (lookup_xff_app_spec h 0 (re_set_s s r)) as (r1 & -> & X1 & X2 & _).
    eexists. split; [done|]. split_and!; [done| |]; cbn in *; congruence.
Qed.

(** A session whose descriptor, or that of the client of the header, denies. *)
Definition denied (s : dpi_session_t) : bool :=
  (pd_action (ss_policy_desc s) =? DP_POLICY_ACTION_DENY) || (pd_action (ss_xff_desc s) =? DP_POLICY_ACTION_DENY).

Lemma reeval_log_spec xff s0 s :
  let res := reeval_log p xff s0 s in
  pk_action res.2 = pk_action p /\ pk_ep res.2 = pk_ep p /\ pk_ip_proto res.2 = pk_ip_proto p /\
  (denied s = true -> denied s0 = false -> xff = true \/ ss_xff_desc s = ss_xff_desc s0 -> 1 <= res.1).
Proof.
  unfold reeval_log, denied. set (c := changed (ss_policy_desc s0) (ss_policy_desc s)).
  set (xc := changed (ss_xff_desc s0) (ss_xff_desc s)). split_and!; [by destruct xff, c, xc..|].
  intros Hd [Hp0 Hx0]%orb_false_iff Hx.
  assert (forall d0 d, (pd_action d0 =? DP_POLICY_ACTION_DENY) = false ->
    (pd_action d =? DP_POLICY_ACTION_DENY) = true ->
    changed d0 d = true /\ DPI_POLICY_LOG_VIOLATE (pd_action d) = true) as Hchg.
  { intros d0 d H0 H1%Z.eqb_eq. unfold changed. rewrite H1 in *. rewrite H0. by split. }
  apply orb_true_iff in Hd as [Hd|Hd].
  - destruct (Hchg _ _ Hp0 Hd) as [Hc Hl]. unfold c. cbv zeta. rewrite Hc, Hl, orb_true_r.
    destruct xff; cbn [fst]; [|done].
    destruct (DPI_POLICY_LOG_VIOLATE (pd_action (ss_xff_desc s))); lia.
  - destruct Hx as [->|Hx]; [|rewrite Hx, Hx0 in Hd; done].
    destruct (Hchg _ _ Hx0 Hd) as [Hc Hl]. unfold xc. cbv zeta. rewrite Hc, Hl. cbn [orb fst].
    destruct (DPI_POLICY_LOG_VIOLATE (pd_action (ss_policy_desc s))); lia.
Qed.

Lemma dpi_policy_reeval_spec s m t :
  exists log p' r, dpi_policy_reeval pick env (Some fh) tick xff_enabled p to_server s m t = Done (log, p', r) /\
    ss_action (re_s r) = ss_action s /\
    pk_action p' = pk_action p /\ pk_ep p' = pk_ep p /\ pk_ip_proto p' = pk_ip_proto p /\
    (denied (re_s r) = true -> denied s = false -> 1 <= log) /\
    (server_port p to_server <> None -> hdl_ver (ev_hdl (pk_ep p)) = ev_ver (pk_ep p) ->
     has_flag (ss_flags s) DPI_SESS_FLAG_MESH_TO_SVR = false -> follows s (re_s r)).
Proof.
  unfold dpi_policy_reeval.
  destruct (reeval_policy_spec (ev_hdl (pk_ep p)) (ReevalState s m t false)) as (r1 & -> & (d1 & S1 & E1) & C1).
  cbn [mbind outcome_bind re_s re_eval] in *.
  destruct (reeval_mesh_spec (ev_hdl (pk_ep p)) r1) as (hdl & r2 & -> & (d2 & S2 & E2) & F2).
  cbn [mbind outcome_bind].
  assert (server_port p to_server <> None -> hdl_ver (ev_hdl (pk_ep p)) = ev_ver (pk_ep p) ->
    has_flag (ss_flags s) DPI_SESS_FLAG_MESH_TO_SVR = false -> follows s (re_s r2)) as C2.
  { intros Hp Hv Hm. rewrite F2; [by apply C1|]. by rewrite S1. }
  assert (ss_action (re_s r2) = ss_action s /\ ss_xff_desc (re_s r2) = ss_xff_desc s /\
          (re_eval r2 = false -> re_s r2 = s)) as (A2 & X2 & N2).
  { rewrite S2, S1. split_and!; [done..|]. intros [He Hs]%E2. rewrite S2, S1 in Hs. rewrite Hs.
    by destruct (E1 He) as [_ <-]. }
  destruct (is_xff xff_enabled (re_s r2)) eqn:Hxff.
  - destruct (reeval_xff_spec hdl r2) as (r3 & -> & Ev3 & A3 & P3). cbn [mbind outcome_bind]. rewrite Ev3.
    pose proof (reeval_log_spec true s (re_s r3)) as (L1 & L2 & L3 & L4).
    destruct (reeval_log p true s (re_s r3)) as [log p']. exists log, p', r3. cbn [fst snd] in *.
    split_and!; [done|congruence|done..| |].
    + intros Hd H0. apply L4; [done..|by left].
    + intros Hp Hv Hm. specialize (C2 Hp Hv Hm). unfold follows, current, ver_changed in *. by rewrite P3.
  - cbn [mbind outcome_bind]. destruct (re_eval r2) eqn:Ev.
    + pose proof (reeval_log_spec false s (re_s r2)) as (L1 & L2 & L3 & L4).
      destruct (reeval_log p false s (re_s r2)) as [log p']. exists log, p', r2. cbn [fst snd] in *.
      split_and!; try done. intros Hd H0. apply L4; [done..|by right].
    + exists 0, p, r2. split_and!; try done. rewrite (N2 eq_refl). intros H1 H0. congruence.
Qed.
End session.
End total.

(** ** Actions: [dpi_inspect_ethernet] *)

Inductive dpi_action_cate_t := DPI_CAT_NONE | DPI_CAT_DETECTION | DPI_CAT_BYPASS | DPI_CAT_PREVENTION.

Definition cate_rank (c : dpi_action_cate_t) : Z :=
  match c with DPI_CAT_NONE => 0 | DPI_CAT_DETECTION => 1 | DPI_CAT_BYPASS => 2 | DPI_CAT_PREVENTION => 3 end.

Definition dpi_dlp_get_action_category (act : Z) : dpi_action_cate_t :=
  if act =? DPI_ACTION_NONE then DPI_CAT_NONE
  else if act =? DPI_ACTION_ALLOW then DPI_CAT_DETECTION
  else if act =? DPI_ACTION_BYPASS then DPI_CAT_BYPASS
  else DPI_CAT_PREVENTION.

(** The decision of a pattern match on the packet and its session. *)
Definition dpi_set_pkt_decision (ps : dpi_packet_t * dpi_session_t) (action : Z) : dpi_packet_t * dpi_session_t :=
  let '(p, s) := ps in
  if cate_rank (dpi_dlp_get_action_category action) <? cate_rank (dpi_dlp_get_action_category (pk_action p))
  then (p, s) else (pk_set_action action p, ss_set_action action s).

Definition dpi_is_action_final (p : dpi_packet_t) (act : Z) : bool :=
  if act =? DPI_ACTION_BYPASS then true
  else if ev_tap (pk_ep p) then false else DPI_ACTION_ALLOW <? act.

(** The action of the packet becomes that of its session. *)
Definition convert_action (p : dpi_packet_t) (s : dpi_session_t) : dpi_packet_t * dpi_session_t :=
  let act := pk_action p in
  let tcp := pk_ip_proto p =? IPPROTO_TCP in
  if ev_tap (pk_ep p) then
    (p, if act =? DPI_ACTION_BYPASS then ss_set_action DPI_ACTION_BYPASS s else s)
  else if (act =? DPI_ACTION_DROP) || (act =? DPI_ACTION_RESET) then
    (p, if tcp then ss_set_action DPI_ACTION_BLOCK s else s)
  else if act =? DPI_ACTION_BYPASS then (pk_set_action DPI_ACTION_ALLOW p, ss_set_action DPI_ACTION_BYPASS s)
  else if act =? DPI_ACTION_BLOCK then (pk_set_action DPI_ACTION_DROP p, ss_set_action DPI_ACTION_BLOCK s)
  else (p, s).

Section inspect.
Context (pick : list dpi_policy_desc_t -> option dpi_policy_desc_t).
Context (env : dp_env) (fqdn : option dpi_fqdn_hdl_t) (tick : Z) (xff_enabled : bool).
(** What the protocol parsers do to the packet and the session. *)
Context (parser : dpi_packet_t -> dpi_session_t -> dpi_packet_t * dpi_session_t).

(** From the session to its policy. *)
Definition inspect_policy (p : dpi_packet_t) (to_server : bool) (s : dpi_session_t) (m : unknown_ip_map) (threats : Z)
    : outcome (dpi_packet_t * reeval_state) :=
  let p := dpi_set_action (ss_action s) p in
  if pk_action p =? DPI_ACTION_BYPASS then
    dpi_pkt_policy_reeval pick env fqdn tick xff_enabled p to_server s m threats
  else if ev_tap (pk_ep p) || (pk_action p <=? DPI_ACTION_ALLOW) then
    let '(p, s) := parser p s in
    dpi_pkt_policy_reeval pick env fqdn tick xff_enabled p to_server s m threats
  else Done (p, ReevalState s m threats false).

(** A packet of a session: the policy, the decisions of the pattern matches,
    the packet cache, which may overrun, and the action. *)
Definition inspect_session (p : dpi_packet_t) (to_server : bool) (decisions : list Z) (overrun : bool)
    (s : dpi_session_t) (m : unknown_ip_map) (threats : Z)
    : outcome (dpi_packet_t * dpi_session_t * unknown_ip_map) :=
  '(p, r) ← inspect_policy p to_server s m threats;
  let '(p, s) := fold_left dpi_set_pkt_decision decisions (p, re_s r) in
  let p := if negb (dpi_is_action_final p (pk_action p)) && overrun
           then dpi_set_action DPI_ACTION_BYPASS p else p in
  let '(p, s) := convert_action p s in
  Done (p, s, re_unknown r).
End inspect.

(** ** A denied session is blocked *)

(** The actions that drop a packet. *)
Definition blocks (act : Z) : bool :=
  (act =? DPI_ACTION_DROP) || (act =? DPI_ACTION_RESET) || (act =? DPI_ACTION_BLOCK).

Definition deny_blocked (s : dpi_session_t) : Prop := denied s = true -> blocks (ss_action s) = true.

(** The parsers leave the verdict of the policy and the endpoint alone. *)
Definition parser_ok (parser : dpi_packet_t -> dpi_session_t -> dpi_packet_t * dpi_session_t) : Prop :=
  forall p s, let '(p', s') := parser p s in
    ss_policy_desc s' = ss_policy_desc s /\ ss_xff_desc s' = ss_xff_desc s /\ pk_ep p' = pk_ep p.

Lemma blocks_cases act : blocks act = true -> act = DPI_ACTION_DROP \/ act = DPI_ACTION_RESET \/ act = DPI_ACTION_BLOCK.
Proof. unfold blocks. rewrite !orb_true_iff, !Z.eqb_eq. tauto. Qed.

Lemma set_action_blocks act p : blocks act = true -> pk_action (dpi_set_action act p) = act.
Proof.
  intros [->|[->| ->]]%blocks_cases; unfold dpi_set_action; by rewrite andb_false_r.
Qed.

Lemma set_action_ep act p : pk_ep (dpi_set_action act p) = pk_ep p.
Proof. unfold dpi_set_action. by destruct (_ && _). Qed.

(** Blocked packets and sessions stay blocked. *)
Lemma decisions_block acts p s :
  blocks (pk_action p) = true -> blocks (ss_action s) = true -> Forall (fun a => 0 <= a <= DPI_ACTION_BLOCK) acts ->
  let '(p', s') := fold_left dpi_set_pkt_decision acts (p, s) in
  blocks (pk_action p') = true /\ blocks (ss_action s') = true /\ denied s' = denied s /\ pk_ep p' = pk_ep p.
Proof.
  revert p s. induction acts as [|a acts IH]; intros p s Hp Hs Hall; cbn [fold_left]; [done|].
  apply Forall_cons in Hall as [Ha Hall].
  assert (exists p1 s1, dpi_set_pkt_decision (p, s) a = (p1, s1) /\ blocks (pk_action p1) = true /\
    blocks (ss_action s1) = true /\ denied s1 = denied s /\ pk_ep p1 = pk_ep p) as (p1 & s1 & -> & H1 & H2 & H3 & H4).
  { unfold dpi_set_pkt_decision.
    assert (cate_rank (dpi_dlp_get_action_category (pk_action p)) = 3) as ->
      by by apply blocks_cases in Hp as [->|[->| ->]].
    destruct (cate_rank _ <? 3) eqn:Hr; [by exists p, s|].
    assert (blocks a = true) as Hb.
    { unfold DPI_ACTION_BLOCK in Ha. assert (a = 0 \/ a = 1 \/ a = 2 \/ a = 3 \/ a = 4 \/ a = 5) as Hc by lia.
      by destruct Hc as [->|[->|[->|[->|[->| ->]]]]]. }
    do 2 eexists. by split_and!. }
  specialize (IH p1 s1 H1 H2 Hall). destruct (fold_left dpi_set_pkt_decision acts (p1, s1)) as [p' s'].
  destruct IH as (? & ? & ? & ?). split_and!; congruence.
Qed.

Lemma decisions_keep acts p s :
  let '(p', s') := fold_left dpi_set_pkt_decision acts (p, s) in denied s' = denied s /\ pk_ep p' = pk_ep p.
Proof.
  revert p s. induction acts as [|a acts IH]; intros p s; cbn [fold_left]; [done|].
  destruct (dpi_set_pkt_decision (p, s) a) as [p1 s1] eqn:H1.
  assert (denied s1 = denied s /\ pk_ep p1 = pk_ep p) as [H2 H3].
  { unfold dpi_set_pkt_decision in H1. destruct (_ <? _); by injection H1 as <- <-. }
  specialize (IH p1 s1). destruct (fold_left dpi_set_pkt_decision acts (p1, s1)) as [p' s'].
  destruct IH. split; congruence.
Qed.

Lemma convert_blocks p s :
  ev_tap (pk_ep p) = false -> blocks (pk_action p) = true -> blocks (ss_action s) = true ->
  let '(p', s') := convert_action p s in
  blocks (pk_action p') = true /\ blocks (ss_action s') = true /\ denied s' = denied s.
Proof.
  intros Ht [Hp|[Hp|Hp]]%blocks_cases Hs; unfold convert_action; rewrite Ht, Hp; cbn.
  - rewrite Hp. by destruct (_ =? IPPROTO_TCP).
  - rewrite Hp. by destruct (_ =? IPPROTO_TCP).
  - by split_and!.
Qed.

Lemma convert_denied p s : let '(_, s') := convert_action p s in denied s' = denied s.
Proof. unfold convert_action. by repeat match goal with |- context [if ?c then _ else _] => destruct c end. Qed.

(** The end of the inspection of a packet that is to be dropped. *)
Lemma tail_blocks decisions overrun p s :
  ev_tap (pk_ep p) = false -> blocks (pk_action p) = true -> blocks (ss_action s) = true ->
  Forall (fun a => 0 <= a <= DPI_ACTION_BLOCK) decisions ->
  let '(p1, s1) := fold_left dpi_set_pkt_decision decisions (p, s) in
  let p2 := if negb (dpi_is_action_final p1 (pk_action p1)) && overrun
            then dpi_set_action DPI_ACTION_BYPASS p1 else p1 in
  let '(p3, s3) := convert_action p2 s1 in
  blocks (pk_action p3) = true /\ blocks (ss_action s3) = true.
Proof.
  intros Ht Hp Hs Hall. pose proof (decisions_block decisions p s Hp Hs Hall) as Hd.
  destruct (fold_left dpi_set_pkt_decision decisions (p, s)) as [p1 s1]. destruct Hd as (Hp1 & Hs1 & _ & Hep).
  assert (dpi_is_action_final p1 (pk_action p1) = true) as ->.
  { unfold dpi_is_action_final. rewrite Hep, Ht. by apply blocks_cases in Hp1 as [->|[->| ->]]. }
  cbn zeta. cbn [negb andb]. rewrite <-Hep in Ht. pose proof (convert_blocks p1 s1 Ht Hp1 Hs1) as Hc.
  destruct (convert_action p1 s1). tauto.
Qed.

Lemma tail_denied decisions overrun p s :
  let '(p1, s1) := fold_left dpi_set_pkt_decision decisions (p, s) in
  let p2 := if negb (dpi_is_action_final p1 (pk_action p1)) && overrun
            then dpi_set_action DPI_ACTION_BYPASS p1 else p1 in
  let '(_, s3) := convert_action p2 s1 in denied s3 = denied s.
Proof.
  pose proof (decisions_keep decisions p s) as Hd.
  destruct (fold_left dpi_set_pkt_decision decisions (p, s)) as [p1 s1]. destruct Hd as [Hd _]. cbn zeta.
  set (p2 := if _ && _ then _ else _). pose proof (convert_denied p2 s1) as Hc.
  destruct (convert_action p2 s1). congruence.
Qed.

(** Off tap mode a blocked session is not looked at again. *)
Lemma inspect_blocked pick env fqdn tick xff_enabled parser p to_server s m t :
  ev_tap (pk_ep p) = false -> blocks (ss_action s) = true ->
  inspect_policy pick env fqdn tick xff_enabled parser p to_server s m t =
  Done (dpi_set_action (ss_action s) p, ReevalState s m t false).
Proof.
  intros Ht Hb. unfold inspect_policy. rewrite (set_action_blocks _ _ Hb), set_action_ep, Ht.
  by apply blocks_cases in Hb as [->|[->| ->]].
Qed.

Section blocked.
Context (pick : list dpi_policy_desc_t -> option dpi_policy_desc_t).
Context (env : dp_env) (fh : dpi_fqdn_hdl_t) (tick : Z) (xff_enabled : bool).
Context (Hfh : fqdn_wf fh).

(** A session that the policy now denies is blocked, its packet dropped. *)
Lemma pkt_reeval_spec p to_server s m t :
  denied s = false ->
  exists p' r, dpi_pkt_policy_reeval pick env (Some fh) tick xff_enabled p to_server s m t = Done (p', r) /\
    pk_ep p' = pk_ep p /\
    (denied (re_s r) = true -> pk_action p' = DPI_ACTION_DROP /\ ss_action (re_s r) = DPI_ACTION_BLOCK).
Proof.
  intros Hs. unfold dpi_pkt_policy_reeval.
  destruct (dpi_policy_reeval_spec pick env fh tick Hfh xff_enabled p to_server s m t)
    as (log & p1 & r & -> & _ & _ & Hep & _ & Hlog & _).
  cbn [mbind outcome_bind]. destruct (1 <=? log) eqn:Hl.
  - fold (denied (re_s r)). set (p2 := if DPI_POLICY_LOG_VIOLATE (pd_action (ss_policy_desc (re_s r))) then _ else _).
    set (p3 := if DPI_POLICY_LOG_VIOLATE (pd_action (ss_xff_desc (re_s r))) then _ else _).
    assert (pk_ep p3 = pk_ep p) as Hep3.
    { unfold p3, p2. rewrite <-Hep. by destruct (DPI_POLICY_LOG_VIOLATE _), (DPI_POLICY_LOG_VIOLATE _). }
    destruct (denied (re_s r)) eqn:Hd.
    + do 2 eexists. split; [done|]. split; [by rewrite set_action_ep|]. intros _.
      by rewrite set_action_blocks.
    + do 2 eexists. split; [done|]. split; [done|]. congruence.
  - do 2 eexists. split; [done|]. split; [done|]. intros Hd. apply Z.leb_gt in Hl.
    pose proof (Hlog Hd Hs). lia.
Qed.

Context (parser : dpi_packet_t -> dpi_session_t -> dpi_packet_t * dpi_session_t).
Context (Hparser : parser_ok parser).

(** After the policy: the session is denied only if packet and session are
    blocked; a blocked session is not looked at again. *)
Lemma inspect_policy_spec p to_server s m t :
  ev_tap (pk_ep p) = false -> deny_blocked s ->
  exists p' r, inspect_policy pick env (Some fh) tick xff_enabled parser p to_server s m t = Done (p', r) /\
    pk_ep p' = pk_ep p /\
    (denied (re_s r) = true \/ blocks (ss_action s) = true ->
     blocks (pk_action p') = true /\ blocks (ss_action (re_s r)) = true).
Proof.
  intros Ht Hdb. destruct (blocks (ss_action s)) eqn:Hb.
  - rewrite inspect_blocked by done. do 2 eexists. split; [done|]. rewrite set_action_ep, set_action_blocks by done. done.
  - unfold inspect_policy. set (p1 := dpi_set_action (ss_action s) p).
    assert (pk_ep p1 = pk_ep p) as Hep by apply set_action_ep.
    assert (denied s = false) as Hd by (destruct (denied s) eqn:E; [by rewrite Hdb in Hb|done]).
    destruct (pk_action p1 =? DPI_ACTION_BYPASS).
    + destruct (pkt_reeval_spec p1 to_server s m t Hd) as (p' & r & -> & Hep' & H').
      exists p', r. split_and!; [done|congruence|]. intros [[-> ->]%H'|]; done.
    + destruct (ev_tap (pk_ep p1) || (pk_action p1 <=? DPI_ACTION_ALLOW)).
      * specialize (Hparser p1 s). destruct (parser p1 s) as [p2 s2]. destruct Hparser as (Hp2 & Hx2 & Hep2).
        destruct (pkt_reeval_spec p2 to_server s2 m t) as (p' & r & -> & Hep' & H');
          [unfold denied in *; by rewrite Hp2, Hx2|].
        exists p', r. split_and!; [done|congruence|]. intros [[-> ->]%H'|]; done.
      * exists p1, (ReevalState s m t false). split_and!; [done|done|]. cbn [re_s]. intros [?|?]; congruence.
Qed.
End blocked.

(** One packet: a session that is denied after it, or was blocked before it, is
    blocked after it, and the packet is dropped. *)
Lemma inspect_denied pick env fh tick xff_enabled parser p to_server decisions overrun s m t :
  fqdn_wf fh -> parser_ok parser -> Forall (fun a => 0 <= a <= DPI_ACTION_BLOCK) decisions ->
  ev_tap (pk_ep p) = false -> deny_blocked s ->
  exists p' s' m', inspect_session pick env (Some fh) tick xff_enabled parser p to_server decisions overrun s m t
    = Done (p', s', m') /\
    deny_blocked s' /\
    (denied s' = true \/ blocks (ss_action s) = true -> blocks (pk_action p') = true /\ blocks (ss_action s') = true).
Proof.
  intros Hfh Hparser Hdec Ht Hdb. unfold inspect_session.
  destruct (inspect_policy_spec pick env fh tick xff_enabled Hfh parser Hparser p to_server s m t Ht Hdb)
    as (p1 & r & -> & Hep & Hb).
  cbn [mbind outcome_bind].
  pose proof (tail_denied decisions overrun p1 (re_s r)) as Hden.
  pose proof (tail_blocks decisions overrun p1 (re_s r)) as Htail.
  destruct (fold_left dpi_set_pkt_decision decisions (p1, re_s r)) as [p2 s2]. cbn zeta in *.
  set (p3 := if _ && _ then _ else _) in *. destruct (convert_action p3 s2) as [p4 s4].
  assert (denied s4 = true \/ blocks (ss_action s) = true -> blocks (pk_action p4) = true /\ blocks (ss_action s4) = true)
    as Hfin.
  { rewrite Hden. intros [Hp Hs]%Hb. apply Htail; [congruence|done..]. }
  exists p4, s4, (re_unknown r). split_and!; [done| |done]. intros Hd. by apply Hfin; left.
Qed.

(** A packet as it comes to its session: the settings, the names and the tick
    at that time, the parser of its protocol, and what the pattern matches and
    the packet cache will do. *)
Record inspection := Inspection {
  in_env : dp_env; in_fqdn : dpi_fqdn_hdl_t; in_tick : Z; in_xff : bool;
  in_parser : dpi_packet_t -> dpi_session_t -> dpi_packet_t * dpi_session_t;
  in_pkt : dpi_packet_t; in_to_server : bool; in_decisions : list Z; in_overrun : bool; in_threats : Z
}.

(** The packets of a session one after the other, with the packet and the
    session after each. *)
Fixpoint session_run (pick : list dpi_policy_desc_t -> option dpi_policy_desc_t) (ins : list inspection)
    (s : dpi_session_t) (m : unknown_ip_map) : outcome (list (dpi_packet_t * dpi_session_t)) :=
  match ins with
  | [] => Done []
  | i :: ins =>
      '(p, s, m) ← inspect_session pick (in_env i) (Some (in_fqdn i)) (in_tick i) (in_xff i) (in_parser i) (in_pkt i)
                     (in_to_server i) (in_decisions i) (in_overrun i) s m (in_threats i);
      out ← session_run pick ins s m;
      Done ((p, s) :: out)
  end.

Record inspection_ok (i : inspection) : Prop := {
  io_fqdn : fqdn_wf (in_fqdn i);
  io_parser : parser_ok (in_parser i);
  io_decisions : Forall (fun a => 0 <= a <= DPI_ACTION_BLOCK) (in_decisions i);
  io_tap : ev_tap (pk_ep (in_pkt i)) = false
}.

Definition dropped (ps : dpi_packet_t * dpi_session_t) : Prop :=
  blocks (pk_action ps.1) = true /\ blocks (ss_action ps.2) = true.

Lemma session_run_spec pick ins s m :
  Forall inspection_ok ins -> deny_blocked s ->
  exists out, session_run pick ins s m = Done out /\ length out = length ins /\
    (blocks (ss_action s) = true -> Forall dropped out) /\
    forall i p s', out !! i = Some (p, s') -> denied s' = true -> Forall dropped (drop i out).
Proof.
  intros Hall. revert s m. induction Hall as [|i ins [H1 H2 H3 H4] _ IH]; intros s m Hdb; cbn [session_run].
  - exists []. split_and!; [done..|]. by intros i.
  - destruct (inspect_denied pick (in_env i) (in_fqdn i) (in_tick i) (in_xff i) (in_parser i) (in_pkt i)
      (in_to_server i) (in_decisions i) (in_overrun i) s m (in_threats i) H1 H2 H3 H4 Hdb)
      as (p' & s' & m' & -> & Hdb' & Hb). cbn [mbind outcome_bind].
    destruct (IH s' m' Hdb') as (out & -> & Hlen & Hf & Hi). cbn [mbind outcome_bind].
    assert (Hdrop : denied s' = true \/ blocks (ss_action s) = true -> Forall dropped ((p', s') :: out)).
    { intros H%Hb. constructor; [exact H|]. apply Hf, H. }
    exists ((p', s') :: out). split_and!; [done|cbn; by rewrite Hlen|by auto|].
    intros [|j] q s1 Hj Hd; cbn in Hj |- *; [injection Hj as -> ->; auto|by eapply Hi].
Qed.

(** A session that was just made is not denied. *)
Lemma session_policy_allowed pick env fqdn tick p to_server st d p' st' :
  session_policy pick env fqdn tick p to_server st = Done (Some d, p', st') ->
  (pd_action d =? DP_POLICY_ACTION_DENY) = false.
Proof.
  unfold session_policy. destruct (negb _).
  - destruct (dpi_policy_lookup _ _ _ _ _ _ _ _ _ _ _ _) as [[x st1]|]; [|done]. cbn [mbind outcome_bind].
    destruct (pd_action x =? DP_POLICY_ACTION_DENY) eqn:Hx; [done|]. by intros [= -> _ _].
  - intros [= <- _ _]. unfold dpi_fill_proxymesh_policy_desc. by destruct (negb _).
Qed.

(** C3: A session is made for a packet that the policy does not deny, and then
    any packets of it are inspected, none of them in tap mode, under settings,
    policies and (well-formed tables of) domain names that may change from one
    to the next, with parsers that leave the descriptors of the session and the endpoint of the
    packet alone, and with any decisions of the pattern matches and any
    overruns of the packet cache.  Every inspection ends, and from the first
    packet on after which the policy denies the session, that packet and every
    later one is dropped and the session stays blocked. *)
Theorem denied_session_dropped pick env fqdn tick p to_server st p1 st1 s0 ins m :
  session_policy pick env fqdn tick p to_server st = Done (Some (ss_policy_desc s0), p1, st1) ->
  ss_xff_desc s0 = zero_desc -> Forall inspection_ok ins ->
  exists out, session_run pick ins s0 m = Done out /\ length out = length ins /\
    forall i p' s', out !! i = Some (p', s') -> denied s' = true -> Forall dropped (drop i out).
Proof.
  intros Hnew Hx Hall. destruct (session_run_spec pick ins s0 m Hall) as (out & Hr & Hlen & _ & Hd).
  - unfold deny_blocked, denied. by rewrite (session_policy_allowed _ _ _ _ _ _ _ _ _ _ Hnew), Hx.
  - by exists out.
Qed.

(** ** A packet brings its session up to date *)

(** The parsers leave alone what the lookups of the policy depend on. *)
Definition parser_keeps (parser : dpi_packet_t -> dpi_session_t -> dpi_packet_t * dpi_session_t) (to_server : bool) : Prop :=
  forall p s, let '(p', s') := parser p s in
    ss_policy_desc s' = ss_policy_desc s /\ pk_ep p' = pk_ep p /\ server_port p' to_server = server_port p to_server /\
    has_flag (ss_flags s') DPI_SESS_FLAG_MESH_TO_SVR = has_flag (ss_flags s) DPI_SESS_FLAG_MESH_TO_SVR.

Lemma follows_ext p p2 s s2 s' s3 :
  pk_ep p2 = pk_ep p -> ss_policy_desc s2 = ss_policy_desc s -> ss_policy_desc s3 = ss_policy_desc s' ->
  follows p2 s2 s' -> follows p s s3.
Proof. unfold follows, current, ver_changed. by intros -> -> ->. Qed.

Lemma tail_policy decisions overrun p s :
  let '(p1, s1) := fold_left dpi_set_pkt_decision decisions (p, s) in
  let p2 := if negb (dpi_is_action_final p1 (pk_action p1)) && overrun
            then dpi_set_action DPI_ACTION_BYPASS p1 else p1 in
  let '(_, s3) := convert_action p2 s1 in ss_policy_desc s3 = ss_policy_desc s.
Proof.
  assert (H : forall acts p s, ss_policy_desc (fold_left dpi_set_pkt_decision acts (p, s)).2 = ss_policy_desc s).
  { clear. intros acts. induction acts as [|a acts IH]; intros p s; [done|]. cbn [fold_left].
    unfold dpi_set_pkt_decision at 2. destruct (_ <? _); by rewrite IH. }
  specialize (H decisions p s). destruct (fold_left dpi_set_pkt_decision decisions (p, s)) as [p1 s1].
  cbn [snd] in H. cbn zeta. rewrite <-H. generalize (if negb (dpi_is_action_final p1 (pk_action p1)) && overrun
    then dpi_set_action DPI_ACTION_BYPASS p1 else p1). intros p2. unfold convert_action.
  by repeat match goal with |- context [if ?c then _ else _] => destruct c end.
Qed.

Section up_to_date.
Context (pick : list dpi_policy_desc_t -> option dpi_policy_desc_t).
Context (env : dp_env) (fh : dpi_fqdn_hdl_t) (tick : Z) (xff_enabled : bool).
Context (Hfh : fqdn_wf fh).
Context (parser : dpi_packet_t -> dpi_session_t -> dpi_packet_t * dpi_session_t) (to_server : bool).
Context (Hparser : parser_keeps parser to_server).

Lemma pkt_reeval_follows p s m t :
  server_port p to_server <> None -> hdl_ver (ev_hdl (pk_ep p)) = ev_ver (pk_ep p) ->
  has_flag (ss_flags s) DPI_SESS_FLAG_MESH_TO_SVR = false ->
  exists p' r, dpi_pkt_policy_reeval pick env (Some fh) tick xff_enabled p to_server s m t = Done (p', r) /\
    follows p s (re_s r).
Proof.
  intros Hp Hv Hm. unfold dpi_pkt_policy_reeval.
  destruct (dpi_policy_reeval_spec pick env fh tick Hfh xff_enabled p to_server s m t)
    as (log & p1 & r & -> & _ & _ & _ & _ & _ & Hf). cbn [mbind outcome_bind].
  specialize (Hf Hp Hv Hm). destruct (1 <=? log); [|by do 2 eexists].
  destruct (_ || _); [|by do 2 eexists]. do 2 eexists. split; [done|]. by eapply follows_ext.
Qed.

(** The packets that make a session look at its policy again. *)
Definition passes (act : Z) : Prop := act <= DPI_ACTION_ALLOW \/ act = DPI_ACTION_BYPASS.
Definition looks_again (p : dpi_packet_t) (s : dpi_session_t) : Prop :=
  ev_tap (pk_ep p) = true \/ (passes (pk_action p) /\ passes (ss_action s)).

Lemma set_action_port act p : server_port (dpi_set_action act p) to_server = server_port p to_server.
Proof. unfold dpi_set_action. by destruct (_ && _). Qed.

Lemma inspect_policy_follows p s m t :
  server_port p to_server <> None -> hdl_ver (ev_hdl (pk_ep p)) = ev_ver (pk_ep p) ->
  has_flag (ss_flags s) DPI_SESS_FLAG_MESH_TO_SVR = false ->
  exists p' r, inspect_policy pick env (Some fh) tick xff_enabled parser p to_server s m t = Done (p', r) /\
    (looks_again p s -> follows p s (re_s r)).
Proof.
  intros Hp Hv Hm. unfold inspect_policy. set (p1 := dpi_set_action (ss_action s) p).
  assert (pk_ep p1 = pk_ep p) as Hep by apply set_action_ep.
  assert (server_port p1 to_server = server_port p to_server) as Hport by apply set_action_port.
  destruct (pk_action p1 =? DPI_ACTION_BYPASS) eqn:Hby.
  - destruct (pkt_reeval_follows p1 s m t) as (p' & r & -> & Hf); [congruence|congruence|done|].
    do 2 eexists. split; [done|]. intros _. by eapply follows_ext.
  - destruct (ev_tap (pk_ep p1) || (pk_action p1 <=? DPI_ACTION_ALLOW)) eqn:Hor.
    2:{ do 2 eexists. split; [done|]. intros Hl. exfalso. apply orb_false_iff in Hor as [Ht Ha%Z.leb_gt].
      rewrite Hep in Ht. destruct Hl as [?|[H1 H2]]; [congruence|].
      apply Z.eqb_neq in Hby. revert Hby Ha. unfold p1, dpi_set_action.
      unfold passes, DPI_ACTION_BYPASS, DPI_ACTION_ALLOW in *. destruct (_ && _); cbn; lia. }
    specialize (Hparser p1 s). destruct (parser p1 s) as [p2 s2]. destruct Hparser as (Hd & He & Hs & Hfl).
    destruct (pkt_reeval_follows p2 s2 m t) as (p' & r & -> & Hf); [congruence|congruence|congruence|].
    do 2 eexists. split; [done|]. intros _. eapply follows_ext; [by rewrite He|exact Hd|done|exact Hf].
Qed.
End up_to_date.

(** C27: An IPv4 packet of TCP, UDP or ICMP whose endpoint has the version of
    its policy, in a session that is not from a sidecar proxy to its server
    (such a session is looked up with the policy of the parent): in tap mode,
    or when neither the packet nor the session is to be dropped, the session
    has after the inspection a verdict of the present policy of the endpoint:
    one that depends on the policy and had another version is replaced by one
    of the present version.  The table of domain names is well formed, and the
    parsers leave alone the descriptor, the
    endpoint, the protocol and port, and the mark of a proxy.  Off tap mode a
    session that is blocked keeps its verdict, and is not looked at again. *)
Theorem session_follows_policy pick env fh tick xff_enabled parser p to_server decisions overrun s m t :
  fqdn_wf fh -> parser_keeps parser to_server ->
  server_port p to_server <> None -> hdl_ver (ev_hdl (pk_ep p)) = ev_ver (pk_ep p) ->
  has_flag (ss_flags s) DPI_SESS_FLAG_MESH_TO_SVR = false ->
  exists p' s' m', inspect_session pick env (Some fh) tick xff_enabled parser p to_server decisions overrun s m t
    = Done (p', s', m') /\
    (looks_again p s -> follows p s s') /\
    (ev_tap (pk_ep p) = false -> blocks (ss_action s) = true -> ss_policy_desc s' = ss_policy_desc s).
Proof.
  intros Hfh Hparser Hp Hv Hm. unfold inspect_session.
  destruct (inspect_policy_follows pick env fh tick xff_enabled Hfh parser to_server Hparser p s m t Hp Hv Hm)
    as (p1 & r & Hr & Hl).
  assert (ev_tap (pk_ep p) = false -> blocks (ss_action s) = true -> ss_policy_desc (re_s r) = ss_policy_desc s) as Hb.
  { intros Ht Hb. rewrite inspect_blocked in Hr by done. by injection Hr as _ <-. }
  rewrite Hr.
  cbn [mbind outcome_bind]. pose proof (tail_policy decisions overrun p1 (re_s r)) as Htail.
  destruct (fold_left dpi_set_pkt_decision decisions (p1, re_s r)) as [p2 s2]. cbn zeta in *.
  set (p3 := if _ && _ then _ else _) in *. destruct (convert_action p3 s2) as [p4 s4].
  do 3 eexists. split; [done|]. split.
  - intros Ha. by eapply follows_ext; [..|apply Hl].
  - intros Ht Hbl. rewrite Htail. by apply Hb.
Qed.

(** ** Examples *)

(** The tables of the rules of [NvDPEquiv], in version 2 of the policy. *)
Definition ex_hdl : dpi_policy_hdl_t :=
  match policy_tables head ex_env (Some dpi_fqdn_hdl_init) 2 DP_POLICY_ACTION_DENY DP_POLICY_APPLY_EGRESS ex_rules with
  | Done h => h
  | Panicked _ => dpi_policy_hdl_init 0
  end.

(** A packet from 8.8.8.8 to port 80 of the workload, and its session, which
    version 1 of the policy allowed. *)
Definition ex_pkt (tap : bool) : dpi_packet_t :=
  Packet ETH_P_IP IPPROTO_TCP 134744072 ex_ip 40000 80 DPI_PKT_FLAG_INGRESS DPI_ACTION_NONE
    (EpView false tap (Some ex_hdl) 2 false None None).
Definition ex_session : dpi_session_t :=
  Session DPI_SESS_FLAG_INGRESS 0 0 DPI_ACTION_NONE (PolicyDesc 9 DP_POLICY_ACTION_ALLOW 5 1 1) zero_desc 0 0 0 "" 0.
Definition ex_parser (p : dpi_packet_t) (s : dpi_session_t) : dpi_packet_t * dpi_session_t := (p, s).

Lemma session_follows_policy_witness :
  exists p' s' m', inspect_session head ex_env (Some dpi_fqdn_hdl_init) 100 false ex_parser (ex_pkt false) true
    [DPI_ACTION_ALLOW] true ex_session ∅ 0 = Done (p', s', m') /\ pd_hdl_ver (ss_policy_desc s') = 2.
Proof.
  assert (Hl : looks_again (ex_pkt false) ex_session) by by right; split; left.
  destruct (session_follows_policy head ex_env dpi_fqdn_hdl_init 100 false ex_parser (ex_pkt false) true
    [DPI_ACTION_ALLOW] true ex_session ∅ 0) as (p' & s' & m' & Hr & Hf & _).
  - apply fqdn_init_wf.
  - by intros p s.
  - done.
  - vm_compute. reflexivity.
  - reflexivity.
  - exists p', s', m'. split; [exact Hr|]. apply (Hf Hl). reflexivity.
Defined.

(** The session of the example, made while the endpoint had no policy, and two
    packets of it under version 2. *)
Definition ex_first : dpi_packet_t :=
  Packet ETH_P_IP IPPROTO_TCP 134744072 ex_ip 40000 80 DPI_PKT_FLAG_INGRESS DPI_ACTION_NONE
    (EpView false false None 0 false None None).
Definition ex_made : dpi_session_t :=
  match session_policy head ex_env (Some dpi_fqdn_hdl_init) 100 ex_first true (LookupState ∅ None 0) with
  | Done (Some d, _, _) => ss_set_policy_desc d ex_session
  | _ => ex_session
  end.
Definition ex_inspection : inspection :=
  Inspection ex_env dpi_fqdn_hdl_init 100 false ex_parser (ex_pkt false) true [DPI_ACTION_ALLOW] true 0.

Lemma denied_session_dropped_witness :
  exists p1 st1 out,
    session_policy head ex_env (Some dpi_fqdn_hdl_init) 100 ex_first true (LookupState ∅ None 0) =
      Done (Some (ss_policy_desc ex_made), p1, st1) /\
    session_run head [ex_inspection; ex_inspection] ex_made ∅ = Done out /\ length out = 2%nat /\ Forall dropped out.
Proof.
  destruct (denied_session_dropped head ex_env (Some dpi_fqdn_hdl_init) 100 ex_first true (LookupState ∅ None 0)
    ex_first (LookupState ∅ None 0) ex_made [ex_inspection; ex_inspection] ∅) as (out & Hr & Hlen & Hd).
  - vm_compute. reflexivity.
  - vm_compute. reflexivity.
  - assert (inspection_ok ex_inspection).
    { split; [apply fqdn_init_wf|by intros p s|repeat constructor; done|reflexivity]. }
    constructor; [assumption|]. constructor; [assumption|constructor].
  - exists ex_first, (LookupState ∅ None 0), out. split; [vm_compute; reflexivity|]. split; [exact Hr|]. split; [exact Hlen|].
    destruct out as [|[p' s'] out]; [discriminate|]. apply (Hd 0%nat p' s'); [reflexivity|].
    revert Hr. vm_compute. intros Hr. injection Hr as <- <- <-. reflexivity.
Defined.

Lemma packet_verdict_witness :
  exists hdl, policy_tables head ex_env (Some dpi_fqdn_hdl_init) 2 DP_POLICY_ACTION_DENY DP_POLICY_APPLY_EGRESS ex_rules
    = Done hdl /\
  exists x st', dpi_policy_lookup head ex_env (Some dpi_fqdn_hdl_init) 100 (ex_pkt false) (Some hdl) 0 true false
    zero_desc 0 (LookupState ∅ None 0) = Done (x, st') /\
    pd_id x = 1 /\ pd_action x = DP_POLICY_ACTION_DENY /\ ls_unknown st' = ∅.
Proof.
  destruct (packet_verdict head ex_env dpi_fqdn_hdl_init ex_own 2 DP_POLICY_ACTION_DENY DP_POLICY_APPLY_EGRESS ex_rules)
    as (hdl & Hh & Hl).
  - split; [|by intros []]. intros [|y l] x [= ->]. left.
  - reflexivity.
  - right. split; reflexivity.
  - reflexivity.
  - repeat constructor; simpl; intros; reflexivity || done.
  - exists hdl. split; [exact Hh|].
    destruct (Hl ex_env dpi_fqdn_hdl_init 100 (ex_pkt false) true 80 zero_desc (LookupState ∅ None 0))
      as (x & st' & Hx & _ & Hv); [reflexivity|reflexivity|split; reflexivity || done..| |reflexivity|reflexivity|].
    + split; [split; reflexivity|]. split; [reflexivity|]. split; reflexivity || done.
    + exists x, st'. split; [exact Hx|exact Hv].
Defined.

(** In tap mode a full packet cache marks a denied session to be passed over;
    when the endpoint is then taken off tap mode, the verdict is still to
    deny, nothing changes for the session, and its packets pass. *)
Theorem bypassed_deny_escapes :
  let denied_s := ss_set_action DPI_ACTION_BLOCK
    (ss_set_policy_desc (PolicyDesc 1 DP_POLICY_ACTION_DENY 5 1 1) ex_session) in
  match inspect_session head ex_env (Some dpi_fqdn_hdl_init) 100 false ex_parser (ex_pkt true) true [] true denied_s ∅ 0 with
  | Done (_, s1, m1) =>
      denied s1 = true /\
      match inspect_session head ex_env (Some dpi_fqdn_hdl_init) 101 false ex_parser (ex_pkt false) true [] false s1 m1 0 with
      | Done (p2, s2, _) => denied s2 = true /\ pd_hdl_ver (ss_policy_desc s2) = 2 /\ pk_action p2 = DPI_ACTION_ALLOW
      | Panicked _ => False
      end
  | Panicked _ => False
  end.
Proof. vm_compute. by split_and!. Qed.
