(* ===== verification/NvTree.v ===== *)
(** * Ordered trees: [dp/utils/tree.c]

    The binary search trees of the data plane.  A node of the C code has three
    links and the arm on which it hangs; here a tree is an inductive value,
    the links to the parents are left out, and a walk with [tree_first_node]
    and [tree_next_node] is the list of the nodes from left to right.  The
    comparison is an argument, as in the code.  The file shows that the trees
    implement sorted lists without duplicates. *)

From Stdlib Require Import ZArith Lia.
From S2P Require Import Prelude.
Local Open Scope Z_scope.

Inductive tree (A : Type) : Type :=
  | Leaf : tree A
  | Node : tree A -> A -> tree A -> tree A.
Arguments Leaf {A}.
Arguments Node {A} _ _ _.

Inductive arm := ARM_LEFT | ARM_MIDDLE | ARM_RIGHT.

Definition shift (result : Z) : arm :=
  if 0 <? result then ARM_RIGHT else if result <? 0 then ARM_LEFT else ARM_MIDDLE.

Record tree_t (A : Type) := TreeT { tr_root : tree A; tr_count : Z }.
Arguments TreeT {A} _ _.
Arguments tr_root {A} _.
Arguments tr_count {A} _.

Section tree.
Context {A : Type}.
(** [cmp target node] *)
Context (cmp : A -> A -> Z).

Definition tree_init : tree_t A := TreeT Leaf 0.

(** The nodes from the first to the last. *)
Fixpoint nodes (t : tree A) : list A :=
  match t with Leaf => [] | Node l x r => nodes l ++ x :: nodes r end.

Fixpoint tree_find (t : tree A) (target : A) : option A :=
  match t with
  | Leaf => None
  | Node l x r =>
      match shift (cmp target x) with
      | ARM_LEFT => tree_find l target
      | ARM_RIGHT => tree_find r target
      | ARM_MIDDLE => Some x
      end
  end.

Definition tree_find_node (t : tree_t A) (target : A) : option A := tree_find (tr_root t) target.

(** [None] when there is a node with the key. *)
Fixpoint tree_insert (t : tree A) (node : A) : option (tree A) :=
  match t with
  | Leaf => Some (Node Leaf node Leaf)
  | Node l x r =>
      match shift (cmp node x) with
      | ARM_LEFT => (fun l => Node l x r) <$> tree_insert l node
      | ARM_RIGHT => (fun r => Node l x r) <$> tree_insert r node
      | ARM_MIDDLE => None
      end
  end.

Definition tree_insert_node (t : tree_t A) (node : A) : option (tree_t A) :=
  (fun root => TreeT root (wrap 32 (tr_count t + 1))) <$> tree_insert (tr_root t) node.

(** The last node of a tree that is not empty, and what remains. *)
Fixpoint take_last (l : tree A) (x : A) (r : tree A) : tree A * A :=
  match r with
  | Leaf => (l, x)
  | Node l' x' r' => let '(r, y) := take_last l' x' r' in (Node l x r, y)
  end.

(** A node with two children changes places with the one before it. *)
Definition unlink (l r : tree A) : tree A :=
  match l, r with
  | Node l1 x1 r1, Node _ _ _ => let '(l, y) := take_last l1 x1 r1 in Node l y r
  | Node _ _ _, Leaf => l
  | Leaf, _ => r
  end.

(** The node is given by its address: here the element, wherever it is in the
    tree, without a comparison.  [None] when it is not in the tree. *)
Context `{!EqDecision A}.

Fixpoint tree_remove (t : tree A) (node : A) : option (tree A) :=
  match t with
  | Leaf => None
  | Node l x r =>
      if decide (x = node) then Some (unlink l r)
      else
        match tree_remove l node with
        | Some l => Some (Node l x r)
        | None => (fun r => Node l x r) <$> tree_remove r node
        end
  end.

Definition tree_remove_node (t : tree_t A) (node : A) : option (tree_t A) :=
  (fun root => TreeT root (wrap 32 (tr_count t - 1))) <$> tree_remove (tr_root t) node.

(** [tree_traverse] *)
Definition tree_traverse {S} (each : S -> A -> S) (s : S) (t : tree_t A) : S :=
  fold_left each (nodes (tr_root t)) s.

(** ** Sorted lists *)

Section spec.
(** The comparison orders the keys of the elements of [P]. *)
Context (P : A -> Prop) (key : A -> Z).
Context (cmp_key : forall x y, P x -> P y ->
  shift (cmp x y) = if key y <? key x then ARM_RIGHT else if key x <? key y then ARM_LEFT else ARM_MIDDLE).

(** Every element is in [P], and the keys go up. *)
Definition sorted (l : list A) : Prop := Forall P l /\ StronglySorted (fun x y => key x < key y) l.

Lemma sorted_app l1 x l2 :
  sorted (l1 ++ x :: l2) <->
  sorted l1 /\ sorted l2 /\ P x /\ Forall (fun y => key y < key x) l1 /\ Forall (fun y => key x < key y) l2.
Proof.
  unfold sorted. rewrite Forall_app, Forall_cons. split.
  - intros [(H1 & Hx & H2) Hs]. apply StronglySorted_app in Hs as (Hlt & Hs1 & Hs2).
    apply StronglySorted_inv in Hs2 as [Hs2 Hf2]. split_and!; try done.
    apply Forall_forall. intros y Hy. apply (Hlt y x Hy). left.
  - intros ([H1 Hs1] & [H2 Hs2] & Hx & Hf1 & Hf2). split; [done|].
    apply StronglySorted_app. rewrite Forall_forall in Hf1, Hf2. split_and!; [|done|].
    + intros y z Hy [->|Hz]%elem_of_cons; [by apply Hf1|]. pose proof (Hf1 y Hy). pose proof (Hf2 z Hz). lia.
    + constructor; [done|]. by apply Forall_forall.
Qed.

Lemma shift_cases x y :
  P x -> P y ->
  match shift (cmp x y) with ARM_LEFT => key x < key y | ARM_RIGHT => key y < key x | ARM_MIDDLE => key x = key y end.
Proof.
  intros Hx Hy. rewrite cmp_key by done. destruct (Z.ltb_spec (key y) (key x)); [done|].
  destruct (Z.ltb_spec (key x) (key y)); lia.
Qed.

(** A lookup finds the node with the key. *)
Lemma tree_find_spec t x :
  sorted (nodes t) -> P x ->
  match tree_find t x with
  | Some y => y ∈ nodes t /\ key y = key x
  | None => forall y, y ∈ nodes t -> key y <> key x
  end.
Proof.
  induction t as [|l IHl y r IHr]; intros Hs Hx; cbn [tree_find nodes] in *.
  - by intros z ?%elem_of_nil.
  - apply sorted_app in Hs as (Hl & Hr & Hy & Hfl & Hfr). rewrite Forall_forall in Hfl, Hfr.
    pose proof (shift_cases x y Hx Hy) as Hc.
    destruct (shift (cmp x y)).
    + specialize (IHl Hl Hx). destruct (tree_find l x) as [z|]; [set_solver|].
      intros z. rewrite elem_of_app, elem_of_cons. intros [Hz|[->|Hz]]; [by apply IHl|lia|].
      pose proof (Hfr z Hz). lia.
    + set_solver.
    + specialize (IHr Hr Hx). destruct (tree_find r x) as [z|]; [set_solver|].
      intros z. rewrite elem_of_app, elem_of_cons. intros [Hz|[->|Hz]]; [|lia|by apply IHr].
      pose proof (Hfl z Hz). lia.
Qed.

(** An insertion puts the node in its place, unless its key is there. *)
Lemma tree_insert_spec t x :
  sorted (nodes t) -> P x ->
  match tree_insert t x with
  | Some t' => exists l1 l2, nodes t = l1 ++ l2 /\ nodes t' = l1 ++ x :: l2 /\ sorted (nodes t')
  | None => exists y, y ∈ nodes t /\ key y = key x
  end.
Proof.
  induction t as [|l IHl y r IHr]; intros Hs Hx; cbn [tree_insert nodes] in *.
  - exists [], []. split_and!; try done. split; repeat constructor. done.
  - pose proof Hs as (Hl & Hr & Hy & Hfl & Hfr)%sorted_app.
    pose proof (shift_cases x y Hx Hy) as Hc.
    destruct (shift (cmp x y)).
    + specialize (IHl Hl Hx). destruct (tree_insert l x) as [l'|]; cbn [fmap option_fmap option_map]; [|set_solver].
      destruct IHl as (l1 & l2 & E1 & E2 & Hl'). exists l1, (l2 ++ y :: nodes r). cbn [nodes].
      rewrite E1, E2, <-!app_assoc. split_and!; try done.
      change (l1 ++ x :: l2 ++ y :: nodes r) with (l1 ++ (x :: l2) ++ y :: nodes r). rewrite app_assoc, <-E2. apply sorted_app. split_and!; try done. rewrite E2.
      rewrite E1 in Hfl. apply Forall_app in Hfl as [? ?]. apply Forall_app. split; [done|]. by constructor.
    + exists y. set_solver.
    + specialize (IHr Hr Hx). destruct (tree_insert r x) as [r'|]; cbn [fmap option_fmap option_map]; [|set_solver].
      destruct IHr as (l1 & l2 & E1 & E2 & Hr'). exists (nodes l ++ y :: l1), l2. cbn [nodes].
      rewrite E1, E2, <-!app_assoc. split_and!; try done. cbn [app]. rewrite <-E2.
      apply sorted_app. split_and!; try done. rewrite E2.
      rewrite E1 in Hfr. apply Forall_app in Hfr as [? ?]. apply Forall_app. split; [done|]. by constructor.
Qed.

Lemma take_last_nodes l x r : let '(t, y) := take_last l x r in nodes t ++ [y] = nodes l ++ x :: nodes r.
Proof.
  revert l x. induction r as [|l' _ x' r' IH]; intros l x; cbn [take_last nodes]; [done|].
  specialize (IH l' x'). destruct (take_last l' x' r') as [r y]. cbn [nodes]. rewrite <-IH.
  by rewrite <-app_assoc.
Qed.

Lemma unlink_nodes l r : nodes (unlink l r) = nodes l ++ nodes r.
Proof.
  unfold unlink. destruct l as [|l1 x1 r1], r as [|l2 x2 r2]; try done.
  - by rewrite app_nil_r.
  - pose proof (take_last_nodes l1 x1 r1) as Hl. destruct (take_last l1 x1 r1) as [l y]. cbn [nodes] in *.
    rewrite <-Hl. by rewrite <-app_assoc.
Qed.
End spec.

(** A removal takes out the node. *)
Lemma tree_remove_spec t x :
  match tree_remove t x with
  | Some t' => exists l1 l2, nodes t = l1 ++ x :: l2 /\ nodes t' = l1 ++ l2
  | None => x ∉ nodes t
  end.
Proof.
  induction t as [|l IHl y r IHr]; cbn [tree_remove nodes]; [by intros ?%elem_of_nil|].
  destruct (decide (y = x)) as [->|Hne]; [exists (nodes l), (nodes r); by rewrite unlink_nodes|].
  destruct (tree_remove l x) as [l'|].
  - destruct IHl as (l1 & l2 & -> & E). exists l1, (l2 ++ y :: nodes r). cbn [nodes]. by rewrite E, <-!app_assoc.
  - destruct (tree_remove r x) as [r'|]; cbn [fmap option_fmap option_map].
    + destruct IHr as (l1 & l2 & -> & E). exists (nodes l ++ y :: l1), l2. cbn [nodes]. by rewrite E, <-!app_assoc.
    + rewrite elem_of_app, elem_of_cons. intros [Hl|[->|Hr]]; [exact (IHl Hl)|exact (Hne eq_refl)|exact (IHr Hr)].
Qed.
End tree.
