(* ===== verification/NvAsm.v ===== *)
(** * Reassembly of data: [dp/utils/asm.c]

    Pieces of a stream or of a datagram are kept in a tree by their position
    ([NvTree]) until they are put together in a buffer.  Positions are
    [uint32_t] values that wrap, as those of a TCP stream do.  The comparisons
    of the code agree with an order only among positions less than half the
    range apart: the lemmas are about pieces in the lower half of the range,
    where all fragments of a datagram are, and the main theorem about pieces in
    any window of that size, with positions counted from its base.  A copy that
    leaves a buffer is [invalid_access]. *)

From Stdlib Require Import ZArith Lia.
From S2P Require Import Prelude NvBitmap NvFqdn NvTree.
Local Open Scope Z_scope.

(** ** Positions: [dp/utils/helper.h] *)

(** [(signed)(u1 - u2)] *)
Definition u32_diff (u1 u2 : Z) : Z :=
  let d := wrap 32 (u1 - u2) in if d <? 2147483648 then d else d - 4294967296.

Definition u32_lt (u1 u2 : Z) : bool := u32_diff u1 u2 <? 0.
Definition u32_lte (u1 u2 : Z) : bool := u32_diff u1 u2 <=? 0.
Definition u32_gt (u1 u2 : Z) : bool := 0 <? u32_diff u1 u2.

(** [u1, u2) overlaps [u3, u4). *)
Definition u32_overlap (u1 u2 u3 u4 : Z) : bool := (u1 <? u4) && (u3 <? u2).

(** ** Clips *)

(** [cl_ptr] is the block of memory at [ptr], whose data starts at [skip]. *)
Record clip_t := Clip {
  cl_ptr : list Z;
  cl_seq : Z;
  cl_len : Z;
  cl_skip : Z
}.

#[export] Instance clip_eq_dec : EqDecision clip_t.
Proof. solve_decision. Defined.

Record asm_t := Asm { am_tree : tree_t clip_t; am_gross : Z }.

Inductive asm_result_t := ASM_OK | ASM_FAILURE | ASM_NOP | ASM_MORE.

Definition asm_compare (n k : clip_t) : Z :=
  if u32_gt (cl_seq n) (cl_seq k) then 1 else if u32_lt (cl_seq n) (cl_seq k) then -1 else 0.

Definition asm_init : asm_t := Asm tree_init 0.

Definition asm_lookup (a : asm_t) (seq : Z) : option clip_t :=
  tree_find_node asm_compare (am_tree a) (Clip [] seq 0 0).

Definition asm_insert (a : asm_t) (clip : clip_t) : asm_result_t * asm_t :=
  match tree_insert_node asm_compare (am_tree a) clip with
  | None => (ASM_FAILURE, a)
  | Some t => (ASM_OK, Asm t (wrap 32 (am_gross a + cl_len clip)))
  end.

(** The clip is freed by the callback [remove]. *)
Definition asm_remove (a : asm_t) (clip : clip_t) : asm_t :=
  match tree_remove_node (am_tree a) clip with
  | Some t => Asm t (wrap 32 (am_gross a - cl_len clip))
  | None => a
  end.

Definition asm_destroy (a : asm_t) : asm_t := Asm tree_init 0.

Definition asm_count (a : asm_t) : Z := tr_count (am_tree a).
Definition asm_gross (a : asm_t) : Z := am_gross a.

Definition clips (a : asm_t) : list clip_t := nodes (tr_root (am_tree a)).

Definition clip_end (c : clip_t) : Z := wrap 32 (cl_seq c + cl_len c).

(** The clips that end at [seq] or before go, from the first on. *)
Fixpoint flush_loop (a : asm_t) (seq : Z) (itr : list clip_t) : asm_t :=
  match itr with
  | [] => a
  | clip :: next => if u32_lte (clip_end clip) seq then flush_loop (asm_remove a clip) seq next else a
  end.

Definition asm_flush (a : asm_t) (seq : Z) : asm_t :=
  if asm_count a =? 0 then a else flush_loop a seq (clips a).

Definition asm_foreach {S} (each : S -> clip_t -> S) (s : S) (a : asm_t) : S := tree_traverse each s (am_tree a).

(** ** Construction *)

(** The loop that finds the range.  [first] are the clips from [first] on, the
    pointer [last] is a clip, and both are null together; the result is [None]
    for [ASM_NOP]. *)
Fixpoint scan_clips (seq must_have : Z) (itr first : list clip_t) (last : option clip_t) (total : Z)
    : option (list clip_t * option clip_t * Z) :=
  match itr with
  | [] => Some (first, last, total)
  | c :: next =>
      let first_seq := match first with f :: _ => cl_seq f | [] => 0 end in
      let end_ := clip_end c in
      let total := Z.max total (wrap 32 (end_ - first_seq)) in
      if u32_lte end_ seq then scan_clips seq must_have next next (head next) total
      else
        match next with
        | n :: _ =>
            if u32_lt end_ (cl_seq n) then
              if u32_lt end_ must_have then None else Some (first, Some c, total)
            else scan_clips seq must_have next first (Some c) total
        | [] => scan_clips seq must_have next first (Some c) total
        end
  end.

(** [memcpy(dst + off, src + skip, len)] *)
Definition memcpy (dst : list Z) (off : Z) (src : list Z) (skip len : Z) : outcome (list Z) :=
  if (0 <=? off) && (off + len <=? Z.of_nat (length dst)) && (0 <=? skip) && (0 <=? len)
     && (skip + len <=? Z.of_nat (length src))
  then Done (take (Z.to_nat off) dst ++ take (Z.to_nat len) (drop (Z.to_nat skip) src)
             ++ drop (Z.to_nat (off + len)) dst)
  else invalid_access.

(** The loop that copies: from [first] to the clip at [last_seq]. *)
Fixpoint copy_clips (first_seq last_seq : Z) (itr : list clip_t) (buf : list Z) (len : Z)
    : outcome (list Z * Z) :=
  match itr with
  | [] => Done (buf, len)
  | c :: next =>
      let end_ := clip_end c in
      buf ← memcpy buf (wrap 32 (cl_seq c - first_seq)) (cl_ptr c) (cl_skip c) (cl_len c);
      let len := wrap 24 (Z.max (wrap 32 (end_ - first_seq)) len) in
      if cl_seq c =? last_seq then Done (buf, len) else copy_clips first_seq last_seq next buf len
  end.

(** [target]: its position, and its buffer with the length. *)
Definition asm_construct (a : asm_t) (target_seq : Z) (buf : list Z) (must_have : Z)
    : outcome (asm_result_t * Z * Z * list Z) :=
  let target_len := Z.of_nat (length buf) in
  if asm_count a <=? 1 then Done (ASM_NOP, target_seq, target_len, buf)
  else
    match scan_clips target_seq must_have (clips a) (clips a) (head (clips a)) 0 with
    | None => Done (ASM_NOP, target_seq, target_len, buf)
    | Some (first, last, total) =>
        match first, last with
        | f :: _, Some l =>
            if (cl_seq f =? cl_seq l) || u32_lt target_seq (cl_seq f)
            then Done (ASM_NOP, target_seq, target_len, buf)
            else if target_len <? total then Done (ASM_MORE, cl_seq f, wrap 24 total, buf)
            else
              '(buf, len) ← copy_clips (cl_seq f) (cl_seq l) first buf 0;
              Done (ASM_OK, cl_seq f, len, buf)
        | _, _ => Done (ASM_NOP, target_seq, target_len, buf)
        end
    end.

(** ** Pieces in the lower half of the range *)

Definition HALF : Z := 2147483648.

Record clip_ok (c : clip_t) : Prop := {
  co_seq : 0 <= cl_seq c;
  co_len : 0 < cl_len c;
  co_end : cl_seq c + cl_len c < HALF;
  co_skip : 0 <= cl_skip c;
  co_ptr : cl_skip c + cl_len c <= Z.of_nat (length (cl_ptr c))
}.

Abbreviation clips_sorted := (sorted clip_ok cl_seq).

(** The end of a clip, as a number. *)
Definition cend (c : clip_t) : Z := cl_seq c + cl_len c.

Definition asm_ok (a : asm_t) : Prop :=
  clips_sorted (clips a) /\ asm_count a = Z.of_nat (length (clips a)) /\ Z.of_nat (length (clips a)) < HALF.

Lemma u32_diff_small x y : 0 <= x < HALF -> 0 <= y < HALF -> u32_diff x y = x - y.
Proof.
  unfold u32_diff, wrap, HALF. change (2 ^ 32) with 4294967296. intros Hx Hy.
  destruct (decide (y <= x)).
  - rewrite Z.mod_small by lia. destruct (Z.ltb_spec (x - y) 2147483648); lia.
  - replace ((x - y) mod 4294967296) with (x - y + 4294967296)
      by (rewrite <-(Z_mod_plus_full _ 1), Z.mod_small; lia).
    destruct (Z.ltb_spec (x - y + 4294967296) 2147483648); lia.
Qed.

Lemma u32_lt_small x y : 0 <= x < HALF -> 0 <= y < HALF -> u32_lt x y = (x <? y).
Proof. intros Hx Hy. unfold u32_lt. rewrite u32_diff_small by done. destruct (Z.ltb_spec x y), (Z.ltb_spec (x - y) 0); lia. Qed.

Lemma u32_lte_small x y : 0 <= x < HALF -> 0 <= y < HALF -> u32_lte x y = (x <=? y).
Proof. intros Hx Hy. unfold u32_lte. rewrite u32_diff_small by done. destruct (Z.leb_spec x y), (Z.leb_spec (x - y) 0); lia. Qed.

Lemma u32_gt_small x y : 0 <= x < HALF -> 0 <= y < HALF -> u32_gt x y = (y <? x).
Proof. intros Hx Hy. unfold u32_gt. rewrite u32_diff_small by done. destruct (Z.ltb_spec y x), (Z.ltb_spec 0 (x - y)); lia. Qed.

Lemma clip_seq_small c : clip_ok c -> 0 <= cl_seq c < HALF.
Proof. intros [? ? ? ? ?]. lia. Qed.

Lemma cend_small c : clip_ok c -> 0 <= cend c < HALF.
Proof. intros [? ? ? ? ?]. unfold cend. lia. Qed.

Lemma clip_end_eq c : clip_ok c -> clip_end c = cend c.
Proof.
  intros Hc. apply wrap_small. pose proof (cend_small c Hc). unfold cend, HALF in *. unfold in_width. lia.
Qed.

Lemma wrap_sub x y : 0 <= y <= x -> x < HALF -> wrap 32 (x - y) = x - y.
Proof. intros. apply wrap_small. unfold in_width, HALF in *. lia. Qed.

Lemma asm_compare_key x y :
  clip_ok x -> clip_ok y ->
  shift (asm_compare x y) =
  if cl_seq y <? cl_seq x then ARM_RIGHT else if cl_seq x <? cl_seq y then ARM_LEFT else ARM_MIDDLE.
Proof.
  intros Hx%clip_seq_small Hy%clip_seq_small. unfold asm_compare.
  rewrite u32_gt_small, u32_lt_small by done.
  destruct (cl_seq y <? cl_seq x); [done|]. by destruct (cl_seq x <? cl_seq y).
Qed.

(** An insertion adds the clip in its place, unless there is one at its
    position. *)
Lemma asm_insert_spec a c :
  asm_ok a -> clip_ok c -> Z.of_nat (length (clips a)) + 1 < HALF ->
  match asm_insert a c with
  | (ASM_OK, a') => asm_ok a' /\ exists l1 l2, clips a = l1 ++ l2 /\ clips a' = l1 ++ c :: l2
  | (ASM_FAILURE, a') => a' = a /\ exists c', c' ∈ clips a /\ cl_seq c' = cl_seq c
  | _ => False
  end.
Proof.
  intros (Hs & Hn & _) Hc Hlen. unfold asm_insert, tree_insert_node.
  pose proof (tree_insert_spec asm_compare clip_ok cl_seq asm_compare_key _ c Hs Hc) as Hi.
  destruct (tree_insert asm_compare (tr_root (am_tree a)) c) as [t|]; cbn [fmap option_fmap option_map].
  - destruct Hi as (l1 & l2 & E1 & E2 & Hs'). split; [|by exists l1, l2].
    assert (length (nodes t) = S (length (clips a))) as El
      by (unfold clips; rewrite E1, E2, !length_app; cbn; lia).
    unfold asm_ok, asm_count, clips. cbn [am_tree tr_root tr_count]. rewrite El. split_and!; [done| |lia].
    unfold asm_count in Hn. rewrite Hn, wrap_small; [lia|]. unfold in_width, HALF in *. lia.
  - by split.
Qed.

(** ** Copies *)

Definition byte_at (l : list Z) (i : Z) : option Z := l !! Z.to_nat i.

Lemma memcpy_spec dst off src skip len :
  0 <= off -> off + len <= Z.of_nat (length dst) -> 0 <= skip -> 0 <= len -> skip + len <= Z.of_nat (length src) ->
  exists buf, memcpy dst off src skip len = Done buf /\ length buf = length dst /\
    forall i, 0 <= i -> byte_at buf i = if (off <=? i) && (i <? off + len) then byte_at src (skip + (i - off))
                                        else byte_at dst i.
Proof.
  intros H1 H2 H3 H4 H5. unfold memcpy.
  rewrite !(proj2 (Z.leb_le _ _)) by done. cbn [andb]. eexists. split; [done|].
  split; [rewrite !length_app, length_take, length_take, !length_drop; lia|].
  intros i Hi. unfold byte_at.
  destruct (Z.leb_spec off i) as [Ho|Ho]; cbn [andb].
  - rewrite lookup_app_r by (rewrite length_take; lia). rewrite length_take, Nat.min_l by lia.
    destruct (Z.ltb_spec i (off + len)) as [Hl|Hl].
    + rewrite lookup_app_l by (rewrite length_take, length_drop; lia).
      rewrite lookup_take_lt by lia. rewrite lookup_drop. f_equal. lia.
    + rewrite lookup_app_r by (rewrite length_take, length_drop; lia).
      rewrite length_take, length_drop, lookup_drop. f_equal. lia.
  - rewrite lookup_app_l by (rewrite length_take; lia). rewrite lookup_take_lt by lia. done.
Qed.

(** A clip has the byte at a position. *)
Definition covers_pos (c : clip_t) (pos : Z) : bool := (cl_seq c <=? pos) && (pos <? cend c).
Definition clip_byte (c : clip_t) (pos : Z) : option Z := byte_at (cl_ptr c) (cl_skip c + (pos - cl_seq c)).

(** The last clip of a list that has the byte. *)
Fixpoint last_cover (l : list clip_t) (pos : Z) : option clip_t :=
  match l with
  | [] => None
  | c :: l => match last_cover l pos with Some x => Some x | None => if covers_pos c pos then Some c else None end
  end.

Fixpoint max_end (l : list clip_t) : Z := match l with [] => 0 | c :: l => Z.max (cend c) (max_end l) end.

(** Copying the clips [seg], the last of which is at [last_seq]. *)
Lemma copy_clips_spec first_seq last_seq seg x rest buf len :
  Forall clip_ok (seg ++ [x]) -> Forall (fun c => first_seq <= cl_seq c) (seg ++ [x]) ->
  Forall (fun c => cl_seq c <> last_seq) seg -> cl_seq x = last_seq -> 0 <= first_seq ->
  0 <= len < 16777216 -> max_end (seg ++ [x]) - first_seq <= Z.of_nat (length buf) < 16777216 ->
  exists buf', copy_clips first_seq last_seq (seg ++ x :: rest) buf len =
    Done (buf', Z.max (max_end (seg ++ [x]) - first_seq) len) /\
    length buf' = length buf /\
    forall pos, first_seq <= pos ->
      byte_at buf' (pos - first_seq) =
      match last_cover (seg ++ [x]) pos with Some c => clip_byte c pos | None => byte_at buf (pos - first_seq) end.
Proof.
  intros Hok Hge Hne Hx Hf. revert buf len.
  assert (forall c buf len, clip_ok c -> first_seq <= cl_seq c -> 0 <= len < 16777216 ->
    cend c - first_seq <= Z.of_nat (length buf) < 16777216 ->
    exists buf', memcpy buf (wrap 32 (cl_seq c - first_seq)) (cl_ptr c) (cl_skip c) (cl_len c) = Done buf' /\
      length buf' = length buf /\
      wrap 24 (Z.max (wrap 32 (clip_end c - first_seq)) len) = Z.max (cend c - first_seq) len /\
      0 <= Z.max (cend c - first_seq) len < 16777216 /\
      forall pos, first_seq <= pos -> byte_at buf' (pos - first_seq) =
        if covers_pos c pos then clip_byte c pos else byte_at buf (pos - first_seq)) as Hone.
  { intros c buf len Hc Hcf Hl Hb. pose proof (cend_small c Hc) as Hce. pose proof (clip_seq_small c Hc) as Hcs.
    destruct Hc as [C1 C2 C3 C4 C5]. unfold cend in *.
    rewrite (clip_end_eq c) by by constructor. unfold cend. rewrite !wrap_sub by lia.
    destruct (memcpy_spec buf (cl_seq c - first_seq) (cl_ptr c) (cl_skip c) (cl_len c)) as (buf' & -> & Hlen & Hby);
      [lia..|].
    exists buf'. split_and!; [done|done|apply wrap_small; unfold in_width; lia|lia|lia|].
    intros pos Hpos. rewrite Hby by lia. unfold covers_pos, clip_byte, cend.
    replace (cl_seq c - first_seq <=? pos - first_seq) with (cl_seq c <=? pos)
      by (destruct (Z.leb_spec (cl_seq c) pos), (Z.leb_spec (cl_seq c - first_seq) (pos - first_seq)); lia).
    replace (pos - first_seq <? cl_seq c - first_seq + cl_len c) with (pos <? cl_seq c + cl_len c)
      by (destruct (Z.ltb_spec pos (cl_seq c + cl_len c)), (Z.ltb_spec (pos - first_seq) (cl_seq c - first_seq + cl_len c)); lia).
    destruct (_ && _); [|done]. f_equal. lia. }
  induction seg as [|c seg IH]; intros buf len Hl Hb; cbn [app copy_clips max_end last_cover] in *.
  - rewrite Forall_singleton in Hok, Hge.
    destruct (Hone x buf len Hok Hge Hl) as (buf' & -> & Hlen & -> & Hr & Hby); [lia|]. cbn [mbind outcome_bind].
    rewrite Hx, Z.eqb_refl. exists buf'. pose proof (cend_small x Hok). split_and!; [do 2 f_equal; lia|done|].
    intros pos Hpos. rewrite Hby by done. by destruct (covers_pos x pos).
  - apply Forall_cons in Hok as [Hc Hok], Hge as [Hcf Hge], Hne as [Hcn Hne].
    destruct (Hone c buf len Hc Hcf Hl) as (buf1 & -> & Hlen1 & -> & Hr & Hby); [lia|]. cbn [mbind outcome_bind].
    rewrite (proj2 (Z.eqb_neq _ _) Hcn).
    destruct (IH Hok Hge Hne buf1 (Z.max (cend c - first_seq) len)) as (buf2 & -> & Hlen2 & Hby2); [done|lia|].
    exists buf2. split_and!; [do 2 f_equal; lia|congruence|]. intros pos Hpos. rewrite Hby2, Hby by done.
    destruct (last_cover (seg ++ [x]) pos); [done|]. by destruct (covers_pos c pos).
Qed.

(** ** The range *)

(** No gap between a clip and the next. *)
Fixpoint linked (l : list clip_t) : Prop :=
  match l with
  | x :: l' => match l' with y :: _ => cl_seq y <= cend x | [] => True end /\ linked l'
  | [] => True
  end.

Lemma linked_snoc l x y : linked (l ++ [x]) -> cl_seq y <= cend x -> linked (l ++ [x; y]).
Proof.
  induction l as [|z l IH]; cbn [app linked]; [done|]. intros [H1 H2] Hy. split; [|by apply IH].
  destruct l; done.
Qed.

Lemma last_cover_in l pos c : last_cover l pos = Some c -> c ∈ l /\ covers_pos c pos = true.
Proof.
  induction l as [|x l IH]; cbn [last_cover]; [done|]. destruct (last_cover l pos) as [y|].
  - intros [= ->]. destruct (IH eq_refl). split; [by right|done].
  - destruct (covers_pos x pos) eqn:E; [|done]. intros [= <-]. split; [left|done].
Qed.

Lemma linked_cover f l pos :
  linked (f :: l) -> 0 <= pos -> cl_seq f <= pos < max_end (f :: l) -> exists c, last_cover (f :: l) pos = Some c.
Proof.
  intros Hl Hp. revert f Hl. induction l as [|g l IH]; intros f Hl Hpos.
  - cbn [last_cover max_end] in *. unfold covers_pos.
    rewrite (proj2 (Z.leb_le _ _)), (proj2 (Z.ltb_lt _ _)) by lia. by eexists.
  - destruct Hl as [Hfg Hl]. change (last_cover (f :: g :: l) pos) with
      (match last_cover (g :: l) pos with Some x => Some x | None => if covers_pos f pos then Some f else None end).
    destruct (last_cover (g :: l) pos) as [c|] eqn:Hc; [by eexists|].
    destruct (decide (pos < cend f)) as [Hin|Hout].
    + unfold covers_pos. rewrite (proj2 (Z.leb_le _ _)), (proj2 (Z.ltb_lt _ _)) by lia. by eexists.
    + destruct (IH g Hl) as [c Hc']; [split; [lia|]; cbn [max_end] in *; lia|]. congruence.
Qed.

Lemma sorted_first pre f l c : clips_sorted (pre ++ f :: l) -> c ∈ f :: l -> cl_seq f <= cl_seq c.
Proof.
  intros (_ & _ & _ & _ & Hf)%sorted_app [->|Hc]%elem_of_cons; [lia|].
  rewrite Forall_forall in Hf. pose proof (Hf c Hc). lia.
Qed.

(** What the first loop finds: the clips [seg] and [x] from [first] to [last]
    hang together and end within [total] of the first one. *)
Definition range_of (seq must_have : Z) (first : list clip_t) (last : option clip_t) (total : Z) : Prop :=
  first = [] /\ last = None \/
  exists seg x rest, first = seg ++ x :: rest /\ last = Some x /\ linked (seg ++ [x]) /\
    Forall (fun c => seq < cend c) (seg ++ [x]) /\
    (forall f c, head (seg ++ [x]) = Some f -> c ∈ seg ++ [x] -> cend c - cl_seq f <= total) /\
    (rest = [] \/ must_have <= cend x).

(** The position of the first clip of a range. *)
Lemma first_seq_bounds pre seg c next :
  clips_sorted (pre ++ seg ++ c :: next) ->
  0 <= match seg ++ c :: next with f :: _ => cl_seq f | [] => 0 end <= cl_seq c.
Proof.
  intros Hs. destruct seg as [|f seg]; cbn [app] in *; pose proof Hs as (_ & _ & Hf & _)%sorted_app;
    pose proof (co_seq _ Hf); [lia|].
  split; [done|]. apply (sorted_first pre f (seg ++ c :: next) c Hs). set_solver.
Qed.

(** One more clip in a range. *)
Lemma range_total seg c total f d :
  (forall f c, head seg = Some f -> c ∈ seg -> cend c - cl_seq f <= total) ->
  head (seg ++ [c]) = Some f -> d ∈ seg ++ [c] -> cend d - cl_seq f <= Z.max total (cend c - cl_seq f).
Proof.
  intros Htot Hf Hd. apply elem_of_app in Hd as [Hd|[->|?%elem_of_nil]%elem_of_cons]; [|lia|done].
  destruct seg as [|g seg]; [by apply elem_of_nil in Hd|]. pose proof (Htot f d Hf Hd). lia.
Qed.

Lemma scan_clips_spec seq must_have all itr seg last total :
  0 <= seq < HALF -> 0 <= must_have < HALF -> clips_sorted all ->
  (exists pre, all = pre ++ seg ++ itr) -> linked (seg ++ take 1 itr) -> Forall (fun c => seq < cend c) seg ->
  (forall f c, head seg = Some f -> c ∈ seg -> cend c - cl_seq f <= total) ->
  last = match list.last seg with Some x => Some x | None => head itr end ->
  match scan_clips seq must_have itr (seg ++ itr) last total with
  | None => exists l1 x y l2, all = l1 ++ x :: y :: l2 /\ cend x < cl_seq y /\ cend x < must_have
  | Some (first, last, total) => (exists pre, all = pre ++ first) /\ range_of seq must_have first last total
  end.
Proof.
  intros Hseq Hmust Hsorted. revert seg last total.
  induction itr as [|c next IH]; intros seg last total [pre Hall] Hlink Hgt Htot ->.
  - cbn [scan_clips]. split; [by exists pre|].
    rewrite app_nil_r. destruct (list.last seg) as [x|] eqn:Hl.
    + right. apply last_Some in Hl as [seg' ->]. exists seg', x, []. rewrite app_nil_r in Hlink.
      split_and!; try done. by left.
    + left. by apply last_None in Hl.
  - assert (clip_ok c) as Hc.
    { destruct Hsorted as [Hp _]. rewrite Forall_forall in Hp. apply Hp. rewrite Hall. set_solver. }
    pose proof Hsorted as Hf0. rewrite Hall in Hf0. apply first_seq_bounds in Hf0.
    set (f0 := match seg ++ c :: next with f :: _ => cl_seq f | [] => 0 end) in *.
    pose proof (cend_small c Hc) as Hce. pose proof (co_len c Hc) as Hcl.
    cbn [scan_clips]. fold f0. rewrite clip_end_eq by done. rewrite wrap_sub by (unfold cend in *; lia).
    rewrite u32_lte_small by done. destruct (Z.leb_spec (cend c) seq) as [Hle|Hgt'].
    { apply (IH []); cbn [app]; try done.
      - exists (pre ++ seg ++ [c]). by rewrite Hall, <-!app_assoc.
      - destruct next; by cbn. }
    assert (forall f d, head (seg ++ [c]) = Some f -> d ∈ seg ++ [c] ->
      cend d - cl_seq f <= Z.max total (cend c - f0)) as Htot'.
    { intros f d Hf. assert (f0 = cl_seq f) as -> by (unfold f0; by destruct seg; injection Hf as ->).
      by apply range_total. }
    assert (Forall (fun d => seq < cend d) (seg ++ [c])) as Hgt2 by (apply Forall_app; by repeat constructor).
    destruct next as [|n next'] eqn:Hnext.
    { replace (seg ++ [c]) with ((seg ++ [c]) ++ []) by by rewrite app_nil_r. apply IH; try done.
      - exists pre. by rewrite Hall, app_nil_r.
      - by rewrite app_nil_r.
      - by rewrite list.last_snoc. }
    assert (clip_ok n) as Hn.
    { destruct Hsorted as [Hp _]. rewrite Forall_forall in Hp. apply Hp. rewrite Hall. set_solver. }
    pose proof (clip_seq_small n Hn) as Hns.
    rewrite u32_lt_small by done. destruct (Z.ltb_spec (cend c) (cl_seq n)) as [Hgap|Hno].
    + rewrite u32_lt_small by done. destruct (Z.ltb_spec (cend c) must_have) as [Hm|Hm].
      * exists (pre ++ seg), c, n, next'. by rewrite Hall, <-app_assoc.
      * split; [by exists pre|]. right. exists seg, c, (n :: next'). cbn [take] in Hlink. split_and!; try done.
        by right.
    + change (seg ++ c :: n :: next') with (seg ++ [c] ++ n :: next'). rewrite app_assoc. apply IH; try done.
      * exists pre. by rewrite Hall, <-!app_assoc.
      * cbn [take] in *. rewrite <-app_assoc. by apply linked_snoc.
      * by rewrite list.last_snoc.
Qed.

(** ** The theorem *)

(** The bytes of the buffer from the position [seq] on come from clips. *)
Definition assembled (l : list clip_t) (seq len : Z) (buf : list Z) : Prop :=
  forall pos, seq <= pos < seq + len ->
    exists c, c ∈ l /\ covers_pos c pos = true /\ byte_at buf (pos - seq) = clip_byte c pos.

Lemma max_end_bound l b : Forall (fun c => cend c <= b) l -> 0 <= b -> max_end l <= b.
Proof. induction 1; cbn [max_end]; lia. Qed.

Lemma max_end_ge l c : c ∈ l -> cend c <= max_end l.
Proof. induction 1; cbn [max_end]; lia. Qed.

(** Copying a range that was found. *)
Lemma copy_range all pre f seg x rest buf total :
  clips_sorted all -> all = pre ++ seg ++ x :: rest -> head (seg ++ [x]) = Some f -> linked (seg ++ [x]) ->
  (forall c, c ∈ seg ++ [x] -> cend c - cl_seq f <= total) -> total <= Z.of_nat (length buf) < 16777216 ->
  exists buf', copy_clips (cl_seq f) (cl_seq x) (seg ++ x :: rest) buf 0 =
    Done (buf', max_end (seg ++ [x]) - cl_seq f) /\ length buf' = length buf /\
    assembled all (cl_seq f) (max_end (seg ++ [x]) - cl_seq f) buf'.
Proof.
  intros Hs Hall Hf Hlink Htot Hbuf.
  assert (f ∈ seg ++ [x]) as Hfin by (destruct (seg ++ [x]); [done|injection Hf as ->; left]).
  assert (forall c, c ∈ seg ++ [x] -> c ∈ all) as Hin by (rewrite Hall; set_solver).
  assert (forall c, c ∈ all -> clip_ok c) as Hok by (intros c Hc; destruct Hs as [Hp _]; rewrite Forall_forall in Hp; auto).
  assert (forall c, c ∈ seg ++ [x] -> cl_seq f <= cl_seq c) as Hge.
  { intros c Hc. rewrite Hall in Hs. destruct seg as [|g seg]; injection Hf as ->; cbn [app] in *.
    - apply list_elem_of_singleton in Hc as ->. lia.
    - apply (sorted_first _ _ _ _ Hs). set_solver. }
  pose proof (clip_seq_small f (Hok f (Hin f Hfin))) as Hfs.
  assert (cend f <= max_end (seg ++ [x])) as Hmf by by apply max_end_ge.
  pose proof (co_len f (Hok f (Hin f Hfin))) as Hfl.
  destruct (copy_clips_spec (cl_seq f) (cl_seq x) seg x rest buf 0) as (buf' & -> & Hlen & Hby); try done.
  - apply Forall_forall. auto.
  - apply Forall_forall. auto.
  - rewrite Hall, app_assoc in Hs. apply sorted_app in Hs as (_ & _ & _ & Hlt & _). apply Forall_app in Hlt as [_ Hlt].
    eapply Forall_impl; [exact Hlt|]. cbn. intros; lia.
  - lia.
  - split; [|lia]. assert (max_end (seg ++ [x]) <= total + cl_seq f); [|lia].
    apply max_end_bound; [|specialize (Htot f Hfin); unfold cend in *; lia]. apply Forall_forall. intros c Hc.
    specialize (Htot c Hc). lia.
  - exists buf'. split; [do 2 f_equal; unfold cend in *; lia|]. split; [done|].
    intros pos Hpos. destruct (seg ++ [x]) as [|g l] eqn:Hl; [done|]. injection Hf as ->.
    destruct (linked_cover f l pos Hlink) as [c Hc]; [lia|lia|]. pose proof (last_cover_in _ _ _ Hc) as [Hcin Hcov].
    exists c. split_and!; [auto|done|]. rewrite Hby by lia. by rewrite Hc.
Qed.

(** The construction from pieces in the lower half. *)
Lemma asm_construct_low a target_seq buf must_have :
  asm_ok a -> 0 <= target_seq < HALF -> 0 <= must_have < HALF -> Z.of_nat (length buf) < 16777216 ->
  exists res seq len buf', asm_construct a target_seq buf must_have = Done (res, seq, len, buf') /\
    match res with
    | ASM_OK => 0 <= seq <= target_seq /\ target_seq < seq + len /\ len <= Z.of_nat (length buf) /\
        length buf' = length buf /\ assembled (clips a) seq len buf'
    | ASM_FAILURE => False
    | _ => buf' = buf
    end.
Proof.
  intros (Hs & Hn & Hl) Hseq Hmust Hbuf. unfold asm_construct.
  destruct (asm_count a <=? 1); [by do 4 eexists|].
  pose proof (scan_clips_spec target_seq must_have (clips a) (clips a) [] (head (clips a)) 0 Hseq Hmust Hs) as Hscan.
  cbn [app] in Hscan.
  destruct (scan_clips target_seq must_have (clips a) (clips a) (head (clips a)) 0) as [[[first last] total]|];
    [|by do 4 eexists].
  destruct Hscan as ([pre Hall] & [[-> ->]|(seg & x & rest & -> & -> & Hlink & Hgt & Htot & _)]);
    [by exists []|by destruct (clips a)|done|done|done| |]; [by do 4 eexists|].
  destruct (seg ++ x :: rest) as [|f l] eqn:Hfirst; [by destruct seg|].
  destruct (_ || _) eqn:Hnop; [by do 4 eexists|]. apply orb_false_iff in Hnop as [Hne Hlt].
  destruct (Z.ltb_spec (Z.of_nat (length buf)) total) as [Hmore|Hfit]; [by do 4 eexists|].
  assert (head (seg ++ [x]) = Some f) as Hf by (destruct seg; by injection Hfirst as -> _).
  rewrite <-Hfirst in *.
  destruct (copy_range (clips a) pre f seg x rest buf total Hs Hall Hf Hlink) as (buf' & -> & Hlen & Has);
    [intros c Hc; by apply Htot|lia|].
  cbn [mbind outcome_bind]. do 4 eexists. split; [done|].
  assert (f ∈ seg ++ [x]) as Hfin by (destruct (seg ++ [x]); [done|injection Hf as ->; left]).
  assert (clip_ok f) as Hok by (destruct Hs as [Hp _]; rewrite Forall_forall in Hp; apply Hp; rewrite Hall; set_solver).
  pose proof (clip_seq_small f Hok) as Hfs. rewrite u32_lt_small in Hlt by done. apply Z.ltb_ge in Hlt.
  rewrite Forall_forall in Hgt. pose proof (Hgt f Hfin). pose proof (max_end_ge _ _ Hfin).
  assert (max_end (seg ++ [x]) <= total + cl_seq f).
  { pose proof (Htot f f Hf Hfin). pose proof (co_len f Hok). apply max_end_bound; [|unfold cend in *; lia].
    apply Forall_forall. intros c Hc. pose proof (Htot f c Hf Hc). lia. }
  split_and!; try done; lia.
Qed.

(** ** All pieces and missing pieces *)

(** A clip follows each one, or there is a gap. *)
Definition gap (l : list clip_t) : Prop := exists l1 x y l2, l = l1 ++ x :: y :: l2 /\ cend x < cl_seq y.

Lemma linked_or_gap l : linked l \/ gap l.
Proof.
  induction l as [|x l [IH|(l1 & y & z & l2 & -> & Hg)]]; cbn [linked]; [by left| |].
  - destruct l as [|y l]; [by left|]. destruct (decide (cl_seq y <= cend x)) as [|Hn]; [by left|].
    right. exists [], x, y, l. split; [done|lia].
  - right. by exists (x :: l1), y, z, l2.
Qed.

Section zero.
(** The data is asked for from the beginning. *)
Context (must_have : Z) (Hmust : 0 <= must_have < HALF).

Lemma scan_linked f fs itr last total :
  Forall clip_ok itr -> Forall (fun c => cl_seq f <= cl_seq c) itr -> 0 <= cl_seq f -> linked itr ->
  exists total', scan_clips 0 must_have itr (f :: fs) last total =
    Some (f :: fs, match list.last itr with Some x => Some x | None => last end, total') /\
    (total' <= Z.max total (max_end itr - cl_seq f)).
Proof.
  intros Hok Hge Hf. revert last total. induction itr as [|c next IH]; intros last total Hlink; cbn [scan_clips].
  - exists total. split; [done|lia].
  - apply Forall_cons in Hok as [Hc Hok], Hge as [Hcf Hge]. pose proof (cend_small c Hc). pose proof (co_len c Hc).
    pose proof (co_seq c Hc). rewrite clip_end_eq by done. rewrite wrap_sub by (unfold cend in *; lia).
    rewrite u32_lte_small by (done || unfold HALF; lia). rewrite (proj2 (Z.leb_gt _ _)) by (unfold cend; lia).
    destruct Hlink as [Hcn Hlink]. destruct next as [|n next'].
    + cbn [scan_clips]. eexists. split; [done|]. cbn [max_end]. lia.
    + assert (clip_ok n) as Hn by by apply Forall_cons in Hok as [? _].
      rewrite u32_lt_small by (done || by apply clip_seq_small). rewrite (proj2 (Z.ltb_ge _ _)) by done.
      destruct (IH Hok Hge (Some c) (Z.max total (cend c - cl_seq f)) Hlink) as (t & -> & Ht). exists t.
      split; [by rewrite (last_cons c); destruct (list.last (n :: next'))|]. cbn [max_end] in *. lia.
Qed.

Lemma scan_gap f fs itr last total :
  Forall clip_ok itr -> Forall (fun c => cl_seq f <= cl_seq c) itr -> 0 <= cl_seq f ->
  gap itr -> (forall x y, x ∈ itr -> y ∈ itr -> cend x < cl_seq y -> cend x < must_have) ->
  scan_clips 0 must_have itr (f :: fs) last total = None.
Proof.
  intros Hok Hge Hf. revert last total. induction itr as [|c next IH]; intros last total Hgap Hm; cbn [scan_clips].
  - destruct Hgap as (l1 & x & y & l2 & Hl & _). by destruct l1.
  - apply Forall_cons in Hok as [Hc Hok], Hge as [Hcf Hge]. pose proof (cend_small c Hc). pose proof (co_len c Hc).
    pose proof (co_seq c Hc). rewrite clip_end_eq by done. rewrite wrap_sub by (unfold cend in *; lia).
    rewrite u32_lte_small by (done || unfold HALF; lia). rewrite (proj2 (Z.leb_gt _ _)) by (unfold cend; lia).
    destruct next as [|n next'].
    { destruct Hgap as (l1 & x & y & l2 & Hl & _). by destruct l1 as [|? [|]]. }
    assert (clip_ok n) as Hn by by apply Forall_cons in Hok as [? _].
    rewrite u32_lt_small by (done || by apply clip_seq_small). destruct (Z.ltb_spec (cend c) (cl_seq n)) as [Hcn|Hcn].
    + rewrite u32_lt_small by done. rewrite (proj2 (Z.ltb_lt _ _)); [done|]. apply (Hm c n); set_solver.
    + apply IH; try done; [|intros x y Hx Hy; apply Hm; by right]. destruct Hgap as (l1 & x & y & l2 & Hl & Hxy).
      destruct l1 as [|z l1]; [injection Hl as -> -> _; lia|]. injection Hl as -> Hl. by exists l1, x, y, l2.
Qed.

(** With all the pieces the data is assembled. *)
Lemma construct_linked a buf f l :
  asm_ok a -> clips a = f :: l -> l <> [] -> cl_seq f = 0 -> linked (f :: l) ->
  max_end (f :: l) <= Z.of_nat (length buf) < 16777216 ->
  exists buf', asm_construct a 0 buf must_have = Done (ASM_OK, 0, max_end (f :: l), buf') /\
    length buf' = length buf /\ assembled (clips a) 0 (max_end (f :: l)) buf'.
Proof.
  intros (Hs & Hn & Hl) Hcl Hne Hf0 Hlink Hbuf. unfold asm_construct.
  assert (0 < Z.of_nat (length l)) by (destruct l; [done|cbn; lia]).
  rewrite Hn, Hcl. cbn [length]. rewrite (proj2 (Z.leb_gt _ _)) by lia. rewrite Hcl in Hs.
  assert (Forall clip_ok (f :: l)) as Hok by apply Hs.
  assert (Forall (fun c => cl_seq f <= cl_seq c) (f :: l)) as Hge.
  { apply Forall_forall. intros c Hc. by apply (sorted_first [] f l). }
  destruct (scan_linked f l (f :: l) (head (f :: l)) 0 Hok Hge) as (total & -> & Ht); [lia|done|].
  destruct (exists_last Hne) as (seg & x & ->). rewrite app_comm_cons, list.last_snoc.
  assert (clip_ok f /\ clip_ok x) as [Hfok Hxok] by (rewrite Forall_forall in Hok; split; apply Hok; set_solver).
  assert ((cl_seq f =? cl_seq x) = false) as ->.
  { apply Z.eqb_neq. apply (sorted_app _ _ [] f) in Hs as (_ & _ & _ & _ & Hlt).
    apply Forall_app in Hlt as [_ Hlt]. rewrite Forall_singleton in Hlt. lia. }
  rewrite u32_lt_small by (unfold HALF; lia). rewrite Hf0. cbn [orb].
  assert (cend f <= max_end (f :: seg ++ [x])) as Hmf by (cbn [max_end]; lia). pose proof (cend_small f Hfok).
  assert ((Z.of_nat (length buf) <? total) = false) as -> by (apply Z.ltb_ge; lia). cbn [Z.ltb Z.compare].
  destruct (copy_range (f :: seg ++ [x]) [] f (f :: seg) x [] buf (max_end (f :: seg ++ [x]) - cl_seq f))
    as (buf' & Hcopy & Hlen & Has); try done.
  { intros c Hc. pose proof (max_end_ge _ _ Hc). cbn [app] in *. lia. }
  { lia. }
  rewrite Hf0 in Hcopy. change (f :: seg ++ [x]) with ((f :: seg) ++ [x]). rewrite Hcopy. cbn [mbind outcome_bind].
  rewrite Hf0, Z.sub_0_r in Has. exists buf'. rewrite Z.sub_0_r. by split_and!.
Qed.

(** With one missing it is not. *)
Lemma construct_gap a buf f l :
  asm_ok a -> clips a = f :: l -> gap (f :: l) ->
  (forall x y, x ∈ f :: l -> y ∈ f :: l -> cend x < cl_seq y -> cend x < must_have) ->
  exists s n, asm_construct a 0 buf must_have = Done (ASM_NOP, s, n, buf).
Proof.
  intros (Hs & Hn & Hl) Hcl Hgap Hm. unfold asm_construct. destruct (asm_count a <=? 1); [by do 2 eexists|].
  rewrite Hcl in *. assert (Forall clip_ok (f :: l)) as Hok by apply Hs.
  assert (Forall (fun c => cl_seq f <= cl_seq c) (f :: l)) as Hge.
  { apply Forall_forall. intros c Hc. by apply (sorted_first [] f l). }
  assert (0 <= cl_seq f) by (apply Forall_cons in Hok as [[] _]; done).
  rewrite scan_gap by done. by do 2 eexists.
Qed.
End zero.

(** ** Pieces in a window of the range *)

(** A position, and a clip, counted from [b]. *)
Definition pos_from (b x : Z) : Z := wrap 32 (x - b).
Definition from_base (b : Z) (c : clip_t) : clip_t := Clip (cl_ptr c) (pos_from b (cl_seq c)) (cl_len c) (cl_skip c).

Record in_window (b : Z) (c : clip_t) : Prop := {
  iw_seq : in_width 32 (cl_seq c);
  iw_ok : clip_ok (from_base b c)
}.

Abbreviation window_sorted b := (sorted (in_window b) (fun c => pos_from b (cl_seq c))).

Definition window (b : Z) (a : asm_t) : Prop :=
  window_sorted b (clips a) /\ asm_count a = Z.of_nat (length (clips a)) /\ Z.of_nat (length (clips a)) < HALF.

Lemma pos_from_diff b x y : wrap 32 (pos_from b x - pos_from b y) = wrap 32 (x - y).
Proof. unfold pos_from, wrap. rewrite <-Zminus_mod. f_equal. lia. Qed.

Lemma u32_diff_base b x y : u32_diff (pos_from b x) (pos_from b y) = u32_diff x y.
Proof. unfold u32_diff. by rewrite pos_from_diff. Qed.

Lemma u32_lt_base b x y : u32_lt (pos_from b x) (pos_from b y) = u32_lt x y.
Proof. unfold u32_lt. by rewrite u32_diff_base. Qed.

Lemma u32_lte_base b x y : u32_lte (pos_from b x) (pos_from b y) = u32_lte x y.
Proof. unfold u32_lte. by rewrite u32_diff_base. Qed.

Lemma u32_gt_base b x y : u32_gt (pos_from b x) (pos_from b y) = u32_gt x y.
Proof. unfold u32_gt. by rewrite u32_diff_base. Qed.

Lemma clip_end_base b c : clip_end (from_base b c) = pos_from b (clip_end c).
Proof.
  unfold clip_end, from_base, pos_from, wrap. cbn [cl_seq cl_len].
  rewrite Zplus_mod_idemp_l, Zminus_mod_idemp_l. f_equal. lia.
Qed.

Lemma pos_from_width b x : in_width 32 (pos_from b x).
Proof. unfold pos_from, wrap, in_width. apply Z.mod_pos_bound. done. Qed.

Lemma eqb_base b x y : in_width 32 x -> in_width 32 y -> (pos_from b x =? pos_from b y) = (x =? y).
Proof.
  intros Hx Hy. destruct (Z.eqb_spec x y) as [->|Hne]; [apply Z.eqb_refl|]. apply Z.eqb_neq. intros Heq. apply Hne.
  pose proof (pos_from_diff b x y) as Hd. rewrite Heq, Z.sub_diag in Hd. unfold wrap, in_width in *.
  change (2 ^ 32) with 4294967296 in *. rewrite Z.mod_0_l in Hd by done.
  symmetry in Hd. apply Z.mod_divide in Hd as [k Hk]; [|done]. nia.
Qed.

(** *** The operations keep the order *)

Lemma window_compare b x y :
  in_window b x -> in_window b y ->
  shift (asm_compare x y) =
  if pos_from b (cl_seq y) <? pos_from b (cl_seq x) then ARM_RIGHT
  else if pos_from b (cl_seq x) <? pos_from b (cl_seq y) then ARM_LEFT else ARM_MIDDLE.
Proof.
  intros [_ Hx] [_ Hy]. pose proof (asm_compare_key (from_base b x) (from_base b y) Hx Hy) as Hk.
  unfold asm_compare, from_base in *. cbn [cl_seq] in Hk. by rewrite u32_gt_base, u32_lt_base in Hk.
Qed.

Lemma window_init b : window b asm_init.
Proof. split; [by split; constructor|done]. Qed.

Lemma window_insert b a c :
  window b a -> in_window b c -> Z.of_nat (length (clips a)) + 1 < HALF -> window b (asm_insert a c).2.
Proof.
  intros (Hs & Hn & Hl) Hc Hlen. unfold asm_insert, tree_insert_node.
  pose proof (tree_insert_spec asm_compare (in_window b) (fun c => pos_from b (cl_seq c)) (window_compare b) _ c Hs Hc) as Hi.
  destruct (tree_insert asm_compare (tr_root (am_tree a)) c) as [t|]; cbn [fmap option_fmap option_map snd]; [|done].
  destruct Hi as (l1 & l2 & E1 & E2 & Hs').
  assert (length (nodes t) = S (length (clips a))) as El by (unfold clips; rewrite E1, E2, !length_app; cbn; lia).
  unfold window, asm_count, clips. cbn [am_tree tr_root tr_count]. rewrite El. split_and!; [done| |lia].
  unfold asm_count in Hn. rewrite Hn, wrap_small; [lia|]. unfold in_width, HALF in *. lia.
Qed.

Lemma asm_remove_clips a c :
  c ∈ clips a -> exists l1 l2, clips a = l1 ++ c :: l2 /\ clips (asm_remove a c) = l1 ++ l2 /\
    asm_count (asm_remove a c) = wrap 32 (asm_count a - 1).
Proof.
  intros Hin. unfold asm_remove, tree_remove_node. pose proof (tree_remove_spec (tr_root (am_tree a)) c) as Hr.
  destruct (tree_remove (tr_root (am_tree a)) c) as [t|]; cbn [fmap option_fmap option_map]; [|done].
  destruct Hr as (l1 & l2 & E1 & E2). by exists l1, l2.
Qed.

Lemma window_remove b a c : window b a -> c ∈ clips a -> window b (asm_remove a c).
Proof.
  intros (Hs & Hn & Hl) (l1 & l2 & E1 & E2 & E3)%asm_remove_clips.
  unfold window. rewrite E2, E3, Hn. rewrite E1, length_app in *. cbn [length] in *.
  rewrite length_app. split_and!; [| |lia].
  - apply sorted_app in Hs as ([P1 S1] & [P2 S2] & _ & F1 & F2). split; [by apply Forall_app|].
    apply StronglySorted_app. split_and!; [|done..]. intros x y Hx Hy. rewrite Forall_forall in F1, F2.
    pose proof (F1 x Hx). pose proof (F2 y Hy). lia.
  - rewrite wrap_small; [lia|]. unfold in_width, HALF in *. lia.
Qed.

Lemma sorted_nodup b c l : window_sorted b (c :: l) -> c ∉ l.
Proof.
  intros [_ Hs] Hin. apply StronglySorted_inv in Hs as [_ Hf]. rewrite Forall_forall in Hf.
  pose proof (Hf c Hin). lia.
Qed.

Lemma window_flush_loop b seq itr a : window b a -> clips a = itr -> window b (flush_loop a seq itr).
Proof.
  revert a. induction itr as [|c itr IH]; intros a Hw Hcl; cbn [flush_loop]; [done|].
  destruct (u32_lte _ _); [|done]. assert (c ∈ clips a) as Hin by (rewrite Hcl; left).
  apply IH; [by apply window_remove|]. destruct (asm_remove_clips a c Hin) as (l1 & l2 & E1 & -> & _).
  destruct Hw as [Hs _]. rewrite Hcl in *. destruct l1 as [|d l1]; [by injection E1 as ->|].
  injection E1 as <- E1. exfalso. apply (sorted_nodup b c itr Hs). rewrite E1. set_solver.
Qed.

Lemma window_flush b seq a : window b a -> window b (asm_flush a seq).
Proof. intros Hw. unfold asm_flush. destruct (_ =? 0); [done|]. by apply window_flush_loop. Qed.

(** Another window that has the pieces orders them alike. *)
Lemma window_slide b b' a : window b a -> Forall (in_window b') (clips a) -> window b' a.
Proof.
  intros ([Hp Hs] & Hn & Hl) Hin. split; [|done]. split; [done|].
  revert Hp Hs Hin. generalize (clips a). clear. intros l Hp Hs.
  induction Hs as [|c l Hs IH Hf]; intros Hin; constructor.
  - apply Forall_cons in Hp as [_ Hp], Hin as [_ Hin]. auto.
  - apply Forall_cons in Hp as [Hc Hp], Hin as [Hc' Hin]. rewrite Forall_forall in Hp, Hf, Hin |- *. intros d Hd.
    specialize (Hp d Hd). specialize (Hf d Hd). specialize (Hin d Hd). cbn in Hf.
    pose proof (clip_seq_small _ (iw_ok _ _ Hc)) as B1. pose proof (clip_seq_small _ (iw_ok _ _ Hp)) as B2.
    pose proof (clip_seq_small _ (iw_ok _ _ Hc')) as B3. pose proof (clip_seq_small _ (iw_ok _ _ Hin)) as B4.
    unfold from_base in B1, B2, B3, B4. cbn [cl_seq] in B1, B2, B3, B4.
    pose proof (u32_diff_base b (cl_seq c) (cl_seq d)) as E1. pose proof (u32_diff_base b' (cl_seq c) (cl_seq d)) as E2.
    rewrite u32_diff_small in E1, E2 by done. lia.
Qed.

(** What the calls make of an empty cache, each piece being inserted when it
    and those that are held fit some window. *)
Inductive asm_reach : asm_t -> Prop :=
| ar_init : asm_reach asm_init
| ar_insert b a c :
    asm_reach a -> Forall (in_window b) (c :: clips a) -> Z.of_nat (length (clips a)) + 1 < HALF ->
    asm_reach (asm_insert a c).2
| ar_remove a c : asm_reach a -> c ∈ clips a -> asm_reach (asm_remove a c)
| ar_flush a seq : asm_reach a -> asm_reach (asm_flush a seq)
| ar_destroy a : asm_reach a -> asm_reach (asm_destroy a).

Lemma reach_window a : asm_reach a -> exists b, window b a.
Proof.
  induction 1 as [|b a c _ [b' IH] Hin Hl|a c _ [b IH] Hc|a seq _ [b IH]|a _ _].
  - exists 0. apply window_init.
  - apply Forall_cons in Hin as [Hc Hin]. exists b. apply window_insert; [by eapply window_slide|done|done].
  - exists b. by apply window_remove.
  - exists b. by apply window_flush.
  - exists 0. apply window_init.
Qed.

(** *** The construction does not see the base *)

Lemma head_map {X Y : Type} (f : X -> Y) l : head (map f l) = option_map f (head l).
Proof. by destruct l. Qed.

Definition range_from (b : Z) (r : list clip_t * option clip_t * Z) : list clip_t * option clip_t * Z :=
  (map (from_base b) r.1.1, option_map (from_base b) r.1.2, r.2).

Lemma scan_clips_base b seq must_have itr first last total :
  (itr <> [] -> first <> []) ->
  scan_clips (pos_from b seq) (pos_from b must_have) (map (from_base b) itr) (map (from_base b) first)
    (option_map (from_base b) last) total =
  option_map (range_from b) (scan_clips seq must_have itr first last total).
Proof.
  revert first last total. induction itr as [|c next IH]; intros first last total Hne; [done|].
  destruct first as [|f first]; [by destruct Hne|]. cbn [map scan_clips]. rewrite clip_end_base.
  change (cl_seq (from_base b f)) with (pos_from b (cl_seq f)). rewrite pos_from_diff, u32_lte_base.
  destruct (u32_lte (clip_end c) seq); [rewrite head_map; by apply IH|].
  destruct next as [|n next]; cbn [map].
  - apply (IH (f :: first) (Some c)). done.
  - change (cl_seq (from_base b n)) with (pos_from b (cl_seq n)). rewrite !u32_lt_base.
    destruct (u32_lt (clip_end c) (cl_seq n)); [by destruct (u32_lt (clip_end c) must_have)|].
    apply (IH (f :: first) (Some c)). done.
Qed.

Lemma scan_clips_forall (P : clip_t -> Prop) seq must_have itr first last total f l t :
  Forall P itr -> Forall P first -> (forall x, last = Some x -> P x) ->
  scan_clips seq must_have itr first last total = Some (f, l, t) -> Forall P f /\ (forall x, l = Some x -> P x).
Proof.
  intros Hi. revert first last total. induction Hi as [|c next Hc Hi IH]; intros first last total Hf Hl; cbn [scan_clips].
  - by intros [= <- <- _].
  - set (tot := Z.max _ _). destruct (u32_lte (clip_end c) seq).
    { apply IH; [done|]. intros x Hx. destruct next; [done|]. injection Hx as <-. by inversion Hi. }
    assert (Hc' : forall x, Some c = Some x -> P x) by by intros x [= <-].
    destruct next as [|n next]; [by apply IH|].
    destruct (u32_lt (clip_end c) (cl_seq n)); [|by apply IH].
    destruct (u32_lt (clip_end c) must_have); [done|]. by intros [= <- <- _].
Qed.

Lemma copy_clips_base b first_seq last_seq itr buf len :
  Forall (fun c => in_width 32 (cl_seq c)) itr -> in_width 32 last_seq ->
  copy_clips (pos_from b first_seq) (pos_from b last_seq) (map (from_base b) itr) buf len =
  copy_clips first_seq last_seq itr buf len.
Proof.
  intros Hi Hl. revert buf len. induction Hi as [|c next Hc Hi IH]; intros buf len; [done|]. cbn [map copy_clips].
  rewrite clip_end_base. change (cl_seq (from_base b c)) with (pos_from b (cl_seq c)).
  rewrite !pos_from_diff, eqb_base by done. cbn [from_base cl_ptr cl_skip cl_len].
  destruct (memcpy _ _ _ _ _) as [buf'|]; cbn [mbind outcome_bind]; [|done].
  destruct (cl_seq c =? last_seq); [done|apply IH].
Qed.

Fixpoint tree_map {A B} (f : A -> B) (t : tree A) : tree B :=
  match t with Leaf => Leaf | Node l x r => Node (tree_map f l) (f x) (tree_map f r) end.

Lemma tree_map_nodes {A B} (f : A -> B) t : nodes (tree_map f t) = map f (nodes t).
Proof. induction t as [|l IHl x r IHr]; cbn [tree_map nodes map]; [done|]. by rewrite IHl, IHr, map_app. Qed.

(** The pieces counted from [b]. *)
Definition asm_from (b : Z) (a : asm_t) : asm_t :=
  Asm (TreeT (tree_map (from_base b) (tr_root (am_tree a))) (tr_count (am_tree a))) (am_gross a).

Lemma asm_from_clips b a : clips (asm_from b a) = map (from_base b) (clips a).
Proof. apply tree_map_nodes. Qed.

Lemma asm_from_ok b a : window b a -> asm_ok (asm_from b a).
Proof.
  intros ([Hp Hs] & Hn & Hl). unfold asm_ok. rewrite asm_from_clips, length_map. split_and!; [|exact Hn|done]. split.
  - apply Forall_map. eapply Forall_impl; [exact Hp|]. by intros c [_ ?].
  - clear -Hs. induction Hs as [|c l Hs IH Hf]; cbn [map]; constructor; [done|]. by apply Forall_map.
Qed.

Lemma asm_construct_base b a target_seq buf must_have :
  Forall (fun c => in_width 32 (cl_seq c)) (clips a) ->
  asm_construct (asm_from b a) (pos_from b target_seq) buf (pos_from b must_have) =
  ('(res, seq, len, buf) ← asm_construct a target_seq buf must_have; Done (res, pos_from b seq, len, buf)).
Proof.
  intros Hw. unfold asm_construct. rewrite asm_from_clips, head_map.
  change (asm_count (asm_from b a)) with (asm_count a). destruct (asm_count a <=? 1); [done|].
  rewrite scan_clips_base by done.
  destruct (scan_clips target_seq must_have (clips a) (clips a) (head (clips a)) 0) as [[[first last] total]|] eqn:Hs;
    cbn [option_map range_from fst snd]; [|done].
  apply (scan_clips_forall (fun c => in_width 32 (cl_seq c))) in Hs as [Hf Hl]; [|done|done|].
  2:{ intros x Hx. destruct (clips a); [done|]. injection Hx as ->. by inversion Hw. }
  destruct first as [|f first]; [done|]. destruct last as [l|]; [|done]. cbn [map option_map].
  change (cl_seq (from_base b f)) with (pos_from b (cl_seq f)). change (cl_seq (from_base b l)) with (pos_from b (cl_seq l)).
  pose proof Hf as Hf'. apply Forall_cons in Hf' as [Hf1 _]. rewrite eqb_base, u32_lt_base by auto.
  destruct (_ || _); [done|]. destruct (_ <? total); [done|].
  change (from_base b f :: map (from_base b) first) with (map (from_base b) (f :: first)).
  rewrite copy_clips_base by auto. by destruct (copy_clips _ _ _ _ _) as [[buf' len]|].
Qed.

(** C37: Reassembly neither reads nor writes out of bounds, whatever was
    inserted, removed and flushed before, as long as the pieces that are held
    fit a window of half the range of positions, which may move and may wrap
    around: a piece is not empty, its data is in its block, and it and those
    held at its insertion fit some window; and those held now, with the
    position asked for and the one needed, fit the window at [b].  When the
    construction succeeds, the buffer holds the data from a position before
    the one asked for on, past it, each byte as one of the pieces has it, with
    positions counted from [b] and without a hole; else the buffer is
    unchanged.  The buffer is shorter than 2^24 bytes. *)
Theorem asm_construct_spec a b target_seq buf must_have :
  asm_reach a -> Forall (in_window b) (clips a) ->
  pos_from b target_seq < HALF -> pos_from b must_have < HALF -> Z.of_nat (length buf) < 16777216 ->
  exists res seq len buf', asm_construct a target_seq buf must_have = Done (res, seq, len, buf') /\
    match res with
    | ASM_OK => pos_from b seq <= pos_from b target_seq < pos_from b seq + len /\ len <= Z.of_nat (length buf) /\
        length buf' = length buf /\ assembled (from_base b <$> clips a) (pos_from b seq) len buf'
    | ASM_FAILURE => False
    | _ => buf' = buf
    end.
Proof.
  intros [b' Hw']%reach_window Hin Ht Hm Hbuf. pose proof (window_slide b' b a Hw' Hin) as Hw.
  pose proof (pos_from_width b target_seq) as [Ht0 _]. pose proof (pos_from_width b must_have) as [Hm0 _].
  destruct (asm_construct_low (asm_from b a) (pos_from b target_seq) buf (pos_from b must_have))
    as (res & seq & len & buf' & Hc & Hres); [by apply asm_from_ok|done|done|done|].
  rewrite asm_construct_base in Hc by (eapply Forall_impl; [exact Hin|by intros c [? _]]).
  destruct (asm_construct a target_seq buf must_have) as [[[[res' seq'] len'] buf'']|]; [|done].
  injection Hc as <- <- <- <-. exists res', seq', len', buf''. split; [done|].
  destruct res'; try done. rewrite asm_from_clips in Hres. destruct Hres as (H1 & H2 & H3 & H4 & H5).
  split_and!; try done; lia.
Qed.

(** Two pieces that came in the wrong order and span the end of the range; the
    data is asked for from the second byte before it on. *)
Definition ex_piece1 : clip_t := Clip [5; 6; 7; 8] 0 4 0.
Definition ex_piece2 : clip_t := Clip [0; 1; 2; 3] 4294967293 3 1.
Definition ex_pieces : asm_t := (asm_insert (asm_insert asm_init ex_piece1).2 ex_piece2).2.

Lemma ex_window : Forall (in_window 4294967290) [ex_piece1; ex_piece2].
Proof. repeat constructor; unfold HALF; vm_compute; congruence. Qed.

Lemma asm_construct_spec_witness :
  asm_reach ex_pieces /\
  exists res seq len buf', asm_construct ex_pieces 4294967294 (repeat 0 8) 3 = Done (res, seq, len, buf') /\
    seq = 4294967293 /\ buf' = [1; 2; 3; 5; 6; 7; 8; 0].
Proof.
  pose proof ex_window as [H1 [H2 H3]%Forall_cons]%Forall_cons.
  assert (asm_reach ex_pieces) as Ha.
  { apply (ar_insert 4294967290); [apply (ar_insert 4294967290)| |]; [constructor|by repeat constructor|reflexivity| |reflexivity].
    vm_compute clips. by repeat constructor. }
  split; [exact Ha|].
  destruct (asm_construct_spec ex_pieces 4294967290 4294967294 (repeat 0 8) 3 Ha) as (res & seq & len & buf' & Hc & _);
    [vm_compute clips; by repeat constructor|reflexivity..|].
  exists res, seq, len, buf'. split; [exact Hc|]. vm_compute in Hc. by injection Hc as <- <- <- <-.
Defined.

(** Pieces that fit no window: after the first of three is removed, the other
    two are in the wrong order, and the copy leaves the buffer. *)
Theorem pieces_out_of_window :
  let piece seq := Clip (repeat 1 10) seq 10 0 in
  let a := fold_left (fun a c => (asm_insert a c).2) [piece 2147483656; piece 10; piece 5] asm_init in
  asm_construct (asm_remove a (piece 2147483656)) 10 (repeat 0 20) 10 = invalid_access.
Proof. vm_compute. reflexivity. Qed.

(** A piece inside an earlier one that ends before the position asked for
    makes the loop forget the earlier one: the data from 50 on is there, in
    the first piece, and nothing is assembled. *)
Theorem nested_piece_lost :
  let piece seq len := Clip (repeat 1 100) seq len 0 in
  let a := fold_left (fun a c => (asm_insert a c).2) [piece 0 100; piece 10 10; piece 30 30] asm_init in
  Z.of_nat (length (clips a)) = 3 /\
  asm_construct a 50 (repeat 0 200) 0 = Done (ASM_NOP, 50, 200, repeat 0 200) /\
  exists c, c ∈ clips a /\ cl_seq c <= 50 < cend c /\ cend c = 100.
Proof.
  cbv zeta. split; [reflexivity|]. split; [vm_compute; reflexivity|].
  exists (Clip (repeat 1 100) 0 100 0). split_and!; [|done..]. vm_compute. left.
Qed.
