(* ===== verification/NvFrag.v ===== *)
(** * IPv4 fragments: [dp/dpi/dpi_frag.c]

    The fragments of a datagram are held by source, destination, identifier
    and direction until the datagram can be assembled ([NvAsm]).  The main
    theorem says that fragments that arrive in any order give back the
    datagram with the last one, and not before; an example shows what the
    caller does with a fragment that completes both ends of a datagram but
    leaves a hole.

    The fields of the IP header that the code reads and writes are a record,
    the rest of the packet is bytes; the checksum of the assembled packet, the
    counters and the timer are left out, but for the release of a datagram
    that is not completed in time. *)

From Stdlib Require Import ZArith Lia.
From S2P Require Import Prelude NvBitmap NvFqdn NvTree NvAsm.
Local Open Scope Z_scope.

(** ** Data *)

Definition IP_MF : Z := 8192.
Definition IP_OFFMASK : Z := 8191.
Definition DPI_MAX_PKT_LEN : Z := 65536.

(** [frag_off] in host order. *)
Record iphdr := IpHdr {
  ih_saddr : Z;
  ih_daddr : Z;
  ih_id : Z;
  ih_frag_off : Z;
  ih_tot_len : Z
}.

Record ip4frag_trac_t := Trac {
  tc_length : Z;
  tc_first : bool;
  tc_last : bool;
  tc_frags : asm_t
}.

(** [fp_pkt] are the bytes captured, of which [fp_len] belong to the packet. *)
Record frag_pkt := FragPkt {
  fp_iph : iphdr;
  fp_ingress : bool;
  fp_pkt : list Z;
  fp_len : Z;
  fp_l3 : Z;
  fp_l4 : Z;
  fp_frag_trac : option ip4frag_trac_t
}.

(** [th_ip4frag_map] and the buffer [defrag_data] of the thread's packet. *)
Record frag_state := FragState {
  fs_map : gmap (Z * Z * Z * bool) ip4frag_trac_t;
  fs_defrag_data : list Z
}.

Definition trac_key (p : frag_pkt) : Z * Z * Z * bool :=
  (ih_saddr (fp_iph p), ih_daddr (fp_iph p), ih_id (fp_iph p), fp_ingress p).

(** ** Operations *)

Definition frag_seq (p : frag_pkt) : Z := Z.shiftl (Z.land (ih_frag_off (fp_iph p)) IP_OFFMASK) 3.
Definition frag_len (p : frag_pkt) : Z := wrap 32 (fp_len p - fp_l4 p).

(** [asm_foreach(&trac->frags, teardrop_check, &td)] *)
Definition teardrop_check (seq len : Z) (overlap : bool) (clip : clip_t) : bool :=
  if negb overlap then u32_overlap seq (wrap 32 (seq + len)) (cl_seq clip) (clip_end clip) else overlap.

(** The length after a fragment that ends at [end_]; [None] when the fragment
    does not fit the ones before. *)
Definition frag_length (trac : ip4frag_trac_t) (more : bool) (end_ : Z) : option (Z * bool) :=
  if more then
    if tc_length trac <? end_ then
      if tc_last trac then None else Some (end_, tc_last trac)
    else Some (tc_length trac, tc_last trac)
  else
    if (end_ <? tc_length trac) || (tc_last trac && negb (end_ =? tc_length trac)) then None
    else Some (end_, true).

Definition ipfrag_hold (trac : ip4frag_trac_t) (p : frag_pkt) : ip4frag_trac_t :=
  let seq := frag_seq p in
  let len := frag_len p in
  let end_ := wrap 32 (seq + len) in
  if len =? 0 then trac
  else if (0 <? asm_count (tc_frags trac)) && asm_foreach (teardrop_check seq len) false (tc_frags trac) then trac
  else
    let trac := if seq =? 0 then Trac (tc_length trac) true (tc_last trac) (tc_frags trac) else trac in
    match frag_length trac (negb (Z.land (ih_frag_off (fp_iph p)) IP_MF =? 0)) end_ with
    | None => trac
    | Some (length_, last) =>
        let clip := Clip (fp_pkt p) seq (wrap 24 len) (wrap 16 (fp_l4 p)) in
        Trac length_ (tc_first trac) last (asm_insert (tc_frags trac) clip).2
    end.

(** The assembled packet has the headers of the packet [p]; its lengths have
    16 bits. *)
Definition assembled_pkt (trac : ip4frag_trac_t) (p : frag_pkt) (buf : list Z) (len : Z) : frag_pkt :=
  let iph := IpHdr (ih_saddr (fp_iph p)) (ih_daddr (fp_iph p)) (ih_id (fp_iph p)) 0
               (wrap 16 (fp_l4 p - fp_l3 p + len)) in
  FragPkt iph (fp_ingress p) (take (Z.to_nat (fp_l4 p)) (fp_pkt p) ++ buf) (wrap 16 (fp_l4 p + len))
    (fp_l3 p) (fp_l4 p) (Some trac).

(** The function has the type [bool]: its -1 becomes 1. *)
Definition ipfrag_construct (trac : ip4frag_trac_t) (p : frag_pkt) (s : frag_state)
    : outcome (Z * frag_pkt * frag_state) :=
  let hdr := take (Z.to_nat (fp_l4 p)) (fs_defrag_data s) in
  let buf := drop (Z.to_nat (fp_l4 p)) (fs_defrag_data s) in
  '(res, _, len, buf) ← asm_construct (tc_frags trac) 0 buf (wrap 32 (tc_length trac - 1));
  match res with
  | ASM_OK =>
      Done (0, assembled_pkt trac p buf len,
            FragState (delete (trac_key p) (fs_map s)) (take (Z.to_nat (fp_l4 p)) (fp_pkt p) ++ buf))
  | _ => Done (1, p, FragState (fs_map s) (hdr ++ buf))
  end.

Definition new_trac : ip4frag_trac_t := Trac 0 false false asm_init.

Definition dpi_ip_defrag (p : frag_pkt) (s : frag_state) : outcome (Z * frag_pkt * frag_state) :=
  let trac := ipfrag_hold (default new_trac (fs_map s !! trac_key p)) p in
  let s := FragState (<[trac_key p := trac]> (fs_map s)) (fs_defrag_data s) in
  if tc_first trac && tc_last trac then ipfrag_construct trac p s else Done (-1, p, s).

(** The timer of a datagram. *)
Definition ipfrag_release (key : Z * Z * Z * bool) (s : frag_state) : frag_state :=
  FragState (delete key (fs_map s)) (fs_defrag_data s).

(** The packets that are sent in place of an assembled one. *)
Definition send_frag (sent : list (list Z)) (clip : clip_t) : list (list Z) :=
  sent ++ [take (Z.to_nat (cl_len clip + cl_skip clip)) (cl_ptr clip)].

Definition dpi_frag_send (trac : ip4frag_trac_t) : list (list Z) := asm_foreach send_frag [] (tc_frags trac).

(** [dpi_parse_ipv4] after the header: [None] when the packet is held back,
    else the packet that is parsed further. *)
Definition parse_fragment (p : frag_pkt) (s : frag_state) : outcome (option frag_pkt * frag_state) :=
  if negb (Z.land (ih_frag_off (fp_iph p)) (Z.lor IP_OFFMASK IP_MF) =? 0) then
    '(ret, p, s) ← dpi_ip_defrag p s;
    if ret <? 0 then Done (None, s) else Done (Some p, s)
  else Done (Some p, s).

(** The fragments [frags] arrive: the results, with the packets. *)
Fixpoint defrags (frags : list frag_pkt) (s : frag_state) : outcome (list (Z * frag_pkt) * frag_state) :=
  match frags with
  | [] => Done ([], s)
  | p :: frags =>
      '(ret, p, s) ← dpi_ip_defrag p s;
      '(out, s) ← defrags frags s;
      Done ((ret, p) :: out, s)
  end.

(** ** Fragments of a datagram *)

(** The bytes of the payload that a fragment has. *)
Definition frag_size (p : frag_pkt) : Z := fp_len p - fp_l4 p.
Definition frag_end (p : frag_pkt) : Z := frag_seq p + frag_size p.
Definition has_more (p : frag_pkt) : bool := negb (Z.land (ih_frag_off (fp_iph p)) IP_MF =? 0).

(** The clip of a fragment. *)
Definition clip_of (p : frag_pkt) : clip_t := Clip (fp_pkt p) (frag_seq p) (frag_size p) (fp_l4 p).

(** The packet [p] is a fragment of the datagram with the payload [data]. *)
Record frag_of (key : Z * Z * Z * bool) (data : list Z) (p : frag_pkt) : Prop := {
  fo_key : trac_key p = key;
  fo_hdr : 0 <= fp_l3 p <= fp_l4 p;
  fo_fits : fp_l4 p + Z.of_nat (length data) < DPI_MAX_PKT_LEN;
  fo_captured : fp_len p <= Z.of_nat (length (fp_pkt p));
  fo_len : 0 < frag_size p;
  fo_end : frag_end p <= Z.of_nat (length data);
  fo_more : has_more p = (frag_end p <? Z.of_nat (length data));
  fo_bytes : forall pos, frag_seq p <= pos < frag_end p ->
    byte_at (fp_pkt p) (fp_l4 p + (pos - frag_seq p)) = byte_at data pos
}.

Definition disjoint_frags (p q : frag_pkt) : Prop := frag_end p <= frag_seq q \/ frag_end q <= frag_seq p.

(** The fragments of the list do not overlap, and together they are the
    datagram. *)
Record cut (key : Z * Z * Z * bool) (data : list Z) (frags : list frag_pkt) : Prop := {
  ct_frags : Forall (frag_of key data) frags;
  ct_disjoint : forall i j p q, frags !! i = Some p -> frags !! j = Some q -> i <> j -> disjoint_frags p q;
  ct_covers : forall pos, 0 <= pos < Z.of_nat (length data) ->
    exists p, p ∈ frags /\ frag_seq p <= pos < frag_end p;
  ct_several : (2 <= length frags)%nat
}.

Lemma frag_seq_nonneg p : 0 <= frag_seq p.
Proof. unfold frag_seq. apply Z.shiftl_nonneg, Z.land_nonneg. right. done. Qed.

Section datagram.
Context (key : Z * Z * Z * bool) (data : list Z).
Let N := Z.of_nat (length data).

Lemma frag_bounds p : frag_of key data p -> 0 <= frag_seq p < frag_end p /\ frag_end p <= N < DPI_MAX_PKT_LEN.
Proof.
  intros [? ? ? ? ? ? ? ?]. pose proof (frag_seq_nonneg p). unfold frag_end, N in *. lia.
Qed.

Lemma clip_of_ok p : frag_of key data p -> clip_ok (clip_of p).
Proof.
  intros Hp. pose proof (frag_bounds p Hp). destruct Hp as [? ? ? ? ? ? ? ?].
  unfold frag_end, frag_size, DPI_MAX_PKT_LEN, HALF in *.
  constructor; cbn [clip_of cl_seq cl_len cl_skip cl_ptr]; unfold frag_size, HALF in *; lia.
Qed.

(** Nothing is cut off by the widths of the fields. *)
Lemma frag_sizes p :
  frag_of key data p ->
  frag_len p = frag_size p /\ wrap 24 (frag_size p) = frag_size p /\ wrap 16 (fp_l4 p) = fp_l4 p.
Proof.
  intros Hp. pose proof (frag_bounds p Hp). pose proof (fo_hdr _ _ _ Hp). pose proof (fo_fits _ _ _ Hp).
  pose proof (fo_len _ _ _ Hp). unfold frag_end, frag_len, DPI_MAX_PKT_LEN in *. fold (frag_size p).
  rewrite !wrap_small by (unfold in_width; lia). done.
Qed.

(** What is held when the fragments [got] have arrived. *)
Record held_frags (got : list frag_pkt) (t : ip4frag_trac_t) : Prop := {
  hf_asm : asm_ok (tc_frags t);
  hf_clips : clips (tc_frags t) ≡ₚ map clip_of got;
  hf_first : tc_first t = existsb (fun p => frag_seq p =? 0) got;
  hf_last : tc_last t = existsb (fun p => frag_end p =? N) got;
  hf_length : tc_length t = foldr (fun p n => Z.max (frag_end p) n) 0 got
}.

Lemma held_none : held_frags [] new_trac.
Proof. constructor; try done. split; [split; constructor|]. by split. Qed.

Lemma max_end_frags got :
  Forall (frag_of key data) got ->
  let m := foldr (fun p n => Z.max (frag_end p) n) 0 got in
  0 <= m <= N /\ (existsb (fun p => frag_end p =? N) got = true -> m = N).
Proof.
  cbv zeta. induction 1 as [|p got Hp _ [IH1 IH2]]; cbn [foldr existsb]; [split; [unfold N; lia|done]|].
  pose proof (frag_bounds p Hp). split; [lia|]. intros [E%Z.eqb_eq|E]%orb_true_iff; [lia|]. rewrite IH2 by done. lia.
Qed.

(** A fragment that does not overlap raises no alarm. *)
Lemma no_teardrop p got a :
  frag_of key data p -> Forall (frag_of key data) got -> Forall (disjoint_frags p) got ->
  clips a ≡ₚ map clip_of got -> asm_foreach (teardrop_check (frag_seq p) (frag_size p)) false a = false.
Proof.
  intros Hp Hgot Hd Hcl. unfold asm_foreach, tree_traverse. fold (clips a).
  assert (Forall (fun c => teardrop_check (frag_seq p) (frag_size p) false c = false) (clips a)) as Hall.
  { rewrite Hcl. apply Forall_forall. intros c (q & -> & Hq)%list_elem_of_fmap. rewrite Forall_forall in Hgot, Hd.
    pose proof (frag_bounds p Hp) as Hbp. pose proof (frag_bounds q (Hgot q Hq)) as Hbq.
    pose proof (clip_of_ok q (Hgot q Hq)) as Hok. cbn [teardrop_check negb]. rewrite clip_end_eq by done.
    unfold cend, u32_overlap. cbn [clip_of cl_seq cl_len]. fold (frag_end p) (frag_end q).
    rewrite wrap_small by (unfold in_width, DPI_MAX_PKT_LEN in *; lia).
    destruct (Hd q Hq); apply andb_false_iff; [right|left]; apply Z.ltb_ge; lia. }
  clear Hcl. induction Hall as [|c l Hc _ IH]; cbn [fold_left]; [done|]. rewrite Hc. apply IH.
Qed.
(** The length after a fragment: the end of the furthest one. *)
Lemma frag_length_max p got t :
  frag_of key data p -> Forall (frag_of key data) got -> Forall (disjoint_frags p) got -> held_frags got t ->
  frag_length t (has_more p) (frag_end p) =
  Some (Z.max (frag_end p) (tc_length t), (frag_end p =? N) || tc_last t).
Proof.
  intros Hp Hgot Hd [_ _ _ Hl Hlen]. destruct (max_end_frags got Hgot) as [Hm1 Hm2].
  rewrite <-Hlen, <-Hl in *. pose proof (frag_bounds p Hp). rewrite (fo_more _ _ _ Hp). fold N. unfold frag_length.
  destruct (Z.ltb_spec (frag_end p) N) as [Hlt|Hge].
  - rewrite (proj2 (Z.eqb_neq (frag_end p) N)) by lia. cbn [orb].
    destruct (Z.ltb_spec (tc_length t) (frag_end p)); [|by rewrite Z.max_r by lia].
    destruct (tc_last t); [specialize (Hm2 eq_refl); lia|]. by rewrite Z.max_l by lia.
  - rewrite (proj2 (Z.eqb_eq (frag_end p) N)) by lia. rewrite (proj2 (Z.ltb_ge (frag_end p) (tc_length t))) by lia.
    assert (tc_last t = false) as ->; [|by rewrite Z.max_l by lia].
    rewrite Hl. apply not_true_is_false. intros (q & Hq & E%Z.eqb_eq)%existsb_exists.
    apply list_elem_of_In in Hq. rewrite Forall_forall in Hgot, Hd.
    pose proof (frag_bounds q (Hgot q Hq)). destruct (Hd q Hq); lia.
Qed.

(** A fragment that does not overlap is held. *)
Lemma ipfrag_hold_spec p got t :
  frag_of key data p -> Forall (frag_of key data) got -> Forall (disjoint_frags p) got -> held_frags got t ->
  Z.of_nat (length got) + 1 < HALF -> held_frags (p :: got) (ipfrag_hold t p).
Proof.
  intros Hp Hgot Hd Ht Hn. pose proof (frag_bounds p Hp) as Hb. unfold ipfrag_hold.
  destruct (frag_sizes p Hp) as (-> & -> & ->). rewrite (proj2 (Z.eqb_neq (frag_size p) 0)) by (pose proof (fo_len _ _ _ Hp); lia).
  rewrite (no_teardrop p got) by (done || apply Ht). rewrite andb_false_r. fold (frag_end p).
  rewrite wrap_small by (unfold in_width, DPI_MAX_PKT_LEN in *; lia).
  set (t0 := if frag_seq p =? 0 then _ else t).
  assert (tc_frags t0 = tc_frags t /\ tc_last t0 = tc_last t /\ tc_length t0 = tc_length t /\
          tc_first t0 = (frag_seq p =? 0) || tc_first t) as (E1 & E2 & E3 & E4)
    by (unfold t0; by destruct (frag_seq p =? 0)).
  fold (has_more p). pose proof (frag_length_max p got t Hp Hgot Hd Ht) as Hfl.
  unfold frag_length in *. rewrite E2, E3, Hfl, E1, E4. fold (clip_of p). destruct Ht as [Ha Hc Hf Hl Hlen].
  assert (length (clips (tc_frags t)) = length got) as Elen by (by rewrite Hc, length_map).
  pose proof (asm_insert_spec (tc_frags t) (clip_of p) Ha (clip_of_ok p Hp)) as Hi.
  rewrite Elen in Hi. specialize (Hi Hn).
  destruct (asm_insert (tc_frags t) (clip_of p)) as [[] a'] eqn:Eins; try done; cbn [snd].
  - destruct Hi as (Ha' & l1 & l2 & Ec & Ec').
    constructor; cbn [tc_frags tc_first tc_last tc_length existsb foldr map]; [done| |by rewrite Hf|by rewrite Hl|by rewrite Hlen].
    rewrite Ec', <-Hc, Ec. by rewrite Permutation_middle.
  - destruct Hi as (-> & c & Hin & Hseq). exfalso. rewrite Hc in Hin.
    apply list_elem_of_fmap in Hin as (q & -> & Hq). rewrite Forall_forall in Hgot, Hd.
    pose proof (frag_bounds q (Hgot q Hq)). cbn [clip_of cl_seq] in Hseq. destruct (Hd q Hq); lia.
Qed.

(** The clips of the fragments, in order. *)
Lemma held_clip got t c :
  held_frags got t -> c ∈ clips (tc_frags t) -> exists p, p ∈ got /\ c = clip_of p /\ cl_seq c = frag_seq p /\ cend c = frag_end p.
Proof.
  intros Ht Hc. rewrite (hf_clips _ _ Ht) in Hc. apply list_elem_of_fmap in Hc as (p & -> & Hp).
  exists p. by split_and!.
Qed.

Lemma clip_held got t p : held_frags got t -> p ∈ got -> clip_of p ∈ clips (tc_frags t).
Proof. intros Ht Hp. rewrite (hf_clips _ _ Ht). by apply list_elem_of_fmap_2. Qed.

(** With both ends the first clip is at the beginning and the furthest one at
    the end. *)
Lemma frag_both_ends got t :
  Forall (frag_of key data) got -> held_frags got t -> tc_first t = true -> tc_last t = true ->
  tc_length t = N /\ exists f l, clips (tc_frags t) = f :: l /\ cl_seq f = 0 /\ max_end (f :: l) = N.
Proof.
  intros Hgot Ht Hf Hl. destruct (max_end_frags got Hgot) as [_ Hm]. pose proof Ht as [[Hs _] _ Ef El Elen].
  rewrite El in Hl. split; [rewrite Elen; by apply Hm|]. rewrite Ef in Hf.
  apply existsb_exists in Hf as (p & Hp%list_elem_of_In & E%Z.eqb_eq).
  apply existsb_exists in Hl as (q & Hq%list_elem_of_In & E'%Z.eqb_eq).
  pose proof (clip_held got t p Ht Hp) as Hcp. pose proof (clip_held got t q Ht Hq) as Hcq.
  assert (forall c, c ∈ clips (tc_frags t) -> 0 <= cl_seq c /\ cend c <= N) as Hb.
  { intros c (r & Hr & _ & -> & ->)%(held_clip got t c Ht). rewrite Forall_forall in Hgot.
    pose proof (frag_bounds r (Hgot r Hr)). lia. }
  destruct (clips (tc_frags t)) as [|f l]; [by apply not_elem_of_nil in Hcp|]. exists f, l.
  pose proof (sorted_first [] f l _ Hs Hcp) as Hfirst. cbn [clip_of cl_seq] in Hfirst.
  split_and!; [done|pose proof (Hb f ltac:(left)); lia|].
  pose proof (max_end_ge _ _ Hcq) as Hge. change (cend (clip_of q)) with (frag_end q) in Hge.
  assert (max_end (f :: l) <= N); [|lia].
  apply max_end_bound; [|unfold N; lia]. apply Forall_forall. intros c Hc. by apply Hb.
Qed.
(** While a byte is missing nothing is assembled. *)
Lemma construct_incomplete got t buf pos :
  Forall (frag_of key data) got -> held_frags got t -> tc_first t = true -> tc_last t = true ->
  0 <= pos < N -> (forall p, p ∈ got -> ~ frag_seq p <= pos < frag_end p) ->
  exists q n, asm_construct (tc_frags t) 0 buf (wrap 32 (tc_length t - 1)) = Done (ASM_NOP, q, n, buf).
Proof.
  intros Hgot Ht Hf Hl Hpos Hmiss. destruct (frag_both_ends got t Hgot Ht Hf Hl) as (-> & f & l & Hcl & Hf0 & Hme).
  pose proof (hf_asm _ _ Ht) as Ha.
  assert (N < HALF) as HN.
  { rewrite (hf_first _ _ Ht) in Hf. apply existsb_exists in Hf as (p & Hp%list_elem_of_In & _).
    rewrite Forall_forall in Hgot. pose proof (frag_bounds p (Hgot p Hp)). unfold DPI_MAX_PKT_LEN, HALF in *. lia. }
  rewrite wrap_small by (unfold in_width, HALF in *; lia).
  apply (construct_gap (N - 1)) with (f := f) (l := l); [lia|done|done| |].
  - destruct (linked_or_gap (f :: l)) as [Hlink|]; [|done]. exfalso.
    destruct (linked_cover f l pos Hlink) as [c Hc]; [lia|lia|]. apply last_cover_in in Hc as [Hin Hcov].
    rewrite <-Hcl in Hin. apply (held_clip got t c Ht) in Hin as (p & Hp & _ & Es & Ee).
    unfold covers_pos in Hcov. apply andb_true_iff in Hcov as [H1%Z.leb_le H2%Z.ltb_lt]. apply (Hmiss p Hp). lia.
  - intros x y _ Hy Hlt. rewrite <-Hcl in Hy. apply (held_clip got t y Ht) in Hy as (p & Hp & _ & Es & Ee).
    rewrite Forall_forall in Hgot. pose proof (frag_bounds p (Hgot p Hp)). lia.
Qed.

(** Fragments that cover the datagram leave no gap. *)
Lemma covered_linked got t :
  Forall (frag_of key data) got -> held_frags got t ->
  (forall p q, p ∈ got -> q ∈ got -> clip_of p = clip_of q \/ disjoint_frags p q) ->
  (forall pos, 0 <= pos < N -> exists p, p ∈ got /\ frag_seq p <= pos < frag_end p) ->
  linked (clips (tc_frags t)).
Proof.
  intros Hgot Ht Hd Hcov. destruct (linked_or_gap (clips (tc_frags t))) as [|(l1 & x & y & l2 & E & Hg)]; [done|].
  exfalso. pose proof (hf_asm _ _ Ht) as (Hs & _). rewrite Forall_forall in Hgot.
  assert (x ∈ clips (tc_frags t)) as Hx by (rewrite E; set_solver).
  assert (y ∈ clips (tc_frags t)) as Hy by (rewrite E; set_solver).
  apply (held_clip got t x Ht) in Hx as (px & Hpx & Ex & Esx & Eex).
  apply (held_clip got t y Ht) in Hy as (py & Hpy & _ & Esy & Eey).
  pose proof (frag_bounds px (Hgot _ Hpx)). pose proof (frag_bounds py (Hgot _ Hpy)).
  destruct (Hcov (cend x)) as (p & Hp & Hin); [lia|]. pose proof (clip_held got t p Ht Hp) as Hc.
  rewrite E in Hs, Hc. pose proof Hs as (_ & Hs2 & _ & Hlt1 & Hlt2)%sorted_app.
  rewrite Forall_forall in Hlt1. apply elem_of_app in Hc as [Hc|[Hc|Hc]%elem_of_cons].
  - pose proof (Hlt1 _ Hc) as Hlt. cbn [clip_of cl_seq] in Hlt. destruct (Hd p px Hp Hpx) as [Ec|[|]]; [|lia..].
    rewrite Ex, <-Ec in Hlt. cbn [clip_of cl_seq] in Hlt. lia.
  - assert (cend x = frag_end p) by (by rewrite <-Hc). lia.
  - pose proof (sorted_first [] y l2 _ Hs2 Hc) as Hle. cbn [clip_of cl_seq] in Hle. lia.
Qed.

(** With all the bytes the datagram is assembled. *)
Lemma construct_complete got t buf :
  Forall (frag_of key data) got -> held_frags got t -> (2 <= length got)%nat ->
  (forall p q, p ∈ got -> q ∈ got -> clip_of p = clip_of q \/ disjoint_frags p q) ->
  (forall pos, 0 <= pos < N -> exists p, p ∈ got /\ frag_seq p <= pos < frag_end p) ->
  tc_first t = true -> tc_last t = true -> N <= Z.of_nat (length buf) <= DPI_MAX_PKT_LEN ->
  exists buf', asm_construct (tc_frags t) 0 buf (wrap 32 (tc_length t - 1)) = Done (ASM_OK, 0, N, buf') /\
    length buf' = length buf /\ take (length data) buf' = data.
Proof.
  intros Hgot Ht Hn Hd Hcov Hf Hl Hbuf. pose proof (covered_linked got t Hgot Ht Hd Hcov) as Hlink.
  destruct (frag_both_ends got t Hgot Ht Hf Hl) as (-> & f & l & Hcl & Hf0 & Hme).
  assert (0 < N) as HN.
  { destruct got as [|p got]; [cbn in Hn; lia|]. apply Forall_cons in Hgot as [Hp _]. pose proof (frag_bounds p Hp). lia. }
  unfold DPI_MAX_PKT_LEN in *. rewrite wrap_small by (unfold in_width; lia). rewrite Hcl in Hlink.
  destruct (construct_linked (N - 1) ltac:(unfold HALF; lia) (tc_frags t) buf f l) as (buf' & Hc & Hlen & Has); try done.
  { apply Ht. }
  { intros ->. pose proof (Permutation_length (hf_clips _ _ Ht)) as E. rewrite Hcl, length_map in E. cbn in E. lia. }
  { lia. }
  rewrite Hme in *. exists buf'. split_and!; [done|done|]. apply list_eq. intros i.
  destruct (decide (i < length data)%nat) as [Hi|Hi].
  - rewrite lookup_take_lt by done. destruct (Has (Z.of_nat i)) as (c & Hin & Hcp & Hb); [unfold N; lia|].
    apply (held_clip got t c Ht) in Hin as (p & Hp & -> & Es & Ee). rewrite Forall_forall in Hgot.
    unfold covers_pos in Hcp. apply andb_true_iff in Hcp as [H1%Z.leb_le H2%Z.ltb_lt].
    unfold clip_byte in Hb. cbn [clip_of cl_ptr cl_skip cl_seq] in *. rewrite (fo_bytes _ _ _ (Hgot p Hp)) in Hb by lia.
    unfold byte_at in Hb. rewrite Z.sub_0_r, Nat2Z.id in Hb. done.
  - rewrite lookup_take_ge by lia. symmetry. apply lookup_ge_None. lia.
Qed.
(** The state when the fragments [got] have arrived; [m] are the other
    datagrams. *)
Definition arrived (m : gmap (Z * Z * Z * bool) ip4frag_trac_t) (got : list frag_pkt) (s : frag_state) : Prop :=
  held_frags got (default new_trac (fs_map s !! key)) /\ delete key (fs_map s) = m /\
  Z.of_nat (length (fs_defrag_data s)) = DPI_MAX_PKT_LEN.

(** A fragment before the last one. *)
Lemma defrag_waits m got s p pos :
  arrived m got s -> Forall (frag_of key data) (p :: got) -> Forall (disjoint_frags p) got ->
  Z.of_nat (length got) + 1 < HALF -> 0 <= pos < N ->
  (forall q, q ∈ p :: got -> ~ frag_seq q <= pos < frag_end q) ->
  exists ret s', dpi_ip_defrag p s = Done (ret, p, s') /\ ret <> 0 /\ arrived m (p :: got) s'.
Proof.
  intros (Ht & Hm & Hlen) Hall Hd Hn Hpos Hmiss. pose proof Hall as [Hp Hgot]%Forall_cons. unfold dpi_ip_defrag.
  rewrite (fo_key _ _ _ Hp). pose proof (ipfrag_hold_spec p got _ Hp Hgot Hd Ht Hn) as Ht'.
  set (t := ipfrag_hold _ p) in *.
  assert (forall d, Z.of_nat (length d) = DPI_MAX_PKT_LEN -> arrived m (p :: got) (FragState (<[key:=t]> (fs_map s)) d)) as Harr.
  { intros d Hdl. split_and!; cbn [fs_map fs_defrag_data]; [by rewrite lookup_insert_eq|by rewrite delete_insert_eq|done]. }
  destruct (tc_first t) eqn:Ef, (tc_last t) eqn:El; cbn [andb]; try by (do 2 eexists; split_and!; [done|done|by apply Harr]).
  unfold ipfrag_construct. cbn [fs_map fs_defrag_data].
  destruct (construct_incomplete (p :: got) t (drop (Z.to_nat (fp_l4 p)) (fs_defrag_data s)) pos) as (q & n & ->);
    try done. cbn [mbind outcome_bind]. do 2 eexists. split_and!; [done|done|]. rewrite take_drop. by apply Harr.
Qed.

(** The last fragment. *)
Lemma defrag_completes m got s p :
  arrived m got s -> Forall (frag_of key data) (p :: got) -> Forall (disjoint_frags p) got ->
  Z.of_nat (length got) + 1 < HALF -> (1 <= length got)%nat ->
  (forall q r, q ∈ p :: got -> r ∈ p :: got -> clip_of q = clip_of r \/ disjoint_frags q r) ->
  (forall pos, 0 <= pos < N -> exists q, q ∈ p :: got /\ frag_seq q <= pos < frag_end q) ->
  exists t buf s', dpi_ip_defrag p s = Done (0, assembled_pkt t p buf N, s') /\ fs_map s' = m /\
    Z.of_nat (length (fs_defrag_data s')) = DPI_MAX_PKT_LEN /\
    take (length data) buf = data /\ clips (tc_frags t) ≡ₚ map clip_of (p :: got).
Proof.
  intros (Ht & Hm & Hlen) Hall Hd Hn Hg Hdis Hcov. pose proof Hall as [Hp Hgot]%Forall_cons. unfold dpi_ip_defrag.
  rewrite (fo_key _ _ _ Hp). pose proof (ipfrag_hold_spec p got _ Hp Hgot Hd Ht Hn) as Ht'.
  set (t := ipfrag_hold _ p) in *. rewrite Forall_forall in Hall. pose proof (frag_bounds p Hp) as Hb.
  assert (tc_first t = true) as Ef.
  { rewrite (hf_first _ _ Ht'). apply existsb_exists. destruct (Hcov 0) as (q & Hq & Hq0); [lia|].
    exists q. pose proof (frag_seq_nonneg q). split; [by apply list_elem_of_In|]. apply Z.eqb_eq. lia. }
  assert (tc_last t = true) as El.
  { rewrite (hf_last _ _ Ht'). apply existsb_exists. destruct (Hcov (N - 1)) as (q & Hq & Hq0); [lia|].
    exists q. pose proof (frag_bounds q (Hall q Hq)). split; [by apply list_elem_of_In|]. apply Z.eqb_eq. lia. }
  rewrite Ef, El. cbn [andb]. unfold ipfrag_construct. cbn [fs_map fs_defrag_data].
  pose proof (fo_hdr _ _ _ Hp). pose proof (fo_fits _ _ _ Hp).
  destruct (construct_complete (p :: got) t (drop (Z.to_nat (fp_l4 p)) (fs_defrag_data s))) as (buf & -> & Hbl & Hdata);
    try done; [by apply Forall_forall|cbn; lia|rewrite length_drop; unfold N; lia|].
  cbn [mbind outcome_bind]. exists t, buf. eexists. split; [done|]. cbn [fs_map fs_defrag_data].
  rewrite (fo_key _ _ _ Hp), delete_insert_eq. split_and!; [done| |done|apply Ht'].
  rewrite length_app, Hbl, length_drop, length_take. pose proof (fo_captured _ _ _ Hp). pose proof (fo_len _ _ _ Hp).
  unfold frag_size in *. lia.
Qed.
Lemma cut_split l1 q l2 : cut key data (l1 ++ q :: l2) -> Forall (disjoint_frags q) (l1 ++ l2).
Proof.
  intros [_ Hd _ _]. apply Forall_app. split; apply Forall_forall; intros r [i Hi]%list_elem_of_lookup.
  - apply (Hd (length l1) i); [by apply list_lookup_middle|by apply lookup_app_l_Some|].
    apply lookup_lt_Some in Hi. lia.
  - apply (Hd (length l1) (length l1 + S i)%nat); [by apply list_lookup_middle| |lia].
    by rewrite lookup_app_r, Nat.add_comm, Nat.add_sub by lia.
Qed.

(** There are no more fragments than bytes. *)
Lemma cut_short frags : cut key data frags -> Z.of_nat (length frags) <= N.
Proof.
  intros Hc. rewrite <-(length_map (fun p => Z.to_nat (frag_seq p)) frags).
  assert (map (fun p => Z.to_nat (frag_seq p)) frags ⊆+ seq 0 (length data)) as Hsub.
  2: { apply submseteq_length in Hsub. rewrite length_seq in Hsub. unfold N. lia. }
  destruct Hc as [Hall Hd _ _]. rewrite Forall_forall in Hall. apply NoDup_submseteq.
  - apply NoDup_alt. intros i j x Hi Hj. rewrite list_lookup_fmap in Hi, Hj.
    destruct (frags !! i) as [p|] eqn:Ep, (frags !! j) as [q|] eqn:Eq; try done. cbn in Hi, Hj. simplify_eq.
    destruct (decide (i = j)) as [|Hij]; [done|]. exfalso.
    pose proof (frag_bounds p (Hall p (list_elem_of_lookup_2 _ _ _ Ep))).
    pose proof (frag_bounds q (Hall q (list_elem_of_lookup_2 _ _ _ Eq))).
    destruct (Hd i j p q Ep Eq Hij); lia.
  - intros x (p & -> & Hp)%list_elem_of_fmap. pose proof (frag_bounds p (Hall p Hp)). apply elem_of_seq. unfold N in *. lia.
Qed.

(** All the fragments but the last one. *)
Lemma defrags_wait m last todo got s :
  arrived m got s -> cut key data (rev got ++ todo ++ [last]) ->
  exists out s', defrags todo s = Done (out, s') /\ map snd out = todo /\ Forall (fun r => r.1 <> 0) out /\
    arrived m (rev todo ++ got) s'.
Proof.
  revert got s. induction todo as [|p todo IH]; intros got s Harr Hc; cbn [defrags].
  { by exists [], s. }
  pose proof (cut_short _ Hc) as Hn. pose proof (ct_frags _ _ _ Hc) as Hall.
  pose proof Hall as (Hgot & ((Hp & _)%Forall_cons & Hl)%Forall_app)%Forall_app.
  rewrite Forall_singleton in Hl. rewrite !length_app, length_rev in Hn. cbn [length] in Hn.
  pose proof (frag_bounds last Hl) as Hb.
  pose proof (cut_split (rev got) p (todo ++ [last]) Hc) as [Hdp _]%Forall_app.
  pose proof Hc as Hdl. rewrite !app_assoc in Hdl. apply cut_split in Hdl. rewrite app_nil_r in Hdl.
  destruct (defrag_waits m got s p (frag_seq last)) as (ret & s1 & -> & Hret & Harr1); try done.
  - constructor; [done|]. by apply Forall_rev in Hgot; rewrite rev_involutive in Hgot.
  - by apply Forall_rev in Hdp; rewrite rev_involutive in Hdp.
  - unfold HALF, DPI_MAX_PKT_LEN in *. lia.
  - lia.
  - intros q Hq. rewrite Forall_forall in Hdl. pose proof (Hdl q) as Hq'.
    destruct Hq'; [|lia..]. rewrite !elem_of_app, elem_of_cons, list_elem_of_In, <-in_rev, <-list_elem_of_In.
    apply elem_of_cons in Hq as [->|Hq]; set_solver.
  - cbn [mbind outcome_bind]. destruct (IH (p :: got) s1) as (out & s2 & -> & Hout & Hne & Harr2).
    { done. } { cbn [rev]. by rewrite <-app_assoc. }
    cbn [mbind outcome_bind]. exists ((ret, p) :: out), s2. split_and!; [done|cbn; by rewrite Hout|by constructor|].
    cbn [rev]. by rewrite <-app_assoc.
Qed.
End datagram.

Lemma defrags_app l1 l2 s :
  defrags (l1 ++ l2) s = ('(o1, s) ← defrags l1 s; '(o2, s) ← defrags l2 s; Done (o1 ++ o2, s)).
Proof.
  revert s. induction l1 as [|p l1 IH]; intros s; cbn [app defrags mbind outcome_bind].
  { by destruct (defrags l2 s) as [[]|]. }
  destruct (dpi_ip_defrag p s) as [[[ret p'] s1]|]; cbn [mbind outcome_bind]; [|done]. rewrite IH.
  destruct (defrags l1 s1) as [[o1 s2]|]; cbn [mbind outcome_bind]; [|done].
  by destruct (defrags l2 s2) as [[]|].
Qed.

(** The fragments that are sent are the packets that came. *)
Lemma dpi_frag_send_spec t frags :
  clips (tc_frags t) ≡ₚ map clip_of frags ->
  dpi_frag_send t ≡ₚ map (fun q => take (Z.to_nat (fp_len q)) (fp_pkt q)) frags.
Proof.
  intros Hcl. unfold dpi_frag_send, asm_foreach, tree_traverse. fold (clips (tc_frags t)).
  assert (forall l acc, fold_left send_frag l acc =
    acc ++ map (fun c => take (Z.to_nat (cl_len c + cl_skip c)) (cl_ptr c)) l) as ->.
  { induction l as [|c l IH]; intros acc; cbn [fold_left map]; [by rewrite app_nil_r|].
    rewrite IH. unfold send_frag. by rewrite <-app_assoc. }
  rewrite Hcl, map_map. cbn [app]. apply reflexive_eq, map_ext. intros q. cbn [clip_of cl_len cl_skip cl_ptr].
  unfold frag_size. do 2 f_equal. lia.
Qed.

Lemma cut_pairs key data frags q r :
  cut key data frags -> q ∈ frags -> r ∈ frags -> clip_of q = clip_of r \/ disjoint_frags q r.
Proof.
  intros Hc [i Hi]%list_elem_of_lookup [j Hj]%list_elem_of_lookup. destruct (decide (i = j)) as [->|Hij].
  - left. congruence.
  - right. by apply (ct_disjoint _ _ _ Hc i j).
Qed.

(** C17: Reassembly.  A datagram is cut into two or more fragments that do not
    overlap and cover it, no fragment of it is held, and the datagram with
    its headers is shorter than the buffer.  Then, in whatever order the
    fragments arrive, none but the last one completes the datagram, and the
    last one does: the packet has the headers of the last fragment, the
    payload of the datagram and its length, it is no fragment any more, the
    datagram is forgotten, the others stay as they were, and what is sent in
    its place are the packets that came, each once. *)
Theorem datagram_reassembled key data frags p s :
  cut key data (frags ++ [p]) -> fs_map s !! key = None ->
  Z.of_nat (length (fs_defrag_data s)) = DPI_MAX_PKT_LEN ->
  exists out p' t s', defrags (frags ++ [p]) s = Done (out ++ [(0, p')], s') /\
    map snd out = frags /\ Forall (fun r => r.1 <> 0) out /\
    fs_map s' = fs_map s /\ Z.of_nat (length (fs_defrag_data s')) = DPI_MAX_PKT_LEN /\
    take (Z.to_nat (fp_l4 p)) (fp_pkt p') = take (Z.to_nat (fp_l4 p)) (fp_pkt p) /\
    take (length data) (drop (Z.to_nat (fp_l4 p)) (fp_pkt p')) = data /\
    fp_len p' = fp_l4 p + Z.of_nat (length data) /\
    ih_frag_off (fp_iph p') = 0 /\ ih_tot_len (fp_iph p') = fp_l4 p - fp_l3 p + Z.of_nat (length data) /\
    fp_frag_trac p' = Some t /\
    dpi_frag_send t ≡ₚ map (fun q => take (Z.to_nat (fp_len q)) (fp_pkt q)) (frags ++ [p]).
Proof.
  intros Hc Hnone Hlen. rewrite defrags_app. pose proof (ct_frags _ _ _ Hc) as [Hall Hp]%Forall_app.
  rewrite Forall_singleton in Hp.
  destruct (defrags_wait key data (fs_map s) p frags [] s) as (out & s1 & -> & Hout & Hne & Harr).
  { split_and!; [rewrite Hnone; apply held_none|by apply delete_id|done]. }
  { done. }
  cbn [mbind outcome_bind defrags]. rewrite app_nil_r in Harr.
  assert (p :: rev frags ≡ₚ frags ++ [p]) as Hperm by (rewrite <-Permutation_cons_append; by rewrite <-Permutation_rev).
  pose proof (cut_short key data _ Hc) as Hn. rewrite length_app in Hn. cbn [length] in Hn.
  pose proof (ct_several _ _ _ Hc) as Hsev. rewrite length_app in Hsev. cbn [length] in Hsev.
  pose proof (frag_bounds key data p Hp) as Hb. pose proof (cut_split key data frags p [] Hc) as Hd. rewrite app_nil_r in Hd.
  destruct (defrag_completes key data (fs_map s) (rev frags) s1 p) as (t & buf & s2 & -> & Hm & Hlen2 & Hdata & Hcl);
    try done.
  { rewrite Hperm. apply (ct_frags _ _ _ Hc). }
  { by apply Forall_rev. }
  { rewrite length_rev. unfold HALF, DPI_MAX_PKT_LEN in *. lia. }
  { rewrite length_rev. lia. }
  { intros q r. rewrite Hperm. by apply (cut_pairs key data). }
  { intros pos Hpos. destruct (ct_covers _ _ _ Hc pos Hpos) as (q & Hq & Hin). exists q. by rewrite Hperm. }
  cbn [mbind outcome_bind]. exists out, (assembled_pkt t p buf (Z.of_nat (length data))), t, s2.
  destruct Hp as [_ Hh Hf Hcap Hl _ _ _]. unfold frag_size, DPI_MAX_PKT_LEN in *.
  assert (length (take (Z.to_nat (fp_l4 p)) (fp_pkt p)) = Z.to_nat (fp_l4 p)) as Hhl by (rewrite length_take; lia).
  cbn [assembled_pkt fp_pkt fp_len fp_iph ih_frag_off ih_tot_len fp_frag_trac].
  rewrite !wrap_small by (unfold in_width; lia). split_and!; try done.
  - rewrite take_app_le by lia. by rewrite take_take, Nat.min_id.
  - by rewrite drop_app_length' by done.
  - apply dpi_frag_send_spec. by rewrite Hcl, Hperm.
Qed.

(** ** Examples *)

(** A payload of 24 bytes in three fragments of 8, after 34 bytes of headers. *)
Definition ex_data : list Z := map Z.of_nat (seq 100 24).
Definition ex_frag (i : nat) (more : bool) : frag_pkt :=
  FragPkt (IpHdr 167772161 167772162 7 (Z.of_nat i + if more then IP_MF else 0) 28) true
    (repeat 0 34 ++ map Z.of_nat (seq (100 + 8 * i) 8)) 42 14 34 None.
Definition ex_key : Z * Z * Z * bool := (167772161, 167772162, 7, true).
Definition ex_first : frag_pkt := ex_frag 0 true.
Definition ex_middle : frag_pkt := ex_frag 1 true.
Definition ex_last : frag_pkt := ex_frag 2 false.

Lemma ex_frag_of i more :
  (i = 0%nat \/ i = 1%nat) /\ more = true \/ i = 2%nat /\ more = false -> frag_of ex_key ex_data (ex_frag i more).
Proof.
  intros Hi.
  assert (forall k, (k < 8)%nat -> byte_at (fp_pkt (ex_frag i more)) (34 + Z.of_nat k) =
                                   byte_at ex_data (8 * Z.of_nat i + Z.of_nat k)) as Hk.
  { intros k Hk. destruct Hi as [[[-> | ->] ->]|[-> ->]]; do 8 (destruct k as [|k]; [reflexivity|]); lia. }
  assert (frag_seq (ex_frag i more) = 8 * Z.of_nat i /\ frag_end (ex_frag i more) = 8 * Z.of_nat i + 8) as [Es Ee]
    by by destruct Hi as [[[-> | ->] ->]|[-> ->]].
  constructor; try (by destruct Hi as [[[-> | ->] ->]|[-> ->]]).
  intros pos Hpos. rewrite Es in *. rewrite Ee in Hpos. change (fp_l4 _) with 34.
  replace (pos - 8 * Z.of_nat i) with (Z.of_nat (Z.to_nat (pos - 8 * Z.of_nat i))) by lia.
  rewrite Hk by lia. f_equal. lia.
Qed.

Lemma ex_cut : cut ex_key ex_data [ex_last; ex_first; ex_middle].
Proof.
  constructor.
  - repeat constructor; apply ex_frag_of; auto.
  - intros i j p q Hi Hj Hij.
    do 3 (destruct i as [|i]; [injection Hi as <-; do 3 (destruct j as [|j]; [injection Hj as <-; first [done|by left|by right]|]); done|]).
    done.
  - intros pos Hpos. change (Z.of_nat (length ex_data)) with 24 in Hpos.
    destruct (decide (pos < 8)); [exists ex_first; split; [set_solver|]; change (0 <= pos < 8); lia|].
    destruct (decide (pos < 16)); [exists ex_middle; split; [set_solver|]; change (8 <= pos < 16); lia|].
    exists ex_last; split; [set_solver|]; change (16 <= pos < 24); lia.
  - cbn. lia.
Qed.

Lemma datagram_reassembled_witness :
  cut ex_key ex_data ([ex_last; ex_first] ++ [ex_middle]) /\
  exists s out p' s', defrags ([ex_last; ex_first] ++ [ex_middle]) s = Done (out ++ [(0, p')], s') /\
    take 24 (drop 34 (fp_pkt p')) = ex_data /\ fp_len p' = 58.
Proof.
  split; [apply ex_cut|]. set (s := FragState ∅ (repeat 0 (Z.to_nat 65536))).
  destruct (datagram_reassembled ex_key ex_data [ex_last; ex_first] ex_middle s) as
    (out & p' & t & s' & Hrun & _ & _ & _ & _ & _ & Hdata & Hlen & _).
  - apply ex_cut.
  - reflexivity.
  - unfold s. cbn [fs_defrag_data]. rewrite repeat_length. rewrite Z2Nat.id by done. reflexivity.
  - exists s, out, p', s'. split_and!; [exact Hrun|exact Hdata|exact Hlen].
Defined.

(** A fragment that leaves a hole.  The first and the last fragment of a
    datagram have arrived and the middle one has not.  The function that
    assembles has the type [bool], so its -1 is a 1 for [dpi_ip_defrag], and
    the test [< 0] of [dpi_parse_ipv4] lets the last fragment go on, alone,
    as if it were a datagram: its payload is parsed as a transport header,
    where without the first fragment it is held back. *)
Theorem incomplete_fragment_passes :
  let s := FragState ∅ (repeat 0 128) in
  (exists s', parse_fragment ex_last s = Done (None, s')) /\
  exists s1 s2, parse_fragment ex_first s = Done (None, s1) /\ parse_fragment ex_last s1 = Done (Some ex_last, s2) /\
    ih_frag_off (fp_iph ex_last) = 2.
Proof.
  cbv zeta. split; [eexists; vm_compute; reflexivity|].
  eexists _, _. split; [vm_compute; reflexivity|]. split; vm_compute; reflexivity.
Qed.
