(* ===== verification/NvDPWire.v ===== *)
(** * Policies on their way from the agent to the data plane

    The agent cuts the rules of a workload into JSON messages
    ([agent/dp/ctrl.go], modelled in [NvDPCtrl]); the data plane reads them
    ([dp_ctrl_handler] and [dp_ctrl_cfg_policy] of [dp/ctrl.c], modelled here)
    and fills the tables of its endpoints ([NvDPTable], [NvDPCfg]).  The main
    theorem goes from one end to the other: once the agent has sent a policy,
    the data plane gives each packet of the workload the verdict of the first
    rule of the policy that covers it.

    The parser of the JSON library, [loads], and the handlers of the other
    messages, [other], are parameters; the library's access functions are
    those its documentation describes.  Of the C library the file has
    [inet_addr] and [ether_aton_r].  Addresses are numbers in host order. *)

From Stdlib Require Import ZArith Lia Ascii.
From S2P Require Import Prelude GoLib GoNet GoText GoJson NvBitmap NvFqdn NvPolicyTypes NvDPCtrl NvDPTable NvDPEquiv NvDPCfg.
Local Open Scope Z_scope.

(** ** [inet_addr] *)

Definition INADDR_NONE : Z := 4294967295.

(** The value of a digit in a base up to 16. *)
Definition digit_in (base : Z) (c : ascii) : option Z :=
  let n := byte_val c in
  let d := if (48 <=? n) && (n <=? 57) then n - 48
           else if (97 <=? n) && (n <=? 102) then n - 87
           else if (65 <=? n) && (n <=? 70) then n - 55 else 16 in
  if d <? base then Some d else None.

Fixpoint scan_digits (base : Z) (s : string) (acc : Z) : Z * string :=
  match s with
  | "" => (acc, "")
  | String c s' =>
      match digit_in base c with
      | Some d => scan_digits base s' (acc * base + d)
      | None => (acc, s)
      end
  end.

(** [strtoul(s, &end, 0)] of a text that starts with a decimal digit: a
    prefix 0x with a digit behind it is hexadecimal, another 0 octal. *)
Definition strtoul0 (s : string) : Z * string :=
  match s with
  | String "0" (String x s2) =>
      if (bool_decide (x = "x"%char) || bool_decide (x = "X"%char))
         && match s2 with String c _ => bool_decide (is_Some (digit_in 16 c)) | "" => false end
      then scan_digits 16 s2 0 else scan_digits 8 s 0
  | _ => scan_digits 10 s 0
  end.

Definition is_space (c : ascii) : bool := let n := byte_val c in (n =? 32) || ((9 <=? n) && (n <=? 13)).

(** The largest last part after some bytes. *)
Definition inet_max (bytes : list Z) : Z := 2 ^ (32 - 8 * Z.of_nat (length bytes)) - 1.

Fixpoint inet_word (shift : Z) (bytes : list Z) : Z :=
  match bytes with [] => 0 | b :: bytes => Z.shiftl b shift + inet_word (shift - 8) bytes end.

(** The parts of the address; [dots] more may be separated. *)
Fixpoint inet_parts (dots : nat) (bytes : list Z) (s : string) : option Z :=
  match s with
  | "" => None
  | String c _ =>
      if negb (bool_decide (is_Some (digit_in 10 c))) then None
      else
        let '(val, rest) := strtoul0 s in
        if INADDR_NONE <? val then None
        else
          match rest with
          | String "." rest =>
              match dots with
              | O => None
              | S dots => if 255 <? val then None else inet_parts dots (bytes ++ [val]) rest
              end
          | _ =>
              if match rest with "" => true | String c _ => is_space c end
              then if inet_max bytes <? val then None else Some (inet_word 24 bytes + val)
              else None
          end
  end.

Definition inet_addr (s : string) : Z := default INADDR_NONE (inet_parts 3 [] s).

(** ** [ether_aton_r] *)

(** The bytes read before the end or the first error. *)
Fixpoint aton_bytes (cnt : nat) (s : string) : list Z :=
  match cnt with
  | O => []
  | S more =>
      match s with
      | "" => []
      | String c s =>
          match digit_in 16 c with
          | None => []
          | Some d =>
              let at_end := match s with
                            | "" => (more =? 0)%nat
                            | String x _ => if (more =? 0)%nat then is_space x else bool_decide (x = ":"%char)
                            end in
              if at_end then d :: aton_bytes more (match s with "" => "" | String _ s => s end)
              else
                match s with
                | "" => []
                | String c2 s =>
                    match digit_in 16 c2 with
                    | None => []
                    | Some d2 =>
                        if (more =? 0)%nat then [Z.shiftl d 4 + d2]
                        else
                          match s with
                          | String ":" s => (Z.shiftl d 4 + d2) :: aton_bytes more s
                          | _ => []
                          end
                    end
                end
          end
      end
  end.

(** Into an address that is zero. *)
Definition ether_aton_r (s : string) : list Z := take 6 (aton_bytes 6 s ++ repeat 0 6).

(** ** The JSON library *)

Definition json_object_get (v : option json) (key : string) : option json :=
  match v with
  | Some (JObj l) => snd <$> find (fun e => String.eqb e.1 key) l
  | _ => None
  end.

Definition json_integer_value (v : option json) : Z := match v with Some (JInt n) => n | _ => 0 end.
Definition json_boolean_value (v : option json) : bool := match v with Some (JBool b) => b | _ => false end.
Definition json_array (v : option json) : list json := match v with Some (JArr l) => l | _ => [] end.

(** A null pointer when the value is no string; the callers read from it. *)
Definition json_string_value (v : option json) : outcome string :=
  match v with Some (JStr s) => Done s | _ => invalid_access end.

(** The conversion to [int]. *)
Definition to_int (n : Z) : Z := let v := wrap 32 n in if v <? 2147483648 then v else v - 4294967296.

(** ** [dp_ctrl_cfg_policy] *)

Section wire.
Context (pick : list dpi_policy_desc_t -> option dpi_policy_desc_t) (env : dp_env).

Fixpoint mapO {A B} (f : A -> outcome B) (l : list A) : outcome (list B) :=
  match l with [] => Done [] | x :: l => y ← f x; ys ← mapO f l; Done (y :: ys) end.

Definition app_rule_of (v : json) : dpi_policy_app_rule_t :=
  AppRule (wrap 32 (json_integer_value (json_object_get (Some v) "rid")))
    (wrap 32 (json_integer_value (json_object_get (Some v) "app")))
    (wrap 8 (json_integer_value (json_object_get (Some v) "action"))).

(** An address that may be missing. *)
Definition opt_addr (v : option json) (dflt : Z) : outcome Z :=
  match v with Some _ => s ← json_string_value v; Done (inet_addr s) | None => Done dflt end.

Definition rule_of (v : json) : outcome dpi_policy_rule_t :=
  let get := json_object_get (Some v) in
  sip ← json_string_value (get "sip");
  dip ← json_string_value (get "dip");
  sip_r ← opt_addr (get "sipr") (inet_addr sip);
  dip_r ← opt_addr (get "dipr") (inet_addr dip);
  fqdn ← match get "fqdn" with Some f => s ← json_string_value (Some f); Done (strlcpy s MAX_FQDN_LEN) | None => Done "" end;
  Done (PolicyRule (wrap 32 (json_integer_value (get "id"))) (inet_addr sip) sip_r (inet_addr dip) dip_r
          (wrap 16 (json_integer_value (get "port"))) (wrap 16 (json_integer_value (get "portr")))
          (wrap 16 (json_integer_value (get "proto"))) (wrap 8 (json_integer_value (get "action")))
          (json_boolean_value (get "ingress")) (json_boolean_value (get "vhost")) fqdn
          (app_rule_of <$> json_array (get "apps"))).

Definition dp_ctrl_cfg_policy (msg : json) (s : policy_state) : outcome (Z * policy_state) :=
  let get := json_object_get (Some msg) in
  let cmd := to_int (json_integer_value (get "cmd")) in
  let flag := to_int (json_integer_value (get "flag")) in
  let def_action := to_int (json_integer_value (get "defact")) in
  let apply_dir := to_int (json_integer_value (get "dir")) in
  match json_array (get "mac") with
  | [] => Done (-1, s)
  | macs =>
      mac_list ← mapO (fun v => mac ← json_string_value (Some v); Done (ether_aton_r mac)) macs;
      rule_list ← mapO rule_of (json_array (get "rules"));
      '(_, s) ← dpi_policy_cfg pick env true cmd (Policy mac_list def_action apply_dir rule_list) flag s;
      Done (0, s)
  end.

(** ** [dp_ctrl_handler] *)

Definition BUF_SIZE : Z := 8192.

Context (loads : string -> option json) (other : string -> json -> policy_state -> outcome (Z * policy_state)).

(** A datagram [msg] that was received. *)
Definition dp_ctrl_handler (msg : string) (s : policy_state) : outcome (Z * policy_state) :=
  match loads (String.substring 0 (Z.to_nat (BUF_SIZE - 1)) msg) with
  | None => Done (-1, s)
  | Some root =>
      foldM (fun '(_, s) '(key, v) =>
               if bool_decide (key = "ctrl_cfg_policy") then dp_ctrl_cfg_policy v s else other key v s)
        (0, s) (match root with JObj l => l | _ => [] end)
  end.

(** The messages that the agent has sent, one after the other. *)
Definition receive (s : policy_state) (msgs : list string) : outcome policy_state :=
  foldM (fun s m => '(_, s) ← dp_ctrl_handler m s; Done s) s msgs.
End wire.

(** ** Addresses *)

(** The number of an IPv4 address. *)
Definition ip4 (ip : IP) : Z := match To4 ip with Some p4 => inet_word 24 p4 | None => INADDR_NONE end.

(** What [inet_addr] does with the decimal of a byte. *)
Definition inet_octet (n : Z) : Prop :=
  (forall rest, strtoul0 (fmt_int n +:+ String "." rest) = (n, String "." rest)) /\
  strtoul0 (fmt_int n) = (n, "") /\
  exists c s, fmt_int n = String c s /\ is_Some (digit_in 10 c).

Lemma inet_octets : Forall inet_octet (Z.of_nat <$> seq 0 256).
Proof.
  cbn [seq fmap list_fmap].
  repeat (constructor; [split; [intros rest; reflexivity|split; [reflexivity|do 2 eexists; split; [reflexivity|by eexists]]]|]).
  constructor.
Qed.

Lemma inet_octet_byte n : in_width 8 n -> inet_octet n.
Proof.
  intros [H0 H1]. pose proof (proj1 (Forall_forall _ _) inet_octets) as Hall. apply Hall.
  apply list_elem_of_fmap. exists (Z.to_nat n). split; [lia|]. apply elem_of_seq. lia.
Qed.

Lemma inet_parts_dot dots bytes n rest :
  in_width 8 n -> inet_parts (S dots) bytes (fmt_int n +:+ String "." rest) = inet_parts dots (bytes ++ [n]) rest.
Proof.
  intros Hn. destruct (inet_octet_byte n Hn) as (Hs & _ & c & s & Hc & Hd). specialize (Hs rest).
  rewrite Hc in *. change (String c s +:+ String "." rest) with (String c (s +:+ String "." rest)) in *.
  unfold inet_parts at 1; fold inet_parts. rewrite bool_decide_eq_true_2 by done. cbn [negb]. rewrite Hs.
  unfold in_width in Hn. rewrite (proj2 (Z.ltb_ge INADDR_NONE n)) by (unfold INADDR_NONE; lia).
  by rewrite (proj2 (Z.ltb_ge 255 n)) by lia.
Qed.

Lemma inet_parts_last a b c n :
  in_width 8 n -> inet_parts 0 [a; b; c] (fmt_int n) = Some (inet_word 24 [a; b; c] + n).
Proof.
  intros Hn. destruct (inet_octet_byte n Hn) as (_ & Hs & x & s & Hc & Hd). rewrite Hc in *.
  unfold inet_parts. rewrite bool_decide_eq_true_2 by done. cbn [negb]. rewrite Hs.
  unfold in_width in Hn. rewrite (proj2 (Z.ltb_ge INADDR_NONE n)) by (unfold INADDR_NONE; lia).
  change (inet_max [a; b; c]) with 255. by rewrite (proj2 (Z.ltb_ge 255 n)) by lia.
Qed.

(** The text of an IPv4 address reads back. *)
Lemma inet_addr_IP_String ip p4 : ip_wf ip -> To4 ip = Some p4 -> inet_addr (IP_String ip) = ip4 ip.
Proof.
  intros Hw Hp. destruct (To4_wf ip p4 Hw Hp) as [Hw4 Hl]. unfold ip4. rewrite Hp.
  assert (IP_String ip = string4 p4) as ->.
  { unfold IP_String. rewrite Hp. unfold To4 in Hp. repeat case_decide; try done; lia. }
  destruct p4 as [|a [|b [|c [|d [|]]]]]; try done. rewrite string4_app.
  unfold ip_wf in Hw4. rewrite !Forall_cons in Hw4. destruct Hw4 as (Ha & Hb & Hc & Hd & _).
  unfold inet_addr. rewrite !inet_parts_dot by done. cbn [app]. rewrite inet_parts_last by done. cbn [default inet_word].
  change (24 - 8 - 8 - 8) with 0. rewrite Z.shiftl_0_r. unfold id. lia.
Qed.

(** *** Hardware addresses *)

Definition aton_octet (n : Z) : Prop :=
  (forall more rest, aton_bytes (S (S more)) (mac_byte n +:+ ":" +:+ rest) = n :: aton_bytes (S more) rest) /\
  aton_bytes 1 (mac_byte n) = [n].

Lemma aton_octets : Forall aton_octet (Z.of_nat <$> seq 0 256).
Proof.
  cbn [seq fmap list_fmap]. repeat (constructor; [split; [intros more rest; reflexivity|reflexivity]|]). constructor.
Qed.

Lemma aton_octet_byte n : in_width 8 n -> aton_octet n.
Proof.
  intros [H0 H1]. pose proof (proj1 (Forall_forall _ _) aton_octets) as Hall. apply Hall.
  apply list_elem_of_fmap. exists (Z.to_nat n). split; [lia|]. apply elem_of_seq. lia.
Qed.

Definition mac_wf (mac : list Z) : Prop := length mac = 6%nat /\ Forall (in_width 8) mac.

(** The text of a hardware address reads back. *)
Lemma ether_aton_String mac : mac_wf mac -> ether_aton_r (HardwareAddr_String mac) = mac.
Proof.
  intros [Hl Hw]. assert (aton_bytes 6 (HardwareAddr_String mac) = mac) as E.
  { destruct mac as [|a [|b [|c [|d [|e [|f [|]]]]]]]; try done. rewrite !Forall_cons in Hw.
    destruct Hw as (Ha & Hb & Hc & Hd & He & Hf & _). cbn [HardwareAddr_String].
    rewrite (proj1 (aton_octet_byte a Ha)), (proj1 (aton_octet_byte b Hb)), (proj1 (aton_octet_byte c Hc)),
      (proj1 (aton_octet_byte d Hd)), (proj1 (aton_octet_byte e He)), (proj2 (aton_octet_byte f Hf)). done. }
  unfold ether_aton_r. rewrite E. rewrite take_app_le by lia. apply take_ge. lia.
Qed.

(** ** Messages *)

(** The rule as the data plane has it. *)
Definition dp_rule (r : DPPolicyIPRule) : dpi_policy_rule_t :=
  PolicyRule (ir_ID r) (ip4 (ir_SrcIP r)) (match ir_SrcIPR r with [] => ip4 (ir_SrcIP r) | ip => ip4 ip end)
    (ip4 (ir_DstIP r)) (match ir_DstIPR r with [] => ip4 (ir_DstIP r) | ip => ip4 ip end)
    (ir_Port r) (ir_PortR r) (ir_IPProto r) (ir_Action r) (ir_Ingress r) (ir_Vhost r) (ir_Fqdn r)
    ((fun a => AppRule (da_RuleID a) (da_App a) (da_Action a)) <$> ir_Apps r).

(** A Go [net.IP] that holds an IPv4 address. *)
Definition ip4_wf (ip : IP) : Prop := ip_wf ip /\ is_Some (To4 ip).

Definition app_wf (a : DPPolicyApp) : Prop :=
  in_width 32 (da_RuleID a) /\ in_width 32 (da_App a) /\ in_width 8 (da_Action a).

(** The fields have the widths of their types, the addresses are IPv4 ones and
    there is no domain name. *)
Record wire_rule (r : DPPolicyIPRule) : Prop := {
  wr_id : in_width 32 (ir_ID r);
  wr_src : ip4_wf (ir_SrcIP r);
  wr_dst : ip4_wf (ir_DstIP r);
  wr_srcr : ir_SrcIPR r = [] \/ ip4_wf (ir_SrcIPR r);
  wr_dstr : ir_DstIPR r = [] \/ ip4_wf (ir_DstIPR r);
  wr_port : in_width 16 (ir_Port r) /\ in_width 16 (ir_PortR r);
  wr_proto : in_width 8 (ir_IPProto r) /\ in_width 8 (ir_Action r);
  wr_fqdn : ir_Fqdn r = "";
  wr_apps : Forall app_wf (ir_Apps r)
}.

Lemma json_IP_v4 ip : ip4_wf ip -> json_IP ip = Some (JStr (IP_String ip)) /\ inet_addr (IP_String ip) = ip4 ip.
Proof.
  intros [Hw [p4 Hp]]. split; [|by eapply inet_addr_IP_String].
  assert (length ip = 4%nat \/ length ip = 16%nat) by (unfold To4 in Hp; repeat case_decide; try done; tauto).
  unfold json_IP. rewrite decide_False by lia. by rewrite decide_True.
Qed.

Lemma omit_IP_v4 k ip :
  ip = [] \/ ip4_wf ip ->
  omit_IP k ip = Some (match ip with [] => [] | _ => [(k, JStr (IP_String ip))] end).
Proof. intros [->|H]; [done|]. destruct ip; [done|]. unfold omit_IP. by rewrite (proj1 (json_IP_v4 _ H)). Qed.

Lemma app_rule_of_json a :
  app_wf a -> app_rule_of (DPPolicyApp_json a) = AppRule (da_RuleID a) (da_App a) (da_Action a).
Proof. intros (H1 & H2 & H3). unfold app_rule_of. cbn. by rewrite !wrap_small. Qed.

(** A rule reads back. *)
Lemma rule_of_json r :
  wire_rule r -> exists v, DPPolicyIPRule_json r = Some v /\ rule_of v = Done (dp_rule r).
Proof.
  intros [H1 H2 H3 H4 H5 [H6 H7] [H8 H9] H10 H11]. unfold DPPolicyIPRule_json.
  destruct (json_IP_v4 _ H2) as [-> Hsip], (json_IP_v4 _ H3) as [-> Hdip].
  rewrite (omit_IP_v4 _ _ H4), (omit_IP_v4 _ _ H5), H10. cbn [mbind option_bind].
  eexists. split; [done|]. rewrite bool_decide_eq_true_2 by done. cbn [omit_if].
  assert (app_rule_of <$> (DPPolicyApp_json <$> ir_Apps r) =
          (fun a => AppRule (da_RuleID a) (da_App a) (da_Action a)) <$> ir_Apps r) as Happs.
  { rewrite <-list_fmap_compose. apply list_fmap_ext. intros i a Ha. apply app_rule_of_json.
    rewrite Forall_forall in H11. by apply H11, list_elem_of_lookup_2 with i. }
  assert (forall sip sr dip dr apps,
    PolicyRule (wrap 32 (ir_ID r)) sip sr dip dr (wrap 16 (ir_Port r)) (wrap 16 (ir_PortR r)) (wrap 16 (ir_IPProto r))
      (wrap 8 (ir_Action r)) (ir_Ingress r) (ir_Vhost r) "" apps =
    PolicyRule (ir_ID r) sip sr dip dr (ir_Port r) (ir_PortR r) (ir_IPProto r) (ir_Action r) (ir_Ingress r)
      (ir_Vhost r) "" apps) as Hw.
  { intros. rewrite !wrap_small by (done || unfold in_width in *; lia). done. }
  assert (forall ip, ip <> [] -> ip = [] \/ ip4_wf ip -> inet_addr (IP_String ip) = ip4 ip) as Hopt
    by (intros ip Hne [?|H]; [done|]; apply (json_IP_v4 _ H)).
  unfold dp_rule, rule_of. rewrite H10, <-Happs, <-Hsip, <-Hdip, <-Hw.
  destruct (ir_SrcIPR r) as [|x sr], (ir_DstIPR r) as [|y dr]; rewrite <-?Hopt by done;
    destruct (ir_Vhost r), (ir_Apps r) as [|z apps]; reflexivity.
Qed.

Lemma rules_of_json rules :
  Forall wire_rule rules ->
  exists vs, mapM DPPolicyIPRule_json rules = Some vs /\ mapO rule_of vs = Done (dp_rule <$> rules).
Proof.
  induction 1 as [|r rules Hr _ (vs & Hvs & Hof)]; [by exists []|].
  destruct (rule_of_json r Hr) as (v & Hv & Hrv). exists (v :: vs). cbn [mapM mapO].
  rewrite Hv, Hvs, Hrv, Hof. done.
Qed.

(** The policy of a workload whose interfaces have the addresses [macs]. *)
Record wire_policy (policy : DPWorkloadIPPolicy) (macs : list (list Z)) : Prop := {
  wp_macs : dw_WorkloadMac policy = HardwareAddr_String <$> macs;
  wp_some : macs <> [];
  wp_wf : Forall mac_wf macs;
  wp_action : in_width 8 (dw_DefAction policy);
  wp_dir : in_width 31 (dw_ApplyDir policy);
  wp_rules : Forall wire_rule (dw_IPRules policy)
}.

Definition dp_policy (policy : DPWorkloadIPPolicy) (macs : list (list Z)) : dpi_policy_t :=
  Policy macs (dw_DefAction policy) (dw_ApplyDir policy) [].

Lemma to_int_small n : in_width 31 n -> to_int n = n.
Proof.
  intros [H1 H2]. unfold to_int. rewrite wrap_small by (unfold in_width; lia).
  change (2 ^ 31) with 2147483648 in H2. by rewrite (proj2 (Z.ltb_lt _ _)).
Qed.

Lemma macs_of_json macs :
  Forall mac_wf macs ->
  mapO (fun v => mac ← json_string_value (Some v); Done (ether_aton_r mac)) (JStr <$> (HardwareAddr_String <$> macs)) =
  Done macs.
Proof.
  induction 1 as [|mac macs Hm _ IH]; [done|]. rewrite !fmap_cons. cbn [mapO]. rewrite IH.
  cbn [json_string_value mbind outcome_bind]. by rewrite ether_aton_String.
Qed.

Lemma bind_pair_done {A} (x : outcome (Z * A)) : (x ≫= fun s => Done s) = x.
Proof. by destruct x. Qed.

Section wire_proofs.
Context (pick : list dpi_policy_desc_t -> option dpi_policy_desc_t) (env : dp_env).
Context (loads : string -> option json) (other : string -> json -> policy_state -> outcome (Z * policy_state)).
Context (policy : DPWorkloadIPPolicy) (macs : list (list Z)) (cmd : Z).
Context (Hpol : wire_policy policy macs) (Hcmd : in_width 31 cmd).

(** The data plane does with the text of a message what the message says. *)
Lemma handler_message flag rules s :
  in_width 31 flag -> Forall wire_rule rules ->
  msg_len (DPPolicyCfg_json policy cmd flag rules) <= maxMsgSize ->
  (forall v, DPPolicyCfg_json policy cmd flag rules = Some v -> loads (json_text v) = Some v) ->
  dp_ctrl_handler pick env loads other (Marshal (DPPolicyCfg_json policy cmd flag rules)) s =
  ('(_, s) ← dpi_policy_cfg pick env true cmd (with_rules (dp_policy policy macs) (dp_rule <$> rules)) flag s; Done (0, s)).
Proof.
  intros Hflag Hrules Hlen Hloads. destruct Hpol as [Hm Hne Hwf Ha Hd _].
  destruct (rules_of_json rules Hrules) as (vs & Hvs & Hof).
  assert (exists rs, json_slice_opt DPPolicyIPRule_json rules = Some rs /\ json_array (Some rs) = vs) as (rs & Hrs & Harr).
  { destruct rules; cbn [json_slice_opt]; [exists JNull; by injection Hvs as <-|]. rewrite Hvs. by eexists. }
  unfold DPPolicyCfg_json in *. rewrite Hrs in *. cbn [mbind option_bind] in *. specialize (Hloads _ eq_refl).
  cbn [Marshal] in *. unfold dp_ctrl_handler. unfold msg_len, maxMsgSize in Hlen. cbn [Marshal] in Hlen.
  rewrite substring_all by (unfold BUF_SIZE; lia). rewrite Hloads. cbn [foldM].
  rewrite bool_decide_eq_true_2 by done. rewrite bind_pair_done. unfold dp_ctrl_cfg_policy.
  set (msg := JObj _).
  change (json_object_get (Some msg) "cmd") with (Some (JInt cmd)).
  change (json_object_get (Some msg) "flag") with (Some (JInt flag)).
  change (json_object_get (Some msg) "defact") with (Some (JInt (dw_DefAction policy))).
  change (json_object_get (Some msg) "dir") with (Some (JInt (dw_ApplyDir policy))).
  change (json_object_get (Some msg) "mac") with (Some (json_slice JStr (dw_WorkloadMac policy))).
  change (json_object_get (Some msg) "rules") with (Some rs). rewrite Harr. cbn [json_integer_value].
  rewrite !to_int_small by (done || unfold in_width in *; lia).
  assert (json_array (Some (json_slice JStr (dw_WorkloadMac policy))) = JStr <$> (HardwareAddr_String <$> macs)) as ->
    by (rewrite Hm; by destruct macs).
  destruct macs as [|mac macs']; [done|]. pose proof (macs_of_json (mac :: macs') Hwf) as Hmac.
  rewrite !fmap_cons in *. rewrite Hmac, Hof. done.
Qed.
Definition part_rules (m : Z * list DPPolicyIPRule) : list dpi_policy_rule_t := dp_rule <$> m.2.

(** The texts that were sent, and the messages they stand for. *)
Definition sent_texts (sent : list (Z * list DPPolicyIPRule)) : list string :=
  (fun m => Marshal (DPPolicyCfg_json policy cmd m.1 m.2)) <$> sent.
Definition sent_msgs (sent : list (Z * list DPPolicyIPRule)) : list (dpi_policy_t * Z) :=
  (fun m => (with_rules (dp_policy policy macs) (part_rules m), m.1)) <$> sent.

(** The parser gives back each message that was sent. *)
Definition reads_back (sent : list (Z * list DPPolicyIPRule)) : Prop :=
  Forall (fun m => forall v, DPPolicyCfg_json policy cmd m.1 m.2 = Some v -> loads (json_text v) = Some v) sent.

Lemma receive_sent sent s :
  Forall (fun m => in_width 31 m.1 /\ Forall wire_rule m.2 /\
                   msg_len (DPPolicyCfg_json policy cmd m.1 m.2) <= maxMsgSize) sent ->
  reads_back sent ->
  receive pick env loads other s (sent_texts sent) = cfg_msgs pick env cmd s (sent_msgs sent).
Proof.
  intros Hall. revert s. induction Hall as [|[flag rules] sent (Hf & Hr & Hl) _ IH]; intros s Hb; [done|].
  apply Forall_cons in Hb as [Hv Hb]. unfold receive, cfg_msgs, sent_texts, sent_msgs in *.
  rewrite !fmap_cons. cbn [foldM fst snd]. rewrite (handler_message flag rules s Hf Hr Hl Hv).
  destruct (dpi_policy_cfg _ _ _ _ _ _ s) as [[ret s1]|]; cbn [mbind outcome_bind]; [by apply IH|done].
Qed.

(** The flags are those of the parts of a policy. *)
Lemma sent_parts start sent :
  (forall i f c, sent !! i = Some (f, c) ->
     f = Z.lor (if decide (i = 0%nat) then if start : bool then 1 else 0 else 0) (if decide (S i = length sent) then 2 else 0)) ->
  sent_msgs sent = policy_msgs start (dp_policy policy macs) (part_rules <$> sent).
Proof.
  revert start. induction sent as [|[flag rules] sent IH]; intros start Hfl; [done|].
  unfold sent_msgs in *. rewrite !fmap_cons. cbn [policy_msgs fst snd]. rewrite <-(IH false).
  - f_equal. f_equal. rewrite (Hfl 0%nat flag rules eq_refl). destruct sent; by destruct start.
  - intros i f c Hi. rewrite (Hfl (S i) f c Hi). cbn [length].
    rewrite decide_False by done. destruct (decide (i = 0%nat)); f_equal; repeat case_decide; done || lia.
Qed.

(** A policy that was sent in full: its messages fit, are those of its rules
    and carry the flags of the first and the last one. *)
Lemma policy_all_sent send sent :
  DPCtrlConfigPolicy send policy cmd = Some (Done (AllSent, sent)) ->
  Forall (fun m => msg_len (DPPolicyCfg_json policy cmd m.1 m.2) <= maxMsgSize) sent /\
  concat sent.*2 = dw_IPRules policy /\ sent <> [] /\ flags_ok (length sent) sent.
Proof.
  intros Hr. pose proof (send_chunks_spec (policy_size policy cmd) send (dw_IPRules policy) 40
    ltac:(lia)) as Hp. change (send_chunks _ _ _ _) with (DPCtrlConfigPolicy send policy cmd) in Hp.
  rewrite Hr in Hp. destruct Hp as (Hs & _ & Hres). split; [|done].
  eapply Forall_impl; [exact Hs|]. by intros [flag rules].
Qed.

Lemma sent_rules sent :
  concat sent.*2 = dw_IPRules policy ->
  concat (part_rules <$> sent) = dp_rule <$> dw_IPRules policy.
Proof. intros <-. induction sent as [|[f c] sent IH]; [done|]. rewrite !fmap_cons. cbn [concat snd]. by rewrite IH, fmap_app. Qed.

Lemma receive_policy send sent s :
  DPCtrlConfigPolicy send policy cmd = Some (Done (AllSent, sent)) -> reads_back sent ->
  exists parts, parts <> [] /\ concat parts = dp_rule <$> dw_IPRules policy /\
    receive pick env loads other s (sent_texts sent) = cfg_msgs pick env cmd s (policy_msgs true (dp_policy policy macs) parts).
Proof.
  intros Hsent Hback. destruct (policy_all_sent send sent Hsent) as (Hlen & Hcat & Hne & Hfl).
  exists (part_rules <$> sent). split_and!; [by destruct sent|by apply sent_rules|].
  rewrite <-sent_parts.
  - apply receive_sent; [|done]. apply Forall_forall. intros [flag rules] Hin. rewrite Forall_forall in Hlen.
    split_and!; [| |by apply (Hlen _ Hin)].
    + apply list_elem_of_lookup in Hin as [i Hi]. rewrite (Hfl i flag rules Hi). cbn [fst]. by repeat case_decide.
    + pose proof (wp_rules _ _ Hpol) as Hrules. rewrite <-Hcat in Hrules. rewrite Forall_forall in Hrules |- *.
      intros r Hr. apply Hrules, list_elem_of_In, in_concat. exists rules.
      split; apply list_elem_of_In; [|done]. apply list_elem_of_fmap. by exists (flag, rules).
  - intros i f c Hi. by rewrite (Hfl i f c Hi).
Qed.
End wire_proofs.

(** C2: From the agent to the verdict.  In any state that the data plane can
    reach, with its table of domain names, the agent sends the policy of a
    workload with a command other than DELETE, its function returns 0, and the
    parser of the data plane gives back each message.  The policy's rules have
    IPv4 addresses and no domain name, identifiers above 0 and applications in
    range, the workload's own single address (not 0) on its own side and, in a
    rule for single addresses, not on the other, and are fewer than the order
    of rules can count; the workload has MAC addresses,
    the fields have the widths of their types, a lookup in a hash table finds
    a node of the key if there is one, and the settings under which
    the messages arrive take the address 0 for an external one, or every
    address for an internal one.  Then the data plane takes all the messages
    without a fault, allocations succeeding, however the rules were cut, and
    every lookup for a packet between the workload and another address gives
    the verdict of the first of the agent's rules that covers it, with the new
    version: where the endpoint does not enforce the boundary of its
    namespace, the rules are consulted both under the settings of the messages
    and under those of the lookup, which may differ but agree on whether the
    peer is internal, and the application is in range.  An endpoint with
    another MAC address keeps its policy. *)
Theorem agent_policy_enforced pick env own loads other send policy macs cmd sent s fh :
  policy_reach pick s -> ps_fqdn s = Some fh ->
  pick_ok pick -> own 0 = false -> zero_ok env -> in_width 31 cmd -> cmd <> CFG_DELETE ->
  wire_policy policy macs -> Forall (fun r => rule_ok own (dp_rule r)) (dw_IPRules policy) ->
  Z.of_nat (length (dw_IPRules policy)) < ORDER_MAX ->
  DPCtrlConfigPolicy send policy cmd = Some (Done (AllSent, sent)) -> reads_back loads policy cmd sent ->
  exists s', receive pick env loads other s (sent_texts policy cmd sent) = Done s' /\ policy_wf s' /\
  forall mac ep, ps_eps s !! mac = Some ep ->
    if decide (mac ∈ macs) then
      exists a h, ps_eps s' !! mac = Some (Ep (Some a) (get_new_policy_ver (ps_policy_ver s))) /\
        ps_hdls s' !! a = Some h /\
        forall env' fh' d k desc pkt,
          in_width 32 (rk_sip k) -> in_width 32 (rk_dip k) -> _dpi_is_chk_nbe pkt = false ->
          enforced env fh (dw_DefAction policy) (dw_ApplyDir policy) own d k ->
          skips_rules env' fh' (dw_DefAction policy) (dw_ApplyDir policy) d k = false ->
          dpi_is_ip4_internal env' (peer_side d k) = dpi_is_ip4_internal env (peer_side d k) ->
          dpi_policy_lookup_by_key pick env' (Some fh') (Some h) (rk_sip k) (rk_dip k) (rk_dport k)
            (rk_proto k) (rk_app k) d desc pkt =
          Done (set_ver (get_new_policy_ver (ps_policy_ver s))
                 (add_flags (int_or_ext (dpi_is_ip4_internal env (peer_side d k)))
                   (reference_desc env d (external env d k) k (dw_DefAction policy)
                      (dp_rule <$> dw_IPRules policy))))
    else ps_eps s' !! mac = Some ep.
Proof.
  intros Hreach Hfh Hpick Hown Hzero Hcmd Hdel Hpol Hrules Hlen Hsent Hback.
  destruct (receive_policy pick env loads other policy macs cmd Hpol Hcmd send sent s Hsent Hback)
    as (parts & Hne & Hcat & ->).
  destruct (policy_messages_first_match pick env own cmd (dp_policy policy macs) s fh parts)
    as (s' & Hs' & Hwf & _ & Hd); try done; rewrite ?Hcat in *.
  - by rewrite length_fmap.
  - apply Forall_fmap. pose proof (wp_rules _ _ Hpol) as Hw. rewrite Forall_forall in Hrules, Hw |- *.
    intros r Hr. split; [apply (wr_fqdn _ (Hw r Hr))|by apply Hrules].
  - exists s'. by split_and!.
Qed.

(** ** Examples *)

Definition ex_go_rule (id : Z) (src srcr : IP) (port portr proto action : Z) : DPPolicyIPRule :=
  {| ir_ID := id; ir_SrcIP := src; ir_DstIP := [10; 0; 0; 5]; ir_SrcIPR := srcr; ir_DstIPR := [];
     ir_Port := port; ir_PortR := portr; ir_IPProto := proto; ir_Action := action; ir_Ingress := true;
     ir_Fqdn := ""; ir_Vhost := false; ir_Apps := [] |}.

(** The rules of [NvDPEquiv], as the agent has them. *)
Definition ex_agent : DPWorkloadIPPolicy :=
  {| dw_WlID := "wl"; dw_Mode := "Protect"; dw_DefAction := DP_POLICY_ACTION_DENY;
     dw_ApplyDir := DP_POLICY_APPLY_EGRESS; dw_WorkloadMac := [HardwareAddr_String ex_mac];
     dw_IPRules := [ex_go_rule 1 [8; 8; 0; 0] [8; 8; 255; 255] 0 65535 6 DP_POLICY_ACTION_DENY;
                    ex_go_rule 2 [10; 0; 0; 0] [10; 0; 0; 255] 0 65535 6 DP_POLICY_ACTION_DENY;
                    ex_go_rule 3 [8; 8; 8; 8] [] 80 80 0 DP_POLICY_ACTION_ALLOW;
                    ex_go_rule 4 [10; 0; 0; 9] [] 80 80 6 DP_POLICY_ACTION_ALLOW] |}.

Definition ex_sent : list (Z * list DPPolicyIPRule) := [(3, dw_IPRules ex_agent)].

(** A parser for the message of the example. *)
Definition ex_loads (text : string) : option json :=
  v ← DPPolicyCfg_json ex_agent CFG_ADD 3 (dw_IPRules ex_agent);
  if String.eqb text (json_text v) then Some v else None.

Lemma ip4_wf_bytes a b c d : in_width 8 a -> in_width 8 b -> in_width 8 c -> in_width 8 d -> ip4_wf [a; b; c; d].
Proof. intros. split; [|by eexists]. by repeat (apply Forall_cons; split; [done|]). Qed.

Lemma ex_agent_wire : wire_policy ex_agent [ex_mac].
Proof.
  constructor; [reflexivity|done|apply Forall_singleton; split; [done|by repeat (apply Forall_cons; split; [done|])]|done|done|].
  repeat (apply Forall_cons; split; [constructor; cbn; try done;
    first [by apply ip4_wf_bytes|by left|right; by apply ip4_wf_bytes]|]); constructor.
Qed.

Lemma agent_policy_enforced_witness :
  dp_rule <$> dw_IPRules ex_agent = ex_rules /\
  exists s' a h, receive head ex_env ex_loads (fun _ _ s => Done (0, s)) ex_state
      (sent_texts ex_agent CFG_ADD ex_sent) = Done s' /\
    ps_eps s' !! ex_mac = Some (Ep (Some a) 1) /\ ps_hdls s' !! a = Some h /\
    ex_lookup ex_env None ex_external h = Done (1, DP_POLICY_ACTION_DENY).
Proof.
  split; [reflexivity|].
  destruct (agent_policy_enforced head ex_env ex_own ex_loads (fun _ _ s => Done (0, s))
              (fun _ => true) ex_agent [ex_mac] CFG_ADD ex_sent ex_state dpi_fqdn_hdl_init)
    as (s' & Hs' & _ & Hm).
  - apply ex_state_reach.
  - reflexivity.
  - split; [|by intros []]. intros [|y l] x [= ->]. left.
  - reflexivity.
  - right. split; reflexivity.
  - done.
  - done.
  - apply ex_agent_wire.
  - repeat constructor; simpl; intros; reflexivity || done.
  - reflexivity.
  - vm_compute. reflexivity.
  - repeat constructor. intros v Hv. cbn [fst snd] in Hv. unfold ex_loads. rewrite Hv. cbn [mbind option_bind]. by rewrite String.eqb_refl.
  - destruct (Hm ex_mac (Ep None 0) eq_refl) as (a & h & Hep & Hh & Hl).
    exists s', a, h. split; [exact Hs'|]. split; [exact Hep|]. split; [exact Hh|]. unfold ex_lookup.
    rewrite (Hl ex_env dpi_fqdn_hdl_init true ex_external (PolicyDesc 0 0 0 0 0) None);
      [reflexivity|split; reflexivity || done..|reflexivity| |reflexivity|reflexivity].
    split; [split; reflexivity|]. split; [reflexivity|]. split; reflexivity || done.
Defined.
