(* ===== verification/NvCriteria.v ===== *)
(** * Group criteria

    share/criteria.go decides which workloads a user-defined group selects: a
    criterion compares one attribute of the workload (its image, its node, a
    label, ...) with a value, and the criteria of one attribute are combined
    before those of different attributes.  [EqualMatch], the comparison with
    the wildcards [?] and [*], also decides which namespaces a role with a
    wildcard covers ([NvAccess]).

    [regexp.Compile] is an argument, [Compile]: the syntax of the expressions
    a user may write is all of Go's.  What the code relies on for its own
    wildcards, the expressions made of characters, [.] and [.*] between [^]
    and [$], is the hypothesis [Compile_tokens]; [glob_compile] is a function
    that satisfies it. *)

From Stdlib Require Import ZArith Lia Ascii.
From S2P Require Import Prelude GoLib GoText.

(** ** The records of share/clus_apis.go, with the fields the code reads *)

Inductive TCfgType := CfgNone | Learned | UserCreated | GroundCfg | FederalCfg | SystemDefined.
#[export] Instance TCfgType_eq_dec : EqDecision TCfgType.
Proof. solve_decision. Defined.

Record CLUSCriteriaEntry := { crt_Key : string; crt_Value : string; crt_Op : string }.

(** A Go slice that the code compares with [nil] is an [option] of a list. *)
Record CLUSGroup := {
  grp_Name : string; grp_Criteria : list CLUSCriteriaEntry; grp_Domain : string;
  grp_CreaterDomains : option (list string); grp_Kind : string; grp_CfgType : TCfgType }.

Record CLUSWorkload := {
  wl_ID : string; wl_Name : string; wl_HostName : string; wl_Image : string;
  wl_Service : string; wl_Domain : string; wl_Labels : gmap string string }.

Record CLUSDomain := { dom_Name : string; dom_Labels : gmap string string }.

Definition CriteriaKeyImage := "image".
Definition CriteriaKeyHost := "node".
Definition CriteriaKeyWorkload := "container".
Definition CriteriaKeyService := "service".
Definition CriteriaKeyAddress := "address".
Definition CriteriaKeyDomain := "domain".
Definition CriteriaKeyNamespace := "namespace".
Definition CriteriaOpEqual := "=".
Definition CriteriaOpNotEqual := "!=".
Definition CriteriaOpContains := "contains".
Definition CriteriaOpPrefix := "prefix".
Definition CriteriaOpRegex := "regex".
Definition CriteriaOpNotRegex := "!regex".
Definition CriteriaValueAny := "any".

(** [strings.Replace(s, old, new, -1)] for an [old] of one byte. *)
Fixpoint ReplaceAll (s : string) (old : ascii) (new : string) : string :=
  match s with
  | EmptyString => ""
  | String c s' =>
      if bool_decide (c = old) then new +:+ ReplaceAll s' old new
      else String c (ReplaceAll s' old new)
  end.

(** ** Matching, for a regular expression engine *)
Section regexp.
Context (Compile : string -> option (string -> bool)).

(** [regexp.MatchString], whose error the code drops. *)
Definition MatchString (pattern s : string) : bool :=
  match Compile pattern with Some re => re s | None => false end.

Definition EqualMatch (match_ value : string) : bool :=
  if negb (has_byte "?"%char match_ || has_byte "*"%char match_)
  then bool_decide (match_ = value)
  else
    let re := ReplaceAll match_ "."%char "\." in
    let re := ReplaceAll re "?"%char "." in
    let re := ReplaceAll re "*"%char ".*" in
    let re := "^" +:+ re +:+ "$" in
    match Compile re with
    | None => bool_decide (match_ = value)
    | Some regex => regex value
    end.

(** The verdict of a criterion and whether it is a positive match. *)
Definition isCriterionMet (crt : CLUSCriteriaEntry) (value : string) : bool * bool :=
  if decide (crt_Op crt = CriteriaOpEqual) then
    if decide (crt_Value crt = CriteriaValueAny) then (true, true)
    else (EqualMatch (crt_Value crt) value, true)
  else if decide (crt_Op crt = CriteriaOpNotEqual) then
    (negb (EqualMatch (crt_Value crt) value), false)
  else if decide (crt_Op crt = CriteriaOpContains) then (Contains value (crt_Value crt), true)
  else if decide (crt_Op crt = CriteriaOpPrefix) then (HasPrefix value (crt_Value crt), true)
  else if decide (crt_Op crt = CriteriaOpRegex) then (MatchString (crt_Value crt) value, true)
  else if decide (crt_Op crt = CriteriaOpNotRegex) then
    (negb (MatchString (crt_Value crt) value), false)
  else (false, true).

(** The two maps of the selection loop: the verdict and the polarity of each
    kind of criterion seen so far. *)
Record selection := { rets : gmap string bool; poss : gmap string bool }.

Definition selection0 : selection := {| rets := ∅; poss := ∅ |}.

Definition select_step (key : string) (ret positive : bool) (s : selection) : selection :=
  match rets s !! key with
  | None => {| rets := <[key := ret]> (rets s); poss := <[key := positive]> (poss s) |}
  | Some v =>
      let p := default false (poss s !! key) in
      {| rets := <[key := if negb positive && negb p then v && ret else v || ret]> (rets s);
         poss := <[key := p || positive]> (poss s) |}
  end.

(** The final loop over [rets] returns false at the first false verdict. *)
Definition select_done (s : selection) : bool :=
  if bool_decide (rets s = ∅) then false
  else bool_decide (map_Forall (fun _ v => v = true) (rets s)).

(** The kind a criterion is combined under, its verdict and its polarity;
    [None] is the early [return false] of an address. *)
Definition criterion_result (workload : CLUSWorkload) (domain : option CLUSDomain)
    (crt : CLUSCriteriaEntry) : option (string * (bool * bool)) :=
  let key := crt_Key crt in
  if decide (key = CriteriaKeyImage) then Some (key, isCriterionMet crt (wl_Image workload))
  else if decide (key = CriteriaKeyHost) then Some (key, isCriterionMet crt (wl_HostName workload))
  else if decide (key = CriteriaKeyWorkload) then Some (key, isCriterionMet crt (wl_Name workload))
  else if decide (key = CriteriaKeyService) then Some (key, isCriterionMet crt (wl_Service workload))
  else if decide (key = CriteriaKeyDomain \/ key = CriteriaKeyNamespace) then
    Some (key, isCriterionMet crt (wl_Domain workload))
  else if decide (key = CriteriaKeyAddress) then None
  else if HasPrefix key "ns:" then
    match domain with
    | None => Some (key, (false, true))
    | Some d =>
        Some ("ns-label",
              match dom_Labels d !! string_drop 3 key with
              | Some v => isCriterionMet crt v
              | None => (false, true)
              end)
    end
  else
    Some ("pod-label",
          match wl_Labels workload !! key with
          | Some v => isCriterionMet crt v
          | None => (false, true)
          end).

Fixpoint select_loop (workload : CLUSWorkload) (domain : option CLUSDomain)
    (selector : list CLUSCriteriaEntry) (s : selection) : option selection :=
  match selector with
  | [] => Some s
  | crt :: selector' =>
      '(key, (ret, positive)) ← criterion_result workload domain crt;
      select_loop workload domain selector' (select_step key ret positive s)
  end.

Definition IsWorkloadSelected (workload : CLUSWorkload) (selector : list CLUSCriteriaEntry)
    (domain : option CLUSDomain) : bool :=
  match select_loop workload domain selector selection0 with
  | None => false
  | Some s => select_done s
  end.

(** [group] and [workload] may be nil pointers. *)
Definition IsGroupMember (group : option CLUSGroup) (workload : option CLUSWorkload)
    (domain : option CLUSDomain) : bool :=
  match group, workload with
  | Some g, Some w =>
      if negb (IsWorkloadSelected w (grp_Criteria g) domain) then false
      else match grp_CreaterDomains g with
           | None => true
           | Some ds => bool_decide (wl_Domain w ∈ ds)
           end
  | _, _ => false
  end.

(** A criterion on another key than the two of namespaces is passed over. *)
Fixpoint svc_loop (svcipgroup : CLUSGroup) (selector : list CLUSCriteriaEntry) (s : selection)
    : selection :=
  match selector with
  | [] => s
  | crt :: selector' =>
      let key := crt_Key crt in
      if negb (bool_decide (key = CriteriaKeyDomain)) && negb (bool_decide (key = CriteriaKeyNamespace))
      then svc_loop svcipgroup selector' s
      else
        let '(ret, positive) := isCriterionMet crt (grp_Domain svcipgroup) in
        svc_loop svcipgroup selector' (select_step key ret positive s)
  end.

Definition IsSvcIpGroupSelected (svcipgroup : CLUSGroup) (selector : list CLUSCriteriaEntry) : bool :=
  select_done (svc_loop svcipgroup selector selection0).

Definition IsSvcIpGroupMember (usergroup svcipgroup : option CLUSGroup) : bool :=
  match usergroup, svcipgroup with
  | Some u, Some s =>
      if negb (IsSvcIpGroupSelected s (grp_Criteria u)) then false
      else match grp_CreaterDomains u with
           | None => true
           | Some ds => bool_decide (grp_Domain s ∈ ds)
           end
  | _, _ => false
  end.
End regexp.

(** ** Wildcards *)

Definition newline : ascii := "010"%char.
Definition no_newline (s : string) : Prop := has_byte newline s = false.

(** What a pattern with wildcards means: [?] is one character and [*] any
    number of them, within a line. *)
Inductive glob : string -> string -> Prop :=
| glob_nil : glob "" ""
| glob_char c m v : c <> "?"%char -> c <> "*"%char -> glob m v -> glob (String c m) (String c v)
| glob_any c m v : c <> newline -> glob m v -> glob (String "?" m) (String c v)
| glob_star w m v : no_newline w -> glob m v -> glob (String "*" m) (w +:+ v).

(** The regular expressions that [EqualMatch] builds, as tokens. *)
Inductive token := TChar (c : ascii) | TAny | TStar.

Definition token_text (t : token) : string :=
  match t with
  | TChar c => if bool_decide (c = "."%char) then "\." else String c ""
  | TAny => "."
  | TStar => ".*"
  end.

Fixpoint tokens_text (l : list token) : string :=
  match l with [] => "" | t :: l' => token_text t +:+ tokens_text l' end.

Definition regexp_meta : list ascii :=
  ["\"; "+"; "*"; "?"; "("; ")"; "|"; "["; "]"; "{"; "}"; "^"; "$"]%char.

(** A character that stands for itself, or the escaped dot. *)
Definition plain_char (c : ascii) : bool :=
  (N_of_ascii c <? 128)%N && bool_decide (c ∉ regexp_meta).

Definition token_ok (t : token) : Prop :=
  match t with TChar c => plain_char c = true | _ => True end.

Fixpoint ascii_only (s : string) : bool :=
  match s with EmptyString => true | String c s' => (N_of_ascii c <? 128)%N && ascii_only s' end.

Inductive tokens_match : list token -> string -> Prop :=
| tm_nil : tokens_match [] ""
| tm_char c l v : tokens_match l v -> tokens_match (TChar c :: l) (String c v)
| tm_any c l v : c <> newline -> tokens_match l v -> tokens_match (TAny :: l) (String c v)
| tm_star w l v : no_newline w -> tokens_match l v -> tokens_match (TStar :: l) (w +:+ v).

(** What the code relies on of [regexp]: characters match themselves, [.] any
    character but a newline, [.*] any number of those, [^] and [$] the two
    ends of the text. *)
Definition compiles_tokens (Compile : string -> option (string -> bool)) : Prop :=
  forall l, Forall token_ok l ->
    exists re, Compile ("^" +:+ tokens_text l +:+ "$") = Some re /\
      forall v, ascii_only v = true -> re v = true <-> tokens_match l v.

(** The tokens of a pattern, and the patterns they are enough for. *)
Definition char_token (c : ascii) : token :=
  if bool_decide (c = "?"%char) then TAny
  else if bool_decide (c = "*"%char) then TStar else TChar c.

Fixpoint pattern_tokens (m : string) : list token :=
  match m with EmptyString => [] | String c m' => char_token c :: pattern_tokens m' end.

Fixpoint pattern_ok (m : string) : bool :=
  match m with
  | EmptyString => true
  | String c m' =>
      (bool_decide (c = "?"%char) || bool_decide (c = "*"%char) || plain_char c) && pattern_ok m'
  end.

Lemma ReplaceAll_hit s old new : ReplaceAll (String old s) old new = new +:+ ReplaceAll s old new.
Proof. simpl. by rewrite bool_decide_eq_true_2. Qed.

Lemma ReplaceAll_miss c s old new :
  c <> old -> ReplaceAll (String c s) old new = String c (ReplaceAll s old new).
Proof. intros Hc. simpl. by rewrite bool_decide_eq_false_2. Qed.

Lemma replaced_pattern m :
  ReplaceAll (ReplaceAll (ReplaceAll m "."%char "\.") "?"%char ".") "*"%char ".*"
  = tokens_text (pattern_tokens m).
Proof.
  induction m as [|c m IH]; [done|].
  change (tokens_text (pattern_tokens (String c m)))
    with (token_text (char_token c) +:+ tokens_text (pattern_tokens m)).
  rewrite <- IH. unfold char_token, token_text.
  destruct (decide (c = "."%char)) as [->|Hdot].
  { rewrite ReplaceAll_hit. cbn [bool_decide decide_rel]. reflexivity. }
  rewrite ReplaceAll_miss by done.
  destruct (decide (c = "?"%char)) as [->|Hq]; [by rewrite ReplaceAll_hit|].
  rewrite ReplaceAll_miss, (bool_decide_eq_false_2 (c = "?"%char)) by done.
  destruct (decide (c = "*"%char)) as [->|Hs]; [by rewrite ReplaceAll_hit|].
  by rewrite ReplaceAll_miss, (bool_decide_eq_false_2 (c = "*"%char)),
    (bool_decide_eq_false_2 (c = "."%char)).
Qed.

Lemma pattern_tokens_ok m : pattern_ok m = true -> Forall token_ok (pattern_tokens m).
Proof.
  induction m as [|c m IH]; simpl; [constructor|].
  intros [Hc Hm]%andb_true_iff. constructor; [|by apply IH].
  unfold char_token. repeat case_bool_decide; simpl; try done.
Qed.

Lemma tokens_match_glob m v :
  tokens_match (pattern_tokens m) v <-> glob m v.
Proof.
  split.
  - revert v. induction m as [|c m IH]; intros v; simpl.
    + inversion 1; subst. constructor.
    + unfold char_token. repeat case_bool_decide; subst.
      * inversion 1; subst. constructor; [done|]. by apply IH.
      * inversion 1; subst. constructor; [done|]. by apply IH.
      * inversion 1; subst. constructor; [done|done|]. by apply IH.
  - induction 1 as [|c m v Hq Hs H IH|c m v Hn H IH|w m v Hw H IH]; simpl; unfold char_token.
    + constructor.
    + rewrite !bool_decide_eq_false_2 by done. by constructor.
    + by constructor.
    + by constructor.
Qed.

(** Without a wildcard a pattern is the text it matches. *)
Lemma glob_literal m v :
  has_byte "?"%char m = false -> has_byte "*"%char m = false -> glob m v <-> m = v.
Proof.
  revert v. induction m as [|c m IH]; intros v; simpl.
  - intros _ _. split; [by inversion 1|]. intros <-. constructor.
  - intros [Hq Hm]%orb_false_iff [Hs Hm']%orb_false_iff.
    apply bool_decide_eq_false in Hq, Hs. split.
    + inversion 1; subst; try done. f_equal. by apply IH.
    + intros <-. constructor; [done..|]. by apply IH.
Qed.

(** A wildcard pattern of ordinary characters matches what it means. *)
Lemma EqualMatch_glob Compile m v :
  compiles_tokens Compile -> pattern_ok m = true -> ascii_only v = true ->
  EqualMatch Compile m v = true <-> glob m v.
Proof.
  intros HC Hm Hv. unfold EqualMatch.
  destruct (has_byte "?"%char m || has_byte "*"%char m) eqn:Hw; cbn [negb].
  - rewrite replaced_pattern.
    destruct (HC _ (pattern_tokens_ok _ Hm)) as (re & -> & Hre).
    by rewrite Hre, tokens_match_glob.
  - apply orb_false_iff in Hw as [Hq Hs].
    by rewrite bool_decide_eq_true, glob_literal.
Qed.

(** ** An engine for these expressions *)

Fixpoint parse_tokens (fuel : nat) (s : string) : option (list token) :=
  match fuel, s with
  | S fuel', String c s' =>
      if bool_decide (c = "$"%char) then (if bool_decide (s' = "") then Some [] else None)
      else if bool_decide (c = "\"%char) then
        match s' with
        | String "." s'' => cons (TChar ".") <$> parse_tokens fuel' s''
        | _ => None
        end
      else if bool_decide (c = "."%char) then
        if HasPrefix s' "*" then cons TStar <$> parse_tokens fuel' (string_drop 1 s')
        else cons TAny <$> parse_tokens fuel' s'
      else if plain_char c then cons (TChar c) <$> parse_tokens fuel' s' else None
  | _, _ => None
  end.

Fixpoint tokens_matchb (l : list token) (v : string) : bool :=
  match l with
  | [] => bool_decide (v = "")
  | TChar c :: l' => match v with String d v' => bool_decide (c = d) && tokens_matchb l' v' | _ => false end
  | TAny :: l' =>
      match v with String d v' => negb (bool_decide (d = newline)) && tokens_matchb l' v' | _ => false end
  | TStar :: l' =>
      (fix star (v : string) : bool :=
         tokens_matchb l' v ||
         match v with String d v' => negb (bool_decide (d = newline)) && star v' | _ => false end) v
  end.

(** Other expressions are refused. *)
Definition glob_compile (pattern : string) : option (string -> bool) :=
  match pattern with
  | String "^" s => tokens_matchb <$> parse_tokens (String.length s) s
  | _ => None
  end.

Lemma tokens_matchb_spec l v : tokens_matchb l v = true <-> tokens_match l v.
Proof.
  revert v. induction l as [|t l IH]; intros v; simpl.
  { rewrite bool_decide_eq_true. split; [intros ->; constructor|by inversion 1]. }
  destruct t as [c| |].
  - destruct v as [|d v]; [split; [done|by inversion 1]|].
    rewrite andb_true_iff, bool_decide_eq_true, IH. split.
    + intros [-> Hl]. by constructor.
    + by inversion 1; subst.
  - destruct v as [|d v]; [split; [done|by inversion 1]|].
    rewrite andb_true_iff, negb_true_iff, bool_decide_eq_false, IH. split.
    + intros [Hn Hl]. by constructor.
    + by inversion 1; subst.
  - induction v as [|d v IHv].
    + rewrite orb_false_r, IH. split.
      * intros Hl. by apply (tm_star "" l "").
      * inversion 1 as [| | |w l' v Hw Hl]; subst. by destruct w, v.
    + rewrite orb_true_iff, IH, andb_true_iff, negb_true_iff, bool_decide_eq_false, IHv. split.
      * intros [Hl|[Hn Hs]]; [by apply (tm_star "" l (String d v))|].
        inversion Hs as [| | |w l' v' Hw Hl]; subst.
        apply (tm_star (String d w) l v'); [|done].
        unfold no_newline. simpl. by rewrite bool_decide_eq_false_2.
      * inversion 1 as [| | |w l' v' Hw Hl]; subst.
        destruct w as [|e w]; [left; by destruct v' |right].
        match goal with H : _ +:+ _ = _ |- _ => injection H as -> <- end.
        unfold no_newline in Hw. simpl in Hw. apply orb_false_iff in Hw as [Hd Hw].
        apply bool_decide_eq_false in Hd. split; [congruence|]. by constructor.
Qed.

Lemma tokens_text_no_star l :
  Forall token_ok l -> HasPrefix (tokens_text l +:+ "$") "*" = false.
Proof.
  destruct 1 as [|t l Ht _]; [done|].
  destruct t as [c| |]; [|done..]. cbn [tokens_text token_text]. case_bool_decide; [done|].
  by destruct c as [[] [] [] [] [] [] [] []].
Qed.

Lemma parse_escaped fuel s :
  parse_tokens (S fuel) ("\." +:+ s) = cons (TChar ".") <$> parse_tokens fuel s.
Proof. reflexivity. Qed.

Lemma parse_star fuel s : parse_tokens (S fuel) (".*" +:+ s) = cons TStar <$> parse_tokens fuel s.
Proof. by destruct s. Qed.

Lemma parse_any fuel s :
  HasPrefix s "*" = false ->
  parse_tokens (S fuel) ("." +:+ s) = cons TAny <$> parse_tokens fuel s.
Proof.
  intros Hs. change ("." +:+ s) with (String "." s). cbn [parse_tokens]. by rewrite Hs.
Qed.

Lemma parse_char fuel c s :
  plain_char c = true -> c <> "."%char ->
  parse_tokens (S fuel) (String c "" +:+ s) = cons (TChar c) <$> parse_tokens fuel s.
Proof.
  intros Hp Hc. change (String c "" +:+ s) with (String c s). cbn [parse_tokens].
  assert (c <> "$"%char /\ c <> "\"%char) as [H1 H2] by (split; intros ->; by vm_compute in Hp).
  by rewrite !bool_decide_eq_false_2, Hp.
Qed.

Lemma parse_tokens_text l fuel :
  Forall token_ok l -> (String.length (tokens_text l +:+ "$") <= fuel)%nat ->
  parse_tokens fuel (tokens_text l +:+ "$") = Some l.
Proof.
  intros Hl. revert fuel. induction Hl as [|t l Ht Hl IH]; intros fuel Hf.
  { destruct fuel; [simpl in Hf; lia|done]. }
  cbn [tokens_text] in *. rewrite string_app_assoc in *. rewrite string_app_length in Hf.
  assert (Ht1 : (1 <= String.length (token_text t))%nat)
    by (destruct t; simpl; [case_bool_decide|..]; simpl; lia).
  destruct fuel as [|fuel]; [lia|]. specialize (IH fuel ltac:(lia)).
  destruct t as [c| |]; cbn [token_text] in *.
  - case_bool_decide as Hc; [subst c; by rewrite parse_escaped, IH|].
    by rewrite parse_char, IH.
  - rewrite parse_any, IH; [done|]. by apply tokens_text_no_star.
  - by rewrite parse_star, IH.
Qed.

Lemma glob_compile_tokens : compiles_tokens glob_compile.
Proof.
  intros l Hl. exists (tokens_matchb l). split.
  - change ("^" +:+ tokens_text l +:+ "$") with (String "^" (tokens_text l +:+ "$")).
    unfold glob_compile. by rewrite parse_tokens_text.
  - intros v _. apply tokens_matchb_spec.
Qed.

(** ** Which workloads a selector selects *)

(** The verdicts of the criteria of one kind, in the order of the selector. *)
Definition of_kind (k : string) (rs : list (string * (bool * bool))) : list (bool * bool) :=
  omap (fun r => if bool_decide (r.1 = k) then Some r.2 else None) rs.

(** The negative matches in front of the first positive one are a conjunction;
    what follows is or-ed to it. *)
Fixpoint kind_fold (v p : bool) (l : list (bool * bool)) : bool :=
  match l with
  | [] => v
  | (r, q) :: l' => kind_fold (if negb q && negb p then v && r else v || r) (p || q) l'
  end.

Definition leading_negatives (l : list (bool * bool)) : list (bool * bool) :=
  (fix go l := match l with (r, false) :: l' => (r, false) :: go l' | _ => [] end) l.

Definition kind_verdict (l : list (bool * bool)) : bool :=
  let neg := leading_negatives l in
  let rest := drop (length neg) l in
  if bool_decide (rest = []) then forallb fst neg
  else (negb (bool_decide (neg = [])) && forallb fst neg) || existsb fst rest.

(** What the comment of the code says instead: a disjunction as soon as one of
    the criteria is a positive match. *)
Definition documented_verdict (l : list (bool * bool)) : bool :=
  if existsb snd l then existsb fst l else forallb fst l.

Lemma kind_fold_positive v l : kind_fold v true l = v || existsb fst l.
Proof.
  revert v. induction l as [|[r q] l IH]; intros v; simpl; [by rewrite orb_false_r|].
  rewrite andb_false_r, IH. by rewrite orb_assoc.
Qed.

Lemma kind_fold_negative v l :
  kind_fold v false l
  = (v && forallb fst (leading_negatives l)) || existsb fst (drop (length (leading_negatives l)) l).
Proof.
  revert v. induction l as [|[r q] l IH]; intros v; simpl.
  { by rewrite andb_true_r, orb_false_r. }
  destruct q; simpl.
  - by rewrite kind_fold_positive, andb_true_r, orb_assoc.
  - by rewrite IH, andb_assoc.
Qed.

Lemma kind_fold_verdict r q l : kind_fold r q l = kind_verdict ((r, q) :: l).
Proof.
  unfold kind_verdict. destruct q; simpl.
  - by rewrite kind_fold_positive.
  - rewrite kind_fold_negative. case_bool_decide as Hd; [|done].
    by rewrite Hd, orb_false_r.
Qed.

(** The two agree unless a positive match follows two negative ones. *)
Lemma kind_verdict_documented l :
  (length (leading_negatives l) <= 1)%nat \/ existsb snd l = false ->
  kind_verdict l = documented_verdict l.
Proof.
  unfold kind_verdict, documented_verdict. intros [Hl|Hl].
  - destruct l as [|[r1 []] [|[r2 []] l]]; simpl in *; try lia; try done;
      by rewrite ?andb_true_r, ?orb_false_r.
  - assert (Hneg : leading_negatives l = l).
    { induction l as [|[r []] l IH]; simpl in *; [done..|]. f_equal. by apply IH. }
    rewrite Hneg, drop_all, bool_decide_eq_true_2 by done.
    by rewrite Hl.
Qed.

Definition select_fold (rs : list (string * (bool * bool))) (s : selection) : selection :=
  foldl (fun s r => select_step r.1 r.2.1 r.2.2 s) s rs.

Lemma select_loop_fold Compile w d sel s :
  select_loop Compile w d sel s
  = (fun rs => select_fold rs s) <$> mapM (criterion_result Compile w d) sel.
Proof.
  revert s. induction sel as [|crt sel IH]; intros s; simpl; [done|].
  destruct (criterion_result Compile w d crt) as [[k [r q]]|]; simpl; [|done].
  rewrite IH. by destruct (mapM _ sel).
Qed.

(** The maps after the loop, for one kind. *)
Lemma select_fold_lookup rs s k :
  (is_Some (rets s !! k) <-> is_Some (poss s !! k)) ->
  rets (select_fold rs s) !! k
  = match rets s !! k, of_kind k rs with
    | Some v, l => Some (kind_fold v (default false (poss s !! k)) l)
    | None, (r, q) :: l => Some (kind_fold r q l)
    | None, [] => None
    end.
Proof.
  revert s. induction rs as [|[k' [r q]] rs IH]; intros s Hs.
  { simpl. by destruct (rets s !! k). }
  change (select_fold ((k', (r, q)) :: rs) s) with (select_fold rs (select_step k' r q s)).
  unfold select_step, of_kind. cbn [omap list_omap fst snd]. fold (of_kind k rs).
  destruct (decide (k' = k)) as [->|Hk].
  - rewrite bool_decide_eq_true_2 by done. destruct (rets s !! k) as [v|] eqn:Hr.
    + rewrite IH; cbn [rets poss]; rewrite !lookup_insert_eq; done.
    + rewrite IH; cbn [rets poss]; rewrite !lookup_insert_eq; done.
  - rewrite bool_decide_eq_false_2 by done.
    destruct (rets s !! k') as [v|]; rewrite IH; cbn [rets poss];
      rewrite !lookup_insert_ne by done; done.
Qed.

Lemma select_fold0_lookup rs k :
  rets (select_fold rs selection0) !! k
  = if decide (of_kind k rs = []) then None else Some (kind_verdict (of_kind k rs)).
Proof.
  rewrite select_fold_lookup by done. cbn [rets poss selection0]. rewrite lookup_empty.
  destruct (of_kind k rs) as [|[r q] l]; simpl; [done|].
  by rewrite kind_fold_verdict.
Qed.

Lemma of_kind_nil k rs : of_kind k rs = [] <-> k ∉ rs.*1.
Proof.
  unfold of_kind. induction rs as [|[k' x] rs IH]; simpl; [set_solver|].
  case_bool_decide; simpl; set_solver.
Qed.

Lemma select_done_spec rs :
  select_done (select_fold rs selection0) = true <->
  rs <> [] /\ forall k, k ∈ rs.*1 -> kind_verdict (of_kind k rs) = true.
Proof.
  unfold select_done.
  assert (He : rets (select_fold rs selection0) = ∅ <-> rs = []).
  { split; [|intros ->; done]. intros He. destruct rs as [|[k x] rs]; [done|]. exfalso.
    assert (Hk : rets (select_fold ((k, x) :: rs) selection0) !! k = None) by (rewrite He; done).
    rewrite select_fold0_lookup in Hk. case_decide as Hd; [|done].
    apply of_kind_nil in Hd. set_solver. }
  case_bool_decide as Hb; [naive_solver|]. rewrite bool_decide_eq_true. split.
  - intros Hall. split; [naive_solver|]. intros k Hk.
    apply (Hall k). rewrite select_fold0_lookup.
    destruct (decide _) as [Hn|]; [by apply of_kind_nil in Hn|done].
  - intros [_ Hall] k v. rewrite select_fold0_lookup. case_decide as Hd; [done|].
    intros [= <-]. apply Hall. rewrite of_kind_nil in Hd.
    destruct (decide (k ∈ rs.*1)); [done|naive_solver].
Qed.

(** In general: the negative matches before the first positive one all hold,
    or one of the criteria from there on does; all hold when all are
    negative. *)
Lemma IsGroupMember_verdicts Compile g w d :
  IsGroupMember Compile (Some g) (Some w) d = true <->
  (exists rs, mapM (criterion_result Compile w d) (grp_Criteria g) = Some rs /\ rs <> [] /\
     forall k, k ∈ rs.*1 -> kind_verdict (of_kind k rs) = true) /\
  (forall ds, grp_CreaterDomains g = Some ds -> wl_Domain w ∈ ds).
Proof.
  cbn [IsGroupMember].
  assert (Hsel : IsWorkloadSelected Compile w (grp_Criteria g) d = true <->
    exists rs, mapM (criterion_result Compile w d) (grp_Criteria g) = Some rs /\ rs <> [] /\
      forall k, k ∈ rs.*1 -> kind_verdict (of_kind k rs) = true).
  { unfold IsWorkloadSelected. rewrite select_loop_fold.
    destruct (mapM _ _) as [rs|]; cbn [fmap option_fmap option_map].
    - rewrite select_done_spec. split; [by exists rs|]. by intros (? & [= <-] & ?).
    - naive_solver. }
  rewrite <- Hsel. destruct (IsWorkloadSelected _ _ _ _); cbn [negb]; [|naive_solver].
  destruct (grp_CreaterDomains g) as [ds|]; [rewrite bool_decide_eq_true|]; naive_solver.
Qed.

(** No kind has two negative matches before a positive one. *)
Definition positives_early (rs : list (string * (bool * bool))) : Prop :=
  forall k, (length (leading_negatives (of_kind k rs)) <= 1)%nat \/ existsb snd (of_kind k rs) = false.

(** C22: what the comment of the code promises, for groups none of whose kinds
    of criteria has two negative matches before its first positive one: a
    workload is a member exactly when the group has a criterion, none of them
    is on an address, of the criteria of every kind one holds if one is a
    positive match and all hold if all are negative, and the group was created
    for the workload's namespace or for all.  (Of a selector that has two
    negative matches first, the code asks both to hold or a later one to, see
    [IsGroupMember_verdicts] and [selector_order_matters].) *)
Theorem IsGroupMember_spec Compile g w d :
  (forall rs, mapM (criterion_result Compile w d) (grp_Criteria g) = Some rs -> positives_early rs) ->
  IsGroupMember Compile (Some g) (Some w) d = true <->
  (exists rs, mapM (criterion_result Compile w d) (grp_Criteria g) = Some rs /\ rs <> [] /\
     forall k, k ∈ rs.*1 -> documented_verdict (of_kind k rs) = true) /\
  (forall ds, grp_CreaterDomains g = Some ds -> wl_Domain w ∈ ds).
Proof.
  intros Hearly. rewrite IsGroupMember_verdicts. apply and_iff_compat_r.
  split; intros (rs & Hrs & Hne & Hall); exists rs; (split_and!; [done|done|]); intros k Hk;
    rewrite <-(Hall k Hk); [symmetry|]; apply kind_verdict_documented, Hearly, Hrs.
Qed.

(** Three criteria on a service whose order decides: the comment of the code
    promises a disjunction for both orders. *)
Definition ex_entry (op value : string) : CLUSCriteriaEntry :=
  {| crt_Key := CriteriaKeyService; crt_Value := value; crt_Op := op |}.

Definition ex_workload : CLUSWorkload :=
  {| wl_ID := "w1"; wl_Name := "web-1"; wl_HostName := "n1"; wl_Image := "nginx";
     wl_Service := "web.prod"; wl_Domain := "prod"; wl_Labels := ∅ |}.

(** A service that is not a database, or is the cache. *)
Definition ex_group : CLUSGroup :=
  {| grp_Name := "g"; grp_Kind := ""; grp_Domain := ""; grp_CfgType := UserCreated; grp_CreaterDomains := None;
     grp_Criteria := [ex_entry CriteriaOpNotEqual "db.*"; ex_entry CriteriaOpEqual "cache"] |}.

Lemma IsGroupMember_spec_witness : IsGroupMember glob_compile (Some ex_group) (Some ex_workload) None = true.
Proof.
  apply (IsGroupMember_spec glob_compile ex_group ex_workload None).
  - intros rs Hrs k. assert (Hk : k ∉ rs.*1 \/ k = CriteriaKeyService).
    { revert Hrs. vm_compute mapM. intros [= <-]. simpl. destruct (decide (k = CriteriaKeyService)); [by right|left; set_solver]. }
    destruct Hk as [Hk| ->]; [left; apply of_kind_nil in Hk; rewrite Hk; simpl; lia|].
    left. revert Hrs. vm_compute mapM. intros [= <-]. vm_compute. lia.
  - split; [|done]. eexists. split; [vm_compute; reflexivity|]. split; [done|].
    intros k Hk. repeat (apply elem_of_cons in Hk as [->|Hk]; [vm_compute; reflexivity|]). by apply elem_of_nil in Hk.
Defined.

Example selector_order_matters :
  let neg1 := ex_entry CriteriaOpNotEqual "db.*" in
  let neg2 := ex_entry CriteriaOpNotEqual "web.*" in
  let pos := ex_entry CriteriaOpEqual "cache" in
  IsWorkloadSelected glob_compile ex_workload [neg1; neg2; pos] None = false /\
  IsWorkloadSelected glob_compile ex_workload [pos; neg1; neg2] None = true.
Proof. by vm_compute. Qed.
