(* ===== verification/NvAccessObj.v ===== *)
(** * What access control protects

    share/access.go: the permissions, a bit each, and, for every type of
    object the REST API serves, the namespaces ("domains") it belongs to.
    [GetDomain] returns two slices: none (both nil) for an object of the whole
    cluster, one for an object of some namespaces, two for a rule between two
    groups, and a reserved value twice for an object of the federation.
    [NvPermissions] is the pair of permissions of share/clus_apis.go. *)

From Stdlib Require Import ZArith Lia Ascii.
From S2P Require Import Prelude GoLib NvCriteria.

(** ** Permissions *)

Definition PERM_IBMSA := 0x1%Z.
Definition PERM_FED := 0x2%Z.
Definition PERM_NV_RESOURCE := 0x4%Z.
Definition PERM_RUNTIME_SCAN_BASIC := 0x8%Z.
Definition PERM_REG_SCAN := 0x10%Z.
Definition PERM_CICD_SCAN := 0x20%Z.
Definition PERM_INFRA_BASIC := 0x40%Z.
Definition PERM_NETWORK_POLICY_BASIC := 0x80%Z.
Definition PERM_SYSTEM_POLICY_BASIC := 0x100%Z.
Definition PERM_GROUP_BASIC := 0x200%Z.
Definition PERM_ADM_CONTROL := 0x400%Z.
Definition PERM_COMPLIANCE_BASIC := 0x800%Z.
Definition PERM_AUDIT_EVENTS := 0x1000%Z.
Definition PERM_SECURITY_EVENTS_BASIC := 0x2000%Z.
Definition PERM_EVENTS := 0x4000%Z.
Definition PERM_AUTHENTICATION := 0x8000%Z.
Definition PERM_AUTHORIZATION := 0x10000%Z.
Definition PERM_SYSTEM_CONFIG := 0x20000%Z.
Definition PERM_CLOUD := 0x40000%Z.
Definition PERM_WORKLOAD_BASIC := 0x80000%Z.
Definition PERM_VULNERABILITY := 0x100000%Z.

Definition bits (l : list Z) : Z := foldr Z.lor 0%Z l.

Definition PERMS_RUNTIME_SCAN := bits [PERM_RUNTIME_SCAN_BASIC; PERM_WORKLOAD_BASIC; PERM_INFRA_BASIC].
Definition PERMS_RUNTIME_POLICIES :=
  bits [PERM_GROUP_BASIC; PERM_NETWORK_POLICY_BASIC; PERM_SYSTEM_POLICY_BASIC; PERM_WORKLOAD_BASIC].
Definition PERMS_COMPLIANCE := bits [PERM_COMPLIANCE_BASIC; PERM_WORKLOAD_BASIC; PERM_INFRA_BASIC].
Definition PERMS_SECURITY_EVENTS := bits [PERM_SECURITY_EVENTS_BASIC; PERM_WORKLOAD_BASIC].
Definition PERMS_PWD_PROFILE := bits [PERM_AUTHORIZATION; PERM_SYSTEM_CONFIG].

Definition PERMS_DOMAIN_READ :=
  bits [PERM_RUNTIME_SCAN_BASIC; PERM_REG_SCAN; PERM_NETWORK_POLICY_BASIC; PERM_SYSTEM_POLICY_BASIC;
        PERM_GROUP_BASIC; PERM_WORKLOAD_BASIC; PERM_INFRA_BASIC; PERM_COMPLIANCE_BASIC;
        PERM_AUTHORIZATION; PERM_SYSTEM_CONFIG; PERM_AUDIT_EVENTS; PERM_SECURITY_EVENTS_BASIC;
        PERM_EVENTS].
Definition PERMS_DOMAIN_WRITE :=
  bits [PERM_RUNTIME_SCAN_BASIC; PERM_REG_SCAN; PERM_NETWORK_POLICY_BASIC; PERM_SYSTEM_POLICY_BASIC;
        PERM_GROUP_BASIC; PERM_WORKLOAD_BASIC; PERM_INFRA_BASIC; PERM_COMPLIANCE_BASIC;
        PERM_AUTHORIZATION].
Definition PERMS_GLOBAL_CONFIGURABLE_READ :=
  bits [PERM_ADM_CONTROL; PERM_AUTHENTICATION; PERM_INFRA_BASIC; PERM_VULNERABILITY; PERMS_DOMAIN_READ].
Definition PERMS_GLOBAL_CONFIGURABLE_WRITE :=
  bits [PERM_ADM_CONTROL; PERM_AUTHENTICATION; PERM_INFRA_BASIC; PERM_VULNERABILITY; PERMS_DOMAIN_WRITE;
        PERM_SYSTEM_CONFIG; PERM_CICD_SCAN].
Definition PERMS_CLUSTER_READ := Z.lor PERM_NV_RESOURCE PERMS_GLOBAL_CONFIGURABLE_READ.
Definition PERMS_CLUSTER_WRITE := Z.lor PERM_NV_RESOURCE PERMS_GLOBAL_CONFIGURABLE_WRITE.
Definition PERMS_FED_READ := Z.lor PERM_FED PERMS_CLUSTER_READ.
Definition PERMS_FED_WRITE := Z.lor PERM_FED PERMS_CLUSTER_WRITE.

(** [need == (have & need)]. *)
Definition has_perms (have need : Z) : bool := (need =? Z.land have need)%Z.

(** [NvPermissions] of share/clus_apis.go; its methods with a pointer receiver
    return the value they leave. *)
Record NvPermissions := { ReadValue : Z; WriteValue : Z }.
#[export] Instance NvPermissions_eq_dec : EqDecision NvPermissions.
Proof. solve_decision. Defined.

Definition NvPermissions0 : NvPermissions := {| ReadValue := 0; WriteValue := 0 |}.

Definition IsEmpty (p : NvPermissions) : bool := (ReadValue p =? 0)%Z && (WriteValue p =? 0)%Z.

Definition perms_HasPermFed (p : NvPermissions) : bool :=
  negb (Z.land (ReadValue p) PERM_FED =? 0)%Z || negb (Z.land (WriteValue p) PERM_FED =? 0)%Z.

Definition perms_HasPermFedForReadOnly (p : NvPermissions) : bool :=
  negb (Z.land (ReadValue p) PERM_FED =? 0)%Z && (Z.land (WriteValue p) PERM_FED =? 0)%Z.

Definition mask_perms (r w : Z) (p : NvPermissions) : NvPermissions :=
  {| ReadValue := Z.land (ReadValue p) r; WriteValue := Z.land (WriteValue p) w |}.

Definition FilterPermits (domain scope fedRole : string) (p : NvPermissions) : NvPermissions :=
  if negb (bool_decide (domain = "")) then mask_perms PERMS_DOMAIN_READ PERMS_DOMAIN_WRITE p
  else if bool_decide (scope = "local") && bool_decide (fedRole = "master") then
    mask_perms PERMS_FED_READ PERMS_FED_WRITE p
  else if bool_decide (scope = "remote") && negb (bool_decide (fedRole = "master")) then
    NvPermissions0
  else mask_perms PERMS_CLUSTER_READ PERMS_CLUSTER_WRITE p.

Definition Union (p other : NvPermissions) : NvPermissions :=
  {| ReadValue := Z.lor (ReadValue p) (ReadValue other);
     WriteValue := Z.lor (WriteValue p) (WriteValue other) |}.

Definition ResetIfSubsetOf (p other : NvPermissions) : NvPermissions :=
  {| ReadValue := if (Z.lor (ReadValue p) (ReadValue other) =? ReadValue other)%Z then 0 else ReadValue p;
     WriteValue :=
       if (Z.lor (WriteValue p) (WriteValue other) =? WriteValue other)%Z then 0 else WriteValue p |}.

Definition IsSubsetOf (p other : NvPermissions) : bool :=
  (Z.lor (ReadValue other) (ReadValue p) =? ReadValue other)%Z &&
  (Z.lor (WriteValue other) (WriteValue p) =? WriteValue other)%Z.

(** ** The objects, with the fields [GetDomain] reads *)

Record CLUSUser := { usr_Role : string; usr_RoleDomains : gmap string (list string) }.
Record CLUSPolicyRule := { pr_From : string; pr_To : string; pr_CfgType : TCfgType }.
Record CLUSRegistryFilter := { rf_Org : string; rf_Repo : string }.
Record CLUSRegistryConfig := {
  rc_Name : string; rc_Type : string; rc_Domains : option (list string);
  rc_CreaterDomains : option (list string); rc_ParsedFilters : list CLUSRegistryFilter;
  rc_CfgType : TCfgType }.
Record CLUSRegistryImageSummary := { is_RegName : string; is_ImageDomains : list string }.

(** An interface value.  The two pointer types that [GetDomain] itself tests
    for nil carry an [option]. *)
Inductive AccessObject :=
| OGlobal
| OAllAsReader
| OUser (u : CLUSUser)
| OSystemConfig (cfg : TCfgType)
| OWorkload (domain : string)
| ODomain (name : string)
| OGroup (g : option CLUSGroup)
| OPolicyRule (r : CLUSPolicyRule)
| OProcessProfile (group : string) (cfg : TCfgType)
| OProcRule (group : string) (cfg : TCfgType)
| OCustomCheck (name : string)
| OResponseRule (group : string) (cfg : TCfgType)
| ORegistryConfig (r : option CLUSRegistryConfig)
| ORegistryFilter (org : string)
| OImage (domain : string)
| OScanReport (repository : string)
| ORegistryImageSummary (s : CLUSRegistryImageSummary)
| OFileMonitorProfile (group : string) (cfg : TCfgType)
| OAdmissionRule (cfg : TCfgType)
| ODlpGroup (name : string)
| OWafGroup (name : string)
| OWebhook (cfg : TCfgType).

Definition HiddenFedDomain := "$*&().^$".
Definition AccessAllAsReader := "*".
Definition GroupKindAddress := "address".
Definition RegistryTypeOpenShift := "OpenShift Registry".
Definition userRoleFedAdmin := "fedAdmin".
Definition userRoleFedReader := "fedReader".

Abbreviation slice := (option (list string)) (only parsing).
Definition slice_len (s : slice) : nat := length (default [] s).

Definition fedDomainSlice : slice := Some [HiddenFedDomain].

Abbreviation GetAccessObjectFunc := (option (string -> option AccessObject)) (only parsing).

(** ** [GetDomain]

    The domains of a user and of an image summary are collected by a range
    over a map; [range] is the order of that range. *)
Section GetDomain.
Context (range : gset string -> list string).

(** [CLUSUser] and [CLUSApikey]. *)
Definition CLUSUser_GetDomain (o : CLUSUser) : slice * slice :=
  if negb (bool_decide (usr_Role o = "")) then
    if bool_decide (usr_Role o = userRoleFedAdmin) || bool_decide (usr_Role o = userRoleFedReader)
    then (fedDomainSlice, fedDomainSlice)
    else (None, None)
  else
    let s : gset string := list_to_set (mjoin (map_to_list (usr_RoleDomains o)).*2) in
    let domains := range s in
    (if bool_decide (length domains = 0)%nat then None else Some domains, None).

(** [CLUSSystemConfig], [CLUSAdmissionRule] and [CLUSWebhook]. *)
Definition CfgType_GetDomain (cfg : TCfgType) : slice * slice :=
  if bool_decide (cfg = FederalCfg) then (fedDomainSlice, fedDomainSlice) else (None, None).

(** [CLUSWorkload], [CLUSSnifferDummy], [CLUSWorkloadScanDummy], [CLUSImage]
    and [CLUSRegistryFilter] (its organization). *)
Definition CLUSWorkload_GetDomain (domain : string) : slice * slice :=
  if bool_decide (domain = "") then (None, None) else (Some [domain], None).

Definition CLUSGroup_GetDomain (o : CLUSGroup) : slice * slice :=
  if bool_decide (grp_CfgType o = FederalCfg) then (fedDomainSlice, fedDomainSlice)
  else if negb (bool_decide (grp_Domain o = "")) then (Some [grp_Domain o], None)
  else if bool_decide (slice_len (grp_CreaterDomains o) = 0)%nat &&
          (bool_decide (grp_CfgType o = UserCreated) || bool_decide (grp_CfgType o = GroundCfg)) &&
          bool_decide (grp_Kind o = GroupKindAddress)
  then (Some [AccessAllAsReader], None)
  else (grp_CreaterDomains o, None).

(** [g := f(name); g != nil && g.( *CLUSGroup) != nil]: a value of another
    type makes the type assertion panic. *)
Definition assert_group (f : string -> option AccessObject) (name : string)
    : outcome (option CLUSGroup) :=
  match f name with
  | None => Done None
  | Some (OGroup g) => Done g
  | Some _ => Panicked "interface conversion"
  end.

(** The domains of a group found by name, for the objects that belong to one:
    [CLUSProcessProfile], [ProcRule], [CLUSResponseRule] and
    [CLUSFileMonitorProfile], which have a configuration type, and
    [CLUSCustomCheck], [CLUSDlpGroup] and [CLUSWafGroup], which have none. *)
Definition Named_GetDomain (name : string) (f : GetAccessObjectFunc) : outcome (slice * slice) :=
  match f with
  | None => Done (None, None)
  | Some f =>
      g ← assert_group f name;
      match g with
      | Some g => Done ((CLUSGroup_GetDomain g).1, None)
      | None => Done (None, None)
      end
  end.

Definition InGroup_GetDomain (group : string) (cfg : TCfgType) (f : GetAccessObjectFunc)
    : outcome (slice * slice) :=
  if bool_decide (cfg = FederalCfg) then Done (fedDomainSlice, fedDomainSlice)
  else Named_GetDomain group f.

Definition CLUSPolicyRule_GetDomain (o : CLUSPolicyRule) (f : GetAccessObjectFunc)
    : outcome (slice * slice) :=
  if bool_decide (pr_CfgType o = FederalCfg) then Done (fedDomainSlice, fedDomainSlice)
  else match f with
       | None => Done (None, None)
       | Some f =>
           fg ← assert_group f (pr_From o);
           let d1 := match fg with Some g => (CLUSGroup_GetDomain g).1 | None => None end in
           tg ← assert_group f (pr_To o);
           let d2 := match tg with Some g => (CLUSGroup_GetDomain g).1 | None => None end in
           if bool_decide (slice_len d1 = 0)%nat && negb (bool_decide (slice_len d2 = 0)%nat)
           then Done (Some [""], d2)
           else if negb (bool_decide (slice_len d1 = 0)%nat) && bool_decide (slice_len d2 = 0)%nat
           then Done (d1, Some [""])
           else Done (d1, d2)
       end.

(** The organizations of the filters of an OpenShift registry are appended;
    the map is searched for the filter's own organization. *)
Fixpoint add_filters (fs : list CLUSRegistryFilter) (domains : slice) (seen : gset string) : slice :=
  match fs with
  | [] => domains
  | f :: fs' =>
      let org := if negb (bool_decide (rf_Org f = "")) then rf_Org f
                 else if bool_decide (rf_Repo f = ".*") then AccessAllAsReader else "" in
      if negb (bool_decide (org = "")) && negb (bool_decide (rf_Org f ∈ seen)) then
        add_filters fs' (Some (default [] domains ++ [org])) ({[org]} ∪ seen)
      else add_filters fs' domains seen
  end.

Definition CLUSRegistryConfig_GetDomain (o : CLUSRegistryConfig) : slice * slice :=
  if bool_decide (rc_CfgType o = FederalCfg) || HasPrefix (rc_Name o) "fed." then
    (fedDomainSlice, fedDomainSlice)
  else
    let domains :=
      if negb (bool_decide (slice_len (rc_Domains o) = 0)%nat) then rc_Domains o
      else rc_CreaterDomains o in
    if bool_decide (rc_Type o = RegistryTypeOpenShift) &&
       negb (bool_decide (rc_ParsedFilters o = []) )
    then (add_filters (rc_ParsedFilters o) domains (list_to_set (default [] domains)), None)
    else (domains, None).

Definition CLUSScanReport_GetDomain (repository : string) : slice * slice :=
  match Split repository "/" with
  | ss0 :: _ :: _ => if negb (bool_decide (ss0 = "")) then (Some [ss0], None) else (None, None)
  | _ => (None, None)
  end.

Definition CLUSRegistryImageSummary_GetDomain (o : CLUSRegistryImageSummary)
    (f : GetAccessObjectFunc) : outcome (slice * slice) :=
  let m : gset string := list_to_set (filter (fun d => d <> "") (is_ImageDomains o)) in
  if bool_decide (m = ∅) then
    match f with
    | None => Done (None, None)
    | Some f =>
        match f (is_RegName o) with
        | None => Done (None, None)
        | Some (ORegistryConfig None) => Done (None, None)
        | Some (ORegistryConfig (Some r)) => Done ((CLUSRegistryConfig_GetDomain r).1, None)
        | Some _ => Panicked "interface conversion"
        end
    end
  else Done (Some (range m), None).

(** The method of the dynamic type of the object.  [OGlobal] stands for the
    types whose method returns nil twice (servers, sessions, controllers,
    agents, hosts, scan and admission settings, roles, ...), [OAllAsReader] for
    those that return "*" (sensors, the lists of applications and of registry
    types, ...). *)
Definition GetDomain (o : AccessObject) (f : GetAccessObjectFunc) : outcome (slice * slice) :=
  match o with
  | OGlobal => Done (None, None)
  | OAllAsReader => Done (Some [AccessAllAsReader], None)
  | OUser u => Done (CLUSUser_GetDomain u)
  | OSystemConfig cfg | OAdmissionRule cfg | OWebhook cfg => Done (CfgType_GetDomain cfg)
  | OWorkload d | OImage d | ORegistryFilter d => Done (CLUSWorkload_GetDomain d)
  | ODomain name => Done (Some [name], None)
  | OGroup (Some g) => Done (CLUSGroup_GetDomain g)
  | OGroup None | ORegistryConfig None => Panicked "nil pointer dereference"
  | OPolicyRule r => CLUSPolicyRule_GetDomain r f
  | OProcessProfile group cfg | OProcRule group cfg | OResponseRule group cfg
  | OFileMonitorProfile group cfg => InGroup_GetDomain group cfg f
  | OCustomCheck name | ODlpGroup name | OWafGroup name => Named_GetDomain name f
  | ORegistryConfig (Some r) => Done (CLUSRegistryConfig_GetDomain r)
  | OScanReport repository => Done (CLUSScanReport_GetDomain repository)
  | ORegistryImageSummary s => CLUSRegistryImageSummary_GetDomain s f
  end.
End GetDomain.
