(* ===== verification/NvRoles.v ===== *)
(** * Roles and their permissions

    The roles of controller/access/access.go: the table of permissions a user
    can choose from, the registry of reserved and custom roles, what a role is
    worth on the whole cluster and in a namespace, and the permissions a user
    ends up with.  controller/rest/custom_role.go and
    controller/cache/custom_role.go turn the permissions of a request into the
    bits of a role.  [GetRoleList] takes the read lock again while it holds it
    ([GetValidRoles] takes it too). *)

From Stdlib Require Import ZArith Lia Ascii.
From S2P Require Import Prelude GoLib NvCriteria NvAccessObj.

(** ** The permissions a user can choose from *)

Record RESTRolePermitOptionInternal := {
  opt_ID : string; opt_Value : Z; opt_SupportScope : Z; opt_ReadSupported : bool;
  opt_WriteSupported : bool; opt_ComplexPermits : list (Z * bool * bool) }.

Definition CONST_PERM_SUPPORT_GLOBAL := 0x1%Z.
Definition CONST_PERM_SUPPORT_DOMAIN := 0x2%Z.
Definition CONST_PERM_SUPPORT_BOTH := 0x3%Z.

(** [ComplexPermits] as value, read and write support of its parts. *)
Definition simple (id : string) (value scope : Z) (r w : bool) : RESTRolePermitOptionInternal :=
  {| opt_ID := id; opt_Value := value; opt_SupportScope := scope; opt_ReadSupported := r;
     opt_WriteSupported := w; opt_ComplexPermits := [] |}.

Definition complex (id : string) (value : Z) (r w : bool) (parts : list Z)
    : RESTRolePermitOptionInternal :=
  {| opt_ID := id; opt_Value := value; opt_SupportScope := CONST_PERM_SUPPORT_BOTH;
     opt_ReadSupported := r; opt_WriteSupported := w;
     opt_ComplexPermits := (fun v => (v, r, w)) <$> parts |}.

Definition PermissionOptions : list RESTRolePermitOptionInternal := [
  simple "config" PERM_SYSTEM_CONFIG CONST_PERM_SUPPORT_BOTH true true;
  simple "ibmsa" PERM_IBMSA CONST_PERM_SUPPORT_GLOBAL true true;
  simple "fed" PERM_FED CONST_PERM_SUPPORT_GLOBAL true true;
  simple "nv_resource" PERM_NV_RESOURCE CONST_PERM_SUPPORT_BOTH true true;
  complex "rt_scan" PERMS_RUNTIME_SCAN true true
    [PERM_RUNTIME_SCAN_BASIC; PERM_WORKLOAD_BASIC; PERM_INFRA_BASIC];
  simple "reg_scan" PERM_REG_SCAN CONST_PERM_SUPPORT_BOTH true true;
  simple "ci_scan" PERM_CICD_SCAN CONST_PERM_SUPPORT_GLOBAL false true;
  complex "rt_policy" PERMS_RUNTIME_POLICIES true true
    [PERM_GROUP_BASIC; PERM_NETWORK_POLICY_BASIC; PERM_SYSTEM_POLICY_BASIC; PERM_WORKLOAD_BASIC];
  simple "admctrl" PERM_ADM_CONTROL CONST_PERM_SUPPORT_GLOBAL true true;
  complex "compliance" PERMS_COMPLIANCE true true
    [PERM_COMPLIANCE_BASIC; PERM_WORKLOAD_BASIC; PERM_INFRA_BASIC];
  simple "audit_events" PERM_AUDIT_EVENTS CONST_PERM_SUPPORT_BOTH true false;
  complex "security_events" PERMS_SECURITY_EVENTS true false
    [PERM_SECURITY_EVENTS_BASIC; PERM_WORKLOAD_BASIC];
  simple "events" PERM_EVENTS CONST_PERM_SUPPORT_BOTH true false;
  simple "authentication" PERM_AUTHENTICATION CONST_PERM_SUPPORT_GLOBAL true true;
  simple "authorization" PERM_AUTHORIZATION CONST_PERM_SUPPORT_BOTH true true;
  simple "vulnerability" PERM_VULNERABILITY CONST_PERM_SUPPORT_GLOBAL true true ].

Definition HiddenPermissions : list string := ["ibmsa"; "fed"; "cloud"; "nv_resource"].

(** ** The registry of roles *)

Record CLUSUserRoleInternal := {
  ri_Name : string; ri_Comment : string; ri_Reserved : bool;
  ri_ReadPermits : Z; ri_WritePermits : Z }.
#[export] Instance CLUSUserRoleInternal_eq_dec : EqDecision CLUSUserRoleInternal.
Proof. solve_decision. Defined.

Definition UserRoleNone := "".
Definition UserRoleAdmin := "admin".
Definition UserRoleReader := "reader".
Definition UserRoleCIOps := "ciops".
Definition UserRoleIBMSA := "ibmsa".
Definition UserRoleImportStatus := "_hidden_import_status_#".
Definition UserRoleFedAdmin := "fedAdmin".
Definition UserRoleFedReader := "fedReader".
Definition FedRoleMaster := "master".
Definition AccessDomainGlobal := "".

(** The package variables. *)
Record roles := {
  hiddenRoles : gset string; visibleRoles : gset string;
  mappableServerDefaultRoles : gset string; mappableDomainRoles : gset string;
  allRoles : gmap string CLUSUserRoleInternal }.

Definition reserved_role (name comment : string) (r w : Z) : string * CLUSUserRoleInternal :=
  (name, {| ri_Name := name; ri_Comment := comment; ri_Reserved := true;
            ri_ReadPermits := r; ri_WritePermits := w |}).

Definition reservedRoles : list (string * CLUSUserRoleInternal) := [
  reserved_role UserRoleFedAdmin "Federated Administrator role" PERMS_FED_READ PERMS_FED_WRITE;
  reserved_role UserRoleFedReader "Federated View role" PERMS_FED_READ 0;
  reserved_role UserRoleAdmin "Global Administrator role" PERMS_CLUSTER_READ PERMS_CLUSTER_WRITE;
  reserved_role UserRoleReader "Global View role" PERMS_CLUSTER_READ 0;
  reserved_role UserRoleNone "None" 0 0;
  reserved_role UserRoleCIOps "CI Integration role" 0 PERM_CICD_SCAN;
  reserved_role UserRoleIBMSA "for IBM Security Advisor" PERM_IBMSA PERM_IBMSA;
  reserved_role UserRoleImportStatus "for reading import status" PERM_SYSTEM_CONFIG 0 ].

Definition roles0 : roles := {|
  hiddenRoles := {[UserRoleFedAdmin; UserRoleFedReader; UserRoleIBMSA; UserRoleImportStatus]};
  visibleRoles := {[UserRoleAdmin; UserRoleReader; UserRoleNone; UserRoleCIOps]};
  mappableServerDefaultRoles := {[UserRoleAdmin; UserRoleReader; UserRoleCIOps; UserRoleNone]};
  mappableDomainRoles := {[UserRoleAdmin; UserRoleReader; UserRoleCIOps]};
  allRoles := list_to_map reservedRoles |}.

Inductive role_usage := CONST_VISIBLE_USER_ROLE | CONST_VISIBLE_DOMAIN_ROLE | CONST_MAPPABLE_SERVER_DEFAULT_ROLE.

Definition usage_set (s : roles) (usage : role_usage) : gset string :=
  match usage with
  | CONST_VISIBLE_USER_ROLE => visibleRoles s
  | CONST_VISIBLE_DOMAIN_ROLE => mappableDomainRoles s
  | CONST_MAPPABLE_SERVER_DEFAULT_ROLE => mappableServerDefaultRoles s
  end.

Definition IsValidRole (s : roles) (role : string) (usage : role_usage) : bool :=
  bool_decide (role ∈ usage_set s usage).

(** Go's order on strings compares bytes. *)
Fixpoint string_less (a b : string) : bool :=
  match a, b with
  | EmptyString, String _ _ => true
  | _, EmptyString => false
  | String c a', String d b' =>
      (N_of_ascii c <? N_of_ascii d)%N || (bool_decide (c = d) && string_less a' b')
  end.

(** The reserved roles lead, in a fixed order; the others are sorted.
    [rest] is the order [ToStringSlice] yields. *)
Definition GetValidRoles (rest : gset string -> list string) (s : roles) (usage : role_usage)
    : list string :=
  let rolesSet := usage_set s usage in
  let lead := [UserRoleFedAdmin; UserRoleFedReader; UserRoleAdmin; UserRoleReader; UserRoleCIOps;
               UserRoleNone] in
  filter (fun r => r ∈ rolesSet) lead ++ sort_slice string_less (rest (rolesSet ∖ list_to_set lead)).

(** A role that exists is changed in place, whether it is reserved or not. *)
Definition AddRole (name : string) (role : CLUSUserRoleInternal) (s : roles) : roles :=
  {| hiddenRoles := hiddenRoles s;
     visibleRoles := {[name]} ∪ visibleRoles s;
     mappableServerDefaultRoles := {[name]} ∪ mappableServerDefaultRoles s;
     mappableDomainRoles := {[name]} ∪ mappableDomainRoles s;
     allRoles :=
       match allRoles s !! name with
       | Some r =>
           <[name := {| ri_Name := ri_Name r; ri_Comment := ri_Comment role;
                        ri_Reserved := ri_Reserved r; ri_ReadPermits := ri_ReadPermits role;
                        ri_WritePermits := ri_WritePermits role |}]> (allRoles s)
       | None => <[name := role]> (allRoles s)
       end |}.

Definition DeleteRole (name : string) (s : roles) : roles :=
  match allRoles s !! name with
  | Some role =>
      if negb (ri_Reserved role) then
        {| hiddenRoles := hiddenRoles s;
           visibleRoles := visibleRoles s ∖ {[name]};
           mappableServerDefaultRoles := mappableServerDefaultRoles s ∖ {[name]};
           mappableDomainRoles := mappableDomainRoles s ∖ {[name]};
           allRoles := delete name (allRoles s) |}
      else s
  | None => s
  end.

Definition UpdateUserRoleForFedRoleChange (fedRole : string) (s : roles) : roles :=
  let fed : gset string := {[UserRoleFedAdmin; UserRoleFedReader]} in
  if bool_decide (fedRole = FedRoleMaster) then
    {| hiddenRoles := hiddenRoles s ∖ fed; visibleRoles := fed ∪ visibleRoles s;
       mappableServerDefaultRoles := mappableServerDefaultRoles s;
       mappableDomainRoles := mappableDomainRoles s; allRoles := allRoles s |}
  else
    {| hiddenRoles := fed ∪ hiddenRoles s; visibleRoles := visibleRoles s ∖ fed;
       mappableServerDefaultRoles := mappableServerDefaultRoles s;
       mappableDomainRoles := mappableDomainRoles s; allRoles := allRoles s |}.

Record RESTRolePermission := { rp_ID : string; rp_Read : bool; rp_Write : bool }.
#[export] Instance RESTRolePermission_eq_dec : EqDecision RESTRolePermission.
Proof. solve_decision. Defined.

Record RESTUserRole := {
  rr_Name : string; rr_Comment : string; rr_Reserved : bool;
  rr_Permissions : list RESTRolePermission }.

(** The permissions of [opts] that a pair of values holds entirely. *)
Definition held_permissions (read write : Z) (opts : list RESTRolePermitOptionInternal)
    : list RESTRolePermission :=
  omap (fun o =>
    let r := opt_ReadSupported o && (Z.land read (opt_Value o) =? opt_Value o)%Z in
    let w := opt_WriteSupported o && (Z.land write (opt_Value o) =? opt_Value o)%Z in
    if r || w then Some {| rp_ID := opt_ID o; rp_Read := r; rp_Write := w |} else None) opts.

Definition visible_options : list RESTRolePermitOptionInternal :=
  filter (fun o => opt_ID o ∉ HiddenPermissions) PermissionOptions.

Definition clusUserRoleToREST (name : string) (r : CLUSUserRoleInternal) : RESTUserRole :=
  {| rr_Name := name; rr_Comment := ri_Comment r; rr_Reserved := ri_Reserved r;
     rr_Permissions :=
       if bool_decide (name ∈ [UserRoleFedAdmin; UserRoleFedReader; UserRoleAdmin; UserRoleReader])
       then []
       else held_permissions (ri_ReadPermits r) (ri_WritePermits r) visible_options |}.

Definition GetRoleList (rest : gset string -> list string) (s : roles) : list RESTUserRole :=
  omap (fun name =>
    if bool_decide (name = UserRoleNone) then None
    else clusUserRoleToREST name <$> allRoles s !! name)
    (GetValidRoles rest s CONST_VISIBLE_USER_ROLE).

Definition GetRoleDetails (s : roles) (name : string) : option RESTUserRole :=
  if bool_decide (name ∈ visibleRoles s) then clusUserRoleToREST name <$> allRoles s !! name
  else None.

Definition GetReservedRoleNames (s : roles) : gset string :=
  list_to_set (omap (fun r => if ri_Reserved r then Some (ri_Name r) else None)
                 (map_to_list (allRoles s)).*2).

(** The permissions of a role on a domain. *)
Definition getRolePermitValues (s : roles) (roleName domain : string) : Z * Z :=
  match allRoles s !! roleName with
  | None => (0, 0)%Z
  | Some role =>
      if bool_decide (roleName = UserRoleIBMSA) || bool_decide (roleName = UserRoleImportStatus) then
        if bool_decide (domain = AccessDomainGlobal) then (ri_ReadPermits role, ri_WritePermits role)
        else (0, 0)%Z
      else if bool_decide (domain = AccessDomainGlobal) then
        let roleReadPermits := Z.land (ri_ReadPermits role) PERMS_FED_READ in
        let roleReadPermits :=
          if negb (ri_Reserved role) && (roleReadPermits =? PERMS_GLOBAL_CONFIGURABLE_READ)%Z
          then PERMS_CLUSTER_READ else roleReadPermits in
        (roleReadPermits, Z.land (ri_WritePermits role) PERMS_FED_WRITE)
      else
        (Z.land (ri_ReadPermits role) PERMS_DOMAIN_READ, Z.land (ri_WritePermits role) PERMS_DOMAIN_WRITE)
  end.

Definition getPermitValues (permissions : NvPermissions) (domain : string) : Z * Z :=
  if bool_decide (domain = AccessDomainGlobal)
  then (Z.land (ReadValue permissions) PERMS_FED_READ, Z.land (WriteValue permissions) PERMS_FED_WRITE)
  else (Z.land (ReadValue permissions) PERMS_DOMAIN_READ,
        Z.land (WriteValue permissions) PERMS_DOMAIN_WRITE).

(** [rwPermit] is a pair of read and write. *)
Definition getRestRolePermitValues (s : roles) (roleName domain : string)
    : gmap string (bool * bool) :=
  match allRoles s !! roleName with
  | None => ∅
  | Some role =>
      let global := bool_decide (domain = AccessDomainGlobal) in
      let maskR := if global then PERMS_FED_READ else PERMS_DOMAIN_READ in
      let maskW := if global then PERMS_FED_WRITE else PERMS_DOMAIN_WRITE in
      let readPermits := Z.land (ri_ReadPermits role) maskR in
      let writePermits := Z.land (ri_WritePermits role) maskW in
      foldl (fun rolePermits o =>
        let '(r0, w0) := default (false, false) (rolePermits !! opt_ID o) in
        let optionReadValue := Z.land (opt_Value o) maskR in
        let optionWriteValue := Z.land (opt_Value o) maskW in
        let r := r0 || (negb (optionReadValue =? 0)%Z && opt_ReadSupported o &&
                        (Z.land readPermits optionReadValue =? optionReadValue)%Z) in
        let w := w0 || (negb (optionWriteValue =? 0)%Z && opt_WriteSupported o &&
                        (Z.land writePermits optionWriteValue =? optionWriteValue)%Z) in
        if r || w then <[opt_ID o := (r, w)]> rolePermits else rolePermits)
      (∅ : gmap string (bool * bool)) PermissionOptions
  end.

Definition GetTopLevelPermitsList (supportScope : Z) (value : NvPermissions)
    : list RESTRolePermission :=
  if negb (IsEmpty value) then
    held_permissions (ReadValue value) (WriteValue value)
      (filter (fun o => (supportScope =? Z.land (opt_SupportScope o) supportScope)%Z = true)
         PermissionOptions)
  else [].

Definition rw_or (a b : bool * bool) : bool * bool := (a.1 || b.1, a.2 || b.2).

(** The map of all the permissions of a domain; the range over [rolePermits]
    writes each of its keys once, so its order does not matter. *)
Definition merge_permits (rolePermits allPermits : gmap string (bool * bool))
    : gmap string (bool * bool) :=
  if bool_decide (rolePermits = ∅) then allPermits
  else if bool_decide (allPermits = ∅) then rolePermits
  else union_with (fun a b => Some (rw_or b a))
         (filter (fun kv => kv.2.1 || kv.2.2 = true) rolePermits) allPermits.

Definition getDomainPermissions (s : roles) (domain : string) (rs : list string)
    (extraPermits : list NvPermissions) : gmap string (bool * bool) :=
  let allPermits :=
    foldl (fun acc role =>
      if negb (bool_decide (role = UserRoleNone))
      then merge_permits (getRestRolePermitValues s role domain) acc else acc)
    (∅ : gmap string (bool * bool)) rs in
  let dExtraPermits := foldl Union NvPermissions0 extraPermits in
  let scope := if negb (bool_decide (domain = "")) then CONST_PERM_SUPPORT_DOMAIN
               else CONST_PERM_SUPPORT_GLOBAL in
  foldl (fun acc p =>
    if rp_Read p || rp_Write p then
      <[rp_ID p := rw_or (default (false, false) (acc !! rp_ID p)) (rp_Read p, rp_Write p)]> acc
    else acc)
  allPermits (GetTopLevelPermitsList scope dExtraPermits).

Record CLUSPermitsAssigned := { pa_Permits : NvPermissions; pa_Domains : list string }.

Definition append_at {A} (m : gmap string (list A)) (d : string) (x : A) : gmap string (list A) :=
  <[d := default [] (m !! d) ++ [x]]> m.

(** Add [x] under every domain of [ds] but the global one. *)
Definition append_domains {A} (x : A) (ds : list string) (m : gmap string (list A))
    : gmap string (list A) :=
  foldl (fun m d => if negb (bool_decide (d = AccessDomainGlobal)) then append_at m d x else m) m ds.

(** The permissions of a user on the cluster and in each namespace; the lists
    the code returns are the entries of these maps, in the order of a range.
    [ord] is the order of the range over [roleDomains]. *)
Definition GetUserPermissions (s : roles) (role : string) (ord : list (string * list string))
    (extraPermits : NvPermissions) (extraPermitsDomains : list CLUSPermitsAssigned)
    : option (gmap string (bool * bool) * gmap string (gmap string (bool * bool))) :=
  let gPermits := getDomainPermissions s "" [role] [extraPermits] in
  let domainRoles : gmap string (list string) :=
    foldl (fun m rd => if bool_decide (rd.1 = UserRoleNone) then m else append_domains rd.1 rd.2 m)
      ∅ ord in
  let domainPermits : gmap string (list NvPermissions) :=
    foldl (fun m pd => if IsEmpty (pa_Permits pd) || bool_decide (pa_Domains pd = []) then m
                       else append_domains (pa_Permits pd) (pa_Domains pd) m)
      ∅ extraPermitsDomains in
  let allDomains : gset string := dom domainRoles ∪ dom domainPermits in
  let dPermits : gmap string (gmap string (bool * bool)) :=
    list_to_map (omap (fun d =>
      let m := getDomainPermissions s d (default [] (domainRoles !! d))
                 (default [] (domainPermits !! d)) in
      if bool_decide (m = ∅) then None else Some (d, m)) (elements allDomains)) in
  if bool_decide (gPermits = ∅) && bool_decide (dPermits = ∅) then None
  else Some (gPermits, dPermits).

(** ** Custom roles *)

(** [CLUSRolePermission] has the fields of [RESTRolePermission]. *)
Record CLUSUserRole := {
  ur_Name : string; ur_Comment : string; ur_Reserved : bool;
  ur_Permissions : list RESTRolePermission }.

(** The option of an id; in the map of options a later entry of the same id
    would win, and no two have one. *)
Definition option_of (id : string) : option RESTRolePermitOptionInternal :=
  list_find (fun o => opt_ID o = id) PermissionOptions ≫= fun io => Some io.2.

(** controller/rest/custom_role.go: the permissions of a request, validated;
    an entry may be null. *)
Fixpoint rest_permissions_loop (ps : list (option RESTRolePermission)) (pIDs : gset string)
    (permissions : list RESTRolePermission) : string + list RESTRolePermission :=
  match ps with
  | [] => inr permissions
  | None :: ps' => rest_permissions_loop ps' pIDs permissions
  | Some p :: ps' =>
      if bool_decide (rp_ID p ∈ HiddenPermissions) then rest_permissions_loop ps' pIDs permissions
      else if bool_decide (rp_ID p ∈ pIDs) then inl ("Duplicate permission " +:+ rp_ID p)
      else
        match option_of (rp_ID p) with
        | None => inl ("invalid permission " +:+ rp_ID p)
        | Some o =>
            if rp_Read p && negb (opt_ReadSupported o) then inl ("invalid read permission " +:+ rp_ID p)
            else if rp_Write p && negb (opt_WriteSupported o) then
              inl ("invalid write permission " +:+ rp_ID p)
            else
              let permission :=
                {| rp_ID := rp_ID p;
                   rp_Read := rp_Read p || (rp_Write p && opt_ReadSupported o);
                   rp_Write := rp_Write p |} in
              rest_permissions_loop ps' ({[rp_ID p]} ∪ pIDs)
                (if rp_Read permission || rp_Write permission
                 then permissions ++ [permission] else permissions)
        end
  end.

Definition restPermissionsToCLUS (restPermissions : list (option RESTRolePermission))
    : string + list RESTRolePermission :=
  match rest_permissions_loop restPermissions ∅ [] with
  | inl e => inl e
  | inr [] => inl "No Permission configured"
  | inr ps => inr ps
  end.

Definition restUserRoleToCLUS (name comment : string) (ps : list (option RESTRolePermission))
    : string + CLUSUserRole :=
  match restPermissionsToCLUS ps with
  | inl e => inl e
  | inr permissions =>
      inr {| ur_Name := name; ur_Comment := comment; ur_Reserved := false;
             ur_Permissions := permissions |}
  end.

(** controller/cache/custom_role.go: the bits of a permission. *)
Definition option_permits (o : RESTRolePermitOptionInternal) (read write : bool) : Z * Z :=
  if bool_decide (opt_ComplexPermits o = []) then
    (if read && opt_ReadSupported o then opt_Value o else 0,
     if write && opt_WriteSupported o then opt_Value o else 0)%Z
  else
    foldl (fun '(r, w) '(v, rs, ws) =>
      (if read && rs then Z.lor r v else r, if write && ws then Z.lor w v else w))
      (0, 0)%Z (opt_ComplexPermits o).

Definition parseUserRolePermissions (r : CLUSUserRole) : CLUSUserRoleInternal :=
  let '(readPermits, writePermits) :=
    foldl (fun '(rv, wv) p =>
      match option_of (rp_ID p) with
      | None => (rv, wv)
      | Some o =>
          if bool_decide (rp_ID p ∈ HiddenPermissions) then (rv, wv)
          else let '(r', w') := option_permits o (rp_Read p) (rp_Write p) in
               (Z.lor rv r', Z.lor wv w')
      end) (0, 0)%Z (ur_Permissions r) in
  {| ri_Name := ur_Name r; ri_Comment := ur_Comment r; ri_Reserved := ur_Reserved r;
     ri_ReadPermits := readPermits; ri_WritePermits := writePermits |}.

(** ** What a custom role is worth *)

(** The bits of a permission, in one formula for simple and complex options. *)
Definition permit_bits (p : RESTRolePermission) : Z * Z :=
  match option_of (rp_ID p) with
  | Some o =>
      if bool_decide (rp_ID p ∈ HiddenPermissions) then (0, 0)%Z
      else (if rp_Read p && opt_ReadSupported o then opt_Value o else 0,
            if rp_Write p && opt_WriteSupported o then opt_Value o else 0)%Z
  | None => (0, 0)%Z
  end.

Lemma option_permits_bits o r w :
  o ∈ PermissionOptions ->
  option_permits o r w
  = (if r && opt_ReadSupported o then opt_Value o else 0,
     if w && opt_WriteSupported o then opt_Value o else 0)%Z.
Proof.
  intros Ho. assert (Hall : Forall (fun o => forall r w, option_permits o r w
    = (if r && opt_ReadSupported o then opt_Value o else 0,
       if w && opt_WriteSupported o then opt_Value o else 0)%Z) PermissionOptions).
  { repeat (apply Forall_cons; split; [intros [] []; by vm_compute|]). by apply Forall_nil. }
  rewrite Forall_forall in Hall. by apply Hall.
Qed.

Lemma option_of_spec id o : option_of id = Some o <-> o ∈ PermissionOptions /\ opt_ID o = id.
Proof.
  split.
  - unfold option_of. destruct (list_find _ _) as [[i o']|] eqn:E; simpl; [|done].
    intros [= <-]. apply list_find_Some in E as (Hi & <- & _).
    split; [|done]. by eapply list_elem_of_lookup_2.
  - intros [Ho <-].
    assert (Hall : Forall (fun o => option_of (opt_ID o) = Some o) PermissionOptions)
      by (repeat (apply Forall_cons; split; [by vm_compute|]); by apply Forall_nil).
    rewrite Forall_forall in Hall. by apply Hall.
Qed.

Definition lor_all (l : list Z) : Z := foldr Z.lor 0%Z l.

Lemma testbit_lor_all l n : Z.testbit (lor_all l) n = existsb (fun z => Z.testbit z n) l.
Proof.
  induction l as [|z l IH]; simpl; [apply Z.testbit_0_l|]. by rewrite Z.lor_spec, IH.
Qed.

Lemma parse_bits r :
  ri_ReadPermits (parseUserRolePermissions r) = lor_all ((permit_bits <$> ur_Permissions r).*1) /\
  ri_WritePermits (parseUserRolePermissions r) = lor_all ((permit_bits <$> ur_Permissions r).*2).
Proof.
  unfold parseUserRolePermissions.
  set (f := fun '(rv, wv) p => _).
  assert (Hf : forall ps rv wv, foldl f (rv, wv) ps
    = (Z.lor rv (lor_all (permit_bits <$> ps).*1), Z.lor wv (lor_all (permit_bits <$> ps).*2))).
  { induction ps as [|p ps IH]; intros rv wv; [simpl; by rewrite !Z.lor_0_r|].
    change (foldl f (rv, wv) (p :: ps)) with (foldl f (f (rv, wv) p) ps).
    assert (Hp : f (rv, wv) p = (Z.lor rv (permit_bits p).1, Z.lor wv (permit_bits p).2)).
    { unfold f, permit_bits. destruct (option_of (rp_ID p)) as [o|] eqn:E;
        [|by rewrite !Z.lor_0_r].
      case_bool_decide; [by rewrite !Z.lor_0_r|].
      apply option_of_spec in E as [Ho _]. by rewrite option_permits_bits. }
    rewrite Hp, IH. simpl. by rewrite !Z.lor_assoc. }
  rewrite Hf. done.
Qed.

(** A mask of [l] covers what each of its members covers. *)
Lemma lor_all_masked l m :
  Forall (fun z => Z.land z m = z) l -> Z.land (lor_all l) m = lor_all l.
Proof.
  induction 1 as [|z l Hz Hl IH]; simpl; [done|].
  by rewrite Z.land_lor_distr_l, Hz, IH.
Qed.

Lemma permit_bits_configurable p :
  Z.land (permit_bits p).1 PERMS_GLOBAL_CONFIGURABLE_READ = (permit_bits p).1 /\
  Z.land (permit_bits p).2 PERMS_GLOBAL_CONFIGURABLE_WRITE = (permit_bits p).2.
Proof.
  unfold permit_bits. destruct (option_of (rp_ID p)) as [o|] eqn:E; [|done].
  case_bool_decide as Hh; [done|]. apply option_of_spec in E as [Ho Hid]. rewrite <- Hid in Hh.
  assert (Hall : Forall (fun o => opt_ID o ∉ HiddenPermissions -> forall r w : bool,
    Z.land (if r && opt_ReadSupported o then opt_Value o else 0) PERMS_GLOBAL_CONFIGURABLE_READ
      = (if r && opt_ReadSupported o then opt_Value o else 0)%Z /\
    Z.land (if w && opt_WriteSupported o then opt_Value o else 0) PERMS_GLOBAL_CONFIGURABLE_WRITE
      = (if w && opt_WriteSupported o then opt_Value o else 0)%Z) PermissionOptions).
  { repeat (apply Forall_cons; split;
      [first [intros Hn; exfalso; apply Hn; vm_decide | intros _ [] []; by vm_compute]|]).
    by apply Forall_nil. }
  rewrite Forall_forall in Hall. by apply Hall.
Qed.

(** Whatever its permissions say, a role built from them has none of the
    hidden ones: it holds configurable permissions only. *)
Lemma parse_configurable r :
  let ri := parseUserRolePermissions r in
  Z.land (ri_ReadPermits ri) PERMS_GLOBAL_CONFIGURABLE_READ = ri_ReadPermits ri /\
  Z.land (ri_WritePermits ri) PERMS_GLOBAL_CONFIGURABLE_WRITE = ri_WritePermits ri.
Proof.
  simpl. destruct (parse_bits r) as [-> ->].
  split; apply lor_all_masked; rewrite !Forall_fmap; apply Forall_forall; intros p _;
    apply permit_bits_configurable.
Qed.

(** Every visible permission has a bit that no other one has. *)
Definition own_bit (id : string) : Z :=
  default (-1)%Z ((list_to_map [
    ("config", 17); ("rt_scan", 3); ("reg_scan", 4); ("ci_scan", 5); ("rt_policy", 9);
    ("admctrl", 10); ("compliance", 11); ("audit_events", 12); ("security_events", 13);
    ("events", 14); ("authentication", 15); ("authorization", 16); ("vulnerability", 20)]%Z
    : gmap string Z) !! id).

Lemma own_bit_unique o o' :
  o ∈ visible_options -> o' ∈ visible_options ->
  Z.testbit (opt_Value o') (own_bit (opt_ID o)) = bool_decide (opt_ID o' = opt_ID o).
Proof.
  intros Ho Ho'.
  assert (Hall : Forall (fun o => Forall (fun o' =>
    Z.testbit (opt_Value o') (own_bit (opt_ID o)) = bool_decide (opt_ID o' = opt_ID o))
    visible_options) visible_options) by vm_decide.
  rewrite Forall_forall in Hall. specialize (Hall o Ho). rewrite Forall_forall in Hall. by apply Hall.
Qed.

Lemma visible_option_of o : o ∈ visible_options ->
  option_of (opt_ID o) = Some o /\ opt_ID o ∉ HiddenPermissions.
Proof.
  unfold visible_options. rewrite list_elem_of_filter. intros [Hh Ho].
  split; [|done]. by apply option_of_spec.
Qed.

(** What the validation of a request leaves. *)
Definition valid_permission (p : RESTRolePermission) : Prop :=
  exists o, o ∈ visible_options /\ opt_ID o = rp_ID p /\
    (rp_Read p = true -> opt_ReadSupported o = true) /\
    (rp_Write p = true -> opt_WriteSupported o = true /\
                          (opt_ReadSupported o = true -> rp_Read p = true)) /\
    rp_Read p || rp_Write p = true.

Definition valid_permissions (ps : list RESTRolePermission) : Prop :=
  NoDup (rp_ID <$> ps) /\ Forall valid_permission ps.

Lemma rest_permissions_loop_valid ps pIDs acc res :
  valid_permissions acc -> (forall p, p ∈ acc -> rp_ID p ∈ pIDs) ->
  rest_permissions_loop ps pIDs acc = inr res -> valid_permissions res.
Proof.
  revert pIDs acc. induction ps as [|[p|] ps IH]; intros pIDs acc Hv Hin; simpl.
  - by intros [= <-].
  - case_bool_decide as Hh; [by apply IH|]. case_bool_decide as Hd; [done|].
    destruct (option_of (rp_ID p)) as [o|] eqn:Ho; [|done].
    destruct (rp_Read p && negb (opt_ReadSupported o)) eqn:Hr; [done|].
    destruct (rp_Write p && negb (opt_WriteSupported o)) eqn:Hw; [done|].
    apply option_of_spec in Ho as [Ho Hid]. apply IH.
    + destruct (_ || _) eqn:Hrw; [|done]. destruct Hv as [Hnd Hall]. split.
      * rewrite fmap_app. apply NoDup_app. split_and!; [done| |apply NoDup_singleton].
        intros id (q & -> & Hq)%list_elem_of_fmap. apply Hin in Hq. simpl.
        rewrite list_elem_of_singleton. congruence.
      * apply Forall_app. split; [done|]. apply Forall_singleton.
        exists o. unfold visible_options. rewrite list_elem_of_filter, Hid. simpl in *.
        destruct (rp_Read p), (rp_Write p), (opt_ReadSupported o), (opt_WriteSupported o);
          simpl in *; split_and!; try done; naive_solver.
    + intros q Hq. destruct (_ || _); [|set_solver].
      apply elem_of_app in Hq as [Hq|Hq%list_elem_of_singleton]; [set_solver|].
      subst q. set_solver.
  - by apply IH.
Qed.

Lemma restPermissionsToCLUS_valid ps res :
  restPermissionsToCLUS ps = inr res -> valid_permissions res.
Proof.
  unfold restPermissionsToCLUS. destruct (rest_permissions_loop ps ∅ []) as [|l] eqn:E; [done|].
  apply rest_permissions_loop_valid in E; [|split; [apply NoDup_nil_2|by apply Forall_nil]|set_solver].
  destruct l; [done|]. by intros [= <-].
Qed.

(** A permission is held exactly when it was granted: [sel] is read or write. *)
Lemma granted_held (sel : RESTRolePermission -> bool) (g : RESTRolePermission -> Z) ps o :
  Forall valid_permission ps -> o ∈ visible_options ->
  (forall p, p ∈ ps -> g p = if sel p then default 0 (opt_Value <$> option_of (rp_ID p)) else 0)%Z ->
  (Z.land (lor_all (g <$> ps)) (opt_Value o) =? opt_Value o)%Z
  = existsb (fun p => bool_decide (rp_ID p = opt_ID o) && sel p) ps.
Proof.
  intros Hall Ho Hg. rewrite Forall_forall in Hall. apply eq_iff_eq_true.
  rewrite Z.eqb_eq, existsb_exists. split.
  - intros Heq. assert (Hb : Z.testbit (lor_all (g <$> ps)) (own_bit (opt_ID o)) = true).
    { apply (f_equal (fun z => Z.testbit z (own_bit (opt_ID o)))) in Heq.
      rewrite Z.land_spec, (own_bit_unique o o), bool_decide_eq_true_2, andb_true_r in Heq by done.
      done. }
    rewrite testbit_lor_all in Hb. apply existsb_exists in Hb as (z & Hz & Hb).
    apply list_elem_of_In, list_elem_of_fmap in Hz as (p & -> & Hp).
    exists p. split; [by apply list_elem_of_In|]. rewrite Hg in Hb by done.
    destruct (sel p); [|by rewrite Z.testbit_0_l in Hb].
    destruct (Hall p Hp) as (o' & Ho' & Hid & _). rewrite <- Hid in Hb |- *.
    destruct (visible_option_of o' Ho') as [Hof _]. rewrite Hof in Hb. simpl in Hb.
    rewrite own_bit_unique in Hb by done. by rewrite Hb.
  - intros (p & Hp & [Hid%bool_decide_eq_true Hs]%andb_true_iff).
    apply list_elem_of_In in Hp. apply Z.bits_inj. intros n. rewrite Z.land_spec, testbit_lor_all.
    destruct (Z.testbit (opt_Value o) n) eqn:Hn; [|by rewrite andb_false_r].
    rewrite andb_true_r. apply existsb_exists. exists (g p).
    split; [by apply list_elem_of_In, list_elem_of_fmap_2|].
    rewrite Hg, Hs, Hid by done. destruct (visible_option_of o Ho) as [-> _]. done.
Qed.

Lemma permit_bits_valid p :
  valid_permission p ->
  permit_bits p = (if rp_Read p then default 0 (opt_Value <$> option_of (rp_ID p)) else 0,
                   if rp_Write p then default 0 (opt_Value <$> option_of (rp_ID p)) else 0)%Z.
Proof.
  intros (o & Ho & Hid & Hr & Hw & _). unfold permit_bits.
  destruct (visible_option_of o Ho) as [Hof Hh]. rewrite <- Hid, Hof.
  rewrite bool_decide_eq_false_2 by done. simpl.
  destruct (rp_Read p), (rp_Write p); simpl; rewrite ?Hr by done;
    try (destruct Hw as [-> _]; [done|]); done.
Qed.

Lemma visible_ids_NoDup : NoDup (opt_ID <$> visible_options).
Proof. vm_decide. Qed.

(** An option is held exactly when a permission of the role grants it. *)
Lemma parse_held r o :
  valid_permissions (ur_Permissions r) -> o ∈ visible_options ->
  let ri := parseUserRolePermissions r in
  (Z.land (ri_ReadPermits ri) (opt_Value o) =? opt_Value o)%Z
  = existsb (fun p => bool_decide (rp_ID p = opt_ID o) && rp_Read p) (ur_Permissions r) /\
  (Z.land (ri_WritePermits ri) (opt_Value o) =? opt_Value o)%Z
  = existsb (fun p => bool_decide (rp_ID p = opt_ID o) && rp_Write p) (ur_Permissions r).
Proof.
  intros [Hnd Hall] Ho ri. unfold ri. destruct (parse_bits r) as [-> ->].
  rewrite <- !list_fmap_compose. rewrite Forall_forall in Hall.
  split; apply granted_held; try done; try (by apply Forall_forall);
    intros q Hq; simpl; rewrite permit_bits_valid by auto; done.
Qed.

(** Among permissions with distinct identifiers the one of [q] is [q]. *)
Lemma existsb_own_id ps q (sel : RESTRolePermission -> bool) :
  NoDup (rp_ID <$> ps) -> q ∈ ps ->
  existsb (fun p => bool_decide (rp_ID p = rp_ID q) && sel p) ps = sel q.
Proof.
  intros Hnd Hq. apply eq_iff_eq_true. rewrite existsb_exists. split.
  - intros (p' & Hp'%list_elem_of_In & [Hid%bool_decide_eq_true Hs]%andb_true_iff).
    assert (p' = q) as <-; [|done].
    apply list_elem_of_lookup in Hp' as [i Hi]. apply list_elem_of_lookup in Hq as [j Hj].
    assert (i = j) as ->; [|congruence].
    apply (NoDup_lookup (rp_ID <$> ps) i j (rp_ID q)); [done|..];
      rewrite list_lookup_fmap, ?Hi, ?Hj; simpl; congruence.
  - intros Hs. exists q. rewrite bool_decide_eq_true_2 by done. split; [by apply list_elem_of_In|done].
Qed.

(** The permissions shown for a role built from valid ones. *)
Lemma held_permissions_valid r p :
  valid_permissions (ur_Permissions r) ->
  let ri := parseUserRolePermissions r in
  p ∈ held_permissions (ri_ReadPermits ri) (ri_WritePermits ri) visible_options <->
  p ∈ ur_Permissions r.
Proof.
  intros Hv ri. assert (Hheld := fun o => parse_held r o Hv). fold ri in Hheld.
  destruct Hv as [Hnd Hall].
  assert (Hone := fun q sel => existsb_own_id (ur_Permissions r) q sel Hnd).
  unfold held_permissions. rewrite list_elem_of_omap. split.
  - intros (o & Ho & Hp). destruct (Hheld o Ho) as [HR HW]. rewrite HR, HW in Hp.
    destruct (existsb (fun p => bool_decide (rp_ID p = opt_ID o)) (ur_Permissions r)) eqn:Hex.
    + apply existsb_exists in Hex as (q & Hq%list_elem_of_In & Hid%bool_decide_eq_true).
      rewrite <- Hid, !Hone in Hp by done.
      rewrite Forall_forall in Hall. destruct (Hall q Hq) as (o' & Ho' & Hid' & Hr & Hw & Hrw).
      destruct (visible_option_of o Ho) as [Hof _], (visible_option_of o' Ho') as [Hof' _].
      assert (o' = o) as -> by congruence.
      assert (p = q) as ->; [|done].
      destruct q as [qid [] []]; simpl in *; rewrite ?Hr in Hp by done;
        try (destruct Hw as [Hw _]; [done|]; rewrite Hw in Hp); simpl in Hp;
        rewrite ?andb_false_r in Hp; simpl in Hp; congruence.
    + assert (Hn : forall sel, existsb (fun p => bool_decide (rp_ID p = opt_ID o) && sel p)
        (ur_Permissions r) = false).
      { intros sel. apply not_true_iff_false. rewrite existsb_exists.
        intros (q & Hq & [Hid _]%andb_true_iff). apply not_true_iff_false in Hex. apply Hex.
        apply existsb_exists. by exists q. }
      by rewrite !Hn, !andb_false_r in Hp.
  - intros Hp. rewrite Forall_forall in Hall.
    destruct (Hall p Hp) as (o & Ho & Hid & Hr & Hw & Hrw). exists o. split; [done|].
    destruct (Hheld o Ho) as [-> ->]. rewrite Hid, !Hone by done.
    destruct p as [pid [] []]; simpl in *; rewrite ?Hr by done;
      try (destruct Hw as [-> _]; [done|]); simpl; rewrite ?andb_false_r; done.
Qed.

Lemma held_permissions_NoDup r w : NoDup (rp_ID <$> held_permissions r w visible_options).
Proof.
  pose proof visible_ids_NoDup as Hnd. unfold held_permissions.
  induction visible_options as [|o l IH]; simpl; [apply NoDup_nil_2|].
  simpl in Hnd. apply NoDup_cons in Hnd as [Hn Hnd]. specialize (IH Hnd).
  destruct (_ || _); [|done]. simpl. apply NoDup_cons. split; [|done].
  intros (p & Hid & (o' & Ho' & Hp)%list_elem_of_omap)%list_elem_of_fmap. apply Hn.
  destruct (_ || _) in Hp; [|done]. injection Hp as <-. simpl in Hid. rewrite Hid.
  by apply list_elem_of_fmap_2.
Qed.

(** *** What a request asks for *)

(** The entries of a request that are looked at. *)
Definition asked (ps : list (option RESTRolePermission)) : list RESTRolePermission :=
  omap (fun p => p ≫= fun p => if decide (rp_ID p ∈ HiddenPermissions) then None else Some p) ps.

Definition supported (p : RESTRolePermission) : Prop :=
  exists o, option_of (rp_ID p) = Some o /\
    (rp_Read p = true -> opt_ReadSupported o = true) /\ (rp_Write p = true -> opt_WriteSupported o = true).

(** To write is to read, where reading is supported; to do neither is no
    permission. *)
Definition granted (p : RESTRolePermission) : option RESTRolePermission :=
  let read := rp_Read p || (rp_Write p && from_option opt_ReadSupported false (option_of (rp_ID p))) in
  if read || rp_Write p then Some {| rp_ID := rp_ID p; rp_Read := read; rp_Write := rp_Write p |} else None.

Definition requested (ps : list (option RESTRolePermission)) : list RESTRolePermission := omap granted (asked ps).

Definition acceptable (ps : list (option RESTRolePermission)) : Prop :=
  NoDup (rp_ID <$> asked ps) /\ Forall supported (asked ps) /\ requested ps <> [].

(** The same, when the permissions of [pIDs] were named already. *)
Definition loop_ok (ps : list (option RESTRolePermission)) (pIDs : gset string) : Prop :=
  NoDup (rp_ID <$> asked ps) /\ Forall (fun p => rp_ID p ∉ pIDs) (asked ps) /\ Forall supported (asked ps).

Lemma asked_cons p ps : rp_ID p ∉ HiddenPermissions -> asked (Some p :: ps) = p :: asked ps.
Proof. intros Hh. unfold asked. cbn [omap list_omap mbind option_bind]. by rewrite decide_False. Qed.

Lemma loop_ok_cons p ps pIDs :
  rp_ID p ∉ HiddenPermissions ->
  loop_ok (Some p :: ps) pIDs <-> (rp_ID p ∉ pIDs) /\ supported p /\ loop_ok ps ({[rp_ID p]} ∪ pIDs).
Proof.
  intros Hh. unfold loop_ok. rewrite (asked_cons p ps Hh), !Forall_cons, fmap_cons, NoDup_cons.
  assert (Hids : (rp_ID p ∉ (rp_ID <$> asked ps)) /\ Forall (fun q => rp_ID q ∉ pIDs) (asked ps) <->
    Forall (fun q => rp_ID q ∉ {[rp_ID p]} ∪ pIDs) (asked ps)) by (rewrite !Forall_forall; set_solver).
  tauto.
Qed.

Lemma rest_permissions_loop_spec ps pIDs acc :
  match rest_permissions_loop ps pIDs acc with
  | inr res => loop_ok ps pIDs /\ res = acc ++ requested ps
  | inl _ => ~ loop_ok ps pIDs
  end.
Proof.
  revert pIDs acc. induction ps as [|[p|] ps IH]; intros pIDs acc.
  - simpl. rewrite app_nil_r. split; [|done]. split_and!; [apply NoDup_nil_2|by apply Forall_nil..].
  - cbn [rest_permissions_loop]. case_bool_decide as Hh.
    { assert (Ha : asked (Some p :: ps) = asked ps)
        by (unfold asked; cbn [omap list_omap mbind option_bind]; by rewrite decide_True).
      unfold loop_ok, requested in *. rewrite Ha. apply IH. }
    pose proof (loop_ok_cons p ps pIDs Hh) as Hc. case_bool_decide as Hd; [tauto|].
    destruct (option_of (rp_ID p)) as [o|] eqn:Ho.
    2:{ intros (_ & (o & Ho' & _) & _)%Hc. congruence. }
    assert (Hsup : supported p <-> rp_Read p && negb (opt_ReadSupported o) = false /\
                                   rp_Write p && negb (opt_WriteSupported o) = false).
    { unfold supported. split.
      - intros (o' & Ho' & Hr & Hw). rewrite Ho in Ho'. injection Ho' as <-.
        split; [destruct (rp_Read p); [by rewrite Hr|done]|destruct (rp_Write p); [by rewrite Hw|done]].
      - intros [Hr Hw]. exists o. destruct (rp_Read p), (rp_Write p), (opt_ReadSupported o), (opt_WriteSupported o); done. }
    destruct (rp_Read p && negb (opt_ReadSupported o)) eqn:Hr; [naive_solver|].
    destruct (rp_Write p && negb (opt_WriteSupported o)) eqn:Hw; [naive_solver|].
    cbn [rp_Read rp_Write].
    match goal with |- context [rest_permissions_loop ps _ ?a] => set (acc' := a) end.
    specialize (IH ({[rp_ID p]} ∪ pIDs) acc').
    destruct (rest_permissions_loop _ _ _) as [err|res]; [tauto|]. destruct IH as [Hok ->].
    split; [tauto|].
    assert (Hreq : requested (Some p :: ps) = match granted p with Some q => q :: requested ps | None => requested ps end)
      by (unfold requested; by rewrite (asked_cons p ps Hh)).
    rewrite Hreq. unfold acc', granted. rewrite Ho. cbn [from_option].
    destruct (_ || rp_Write p); [by rewrite <-app_assoc|done].
  - apply IH.
Qed.

Lemma restPermissionsToCLUS_spec ps :
  match restPermissionsToCLUS ps with
  | inr res => acceptable ps /\ res = requested ps
  | inl _ => ~ acceptable ps
  end.
Proof.
  unfold restPermissionsToCLUS. pose proof (rest_permissions_loop_spec ps ∅ []) as Hs.
  assert (Hall : Forall (fun p => rp_ID p ∉ (∅ : gset string)) (asked ps)) by (apply Forall_forall; set_solver).
  unfold acceptable, loop_ok in *. destruct (rest_permissions_loop ps ∅ []) as [err|res]; [tauto|].
  destruct Hs as [Hok ->]. simpl. destruct (requested ps) as [|p l]; [naive_solver|].
  split; [|done]. split_and!; naive_solver.
Qed.


Definition ex_request : list (option RESTRolePermission) := [
  Some {| rp_ID := "rt_policy"; rp_Read := false; rp_Write := true |};
  Some {| rp_ID := "fed"; rp_Read := true; rp_Write := true |};
  Some {| rp_ID := "ci_scan"; rp_Read := false; rp_Write := true |} ].

Definition ex_role : CLUSUserRole :=
  {| ur_Name := "dev"; ur_Comment := ""; ur_Reserved := false;
     ur_Permissions := [{| rp_ID := "rt_policy"; rp_Read := true; rp_Write := true |};
                        {| rp_ID := "ci_scan"; rp_Read := false; rp_Write := true |}] |}.

