(* ===== verification/NvAccess.v ===== *)
(** * Access control

    [AccessControl] of controller/access/access.go: what the caller of a REST
    API may do to an object.  It is built from the roles of the caller's token
    (a role per domain, where a domain is a namespace, a pattern of namespaces
    or "" for the cluster) and from the permissions the API needs.
    [Authorize] and [AuthorizeOwn] compare them with the domains of an object
    ([NvAccessObj.GetDomain]).

    A range over a map that returns at the first entry with some property is
    [existsb] over its entries. *)

From Stdlib Require Import ZArith Lia Ascii.
From S2P Require Import Prelude GoLib NvCriteria NvAccessObj NvRoles.

Definition AccessOPRead := "read".
Definition AccessOPWrite := "write".

Abbreviation DomainRole := (gmap string string) (only parsing).
Abbreviation DomainPermissions := (gmap string NvPermissions) (only parsing).

(** The categories of APIs that the checks name; [NvAccessUri] has all. *)
Definition CONST_API_UNKNOWN := 0%Z.
Definition CONST_API_UNSUPPORTED := 1%Z.
Definition CONST_API_SKIP := 2%Z.

Record AccessControl := {
  acc_op : string; acc_roles : DomainRole; acc_wRoles : DomainRole;
  acc_extraPermits : DomainPermissions; acc_apiCategoryID : Z;
  acc_requiredPermissions : Z; acc_boostPermissions : Z }.

Section access.
Context (Compile : string -> option (string -> bool)) (s : roles).

Definition masks_met (global : bool) (read write needR needW : Z) : bool :=
  let needR := Z.land needR (if global then PERMS_FED_READ else PERMS_DOMAIN_READ) in
  let needW := Z.land needW (if global then PERMS_FED_WRITE else PERMS_DOMAIN_WRITE) in
  has_perms read needR && has_perms write needW.

Definition DomainRole_hasGlobalPermissions (drs : DomainRole) (readPermsRequired writePermsRequired : Z)
    : bool :=
  match drs !! AccessDomainGlobal with
  | Some role =>
      let '(r, w) := getRolePermitValues s role AccessDomainGlobal in
      masks_met true r w readPermsRequired writePermsRequired
  | None => false
  end.

Definition DomainRole_hasPermissions (drs : DomainRole) (readPermsRequired writePermsRequired : Z)
    : bool :=
  existsb (fun '(domain, role) =>
    let '(r, w) := getRolePermitValues s role domain in
    masks_met (bool_decide (domain = AccessDomainGlobal)) r w readPermsRequired writePermsRequired)
    (map_to_list drs).

Definition DomainPermissions_hasGlobalPermissions (dps : DomainPermissions)
    (readPermsRequired writePermsRequired : Z) : bool :=
  match dps !! AccessDomainGlobal with
  | Some p =>
      let '(r, w) := getPermitValues p AccessDomainGlobal in
      masks_met true r w readPermsRequired writePermsRequired
  | None => false
  end.

Definition DomainPermissions_hasPermissions (dps : DomainPermissions)
    (readPermsRequired writePermsRequired : Z) : bool :=
  existsb (fun '(domain, p) =>
    let '(r, w) := getPermitValues p domain in
    masks_met (bool_decide (domain = AccessDomainGlobal)) r w readPermsRequired writePermsRequired)
    (map_to_list dps).

Definition NewAdminAccessControl : AccessControl :=
  {| acc_op := AccessOPWrite; acc_roles := {[AccessDomainGlobal := UserRoleAdmin]}; acc_wRoles := ∅;
     acc_extraPermits := ∅; acc_apiCategoryID := CONST_API_SKIP; acc_requiredPermissions := 0;
     acc_boostPermissions := 0 |}.

Definition NewFedAdminAccessControl : AccessControl :=
  {| acc_op := AccessOPWrite; acc_roles := {[AccessDomainGlobal := UserRoleFedAdmin]}; acc_wRoles := ∅;
     acc_extraPermits := ∅; acc_apiCategoryID := CONST_API_SKIP; acc_requiredPermissions := 0;
     acc_boostPermissions := 0 |}.

Definition NewReaderAccessControl : AccessControl :=
  {| acc_op := AccessOPRead; acc_roles := {[AccessDomainGlobal := UserRoleReader]}; acc_wRoles := ∅;
     acc_extraPermits := ∅; acc_apiCategoryID := CONST_API_SKIP; acc_requiredPermissions := 0;
     acc_boostPermissions := 0 |}.

(** [required] is what [getRequiredPermissions] returns for the request. *)
Definition NewAccessControl (required : Z * Z) (op : string) (roles : DomainRole)
    (extraPermits : DomainPermissions) : AccessControl :=
  {| acc_op := op; acc_roles := roles;
     acc_wRoles := filter (fun dr => Contains dr.1 "*" = true) roles;
     acc_extraPermits := extraPermits; acc_apiCategoryID := required.1;
     acc_requiredPermissions := required.2; acc_boostPermissions := 0 |}.

Definition NewWithOp (acc : AccessControl) (op : string) : AccessControl :=
  {| acc_op := op; acc_roles := acc_roles acc; acc_wRoles := acc_wRoles acc;
     acc_extraPermits := acc_extraPermits acc; acc_apiCategoryID := acc_apiCategoryID acc;
     acc_requiredPermissions := acc_requiredPermissions acc; acc_boostPermissions := 0 |}.

Definition BoostPermissions (acc : AccessControl) (toBoost : Z) : AccessControl :=
  {| acc_op := acc_op acc; acc_roles := acc_roles acc; acc_wRoles := acc_wRoles acc;
     acc_extraPermits := acc_extraPermits acc; acc_apiCategoryID := acc_apiCategoryID acc;
     acc_requiredPermissions := acc_requiredPermissions acc; acc_boostPermissions := toBoost |}.

(** The comparison at the end of the three checks below. *)
Definition op_allowed (acc : AccessControl) (read write needR needW : Z) (accNotFromCaller : bool)
    : bool :=
  if bool_decide (acc_op acc = AccessOPRead) then
    (negb (needR =? 0)%Z || accNotFromCaller) && has_perms read needR
  else if bool_decide (acc_op acc = AccessOPWrite) then
    (negb (needW =? 0)%Z || accNotFromCaller) && has_perms write needW
  else false.

Definition isDomainRoleAllowedToAccess (acc : AccessControl) (role domain : string)
    (readPermitsRequired writePermitsRequired : Z) (accNotFromCaller : bool) : bool :=
  let '(readPermits, writePermits) := getRolePermitValues s role domain in
  let boost := if negb (bool_decide (domain = AccessDomainGlobal)) || negb (bool_decide (role = ""))
               then acc_boostPermissions acc else 0%Z in
  op_allowed acc (Z.lor readPermits boost) (Z.lor writePermits boost)
    readPermitsRequired writePermitsRequired accNotFromCaller.

Definition isDomainPermAllowedToAccess (acc : AccessControl) (perms : NvPermissions) (domain : string)
    (readPermitsRequired writePermitsRequired : Z) (accNotFromCaller : bool) : bool :=
  let boost := if negb (bool_decide (domain = AccessDomainGlobal)) ||
                  negb (ReadValue perms =? 0)%Z || negb (WriteValue perms =? 0)%Z
               then acc_boostPermissions acc else 0%Z in
  op_allowed acc (Z.lor (ReadValue perms) boost) (Z.lor (WriteValue perms) boost)
    readPermitsRequired writePermitsRequired accNotFromCaller.

Definition isOneAccessAllowed (acc : AccessControl) (domain : string)
    (readPermitsRequired writePermitsRequired : Z) : bool :=
  let accNotFromCaller := (acc_apiCategoryID acc =? CONST_API_SKIP)%Z in
  if bool_decide (domain = AccessAllAsReader) then
    existsb (fun '(d, role) =>
      let '(readPermits, writePermits) := getRolePermitValues s role domain in
      let readPermits := Z.lor readPermits (acc_boostPermissions acc) in
      let writePermits := Z.lor writePermits (acc_boostPermissions acc) in
      if bool_decide (d = AccessDomainGlobal) then
        op_allowed acc readPermits writePermits readPermitsRequired writePermitsRequired accNotFromCaller
      else
        bool_decide (acc_op acc = AccessOPRead) &&
        (negb (readPermitsRequired =? 0)%Z || accNotFromCaller) &&
        has_perms readPermits readPermitsRequired) (map_to_list (acc_roles acc))
  else
    match acc_roles acc !! domain with
    | Some role => isDomainRoleAllowedToAccess acc role domain readPermitsRequired writePermitsRequired
                     accNotFromCaller
    | None => false
    end ||
    existsb (fun '(wDomain, role) =>
      negb (bool_decide (domain = AccessDomainGlobal)) && EqualMatch Compile wDomain domain &&
      isDomainRoleAllowedToAccess acc role domain readPermitsRequired writePermitsRequired
        accNotFromCaller) (map_to_list (acc_wRoles acc)) ||
    match acc_extraPermits acc !! domain with
    | Some perms => isDomainPermAllowedToAccess acc perms domain readPermitsRequired
                      writePermitsRequired accNotFromCaller
    | None => false
    end.

Definition isAccessAllowed (acc : AccessControl) (domains : list string) (needR needW : Z) : bool :=
  existsb (fun domain => isOneAccessAllowed acc domain needR needW) domains.

Definition isOwnAllowed (acc : AccessControl) (domains : list string) (needR needW : Z) : bool :=
  forallb (fun domain => isOneAccessAllowed acc domain needR needW) domains.

(** The permissions an access needs on the cluster and in a namespace. *)
Definition required_masked (acc : AccessControl) : (Z * Z) * (Z * Z) :=
  let need := acc_requiredPermissions acc in
  if negb (need =? PERM_IBMSA)%Z then
    ((Z.land need PERMS_FED_READ, Z.land need PERMS_FED_WRITE),
     (Z.land need PERMS_DOMAIN_READ, Z.land need PERMS_DOMAIN_WRITE))
  else ((need, need), (need, need)).

(** The body that [Authorize] and [AuthorizeOwn] share, with the check of one
    slice of domains. *)
Definition authorize_with
    (allowed : AccessControl -> list string -> Z -> Z -> bool)
    (range : gset string -> list string) (acc : AccessControl) (obj : AccessObject)
    (f : option (string -> option AccessObject)) : outcome bool :=
  '(d1, d2) ← GetDomain range obj f;
  let '((gR, gW), (dR, dW)) := required_masked acc in
  let global := isOneAccessAllowed acc AccessDomainGlobal gR gW in
  match d1, d2 with
  | None, None => Done global
  | _, None => Done (allowed acc (default [] d1) dR dW || global)
  | _, Some d2 =>
      let d1 := default [] d1 in
      if bool_decide (d1 = [HiddenFedDomain]) && bool_decide (d2 = [HiddenFedDomain]) then
        Done (isOneAccessAllowed acc AccessDomainGlobal gR (Z.lor gW PERM_FED))
      else
        let a1 := allowed acc d1 dR dW || global in
        let a2 := allowed acc d2 dR dW || global in
        Done (if bool_decide (acc_op acc = AccessOPWrite) then a1 && a2 else a1 || a2)
  end.

Definition Authorize := authorize_with isAccessAllowed.
Definition AuthorizeOwn := authorize_with isOwnAllowed.

Definition HasGlobalPermissions (acc : AccessControl) (readPermitsRequired writePermsRequired : Z) : bool :=
  DomainRole_hasGlobalPermissions (acc_roles acc) readPermitsRequired writePermsRequired ||
  DomainPermissions_hasGlobalPermissions (acc_extraPermits acc) readPermitsRequired writePermsRequired.

Definition IsFedAdmin (acc : AccessControl) : bool :=
  HasGlobalPermissions acc PERMS_FED_READ PERMS_FED_WRITE.

Definition IsFedReader (acc : AccessControl) : bool :=
  match acc_roles acc !! AccessDomainGlobal with
  | Some role =>
      let '(readPermits, writePermits) := getRolePermitValues s role AccessDomainGlobal in
      has_perms readPermits PERMS_FED_READ && (writePermits =? 0)%Z
  | None => false
  end.

Definition HasPermFed (acc : AccessControl) : bool :=
  IsFedAdmin acc || IsFedReader acc ||
  match acc_extraPermits acc !! AccessDomainGlobal with
  | Some permits => perms_HasPermFed permits
  | None => false
  end.

Definition HasPermFedForReadOnly (acc : AccessControl) : bool :=
  if IsFedAdmin acc then false
  else perms_HasPermFedForReadOnly
         (default NvPermissions0 (acc_extraPermits acc !! AccessDomainGlobal)) || IsFedReader acc.

Definition HasRequiredPermissions (acc : AccessControl) : bool :=
  let need := acc_requiredPermissions acc in
  if (acc_apiCategoryID acc =? CONST_API_SKIP)%Z then true
  else if negb (acc_apiCategoryID acc =? CONST_API_UNSUPPORTED)%Z &&
          negb (acc_apiCategoryID acc =? CONST_API_UNKNOWN)%Z && negb (need =? 0)%Z
  then
    let '(needR, needW) := if bool_decide (acc_op acc = AccessOPWrite) then (0, need)%Z
                           else (need, 0)%Z in
    DomainRole_hasPermissions (acc_roles acc) needR needW ||
    DomainPermissions_hasPermissions (acc_extraPermits acc) needR needW
  else false.

Definition CanWriteCluster (acc : AccessControl) : bool :=
  HasGlobalPermissions acc PERMS_CLUSTER_READ PERMS_CLUSTER_WRITE.

(** A nil slice stands both for all domains and for none. *)
Definition GetAdminDomains (acc : AccessControl) (writePermitsRequired : Z) : gset string :=
  let onrole '((domain, role) : string * string) :=
    has_perms (getRolePermitValues s role domain).2 writePermitsRequired in
  match acc_roles acc !! AccessDomainGlobal with
  | Some role => if onrole (AccessDomainGlobal, role) then ∅ else
      dom (filter (fun dr => onrole dr = true) (acc_roles acc)) ∪
      dom (filter (fun dp : string * NvPermissions =>
             has_perms (WriteValue dp.2) writePermitsRequired = true) (acc_extraPermits acc))
  | None =>
      dom (filter (fun dr => onrole dr = true) (acc_roles acc)) ∪
      dom (filter (fun dp : string * NvPermissions =>
             has_perms (WriteValue dp.2) writePermitsRequired = true) (acc_extraPermits acc))
  end.
End access.

(** [GetRoleDomains]: [ord] is the order of the range over the roles. *)
Definition GetRoleDomains (ord : list (string * string)) : gmap string (list string) :=
  foldl (fun m '(d, role) => append_at m role d) ∅ ord.

(** The form of an access control that other processes receive. *)
Record UserAccessControl := {
  uac_Op : string; uac_Roles : DomainRole; uac_WRoles : DomainRole;
  uac_ExtraPermits : DomainPermissions; uac_ApiCategoryID : Z;
  uac_RequiredPermissions : Z; uac_BoostPermissions : Z }.

Definition ExportAccessControl (acc : AccessControl) : UserAccessControl :=
  {| uac_Op := acc_op acc; uac_Roles := acc_roles acc; uac_WRoles := acc_wRoles acc;
     uac_ExtraPermits := acc_extraPermits acc; uac_ApiCategoryID := acc_apiCategoryID acc;
     uac_RequiredPermissions := acc_requiredPermissions acc;
     uac_BoostPermissions := acc_boostPermissions acc |}.

(** The permissions to boost are not taken over. *)
Definition ImportAccessControl (uac : UserAccessControl) : AccessControl :=
  {| acc_op := if bool_decide (uac_Op uac = "write") then AccessOPWrite else AccessOPRead;
     acc_roles := uac_Roles uac; acc_wRoles := uac_WRoles uac;
     acc_extraPermits := uac_ExtraPermits uac; acc_apiCategoryID := uac_ApiCategoryID uac;
     acc_requiredPermissions := uac_RequiredPermissions uac; acc_boostPermissions := 0 |}.

(** ** Which entries of a token allow an access *)

Lemma existsb_map {K V} `{Countable K} (f : K * V -> bool) (m : gmap K V) :
  existsb f (map_to_list m) = true <-> exists k v, m !! k = Some v /\ f (k, v) = true.
Proof.
  rewrite existsb_exists. split.
  - intros ([k v] & Hin & Hf). apply list_elem_of_In, elem_of_map_to_list in Hin. by exists k, v.
  - intros (k & v & Hin & Hf). exists (k, v). split; [|done].
    by apply list_elem_of_In, elem_of_map_to_list.
Qed.

(** The permissions an operation needs are among [(read, write)]; a need of
    nothing is met only by an access control that no caller asked for. *)
Definition op_met (acc : AccessControl) (have need : Z * Z) : Prop :=
  let ok h n := has_perms h n = true /\ (n <> 0%Z \/ acc_apiCategoryID acc = CONST_API_SKIP) in
  (acc_op acc = AccessOPRead /\ ok have.1 need.1) \/ (acc_op acc = AccessOPWrite /\ ok have.2 need.2).

Lemma op_allowed_met acc r w nr nw :
  op_allowed acc r w nr nw (acc_apiCategoryID acc =? CONST_API_SKIP)%Z = true <->
  op_met acc (r, w) (nr, nw).
Proof.
  unfold op_allowed, op_met. simpl.
  assert (Hb : forall n h, (negb (n =? 0)%Z || (acc_apiCategoryID acc =? CONST_API_SKIP)%Z) && has_perms h n = true
    <-> has_perms h n = true /\ (n <> 0%Z \/ acc_apiCategoryID acc = CONST_API_SKIP)).
  { intros n h. rewrite andb_true_iff, orb_true_iff, negb_true_iff, Z.eqb_neq, Z.eqb_eq. tauto. }
  case_bool_decide as H1; rewrite ?Hb.
  { split; [tauto|]. intros [[_ H]|[H _]]; [done|]. by rewrite H1 in H. }
  case_bool_decide as H2; rewrite ?Hb; [tauto|]. split; [done|tauto].
Qed.

(** What a role and an extra permission are worth on a domain. *)
Definition role_worth (s : roles) (acc : AccessControl) (role d : string) : Z * Z :=
  let v := getRolePermitValues s role d in
  let b := if decide (d <> AccessDomainGlobal \/ role <> "") then acc_boostPermissions acc else 0%Z in
  (Z.lor v.1 b, Z.lor v.2 b).

Definition perms_worth (acc : AccessControl) (p : NvPermissions) (d : string) : Z * Z :=
  let b := if decide (d <> AccessDomainGlobal \/ ReadValue p <> 0%Z \/ WriteValue p <> 0%Z)
           then acc_boostPermissions acc else 0%Z in
  (Z.lor (ReadValue p) b, Z.lor (WriteValue p) b).

(** The entries of a token for a domain that is not "*". *)
Definition granted (Compile : string -> option (string -> bool)) (s : roles) (acc : AccessControl)
    (d : string) (need : Z * Z) : Prop :=
  (exists role, acc_roles acc !! d = Some role /\ op_met acc (role_worth s acc role d) need) \/
  (d <> AccessDomainGlobal /\ exists w role, acc_wRoles acc !! w = Some role /\
     EqualMatch Compile w d = true /\ op_met acc (role_worth s acc role d) need) \/
  (exists p, acc_extraPermits acc !! d = Some p /\ op_met acc (perms_worth acc p d) need).

(** And for "*": a role of any domain reads, a role of the cluster also writes. *)
Definition granted_all (s : roles) (acc : AccessControl) (need : Z * Z) : Prop :=
  exists d role, acc_roles acc !! d = Some role /\
    op_met acc (role_worth s acc role AccessAllAsReader) need /\
    (d = AccessDomainGlobal \/ acc_op acc = AccessOPRead).

Section grants.
Context (Compile : string -> option (string -> bool)) (s : roles).

Lemma isDomainRole_met acc role d nr nw :
  isDomainRoleAllowedToAccess s acc role d nr nw (acc_apiCategoryID acc =? CONST_API_SKIP)%Z = true <->
  op_met acc (role_worth s acc role d) (nr, nw).
Proof.
  unfold isDomainRoleAllowedToAccess, role_worth.
  destruct (getRolePermitValues s role d) as [r w].
  rewrite op_allowed_met. cbn [fst snd].
  assert (Hc : negb (bool_decide (d = AccessDomainGlobal)) || negb (bool_decide (role = "")) = true <->
    (d <> AccessDomainGlobal \/ role <> ""))
    by (rewrite orb_true_iff, !negb_true_iff, !bool_decide_eq_false; done).
  destruct (_ || _); destruct (decide _) as [Hd|Hd]; try done;
    [exfalso; by apply Hd, Hc|by apply Hc in Hd].
Qed.

Lemma isDomainPerm_met acc p d nr nw :
  isDomainPermAllowedToAccess acc p d nr nw (acc_apiCategoryID acc =? CONST_API_SKIP)%Z = true <->
  op_met acc (perms_worth acc p d) (nr, nw).
Proof.
  unfold isDomainPermAllowedToAccess, perms_worth. rewrite op_allowed_met.
  assert (Hc : negb (bool_decide (d = AccessDomainGlobal)) || negb (ReadValue p =? 0)%Z ||
    negb (WriteValue p =? 0)%Z = true <->
    (d <> AccessDomainGlobal \/ ReadValue p <> 0%Z \/ WriteValue p <> 0%Z))
    by (rewrite !orb_true_iff, !negb_true_iff, bool_decide_eq_false, !Z.eqb_neq; tauto).
  destruct (_ || _); destruct (decide _) as [Hd|Hd]; try done;
    [exfalso; by apply Hd, Hc|by apply Hc in Hd].
Qed.

Lemma isOneAccess_granted acc d nr nw :
  d <> AccessAllAsReader ->
  isOneAccessAllowed Compile s acc d nr nw = true <-> granted Compile s acc d (nr, nw).
Proof.
  intros Hd. unfold isOneAccessAllowed, granted. rewrite bool_decide_eq_false_2 by done.
  rewrite !orb_true_iff, existsb_map.
  assert (Hor : forall A A' B B' C C' : Prop, (A <-> A') -> (B <-> B') -> (C <-> C') ->
    ((A \/ B) \/ C) <-> (A' \/ B' \/ C')) by tauto.
  apply Hor; clear Hor.
  - destruct (acc_roles acc !! d) as [role|]; [rewrite isDomainRole_met|]; naive_solver.
  - split.
    + intros (w & role & Hw & [[Hg Hm]%andb_true_iff Ha]%andb_true_iff).
      apply negb_true_iff, bool_decide_eq_false in Hg. apply isDomainRole_met in Ha. eauto 10.
    + intros (Hg & w & role & Hw & Hm & Ha). exists w, role. split; [done|].
      rewrite bool_decide_eq_false_2, Hm by done. by apply isDomainRole_met.
  - destruct (acc_extraPermits acc !! d) as [p|]; [rewrite isDomainPerm_met|]; naive_solver.
Qed.

Lemma isOneAccess_granted_all acc nr nw :
  isOneAccessAllowed Compile s acc AccessAllAsReader nr nw = true <-> granted_all s acc (nr, nw).
Proof.
  unfold isOneAccessAllowed, granted_all. rewrite bool_decide_eq_true_2 by done.
  rewrite existsb_map.
  assert (Hw : forall role, role_worth s acc role AccessAllAsReader
    = (Z.lor (getRolePermitValues s role AccessAllAsReader).1 (acc_boostPermissions acc),
       Z.lor (getRolePermitValues s role AccessAllAsReader).2 (acc_boostPermissions acc))).
  { intros role. unfold role_worth. rewrite decide_True by (left; done). done. }
  split; intros (d & role & Hr & H); exists d, role; split; try done; rewrite ?Hw in *;
    destruct (getRolePermitValues s role AccessAllAsReader) as [r w]; cbn [fst snd] in *.
  - case_bool_decide as Hd; [rewrite op_allowed_met in H; tauto|].
    apply andb_true_iff in H as [[H1%bool_decide_eq_true H2]%andb_true_iff H3].
    split; [|by right]. rewrite <- op_allowed_met. unfold op_allowed.
    rewrite bool_decide_eq_true_2 by done. by rewrite H2, H3.
  - destruct H as [Hm Hd]. case_bool_decide as Hg; [by rewrite op_allowed_met|].
    destruct Hd as [|Hop]; [done|]. rewrite Hop, bool_decide_eq_true_2 by done.
    rewrite <- op_allowed_met in Hm. unfold op_allowed in Hm.
    by rewrite Hop, bool_decide_eq_true_2 in Hm.
Qed.
End grants.

(** ** Users of namespaces *)

(** The permissions [have] let a caller do [op] when it needs [need]. *)
Definition lets (op : string) (have need : Z * Z) : Prop :=
  (op = AccessOPRead /\ need.1 <> 0%Z /\ has_perms have.1 need.1 = true) \/
  (op = AccessOPWrite /\ need.2 <> 0%Z /\ has_perms have.2 need.2 = true).

(** A token covers a domain: with a role or a permission for it, with a role
    for a pattern it matches, and, for what everyone may read, with any role. *)
Definition covers (s : roles) (op : string) (rs : gmap string string)
    (extra : gmap string NvPermissions) (need : Z * Z) (d : string) : Prop :=
  if decide (d = AccessAllAsReader) then
    op = AccessOPRead /\ exists d' role, rs !! d' = Some role /\
      lets op (getRolePermitValues s role AccessAllAsReader) need
  else
    (exists role, (rs !! d = Some role \/
                   (d <> "" /\ exists w, rs !! w = Some role /\ Contains w "*" = true /\ glob w d)) /\
       lets op (getRolePermitValues s role d) need) \/
    (exists p, extra !! d = Some p /\ lets op (ReadValue p, WriteValue p) need).

Definition domain_need (required : Z) : Z * Z :=
  if decide (required = PERM_IBMSA) then (required, required)
  else (Z.land required PERMS_DOMAIN_READ, Z.land required PERMS_DOMAIN_WRITE).

(** Whether the two slices of an object's domains are covered as the operation
    needs: a rule between two groups is written with both ends. *)
Definition covered_object (P : string -> Prop) (op : string) (d1 d2 : option (list string)) : Prop :=
  match d1, d2 with
  | None, None => False
  | _, None => Exists P (default [] d1)
  | _, Some l2 =>
      ~ (default [] d1 = [HiddenFedDomain] /\ l2 = [HiddenFedDomain]) /\
      (if decide (op = AccessOPWrite) then Exists P (default [] d1) /\ Exists P l2
       else Exists P (default [] d1) \/ Exists P l2)
  end.

Lemma op_met_lets required op rs extra have need :
  required.1 <> CONST_API_SKIP ->
  op_met (NewAccessControl required op rs extra) have need <-> lets op have need.
Proof. unfold op_met, lets, NewAccessControl. cbn. tauto. Qed.

Lemma role_worth_new s required op rs extra role d :
  role_worth s (NewAccessControl required op rs extra) role d = getRolePermitValues s role d.
Proof.
  unfold role_worth. cbn [acc_boostPermissions NewAccessControl].
  destruct (getRolePermitValues s role d). case_decide; by rewrite !Z.lor_0_r.
Qed.

Lemma perms_worth_new required op rs extra p d :
  perms_worth (NewAccessControl required op rs extra) p d = (ReadValue p, WriteValue p).
Proof.
  unfold perms_worth. cbn [acc_boostPermissions NewAccessControl]. case_decide; by rewrite !Z.lor_0_r.
Qed.

Section namespace_user.
Context (Compile : string -> option (string -> bool)) (HC : compiles_tokens Compile).
Context (s : roles) (required : Z * Z) (op : string) (rs : gmap string string)
  (extra : gmap string NvPermissions).
Context (Hskip : required.1 <> CONST_API_SKIP).
Context (Hpat : forall w role, rs !! w = Some role -> pattern_ok w = true).
Let acc := NewAccessControl required op rs extra.

Lemma isOneAccess_covers d nr nw :
  ascii_only d = true -> (d = AccessAllAsReader -> rs !! AccessDomainGlobal = None) ->
  isOneAccessAllowed Compile s acc d nr nw = true <-> covers s op rs extra (nr, nw) d.
Proof.
  intros Hd Hall. unfold acc, covers. case_decide as Hs.
  - subst d. rewrite isOneAccess_granted_all. unfold granted_all.
    setoid_rewrite op_met_lets; [|done]. setoid_rewrite role_worth_new.
    cbn [acc_roles acc_op NewAccessControl]. split.
    + intros (d & role & Hr & Hl & [->|Ho]); [by rewrite Hall in Hr|]. eauto 10.
    + intros (Ho & d & role & Hr & Hl). exists d, role. split_and!; [done|done|by right].
  - rewrite isOneAccess_granted by done. unfold granted.
    setoid_rewrite op_met_lets; [|done..]. setoid_rewrite role_worth_new.
    setoid_rewrite perms_worth_new. cbn [acc_roles acc_wRoles acc_extraPermits NewAccessControl].
    split.
    + intros [(role & Hr & Hl)|[(Hg & w & role & Hw & Hm & Hl)|(p & Hp & Hl)]]; [left|left|right]; [eauto| |eauto].
      apply map_lookup_filter_Some in Hw as [Hw Hc]. exists role. split; [|done]. right. split; [done|].
      exists w. split_and!; [done|done|]. by apply (EqualMatch_glob Compile) in Hm; [|eauto..].
    + intros [(role & [Hr|(Hg & w & Hw & Hc & Hm)] & Hl)|(p & Hp & Hl)]; [eauto| |eauto].
      right. left. split; [done|]. exists w, role. split_and!; [|by apply EqualMatch_glob; eauto|done].
      by apply map_lookup_filter_Some.
Qed.

Lemma not_global nr nw :
  rs !! AccessDomainGlobal = None -> extra !! AccessDomainGlobal = None ->
  isOneAccessAllowed Compile s acc AccessDomainGlobal nr nw = false.
Proof.
  intros Hr He. apply not_true_iff_false. rewrite isOneAccess_granted by done. unfold granted, acc.
  cbn [acc_roles acc_wRoles acc_extraPermits NewAccessControl]. rewrite Hr, He. naive_solver.
Qed.

Lemma isAccess_covers l nr nw :
  Forall (fun d => ascii_only d = true) l -> rs !! AccessDomainGlobal = None ->
  isAccessAllowed Compile s acc l nr nw = true <-> Exists (covers s op rs extra (nr, nw)) l.
Proof.
  intros Hl Hr. unfold isAccessAllowed. rewrite existsb_exists, Exists_exists.
  rewrite Forall_forall in Hl. split; intros (d & Hd & Ha); exists d; split;
    try (by apply list_elem_of_In).
  - apply list_elem_of_In in Hd. by apply isOneAccess_covers; auto.
  - by apply isOneAccess_covers; auto.
Qed.
End namespace_user.

(** A caller without a role or a permission on the cluster, who asks with
    the permissions the API needs, is let in exactly when an entry of its
    token covers one of the namespaces of the object (for a rule between two
    groups, the writer one of each end); objects of the cluster and of the
    federation are out of its reach. *)
Lemma namespace_user_authorize Compile s required op rs extra range obj f d1 d2 :
  compiles_tokens Compile -> required.1 <> CONST_API_SKIP ->
  (forall w role, rs !! w = Some role -> pattern_ok w = true) ->
  rs !! AccessDomainGlobal = None -> extra !! AccessDomainGlobal = None ->
  GetDomain range obj f = Done (d1, d2) ->
  Forall (fun d => ascii_only d = true) (default [] d1) ->
  Forall (fun d => ascii_only d = true) (default [] d2) ->
  Authorize Compile s range (NewAccessControl required op rs extra) obj f = Done true <->
  covered_object (covers s op rs extra (domain_need required.2)) op d1 d2.
Proof.
  intros HC Hskip Hpat Hr He HD H1 H2.
  unfold Authorize, authorize_with. rewrite HD. cbn [mbind outcome_bind].
  assert (Hm : exists g, required_masked (NewAccessControl required op rs extra)
    = (g, domain_need required.2)).
  { unfold required_masked, domain_need. cbn [acc_requiredPermissions NewAccessControl].
    destruct (Z.eqb_spec required.2 PERM_IBMSA) as [->|Hn];
      [rewrite decide_True by done|rewrite decide_False by done]; by eexists. }
  destruct Hm as [[gR gW] ->]. destruct (domain_need required.2) as [dR dW].
  rewrite !not_global by done.
  pose proof (fun l Hl => isAccess_covers Compile HC s required op rs extra Hskip Hpat l dR dW Hl Hr) as Hc.
  assert (Hdone : forall b : bool, Done b = Done true <-> b = true) by (intros []; split; congruence).
  cbn [acc_op NewAccessControl].
  destruct d1 as [l1|], d2 as [l2|]; cbn [covered_object default] in *;
    rewrite ?orb_false_r, ?Hdone.
  - destruct (bool_decide _ && bool_decide _) eqn:Hfed.
    + apply andb_true_iff in Hfed as [->%bool_decide_eq_true ->%bool_decide_eq_true].
      split; [done|]. intros [[] _]; done.
    + rewrite Hdone. apply andb_false_iff in Hfed. rewrite !bool_decide_eq_false in Hfed.
      assert (Hnf : ~ (l1 = [HiddenFedDomain] /\ l2 = [HiddenFedDomain])) by naive_solver.
      case_bool_decide as Hop; [rewrite decide_True by done|rewrite decide_False by done];
        [rewrite andb_true_iff|rewrite orb_true_iff]; rewrite !Hc by done; tauto.
  - by apply Hc.
  - rewrite bool_decide_eq_false_2 by done. cbn [andb]. rewrite Hdone.
    assert (Hn : isAccessAllowed Compile s (NewAccessControl required op rs extra) [] dR dW = false)
      by done.
    rewrite Hn.
    case_bool_decide as Hop; [rewrite decide_True by done|rewrite decide_False by done]; cbn [andb orb];
      rewrite Exists_nil.
    + split; [done|tauto].
    + rewrite Hc by done. split; [|tauto]. intros H. split; [naive_solver|by right].
  - split; [done|tauto].
Qed.

Definition ex_group (name domain : string) : CLUSGroup :=
  {| grp_Name := name; grp_Criteria := []; grp_Domain := domain; grp_CreaterDomains := None;
     grp_Kind := ""; grp_CfgType := Learned |}.

(** Two learned groups, in namespaces prod-a and prod-b. *)
Definition ex_groups (name : string) : option AccessObject :=
  if decide (name = "ga") then Some (OGroup (Some (ex_group "ga" "prod-a")))
  else if decide (name = "gb") then Some (OGroup (Some (ex_group "gb" "prod-b")))
  else None.

Definition ex_rule : AccessObject :=
  OPolicyRule {| pr_From := "ga"; pr_To := "gb"; pr_CfgType := UserCreated |}.

(** ** Objects of the federation *)

Definition reserved_names : list string := reservedRoles.*1.

(** A registry whose reserved roles are as the program starts with and whose
    other roles were built from permissions. *)
Definition roles_wf (s : roles) : Prop :=
  (forall name r, (name, r) ∈ reservedRoles -> allRoles s !! name = Some r) /\
  (forall name r, allRoles s !! name = Some r -> name ∉ reserved_names ->
     ri_Reserved r = false /\
     Z.land (ri_ReadPermits r) PERMS_GLOBAL_CONFIGURABLE_READ = ri_ReadPermits r /\
     Z.land (ri_WritePermits r) PERMS_GLOBAL_CONFIGURABLE_WRITE = ri_WritePermits r).

Lemma roles0_wf : roles_wf roles0.
Proof.
  split.
  - intros name r Hin. cbn [allRoles roles0].
    apply elem_of_list_to_map_1; [vm_decide|done].
  - intros name r Hr Hn. exfalso. apply Hn. cbn [allRoles roles0] in Hr.
    apply elem_of_list_to_map_2 in Hr. unfold reserved_names.
    change name with ((name, r).1). by apply list_elem_of_fmap_2.
Qed.

Lemma has_perms_bit have need n :
  has_perms have need = true -> Z.testbit need n = true -> Z.testbit have n = true.
Proof.
  unfold has_perms. intros He%Z.eqb_eq Hn. rewrite He, Z.land_spec in Hn.
  by apply andb_true_iff in Hn as [Hn _].
Qed.

(** Of the roles of a well-formed registry, fedAdmin alone holds the
    federation's write permission. *)
Lemma fed_write_role s role d :
  roles_wf s -> Z.testbit (getRolePermitValues s role d).2 1 = true -> role = UserRoleFedAdmin.
Proof.
  intros [Hres Hcust] Hb. unfold getRolePermitValues in Hb.
  destruct (allRoles s !! role) as [r|] eqn:Hr; [|by rewrite Z.testbit_0_l in Hb].
  assert (Hw : Z.testbit (ri_WritePermits r) 1 = true).
  { repeat case_bool_decide; cbn [snd orb] in Hb; rewrite ?Z.land_spec, ?Z.testbit_0_l in Hb; try done;
      by apply andb_true_iff in Hb as [Hb _]. }
  destruct (decide (role ∈ reserved_names)) as [Hin|Hn].
  - apply list_elem_of_fmap in Hin as ([name r'] & -> & Hin). cbn in *.
    specialize (Hres _ _ Hin). rewrite Hr in Hres. injection Hres as <-.
    assert (Hall : Forall (fun nr => Z.testbit (ri_WritePermits nr.2) 1 = true -> nr.1 = UserRoleFedAdmin)
      reservedRoles) by vm_decide.
    rewrite Forall_forall in Hall. by apply (Hall _ Hin).
  - destruct (Hcust _ _ Hr Hn) as (_ & _ & Hc). rewrite <- Hc, Z.land_spec in Hw.
    apply andb_true_iff in Hw as [_ Hw]. by vm_compute in Hw.
Qed.

(** An object of the federation is written by a caller whose role on the
    cluster is fedAdmin, or who holds the federation's permission beside its
    roles; no custom role is enough. *)
Lemma fed_write_needs_fedAdmin Compile s required rs extra range obj f :
  roles_wf s ->
  GetDomain range obj f = Done (fedDomainSlice, fedDomainSlice) ->
  Authorize Compile s range (NewAccessControl required AccessOPWrite rs extra) obj f = Done true ->
  rs !! AccessDomainGlobal = Some UserRoleFedAdmin \/
  exists p, extra !! AccessDomainGlobal = Some p /\ Z.testbit (WriteValue p) 1 = true.
Proof.
  intros Hwf HD. unfold Authorize, authorize_with. rewrite HD. cbn [mbind outcome_bind].
  destruct (required_masked _) as [[gR gW] [dR dW]]. cbn [fedDomainSlice default].
  rewrite bool_decide_eq_true_2 by done. cbn [andb].
  intros [= Ha]. apply isOneAccess_granted in Ha; [|done]. unfold granted in Ha.
  cbn [acc_roles acc_wRoles acc_extraPermits NewAccessControl] in Ha.
  assert (Hbit : Z.testbit (Z.lor gW PERM_FED) 1 = true).
  { rewrite Z.lor_spec. apply orb_true_iff. by right. }
  destruct Ha as [(role & Hr & Hm)|[[Hne _]|(p & Hp & Hm)]]; [|done|].
  - left. rewrite role_worth_new in Hm. unfold op_met in Hm. cbn [acc_op NewAccessControl] in Hm.
    destruct Hm as [[? _]|(_ & Hh & _)]; [done|]. eapply has_perms_bit in Hh; [|exact Hbit].
    apply fed_write_role in Hh; [|done]. by subst role.
  - right. exists p. split; [done|]. rewrite perms_worth_new in Hm. unfold op_met in Hm.
    cbn [acc_op NewAccessControl] in Hm.
    destruct Hm as [[? _]|(_ & Hh & _)]; [done|]. by eapply has_perms_bit in Hh; [|exact Hbit].
Qed.

(** ** The controller's own accesses *)

Definition is_fed (d1 d2 : option (list string)) : bool :=
  bool_decide (d1 = fedDomainSlice) && bool_decide (d2 = fedDomainSlice).

Lemma internal_global Compile s role need :
  allRoles s !! role <> None ->
  let acc := {| acc_op := AccessOPWrite; acc_roles := {[AccessDomainGlobal := role]}; acc_wRoles := ∅;
    acc_extraPermits := ∅; acc_apiCategoryID := CONST_API_SKIP; acc_requiredPermissions := 0;
    acc_boostPermissions := 0 |} in
  isOneAccessAllowed Compile s acc AccessDomainGlobal 0 need
  = has_perms (getRolePermitValues s role AccessDomainGlobal).2 need.
Proof.
  intros Hr acc. apply eq_iff_eq_true. rewrite isOneAccess_granted by done.
  unfold granted, acc. cbn [acc_roles acc_wRoles acc_extraPermits]. split.
  - intros [(r & Hl & Hm)|[[Hne _]|(p & Hp & _)]]; [|done|done].
    apply lookup_singleton_Some in Hl as [_ <-].
    destruct Hm as [[Ho _]|(_ & Hm & _)]; [done|]. unfold role_worth in Hm.
    cbn [acc_boostPermissions] in Hm. case_decide; by rewrite !Z.lor_0_r in Hm.
  - intros Hm. left. exists role. rewrite lookup_singleton_eq. split; [done|]. right.
    split; [done|]. split; [|by right]. unfold role_worth. cbn [acc_boostPermissions].
    case_decide; by rewrite !Z.lor_0_r.
Qed.

Lemma has_perms_0 h : has_perms h 0 = true.
Proof. unfold has_perms. by rewrite Z.land_0_r. Qed.

(** An access control the controller makes for itself, of one role on the
    whole cluster and no required permission. *)
Lemma internal_authorize Compile s range obj f d1 d2 role :
  allRoles s !! role <> None -> GetDomain range obj f = Done (d1, d2) ->
  let acc := {| acc_op := AccessOPWrite; acc_roles := {[AccessDomainGlobal := role]}; acc_wRoles := ∅;
    acc_extraPermits := ∅; acc_apiCategoryID := CONST_API_SKIP; acc_requiredPermissions := 0;
    acc_boostPermissions := 0 |} in
  Authorize Compile s range acc obj f
  = Done (if is_fed d1 d2 then has_perms (getRolePermitValues s role AccessDomainGlobal).2 PERM_FED else true).
Proof.
  intros Hr HD acc. unfold Authorize, authorize_with. rewrite HD.
  cbn [mbind outcome_bind].
  change (required_masked acc) with ((0, 0), (0, 0))%Z. cbn [fst snd].
  unfold acc. rewrite !internal_global by done. rewrite has_perms_0.
  change (Z.lor 0 PERM_FED) with PERM_FED. fold acc. unfold is_fed, fedDomainSlice.
  destruct d1 as [l1|], d2 as [l2|]; cbn [default];
    rewrite ?orb_true_r; cbn [acc_op acc];
    repeat case_bool_decide; simplify_eq/=; done.
Qed.

Lemma fed_admin_authorize Compile s range obj f d1 d2 :
  roles_wf s -> GetDomain range obj f = Done (d1, d2) ->
  Authorize Compile s range NewFedAdminAccessControl obj f = Done true.
Proof.
  intros [Hres _] HD.
  assert (HF : allRoles s !! UserRoleFedAdmin
    = Some (reserved_role UserRoleFedAdmin "Federated Administrator role" PERMS_FED_READ PERMS_FED_WRITE).2)
    by (apply Hres; vm_decide).
  unfold NewFedAdminAccessControl. rewrite (internal_authorize _ _ _ _ _ _ _ _ ltac:(by rewrite HF) HD).
  unfold getRolePermitValues. rewrite HF. destruct (is_fed d1 d2); done.
Qed.

(** What the controller does on its own account it may do to every object
    as fedAdmin, and to every object but the federation's as admin, whatever
    custom roles exist. *)
Theorem internal_admin_authorize Compile s range obj f d1 d2 :
  roles_wf s -> GetDomain range obj f = Done (d1, d2) ->
  Authorize Compile s range NewFedAdminAccessControl obj f = Done true /\
  Authorize Compile s range NewAdminAccessControl obj f = Done (negb (is_fed d1 d2)).
Proof.
  intros Hwf HD. split; [by eapply fed_admin_authorize|]. destruct Hwf as [Hres _].
  assert (HA : allRoles s !! UserRoleAdmin
    = Some (reserved_role UserRoleAdmin "Global Administrator role" PERMS_CLUSTER_READ PERMS_CLUSTER_WRITE).2)
    by (apply Hres; vm_decide).
  unfold NewAdminAccessControl. rewrite (internal_authorize _ _ _ _ _ _ _ _ ltac:(by rewrite HA) HD).
  unfold getRolePermitValues. rewrite HA. destruct (is_fed d1 d2); done.
Qed.

Lemma internal_admin_authorize_witness :
  Authorize glob_compile roles0 elements NewAdminAccessControl (OAdmissionRule FederalCfg) None = Done false /\
  Authorize glob_compile roles0 elements NewAdminAccessControl ex_rule (Some ex_groups) = Done true.
Proof.
  split.
  - apply (internal_admin_authorize glob_compile roles0 elements (OAdmissionRule FederalCfg) None
      fedDomainSlice fedDomainSlice); [apply roles0_wf|done].
  - apply (internal_admin_authorize glob_compile roles0 elements ex_rule (Some ex_groups)
      (Some ["prod-a"]) (Some ["prod-b"])); [apply roles0_wf|done].
Defined.

(** A caller who may own an object may access it, unless a slice of its
    domains is empty without being nil: [isOwnAllowed] holds of no domain. *)
Lemma AuthorizeOwn_Authorize Compile s range acc obj f d1 d2 :
  GetDomain range obj f = Done (d1, d2) -> d1 <> Some [] -> d2 <> Some [] ->
  AuthorizeOwn Compile s range acc obj f = Done true ->
  (d1 = None -> d2 = None) ->
  Authorize Compile s range acc obj f = Done true.
Proof.
  intros HD H1 H2. unfold AuthorizeOwn, Authorize, authorize_with. rewrite HD.
  cbn [mbind outcome_bind]. destruct (required_masked acc) as [[gR gW] [dR dW]].
  assert (Hown : forall l, l <> [] -> isOwnAllowed Compile s acc l dR dW = true ->
    isAccessAllowed Compile s acc l dR dW = true).
  { intros [|d l] Hl; [done|]. unfold isOwnAllowed, isAccessAllowed. simpl.
    intros [-> _]%andb_true_iff. done. }
  assert (Hor : forall l g, l <> [] -> isOwnAllowed Compile s acc l dR dW || g = true ->
    isAccessAllowed Compile s acc l dR dW || g = true).
  { intros l g Hl [Ha|Hg]%orb_true_iff; apply orb_true_iff; auto. }
  intros HO Hn. destruct d1 as [l1|], d2 as [l2|]; cbn [default] in *; try done;
    [|injection HO as HO; f_equal; apply Hor; naive_solver|by specialize (Hn eq_refl)].
  destruct (_ && _); [done|]. injection HO as HO. f_equal.
  case_bool_decide; [apply andb_true_iff in HO as [Ha Hb]; apply andb_true_iff
                    |apply orb_true_iff in HO as [Ha|Ha]; apply orb_true_iff];
    [split; apply Hor; naive_solver|left; apply Hor; naive_solver|right; apply Hor; naive_solver].
Qed.

(** What another process receives of an access control is the same as long as
    nothing was boosted. *)
Lemma export_import acc :
  acc_op acc = AccessOPRead \/ acc_op acc = AccessOPWrite -> acc_boostPermissions acc = 0%Z ->
  ImportAccessControl (ExportAccessControl acc) = acc.
Proof.
  destruct acc as [op rs ws ps c r b]. cbn. by intros [->| ->] ->.
Qed.

(** A namespace's role has the permissions of an API that only a role of the
    cluster can have. *)
Example namespace_role_has_cluster_permissions :
  HasRequiredPermissions roles0
    (NewAccessControl (14, PERM_ADM_CONTROL)%Z AccessOPWrite {["prod" := UserRoleCIOps]} ∅) = true.
Proof. by vm_compute. Qed.
