(* ===== verification/NvAccessUri.v ===== *)
(** * The permissions an API needs

    controller/access/access.go maps the method and the path of a request to a
    category of APIs, and the category to permissions: four tables of paths
    with wildcards, compiled into a tree per method
    ([CompileUriPermitsMapping], [parseForRequiredPermits]) that
    [getRequiredPermissions] walks.  A node prefers its wildcards to the
    segment itself, so a path next to a wildcard would be shadowed by it; the
    tables have none ([tables_unshadowed]).  The routes of
    controller/rest/rest.go are compared with the tables. *)

From Stdlib Require Import ZArith Lia Ascii.
From S2P Require Import Prelude GoLib GoText NvCriteria NvAccessObj NvRoles NvAccess.

(** ** The categories and their permissions *)

Definition CONST_API_NO_AUTH := 3%Z.
Definition CONST_API_DEBUG := 4%Z.
Definition CONST_API_RT_SCAN := 5%Z.
Definition CONST_API_REG_SCAN := 6%Z.
Definition CONST_API_CICD_SCAN := 7%Z.
Definition CONST_API_CLOUD := 8%Z.
Definition CONST_API_INFRA := 9%Z.
Definition CONST_API_NV_RESOURCE := 10%Z.
Definition CONST_API_WORKLOAD := 11%Z.
Definition CONST_API_GROUP := 12%Z.
Definition CONST_API_RT_POLICIES := 13%Z.
Definition CONST_API_ADM_CONTROL := 14%Z.
Definition CONST_API_COMPLIANCE := 15%Z.
Definition CONST_API_AUDIT_EVENTS := 16%Z.
Definition CONST_API_SECURITY_EVENTS := 17%Z.
Definition CONST_API_EVENTS := 18%Z.
Definition CONST_API_AUTHENTICATION := 19%Z.
Definition CONST_API_AUTHORIZATION := 20%Z.
Definition CONST_API_SYSTEM_CONFIG := 21%Z.
Definition CONST_API_IBMSA := 22%Z.
Definition CONST_API_FED := 23%Z.
Definition CONST_API_PWD_PROFILE := 24%Z.
Definition CONST_API_VULNERABILITY := 25%Z.

(** A category that is not a key has the zero value. *)
Definition apiPermissions (c : Z) : Z :=
  default 0%Z ((list_to_map [
    (CONST_API_UNKNOWN, 0);
    (CONST_API_NO_AUTH, 0);
    (CONST_API_DEBUG, PERMS_CLUSTER_WRITE);
    (CONST_API_RT_SCAN, PERMS_RUNTIME_SCAN);
    (CONST_API_REG_SCAN, PERM_REG_SCAN);
    (CONST_API_CICD_SCAN, PERM_CICD_SCAN);
    (CONST_API_INFRA, PERM_INFRA_BASIC);
    (CONST_API_NV_RESOURCE, PERM_NV_RESOURCE);
    (CONST_API_WORKLOAD, PERM_WORKLOAD_BASIC);
    (CONST_API_GROUP, PERM_GROUP_BASIC);
    (CONST_API_RT_POLICIES, PERMS_RUNTIME_POLICIES);
    (CONST_API_ADM_CONTROL, PERM_ADM_CONTROL);
    (CONST_API_COMPLIANCE, PERMS_COMPLIANCE);
    (CONST_API_AUDIT_EVENTS, PERM_AUDIT_EVENTS);
    (CONST_API_SECURITY_EVENTS, PERMS_SECURITY_EVENTS);
    (CONST_API_EVENTS, PERM_EVENTS);
    (CONST_API_AUTHENTICATION, PERM_AUTHENTICATION);
    (CONST_API_AUTHORIZATION, PERM_AUTHORIZATION);
    (CONST_API_SYSTEM_CONFIG, PERM_SYSTEM_CONFIG);
    (CONST_API_IBMSA, PERM_IBMSA);
    (CONST_API_FED, PERM_FED);
    (CONST_API_PWD_PROFILE, PERMS_PWD_PROFILE);
    (CONST_API_VULNERABILITY, PERM_VULNERABILITY)]%Z : gmap Z Z) !! c).

(** ** The tables *)

Definition apiURIsGET : list (Z * list string) := [
  (CONST_API_NO_AUTH, [
     "v1/partner/ibm_sa/*/setup"; "v1/partner/ibm_sa/*/setup/*"; "v1/token_auth_server";
     "v1/token_auth_server/*"; "v1/eula"; "v1/fed/healthcheck"]);
  (CONST_API_DEBUG, [
     "v1/meter"; "v1/enforcer/*/probe_summary"; "v1/enforcer/*/probe_processes";
     "v1/enforcer/*/probe_containers"; "v1/debug/ip2workload"; "v1/debug/internal_subnets";
     "v1/debug/policy/rule"; "v1/debug/dlp/wlrule"; "v1/debug/dlp/rule"; "v1/debug/dlp/mac";
     "v1/debug/system/stats"; "v1/debug/controller/sync"; "v1/debug/workload/intercept";
     "v1/debug/registry/image/*"; "v1/session/summary"; "v1/file_monitor_file";
     "v1/system/usage"; "v1/system/alerts"]);
  (CONST_API_RT_SCAN, [
     "v1/scan/config"; "v1/scan/status"; "v1/scan/cache_stat/*"; "v1/scan/cache_data/*";
     "v1/scan/workload/*"; "v1/scan/image"; "v1/scan/image/*"; "v1/scan/host/*";
     "v1/scan/platform"; "v1/scan/platform/platform"; "v1/scan/asset"; "v1/vulasset";
     "v1/scan/asset/images"]);
  (CONST_API_REG_SCAN, [
     "v1/scan/registry"; "v1/scan/registry/*"; "v1/scan/registry/*/images";
     "v1/scan/registry/*/image/*"; "v1/scan/registry/*/layers/*"; "v1/list/registry_type";
     "v1/scan/sigstore/root_of_trust"; "v1/scan/sigstore/root_of_trust/*";
     "v1/scan/sigstore/root_of_trust/*/verifier";
     "v1/scan/sigstore/root_of_trust/*/verifier/*"]);
  (CONST_API_INFRA, [
     "v1/host"; "v1/host/*"; "v1/host/*/process_profile"; "v1/domain"]);
  (CONST_API_NV_RESOURCE, [
     "v1/controller"; "v1/controller/*"; "v1/controller/*/config"; "v1/controller/*/stats";
     "v1/controller/*/counter"; "v1/enforcer"; "v1/enforcer/*"; "v1/enforcer/*/stats";
     "v1/enforcer/*/counter"; "v1/enforcer/*/config"; "v1/scan/scanner"]);
  (CONST_API_WORKLOAD, [
     "v1/workload"; "v2/workload"; "v1/workload/*"; "v2/workload/*"; "v1/workload/*/stats";
     "v1/workload/*/config"]);
  (CONST_API_GROUP, [
     "v1/group"; "v1/group/*"; "v1/group/*/stats"; "v1/service"; "v1/service/*";
     "v1/file/group"]);
  (CONST_API_RT_POLICIES, [
     "v1/workload/*/process"; "v1/workload/*/process_history";
     "v1/workload/*/process_profile"; "v1/workload/*/file_profile"; "v1/dlp/sensor";
     "v1/dlp/sensor/*"; "v1/dlp/group"; "v1/dlp/group/*"; "v1/dlp/rule"; "v1/dlp/rule/*";
     "v1/waf/sensor"; "v1/waf/sensor/*"; "v1/waf/group"; "v1/waf/group/*"; "v1/waf/rule";
     "v1/waf/rule/*"; "v1/policy/rule"; "v1/policy/rule/*"; "v1/session";
     "v1/conversation_endpoint"; "v1/conversation"; "v1/conversation/*/*";
     "v1/process_profile"; "v1/process_profile/*"; "v1/process_rules/*"; "v1/file_monitor";
     "v1/file_monitor/*"; "v1/response/rule"; "v1/response/rule/*"; "v1/response/options";
     "v1/response/workload_rules/*"; "v1/list/application"; "v1/sniffer"; "v1/sniffer/*";
     "v1/sniffer/*/pcap"; "v1/file/group/config"]);
  (CONST_API_ADM_CONTROL, [
     "v1/admission/options"; "v1/admission/state"; "v1/admission/stats"; "v1/admission/rules";
     "v1/admission/rule/*"; "v1/debug/admission_stats"]);
  (CONST_API_COMPLIANCE, [
     "v1/host/*/compliance"; "v1/workload/*/compliance"; "v1/bench/host/*/docker";
     "v1/bench/host/*/kubernetes"; "v1/custom_check/*"; "v1/custom_check";
     "v1/compliance/asset"; "v1/list/compliance"; "v1/compliance/profile";
     "v1/compliance/profile/*"; "v1/compliance/available_filter"]);
  (CONST_API_AUDIT_EVENTS, [
     "v1/log/audit"]);
  (CONST_API_SECURITY_EVENTS, [
     "v1/log/incident"; "v1/log/threat"; "v1/log/threat/*"; "v1/log/violation";
     "v1/log/security"; "v1/log/violation/workload"]);
  (CONST_API_EVENTS, [
     "v1/log/event"; "v1/log/activity"]);
  (CONST_API_AUTHENTICATION, [
     "v1/server"; "v1/server/*"; "v1/server/*/user"]);
  (CONST_API_AUTHORIZATION, [
     "v1/user_role_permission/options"; "v1/user_role"; "v1/user_role/*"; "v1/user";
     "v1/user/*"; "v1/selfuser"; "v1/api_key"; "v1/api_key/*"; "v1/selfapikey"]);
  (CONST_API_PWD_PROFILE, [
     "v1/password_profile"; "v1/password_profile/*"]);
  (CONST_API_SYSTEM_CONFIG, [
     "v1/partner/ibm_sa_ep"; "v1/partner/ibm_sa_config"; "v1/file/config"; "v1/system/config";
     "v2/system/config"; "v1/system/license"; "v1/system/summary"; "v1/internal/system";
     "v1/system/score/metrics"]);
  (CONST_API_FED, [
     "v1/fed/member"; "v1/fed/join_token"; "v1/fed/cluster/*/**"; "v1/fed/view/*"]);
  (CONST_API_VULNERABILITY, [
     "v1/vulnerability/profile"; "v1/vulnerability/profile/*"])].

Definition apiURIsPOST : list (Z * list string) := [
  (CONST_API_NO_AUTH, [
     "v1/token_auth_server/*"; "v1/fed/ping_internal"; "v1/fed/joint_test_internal";
     "v1/auth"; "v1/fed_auth"; "v1/auth/*"; "v1/eula"]);
  (CONST_API_DEBUG, [
     "v1/fed/promote"; "v1/fed/join"; "v1/fed/leave"; "v1/fed/remove_internal";
     "v1/fed/command_internal"; "v1/debug/controller/sync/*"; "v1/controller/*/profiling";
     "v1/enforcer/*/profiling"; "v1/file/config"; "v1/file/fed_config"; "v1/csp/file/support";
     "v1/internal/alert"]);
  (CONST_API_RT_SCAN, [
     "v1/scan/workload/*"; "v1/scan/host/*"; "v1/scan/platform/platform"; "v1/vulasset";
     "v1/assetvul"; "v1/scan/asset/images"]);
  (CONST_API_REG_SCAN, [
     "v1/scan/registry/*/scan"; "v1/scan/registry"; "v2/scan/registry";
     "v1/scan/registry/*/test"; "v2/scan/registry/*/test"; "v1/scan/sigstore/root_of_trust";
     "v1/scan/sigstore/root_of_trust/*/verifier"]);
  (CONST_API_CICD_SCAN, [
     "v1/scan/result/repository"; "v1/scan/repository"]);
  (CONST_API_GROUP, [
     "v1/group"; "v1/file/group"; "v1/service"]);
  (CONST_API_RT_POLICIES, [
     "v1/workload/request/*"; "v1/dlp/sensor"; "v1/waf/sensor"; "v1/file/dlp";
     "v1/file/dlp/config"; "v1/file/waf"; "v1/file/waf/config"; "v1/file/response/rule";
     "v1/file/response/rule/config"; "v1/system/request"; "v1/sniffer";
     "v1/file/group/config"]);
  (CONST_API_ADM_CONTROL, [
     "v1/debug/admission/test"; "v1/admission/rule"; "v1/assess/admission/rule";
     "v1/file/admission"; "v1/file/admission/config"]);
  (CONST_API_COMPLIANCE, [
     "v1/bench/host/*/docker"; "v1/bench/host/*/kubernetes"; "v1/file/compliance/profile";
     "v1/file/compliance/profile/config"]);
  (CONST_API_AUTHENTICATION, [
     "v1/server"; "v1/debug/server/test"]);
  (CONST_API_AUTHORIZATION, [
     "v1/user_role"; "v1/user"; "v1/api_key"; "v1/user/*/password"]);
  (CONST_API_PWD_PROFILE, [
     "v1/password_profile"]);
  (CONST_API_SYSTEM_CONFIG, [
     "v1/system/license/update"; "v1/system/config/webhook";
     "v1/system/config/remote_repository"; "v1/system/score/metrics"]);
  (CONST_API_IBMSA, [
     "v1/partner/ibm_sa/*/setup/*"]);
  (CONST_API_FED, [
     "v1/fed/demote"; "v1/fed/deploy"; "v1/fed/cluster/*/**"; "v1/policy/rules/promote";
     "v1/admission/rule/promote"]);
  (CONST_API_VULNERABILITY, [
     "v1/vulnerability/profile/*/entry"; "v1/file/vulnerability/profile";
     "v1/file/vulnerability/profile/config"]);
  (CONST_API_WORKLOAD, [
     "v2/workload"])].

Definition apiURIsPATCH : list (Z * list string) := [
  (CONST_API_NO_AUTH, [
     "v1/auth"]);
  (CONST_API_DEBUG, [
     "v1/fed/config"]);
  (CONST_API_RT_SCAN, [
     "v1/scan/config"]);
  (CONST_API_REG_SCAN, [
     "v1/scan/registry/*"; "v2/scan/registry/*"; "v1/scan/sigstore/root_of_trust/*";
     "v1/scan/sigstore/root_of_trust/*/verifier/*"]);
  (CONST_API_INFRA, [
     "v1/domain"; "v1/domain/*"]);
  (CONST_API_NV_RESOURCE, [
     "v1/controller/*"; "v1/enforcer/*"]);
  (CONST_API_GROUP, [
     "v1/group/*"; "v1/service/config"; "v1/service/config/network";
     "v1/service/config/profile"]);
  (CONST_API_RT_POLICIES, [
     "v1/workload/*"; "v1/dlp/sensor/*"; "v1/dlp/group/*"; "v1/waf/sensor/*";
     "v1/waf/group/*"; "v1/policy/rule"; "v1/policy/rule/*"; "v1/conversation_endpoint/*";
     "v1/process_profile/*"; "v1/file_monitor/*"; "v1/response/rule"; "v1/response/rule/*";
     "v1/sniffer/stop/*"]);
  (CONST_API_ADM_CONTROL, [
     "v1/admission/state"; "v1/admission/rule"]);
  (CONST_API_COMPLIANCE, [
     "v1/custom_check/*"; "v1/compliance/profile/*"; "v1/compliance/profile/*/entry/*"]);
  (CONST_API_AUTHENTICATION, [
     "v1/server/*"; "v1/server/*/role/*"; "v1/server/*/group/*"; "v1/server/*/groups"]);
  (CONST_API_AUTHORIZATION, [
     "v1/user_role/*"; "v1/user/*"; "v1/user/*/role/*"]);
  (CONST_API_PWD_PROFILE, [
     "v1/password_profile/*"]);
  (CONST_API_SYSTEM_CONFIG, [
     "v1/system/config"; "v2/system/config"; "v1/system/config/webhook/*";
     "v1/system/config/remote_repository/*"]);
  (CONST_API_FED, [
     "v1/fed/cluster/*/**"]);
  (CONST_API_VULNERABILITY, [
     "v1/vulnerability/profile/*"; "v1/vulnerability/profile/*/entry/*"])].

Definition apiURIsDELETE : list (Z * list string) := [
  (CONST_API_NO_AUTH, [
     "v1/auth"]);
  (CONST_API_DEBUG, [
     "v1/fed_auth"; "v1/conversation_endpoint/*"; "v1/conversation"; "v1/session";
     "v1/partner/ibm_sa/*/setup/*/*"]);
  (CONST_API_REG_SCAN, [
     "v1/scan/registry/*/scan"; "v1/scan/registry/*"; "v1/scan/registry/*/test";
     "v1/scan/sigstore/root_of_trust/*"; "v1/scan/sigstore/root_of_trust/*/verifier/*"]);
  (CONST_API_GROUP, [
     "v1/group/*"]);
  (CONST_API_RT_POLICIES, [
     "v1/dlp/sensor/*"; "v1/waf/sensor/*"; "v1/policy/rule/*"; "v1/policy/rule";
     "v1/conversation/*/*"; "v1/response/rule/*"; "v1/response/rule"; "v1/sniffer/*"]);
  (CONST_API_ADM_CONTROL, [
     "v1/admission/rule/*"; "v1/admission/rules"]);
  (CONST_API_COMPLIANCE, [
     "v1/compliance/profile/*/entry/*"]);
  (CONST_API_AUTHENTICATION, [
     "v1/server/*"]);
  (CONST_API_AUTHORIZATION, [
     "v1/user_role/*"; "v1/user/*"; "v1/api_key/*"]);
  (CONST_API_PWD_PROFILE, [
     "v1/password_profile/*"]);
  (CONST_API_SYSTEM_CONFIG, [
     "v1/system/license"; "v1/system/config/webhook/*";
     "v1/system/config/remote_repository/*"]);
  (CONST_API_FED, [
     "v1/fed/cluster/*"; "v1/fed/cluster/*/**"]);
  (CONST_API_VULNERABILITY, [
     "v1/vulnerability/profile/*/entry/*"])].

Definition verbApiURIs : list (string * list (Z * list string)) := [
  ("GET", apiURIsGET); ("POST", apiURIsPOST); ("PATCH", apiURIsPATCH); ("DELETE", apiURIsDELETE)].

(** ** The tree *)

(** The map of children, each under its segment once. *)
Inductive UriApiNode := UNode (childNodes : list (string * UriApiNode)) (apiCategoryID : Z).

Definition childNodes (n : UriApiNode) : list (string * UriApiNode) := let 'UNode c _ := n in c.
Definition apiCategoryID (n : UriApiNode) : Z := let 'UNode _ a := n in a.
Definition with_category (n : UriApiNode) (c : Z) : UriApiNode := UNode (childNodes n) c.

Fixpoint child {A} (k : string) (l : list (string * A)) : option A :=
  match l with
  | [] => None
  | (k', v) :: l' => if decide (k' = k) then Some v else child k l'
  end.

Fixpoint set_child {A} (k : string) (v : A) (l : list (string * A)) : list (string * A) :=
  match l with
  | [] => [(k, v)]
  | (k', v') :: l' => if decide (k' = k) then (k, v) :: l' else (k', v') :: set_child k v l'
  end.

Definition new_node : UriApiNode := UNode [] CONST_API_UNSUPPORTED.

(** The node as the call leaves it, and whether the caller is a leaf. *)
Fixpoint parseForRequiredPermits (ssUri : list string) (parentNode : UriApiNode) (apiID : Z)
    : UriApiNode * bool :=
  match ssUri with
  | [] => (parentNode, true)
  | s :: rest =>
      let currentNode := default new_node (child s (childNodes parentNode)) in
      let '(currentNode, amILeafNode) := parseForRequiredPermits rest currentNode apiID in
      let currentNode := if amILeafNode then with_category currentNode apiID else currentNode in
      (UNode (set_child s currentNode (childNodes parentNode)) (apiCategoryID parentNode), false)
  end.

(** The tree of a method, from the (path, category) pairs in the order in
    which the range over the table's map yields them. *)
Definition compile_node (entries : list (list string * Z)) : UriApiNode :=
  foldl (fun n '(ss, c) => (parseForRequiredPermits ss n c).1) new_node entries.

Definition table_entries (t : list (Z * list string)) : list (list string * Z) :=
  mjoin ((fun '(c, uris) => (fun uri => (Split uri "/", c)) <$> uris) <$> t).

(** [CompileUriPermitsMapping], for the orders of the four ranges. *)
Definition CompileUriPermitsMapping (ord : string -> list (list string * Z)) : gmap string UriApiNode :=
  list_to_map ((fun '(verb, _) => (verb, compile_node (ord verb))) <$> verbApiURIs).

(** The walk over the segments of the path; zero when it leaves the tree. *)
Fixpoint walk (ss : list string) (parentNode : UriApiNode) : Z :=
  match ss with
  | [] => 0
  | s :: rest =>
      match child "**" (childNodes parentNode) with
      | Some node => apiCategoryID node
      | None =>
          match child "*" (childNodes parentNode) with
          | Some node => if bool_decide (rest = []) then apiCategoryID node else walk rest node
          | None =>
              match child s (childNodes parentNode) with
              | Some node => if bool_decide (rest = []) then apiCategoryID node else walk rest node
              | None => 0
              end
          end
      end
  end%Z.

(** [path] is the path of the request's URL, in lower case; [None] when the
    URL does not parse. *)
Definition getRequiredPermissions (mappings : gmap string UriApiNode) (method : string)
    (path : option string) : Z * Z :=
  let apiCategoryID :=
    match path with
    | None => 0%Z
    | Some path =>
        match mappings !! method with
        | Some parentNode => walk (drop 1 (Split path "/")) parentNode
        | None => 0%Z
        end
    end in
  (apiCategoryID, apiPermissions apiCategoryID).

(** ** What the tree holds *)

Fixpoint node_at (p : list string) (n : UriApiNode) : option UriApiNode :=
  match p with
  | [] => Some n
  | k :: p' => c ← child k (childNodes n); node_at p' c
  end.

Definition category_at (p : list string) (n : UriApiNode) : option Z := apiCategoryID <$> node_at p n.

Lemma child_set {A} k k' (v : A) l :
  child k' (set_child k v l) = if decide (k' = k) then Some v else child k' l.
Proof.
  induction l as [|[k0 v0] l IH]; simpl.
  - destruct (decide (k = k')), (decide (k' = k)); congruence.
  - destruct (decide (k0 = k)) as [->|]; simpl.
    + destruct (decide (k = k')), (decide (k' = k)); congruence.
    + rewrite IH. destruct (decide (k0 = k')), (decide (k' = k)); congruence.
Qed.

Lemma parse_leaf ss n c : (parseForRequiredPermits ss n c).2 = bool_decide (ss = []).
Proof.
  destruct ss as [|s ss]; [done|]. simpl. destruct (parseForRequiredPermits ss _ c). done.
Qed.

Lemma parse_category ss n c : apiCategoryID (parseForRequiredPermits ss n c).1 = apiCategoryID n.
Proof.
  destruct ss as [|s ss]; [done|]. simpl. destruct (parseForRequiredPermits ss _ c). done.
Qed.

Lemma parse_child s ss n c k :
  child k (childNodes (parseForRequiredPermits (s :: ss) n c).1)
  = if decide (k = s) then
      let n' := (parseForRequiredPermits ss (default new_node (child s (childNodes n))) c).1 in
      Some (if decide (ss = []) then with_category n' c else n')
    else child k (childNodes n).
Proof.
  simpl. pose proof (parse_leaf ss (default new_node (child s (childNodes n))) c) as Hl.
  destruct (parseForRequiredPermits ss _ c) as [n' b]. simpl in *. subst b.
  rewrite child_set. destruct (decide (k = s)); [|done].
  by destruct (decide (ss = [])); [rewrite bool_decide_eq_true_2|rewrite bool_decide_eq_false_2].
Qed.

(** Adding a path sets its category and completes its prefixes. *)
Lemma parse_category_at ss n c p :
  p <> [] ->
  category_at p (parseForRequiredPermits ss n c).1
  = if decide (p = ss) then Some c
    else if decide (p `prefix_of` ss) then Some (default CONST_API_UNSUPPORTED (category_at p n))
    else category_at p n.
Proof.
  revert n p. induction ss as [|s ss IH]; intros n p Hp.
  { simpl. rewrite decide_False by done. rewrite decide_False; [done|].
    intros ->%prefix_nil_inv. done. }
  destruct p as [|k p]; [done|]. unfold category_at. cbn [node_at]. rewrite parse_child.
  destruct (decide (k = s)) as [->|Hk].
  2:{ rewrite !decide_False; [done| |congruence]. intros [t Ht]. by injection Ht. }
  cbn [mbind option_bind].
  assert (Hpre : forall q, s :: q `prefix_of` s :: ss <-> q `prefix_of` ss).
  { intros q. split; [apply prefix_cons_inv_2|apply prefix_cons]. }
  destruct (decide (p = [])) as [->|Hne].
  - cbn [node_at fmap option_fmap option_map].
    destruct (decide (ss = [])) as [->|Hss].
    + by rewrite decide_True.
    + rewrite parse_category, (decide_False (P := [s] = s :: ss)) by congruence.
      rewrite decide_True by (apply Hpre, prefix_nil).
      by destruct (child s (childNodes n)).
  - assert (HN : node_at p (if decide (ss = []) then
        with_category (parseForRequiredPermits ss (default new_node (child s (childNodes n))) c).1 c
        else (parseForRequiredPermits ss (default new_node (child s (childNodes n))) c).1)
      = node_at p (parseForRequiredPermits ss (default new_node (child s (childNodes n))) c).1)
      by (destruct (decide (ss = [])); by destruct p).
    rewrite HN. fold (category_at p (parseForRequiredPermits ss (default new_node (child s (childNodes n))) c).1).
    rewrite IH by done.
    assert (Hd : category_at p (default new_node (child s (childNodes n)))
      = apiCategoryID <$> (child s (childNodes n) ≫= node_at p)).
    { unfold category_at. destruct (child s (childNodes n)); [done|]. by destruct p. }
    rewrite Hd.
    destruct (decide (p = ss)) as [->|Hps]; [by rewrite decide_True|].
    rewrite (decide_False (P := s :: p = s :: ss)) by congruence.
    destruct (decide (p `prefix_of` ss)) as [H|H];
      [rewrite decide_True by (by apply Hpre)|rewrite decide_False by (by rewrite Hpre)]; done.
Qed.

Lemma compile_snoc entries ss c :
  compile_node (entries ++ [(ss, c)]) = (parseForRequiredPermits ss (compile_node entries) c).1.
Proof. unfold compile_node. by rewrite foldl_app. Qed.

Lemma compile_complete entries p c :
  NoDup entries.*1 -> (p, c) ∈ entries -> p <> [] -> category_at p (compile_node entries) = Some c.
Proof.
  induction entries as [|[ss c'] entries IH] using rev_ind; intros Hnd Hin Hp; [set_solver|].
  rewrite compile_snoc, parse_category_at by done.
  rewrite fmap_app in Hnd. apply NoDup_app in Hnd as (Hnd & Hdis & _).
  apply elem_of_app in Hin as [Hin|Heq%list_elem_of_singleton].
  - assert (Hne : p <> ss).
    { intros ->. apply (Hdis ss); [|set_solver]. change ss with ((ss, c).1). by apply list_elem_of_fmap_2. }
    rewrite decide_False, IH by done. by destruct (decide _).
  - injection Heq as -> ->. by rewrite decide_True.
Qed.

Lemma compile_sound entries p c :
  p <> [] -> category_at p (compile_node entries) = Some c ->
  (exists q, p `prefix_of` q /\ q ∈ entries.*1) /\ ((p, c) ∈ entries \/ c = CONST_API_UNSUPPORTED).
Proof.
  intros Hp. revert c. induction entries as [|[ss c'] entries IH] using rev_ind; intros c.
  { by destruct p. }
  rewrite compile_snoc, parse_category_at by done. rewrite fmap_app.
  destruct (decide (p = ss)) as [->|Hne].
  { intros [= ->]. split; [exists ss; split; [done|set_solver]|left; set_solver]. }
  destruct (decide (p `prefix_of` ss)) as [Hpre|Hpre].
  - intros [= <-]. split; [exists ss; split; [done|set_solver]|].
    destruct (category_at p (compile_node entries)) as [c0|]; [|by right]. simpl.
    destruct (IH c0 eq_refl) as [_ [Hin| ->]]; [left; set_solver|by right].
  - intros Hc. destruct (IH c Hc) as [(q & Hq & Hin) H]. split; [exists q; set_solver|set_solver].
Qed.

(** ** What the walk finds *)

Definition wild (k : string) : bool := bool_decide (k = "*") || bool_decide (k = "**").

(** A path of a table matches the segments of a request: [*] is one segment,
    [**] at the end is what is left. *)
Fixpoint pat_match (p ss : list string) : bool :=
  match p, ss with
  | [], [] => true
  | k :: p', s :: ss' =>
      if decide (k = "**") then bool_decide (p' = [])
      else (bool_decide (k = "*") || bool_decide (k = s)) && pat_match p' ss'
  | _, _ => false
  end.

(** A wildcard has no sibling. *)
Definition unshadowed (n : UriApiNode) : Prop :=
  forall p k k', wild k = true ->
    is_Some (node_at (p ++ [k]) n) -> is_Some (node_at (p ++ [k']) n) -> k' = k.

Lemma unshadowed_child n k c : unshadowed n -> child k (childNodes n) = Some c -> unshadowed c.
Proof.
  intros Hu Hc p k1 k2 Hw H1 H2. apply (Hu (k :: p) k1 k2 Hw); simpl; by rewrite Hc.
Qed.

Lemma unshadowed_siblings n k k' c c' :
  unshadowed n -> wild k = true ->
  child k (childNodes n) = Some c -> child k' (childNodes n) = Some c' -> k' = k.
Proof. intros Hu Hw H1 H2. apply (Hu [] k k' Hw); simpl; [rewrite H1|rewrite H2]; done. Qed.

Lemma pat_match_nil p ss : p = [] \/ ss = [] -> pat_match p ss = true -> p = [] /\ ss = [].
Proof. destruct p, ss; simpl; naive_solver. Qed.

Lemma walk_complete p ss n m :
  unshadowed n -> p <> [] -> node_at p n = Some m -> pat_match p ss = true ->
  walk ss n = apiCategoryID m.
Proof.
  revert ss n. induction p as [|k p IH]; intros ss n Hu Hne Hat Hm; [done|]. clear Hne.
  destruct ss as [|s ss]; [done|]. cbn [node_at] in Hat.
  destruct (child k (childNodes n)) as [n'|] eqn:Hk; [|done]. cbn [mbind option_bind] in Hat.
  cbn [pat_match] in Hm.
  assert (Hnext : pat_match p ss = true ->
    (if bool_decide (ss = []) then apiCategoryID n' else walk ss n') = apiCategoryID m).
  { intros Hps. destruct (decide (p = [])) as [->|Hp].
    - destruct (pat_match_nil [] ss (or_introl eq_refl) Hps) as [_ ->]. by injection Hat as ->.
    - rewrite bool_decide_eq_false_2.
      + apply IH; [by eapply unshadowed_child|done|done|done].
      + intros ->. destruct (pat_match_nil p [] (or_intror eq_refl) Hps). done. }
  assert (Hno : forall w, wild w = true -> w <> k -> child w (childNodes n) = None).
  { intros w Hw Hwk. destruct (child w (childNodes n)) as [c|] eqn:Hc; [|done].
    exfalso. apply Hwk. symmetry. by eapply unshadowed_siblings. }
  cbn [walk]. destruct (decide (k = "**")) as [->|Hss].
  { rewrite Hk. apply bool_decide_eq_true in Hm as ->. by injection Hat as ->. }
  rewrite (Hno "**") by done. apply andb_true_iff in Hm as [Hks Hps].
  destruct (decide (k = "*")) as [->|Hs]; [rewrite Hk; by apply Hnext|].
  rewrite (Hno "*") by done. apply orb_true_iff in Hks as [Hks|Hks]; apply bool_decide_eq_true in Hks;
    [done|]. subst s. rewrite Hk. by apply Hnext.
Qed.

Lemma walk_sound ss n c :
  walk ss n = c -> c = CONST_API_UNKNOWN \/
  exists p, p <> [] /\ category_at p n = Some c /\ pat_match p ss = true.
Proof.
  revert n. induction ss as [|s ss IH]; intros n; cbn [walk]; [intros <-; by left|].
  assert (Hstep : forall k n', child k (childNodes n) = Some n' -> k <> "**" ->
    bool_decide (k = "*") || bool_decide (k = s) = true ->
    (if bool_decide (ss = []) then apiCategoryID n' else walk ss n') = c ->
    c = CONST_API_UNKNOWN \/ exists p, p <> [] /\ category_at p n = Some c /\ pat_match p (s :: ss) = true).
  { intros k n' Hk Hn Hks. unfold category_at.
    destruct (decide (ss = [])) as [Hss|Hss];
      [rewrite (bool_decide_eq_true_2 (ss = [])) by done
      |rewrite (bool_decide_eq_false_2 (ss = [])) by done].
    - intros <-. right. exists [k]. simpl. rewrite Hk, decide_False by done.
      split_and!; [done|done|]. by rewrite Hks, Hss.
    - intros Hw. destruct (IH n' Hw) as [->|(p & Hp & Hc & Hm)]; [by left|right].
      exists (k :: p). simpl. rewrite Hk, decide_False by done. split_and!; [done|done|].
      by rewrite Hks, Hm. }
  destruct (child "**" (childNodes n)) as [n'|] eqn:H2.
  { intros <-. right. exists ["**"]. unfold category_at. simpl. by rewrite H2. }
  destruct (child "*" (childNodes n)) as [n'|] eqn:H1; [by apply (Hstep "*")|].
  destruct (child s (childNodes n)) as [n'|] eqn:H0; [|intros <-; by left].
  apply (Hstep s); [done| |by rewrite (bool_decide_eq_true_2 (s = s)), orb_true_r by done].
  intros ->. congruence.
Qed.

(** Two paths part at segments of which neither is a wildcard. *)
Fixpoint part_ok (a b : list string) : bool :=
  match a, b with
  | x :: a', y :: b' => if decide (x = y) then part_ok a' b' else negb (wild x) && negb (wild y)
  | _, _ => true
  end.

Definition paths_unshadowed (ps : list (list string)) : bool :=
  forallb (fun a => forallb (part_ok a) ps) ps.

Lemma part_ok_prefix p k k' a b :
  part_ok (p ++ k :: a) (p ++ k' :: b) = true -> wild k = true -> k' = k.
Proof.
  induction p as [|x p IH]; simpl.
  - destruct (decide (k = k')); [done|]. intros [Hn _]%andb_true_iff Hw. by rewrite Hw in Hn.
  - by rewrite decide_True.
Qed.

Lemma compile_unshadowed entries :
  paths_unshadowed entries.*1 = true -> unshadowed (compile_node entries).
Proof.
  intros Hall p k k' Hw [n Hn] [n' Hn'].
  assert (Hex : forall x m, node_at (p ++ [x]) (compile_node entries) = Some m ->
    exists t, (p ++ x :: t) ∈ entries.*1).
  { intros x m Hm. destruct (compile_sound entries (p ++ [x]) (apiCategoryID m)) as [(q & [t ->] & Hq) _].
    - by destruct p.
    - unfold category_at. by rewrite Hm.
    - exists t. by rewrite <- app_assoc in Hq. }
  destruct (Hex _ _ Hn) as [t Ht], (Hex _ _ Hn') as [t' Ht'].
  unfold paths_unshadowed in Hall. rewrite forallb_forall in Hall.
  specialize (Hall _ (proj1 (list_elem_of_In _ _) Ht)). rewrite forallb_forall in Hall.
  specialize (Hall _ (proj1 (list_elem_of_In _ _) Ht')). by eapply part_ok_prefix.
Qed.

(** ** The routes of the REST server *)

Definition routes1 : list (string * string) := [
  ("POST", "/v1/auth"); ("POST", "/v1/fed_auth"); ("POST", "/v1/auth/:server");
  ("PATCH", "/v1/auth"); ("DELETE", "/v1/auth"); ("DELETE", "/v1/fed_auth"); ("GET", "/v1/eula");
  ("POST", "/v1/eula"); ("GET", "/v1/user"); ("GET", "/v1/user/:fullname");
  ("GET", "/v1/selfuser"); ("POST", "/v1/user"); ("PATCH", "/v1/user/:fullname");
  ("PATCH", "/v1/user/:fullname/role/:role"); ("POST", "/v1/user/:fullname/password");
  ("DELETE", "/v1/user/:fullname"); ("GET", "/v1/password_profile");
  ("GET", "/v1/password_profile/:name"); ("PATCH", "/v1/password_profile/:name");
  ("GET", "/v1/token_auth_server"); ("GET", "/v1/token_auth_server/:server");
  ("POST", "/v1/token_auth_server/:server"); ("GET", "/v1/token_auth_server/:server/slo");
  ("GET", "/v1/server"); ("GET", "/v1/server/:name"); ("GET", "/v1/server/:name/user");
  ("POST", "/v1/server"); ("PATCH", "/v1/server/:name");
  ("PATCH", "/v1/server/:name/role/:role"); ("PATCH", "/v1/server/:name/group/:group");
  ("PATCH", "/v1/server/:name/groups"); ("DELETE", "/v1/server/:name");
  ("GET", "/v1/file/config"); ("POST", "/v1/file/fed_config"); ("POST", "/v1/file/config");
  ("GET", "/v1/file/group"); ("POST", "/v1/file/group"); ("POST", "/v1/file/admission");
  ("POST", "/v1/file/response/rule"); ("POST", "/v1/file/dlp"); ("POST", "/v1/file/waf");
  ("POST", "/v1/file/group/config"); ("POST", "/v1/file/admission/config");
  ("POST", "/v1/file/response/rule/config"); ("POST", "/v1/file/dlp/config");
  ("POST", "/v1/file/waf/config"); ("POST", "/v1/file/compliance/profile");
  ("POST", "/v1/file/vulnerability/profile"); ("POST", "/v1/file/compliance/profile/config");
  ("POST", "/v1/file/vulnerability/profile/config"); ("GET", "/v1/file/group/config");
  ("POST", "/v1/internal/alert"); ("GET", "/v1/internal/system"); ("GET", "/v1/system/usage");
  ("GET", "/v1/system/summary"); ("GET", "/v1/system/config"); ("GET", "/v2/system/config");
  ("GET", "/v1/system/alerts"); ("GET", "/v1/system/score/metrics");
  ("POST", "/v1/system/score/metrics"); ("PATCH", "/v1/system/config");
  ("PATCH", "/v2/system/config"); ("POST", "/v1/system/config/webhook");
  ("PATCH", "/v1/system/config/webhook/:name"); ("DELETE", "/v1/system/config/webhook/:name");
  ("POST", "/v1/system/request"); ("GET", "/v1/domain"); ("PATCH", "/v1/domain");
  ("PATCH", "/v1/domain/:name"); ("GET", "/v1/host"); ("GET", "/v1/host/:id");
  ("GET", "/v1/host/:id/compliance"); ("GET", "/v1/host/:id/process_profile");
  ("GET", "/v1/controller"); ("GET", "/v1/controller/:id"); ("GET", "/v1/controller/:id/stats");
  ("GET", "/v1/controller/:id/config"); ("GET", "/v1/controller/:id/counter");
  ("POST", "/v1/controller/:id/profiling"); ("PATCH", "/v1/controller/:id");
  ("GET", "/v1/enforcer"); ("GET", "/v1/enforcer/:id"); ("GET", "/v1/enforcer/:id/stats");
  ("GET", "/v1/enforcer/:id/counter"); ("POST", "/v1/enforcer/:id/profiling");
  ("GET", "/v1/enforcer/:id/config"); ("PATCH", "/v1/enforcer/:id");
  ("GET", "/v1/enforcer/:id/probe_summary"); ("GET", "/v1/enforcer/:id/probe_processes");
  ("GET", "/v1/enforcer/:id/probe_containers"); ("GET", "/v1/workload"); ("GET", "/v2/workload");
  ("POST", "/v2/workload"); ("GET", "/v1/workload/:id"); ("GET", "/v2/workload/:id");
  ("GET", "/v1/workload/:id/stats"); ("GET", "/v1/workload/:id/config");
  ("GET", "/v1/workload/:id/process"); ("GET", "/v1/workload/:id/process_history");
  ("GET", "/v1/workload/:id/process_profile"); ("GET", "/v1/workload/:id/file_profile");
  ("PATCH", "/v1/workload/:id"); ("POST", "/v1/workload/request/:id");
  ("GET", "/v1/workload/:id/compliance"); ("GET", "/v1/conversation_endpoint");
  ("PATCH", "/v1/conversation_endpoint/:id"); ("DELETE", "/v1/conversation_endpoint/:id");
  ("GET", "/v1/conversation"); ("GET", "/v1/conversation/:from/:to");
  ("DELETE", "/v1/conversation"); ("DELETE", "/v1/conversation/:from/:to"); ("GET", "/v1/group");
  ("GET", "/v1/group/:name"); ("POST", "/v1/group"); ("PATCH", "/v1/group/:name");
  ("DELETE", "/v1/group/:name"); ("GET", "/v1/group/:name/stats");
  ("GET", "/v1/process_profile"); ("GET", "/v1/process_profile/:name");
  ("PATCH", "/v1/process_profile/:name"); ("GET", "/v1/process_rules/:uuid");
  ("GET", "/v1/file_monitor"); ("GET", "/v1/file_monitor/:name");
  ("PATCH", "/v1/file_monitor/:name"); ("GET", "/v1/file_monitor_file");
  ("GET", "/v1/dlp/sensor"); ("GET", "/v1/dlp/sensor/:name"); ("POST", "/v1/dlp/sensor");
  ("PATCH", "/v1/dlp/sensor/:name"); ("DELETE", "/v1/dlp/sensor/:name");
  ("GET", "/v1/dlp/group"); ("GET", "/v1/dlp/group/:name"); ("PATCH", "/v1/dlp/group/:name");
  ("GET", "/v1/dlp/rule"); ("GET", "/v1/dlp/rule/:name")].

Definition routes2 : list (string * string) := [
  ("GET", "/v1/waf/sensor"); ("GET", "/v1/waf/sensor/:name"); ("POST", "/v1/waf/sensor");
  ("PATCH", "/v1/waf/sensor/:name"); ("DELETE", "/v1/waf/sensor/:name");
  ("GET", "/v1/waf/group"); ("GET", "/v1/waf/group/:name"); ("PATCH", "/v1/waf/group/:name");
  ("GET", "/v1/waf/rule"); ("GET", "/v1/waf/rule/:name"); ("GET", "/v1/policy/rule");
  ("GET", "/v1/policy/rule/:id"); ("PATCH", "/v1/policy/rule"); ("PATCH", "/v1/policy/rule/:id");
  ("DELETE", "/v1/policy/rule/:id"); ("DELETE", "/v1/policy/rule");
  ("POST", "/v1/policy/rules/promote"); ("GET", "/v1/response/rule");
  ("GET", "/v1/response/rule/:id"); ("GET", "/v1/response/workload_rules/:id");
  ("PATCH", "/v1/response/rule"); ("PATCH", "/v1/response/rule/:id");
  ("DELETE", "/v1/response/rule/:id"); ("DELETE", "/v1/response/rule");
  ("GET", "/v1/response/options"); ("GET", "/v1/admission/state");
  ("PATCH", "/v1/admission/state"); ("GET", "/v1/admission/options");
  ("GET", "/v1/admission/stats"); ("GET", "/v1/admission/rules");
  ("GET", "/v1/admission/rule/:id"); ("POST", "/v1/admission/rule");
  ("PATCH", "/v1/admission/rule"); ("DELETE", "/v1/admission/rule/:id");
  ("DELETE", "/v1/admission/rules"); ("POST", "/v1/admission/rule/promote");
  ("POST", "/v1/assess/admission/rule"); ("POST", "/v1/service");
  ("PATCH", "/v1/service/config"); ("GET", "/v1/service"); ("GET", "/v1/service/:name");
  ("PATCH", "/v1/service/config/profile"); ("PATCH", "/v1/service/config/network");
  ("GET", "/v1/fed/member"); ("PATCH", "/v1/fed/config"); ("POST", "/v1/fed/promote");
  ("POST", "/v1/fed/demote"); ("GET", "/v1/fed/join_token"); ("POST", "/v1/fed/join");
  ("POST", "/v1/fed/leave"); ("DELETE", "/v1/fed/cluster/:id"); ("POST", "/v1/fed/deploy");
  ("POST", "/v1/fed/ping_internal"); ("POST", "/v1/fed/joint_test_internal");
  ("POST", "/v1/fed/remove_internal"); ("POST", "/v1/fed/command_internal");
  ("GET", "/v1/fed/view/:id"); ("GET", "/v1/fed/cluster/:id/*request");
  ("POST", "/v1/fed/cluster/:id/*request"); ("PATCH", "/v1/fed/cluster/:id/*request");
  ("DELETE", "/v1/fed/cluster/:id/*request"); ("GET", "/v1/log/activity");
  ("GET", "/v1/log/event"); ("GET", "/v1/log/security"); ("GET", "/v1/log/incident");
  ("GET", "/v1/log/threat"); ("GET", "/v1/log/threat/:id"); ("GET", "/v1/log/violation");
  ("GET", "/v1/log/violation/workload"); ("GET", "/v1/log/audit"); ("GET", "/v1/scan/scanner");
  ("PATCH", "/v1/scan/config"); ("GET", "/v1/scan/config"); ("GET", "/v1/scan/status");
  ("GET", "/v1/scan/cache_stat/:id"); ("GET", "/v1/scan/cache_data/:id");
  ("POST", "/v1/scan/workload/:id"); ("GET", "/v1/scan/workload/:id"); ("GET", "/v1/scan/image");
  ("GET", "/v1/scan/image/:id"); ("POST", "/v1/scan/host/:id"); ("GET", "/v1/scan/host/:id");
  ("POST", "/v1/scan/platform/platform"); ("GET", "/v1/scan/platform");
  ("GET", "/v1/scan/platform/platform"); ("POST", "/v1/scan/result/repository");
  ("POST", "/v1/scan/repository"); ("POST", "/v1/scan/registry"); ("POST", "/v2/scan/registry");
  ("PATCH", "/v1/scan/registry/:name"); ("PATCH", "/v2/scan/registry/:name");
  ("POST", "/v1/scan/registry/:name/test"); ("POST", "/v2/scan/registry/:name/test");
  ("DELETE", "/v1/scan/registry/:name/test"); ("GET", "/v1/scan/registry");
  ("GET", "/v1/scan/registry/:name"); ("GET", "/v1/scan/registry/:name/images");
  ("DELETE", "/v1/scan/registry/:name"); ("POST", "/v1/scan/registry/:name/scan");
  ("DELETE", "/v1/scan/registry/:name/scan"); ("GET", "/v1/scan/registry/:name/image/:id");
  ("GET", "/v1/scan/registry/:name/layers/:id"); ("GET", "/v1/scan/asset");
  ("POST", "/v1/vulasset"); ("GET", "/v1/vulasset"); ("POST", "/v1/assetvul");
  ("POST", "/v1/scan/asset/images"); ("GET", "/v1/scan/asset/images");
  ("GET", "/v1/scan/sigstore/root_of_trust"); ("POST", "/v1/scan/sigstore/root_of_trust");
  ("GET", "/v1/scan/sigstore/root_of_trust/:root_name");
  ("PATCH", "/v1/scan/sigstore/root_of_trust/:root_name");
  ("DELETE", "/v1/scan/sigstore/root_of_trust/:root_name");
  ("GET", "/v1/scan/sigstore/root_of_trust/:root_name/verifier");
  ("POST", "/v1/scan/sigstore/root_of_trust/:root_name/verifier");
  ("GET", "/v1/scan/sigstore/root_of_trust/:root_name/verifier/:verifier_name");
  ("PATCH", "/v1/scan/sigstore/root_of_trust/:root_name/verifier/:verifier_name");
  ("DELETE", "/v1/scan/sigstore/root_of_trust/:root_name/verifier/:verifier_name");
  ("GET", "/v1/compliance/asset"); ("GET", "/v1/bench/host/:id/docker");
  ("POST", "/v1/bench/host/:id/docker"); ("GET", "/v1/bench/host/:id/kubernetes");
  ("POST", "/v1/bench/host/:id/kubernetes"); ("GET", "/v1/custom_check/:group");
  ("GET", "/v1/custom_check"); ("PATCH", "/v1/custom_check/:group");
  ("GET", "/v1/compliance/available_filter"); ("GET", "/v1/compliance/profile");
  ("GET", "/v1/compliance/profile/:name"); ("PATCH", "/v1/compliance/profile/:name");
  ("PATCH", "/v1/compliance/profile/:name/entry/:check");
  ("DELETE", "/v1/compliance/profile/:name/entry/:check"); ("GET", "/v1/vulnerability/profile");
  ("GET", "/v1/vulnerability/profile/:name"); ("PATCH", "/v1/vulnerability/profile/:name");
  ("POST", "/v1/vulnerability/profile/:name/entry");
  ("PATCH", "/v1/vulnerability/profile/:name/entry/:id");
  ("DELETE", "/v1/vulnerability/profile/:name/entry/:id")].

Definition routes3 : list (string * string) := [
  ("GET", "/v1/sniffer"); ("GET", "/v1/sniffer/:id"); ("POST", "/v1/sniffer");
  ("PATCH", "/v1/sniffer/stop/:id"); ("DELETE", "/v1/sniffer/:id");
  ("GET", "/v1/sniffer/:id/pcap"); ("GET", "/v1/list/application");
  ("GET", "/v1/list/registry_type"); ("GET", "/v1/list/compliance"); ("GET", "/v1/session");
  ("GET", "/v1/session/summary"); ("DELETE", "/v1/session"); ("GET", "/v1/meter");
  ("POST", "/v1/debug/server/test"); ("GET", "/v1/debug/ip2workload");
  ("GET", "/v1/debug/internal_subnets"); ("GET", "/v1/debug/policy/rule");
  ("GET", "/v1/debug/dlp/wlrule"); ("GET", "/v1/debug/dlp/rule"); ("GET", "/v1/debug/dlp/mac");
  ("GET", "/v1/debug/system/stats"); ("POST", "/v1/debug/controller/sync/:id");
  ("GET", "/v1/debug/controller/sync"); ("GET", "/v1/debug/workload/intercept");
  ("GET", "/v1/debug/registry/image/:name"); ("GET", "/v1/debug/admission_stats");
  ("POST", "/v1/debug/admission/test"); ("GET", "/v1/partner/ibm_sa_ep");
  ("GET", "/v1/partner/ibm_sa_config"); ("GET", "/v1/partner/ibm_sa/:id/setup");
  ("GET", "/v1/partner/ibm_sa/:id/setup/:info");
  ("POST", "/v1/partner/ibm_sa/:id/setup/:action"); ("GET", "/v1/user_role_permission/options");
  ("GET", "/v1/user_role"); ("GET", "/v1/user_role/:name"); ("POST", "/v1/user_role");
  ("PATCH", "/v1/user_role/:name"); ("DELETE", "/v1/user_role/:name"); ("GET", "/v1/api_key");
  ("GET", "/v1/api_key/:name"); ("POST", "/v1/api_key"); ("DELETE", "/v1/api_key/:name");
  ("GET", "/v1/selfapikey"); ("POST", "/v1/system/config/remote_repository");
  ("PATCH", "/v1/system/config/remote_repository/:nickname");
  ("DELETE", "/v1/system/config/remote_repository/:nickname"); ("POST", "/v1/csp/file/support")].

Definition rest_routes : list (string * string) := routes1 ++ routes2 ++ routes3.

(** The segments of a route and whether a path of the tables is at least as
    general: a parameter is one segment, a catch-all what is left. *)
Definition route_segments (r : string) : list string := drop 1 (Split (ToLower r) "/").

Fixpoint route_match (r ss : list string) : bool :=
  match r, ss with
  | [], [] => true
  | k :: r', s :: ss' =>
      if HasPrefix k "*" then bool_decide (r' = [])
      else (HasPrefix k ":" || bool_decide (k = s)) && route_match r' ss'
  | _, _ => false
  end.

Fixpoint subsumed (r p : list string) : bool :=
  match r, p with
  | [], [] => true
  | k :: r', k' :: p' =>
      if HasPrefix k "*" then bool_decide (k' = "**") && bool_decide (p' = [])
      else if decide (k' = "**") then bool_decide (p' = [])
      else (if HasPrefix k ":" then bool_decide (k' = "*")
            else bool_decide (k' = "*") || bool_decide (k' = k)) && subsumed r' p'
  | _, _ => false
  end.

Lemma subsumed_match r p ss : subsumed r p = true -> route_match r ss = true -> pat_match p ss = true.
Proof.
  revert p ss. induction r as [|k r IH]; intros [|k' p] [|s ss]; simpl; try done.
  destruct (HasPrefix k "*") eqn:Hstar.
  { intros [->%bool_decide_eq_true ->%bool_decide_eq_true]%andb_true_iff _. by rewrite decide_True. }
  destruct (decide (k' = "**")) as [->|H2]; [done|].
  intros [Hk Hs]%andb_true_iff [Hks Hm]%andb_true_iff. rewrite (IH p ss Hs Hm), andb_true_r.
  destruct (HasPrefix k ":") eqn:Hc.
  - by rewrite Hk.
  - apply bool_decide_eq_true in Hks as ->. apply orb_true_iff in Hk as [->|Hk]; [done|].
    rewrite Hk. apply orb_true_r.
Qed.

(** ** Requests *)

(** The path of a request with these segments. *)
Definition request_path (ss : list string) : string := "/" +:+ Join ss "/".

Definition no_slash (ss : list string) : Prop := Forall (fun s => has_byte "/"%char s = false) ss.

Lemma request_path_split ss :
  ss <> [] -> no_slash ss -> drop 1 (Split (request_path ss) "/") = ss.
Proof.
  intros Hne Hs. unfold request_path.
  change ("/" +:+ Join ss "/") with ("" +:+ String "/" (Join ss "/")).
  rewrite (Split_cons "/"%char "" (Join ss "/")) by done.
  rewrite (Split_Join "/"%char ss) by done. simpl. by rewrite drop_0.
Qed.

(** The orders in which the ranges of the compilation visit the tables. *)
Definition compile_order (ord : string -> list (list string * Z)) : Prop :=
  forall verb t, (verb, t) ∈ verbApiURIs -> ord verb ≡ₚ table_entries t.

Definition table_ok (t : list (Z * list string)) : bool :=
  bool_decide (NoDup (table_entries t).*1) && paths_unshadowed (table_entries t).*1 &&
  bool_decide (Forall (fun p => p <> []) (table_entries t).*1).

(** No path is in two categories, none is shadowed by a wildcard. *)
Lemma tables_unshadowed verb t : (verb, t) ∈ verbApiURIs -> table_ok t = true.
Proof.
  assert (Hall : Forall (fun vt => table_ok vt.2 = true) verbApiURIs)
    by (repeat (apply Forall_cons; split; [by vm_compute|]); by apply Forall_nil).
  rewrite Forall_forall in Hall. apply (Hall (verb, t)).
Qed.

Lemma paths_unshadowed_perm l l' : l ≡ₚ l' -> paths_unshadowed l = true -> paths_unshadowed l' = true.
Proof.
  intros Hp. unfold paths_unshadowed. rewrite !forallb_forall. intros H a Ha.
  apply forallb_forall. intros b Hb. rewrite <- Hp in Ha, Hb.
  specialize (H a Ha). rewrite forallb_forall in H. by apply H.
Qed.

Lemma mapping_lookup ord verb t :
  (verb, t) ∈ verbApiURIs ->
  CompileUriPermitsMapping ord !! verb = Some (compile_node (ord verb)).
Proof.
  intros Hin. unfold CompileUriPermitsMapping. apply elem_of_list_to_map_1.
  - assert (Hn : ((fun '(verb, _) => (verb, compile_node (ord verb))) <$> verbApiURIs).*1
      = ["GET"; "POST"; "PATCH"; "DELETE"]) by done.
    rewrite Hn. vm_decide.
  - apply list_elem_of_fmap. by exists (verb, t).
Qed.

Section requests.
Context (ord : string -> list (list string * Z)) (Hord : compile_order ord).
Context (verb : string) (t : list (Z * list string)) (Hverb : (verb, t) ∈ verbApiURIs).

Lemma order_ok :
  NoDup (ord verb).*1 /\ unshadowed (compile_node (ord verb)) /\ Forall (fun p => p <> []) (ord verb).*1.
Proof.
  pose proof (tables_unshadowed _ _ Hverb) as Hok. unfold table_ok in Hok.
  apply andb_true_iff in Hok as [[Hnd%bool_decide_eq_true Hun]%andb_true_iff Hne%bool_decide_eq_true].
  pose proof (Hord _ _ Hverb) as Hp. split_and!.
  - by rewrite Hp.
  - apply compile_unshadowed. eapply paths_unshadowed_perm; [|exact Hun]. by rewrite Hp.
  - by rewrite Hp.
Qed.

Lemma required_walk ss :
  ss <> [] -> no_slash ss ->
  getRequiredPermissions (CompileUriPermitsMapping ord) verb (Some (request_path ss))
  = (walk ss (compile_node (ord verb)), apiPermissions (walk ss (compile_node (ord verb)))).
Proof.
  intros Hne Hs. unfold getRequiredPermissions.
  by rewrite (mapping_lookup _ _ _ Hverb), request_path_split.
Qed.

Lemma required_listed ss p c :
  ss <> [] -> no_slash ss -> (p, c) ∈ table_entries t -> pat_match p ss = true ->
  getRequiredPermissions (CompileUriPermitsMapping ord) verb (Some (request_path ss))
  = (c, apiPermissions c).
Proof.
  intros Hne Hs Hin Hm. rewrite required_walk by done.
  destruct order_ok as (Hnd & Hun & Hall). rewrite <- (Hord _ _ Hverb) in Hin.
  assert (Hp : p <> []).
  { rewrite Forall_forall in Hall. apply Hall. change p with ((p, c).1). by apply list_elem_of_fmap_2. }
  pose proof (compile_complete _ _ _ Hnd Hin Hp) as Hc. unfold category_at in Hc.
  destruct (node_at p (compile_node (ord verb))) as [m|] eqn:Hat; [|done]. injection Hc as <-.
  by rewrite (walk_complete p ss _ m).
Qed.

Lemma required_unlisted ss :
  ss <> [] -> no_slash ss -> (forall p c, (p, c) ∈ table_entries t -> pat_match p ss = false) ->
  exists c, getRequiredPermissions (CompileUriPermitsMapping ord) verb (Some (request_path ss)) = (c, 0%Z) /\
    (c = CONST_API_UNKNOWN \/ c = CONST_API_UNSUPPORTED).
Proof.
  intros Hne Hs Hno. rewrite required_walk by done. exists (walk ss (compile_node (ord verb))).
  assert (Hc : walk ss (compile_node (ord verb)) = CONST_API_UNKNOWN \/
    walk ss (compile_node (ord verb)) = CONST_API_UNSUPPORTED).
  { remember (walk ss (compile_node (ord verb))) as c eqn:Hw. symmetry in Hw.
    destruct (walk_sound _ _ _ Hw) as [H|(p & Hp & Hc & Hm)]; [by left|].
    destruct (compile_sound _ _ _ Hp Hc) as [_ [Hin|H]]; [|by right].
    rewrite (Hord _ _ Hverb) in Hin. by rewrite (Hno _ _ Hin) in Hm. }
  split; [|done]. by destruct Hc as [-> | ->].
Qed.
End requests.

(** C10: a request whose path matches an entry of its method's table needs the
    permissions of that entry's category, in whichever order the tables were
    compiled; a request that no entry matches is in no category, and whoever
    sends it does not have the required permissions. *)
Theorem required_permissions_exact ord verb t ss :
  compile_order ord -> (verb, t) ∈ verbApiURIs -> ss <> [] -> no_slash ss ->
  let required := getRequiredPermissions (CompileUriPermitsMapping ord) verb (Some (request_path ss)) in
  (forall p c, (p, c) ∈ table_entries t -> pat_match p ss = true -> required = (c, apiPermissions c)) /\
  ((forall p c, (p, c) ∈ table_entries t -> pat_match p ss = false) ->
   forall s op rs extra, HasRequiredPermissions s (NewAccessControl required op rs extra) = false).
Proof.
  intros Hord Hverb Hne Hs required. split.
  - intros p c. by apply required_listed.
  - intros Hno s op rs extra. unfold required.
    destruct (required_unlisted ord Hord verb t Hverb ss Hne Hs Hno) as (c & -> & Hc).
    unfold HasRequiredPermissions. cbn. by destruct Hc as [-> | ->].
Qed.

Definition table_order (verb : string) : list (list string * Z) :=
  match list_find (fun vt => vt.1 = verb) verbApiURIs with
  | Some (_, (_, t)) => table_entries t
  | None => []
  end.

Lemma table_order_ok : compile_order table_order.
Proof.
  intros verb t Hin. assert (Hall : Forall (fun vt => table_order vt.1 = table_entries vt.2) verbApiURIs)
    by (repeat (apply Forall_cons; split; [by vm_compute|]); by apply Forall_nil).
  rewrite Forall_forall in Hall. specialize (Hall _ Hin). cbn [fst snd] in Hall. by rewrite Hall.
Qed.

Lemma required_permissions_exact_witness :
  getRequiredPermissions (CompileUriPermitsMapping table_order) "DELETE" (Some "/v1/policy/rule/7")
  = (CONST_API_RT_POLICIES, PERMS_RUNTIME_POLICIES).
Proof.
  apply (proj1 (required_permissions_exact table_order "DELETE" apiURIsDELETE
    ["v1"; "policy"; "rule"; "7"] table_order_ok ltac:(repeat constructor) ltac:(done)
    ltac:(repeat constructor)) ["v1"; "policy"; "rule"; "*"] CONST_API_RT_POLICIES); [vm_decide|done].
Defined.

Lemma no_entry_skips verb t p c :
  (verb, t) ∈ verbApiURIs -> (p, c) ∈ table_entries t -> c <> CONST_API_SKIP.
Proof.
  assert (Hall : Forall (fun vt => Forall (fun pc => pc.2 <> CONST_API_SKIP) (table_entries vt.2)) verbApiURIs)
    by vm_decide.
  rewrite Forall_forall in Hall. intros Hv%Hall Hp. rewrite Forall_forall in Hv. apply (Hv _ Hp).
Qed.

(** C5: from the request to the object: when its path matches an entry of the
    table of its method, a caller without a role or a permission on the
    cluster is let in exactly when an entry of its token that holds the
    permissions of that category covers one of the namespaces of the object
    (for a rule between two groups, the writer one of each end); objects of
    the cluster and of the federation are out of its reach. *)
Theorem namespace_request_authorized Compile s ord verb t ss p c op rs extra range obj f d1 d2 :
  compile_order ord -> (verb, t) ∈ verbApiURIs -> ss <> [] -> no_slash ss ->
  (p, c) ∈ table_entries t -> pat_match p ss = true ->
  compiles_tokens Compile ->
  (forall w role, rs !! w = Some role -> pattern_ok w = true) ->
  rs !! AccessDomainGlobal = None -> extra !! AccessDomainGlobal = None ->
  GetDomain range obj f = Done (d1, d2) ->
  Forall (fun d => ascii_only d = true) (default [] d1 ++ default [] d2) ->
  Authorize Compile s range
    (NewAccessControl (getRequiredPermissions (CompileUriPermitsMapping ord) verb (Some (request_path ss)))
       op rs extra) obj f = Done true <->
  covered_object (covers s op rs extra (domain_need (apiPermissions c))) op d1 d2.
Proof.
  intros Hord Hv Hne Hs Hin Hm HC Hpat Hr He HD [H1 H2]%Forall_app.
  rewrite (required_listed ord Hord verb t Hv ss p c) by done.
  apply namespace_user_authorize; try done. by apply (no_entry_skips verb t p).
Qed.

(** An administrator of the namespaces [prod-*] deletes a rule between two of
    them. *)
Lemma namespace_request_authorized_witness :
  covered_object (covers roles0 AccessOPWrite {["prod-*" := UserRoleAdmin]} ∅
                    (domain_need PERMS_RUNTIME_POLICIES)) AccessOPWrite
    (Some ["prod-a"]) (Some ["prod-b"]).
Proof.
  apply (namespace_request_authorized glob_compile roles0 table_order "DELETE" apiURIsDELETE
    ["v1"; "policy"; "rule"; "7"] ["v1"; "policy"; "rule"; "*"] CONST_API_RT_POLICIES AccessOPWrite
    {["prod-*" := UserRoleAdmin]} ∅ elements ex_rule (Some ex_groups));
    [apply table_order_ok|repeat constructor|done|repeat constructor|vm_decide|done
    |apply glob_compile_tokens|by intros w role [<- <-]%lookup_singleton_Some|done|done|done
    |repeat constructor|].
  by vm_compute.
Defined.

(** The one route that the tables do not list. *)
Definition unlisted_route : string * string := ("GET", "/v1/token_auth_server/:server/slo").

(** A route is unlisted, or an entry of its method's table is as general. *)
Definition route_listed (tables : list (string * list (list string * Z))) (vr : string * string)
    : bool :=
  let r := route_segments vr.2 in
  bool_decide (vr = unlisted_route) ||
  existsb (fun vt => bool_decide (vt.1 = vr.1) &&
    existsb (fun pc => subsumed r pc.1 && negb (pc.2 =? CONST_API_UNKNOWN)%Z &&
                       negb (pc.2 =? CONST_API_UNSUPPORTED)%Z) vt.2) tables.

Lemma routes_listed :
  forallb (route_listed ((fun vt => (vt.1, table_entries vt.2)) <$> verbApiURIs)) rest_routes = true.
Proof. by vm_compute. Qed.

Lemma route_listed_entry verb r :
  (verb, r) ∈ rest_routes -> (verb, r) <> unlisted_route ->
  exists t p c, (verb, t) ∈ verbApiURIs /\ (p, c) ∈ table_entries t /\
    subsumed (route_segments r) p = true /\ c <> CONST_API_UNKNOWN /\ c <> CONST_API_UNSUPPORTED.
Proof.
  intros Hin Hne. pose proof routes_listed as Hall. rewrite forallb_forall in Hall.
  specialize (Hall _ (proj1 (list_elem_of_In _ _) Hin)). unfold route_listed in Hall.
  rewrite bool_decide_eq_false_2 in Hall by done. cbn [orb] in Hall.
  apply existsb_exists in Hall as ([v es] & Hv & [Hvr%bool_decide_eq_true Hex]%andb_true_iff).
  cbn [fst snd] in Hvr, Hex. subst v.
  apply list_elem_of_In, list_elem_of_fmap in Hv as ([v' t] & [= <- ->] & Hv).
  apply existsb_exists in Hex as ([p c] & Hpc & [[Hs H0]%andb_true_iff H1]%andb_true_iff).
  exists t, p, c. cbn [fst snd] in *.
  split_and!; [done|by apply list_elem_of_In|done|by apply Z.eqb_neq, negb_true_iff..].
Qed.

(** C30: every route of the REST server but one is listed: whatever its
    parameters are, a request for it is in one category of the tables. *)
Theorem routes_have_category ord verb r :
  compile_order ord -> (verb, r) ∈ rest_routes -> (verb, r) <> unlisted_route ->
  exists c, c <> CONST_API_UNKNOWN /\ c <> CONST_API_UNSUPPORTED /\
    forall ss, no_slash ss -> route_match (route_segments r) ss = true ->
      getRequiredPermissions (CompileUriPermitsMapping ord) verb (Some (request_path ss))
      = (c, apiPermissions c).
Proof.
  intros Hord Hin Hne.
  destruct (route_listed_entry verb r Hin Hne) as (t & p & c & Hv & Hpc & Hs & Hc1 & Hc2).
  exists c. split_and!; [done|done|].
  intros ss Hns Hm. pose proof (subsumed_match _ _ _ Hs Hm) as Hpm.
  apply (required_listed ord Hord verb t Hv ss p c); [|done|done|done].
  intros ->. destruct (route_segments r) as [|k rs] eqn:Hr; [|done].
  destruct p; [|done]. pose proof (tables_unshadowed _ _ Hv) as Hok. unfold table_ok in Hok.
  apply andb_true_iff in Hok as [_ Hne'%bool_decide_eq_true].
  rewrite Forall_forall in Hne'. apply (Hne' []); [|done].
  change [] with (([] : list string, c).1). by apply list_elem_of_fmap_2.
Qed.

Lemma routes_have_category_witness :
  exists c, c <> CONST_API_UNKNOWN /\ c <> CONST_API_UNSUPPORTED /\
    forall ss, no_slash ss -> route_match (route_segments "/v1/group/:name") ss = true ->
      getRequiredPermissions (CompileUriPermitsMapping table_order) "DELETE" (Some (request_path ss))
      = (c, apiPermissions c).
Proof.
  apply (routes_have_category table_order "DELETE" "/v1/group/:name" table_order_ok); [vm_decide|done].
Defined.
