(* ===== verification/NvRoleApi.v ===== *)
(** * The API of custom roles

    The handlers of controller/rest/custom_role.go, the store of roles behind
    controller/kv/helper.go and the watch of controller/cache/custom_role.go
    that brings a change of the store to the registry of [NvRoles].  The store
    (Consul) keeps a role per key and notifies the watch of its changes in
    order; a write may fail.  A handler runs under the lock of the key, so it
    is one step here; the notification is another. *)

From Stdlib Require Import ZArith Lia Ascii.
From S2P Require Import Prelude GoLib NvCriteria NvAccessObj NvRoles NvAccess.

(** ** References to a role *)

Record GroupRoleMapping := { gm_GlobalRole : string; gm_RoleDomains : gmap string (list string) }.
Record CLUSServerAuth := {
  sa_DefaultRole : string; sa_RoleGroups : gmap string (list string);
  sa_GroupMappedRoles : list GroupRoleMapping }.
Record CLUSServer := {
  srv_Name : string; srv_LDAP : option CLUSServerAuth; srv_SAML : option CLUSServerAuth;
  srv_OIDC : option CLUSServerAuth }.

(** What the deletion of a role reads: users (and keys that have not expired)
    with their role and the domains of their roles, and servers. *)
Record role_refs := { ref_users : list CLUSUser; ref_servers : list CLUSServer;
                      ref_apikeys : list CLUSUser }.

Definition role_domains_use (name : string) (rd : gmap string (list string)) : bool :=
  match rd !! name with Some (_ :: _) => true | _ => false end.

Definition user_uses (name : string) (u : CLUSUser) : bool :=
  bool_decide (usr_Role u = name) || role_domains_use name (usr_RoleDomains u).

(** The loop over the servers; the settings of the last server that had some
    are kept for one that has none. *)
Fixpoint servers_use (name : string) (last : option CLUSServerAuth) (l : list CLUSServer) : bool :=
  match l with
  | [] => false
  | s :: l' =>
      let last := match srv_OIDC s with Some a => Some a | None =>
                    match srv_SAML s with Some a => Some a | None =>
                      match srv_LDAP s with Some a => Some a | None => last end end end in
      match last with
      | None => bool_decide (name = "")
      | Some a =>
          bool_decide (sa_DefaultRole a = name) || role_domains_use name (sa_RoleGroups a) ||
          existsb (fun g => bool_decide (gm_GlobalRole g = name) ||
                            role_domains_use name (gm_RoleDomains g)) (sa_GroupMappedRoles a)
      end || servers_use name last l'
  end.

Definition role_in_use (refs : role_refs) (name : string) : bool :=
  existsb (user_uses name) (ref_users refs) || servers_use name None (ref_servers refs) ||
  existsb (user_uses name) (ref_apikeys refs).

(** ** Names *)

Definition name_first (c : ascii) : bool :=
  let n := N_of_ascii c in
  ((48 <=? n) && (n <=? 57) || (65 <=? n) && (n <=? 90) || (97 <=? n) && (n <=? 122))%N.

Definition name_char (c : ascii) : bool :=
  name_first c || bool_decide (c ∈ ["."; ":"; "_"; "-"]%char).

Fixpoint all_chars (f : ascii -> bool) (s : string) : bool :=
  match s with EmptyString => true | String c s' => f c && all_chars f s' end.

(** The expression ^[a-zA-Z0-9]+[.:a-zA-Z0-9_-]*$. *)
Definition isObjectNameValid (name : string) : bool :=
  match name with
  | EmptyString => false
  | String c s => name_first c && all_chars name_char s
  end.

(** ** The system *)

Inductive role_event := RolePut (name : string) (r : CLUSUserRole) | RoleDel (name : string).

Record role_system := {
  rs_kv : gmap string CLUSUserRole; rs_events : list role_event; rs_registry : roles }.

Definition StatusOK := 200%Z.
Definition StatusBadRequest := 400%Z.
Definition StatusForbidden := 403%Z.
Definition StatusInternalServerError := 500%Z.

Record RESTUserRoleConfig := {
  cfg_Name : string; cfg_Comment : string; cfg_Permissions : list (option RESTRolePermission) }.

Definition kv_put (name : string) (r : CLUSUserRole) (s : role_system) : role_system :=
  {| rs_kv := <[name := r]> (rs_kv s); rs_events := rs_events s ++ [RolePut name r];
     rs_registry := rs_registry s |}.

Definition kv_delete (name : string) (s : role_system) : role_system :=
  {| rs_kv := delete name (rs_kv s); rs_events := rs_events s ++ [RoleDel name];
     rs_registry := rs_registry s |}.

Section handlers.
Context (Compile : string -> option (string -> bool)).

(** [acc.Authorize] of a role: an object of the cluster. *)
Definition authorize_role (s : role_system) (acc : AccessControl) : bool :=
  match Authorize Compile (rs_registry s) elements acc OGlobal None with Done b => b | _ => false end.

(** [write_ok] and [lock_ok]: the store takes the write, the lock is free.
    [CreateCustomRole] ends in [PutIfNotExist], which succeeds on a key that
    exists and leaves it. *)
Definition handlerRoleCreate (acc : AccessControl) (rconf : option RESTUserRoleConfig)
    (lock_ok write_ok : bool) (s : role_system) : Z * role_system :=
  if negb (authorize_role s acc) then (StatusForbidden, s)
  else match rconf with
  | None => (StatusBadRequest, s)
  | Some c =>
      if bool_decide (is_Some (GetRoleDetails (rs_registry s) (cfg_Name c))) then (StatusBadRequest, s)
      else if bool_decide (cfg_Name c ∈ GetReservedRoleNames (rs_registry s)) then (StatusBadRequest, s)
      else if negb (isObjectNameValid (cfg_Name c)) || bool_decide (ToLower (cfg_Name c) = "none")
      then (StatusBadRequest, s)
      else match restUserRoleToCLUS (cfg_Name c) (cfg_Comment c) (cfg_Permissions c) with
      | inl _ => (StatusBadRequest, s)
      | inr role =>
          if negb lock_ok then (StatusInternalServerError, s)
          else if negb write_ok then (StatusInternalServerError, s)
          else match rs_kv s !! ur_Name role with
               | Some _ => (StatusOK, s)
               | None => (StatusOK, kv_put (ur_Name role) role s)
               end
      end
  end.

Definition handlerRoleConfig (acc : AccessControl) (name : string) (rconf : option RESTUserRoleConfig)
    (lock_ok write_ok : bool) (s : role_system) : Z * role_system :=
  if negb (authorize_role s acc) then (StatusForbidden, s)
  else if bool_decide (name ∈ GetReservedRoleNames (rs_registry s)) then (StatusBadRequest, s)
  else match rconf with
  | None => (StatusBadRequest, s)
  | Some c =>
      if negb lock_ok then (StatusInternalServerError, s)
      else match rs_kv s !! name with
      | None => (StatusBadRequest, s)
      | Some role =>
          if ur_Reserved role then (StatusBadRequest, s)
          else match restUserRoleToCLUS (cfg_Name c) (cfg_Comment c) (cfg_Permissions c) with
          | inl _ => (StatusBadRequest, s)
          | inr userRole =>
              let role := {| ur_Name := ur_Name role; ur_Comment := ur_Comment userRole;
                             ur_Reserved := ur_Reserved role;
                             ur_Permissions := ur_Permissions userRole |} in
              if negb write_ok then (StatusInternalServerError, s)
              else (StatusOK, kv_put (ur_Name role) role s)
          end
      end
  end.

Definition handlerRoleDelete (acc : AccessControl) (name : string) (refs : role_refs)
    (lock_ok write_ok : bool) (s : role_system) : Z * role_system :=
  if negb (authorize_role s acc) then (StatusForbidden, s)
  else if bool_decide (name ∈ GetReservedRoleNames (rs_registry s)) then (StatusBadRequest, s)
  else if (match GetRoleDetails (rs_registry s) name with Some r => rr_Reserved r | None => false end)
  then (StatusBadRequest, s)
  else if role_in_use refs name then (StatusBadRequest, s)
  else if negb lock_ok then (StatusInternalServerError, s)
  else match rs_kv s !! name with
  | None => (StatusBadRequest, s)
  | Some _ =>
      if negb write_ok then (StatusInternalServerError, s) else (StatusOK, kv_delete name s)
  end.
End handlers.

(** The watch: [userRoleConfigUpdate] on the oldest notification. *)
Definition userRoleConfigUpdate (e : role_event) (r : roles) : roles :=
  match e with
  | RolePut name role => AddRole name (parseUserRolePermissions role) r
  | RoleDel name => DeleteRole name r
  end.

Definition deliver (s : role_system) : role_system :=
  match rs_events s with
  | [] => s
  | e :: es =>
      {| rs_kv := rs_kv s; rs_events := es; rs_registry := userRoleConfigUpdate e (rs_registry s) |}
  end.

Definition fed_role_change (fedRole : string) (s : role_system) : role_system :=
  {| rs_kv := rs_kv s; rs_events := rs_events s;
     rs_registry := UpdateUserRoleForFedRoleChange fedRole (rs_registry s) |}.

(** Requests, notifications and changes of the cluster's part in a federation,
    in any order. *)
Inductive role_step (Compile : string -> option (string -> bool)) : role_system -> role_system -> Prop :=
| step_create acc c lk w s : role_step Compile s (handlerRoleCreate Compile acc c lk w s).2
| step_config acc n c lk w s : role_step Compile s (handlerRoleConfig Compile acc n c lk w s).2
| step_delete acc n rf lk w s : role_step Compile s (handlerRoleDelete Compile acc n rf lk w s).2
| step_deliver s : role_step Compile s (deliver s)
| step_fed f s : role_step Compile s (fed_role_change f s).

Definition role_system0 : role_system := {| rs_kv := ∅; rs_events := []; rs_registry := roles0 |}.

(** ** The registry follows the store *)

Definition event_name (e : role_event) : string :=
  match e with RolePut n _ => n | RoleDel n => n end.

Definition custom_role (name : string) (r : CLUSUserRole) : Prop :=
  ur_Name r = name /\ ur_Reserved r = false.

Definition event_ok (e : role_event) : Prop :=
  (event_name e ∉ reserved_names) /\
  match e with RolePut n r => custom_role n r | RoleDel _ => True end.

(** The registry after the pending notifications. *)
Definition replay (es : list role_event) (r : roles) : roles :=
  foldl (fun r e => userRoleConfigUpdate e r) r es.

(** The custom roles of a registry are those of a store. *)
Definition mirrors (r : roles) (kv : gmap string CLUSUserRole) : Prop :=
  forall name, name ∉ reserved_names ->
    allRoles r !! name = parseUserRolePermissions <$> (kv !! name) /\
    ((name ∈ visibleRoles r) <-> is_Some (kv !! name)).

(** [roles_wf], and every custom role is entered under its name. *)
Definition registry_ok (r : roles) : Prop :=
  roles_wf r /\ forall name ri, allRoles r !! name = Some ri -> name ∉ reserved_names -> ri_Name ri = name.

Record role_inv (s : role_system) : Prop := {
  inv_registry : registry_ok (rs_registry s);
  inv_kv : forall name r, rs_kv s !! name = Some r -> (name ∉ reserved_names) /\ custom_role name r;
  inv_events : Forall event_ok (rs_events s);
  inv_replay : mirrors (replay (rs_events s) (rs_registry s)) (rs_kv s) }.

Lemma reserved_entry name ri :
  (name, ri) ∈ reservedRoles -> ri_Reserved ri = true /\ ri_Name ri = name.
Proof.
  intros Hin. assert (Hall : Forall (fun nr => ri_Reserved nr.2 = true /\ ri_Name nr.2 = nr.1)
    reservedRoles) by vm_decide.
  rewrite Forall_forall in Hall. apply (Hall _ Hin).
Qed.

Lemma reserved_lookup r name :
  roles_wf r -> name ∈ reserved_names ->
  exists ri, allRoles r !! name = Some ri /\ ri_Reserved ri = true /\ ri_Name ri = name.
Proof.
  intros [Hres _] ([n ri] & -> & Hin)%list_elem_of_fmap. exists ri.
  split; [by apply Hres|]. by apply reserved_entry.
Qed.

Lemma reserved_names_of r :
  roles_wf r -> forall name, name ∈ reserved_names -> name ∈ GetReservedRoleNames r.
Proof.
  intros Hwf name Hin. destruct (reserved_lookup r name Hwf Hin) as (ri & Hl & Hr & Hn).
  unfold GetReservedRoleNames. rewrite elem_of_list_to_set, list_elem_of_omap.
  exists ri. split; [|by rewrite Hr, Hn].
  apply list_elem_of_fmap. exists (name, ri). split; [done|]. by apply elem_of_map_to_list.
Qed.

Lemma parse_custom name r :
  custom_role name r ->
  ri_Name (parseUserRolePermissions r) = name /\ ri_Reserved (parseUserRolePermissions r) = false.
Proof.
  intros [Hn Hr]. unfold parseUserRolePermissions.
  destruct (foldl _ _ _) as [rv wv]. by split.
Qed.

(** The entry that [AddRole] leaves is the new role. *)
Lemma AddRole_lookup r name role :
  registry_ok r -> name ∉ reserved_names -> custom_role name role ->
  allRoles (AddRole name (parseUserRolePermissions role) r)
  = <[name := parseUserRolePermissions role]> (allRoles r).
Proof.
  intros [[_ Hcust] Hnames] Hn Hc. unfold AddRole. cbn [allRoles].
  destruct (allRoles r !! name) as [ri|] eqn:Hl; [|done]. f_equal.
  destruct (parse_custom _ _ Hc) as [H1 H2].
  rewrite (Hnames _ _ Hl Hn). destruct (Hcust _ _ Hl Hn) as [-> _].
  destruct (parseUserRolePermissions role); cbn in *; by subst.
Qed.

Lemma update_registry_ok e r : event_ok e -> registry_ok r -> registry_ok (userRoleConfigUpdate e r).
Proof.
  intros [Hn He] Hok. destruct e as [name role|name]; cbn [event_name userRoleConfigUpdate] in *.
  - pose proof (AddRole_lookup r name role Hok Hn He) as Ha. destruct Hok as [[Hres Hcust] Hnames].
    split; [split|].
    + intros n ri Hin. rewrite Ha, lookup_insert_ne; [by apply Hres|].
      intros ->. apply Hn. change n with ((n, ri).1). by apply list_elem_of_fmap_2.
    + intros n ri. rewrite Ha. destruct (decide (n = name)) as [->|Hne].
      * rewrite lookup_insert_eq. intros [= <-] _. split; [by apply (parse_custom name)|].
        apply parse_configurable.
      * rewrite lookup_insert_ne by done. apply Hcust.
    + intros n ri. rewrite Ha. destruct (decide (n = name)) as [->|Hne].
      * rewrite lookup_insert_eq. intros [= <-] _. by apply (parse_custom name).
      * rewrite lookup_insert_ne by done. apply Hnames.
  - unfold DeleteRole. destruct (allRoles r !! name) as [ri|] eqn:Hl; [|done].
    destruct (ri_Reserved ri); [done|]. cbn [negb]. destruct Hok as [[Hres Hcust] Hnames].
    split; [split|]; cbn [allRoles].
    + intros n ri' Hin. rewrite lookup_delete_ne; [by apply Hres|].
      intros ->. apply Hn. change n with ((n, ri').1). by apply list_elem_of_fmap_2.
    + intros n ri' Hd. apply lookup_delete_Some in Hd as [_ Hd]. by apply Hcust.
    + intros n ri' Hd. apply lookup_delete_Some in Hd as [_ Hd]. by apply Hnames.
Qed.

Lemma replay_registry_ok es r : Forall event_ok es -> registry_ok r -> registry_ok (replay es r).
Proof.
  intros Hes. revert r. induction Hes as [|e es He Hes IH]; intros r Hr; [done|].
  apply IH, update_registry_ok; done.
Qed.

Lemma replay_snoc es e r : replay (es ++ [e]) r = userRoleConfigUpdate e (replay es r).
Proof. unfold replay. by rewrite foldl_app. Qed.

(** A write to the store and its notification. *)
Lemma mirrors_put r kv name role :
  registry_ok r -> name ∉ reserved_names -> custom_role name role ->
  mirrors r kv -> mirrors (userRoleConfigUpdate (RolePut name role) r) (<[name := role]> kv).
Proof.
  intros Hok Hn Hc Hm n Hnr. cbn [userRoleConfigUpdate].
  rewrite (AddRole_lookup _ _ _ Hok Hn Hc). destruct (Hm n Hnr) as [Ha Hv]. split.
  - destruct (decide (n = name)) as [->|]; [by rewrite !lookup_insert_eq|].
    by rewrite !lookup_insert_ne by done.
  - unfold AddRole. cbn [visibleRoles]. rewrite elem_of_union, elem_of_singleton, Hv.
    destruct (decide (n = name)) as [->|].
    + rewrite lookup_insert_eq. split; [by eexists|by left].
    + rewrite lookup_insert_ne by done. naive_solver.
Qed.

Lemma mirrors_delete r kv name :
  registry_ok r -> name ∉ reserved_names -> is_Some (kv !! name) ->
  mirrors r kv -> mirrors (userRoleConfigUpdate (RoleDel name) r) (delete name kv).
Proof.
  intros [[_ Hcust] _] Hn [role Hr] Hm n Hnr. cbn [userRoleConfigUpdate]. unfold DeleteRole.
  destruct (Hm name Hn) as [Ha' _]. rewrite Hr in Ha'. rewrite Ha'. cbn [fmap option_fmap option_map].
  destruct (Hcust _ _ Ha' Hn) as [-> _]. cbn [negb allRoles visibleRoles].
  destruct (Hm n Hnr) as [Ha Hv]. rewrite elem_of_difference, elem_of_singleton, Hv.
  destruct (decide (n = name)) as [->|].
  - rewrite !lookup_delete_eq. split; [done|]. split; [naive_solver|by intros []].
  - rewrite !lookup_delete_ne by done. split; [done|]. naive_solver.
Qed.

Lemma put_inv name role s :
  name ∉ reserved_names -> custom_role name role -> role_inv s -> role_inv (kv_put name role s).
Proof.
  intros Hn Hc [Hreg Hkv Hev Hrep]. split; cbn [kv_put rs_kv rs_events rs_registry].
  - done.
  - intros n r. destruct (decide (n = name)) as [->|].
    + rewrite lookup_insert_eq. by intros [= <-].
    + rewrite lookup_insert_ne by done. apply Hkv.
  - apply Forall_app. split; [done|]. by apply Forall_singleton.
  - rewrite replay_snoc. apply mirrors_put; [|done..]. by apply replay_registry_ok.
Qed.

Lemma delete_inv name s :
  is_Some (rs_kv s !! name) -> role_inv s -> role_inv (kv_delete name s).
Proof.
  intros [role Hr] [Hreg Hkv Hev Hrep]. destruct (Hkv _ _ Hr) as [Hn Hc].
  split; cbn [kv_delete rs_kv rs_events rs_registry].
  - done.
  - intros n r Hd. apply lookup_delete_Some in Hd as [_ Hd]. by apply Hkv.
  - apply Forall_app. split; [done|]. by apply Forall_singleton.
  - rewrite replay_snoc. apply mirrors_delete; [|done|by eexists|done]. by apply replay_registry_ok.
Qed.

Lemma restUserRoleToCLUS_custom name comment ps role :
  restUserRoleToCLUS name comment ps = inr role -> custom_role name role.
Proof. unfold restUserRoleToCLUS. destruct (restPermissionsToCLUS ps); [done|]. by intros [= <-]. Qed.

Lemma create_inv Compile acc c lk w s :
  role_inv s -> role_inv (handlerRoleCreate Compile acc c lk w s).2.
Proof.
  intros Hi. unfold handlerRoleCreate. destruct (authorize_role Compile s acc); [|done]. cbn [negb].
  destruct c as [c|]; [|done]. case_bool_decide; [done|]. case_bool_decide as Hres; [done|].
  destruct (_ || _); [done|].
  destruct (restUserRoleToCLUS _ _ _) as [|role] eqn:Hr; [done|].
  destruct lk, w; cbn [negb]; try done. destruct (rs_kv s !! ur_Name role); [done|]. cbn [snd].
  apply restUserRoleToCLUS_custom in Hr as [Hname Hnr].
  apply put_inv; [|by split|done]. rewrite Hname. intros Hin. apply Hres.
  apply reserved_names_of; [apply Hi|done].
Qed.

Lemma config_inv Compile acc n c lk w s :
  role_inv s -> role_inv (handlerRoleConfig Compile acc n c lk w s).2.
Proof.
  intros Hi. unfold handlerRoleConfig. destruct (authorize_role Compile s acc); [|done]. cbn [negb].
  case_bool_decide; [done|]. destruct c as [c|]; [|done]. destruct lk; cbn [negb]; [|done].
  destruct (rs_kv s !! n) as [role|] eqn:Hkv; [|done].
  destruct (ur_Reserved role) eqn:Hr; [done|].
  destruct (restUserRoleToCLUS _ _ _) as [|ur]; [done|]. destruct w; [|done]. cbn [negb snd].
  destruct (inv_kv s Hi _ _ Hkv) as [Hn [Hname _]].
  apply put_inv; [by rewrite Hname|by split|done].
Qed.

Lemma handler_delete_inv Compile acc n rf lk w s :
  role_inv s -> role_inv (handlerRoleDelete Compile acc n rf lk w s).2.
Proof.
  intros Hi. unfold handlerRoleDelete. destruct (authorize_role Compile s acc); [|done]. cbn [negb].
  case_bool_decide; [done|]. match goal with |- context [if ?b then (StatusBadRequest, s) else _] => destruct b; [done|] end.
  destruct (role_in_use rf n); [done|]. destruct lk; cbn [negb]; [|done].
  destruct (rs_kv s !! n) eqn:Hkv; [|done]. destruct w; [|done]. cbn [negb snd].
  apply delete_inv; [by eexists|done].
Qed.

Lemma deliver_inv s : role_inv s -> role_inv (deliver s).
Proof.
  intros [Hreg Hkv Hev Hrep]. unfold deliver. destruct (rs_events s) as [|e es] eqn:He.
  { split; rewrite ?He; done. }
  apply Forall_cons in Hev as [He' Hes]. split; cbn [rs_kv rs_events rs_registry]; [|done|done|done].
  by apply update_registry_ok.
Qed.

(** The change of the federation's part shows or hides two reserved roles. *)
Lemma fed_mirrors es f r kv :
  Forall event_ok es -> registry_ok r -> mirrors (replay es r) kv ->
  mirrors (replay es (UpdateUserRoleForFedRoleChange f r)) kv.
Proof.
  intros Hes Hok Hm n Hn. destruct (Hm n Hn) as [Ha Hv]. rewrite <- Ha, <- Hv.
  assert (Heq : forall es r1 r2, Forall event_ok es ->
    allRoles r1 = allRoles r2 -> ((n ∈ visibleRoles r1) <-> (n ∈ visibleRoles r2)) ->
    allRoles (replay es r1) = allRoles (replay es r2) /\
    ((n ∈ visibleRoles (replay es r1)) <-> (n ∈ visibleRoles (replay es r2)))).
  { clear -Hn. induction es as [|e es IH]; intros r1 r2 Hes H1 H2; [done|].
    apply Forall_cons in Hes as [He Hes]. apply IH; [done|..].
    - destruct e as [m role|m]; simpl; unfold AddRole, DeleteRole; cbn [allRoles]; rewrite H1; [done|].
      destruct (allRoles r2 !! m) as [ri|]; [|done]. destruct (ri_Reserved ri); [done|]. done.
    - destruct e as [m role|m]; simpl; unfold AddRole, DeleteRole; cbn [visibleRoles]; [set_solver|].
      rewrite H1. destruct (allRoles r2 !! m) as [ri|]; [|done].
      destruct (ri_Reserved ri); [done|]. cbn. set_solver. }
  assert (Hnf : n <> UserRoleFedAdmin /\ n <> UserRoleFedReader).
  { split; intros ->; apply Hn; vm_decide. }
  destruct (Heq es (UpdateUserRoleForFedRoleChange f r) r Hes) as [-> ->]; [..|done];
    unfold UpdateUserRoleForFedRoleChange; case_bool_decide; cbn [allRoles visibleRoles];
    [done|done|set_solver|set_solver].
Qed.

Lemma fed_change_inv f s : role_inv s -> role_inv (fed_role_change f s).
Proof.
  intros [Hreg Hkv Hev Hrep]. split; cbn [fed_role_change rs_kv rs_events rs_registry]; [|done|done|].
  - unfold UpdateUserRoleForFedRoleChange. case_bool_decide; exact Hreg.
  - by apply fed_mirrors.
Qed.

Lemma role_reach_inv Compile s : rtc (role_step Compile) role_system0 s -> role_inv s.
Proof.
  apply (rtc_invariant (role_step Compile) role_inv).
  - intros s1 s2 [] Hi; [by apply create_inv|by apply config_inv|by apply handler_delete_inv
                        |by apply deliver_inv|by apply fed_change_inv].
  - split; cbn [role_system0 rs_kv rs_events rs_registry]; [|done|by apply Forall_nil|].
    + split; [apply roles0_wf|]. intros name ri Hl Hn. exfalso. apply Hn.
      apply elem_of_list_to_map_2 in Hl. unfold reserved_names.
      change name with ((name, ri).1). by apply list_elem_of_fmap_2.
    + intros name Hn. rewrite lookup_empty. split.
      * cbn [allRoles roles0 replay foldl]. by apply not_elem_of_list_to_map_1.
      * split; [|by intros []]. intros Hv. exfalso. apply Hn. cbn in Hv. unfold reserved_names.
        assert (Hsub : forall x, x ∈ ({[UserRoleAdmin; UserRoleReader; UserRoleNone; UserRoleCIOps]} : gset string) ->
          x ∈ reservedRoles.*1); [|by apply Hsub].
        intros x Hx. cbn. set_solver.
Qed.

(** C12: whatever requests, notifications and changes of the federation happen,
    the reserved roles keep the permissions the program starts with and a
    custom role holds configurable permissions only; once the notifications
    are delivered the custom roles of the registry are those of the store. *)
Theorem custom_roles_consistent Compile s :
  rtc (role_step Compile) role_system0 s ->
  roles_wf (rs_registry s) /\
  (rs_events s = [] -> forall name, name ∉ reserved_names ->
     allRoles (rs_registry s) !! name = parseUserRolePermissions <$> (rs_kv s !! name) /\
     ((name ∈ visibleRoles (rs_registry s)) <-> is_Some (rs_kv s !! name))).
Proof.
  intros Hr. destruct (role_reach_inv Compile s Hr) as [[Hwf _] _ _ Hm].
  split; [done|]. intros He name Hn. rewrite He in Hm. by apply Hm.
Qed.

(** A run: an administrator creates a role, the notification arrives. *)
Definition ex_conf : RESTUserRoleConfig :=
  {| cfg_Name := "dev"; cfg_Comment := ""; cfg_Permissions := ex_request |}.

Definition ex_created : role_system :=
  deliver (handlerRoleCreate glob_compile NewAdminAccessControl (Some ex_conf) true true role_system0).2.

Lemma ex_created_reachable : rtc (role_step glob_compile) role_system0 ex_created.
Proof. eapply rtc_l; [constructor|]. apply rtc_once. constructor. Qed.

Lemma custom_roles_consistent_witness :
  allRoles (rs_registry ex_created) !! "dev" = Some (parseUserRolePermissions ex_role) /\
  roles_wf (rs_registry ex_created).
Proof.
  destruct (custom_roles_consistent glob_compile ex_created ex_created_reachable) as [Hwf Hc].
  split; [|done].
  destruct (Hc ltac:(by vm_compute) "dev" ltac:(vm_decide)) as [-> _].
  by vm_compute.
Defined.

(** C18: in every reachable state of the roles, a caller who is let write an
    object of the federation has the role fedAdmin on the cluster, or holds
    the federation's permission beside its roles; no custom role is enough. *)
Theorem federation_write_protected Compile s required rs extra range obj f :
  rtc (role_step Compile) role_system0 s ->
  GetDomain range obj f = Done (fedDomainSlice, fedDomainSlice) ->
  Authorize Compile (rs_registry s) range (NewAccessControl required AccessOPWrite rs extra) obj f
    = Done true ->
  rs !! AccessDomainGlobal = Some UserRoleFedAdmin \/
  exists p, extra !! AccessDomainGlobal = Some p /\ Z.testbit (WriteValue p) 1 = true.
Proof.
  intros Hr. apply fed_write_needs_fedAdmin. apply (role_reach_inv Compile s Hr).
Qed.

Lemma federation_write_protected_witness :
  let rs : gmap string string := {[AccessDomainGlobal := UserRoleFedAdmin]} in
  Authorize glob_compile (rs_registry ex_created) elements
    (NewAccessControl (13, PERMS_RUNTIME_POLICIES)%Z AccessOPWrite rs ∅) (OAdmissionRule FederalCfg) None
    = Done true /\
  (rs !! AccessDomainGlobal = Some UserRoleFedAdmin \/
   exists p, (∅ : gmap string NvPermissions) !! AccessDomainGlobal = Some p /\
     Z.testbit (WriteValue p) 1 = true).
Proof.
  split; [by vm_compute|].
  apply (federation_write_protected glob_compile ex_created (13, PERMS_RUNTIME_POLICIES)%Z
    {[AccessDomainGlobal := UserRoleFedAdmin]} ∅ elements (OAdmissionRule FederalCfg) None);
    [apply ex_created_reachable|done|by vm_compute].
Defined.

(** Two requests for one name before the notification: both succeed, and the
    second changes nothing. *)
Example create_twice :
  let create s := handlerRoleCreate glob_compile NewAdminAccessControl (Some ex_conf) true true s in
  let s1 := (create role_system0).2 in
  (create role_system0).1 = StatusOK /\ create s1 = (StatusOK, s1).
Proof. by vm_compute. Qed.
