(* ===== verification/NvScheduler.v ===== *)
(** * The scheduler of scan tasks

    controller/scheduler/scheduler.go: processors take tasks from two queues.
    One goroutine, [taskWorker], waits on a channel of two places, and each
    time it is woken hands tasks to free processors until one of the two runs
    out.  Whoever adds a task or frees a processor wakes it: [taskNotify] sends
    unless two wake-ups are waiting already.

    [Schd] holds the fields of the structure; a [*Processor] is an address in
    [sc_heap], since the worker keeps the pointer of a processor while others
    delete it.  A method is one function per critical section; [sched_step]
    interleaves the worker with any number of callers, at every point where
    one of them does not hold the lock.  What a task's handler answers is
    chosen by the environment.  [StartTimer] and [CancelTimer] are calls of
    the task, of which nothing is kept. *)

From Stdlib Require Import ZArith Lia.
From S2P Require Import Prelude.

Definition PriorityHigh := 0%Z.
Definition PriorityLow := 1%Z.

Inductive Action := TaskActionDone | TaskActionWait | TaskActionRetry | TaskActionRequeue | TaskActionRequeueWait.

Record Task := { Key : string; Priority : Z; task_id : nat }.
#[export] Instance Task_eq_dec : EqDecision Task.
Proof. solve_decision. Defined.

Record Processor := { proc_name : string; currTask : option Task }.

Record Schd := {
  sc_heap : gmap nat Processor; procs : list nat;
  taskQueueHigh : list Task; taskQueueLow : list Task;
  notifyChan : nat }.

Definition with_procs (s : Schd) (h : gmap nat Processor) (l : list nat) : Schd :=
  {| sc_heap := h; procs := l; taskQueueHigh := taskQueueHigh s; taskQueueLow := taskQueueLow s;
     notifyChan := notifyChan s |}.
Definition with_queues (s : Schd) (high low : list Task) : Schd :=
  {| sc_heap := sc_heap s; procs := procs s; taskQueueHigh := high; taskQueueLow := low;
     notifyChan := notifyChan s |}.
Definition with_chan (s : Schd) (n : nat) : Schd :=
  {| sc_heap := sc_heap s; procs := procs s; taskQueueHigh := taskQueueHigh s;
     taskQueueLow := taskQueueLow s; notifyChan := n |}.

Definition Init : Schd :=
  {| sc_heap := ∅; procs := []; taskQueueHigh := []; taskQueueLow := []; notifyChan := 0 |}.

(** ** The critical sections *)

Definition TaskCount (s : Schd) : nat := length (taskQueueHigh s) + length (taskQueueLow s).

Definition proc_at (s : Schd) (p : nat) : option Processor := sc_heap s !! p.

(** The first processor of the list with a property. *)
Fixpoint first_proc (f : Processor -> bool) (h : gmap nat Processor) (l : list nat) : option nat :=
  match l with
  | [] => None
  | p :: l' => if from_option f false (h !! p) then Some p else first_proc f h l'
  end.

Definition find_proc (f : Processor -> bool) (s : Schd) : option nat := first_proc f (sc_heap s) (procs s).

(** [append(procs[:i], procs[i+1:]...)], for the index of [p]. *)
Fixpoint remove_first (p : nat) (l : list nat) : list nat :=
  match l with
  | [] => []
  | p' :: l' => if decide (p' = p) then l' else p' :: remove_first p l'
  end.

(** [inl] is the error; the new processor is a fresh address. *)
Definition AddProcessor (name : string) (s : Schd) : string + Schd :=
  match find_proc (fun q => bool_decide (proc_name q = name)) s with
  | Some _ => inl ("proc " +:+ name +:+ " already exists")
  | None =>
      let p := fresh (dom (sc_heap s)) in
      inr (with_procs s (<[p := {| proc_name := name; currTask := None |}]> (sc_heap s)) (procs s ++ [p]))
  end.

(** The key of the task that ran on the processor; [procs] loses the address
    and the object stays. *)
Definition DelProcessor (name : string) (s : Schd) : string + (string * Schd) :=
  match find_proc (fun q => bool_decide (proc_name q = name)) s with
  | None => inl ("proc " +:+ name +:+ " doesn't exist")
  | Some p =>
      let running := match proc_at s p ≫= currTask with Some t => Key t | None => "" end in
      inr (running, with_procs s (sc_heap s) (remove_first p (procs s)))
  end.

Fixpoint getTaskIdxFromQueue (key : string) (queue : list Task) : option nat :=
  match queue with
  | [] => None
  | t :: queue' => if bool_decide (Key t = key) then Some O else S <$> getTaskIdxFromQueue key queue'
  end.

Definition removeTaskFromQueue (key : string) (queue : list Task) : list Task * option Task :=
  match getTaskIdxFromQueue key queue with
  | None => (queue, None)
  | Some i => (take i queue ++ drop (S i) queue, queue !! i)
  end.

(** A priority that is neither of the two is in no queue. *)
Definition add_task (task : Task) (toHead : bool) (s : Schd) : Schd :=
  if bool_decide (Priority task = PriorityLow) then
    with_queues s (taskQueueHigh s) (if toHead then task :: taskQueueLow s else taskQueueLow s ++ [task])
  else if bool_decide (Priority task = PriorityHigh) then
    with_queues s (if toHead then task :: taskQueueHigh s else taskQueueHigh s ++ [task]) (taskQueueLow s)
  else s.

Definition DeleteTask (key : string) (priority : Z) (s : Schd) : bool * Schd :=
  if bool_decide (priority = PriorityLow) then
    let '(q, t) := removeTaskFromQueue key (taskQueueLow s) in
    (bool_decide (is_Some t), with_queues s (taskQueueHigh s) q)
  else if bool_decide (priority = PriorityHigh) then
    let '(q, t) := removeTaskFromQueue key (taskQueueHigh s) in
    (bool_decide (is_Some t), with_queues s q (taskQueueLow s))
  else (false, s).

Definition ClearTaskQueue (priority : Z) (s : Schd) : Schd :=
  if bool_decide (priority = PriorityLow) then with_queues s (taskQueueHigh s) []
  else if bool_decide (priority = PriorityHigh) then with_queues s [] (taskQueueLow s)
  else s.

Definition set_task (p : nat) (t : option Task) (s : Schd) : Schd :=
  match proc_at s p with
  | Some q => with_procs s (<[p := {| proc_name := proc_name q; currTask := t |}]> (sc_heap s)) (procs s)
  | None => s
  end.

(** The first section of [TaskDone]. *)
Definition release_proc (key : string) (s : Schd) : Schd :=
  match find_proc (fun q => match currTask q with Some t => bool_decide (Key t = key) | None => false end) s with
  | Some p => set_task p None s
  | None => s
  end.

Definition getAvailableProc (s : Schd) : option nat :=
  find_proc (fun q => bool_decide (currTask q = None)) s.

Definition getNextTask (s : Schd) : option (Task * Schd) :=
  match taskQueueHigh s with
  | task :: _ => Some (task, with_queues s (removeTaskFromQueue (Key task) (taskQueueHigh s)).1 (taskQueueLow s))
  | [] =>
      match taskQueueLow s with
      | task :: _ => Some (task, with_queues s [] (removeTaskFromQueue (Key task) (taskQueueLow s)).1)
      | [] => None
      end
  end.

Definition Reset (s : Schd) : Schd :=
  {| sc_heap := foldr (fun p h =>
       match h !! p with
       | Some q => <[p := {| proc_name := proc_name q; currTask := None |}]> h
       | None => h
       end) (sc_heap s) (procs s);
     procs := []; taskQueueHigh := []; taskQueueLow := []; notifyChan := notifyChan s |}.

(** ** Callers and the worker *)

(** Where a caller is between critical sections: [CDone] inside [TaskDone]
    after the processor was released, [CNotify] in front of the test of
    [taskNotify], [CSend] in front of its send. *)
Inductive caller := CDone (t : Task) (a : Action) | CNotify | CSend.

Inductive worker :=
| WIdle
| WLoop
| WProc (p : nat)
| WHandle (p : nat) (t : Task)
| WAct (p : nat) (t : Task) (a : Action)
| WNotify
| WSend.

Record sched := { sd : Schd; work : worker; callers : list caller }.

Definition sched0 : sched := {| sd := Init; work := WIdle; callers := [] |}.

(** The worker's next step.  [act] is the answer of the handler. *)
Definition worker_step (act : Action) (s : sched) : option sched :=
  let to d w := Some {| sd := d; work := w; callers := callers s |} in
  let d := sd s in
  match work s with
  | WIdle => match notifyChan d with S n => to (with_chan d n) WLoop | O => None end
  | WLoop => match getAvailableProc d with Some p => to d (WProc p) | None => to d WIdle end
  | WProc p => match getNextTask d with Some (t, d') => to d' (WHandle p t) | None => to d WIdle end
  | WHandle p t => to d (WAct p t act)
  | WAct p t TaskActionWait => to (set_task p (Some t) d) WLoop
  | WAct p t TaskActionRetry => to (add_task t true d) WNotify
  | WAct p t TaskActionRequeue => to (add_task t false d) WNotify
  | WAct p t TaskActionRequeueWait | WAct p t TaskActionDone => to d WLoop
  | WNotify => if (notifyChan d <? 2)%nat then to d WSend else to d WLoop
  | WSend => if (notifyChan d <? 2)%nat then to (with_chan d (S (notifyChan d))) WLoop else None
  end.

(** A caller's next step, with what is left of it. *)
Definition caller_step (c : caller) (d : Schd) : option (Schd * option caller) :=
  match c with
  | CDone t TaskActionRetry => Some (add_task t true d, Some CNotify)
  | CDone t TaskActionRequeue => Some (add_task t false d, Some CNotify)
  | CDone t _ => Some ((DeleteTask (Key t) (Priority t) d).2, Some CNotify)
  | CNotify => if (notifyChan d <? 2)%nat then Some (d, Some CSend) else Some (d, None)
  | CSend => if (notifyChan d <? 2)%nat then Some (with_chan d (S (notifyChan d)), None) else None
  end.

(** What a caller can begin: the state after its first critical section and
    the caller it becomes. *)
Inductive call : Schd -> Schd -> option caller -> Prop :=
| call_AddProcessor name d d' : AddProcessor name d = inr d' -> call d d' (Some CNotify)
| call_DelProcessor name d k d' : DelProcessor name d = inr (k, d') -> call d d' None
| call_AddTask t h d : call d (add_task t h d) (Some CNotify)
| call_DeleteTask k p d : call d (DeleteTask k p d).2 None
| call_ClearTaskQueue p d : call d (ClearTaskQueue p d) None
| call_TaskDone t a d : call d (release_proc (Key t) d) (Some (CDone t a))
| call_Reset d : call d (Reset d) None.

Inductive sched_step : sched -> sched -> Prop :=
| step_worker act s s' : worker_step act s = Some s' -> sched_step s s'
| step_call s d' c :
    call (sd s) d' c ->
    sched_step s {| sd := d'; work := work s; callers := option_list c ++ callers s |}
| step_caller s l1 c l2 d' c' :
    callers s = l1 ++ c :: l2 -> caller_step c (sd s) = Some (d', c') ->
    sched_step s {| sd := d'; work := work s; callers := l1 ++ option_list c' ++ l2 |}.

(** ** No wake-up is lost *)

Definition queued (d : Schd) : list Task := taskQueueHigh d ++ taskQueueLow d.

(** A task waits and a processor is free. *)
Definition runnable (d : Schd) : Prop := queued d <> [] /\ is_Some (getAvailableProc d).

Definition awake (s : sched) : Prop :=
  (0 < notifyChan (sd s))%nat \/ work s <> WIdle \/ callers s <> [].

Lemma first_proc_Some f h l :
  is_Some (first_proc f h l) <-> exists p q, p ∈ l /\ h !! p = Some q /\ f q = true.
Proof.
  induction l as [|p l IH]; simpl.
  - split; [by intros []|]. intros (p & q & Hin & _). by apply not_elem_of_nil in Hin.
  - destruct (h !! p) as [q|] eqn:Hp; simpl; [destruct (f q) eqn:Hf|]; rewrite ?IH.
    + split; [|by eexists]. intros _. exists p, q. split_and!; [set_solver|done|done].
    + split; intros (p' & q' & Hin & Hq & Hf'); exists p', q'.
      * split_and!; [set_solver|done|done].
      * apply elem_of_cons in Hin as [->|Hin]; [|done]. congruence.
    + split; intros (p' & q' & Hin & Hq & Hf'); exists p', q'.
      * split_and!; [set_solver|done|done].
      * apply elem_of_cons in Hin as [->|Hin]; [|done]. congruence.
Qed.

Lemma remove_first_subset p l : remove_first p l ⊆ l.
Proof.
  induction l as [|p' l IH]; simpl; [done|]. destruct (decide (p' = p)); set_solver.
Qed.

Lemma removeTask_subset key q : (removeTaskFromQueue key q).1 ⊆ q.
Proof.
  unfold removeTaskFromQueue. destruct (getTaskIdxFromQueue key q) as [i|]; simpl; [|done].
  rewrite <- (take_drop i q) at 3. intros t. rewrite !elem_of_app.
  intros [Ht|Ht]; [by left|right]. rewrite <- (Nat.add_1_r i), <- drop_drop in Ht.
  destruct (drop i q); [done|]. rewrite skipn_cons in Ht. set_solver.
Qed.

Lemma subset_nonempty {A} (l l' : list A) : l ⊆ l' -> l <> [] -> l' <> [].
Proof. destruct l as [|x l]; [done|]. intros Hs _ ->. apply (not_elem_of_nil x), Hs. set_solver. Qed.

(** A call that notifies no one frees nothing and adds nothing. *)
Lemma silent_call_runnable d d' : call d d' None -> runnable d' -> runnable d.
Proof.
  inversion 1 as [|name d0 k d1 Hd| |k p d0|p d0| |d0]; subst; intros [Hq Hp].
  - unfold DelProcessor in Hd. destruct (find_proc _ d) as [p|]; [|done]. injection Hd as _ <-.
    split; [done|]. unfold getAvailableProc, find_proc in *. rewrite first_proc_Some in *.
    cbn [with_procs sc_heap procs] in Hp. destruct Hp as (p' & q & Hin & Hh).
    exists p', q. split; [|done]. by eapply remove_first_subset.
  - unfold DeleteTask in *. unfold queued in *.
    pose proof (removeTask_subset k (taskQueueLow d)) as HL.
    pose proof (removeTask_subset k (taskQueueHigh d)) as HH.
    repeat case_bool_decide; try done;
      [destruct (removeTaskFromQueue k (taskQueueLow d)) as [q t]
      |destruct (removeTaskFromQueue k (taskQueueHigh d)) as [q t]];
      cbn in *; (split; [|exact Hp]); (eapply subset_nonempty; [|exact Hq]); set_solver.
  - unfold ClearTaskQueue, queued in *. repeat case_bool_decide; cbn in *; try done;
      (split; [|exact Hp]); (eapply subset_nonempty; [|exact Hq]); set_solver.
  - done.
Qed.

Lemma awake_step s s' :
  sched_step s s' -> (runnable (sd s) -> awake s) -> runnable (sd s') -> awake s'.
Proof.
  unfold awake. intros Hs Hi Hr.
  destruct Hs as [act s s' Hw|s d' [c|] Hc|s l1 c l2 d' c' Hl Hc]; cbn [sd work callers] in *.
  - unfold worker_step in Hw. destruct (work s) as [| |p|p t|p t a| |];
      simplify_eq/=; repeat (case_match; simplify_eq/=); cbn [work sd notifyChan with_chan] in *;
      try (right; left; done).
    + exfalso. destruct Hr as [_ [p Hp]]. congruence.
    + exfalso. destruct Hr as [Hq _]. unfold getNextTask in *. unfold queued in Hq.
      by destruct (taskQueueHigh (sd s)), (taskQueueLow (sd s)).
  - right. right. done.
  - apply silent_call_runnable in Hc as Hr'; [|done]. simpl.
    assert (Hch : notifyChan d' = notifyChan (sd s)).
    { inversion Hc; subst; try done.
      - unfold DelProcessor in *. destruct (find_proc _ _); simplify_eq/=. done.
      - unfold DeleteTask. repeat case_bool_decide; try done; by destruct (removeTaskFromQueue _ _).
      - unfold ClearTaskQueue. by repeat case_bool_decide. }
    rewrite Hch. by apply Hi.
  - destruct c as [t a| |]; simpl in Hc.
    + destruct a; simplify_eq/=; right; right; by destruct l1.
    + case_match eqn:Hlt; simplify_eq/=; [right; right; by destruct l1|].
      left. apply Nat.ltb_ge in Hlt. lia.
    + case_match; simplify_eq/=. left. lia.
Qed.

Lemma reach_awake s : rtc sched_step sched0 s -> runnable (sd s) -> awake s.
Proof.
  intros Hr. revert s Hr.
  assert (H : forall s, rtc sched_step sched0 s -> (runnable (sd s) -> awake s)).
  { intros s. apply (rtc_invariant sched_step (fun s => runnable (sd s) -> awake s)).
    - intros s1 s2 Hs Hi. by apply (awake_step s1 s2).
    - intros [Hq _]. by vm_compute in Hq. }
  exact H.
Qed.

Lemma removeTask_head t q : removeTaskFromQueue (Key t) (t :: q) = (q, Some t).
Proof.
  unfold removeTaskFromQueue. simpl. rewrite bool_decide_eq_true_2 by done. simpl. by rewrite drop_0.
Qed.

Lemma getNextTask_queued d :
  match getNextTask d with
  | Some (t, d') => queued d = t :: queued d' /\ procs d' = procs d /\ sc_heap d' = sc_heap d
  | None => queued d = []
  end.
Proof.
  unfold getNextTask, queued. destruct (taskQueueHigh d) as [|t q].
  - destruct (taskQueueLow d) as [|t q]; [done|]. rewrite removeTask_head. done.
  - rewrite removeTask_head. done.
Qed.

(** The worker holds no processor and no task, and is not blocked in its own
    send. *)
Definition between_tasks (s : sched) : Prop :=
  match work s with
  | WIdle | WLoop | WNotify => True
  | WSend => (notifyChan (sd s) < 2)%nat
  | WProc _ | WHandle _ _ | WAct _ _ _ => False
  end.

Definition dispatches (act : Action) (s : sched) : Prop :=
  exists p t s', rtc (fun a b => worker_step act a = Some b) s s' /\ work s' = WHandle p t /\
    getAvailableProc (sd s) = Some p /\ queued (sd s) = t :: queued (sd s').

Lemma dispatches_loop act s : runnable (sd s) -> work s = WLoop -> dispatches act s.
Proof.
  intros [Hq [p Hp]] Hw.
  pose proof (getNextTask_queued (sd s)) as Hn. destruct (getNextTask (sd s)) as [[t d']|] eqn:Hg; [|done].
  exists p, t, {| sd := d'; work := WHandle p t; callers := callers s |}. split_and!; [|done|done|apply Hn].
  eapply rtc_l; [unfold worker_step; rewrite Hw, Hp; reflexivity|].
  eapply rtc_l; [unfold worker_step; cbn [work sd]; rewrite Hg; reflexivity|]. apply rtc_refl.
Qed.

(** A step of the worker that leaves the queues and the processors alone. *)
Lemma dispatches_step act s n w :
  worker_step act s = Some {| sd := with_chan (sd s) n; work := w; callers := callers s |} ->
  dispatches act {| sd := with_chan (sd s) n; work := w; callers := callers s |} -> dispatches act s.
Proof.
  intros Hs (p & t & s' & Hr & Hw & Hp & Hq). exists p, t, s'. split_and!; [|done|exact Hp|exact Hq].
  by eapply rtc_l.
Qed.

Lemma with_chan_id d : with_chan d (notifyChan d) = d.
Proof. by destruct d. Qed.

Lemma dispatches_send act s :
  runnable (sd s) -> work s = WSend -> (notifyChan (sd s) < 2)%nat -> dispatches act s.
Proof.
  intros Hrun Hw Hlt. apply (dispatches_step act s (S (notifyChan (sd s))) WLoop); [|by apply dispatches_loop].
  unfold worker_step. rewrite Hw. by apply Nat.ltb_lt in Hlt as ->.
Qed.

Lemma dispatches_notify act s : runnable (sd s) -> work s = WNotify -> dispatches act s.
Proof.
  intros Hrun Hw. destruct (Nat.ltb_spec (notifyChan (sd s)) 2) as [Hlt|Hge].
  - apply (dispatches_step act s (notifyChan (sd s)) WSend); [|by apply dispatches_send].
    unfold worker_step. rewrite Hw, with_chan_id. by apply Nat.ltb_lt in Hlt as ->.
  - apply (dispatches_step act s (notifyChan (sd s)) WLoop); [|by apply dispatches_loop].
    unfold worker_step. rewrite Hw, with_chan_id. by apply Nat.ltb_ge in Hge as ->.
Qed.

(** C16: the scheduler loses no wake-up: in every state that calls and the
    worker reach in which a task is waiting and a processor is free, no caller
    is in the middle of a call, and the worker is between two tasks (it waits
    for a wake-up, looks for a processor, or is about to notify itself after
    it put a task back) and not blocked in a send on a full channel, the
    worker on its own goes on to hand the oldest task of the most urgent queue
    to the first free processor. *)
Theorem scheduler_dispatches s act :
  rtc sched_step sched0 s -> runnable (sd s) -> callers s = [] -> between_tasks s ->
  exists p t s', rtc (fun a b => worker_step act a = Some b) s s' /\ work s' = WHandle p t /\
    getAvailableProc (sd s) = Some p /\ queued (sd s) = t :: queued (sd s').
Proof.
  intros Hreach Hrun Hc Hb. change (dispatches act s). unfold between_tasks in Hb.
  destruct (work s) eqn:Hw; try done.
  - destruct (reach_awake s Hreach Hrun) as [Hch|[Hne|Hcs]]; [|done|done].
    destruct (notifyChan (sd s)) as [|n] eqn:Hn; [lia|].
    apply (dispatches_step act s n WLoop); [|by apply dispatches_loop]. unfold worker_step. by rewrite Hw, Hn.
  - by apply dispatches_loop.
  - by apply dispatches_notify.
  - by apply dispatches_send.
Qed.

(** ** Runs *)

Definition ex_task (k : string) : Task := {| Key := k; Priority := PriorityLow; task_id := 0 |}.

(** Some of the steps, as a function: calls, a step of the last caller, a step
    of the worker. *)
Inductive label := LAddProcessor (name : string) | LAddTask (t : Task) | LCaller | LWorker (a : Action).

Definition label_step (l : label) (s : sched) : option sched :=
  let begin d := Some {| sd := d; work := work s; callers := CNotify :: callers s |} in
  match l with
  | LAddProcessor name => match AddProcessor name (sd s) with inr d => begin d | inl _ => None end
  | LAddTask t => begin (add_task t false (sd s))
  | LCaller =>
      match callers s with
      | c :: cs => '(d', c') ← caller_step c (sd s);
                   Some {| sd := d'; work := work s; callers := option_list c' ++ cs |}
      | [] => None
      end
  | LWorker a => worker_step a s
  end.

Definition run_labels (ls : list label) (s : sched) : option sched :=
  foldl (fun os l => os ≫= label_step l) (Some s) ls.

Lemma label_step_sched l s s' : label_step l s = Some s' -> sched_step s s'.
Proof.
  destruct l as [name|t| |a]; simpl.
  - destruct (AddProcessor name (sd s)) as [|d] eqn:Ha; [done|]. intros [= <-].
    apply (step_call s d (Some CNotify)). by econstructor.
  - intros [= <-]. apply (step_call s _ (Some CNotify)). constructor.
  - destruct (callers s) as [|c cs] eqn:Hc; [done|].
    destruct (caller_step c (sd s)) as [[d' c']|] eqn:Hd; [|done]. intros [= <-].
    by apply (step_caller s [] c cs d' c').
  - by econstructor.
Qed.

Lemma run_labels_reach ls s s' : run_labels ls s = Some s' -> rtc sched_step s s'.
Proof.
  unfold run_labels. revert s. induction ls as [|l ls IH]; intros s; cbn [foldl].
  - intros [= <-]. apply rtc_refl.
  - cbn [mbind option_bind]. destruct (label_step l s) as [s1|] eqn:Hl.
    + intros Hr. eapply rtc_l; [by eapply label_step_sched|]. by apply IH.
    + intros Hr. exfalso. clear -Hr. induction ls; [done|]. by apply IHls.
Qed.

Definition start : list label :=
  [LAddProcessor "p1"; LCaller; LCaller; LAddTask (ex_task "t1"); LCaller; LCaller].

(** The worker waits, a processor is free and a task was just added. *)
Definition ex_ready : sched := default sched0 (run_labels start sched0).

(** The handler wants the task again, and between the worker's test and its
    send another caller sends. *)
Definition ex_stuck : sched :=
  default sched0 (run_labels (start ++ replicate 6 (LWorker TaskActionRetry) ++
    [LAddTask (ex_task "t2"); LCaller; LCaller]) sched0).

Lemma scheduler_dispatches_witness :
  exists p t s', rtc (fun a b => worker_step TaskActionDone a = Some b) ex_ready s' /\
    work s' = WHandle p t /\ getAvailableProc (sd ex_ready) = Some p /\
    queued (sd ex_ready) = t :: queued (sd s').
Proof.
  apply (scheduler_dispatches ex_ready TaskActionDone).
  - apply (run_labels_reach start). by vm_compute.
  - split; [by vm_compute|]. exists 0%nat. by vm_compute.
  - by vm_compute.
  - by vm_compute.
Defined.

(** The worker in front of its own send, with the channel full. *)
Definition blocked (s : sched) : Prop := work s = WSend /\ (2 <= notifyChan (sd s))%nat.

Lemma blocked_step s s' : sched_step s s' -> blocked s -> blocked s'.
Proof.
  intros Hs [Hw Hn]. unfold blocked.
  destruct Hs as [act s s' Hst|s d' c Hc|s l1 c l2 d' c' Hl Hc]; cbn [sd work] in *.
  - unfold worker_step in Hst. rewrite Hw in Hst. case_match eqn:Hlt; [|done].
    apply Nat.ltb_lt in Hlt. lia.
  - split; [done|]. destruct Hc; cbn; try done.
    + unfold AddProcessor in *. destruct (find_proc _ _); simplify_eq/=. done.
    + unfold DelProcessor in *. destruct (find_proc _ _); simplify_eq/=. done.
    + unfold add_task. by repeat case_bool_decide.
    + unfold DeleteTask. repeat case_bool_decide; try done; by destruct (removeTaskFromQueue _ _).
    + unfold ClearTaskQueue. by repeat case_bool_decide.
    + unfold release_proc, set_task. destruct (find_proc _ _); [|done]. by destruct (proc_at _ _).
  - split; [done|]. destruct c as [t a| |]; simpl in Hc.
    + assert (Ha : forall h, notifyChan (add_task t h (sd s)) = notifyChan (sd s))
        by (intros h; unfold add_task; by repeat case_bool_decide).
      assert (Hd : notifyChan (DeleteTask (Key t) (Priority t) (sd s)).2 = notifyChan (sd s)).
      { unfold DeleteTask. repeat case_bool_decide; try done; by destruct (removeTaskFromQueue _ _). }
      destruct a; simplify_eq/=; rewrite ?Ha, ?Hd; done.
    + case_match; by simplify_eq/=.
    + case_match eqn:Hlt; simplify_eq/=. apply Nat.ltb_lt in Hlt. lia.
Qed.

(** C39: the worker can block on the channel it alone reads: when a handler
    asks for its task again, another caller may send between the worker's test
    of the channel and its own send.  From that state no step ever moves the
    worker again, although a task is waiting and a processor is free. *)
Theorem worker_blocks_itself :
  exists s, rtc sched_step sched0 s /\ runnable (sd s) /\
    forall s', rtc sched_step s s' -> work s' = WSend.
Proof.
  exists ex_stuck. split_and!.
  - apply (run_labels_reach (start ++ replicate 6 (LWorker TaskActionRetry) ++
      [LAddTask (ex_task "t2"); LCaller; LCaller])). by vm_compute.
  - split; [by vm_compute|]. exists 0%nat. by vm_compute.
  - intros s' Hr. apply (rtc_invariant sched_step blocked ex_stuck s'); [apply blocked_step| |done].
    split; [by vm_compute|]. vm_compute. lia.
Qed.
