(* ===== verification/NvVersion.v ===== *)
(** * Package versions

    share/utils/version.go reads the version of a package ([NewVersion]: an
    epoch, a version, a revision and the release of an enterprise Linux),
    prints it ([Version_String], also its form in JSON and in a database) and
    compares two of them ([Compare]), the way dpkg does with two additions.

    The code looks at bytes: [rune(str[i])] is one of the first 256 runes.
    The white space [TrimSpace] removes is ASCII's. *)

From Stdlib Require Import ZArith Lia Ascii.
From S2P Require Import Prelude GoLib GoText.

Record Version := { epoch : Z; version : string; revision : string; el_ver : string }.
#[export] Instance Version_eq_dec : EqDecision Version.
Proof. solve_decision. Defined.

Definition plain_version (v : string) : Version :=
  {| epoch := 0; version := v; revision := ""; el_ver := "" |}.
Definition MinVersion : Version := plain_version "#MINV#".
Definition MaxVersion : Version := plain_version "#MAXV#".

(** [unicode.IsDigit] and [unicode.IsLetter] of the first 256 runes. *)
Definition IsDigit (c : ascii) : bool := let n := N_of_ascii c in ((48 <=? n) && (n <=? 57))%N.

Definition IsLetter (c : ascii) : bool :=
  let n := N_of_ascii c in
  ((65 <=? n) && (n <=? 90) || (97 <=? n) && (n <=? 122) ||
   (n =? 0xaa) || (n =? 0xb5) || (n =? 0xba) ||
   (0xc0 <=? n) && (n <=? 0xd6) || (0xd8 <=? n) && (n <=? 0xf6) || (0xf8 <=? n))%N.

Definition versionAllowedSymbols : list ascii := ["."; "-"; "+"; "~"; ":"; "_"]%char.
Definition revisionAllowedSymbols : list ascii := ["."; "+"; "~"; "_"]%char.

Definition containsRune (s : list ascii) (e : ascii) : bool := existsb (fun a => bool_decide (a = e)) s.

Fixpoint all_allowed (symbols : list ascii) (s : string) : bool :=
  match s with
  | EmptyString => true
  | String r s' => (IsDigit r || IsLetter r || containsRune symbols r) && all_allowed symbols s'
  end.

(** [strings.LastIndex(s, sub)] for a [sub] that is not empty. *)
Fixpoint LastIndex (s sub : string) : option nat :=
  match s with
  | EmptyString => None
  | String _ s' =>
      match LastIndex s' sub with
      | Some i => Some (S i)
      | None => if HasPrefix s sub then Some O else None
      end
  end.

Definition Version_String (v : Version) : string :=
  (if negb (epoch v =? 0)%Z then fmt_int (epoch v) +:+ ":" else "") +:+ version v +:+
  (if negb (bool_decide (revision v = "")) then "-" +:+ revision v else "") +:+
  (if negb (bool_decide (el_ver v = "")) then "." +:+ el_ver v else "").

(** The last [.el] and what follows it, cut off. *)
Definition cut_el (rev : string) : string * string :=
  match LastIndex rev ".el" with
  | Some el => (string_take el rev, string_drop (S el) rev)
  | None => (rev, "")
  end.

(** From [str], without the space around it, and the index after the epoch;
    [str[a:b]] panics when a > b. *)
Definition split_version (e : Z) (start : nat) (str : string) : outcome Version :=
  match LastIndexByte str "-"%char with
  | Some seprevision =>
      if (seprevision <? start)%nat then Panicked "slice bounds out of range"
      else
        let '(rev, el) := cut_el (string_drop (S seprevision) str) in
        Done {| epoch := e; version := string_drop start (string_take seprevision str);
                revision := rev; el_ver := el |}
  | None =>
      let '(ver, el) := cut_el (string_drop start str) in
      Done {| epoch := e; version := ver; revision := ""; el_ver := el |}
  end.

Definition verify_version (v : Version) : string + Version :=
  if bool_decide (version v = "") then inl "No version"
  else if negb (all_allowed versionAllowedSymbols (version v)) then inl "invalid character in version"
  else if negb (all_allowed revisionAllowedSymbols (revision v)) then inl "invalid character in revision"
  else if negb (all_allowed revisionAllowedSymbols (el_ver v)) then inl "invalid character in revision"
  else inr v.

Definition NewVersion (str : string) : outcome (string + Version) :=
  let str := TrimSpace str in
  if bool_decide (str = "") then Done (inl "Version string is empty")
  else if bool_decide (str = Version_String MaxVersion) then Done (inr MaxVersion)
  else if bool_decide (str = Version_String MinVersion) then Done (inr MinVersion)
  else
    match IndexByte str ":"%char with
    | Some sepepoch =>
        match Atoi (string_take sepepoch str) with
        | None => Done (inl "epoch in version is not a number")
        | Some intepoch =>
            if (intepoch <? 0)%Z then Done (inl "epoch in version is negative")
            else v ← split_version intepoch (S sepepoch) str; Done (verify_version v)
        end
    | None => v ← split_version 0 0 str; Done (verify_version v)
    end.

(** ** Comparison *)

Definition signum (a : Z) : Z := if (a <? 0)%Z then (-1)%Z else if (a >? 0)%Z then 1%Z else 0%Z.

Definition order (r : ascii) : Z :=
  if IsDigit r then 0%Z
  else if IsLetter r then Z.of_N (N_of_ascii r)
  else if bool_decide (r = "~"%char) then (-1)%Z
  else (Z.of_N (N_of_ascii r) + 256)%Z.

(** The expression (rc[0-9]|pre[0-9]), anywhere in the text. *)
Definition rc_here (s : string) : bool :=
  let digit_at k := match String.get k s with Some c => IsDigit c | None => false end in
  (HasPrefix s "rc" && digit_at 2%nat) || (HasPrefix s "pre" && digit_at 3%nat).

Fixpoint rcRegex (s : string) : bool :=
  rc_here s || match s with EmptyString => false | String _ s' => rcRegex s' end.

(** What is left of a text is its next rune, if any, and the rest:
    [nextRune] drops the first byte. *)
Definition nextRune (s : string) : string := match s with EmptyString => "" | String _ s' => s' end.

Definition head_is (f : ascii -> bool) (s : string) : bool :=
  match s with EmptyString => false | String c _ => f c end.

Definition head_order (s : string) : Z := match s with EmptyString => 0%Z | String c _ => order c end.

(** The loop over what is not a digit: a result, or the two texts from the
    first place where neither continues with one. *)
Fixpoint cmp_nondigits (fuel : nat) (t1 t2 : string) : Z + string * string :=
  match fuel with
  | O => inr (t1, t2)
  | S fuel' =>
      if head_is (fun c => negb (IsDigit c)) t1 || head_is (fun c => negb (IsDigit c)) t2 then
        let ac := head_order t1 in
        let bc := head_order t2 in
        if (ac =? 302)%Z && (bc =? 351)%Z then inl 1%Z
        else if (ac =? 351)%Z && (bc =? 302)%Z then inl (-1)%Z
        else if negb (ac =? bc)%Z then
          if (ac >? bc)%Z && (bc =? 0)%Z && rcRegex (nextRune t1) then inl (-1)%Z
          else if (ac <? bc)%Z && (ac =? 0)%Z && rcRegex (nextRune t2) then inl 1%Z
          else inl (ac - bc)%Z
        else cmp_nondigits fuel' (nextRune t1) (nextRune t2)
      else inr (t1, t2)
  end.

Fixpoint skip_zeros (s : string) : string :=
  match s with
  | String c s' => if bool_decide (c = "0"%char) then skip_zeros s' else s
  | EmptyString => ""
  end.

(** The loop over two digits; [firstDiff] is the difference of the first two
    that differ. *)
Fixpoint cmp_digits (firstDiff : Z) (t1 t2 : string) : Z * (string * string) :=
  match t1, t2 with
  | String c1 s1, String c2 s2 =>
      if IsDigit c1 && IsDigit c2 then
        let firstDiff := if (firstDiff =? 0)%Z
                         then (Z.of_N (N_of_ascii c1) - Z.of_N (N_of_ascii c2))%Z else firstDiff in
        cmp_digits firstDiff s1 s2
      else (firstDiff, (t1, t2))
  | _, _ => (firstDiff, (t1, t2))
  end.

Fixpoint verrevcmp_loop (fuel : nat) (t1 t2 : string) : Z :=
  match fuel with
  | O => 0
  | S fuel' =>
      if bool_decide (t1 = "") && bool_decide (t2 = "") then 0
      else match cmp_nondigits (String.length t1 + String.length t2) t1 t2 with
      | inl r => r
      | inr (t1, t2) =>
          let '(firstDiff, (t1, t2)) := cmp_digits 0 (skip_zeros t1) (skip_zeros t2) in
          if head_is IsDigit t1 then 1
          else if head_is IsDigit t2 then -1
          else if negb (firstDiff =? 0)%Z then firstDiff
          else verrevcmp_loop fuel' t1 t2
      end
  end%Z.

Definition verrevcmp (t1 t2 : string) : Z :=
  verrevcmp_loop (String.length t1 + String.length t2) t1 t2.

Definition CompareWithoutEpoch (a b : Version) : Z :=
  if bool_decide (a = b) then 0
  else if bool_decide (a = MinVersion) || bool_decide (b = MaxVersion) then -1
  else if bool_decide (b = MinVersion) || bool_decide (a = MaxVersion) then 1
  else
    let rc := verrevcmp (version a) (version b) in
    if negb (rc =? 0)%Z then signum rc
    else
      let rc := verrevcmp (revision a) (revision b) in
      if negb (rc =? 0)%Z then signum rc
      else signum (verrevcmp (el_ver a) (el_ver b)).

Definition Compare (a b : Version) : Z :=
  if bool_decide (a = b) then 0
  else if bool_decide (a = MinVersion) || bool_decide (b = MaxVersion) then -1
  else if bool_decide (b = MinVersion) || bool_decide (a = MaxVersion) then 1
  else if (epoch a >? epoch b)%Z then 1
  else if (epoch a <? epoch b)%Z then -1
  else
    let rc := verrevcmp (version a) (version b) in
    if negb (rc =? 0)%Z then signum rc
    else
      let rc := verrevcmp (revision a) (revision b) in
      if negb (rc =? 0)%Z then signum rc
      else signum (verrevcmp (el_ver a) (el_ver b)).

(** ** The comparison ends and is antisymmetric *)

Definition no_digit (s : string) : bool := negb (head_is IsDigit s).
Definition no_nondigit (s : string) : bool := negb (head_is (fun c => negb (IsDigit c)) s).

Lemma nextRune_length s : (String.length (nextRune s) <= String.length s)%nat.
Proof. destruct s; simpl; lia. Qed.

Lemma skip_zeros_length s : (String.length (skip_zeros s) <= String.length s)%nat.
Proof. induction s as [|c s IH]; simpl; [lia|]. case_bool_decide; simpl; lia. Qed.

Lemma skip_zeros_head s : head_is (fun c => bool_decide (c = "0"%char)) (skip_zeros s) = false.
Proof. induction s as [|c s IH]; [done|]. simpl. case_bool_decide; [done|]. simpl. by rewrite bool_decide_eq_false_2. Qed.

(** The first loop leaves two texts where it stops for want of another
    character that is not a digit, never for want of fuel. *)
Lemma cmp_nondigits_stops f t1 t2 u1 u2 :
  (String.length t1 + String.length t2 <= f)%nat ->
  cmp_nondigits f t1 t2 = inr (u1, u2) ->
  no_nondigit u1 = true /\ no_nondigit u2 = true /\
  (String.length u1 <= String.length t1)%nat /\ (String.length u2 <= String.length t2)%nat.
Proof.
  revert t1 t2. induction f as [|f IH]; intros t1 t2 Hf; simpl.
  - destruct t1, t2; simpl in Hf; try lia. intros [= <- <-]. done.
  - destruct (_ || _) eqn:Hc.
    + repeat case_match; try discriminate. intros Hr.
      destruct (IH (nextRune t1) (nextRune t2)) as (? & ? & ? & ?); [|done|].
      { pose proof (nextRune_length t1). pose proof (nextRune_length t2).
        destruct t1, t2; simpl in *; try discriminate; lia. }
      pose proof (nextRune_length t1). pose proof (nextRune_length t2). split_and!; try done; lia.
    + intros [= <- <-]. apply orb_false_iff in Hc as [H1 H2].
      unfold no_nondigit. rewrite H1, H2. done.
Qed.

Lemma cmp_nondigits_fuel f f' t1 t2 :
  (String.length t1 + String.length t2 <= f)%nat -> (String.length t1 + String.length t2 <= f')%nat ->
  cmp_nondigits f t1 t2 = cmp_nondigits f' t1 t2.
Proof.
  revert f' t1 t2. induction f as [|f IH]; intros f' t1 t2 Hf Hf'.
  - destruct t1, t2; simpl in Hf; try lia. by destruct f'.
  - destruct f' as [|f'].
    + destruct t1, t2; simpl in Hf'; try lia. done.
    + simpl. destruct (_ || _) eqn:Hc; [|done].
      repeat (case_match; [done|]). repeat case_match; try done.
      apply IH; destruct t1, t2; simpl in *; try discriminate; lia.
Qed.

Lemma cmp_digits_length fd t1 t2 fd' u1 u2 :
  cmp_digits fd t1 t2 = (fd', (u1, u2)) ->
  head_is IsDigit u1 && head_is IsDigit u2 = false /\
  (String.length u1 <= String.length t1)%nat /\ (String.length u2 <= String.length t2)%nat.
Proof.
  revert fd t2. induction t1 as [|c1 t1 IH]; intros fd [|c2 t2]; simpl;
    try (intros [= <- <- <-]; simpl; rewrite ?andb_false_r; split_and!; (done || lia)).
  destruct (IsDigit c1 && IsDigit c2) eqn:Hd.
  - intros H. apply IH in H as (? & ? & ?). split_and!; [done|lia|lia].
  - intros [= <- <- <-]. simpl. rewrite Hd. split_and!; (done || lia).
Qed.

(** Where neither text goes on with a character that is not a digit, the
    numbers are read: something is, unless nothing is left. *)
Lemma read_numbers_shorter t1 t2 fd u1 u2 :
  no_nondigit t1 = true -> no_nondigit t2 = true -> (t1 <> "" \/ t2 <> "") ->
  cmp_digits 0 (skip_zeros t1) (skip_zeros t2) = (fd, (u1, u2)) ->
  head_is IsDigit u1 = false -> head_is IsDigit u2 = false ->
  (String.length u1 + String.length u2 < String.length t1 + String.length t2)%nat.
Proof.
  intros H1 H2 Hne Hc Hu1 Hu2. pose proof (cmp_digits_length _ _ _ _ _ _ Hc) as (_ & L1 & L2).
  pose proof (skip_zeros_length t1). pose proof (skip_zeros_length t2).
  assert (Hsame : forall t, no_nondigit t = true -> head_is IsDigit t = false -> t = "").
  { intros [|c t]; [done|]. unfold no_nondigit. simpl. by destruct (IsDigit c). }
  assert (Heq : forall (t : string), String.length (skip_zeros t) = String.length t -> skip_zeros t = t).
  { intros [|c t]; [done|]. simpl. case_bool_decide; [|done]. pose proof (skip_zeros_length t). lia. }
  destruct (decide (String.length u1 + String.length u2 < String.length t1 + String.length t2)%nat) as [|Hge]; [done|].
  assert (E1 : skip_zeros t1 = t1) by (apply Heq; lia). assert (E2 : skip_zeros t2 = t2) by (apply Heq; lia).
  rewrite E1, E2 in Hc.
  assert (Hno : u1 = t1 /\ u2 = t2).
  { destruct t1 as [|c1 t1], t2 as [|c2 t2]; simpl in Hc; try (by injection Hc as <- <- <-).
    destruct (IsDigit c1 && IsDigit c2); [|by injection Hc as <- <- <-].
    apply cmp_digits_length in Hc as (_ & ? & ?). simpl in *. lia. }
  destruct Hno as [-> ->]. rewrite (Hsame t1), (Hsame t2) in Hne by done. by destruct Hne.
Qed.

(** The result does not depend on the fuel once it covers the two texts. *)
Lemma verrevcmp_loop_fuel f f' t1 t2 :
  (String.length t1 + String.length t2 <= f)%nat -> (String.length t1 + String.length t2 <= f')%nat ->
  verrevcmp_loop f t1 t2 = verrevcmp_loop f' t1 t2.
Proof.
  revert f' t1 t2. induction f as [|f IH]; intros f' t1 t2 Hf Hf'.
  - destruct t1, t2; simpl in Hf; try lia. by destruct f'.
  - destruct f' as [|f']; [destruct t1, t2; simpl in Hf'; try lia; done|].
    cbn [verrevcmp_loop]. destruct (bool_decide (t1 = "") && bool_decide (t2 = "")) eqn:He; [done|].
    destruct (cmp_nondigits _ t1 t2) as [r|[u1 u2]] eqn:Hn; [done|].
    apply cmp_nondigits_stops in Hn as (N1 & N2 & L1 & L2); [|done].
    destruct (cmp_digits _ _ _) as [fd [w1 w2]] eqn:Hd.
    destruct (head_is IsDigit w1) eqn:Hw1; [done|]. destruct (head_is IsDigit w2) eqn:Hw2; [done|].
    destruct (negb _); [done|].
    destruct (decide (u1 = "" /\ u2 = "")) as [[-> ->]|Hne].
    + injection Hd as <- <- <-. by destruct f, f'.
    + assert (u1 <> "" \/ u2 <> "") by (destruct (decide (u1 = "")); [right|left]; naive_solver).
      pose proof (read_numbers_shorter _ _ _ _ _ N1 N2 H Hd Hw1 Hw2).
      apply IH; lia.
Qed.

Definition swap_result (r : Z + string * string) : Z + string * string :=
  match r with inl n => inl (- n)%Z | inr (u1, u2) => inr (u2, u1) end.

Lemma cmp_nondigits_swap f t1 t2 : cmp_nondigits f t2 t1 = swap_result (cmp_nondigits f t1 t2).
Proof.
  revert t1 t2. induction f as [|f IH]; intros t1 t2; [done|]. simpl. rewrite orb_comm.
  destruct (_ || _); [|done]. set (a := head_order t1). set (b := head_order t2).
  rewrite IH, (Z.eqb_sym b a), !Z.gtb_ltb.
  destruct (Z.eqb_spec a 302), (Z.eqb_spec b 302), (Z.eqb_spec a 351), (Z.eqb_spec b 351),
    (Z.eqb_spec a b), (Z.ltb_spec a b), (Z.ltb_spec b a), (Z.eqb_spec a 0), (Z.eqb_spec b 0);
    try lia; simpl; try done; try (f_equal; lia);
    destruct (rcRegex (nextRune t1)), (rcRegex (nextRune t2)); simpl; (done || f_equal; lia).
Qed.

Lemma cmp_digits_swap fd t1 t2 :
  cmp_digits (- fd) t2 t1 =
  let '(d, (u1, u2)) := cmp_digits fd t1 t2 in ((- d)%Z, (u2, u1)).
Proof.
  revert fd t2. induction t1 as [|c1 t1 IH]; intros fd [|c2 t2]; try done. simpl.
  rewrite andb_comm. destruct (_ && _); [|done]. rewrite <-IH. f_equal.
  destruct (Z.eqb_spec fd 0), (Z.eqb_spec (- fd) 0); lia.
Qed.

Lemma verrevcmp_swap t1 t2 : (verrevcmp t2 t1 = - verrevcmp t1 t2)%Z.
Proof.
  unfold verrevcmp. rewrite (Nat.add_comm (String.length t2)).
  generalize (String.length t1 + String.length t2)%nat as f. intros f. revert t1 t2.
  induction f as [|f IH]; intros t1 t2; [done|]. cbn [verrevcmp_loop].
  rewrite andb_comm. destruct (_ && _); [done|].
  rewrite (Nat.add_comm (String.length t2)), cmp_nondigits_swap.
  destruct (cmp_nondigits _ t1 t2) as [r|[u1 u2]]; [done|]. cbn [swap_result].
  pose proof (cmp_digits_swap 0 (skip_zeros u1) (skip_zeros u2)) as Hs.
  change (- 0)%Z with 0%Z in Hs. rewrite Hs. clear Hs.
  destruct (cmp_digits _ _ _) as [fd [w1 w2]] eqn:Hd.
  apply cmp_digits_length in Hd as (Hb & _ & _).
  destruct (head_is IsDigit w1), (head_is IsDigit w2); try done.
  rewrite (IH w1 w2). destruct (Z.eqb_spec fd 0), (Z.eqb_spec (- fd) 0); simpl; lia.
Qed.

Lemma verrevcmp_refl t : verrevcmp t t = 0%Z.
Proof. pose proof (verrevcmp_swap t t). lia. Qed.

(** ** What is compared

    A text is read as a list of numbers: the order of each character that is
    not a digit, and for each run of digits a 0 followed by its value.  Two
    texts compare as their lists do lexicographically, the shorter one
    followed by zeros, unless one of the two additions to dpkg's rules
    applies. *)

Definition digit (c : ascii) : Z := (Z.of_N (N_of_ascii c) - 48)%Z.

Fixpoint numval (n : Z) (s : string) : Z * string :=
  match s with
  | String c s' => if IsDigit c then numval (10 * n + digit c) s' else (n, s)
  | EmptyString => (n, s)
  end.

Fixpoint key_go (num : option Z) (s : string) : list Z :=
  match s with
  | EmptyString => option_list num
  | String c s' =>
      if IsDigit c then
        match num with
        | Some n => key_go (Some (10 * n + digit c)%Z) s'
        | None => 0%Z :: key_go (Some (digit c)) s'
        end
      else option_list num ++ order c :: key_go None s'
  end.

Definition key (s : string) : list Z := key_go None s.

(** The sign of the first number that is not 0. *)
Fixpoint lead (l : list Z) : Z :=
  match l with [] => 0%Z | x :: l' => if (x =? 0)%Z then lead l' else Z.sgn x end.

Fixpoint lexsign (l1 l2 : list Z) : Z :=
  match l1 with
  | [] => (- lead l2)%Z
  | x :: l1' =>
      let y := hd 0%Z l2 in if (x =? y)%Z then lexsign l1' (tl l2) else Z.sgn (x - y)
  end.

Definition plain (s : string) : bool := negb (has_byte "_"%char s) && negb (rcRegex s).

Lemma key_num n s : key_go (Some n) s = let '(v, r) := numval n s in v :: key r.
Proof.
  revert n. induction s as [|c s IH]; intros n; [done|]. simpl. destruct (IsDigit c) eqn:Hc; [apply IH|].
  unfold key. simpl. by rewrite Hc.
Qed.

Lemma key_nondigit c s : IsDigit c = false -> key (String c s) = order c :: key s.
Proof. intros Hc. unfold key. simpl. by rewrite Hc. Qed.

(** Byte by byte, over the 256 of them. *)
Ltac bytes c := destruct c as [[] [] [] [] [] [] [] []]; vm_compute; (done || congruence || lia).

Lemma order_nonzero c : IsDigit c = false -> order c <> 0%Z.
Proof. bytes c. Qed.

Lemma order_digit c : IsDigit c = true -> order c = 0%Z.
Proof. unfold order. by intros ->. Qed.

Lemma order_underscore c : order c = 351%Z -> c = "_"%char.
Proof. bytes c. Qed.

Lemma digit_range c : IsDigit c = true -> (0 <= digit c <= 9)%Z.
Proof.
  unfold IsDigit, digit. intros [H1 H2]%andb_true_iff. apply N.leb_le in H1, H2. lia.
Qed.

Lemma digit_zero c : IsDigit c = true -> c <> "0"%char -> (1 <= digit c)%Z.
Proof. bytes c. Qed.

Lemma digit_diff c1 c2 : (Z.of_N (N_of_ascii c1) - Z.of_N (N_of_ascii c2) = digit c1 - digit c2)%Z.
Proof. unfold digit. lia. Qed.

Lemma head_order_key s : hd 0%Z (key s) = head_order s.
Proof.
  destruct s as [|c s]; [done|]. unfold key. simpl. destruct (IsDigit c) eqn:Hc; [|done].
  simpl. by rewrite order_digit.
Qed.

(** *** The order of lists *)

Lemma lead_spec l :
  (lead l = 0%Z /\ forall k, nth k l 0%Z = 0%Z) \/
  (exists n, (forall k, (k < n)%nat -> nth k l 0%Z = 0%Z) /\ nth n l 0%Z <> 0%Z /\ lead l = Z.sgn (nth n l 0%Z)).
Proof.
  induction l as [|x l IH]; simpl; [left; split; [done|by intros []]|].
  destruct (Z.eqb_spec x 0) as [->|Hx].
  - destruct IH as [[-> H]|(n & H & Hn & ->)].
    + left. split; [done|]. by intros [].
    + right. exists (S n). split_and!; [|done|done]. intros [|k] Hk; [done|]. apply H. lia.
  - right. exists O. split_and!; [lia|done|done].
Qed.

Lemma nth_tl k (l : list Z) : nth k (tl l) 0%Z = nth (S k) l 0%Z.
Proof. by destruct l, k. Qed.

Lemma nth_hd (l : list Z) : hd 0%Z l = nth 0 l 0%Z.
Proof. by destruct l. Qed.

Lemma lexsign_spec l1 l2 :
  (lexsign l1 l2 = 0%Z /\ forall k, nth k l1 0%Z = nth k l2 0%Z) \/
  (exists n, (forall k, (k < n)%nat -> nth k l1 0%Z = nth k l2 0%Z) /\ nth n l1 0%Z <> nth n l2 0%Z /\
     lexsign l1 l2 = Z.sgn (nth n l1 0%Z - nth n l2 0%Z)).
Proof.
  revert l2. induction l1 as [|x l1 IH]; intros l2; cbn [lexsign].
  - assert (Hn : forall k, nth k (@nil Z) 0%Z = 0%Z) by by intros [].
    destruct (lead_spec l2) as [[-> H]|(n & H & Hne & ->)].
    + left. split; [done|]. intros k. by rewrite Hn, H.
    + right. exists n. split_and!; [intros k Hk; by rewrite Hn, H|rewrite Hn; congruence|rewrite Hn; lia].
  - rewrite nth_hd. destruct (Z.eqb_spec x (nth 0 l2 0%Z)) as [Hx|Hx].
    + destruct (IH (tl l2)) as [[-> H]|(n & H & Hne & ->)].
      * left. split; [done|]. intros [|k]; [done|]. simpl. by rewrite H, nth_tl.
      * right. exists (S n). rewrite nth_tl in *. split_and!; [|done|done].
        intros [|k] Hk; [done|]. simpl. rewrite H, nth_tl by lia. done.
    + right. exists O. split_and!; [lia|done|done].
Qed.

Lemma lexsign_ext l1 l2 l1' l2' :
  (forall k, nth k l1 0%Z = nth k l1' 0%Z) -> (forall k, nth k l2 0%Z = nth k l2' 0%Z) ->
  lexsign l1 l2 = lexsign l1' l2'.
Proof.
  intros H1 H2. destruct (lexsign_spec l1 l2) as [[-> E]|(n & E & Hn & ->)];
    destruct (lexsign_spec l1' l2') as [[-> E']|(n' & E' & Hn' & ->)]; try done.
  - specialize (E n'). rewrite H1, H2 in E. done.
  - specialize (E' n). rewrite <-H1, <-H2 in E'. done.
  - assert (n = n') as <-; [|by rewrite H1, H2].
    specialize (E n'). specialize (E' n). rewrite H1, H2 in *.
    destruct (Nat.lt_trichotomy n n') as [|[]]; [naive_solver|done|naive_solver].
Qed.

Lemma lexsign_trans l1 l2 l3 :
  (lexsign l1 l2 <= 0)%Z -> (lexsign l2 l3 <= 0)%Z -> (lexsign l1 l3 <= 0)%Z.
Proof.
  destruct (lexsign_spec l1 l2) as [[-> E]|(n & E & Hn & ->)];
    destruct (lexsign_spec l2 l3) as [[-> E']|(m & E' & Hm & ->)];
    destruct (lexsign_spec l1 l3) as [[-> F]|(p & F & Hp & ->)]; intros H1 H2; try lia.
  - specialize (E p). specialize (E' p). lia.
  - pose proof (E p). pose proof (E m). pose proof (E' p). pose proof (F m).
    destruct (Nat.lt_trichotomy p m) as [|[->|]]; lia.
  - pose proof (E' p). pose proof (E' n). pose proof (E p). pose proof (F n).
    destruct (Nat.lt_trichotomy p n) as [|[->|]]; lia.
  - pose proof (E p). pose proof (E m). pose proof (E' p). pose proof (E' n). pose proof (F n). pose proof (F m).
    destruct (Nat.lt_trichotomy p n) as [|[|]]; destruct (Nat.lt_trichotomy n m) as [|[|]];
      destruct (Nat.lt_trichotomy p m) as [|[|]]; subst; lia.
Qed.

Lemma lexsign_hd l1 l2 :
  hd 0%Z l1 <> hd 0%Z l2 -> lexsign l1 l2 = Z.sgn (hd 0%Z l1 - hd 0%Z l2).
Proof.
  rewrite !nth_hd. intros Hne. destruct (lexsign_spec l1 l2) as [[_ E]|([|n] & E & _ & ->)].
  - by rewrite (E O) in Hne.
  - done.
  - rewrite (E O) in Hne by lia. done.
Qed.

Lemma lexsign_cons x l1 l2 : lexsign (x :: l1) (x :: l2) = lexsign l1 l2.
Proof. cbn [lexsign hd tl]. by rewrite Z.eqb_refl. Qed.

(** *** The loops against the lists *)

Lemma plain_tail c s : plain (String c s) = true -> c <> "_"%char /\ plain s = true /\ rcRegex s = false.
Proof.
  unfold plain. cbn [has_byte rcRegex]. rewrite !andb_true_iff, !negb_true_iff, !orb_false_iff.
  intros [[Hc Hs] [_ Hr]]. apply bool_decide_eq_false in Hc.
  split_and!; congruence.
Qed.

Lemma plain_next s : plain s = true -> plain (nextRune s) = true /\ rcRegex (nextRune s) = false.
Proof. destruct s as [|c s]; [done|]. intros (_ & ? & ?)%plain_tail. done. Qed.

Lemma plain_order s : plain s = true -> head_order s <> 351%Z.
Proof.
  destruct s as [|c s]; [done|]. intros (Hc & _)%plain_tail Ho. by apply Hc, order_underscore.
Qed.

(** Two equal orders, one of them of a character that is not a digit: both
    are. *)
Lemma same_order t1 t2 :
  head_order t1 = head_order t2 ->
  head_is (fun c => negb (IsDigit c)) t1 || head_is (fun c => negb (IsDigit c)) t2 = true ->
  exists c1 s1 c2 s2, t1 = String c1 s1 /\ t2 = String c2 s2 /\ order c1 = order c2 /\
    IsDigit c1 = false /\ IsDigit c2 = false.
Proof.
  destruct t1 as [|c1 s1], t2 as [|c2 s2]; simpl; intros He Hd; rewrite ?orb_false_r in Hd; try done.
  - apply negb_true_iff, order_nonzero in Hd. congruence.
  - apply negb_true_iff, order_nonzero in Hd. congruence.
  - exists c1, s1, c2, s2. split_and!; try done.
    + destruct (IsDigit c1) eqn:H1; [|done]. apply negb_true_iff, order_nonzero in Hd.
      apply order_digit in H1. congruence.
    + destruct (IsDigit c2) eqn:H2; [|done]. rewrite orb_false_r in Hd.
      apply negb_true_iff, order_nonzero in Hd. apply order_digit in H2. congruence.
Qed.

Lemma cmp_nondigits_lex f t1 t2 :
  plain t1 = true -> plain t2 = true ->
  match cmp_nondigits f t1 t2 with
  | inl r => r <> 0%Z /\ Z.sgn r = lexsign (key t1) (key t2)
  | inr (u1, u2) =>
      plain u1 = true /\ plain u2 = true /\ lexsign (key t1) (key t2) = lexsign (key u1) (key u2)
  end.
Proof.
  revert t1 t2. induction f as [|f IH]; intros t1 t2 P1 P2; [done|]. cbn [cmp_nondigits].
  destruct (_ || _) eqn:Hc; [|done].
  pose proof (plain_order _ P1) as O1. pose proof (plain_order _ P2) as O2.
  rewrite (proj2 (Z.eqb_neq _ _) O1), (proj2 (Z.eqb_neq _ _) O2), andb_false_r.
  apply plain_next in P1 as [N1 R1]. apply plain_next in P2 as [N2 R2]. rewrite R1, R2, !andb_false_r.
  cbn [andb]. destruct (Z.eqb_spec (head_order t1) (head_order t2)) as [He|Hne]; cbn [negb].
  - pose proof (IH _ _ N1 N2) as Hrec.
    destruct (same_order _ _ He Hc) as (c1 & s1 & c2 & s2 & -> & -> & Ho & D1 & D2).
    rewrite !key_nondigit, Ho, lexsign_cons by done. exact Hrec.
  - split; [lia|]. rewrite lexsign_hd; rewrite !head_order_key; done.
Qed.

(** The texts are at numbers [n1] and [n2] of as many digits, less than [B]:
    one more digit gives at least [B]. *)
Definition next_digit (n : Z) (t : string) (B : Z) : Prop :=
  (0 <= n < B)%Z /\
  match t with String c _ => IsDigit c = true -> (B <= 10 * n + digit c)%Z | EmptyString => True end.

Lemma next_digit_step n c t B :
  next_digit n (String c t) B -> IsDigit c = true -> next_digit (10 * n + digit c) t (10 * B).
Proof.
  intros [Hn Hc] Hd. specialize (Hc Hd). pose proof (digit_range _ Hd).
  split; [lia|]. destruct t as [|c' t]; [done|]. intros Hd'. pose proof (digit_range _ Hd'). lia.
Qed.

Lemma numval_grows n t : (0 <= n)%Z -> (n <= (numval n t).1)%Z.
Proof.
  revert n. induction t as [|c t IH]; intros n Hn; simpl; [lia|]. destruct (IsDigit c) eqn:Hc; [|simpl; lia].
  pose proof (digit_range _ Hc). pose proof (IH (10 * n + digit c)%Z). lia.
Qed.

Lemma numval_more n t B : next_digit n t B -> head_is IsDigit t = true -> (B <= (numval n t).1)%Z.
Proof.
  intros [Hn Hc] Hd. destruct t as [|c t]; [done|]. simpl in *. rewrite Hd. specialize (Hc Hd).
  pose proof (numval_grows (10 * n + digit c) t). lia.
Qed.

Lemma numval_no_digit n t : head_is IsDigit t = false -> numval n t = (n, t).
Proof. destruct t as [|c t]; [done|]. simpl. by intros ->. Qed.

Lemma cmp_digits_spec t1 t2 fd n1 n2 B fd' w1 w2 :
  next_digit n1 t1 B -> next_digit n2 t2 B -> Z.sgn fd = Z.sgn (n1 - n2) ->
  cmp_digits fd t1 t2 = (fd', (w1, w2)) ->
  let '(v1, r1) := numval n1 t1 in
  let '(v2, r2) := numval n2 t2 in
  if head_is IsDigit w1 then (v2 < v1)%Z
  else if head_is IsDigit w2 then (v1 < v2)%Z
  else Z.sgn fd' = Z.sgn (v1 - v2) /\ w1 = r1 /\ w2 = r2.
Proof.
  assert (Hend : forall t1 t2 fd n1 n2 B, next_digit n1 t1 B -> next_digit n2 t2 B ->
    Z.sgn fd = Z.sgn (n1 - n2) -> head_is IsDigit t1 && head_is IsDigit t2 = false ->
    let '(v1, r1) := numval n1 t1 in
    let '(v2, r2) := numval n2 t2 in
    if head_is IsDigit t1 then (v2 < v1)%Z
    else if head_is IsDigit t2 then (v1 < v2)%Z
    else Z.sgn fd = Z.sgn (v1 - v2) /\ t1 = r1 /\ t2 = r2).
  { clear. intros t1 t2 fd n1 n2 B H1 H2 Hs Hb.
    pose proof (numval_more n1 t1 B H1) as M1. pose proof (numval_more n2 t2 B H2) as M2.
    pose proof (numval_no_digit n1 t1) as D1. pose proof (numval_no_digit n2 t2) as D2.
    destruct H1 as [H1 _]. destruct H2 as [H2 _].
    destruct (head_is IsDigit t1), (head_is IsDigit t2); try done.
    - rewrite D2 by done. destruct (numval n1 t1). specialize (M1 eq_refl). simpl in M1. lia.
    - rewrite D1 by done. destruct (numval n2 t2). specialize (M2 eq_refl). simpl in M2. lia.
    - by rewrite D1, D2. }
  revert t2 fd n1 n2 B. induction t1 as [|c1 t1 IH]; intros [|c2 t2] fd n1 n2 B H1 H2 Hs;
    try (intros [= <- <- <-]; apply (Hend _ _ _ _ _ B); (done || apply andb_false_r)).
  cbn [cmp_digits]. destruct (IsDigit c1 && IsDigit c2) eqn:Hd.
  - apply andb_true_iff in Hd as [D1 D2]. cbn [numval]. rewrite D1, D2, digit_diff.
    apply (IH _ _ _ _ (10 * B)%Z); [by apply next_digit_step|by apply next_digit_step|].
    pose proof (digit_range _ D1). pose proof (digit_range _ D2). destruct (Z.eqb_spec fd 0); lia.
  - intros [= <- <- <-]. apply (Hend _ _ _ _ _ B); done.
Qed.

Lemma numval_skip_zeros s : numval 0 (skip_zeros s) = numval 0 s.
Proof. induction s as [|c s IH]; [done|]. simpl. case_bool_decide as Hc; [|done]. rewrite Hc. exact IH. Qed.

Lemma next_digit_skip s : next_digit 0 (skip_zeros s) 1.
Proof.
  split; [lia|]. pose proof (skip_zeros_head s) as Hh. destruct (skip_zeros s) as [|c t]; [done|].
  intros Hd. simpl in Hh. apply bool_decide_eq_false in Hh. pose proof (digit_zero _ Hd Hh). lia.
Qed.

Lemma numval_plain n s : plain s = true -> plain (numval n s).2 = true.
Proof.
  revert n. induction s as [|c s IH]; intros n Hs; [done|]. simpl. destruct (IsDigit c); [|done].
  apply IH. by apply plain_tail in Hs as (_ & ? & _).
Qed.

(** A text that is empty or begins with a digit is a 0 and its number. *)
Lemma key_number s k :
  no_nondigit s = true ->
  nth k (key s) 0%Z = nth k (let '(v, r) := numval 0 s in 0%Z :: v :: key r) 0%Z.
Proof.
  intros Hs. destruct s as [|c s]; [by destruct k as [|[|[|]]]|].
  unfold no_nondigit in Hs. simpl in Hs. rewrite negb_involutive in Hs.
  unfold key at 1. cbn [key_go]. rewrite Hs, key_num. cbn [numval]. rewrite Hs.
  change (10 * 0 + digit c)%Z with (digit c). by destruct (numval (digit c) s).
Qed.

Lemma verrevcmp_loop_lex f t1 t2 :
  (String.length t1 + String.length t2 <= f)%nat -> plain t1 = true -> plain t2 = true ->
  Z.sgn (verrevcmp_loop f t1 t2) = lexsign (key t1) (key t2).
Proof.
  revert t1 t2. induction f as [|f IH]; intros t1 t2 Hf P1 P2.
  - destruct t1, t2; simpl in Hf; try lia. done.
  - cbn [verrevcmp_loop]. destruct (bool_decide (t1 = "") && bool_decide (t2 = "")) eqn:He.
    { apply andb_true_iff in He as [->%bool_decide_eq_true ->%bool_decide_eq_true]. done. }
    pose proof (cmp_nondigits_lex (String.length t1 + String.length t2) t1 t2 P1 P2) as Hn.
    pose proof (cmp_nondigits_stops (String.length t1 + String.length t2) t1 t2) as Hstop.
    destruct (cmp_nondigits _ t1 t2) as [r|[u1 u2]]; [by destruct Hn|].
    destruct Hn as (U1 & U2 & ->). destruct (Hstop u1 u2) as (N1 & N2 & L1 & L2); [done|done|].
    destruct (cmp_digits _ _ _) as [fd [w1 w2]] eqn:Hd.
    pose proof (cmp_digits_spec _ _ 0 0 0 1 _ _ _ (next_digit_skip u1) (next_digit_skip u2) eq_refl Hd) as Hnum.
    rewrite !numval_skip_zeros in Hnum.
    rewrite (lexsign_ext _ _ _ _ (fun k => key_number u1 k N1) (fun k => key_number u2 k N2)).
    pose proof (numval_plain 0 u1 U1) as R1. pose proof (numval_plain 0 u2 U2) as R2.
    destruct (numval 0 u1) as [v1 r1], (numval 0 u2) as [v2 r2]. rewrite lexsign_cons.
    assert (Hhd : v1 <> v2 -> lexsign (v1 :: key r1) (v2 :: key r2) = Z.sgn (v1 - v2))
      by (intros ?; by apply (lexsign_hd (v1 :: _) (v2 :: _))).
    destruct (head_is IsDigit w1) eqn:W1; [rewrite Hhd; lia|].
    destruct (head_is IsDigit w2) eqn:W2; [rewrite Hhd; lia|]. destruct Hnum as (Hs & -> & ->).
    destruct (Z.eqb_spec fd 0) as [->|Hfd]; cbn [negb]; [|rewrite Hhd; lia].
    assert (v1 = v2) as <- by lia. rewrite lexsign_cons.
    destruct (decide (u1 = "" /\ u2 = "")) as [[-> ->]|Hne].
    + injection Hd as <- <-. by destruct f.
    + assert (Hne' : u1 <> "" \/ u2 <> "") by (destruct (decide (u1 = "")); [right|left]; naive_solver).
      pose proof (read_numbers_shorter _ _ _ _ _ N1 N2 Hne' Hd W1 W2). apply IH; [lia|done|done].
Qed.

Lemma verrevcmp_lex t1 t2 :
  plain t1 = true -> plain t2 = true -> Z.sgn (verrevcmp t1 t2) = lexsign (key t1) (key t2).
Proof. by apply verrevcmp_loop_lex. Qed.

(** ** Comparisons one after the other *)

(** A comparison [c] that orders, up to ties, the values [D] holds of. *)
Record orders {X : Type} (D : X -> Prop) (c : X -> X -> Z) : Prop := {
  orders_swap a b : (c b a = - c a b)%Z;
  orders_trans x y z : D x -> D y -> D z -> (c x y <= 0)%Z -> (c y z <= 0)%Z -> (c x z <= 0)%Z
}.

Definition then_compare {X : Type} (c1 c2 : X -> X -> Z) (a b : X) : Z :=
  if negb (c1 a b =? 0)%Z then signum (c1 a b) else c2 a b.

Lemma signum_sgn a : signum a = Z.sgn a.
Proof. unfold signum. destruct (Z.ltb_spec a 0); [lia|]. destruct (Z.gtb_spec a 0); lia. Qed.

(** Between values [c1] ties, [c2] decides. *)
Lemma orders_then {X : Type} (D : X -> Prop) (c1 c2 : X -> X -> Z) :
  orders D c1 -> orders D c2 -> orders D (then_compare c1 c2).
Proof.
  intros [S1 T1] [S2 T2]. unfold then_compare. split.
  - intros a b. rewrite (S1 a b), (S2 a b), !signum_sgn.
    destruct (Z.eqb_spec (- c1 a b) 0), (Z.eqb_spec (c1 a b) 0); simpl; lia.
  - intros x y z Dx Dy Dz. rewrite !signum_sgn.
    pose proof (T1 x y z Dx Dy Dz). pose proof (T1 z x y Dz Dx Dy). pose proof (T1 y z x Dy Dz Dx).
    pose proof (T2 x y z Dx Dy Dz). pose proof (S1 x y). pose proof (S1 y z). pose proof (S1 x z).
    destruct (Z.eqb_spec (c1 x y) 0), (Z.eqb_spec (c1 y z) 0), (Z.eqb_spec (c1 x z) 0); simpl; lia.
Qed.

Lemma orders_sign {X : Type} (D : X -> Prop) (c : X -> X -> Z) :
  orders D c -> orders D (fun a b => signum (c a b)).
Proof.
  intros [Sw Tr]. split; [intros a b; rewrite (Sw a b), !signum_sgn; lia|].
  intros x y z Dx Dy Dz. rewrite !signum_sgn. pose proof (Tr x y z Dx Dy Dz). lia.
Qed.

Lemma orders_number {X : Type} (D : X -> Prop) (f : X -> Z) : orders D (fun a b => f a - f b)%Z.
Proof. split; intros; lia. Qed.

Lemma orders_text {X : Type} (D : X -> Prop) (f : X -> string) :
  (forall x, D x -> plain (f x) = true) -> orders D (fun a b => verrevcmp (f a) (f b)).
Proof.
  intros Hp. split; [intros; apply verrevcmp_swap|]. intros x y z Dx Dy Dz H1 H2.
  pose proof (lexsign_trans (key (f x)) (key (f y)) (key (f z))) as Ht.
  rewrite <-!verrevcmp_lex in Ht by auto. lia.
Qed.

Definition plain_texts (v : Version) : Prop :=
  plain (version v) = true /\ plain (revision v) = true /\ plain (el_ver v) = true.

(** The two marks: before and after every version. *)
Definition rank (v : Version) : Z :=
  if bool_decide (v = MinVersion) then 0 else if bool_decide (v = MaxVersion) then 2 else 1.

Definition fields_compare : Version -> Version -> Z :=
  then_compare (fun a b => verrevcmp (version a) (version b))
    (then_compare (fun a b => verrevcmp (revision a) (revision b))
      (fun a b => signum (verrevcmp (el_ver a) (el_ver b)))).

Definition ranked_compare : Version -> Version -> Z :=
  then_compare (fun a b => rank a - rank b)%Z
    (then_compare (fun a b => epoch a - epoch b)%Z fields_compare).

Lemma fields_compare_refl a : fields_compare a a = 0%Z.
Proof. unfold fields_compare, then_compare. by rewrite !verrevcmp_refl. Qed.

(** The guards of [Compare] compare the ranks. *)
Lemma ranks_guards (a b : Version) (r : Z) :
  a <> b ->
  (if bool_decide (a = MinVersion) || bool_decide (b = MaxVersion) then -1
   else if bool_decide (b = MinVersion) || bool_decide (a = MaxVersion) then 1 else r)%Z =
  if negb (rank a - rank b =? 0)%Z then signum (rank a - rank b) else r.
Proof.
  intros Hne. unfold rank.
  destruct (decide (a = MinVersion)) as [->|Ha]; [|destruct (decide (a = MaxVersion)) as [->|Ha']];
    (destruct (decide (b = MinVersion)) as [->|Hb]; [|destruct (decide (b = MaxVersion)) as [->|Hb']]);
    rewrite ?(bool_decide_eq_false_2 (a = _)), ?(bool_decide_eq_false_2 (b = _)) by done;
    first [done | reflexivity].
Qed.

Lemma Compare_ranked a b : Compare a b = ranked_compare a b.
Proof.
  unfold Compare, ranked_compare, then_compare at 1. case_bool_decide as Hab.
  - rewrite Hab, Z.sub_diag. simpl. unfold then_compare. by rewrite Z.sub_diag, fields_compare_refl.
  - rewrite (ranks_guards a b _ Hab). destruct (negb _); [done|].
    unfold then_compare at 1. rewrite (signum_sgn (epoch a - epoch b)), Z.gtb_ltb.
    destruct (Z.ltb_spec (epoch b) (epoch a)), (Z.ltb_spec (epoch a) (epoch b)),
      (Z.eqb_spec (epoch a - epoch b) 0); simpl; try lia. done.
Qed.

Lemma ranked_compare_orders : orders plain_texts ranked_compare.
Proof.
  assert (Hv := orders_text plain_texts version ltac:(by intros ? (? & ? & ?))).
  assert (Hr := orders_text plain_texts revision ltac:(by intros ? (? & ? & ?))).
  assert (He := orders_text plain_texts el_ver ltac:(by intros ? (? & ? & ?))).
  unfold ranked_compare, fields_compare.
  repeat first [apply orders_then | apply orders_number | apply orders_sign | assumption].
Qed.

(** C20: comparing versions the other way round gives the opposite result,
    for every two versions; and among versions whose texts hold no
    underscore and no release candidate ([rc] or [pre] before a digit) the
    comparison is transitive, so that it orders them up to ties, between the
    two marks [MinVersion] and [MaxVersion]. *)
Theorem Compare_orders (a b c : Version) :
  (Compare b a = - Compare a b)%Z /\
  (plain_texts a -> plain_texts b -> plain_texts c ->
   (Compare a b <= 0)%Z -> (Compare b c <= 0)%Z -> (Compare a c <= 0)%Z) /\
  (a <> MinVersion -> Compare MinVersion a = (-1)%Z) /\
  (a <> MaxVersion -> Compare a MaxVersion = (-1)%Z).
Proof.
  rewrite !Compare_ranked. pose proof ranked_compare_orders as [Sw Tr]. split_and!.
  - apply Sw.
  - apply Tr.
  - intros Ha. rewrite <-Compare_ranked. unfold Compare.
    by rewrite bool_decide_eq_false_2, (bool_decide_eq_true_2 (MinVersion = MinVersion)).
  - intros Ha. rewrite <-Compare_ranked. unfold Compare.
    by rewrite bool_decide_eq_false_2, (bool_decide_eq_true_2 (MaxVersion = MaxVersion)), orb_true_r.
Qed.

(** The comparison at 1.2 < 1.10 < 1:0.1-2.el7. *)
Lemma Compare_orders_witness :
  let a := plain_version "1.2" in
  let b := plain_version "1.10" in
  let c := {| epoch := 1; version := "0.1"; revision := "2"; el_ver := "el7" |} in
  (Compare a b < 0)%Z /\ (Compare b c < 0)%Z /\ (Compare a c <= 0)%Z /\ Compare a MaxVersion = (-1)%Z.
Proof.
  intros a b c. pose proof (Compare_orders a b c) as (_ & Ht & _ & Hm).
  split_and!; [by vm_compute|by vm_compute| |by apply Hm].
  apply Ht; vm_compute; repeat split; congruence.
Defined.

(** With the additions the comparison has cycles: a release candidate sorts
    before its release, and after another suffix of it; a full stop sorts
    after an underscore, which sorts after a colon, which sorts after a full
    stop. *)
Example release_candidate_cycle :
  let v s := plain_version s in
  Compare (v "1.6") (v "1.6_a") = (-1)%Z /\ Compare (v "1.6_a") (v "1.6_rc1") = (-1)%Z /\
  Compare (v "1.6_rc1") (v "1.6") = (-1)%Z.
Proof. by vm_compute. Qed.

Example underscore_cycle :
  let v s := plain_version s in
  Compare (v "1.1") (v "1:1") = (-1)%Z /\ Compare (v "1:1") (v "1_1") = (-1)%Z /\
  Compare (v "1_1") (v "1.1") = (-1)%Z.
Proof. by vm_compute. Qed.

(** ** Reading what was printed *)

Lemma no_byte_allowed symbols c s :
  IsDigit c || IsLetter c || containsRune symbols c = false ->
  all_allowed symbols s = true -> has_byte c s = false.
Proof.
  intros Hc. induction s as [|d s IH]; [done|]. cbn [all_allowed has_byte].
  intros [Hd Hs]%andb_true_iff. rewrite (IH Hs), orb_false_r. apply bool_decide_eq_false. congruence.
Qed.

Lemma trim_left_id s : (forall c, is_space c = true -> has_byte c s = false) -> trim_left s = s.
Proof.
  destruct s as [|c s]; [done|]. intros Hs. simpl. destruct (is_space c) eqn:Hc; [|done].
  specialize (Hs c Hc). simpl in Hs. by rewrite bool_decide_eq_true_2 in Hs.
Qed.

Lemma TrimSpace_id s : (forall c, is_space c = true -> has_byte c s = false) -> TrimSpace s = s.
Proof.
  intros Hs. unfold TrimSpace. rewrite (trim_left_id s) by done. rewrite trim_left_id.
  - unfold String.rev at 2. apply string_rev_rev_app.
  - intros c Hc. unfold String.rev. by rewrite has_byte_rev_app, Hs.
Qed.

Lemma LastIndexByte_no_byte c s : has_byte c s = false -> LastIndexByte s c = None.
Proof. induction s as [|d s IH]; [done|]. simpl. intros [Hd Hs]%orb_false_iff. by rewrite IH, Hd. Qed.

Lemma LastIndexByte_app c s t :
  has_byte c t = false -> LastIndexByte (s +:+ String c t) c = Some (String.length s).
Proof.
  intros Ht. induction s as [|d s IH].
  - simpl. rewrite LastIndexByte_no_byte by done. by rewrite bool_decide_eq_true_2.
  - rewrite string_app_cons. simpl. by rewrite IH.
Qed.

Lemma string_drop_app_S s c t : string_drop (S (String.length s)) (s +:+ String c t) = t.
Proof. induction s as [|d s IH]; [by destruct t|]. exact IH. Qed.

(** The release cut off by [cut_el] begins with [el] and holds no other. *)
Definition el_release (el : string) : Prop := HasPrefix el "el" = true /\ LastIndex el ".el" = None.

Lemma LastIndex_el p el :
  el_release el -> LastIndex (p +:+ String "."%char el) ".el" = Some (String.length p).
Proof.
  intros [Hp Hn]. induction p as [|c p IH].
  - change ("" +:+ String "."%char el) with (String "."%char el). cbn [LastIndex]. rewrite Hn.
    apply HasPrefix_spec in Hp as [t ->].
    change (String "."%char ("el" +:+ t)) with (".el" +:+ t). by rewrite (HasPrefix_app ".el" t).
  - rewrite string_app_cons. cbn [LastIndex]. by rewrite IH.
Qed.

Lemma cut_el_app p el : el_release el -> cut_el (p +:+ String "."%char el) = (p, el).
Proof.
  intros He. unfold cut_el. rewrite LastIndex_el by done.
  by rewrite string_take_app, string_drop_app_S.
Qed.

Lemma LastIndex_split s i :
  LastIndex s ".el" = Some i ->
  exists el, s = string_take i s +:+ String "."%char el /\ string_drop (S i) s = el /\ el_release el.
Proof.
  revert i. induction s as [|c s IH]; intros i; [done|]. cbn [LastIndex].
  destruct (LastIndex s ".el") as [j|] eqn:Hj.
  - intros [= <-]. destruct (IH j eq_refl) as (el & Hs & Hd & He). exists el.
    split_and!; [|done|done]. cbn [string_take]. rewrite string_app_cons. by rewrite <-Hs.
  - destruct (HasPrefix (String c s) ".el") eqn:Hp; [|done]. intros [= <-].
    apply HasPrefix_spec in Hp as [t Ht]. change (".el" +:+ t) with (String "."%char ("el" +:+ t)) in Ht.
    injection Ht as -> ->. exists ("el" +:+ t). split_and!; [done|by destruct t|].
    split; [apply HasPrefix_app|done].
Qed.

Lemma cut_el_inv s p el :
  cut_el s = (p, el) ->
  (el = "" /\ p = s /\ LastIndex s ".el" = None) \/ el_release el.
Proof.
  unfold cut_el. destruct (LastIndex s ".el") as [i|] eqn:Hi; intros Hc; [|by injection Hc as <- <-; left].
  apply LastIndex_split in Hi as (el' & _ & Hd & He). rewrite Hd in Hc. injection Hc as _ <-. by right.
Qed.

(** What is known of a version that was read, other than the two marks. *)
Definition read_ok (v : Version) : Prop :=
  (0 <= epoch v < 2 ^ 63)%Z /\ verify_version v = inr v /\
  (el_ver v = "" \/ el_release (el_ver v)) /\
  (el_ver v = "" -> LastIndex (revision v) ".el" = None).

(** Its text reads back: the epoch is printed where the version holds a
    colon, and the revision where it holds a hyphen or, without a release,
    a [.el]. *)
Definition unambiguous (v : Version) : Prop :=
  (has_byte ":"%char (version v) = true -> epoch v <> 0%Z) /\
  (revision v = "" ->
     has_byte "-"%char (version v) = false /\
     (el_ver v = "" -> LastIndex (version v) ".el" = None)).

Lemma Atoi_range s n : Atoi s = Some n -> (n < 2 ^ 63)%Z.
Proof.
  assert (Hpos : forall t, (m ← ParseUint10 t 64; if (m <? 2 ^ 63)%Z then Some m else None) = Some n -> (n < 2 ^ 63)%Z).
  { intros t. destruct (ParseUint10 t 64) as [m|]; [|done]. cbn [mbind option_bind].
    destruct (Z.ltb_spec m (2 ^ 63)); [|done]. by intros [= <-]. }
  assert (Hgo : forall t acc m, (0 <= acc)%Z -> ParseUint_go 64 acc t = Some m -> (0 <= m)%Z).
  { induction t as [|c t IH]; intros acc m Ha; cbn [ParseUint_go]; [by intros [= <-]|].
    unfold digit_of. destruct (_ && _) eqn:Hc; [|done]. cbn [mbind option_bind].
    destruct (_ <? _)%Z; [|done]. apply IH. apply andb_true_iff in Hc as [H1%N.leb_le _]. lia. }
  assert (Hneg : forall t, (m ← ParseUint10 t 64; if (m <=? 2 ^ 63)%Z then Some (- m)%Z else None) = Some n -> (n < 2 ^ 63)%Z).
  { intros t. destruct (ParseUint10 t 64) as [m|] eqn:Hm; [|done]. cbn [mbind option_bind].
    assert (0 <= m)%Z by (destruct t; [done|]; by apply (Hgo _ 0%Z) in Hm).
    destruct (m <=? 2 ^ 63)%Z; [|done]. intros [= <-]. lia. }
  unfold Atoi. repeat case_match; first [apply Hpos | apply Hneg].
Qed.

Lemma split_version_ok e start str v :
  split_version e start str = Done v ->
  epoch v = e /\ (el_ver v = "" \/ el_release (el_ver v)) /\
  (el_ver v = "" -> LastIndex (revision v) ".el" = None).
Proof.
  unfold split_version. destruct (LastIndexByte str "-"%char) as [j|].
  - destruct (_ <? _)%nat; [done|]. destruct (cut_el _) as [rev el] eqn:Hc. intros [= <-]. simpl.
    apply cut_el_inv in Hc as [(-> & -> & Hn)|He]; split_and!; auto. intros ->. by destruct He.
  - destruct (cut_el _) as [ver el] eqn:Hc. intros [= <-]. simpl.
    apply cut_el_inv in Hc as [(-> & _ & _)|He]; split_and!; auto.
Qed.

Lemma verify_version_inv v w : verify_version v = inr w -> w = v.
Proof. unfold verify_version. repeat case_match; try done. by intros [= <-]. Qed.

Lemma NewVersion_read_ok str v :
  NewVersion str = Done (inr v) -> v = MaxVersion \/ v = MinVersion \/ read_ok v.
Proof.
  assert (Hsplit : forall e start s, (0 <= e < 2 ^ 63)%Z ->
    (w ← split_version e start s; Done (verify_version w)) = Done (inr v) -> read_ok v).
  { intros e start s He. destruct (split_version e start s) as [w|] eqn:Hs; [|done].
    intros Hv. assert (verify_version w = inr v) as Hv' by (by injection Hv).
    pose proof (verify_version_inv _ _ Hv') as ->. apply split_version_ok in Hs as (<- & ? & ?).
    done. }
  unfold NewVersion. case_bool_decide; [done|].
  case_bool_decide; [intros [= <-]; by left|]. case_bool_decide; [intros [= <-]; by right; left|].
  intros Hr. right. right. destruct (IndexByte _ _) as [i|]; [|by apply (Hsplit 0%Z) in Hr].
  destruct (Atoi _) as [n|] eqn:Hn; [|done]. destruct (Z.ltb_spec n 0); [done|].
  apply Hsplit in Hr; [done|]. apply Atoi_range in Hn. lia.
Qed.

Lemma verify_version_texts v :
  verify_version v = inr v ->
  version v <> "" /\ all_allowed versionAllowedSymbols (version v) = true /\
  all_allowed revisionAllowedSymbols (revision v) = true /\
  all_allowed revisionAllowedSymbols (el_ver v) = true.
Proof.
  unfold verify_version. case_bool_decide; [done|].
  destruct (all_allowed _ (version v)); [|done]. destruct (all_allowed _ (revision v)); [|done].
  by destruct (all_allowed _ (el_ver v)).
Qed.

Definition el_part (v : Version) : string :=
  if negb (bool_decide (el_ver v = "")) then "." +:+ el_ver v else "".

Lemma cut_el_part p v :
  (el_ver v = "" \/ el_release (el_ver v)) -> (el_ver v = "" -> LastIndex p ".el" = None) ->
  cut_el (p +:+ el_part v) = (p, el_ver v).
Proof.
  intros He Hn. unfold el_part. case_bool_decide as Hel; cbn [negb].
  - rewrite string_app_nil_r, Hel. unfold cut_el. by rewrite Hn.
  - destruct He as [?|He]; [done|]. by apply cut_el_app.
Qed.

Lemma el_part_no_byte c v :
  has_byte c (el_ver v) = false -> c <> "."%char -> has_byte c (el_part v) = false.
Proof.
  intros Hel Hc. unfold el_part. case_bool_decide; [done|]. cbn [negb].
  change ("." +:+ el_ver v) with (String "."%char (el_ver v)). simpl.
  by rewrite Hel, bool_decide_eq_false_2.
Qed.

(** The text after the epoch splits into the fields. *)
Lemma split_version_print E v :
  has_byte "-"%char E = false -> read_ok v -> unambiguous v ->
  split_version (epoch v) (String.length E)
    (E +:+ version v +:+ (if negb (bool_decide (revision v = "")) then "-" +:+ revision v else "") +:+ el_part v)
  = Done v.
Proof.
  intros HE (_ & Hver & Hel & Hrev) [_ Hun].
  apply verify_version_texts in Hver as (_ & _ & Ar & Ae).
  assert (Hd : forall s, all_allowed revisionAllowedSymbols s = true -> has_byte "-"%char s = false)
    by (intros s; by apply no_byte_allowed).
  assert (Hde : has_byte "-"%char (el_part v) = false) by (apply el_part_no_byte; auto).
  unfold split_version. case_bool_decide as Hr; cbn [negb].
  - destruct (Hun Hr) as [Hv Hvel]. rewrite LastIndexByte_no_byte.
    + rewrite string_drop_app. change ("" +:+ el_part v) with (el_part v).
      rewrite cut_el_part by done. destruct v. simpl in *. by subst.
    + rewrite !has_byte_app, HE, Hv, Hde. done.
  - change ("-" +:+ revision v) with (String "-"%char (revision v)).
    rewrite string_app_cons, <-string_app_assoc.
    rewrite LastIndexByte_app by (rewrite has_byte_app, Hde, orb_false_r; auto).
    rewrite string_app_length. destruct (Nat.ltb_spec (String.length E + String.length (version v)) (String.length E)); [lia|].
    rewrite <-string_app_length, string_drop_app_S, string_take_app, string_drop_app.
    rewrite cut_el_part by done. by destruct v.
Qed.

(** No byte but those of the fields, of the separators and of the epoch. *)
Lemma Version_String_no_byte c v :
  read_ok v -> IsDigit c || IsLetter c || containsRune versionAllowedSymbols c = false ->
  has_byte c (Version_String v) = false.
Proof.
  intros (Hep & Hver & _ & _) Hc. apply verify_version_texts in Hver as (_ & Av & Ar & Ae).
  assert (Hc' : IsDigit c || IsLetter c || containsRune revisionAllowedSymbols c = false).
  { revert Hc. clear. bytes c. }
  assert (Hs : c <> ":"%char /\ c <> "-"%char /\ c <> "."%char) by (split_and!; intros ->; done).
  assert (Hdig : digit_of c = None).
  { unfold digit_of. unfold IsDigit in Hc. by destruct (_ && _). }
  unfold Version_String. fold (el_part v). rewrite !has_byte_app.
  rewrite (no_byte_allowed _ _ _ Hc Av), el_part_no_byte by first [by eapply no_byte_allowed | naive_solver].
  destruct Hs as (H1 & H2 & _). rewrite orb_false_r. apply orb_false_iff; split.
  - destruct (negb _); [|done]. rewrite has_byte_app, fmt_int_no_byte by (done || lia).
    simpl. by rewrite bool_decide_eq_false_2.
  - destruct (negb _); [|done]. change ("-" +:+ revision v) with (String "-"%char (revision v)).
    simpl. by rewrite bool_decide_eq_false_2, (no_byte_allowed _ _ _ Hc' Ar).
Qed.

Lemma NewVersion_print v : read_ok v -> unambiguous v -> NewVersion (Version_String v) = Done (inr v).
Proof.
  intros Hok Hun. pose proof (fun c => Version_String_no_byte c v Hok) as Hno.
  pose proof Hok as (Hep & Hver & _ & _). pose proof (verify_version_texts _ Hver) as (Hne & _ & Ar & Ae).
  assert (Htrim : TrimSpace (Version_String v) = Version_String v).
  { apply TrimSpace_id. intros c Hc. apply Hno. revert Hc. clear. bytes c. }
  assert (Hmark : forall s, has_byte "#"%char s = true -> Version_String v <> s).
  { intros s Hs <-. rewrite Hno in Hs; done. }
  unfold NewVersion. rewrite Htrim.
  rewrite !bool_decide_eq_false_2; [|by apply Hmark|by apply Hmark|].
  2:{ intros He. apply Hne. unfold Version_String in He.
      destruct (negb _), (version v); try done; by destruct (fmt_int (epoch v)). }
  unfold Version_String. fold (el_part v). destruct (Z.eqb_spec (epoch v) 0) as [H0|H0]; cbn [negb].
  - rewrite IndexByte_no_byte.
    + pose proof (split_version_print "" v eq_refl Hok Hun) as Hs. rewrite H0 in Hs.
      change (String.length "") with O in Hs. rewrite Hs. cbn. by rewrite Hver.
    + destruct Hun as [Hcol _]. rewrite !has_byte_app.
      destruct (has_byte ":"%char (version v)); [by specialize (Hcol eq_refl)|].
      assert (Hd : forall s, all_allowed revisionAllowedSymbols s = true -> has_byte ":"%char s = false)
        by (intros s; by apply no_byte_allowed).
      rewrite el_part_no_byte, orb_false_r by (done || auto). simpl. destruct (negb _); [|done].
      change ("-" +:+ revision v) with (String "-"%char (revision v)). simpl. auto.
  - rewrite string_app_assoc. change (":" +:+ ?x) with (String ":"%char x).
    rewrite IndexByte_app by (by apply fmt_int_no_byte; [lia|]).
    rewrite string_take_app, Atoi_fmt_int by lia. destruct (Z.ltb_spec (epoch v) 0); [lia|].
    pose proof (split_version_print (fmt_int (epoch v) +:+ ":") v) as Hs.
    rewrite has_byte_app, fmt_int_no_byte in Hs by (done || lia). specialize (Hs eq_refl Hok Hun).
    rewrite string_app_length, Nat.add_1_r, string_app_assoc in Hs.
    change (":" +:+ ?x) with (String ":"%char x) in Hs. rewrite Hs. cbn. by rewrite Hver.
Qed.

(** C32: a version that was read prints as a text that reads back as the same
    version, provided its epoch is printed where its version holds a colon
    and its revision where its version holds a hyphen or, without a release,
    a [.el]. *)
Theorem NewVersion_String (str : string) (v : Version) :
  NewVersion str = Done (inr v) -> unambiguous v ->
  NewVersion (Version_String v) = Done (inr v).
Proof.
  intros [->|[->|Hok]]%NewVersion_read_ok Hun; [reflexivity|reflexivity|]. by apply NewVersion_print.
Qed.

(** A package of CentOS. *)
Lemma NewVersion_String_witness :
  let v := {| epoch := 2; version := "svn28991.0"; revision := "45"; el_ver := "el7" |} in
  NewVersion " 2:svn28991.0-45.el7 " = Done (inr v) /\
  Version_String v = "2:svn28991.0-45.el7" /\ NewVersion (Version_String v) = Done (inr v).
Proof.
  intros v. split_and!; [reflexivity|reflexivity|].
  apply (NewVersion_String " 2:svn28991.0-45.el7 "); [reflexivity|]. by split.
Defined.

(** Without the proviso it may not: a version with a colon and no epoch, and
    one that ends with a hyphen. *)
Example ambiguous_versions :
  (exists v, NewVersion "0:1:2" = Done (inr v) /\ NewVersion (Version_String v) <> Done (inr v)) /\
  (exists v, NewVersion "1-2-" = Done (inr v) /\ NewVersion (Version_String v) <> Done (inr v)).
Proof. split; eexists; (split; [reflexivity|]); vm_compute; congruence. Qed.

(** An epoch of minus zero is accepted, and its hyphen taken for the
    revision's: the slice of the version ends before it starts. *)
Example minus_zero_panics : NewVersion "-0:1" = Panicked "slice bounds out of range".
Proof. reflexivity. Qed.
