(* ===== verification/NvProcess.v ===== *)
(** * Process profiles

    agent/policy/process.go decides what becomes of a process a container
    starts: the enforcer's profile of the container's group is a list of
    rules, and the first that matches the process gives the action.
    agent/group_profile.go builds that list from the profiles of every group
    the container belongs to, and agent/system.go turns the decision into what
    is done.

    An entry is a pointer the caches share; the one field the code writes
    through it after a profile is built is its hash, which
    [ProcessPolicyLookup] returns.  What the code reads from elsewhere (the
    hash of a file, the parent of a process group, a profile fetched from the
    cluster) is an argument. *)

From Stdlib Require Import ZArith Lia Ascii.
From S2P Require Import Prelude GoLib GoText NvCriteria.

Record CLUSProcessProfileEntry := {
  pe_Name : string; pe_Path : string; pe_Hash : string; pe_Action : string;
  pe_CfgType : TCfgType; pe_Uuid : string; pe_DerivedGroup : string;
  pe_AllowFileUpdate : bool; pe_ProbeCmds : list string }.
#[export] Instance CLUSProcessProfileEntry_eq_dec : EqDecision CLUSProcessProfileEntry.
Proof. solve_decision. Defined.

Record CLUSProcessProfile := {
  pp_Group : string; pp_AlertDisable : bool; pp_HashEnable : bool; pp_Mode : string;
  pp_Baseline : string; pp_Process : list CLUSProcessProfileEntry }.
#[export] Instance CLUSProcessProfile_eq_dec : EqDecision CLUSProcessProfile.
Proof. solve_decision. Defined.

Definition PolicyModeLearn := "Discover".
Definition PolicyModeEvaluate := "Monitor".
Definition PolicyModeEnforce := "Protect".
Definition PolicyActionLearn := "learn".
Definition PolicyActionAllow := "allow".
Definition PolicyActionDeny := "deny".
Definition PolicyActionViolate := "violate".
Definition PolicyActionCheckApp := "check_app".
Definition ProfileBasic := "basic".
Definition ProfileZeroDrift := "zero-drift".
Definition CLUSReservedUuidNotAllowed := "00000000-0000-0000-0000-000000000000".
Definition GroupNVProtect := "NV.Protect".

(** [strings.Index(s, sub)]. *)
Fixpoint Index (s sub : string) : option nat :=
  if HasPrefix s sub then Some O
  else match s with EmptyString => None | String _ s' => S <$> Index s' sub end.

(** [filepath.Base(path)]. *)
Fixpoint trim_slashes (s : string) : string :=
  match s with String c s' => if bool_decide (c = "/"%char) then trim_slashes s' else s | EmptyString => "" end.

Definition Base (path : string) : string :=
  if bool_decide (path = "") then "."
  else
    let path := String.rev (trim_slashes (String.rev path)) in
    let base := match LastIndexByte path "/"%char with Some i => string_drop (S i) path | None => path end in
    if bool_decide (base = "") then "/" else base.

(** [s[:len(s)-2]]. *)
Definition drop_last2 (s : string) : string := string_take (String.length s - 2) s.

(** ** Matching a rule *)

Definition any_path (path : string) : bool :=
  bool_decide (path = "*") || bool_decide (path = "") || bool_decide (path = "/*").

Definition MatchProfileProcess (entry proc : CLUSProcessProfileEntry) : bool :=
  if bool_decide (pe_Name entry = "*") && (bool_decide (pe_Path entry = "*") || bool_decide (pe_Path entry = "/*"))
  then true
  else match LastIndexByte (pe_Path proc) "/"%char with
  | None => false
  | Some i =>
      let dir := string_take i (pe_Path proc) in
      let bin := string_drop (S i) (pe_Path proc) in
      let recursive := HasSuffix (pe_Path entry) "/*" in
      let under := HasPrefix dir (drop_last2 (pe_Path entry)) in
      if bool_decide (bin = pe_Name entry) && any_path (pe_Path entry) then true
      else if bool_decide (bin = pe_Name entry) && recursive && negb (bool_decide (pe_Name entry = "*"))
      then under
      else if bool_decide (pe_Name entry = "*") then
        if recursive then under
        else if negb (bool_decide (pe_ProbeCmds entry = [])) then bool_decide (bin = pe_Path entry)
        else bool_decide (pe_Path proc = pe_Path entry)
      else if recursive then under && bool_decide (pe_Name entry = pe_Name proc)
      else match Index (pe_Path entry) "/*/" with
      | Some index =>
          HasPrefix dir (string_take index (pe_Path entry)) && bool_decide (pe_Name entry = pe_Name proc) &&
          bool_decide (bin = Base (pe_Path entry))
      | None =>
          if negb (any_path (pe_Path entry)) && negb (bool_decide (pe_Path proc = pe_Path entry)) then false
          else bool_decide (pe_Name proc = pe_Name entry)
      end
  end.

(** ** The rules of all the groups of a container *)

(** Go's order of strings, of names and then of paths. *)
Definition entry_less (a b : CLUSProcessProfileEntry) : bool :=
  if bool_decide (pe_Name a = pe_Name b) then String.ltb (pe_Path a) (pe_Path b)
  else String.ltb (pe_Name a) (pe_Name b).

Definition entry_le (a b : CLUSProcessProfileEntry) : Prop := entry_less b a = false.
#[export] Instance entry_le_dec a b : Decision (entry_le a b).
Proof. unfold entry_le. apply _. Defined.

(** No two entries of a map tie, since their name and path give their key. *)
Definition mapProcToSortedSlices (m : gmap string CLUSProcessProfileEntry) : list CLUSProcessProfileEntry :=
  merge_sort entry_le (map_to_list m).*2.

Definition entry_key (e : CLUSProcessProfileEntry) : string := pe_Name e +:+ ":" +:+ pe_Path e.

(** Which of the seven maps an entry goes to; a rule that denies everything
    goes to none. *)
Definition rule_class (entry : CLUSProcessProfileEntry) : option nat :=
  if bool_decide (pe_Action entry = PolicyActionDeny) then
    if bool_decide (pe_Name entry = "*") && bool_decide (pe_Path entry = "*") then None
    else if bool_decide (pe_Name entry = "*") then Some 3%nat
    else if HasSuffix (pe_Path entry) "/*" then Some 2%nat
    else Some 1%nat
  else
    if bool_decide (pe_Name entry = "*") && bool_decide (pe_Path entry = "*") then Some 0%nat
    else if bool_decide (pe_Name entry = "*") then Some 6%nat
    else if HasSuffix (pe_Path entry) "/*" then Some 5%nat
    else Some 4%nat.

Definition class_step (m : list (gmap string CLUSProcessProfileEntry)) (entry : CLUSProcessProfileEntry)
  : list (gmap string CLUSProcessProfileEntry) :=
  match rule_class entry with
  | Some i => alter (fun mm => <[entry_key entry := entry]> mm) i m
  | None => m
  end.

Definition mergeProcessProfiles (cur : list CLUSProcessProfileEntry) : list CLUSProcessProfileEntry :=
  concat (mapProcToSortedSlices <$> foldl class_step (replicate 7 ∅) cur).

(** A group of the cache: its members' identifiers and its profile. *)
Record groupProfileData := { gd_members : gset string; gd_proc : CLUSProcessProfile }.

Definition federalGrpPrefix := "fed.".

(** Federal rules, rules from custom resources, and the others. *)
Record rule_tiers := {
  fed_rules : list CLUSProcessProfileEntry; crd_rules : list CLUSProcessProfileEntry;
  own_rules : list CLUSProcessProfileEntry }.

Definition is_crd (p : CLUSProcessProfileEntry) : bool := bool_decide (pe_CfgType p = GroundCfg).

Definition add_rules (t : rule_tiers) (ps : list CLUSProcessProfileEntry) : rule_tiers :=
  foldl (fun t p =>
    if is_crd p
    then {| fed_rules := fed_rules t; crd_rules := crd_rules t ++ [p]; own_rules := own_rules t |}
    else {| fed_rules := fed_rules t; crd_rules := crd_rules t; own_rules := own_rules t ++ [p] |}) t ps.

Definition tier_step (id : string) (t : rule_tiers) (g : string * groupProfileData) : rule_tiers :=
  if bool_decide (id ∈ gd_members g.2) then
    if HasPrefix g.1 federalGrpPrefix
    then {| fed_rules := fed_rules t ++ pp_Process (gd_proc g.2); crd_rules := crd_rules t; own_rules := own_rules t |}
    else add_rules t (pp_Process (gd_proc g.2))
  else t.

(** [load] is [loadGroupProfile]: the profile read from the cluster into the
    one of the cache, if it is there. *)
Definition getProcessProfile (load : string -> CLUSProcessProfile -> option CLUSProcessProfile) (name : string)
    (cache : gmap string groupProfileData) : option CLUSProcessProfile * gmap string groupProfileData :=
  match cache !! name with
  | None => (None, cache)
  | Some g =>
      if bool_decide (pp_Group (gd_proc g) = "") then
        match load name (gd_proc g) with
        | None => (None, cache)
        | Some p => (Some p, <[name := {| gd_members := gd_members g; gd_proc := p |}]> cache)
        end
      else (Some (gd_proc g), cache)
  end.

Definition merge_tier (l : list CLUSProcessProfileEntry) : list CLUSProcessProfileEntry :=
  if (0 <? length l)%nat then mergeProcessProfiles l else [].

(** The profile of a container, and the paths handed to the process probe;
    [order] is the order of the range over the cache. *)
Definition calculateProcGroupProfile (load : string -> CLUSProcessProfile -> option CLUSProcessProfile)
    (order : list (string * groupProfileData)) (id svc : string) (cache : gmap string groupProfileData)
  : option (CLUSProcessProfile * list string) * gmap string groupProfileData :=
  let t := foldl (tier_step id) {| fed_rules := []; crd_rules := []; own_rules := [] |} order in
  match getProcessProfile load svc cache with
  | (None, cache) => (None, cache)
  | (Some svc_proc, cache) =>
      let t := add_rules t (pp_Process svc_proc) in
      let process := merge_tier (fed_rules t) ++ merge_tier (crd_rules t) ++ merge_tier (own_rules t) in
      let proc := {| pp_Group := pp_Group svc_proc; pp_AlertDisable := pp_AlertDisable svc_proc;
                     pp_HashEnable := pp_HashEnable svc_proc; pp_Mode := pp_Mode svc_proc;
                     pp_Baseline := ""; pp_Process := process |} in
      let probed := if bool_decide (id = "") then []
                    else omap (fun p => if bool_decide (pe_Action p = PolicyActionAllow) then Some (pe_Path p) else None) process in
      (Some (proc, probed), cache)
  end.

(** ** The policy engine of the enforcer *)

(** What the decision reads: the profiles of the groups as they arrived, the
    groups with probe commands, and the calculated profile of each container
    ([wlProfileMap]; the host is the empty identifier). *)
Record workloadProfile := { wp_proc : option CLUSProcessProfile; wp_procCalculated : bool }.

Record containerData := { c_service : string; c_capBlock : bool }.

Record procGrpRef := { ref_name : string; ref_path : string; ref_service : string; ref_id : string; ref_ppid : Z }.

Record proc_state := {
  ProcessPolicy : gmap string CLUSProcessProfile;
  k8sGrpProbe : gset string;
  wlProfileMap : gmap string workloadProfile;
  permitProcessGrp : gmap Z procGrpRef;
  activeContainers : gmap string containerData;
  neuvectorContainers : gmap string containerData }.

Definition set_policies (m : gmap string CLUSProcessProfile) (k : gset string) (s : proc_state) : proc_state := {|
  ProcessPolicy := m; k8sGrpProbe := k; wlProfileMap := wlProfileMap s; permitProcessGrp := permitProcessGrp s;
  activeContainers := activeContainers s; neuvectorContainers := neuvectorContainers s |}.

Definition set_wlProfileMap (m : gmap string workloadProfile) (s : proc_state) : proc_state := {|
  ProcessPolicy := ProcessPolicy s; k8sGrpProbe := k8sGrpProbe s; wlProfileMap := m;
  permitProcessGrp := permitProcessGrp s; activeContainers := activeContainers s;
  neuvectorContainers := neuvectorContainers s |}.

Definition set_permitProcessGrp (m : gmap Z procGrpRef) (s : proc_state) : proc_state := {|
  ProcessPolicy := ProcessPolicy s; k8sGrpProbe := k8sGrpProbe s; wlProfileMap := wlProfileMap s;
  permitProcessGrp := m; activeContainers := activeContainers s; neuvectorContainers := neuvectorContainers s |}.

Definition has_probe (p : CLUSProcessProfileEntry) : bool := negb (bool_decide (pe_ProbeCmds p = [])).

Definition UpdateProcessPolicy (name : string) (profile : CLUSProcessProfile) (s : proc_state)
  : (bool * option CLUSProcessProfile) * proc_state :=
  let exist := ProcessPolicy s !! name in
  if bool_decide (exist = Some profile) then ((false, exist), s)
  else
    let probes := if existsb has_probe (pp_Process profile) then {[name]} ∪ k8sGrpProbe s else k8sGrpProbe s in
    ((true, exist), set_policies (<[name := profile]> (ProcessPolicy s)) probes s).

Definition DeleteProcessPolicy (name : string) (s : proc_state) : proc_state :=
  set_policies (delete name (ProcessPolicy s)) (k8sGrpProbe s ∖ {[name]}) s.

Definition IsK8sGroupWithProbe (name : string) (s : proc_state) : bool := bool_decide (name ∈ k8sGrpProbe s).

Definition isNeuvectorContainerById (id : string) (s : proc_state) : bool :=
  bool_decide (is_Some (neuvectorContainers s !! id)).

(** [getGroupRule]: a profile or nil, and whether it is to be used. *)
Definition ObtainGroupProcessPolicy (id : string) (s : proc_state) : option CLUSProcessProfile * bool :=
  let id := if bool_decide (id = "nodes") then "" else id in
  if isNeuvectorContainerById id s then (None, true)
  else match wlProfileMap s !! id with
  | Some wl => match wp_proc wl with Some p => (Some p, wp_procCalculated wl) | None => (None, false) end
  | None => (None, false)
  end.

Definition follow_profile (grp profile : CLUSProcessProfile) : CLUSProcessProfile := {|
  pp_Group := pp_Group grp; pp_AlertDisable := pp_AlertDisable grp; pp_HashEnable := pp_HashEnable grp;
  pp_Mode := if bool_decide (pp_Mode grp = "") then pp_Mode profile else pp_Mode grp;
  pp_Baseline := pp_Baseline profile; pp_Process := pp_Process grp |}.

(** The container's profile is updated in place. *)
Definition ObtainProcessPolicy (name id : string) (s : proc_state) : option CLUSProcessProfile * proc_state :=
  match ProcessPolicy s !! name with
  | None => (None, s)
  | Some profile =>
      match ObtainGroupProcessPolicy id s with
      | (_, false) => (None, s)
      | (None, true) => (Some profile, s)
      | (Some grp, true) =>
          let grp := follow_profile grp profile in
          let wid := if bool_decide (id = "nodes") then "" else id in
          (Some grp, set_wlProfileMap (<[wid := {| wp_proc := Some grp; wp_procCalculated := true |}]> (wlProfileMap s)) s)
      end
  end.

Definition defaultProcessAction (mode : string) : string :=
  if bool_decide (mode = PolicyModeLearn) then PolicyActionLearn
  else if bool_decide (mode = PolicyModeEvaluate) then PolicyActionViolate
  else if bool_decide (mode = PolicyModeEnforce) then PolicyActionDeny
  else PolicyActionViolate.

(** The first entry that matches, with its index; in the learning mode the
    probe commands are passed over. *)
Fixpoint find_entry (mode : string) (proc : CLUSProcessProfileEntry) (i : nat) (ps : list CLUSProcessProfileEntry)
  : option (nat * CLUSProcessProfileEntry) :=
  match ps with
  | [] => None
  | p :: ps' =>
      if bool_decide (mode = PolicyModeLearn) && has_probe p then find_entry mode proc (S i) ps'
      else if MatchProfileProcess p proc then Some (i, p)
      else find_entry mode proc (S i) ps'
  end.

Definition set_action (act uuid : string) (p : CLUSProcessProfileEntry) : CLUSProcessProfileEntry := {|
  pe_Name := pe_Name p; pe_Path := pe_Path p; pe_Hash := pe_Hash p; pe_Action := act;
  pe_CfgType := pe_CfgType p; pe_Uuid := uuid; pe_DerivedGroup := pe_DerivedGroup p;
  pe_AllowFileUpdate := pe_AllowFileUpdate p; pe_ProbeCmds := pe_ProbeCmds p |}.

Definition take_entry (p proc : CLUSProcessProfileEntry) : CLUSProcessProfileEntry := {|
  pe_Name := pe_Name proc; pe_Path := pe_Path proc; pe_Hash := pe_Hash proc; pe_Action := pe_Action p;
  pe_CfgType := pe_CfgType p; pe_Uuid := pe_Uuid p; pe_DerivedGroup := pe_DerivedGroup proc;
  pe_AllowFileUpdate := pe_AllowFileUpdate p; pe_ProbeCmds := pe_ProbeCmds p |}.

Record lookup_result := {
  lr_mode : string; lr_baseline : string; lr_group : string; lr_proc : CLUSProcessProfileEntry;
  lr_hash : option (nat * string) (* the hash written into the entry of this index *) }.

(** The action of an allowed process where hashes are kept: the recorded one
    is written, or must agree. *)
Definition hash_action (enable : bool) (hash : option string) (recorded : string) : string * option string :=
  match hash with
  | Some h =>
      if enable then
        if bool_decide (recorded = "") then (PolicyActionLearn, Some h)
        else if bool_decide (recorded = h) then (PolicyActionAllow, None)
        else (PolicyActionViolate, None)
      else (PolicyActionAllow, None)
  | None => (PolicyActionAllow, None)
  end.

(** [hash] is the file's, if it can be read, and [prf] the group's profile
    when it is read the second time. *)
Definition ProcessPolicyLookup (hash : option string) (prf : option CLUSProcessProfile)
    (name id : string) (proc : CLUSProcessProfileEntry) (s : proc_state)
  : outcome (option lookup_result * proc_state) :=
  match ObtainProcessPolicy name id s with
  | (None, s) => Done (None, s)
  | (Some profile, s) =>
      let result group proc h :=
        Done (Some {| lr_mode := pp_Mode profile; lr_baseline := pp_Baseline profile; lr_group := group;
                      lr_proc := proc; lr_hash := h |}, s) in
      match find_entry (pp_Mode profile) proc 0 (pp_Process profile) with
      | Some (i, p) =>
          let proc := take_entry p proc in
          let group := if bool_decide (pe_DerivedGroup p = "") then name else pe_DerivedGroup p in
          if bool_decide (pe_Action p = PolicyActionAllow) then
            let '(act, h) := hash_action (pp_HashEnable profile) hash (pe_Hash p) in
            let proc := set_action act (pe_Uuid p) proc in
            let h := pair i <$> h in
            if bool_decide (pp_Mode profile = PolicyModeLearn) && negb (bool_decide (group = name)) then
              match prf with
              | None => Panicked "nil pointer dereference"
              | Some prf =>
                  if existsb (fun p => MatchProfileProcess p proc) (pp_Process prf) then result group proc h
                  else result group (set_action PolicyActionLearn (pe_Uuid proc) proc) h
              end
            else result group proc h
          else if negb (bool_decide (pp_Mode profile = PolicyModeEnforce))
          then result group (set_action PolicyActionViolate (pe_Uuid proc) proc) None
          else result group proc None
      | None =>
          if bool_decide (pp_Baseline profile = ProfileBasic) || negb (IsK8sGroupWithProbe name s)
          then result name (set_action (defaultProcessAction (pp_Mode profile)) CLUSReservedUuidNotAllowed proc) None
          else result name proc None
      end
  end.

Definition IsAllowedSuspiciousApp (service id name : string) (s : proc_state) : bool * proc_state :=
  match ObtainProcessPolicy service id s with
  | (Some profile, s) =>
      (existsb (fun entry =>
         (bool_decide (pe_Name entry = "*") && (bool_decide (pe_Path entry = "*") || bool_decide (pe_Path entry = "/*"))) ||
         bool_decide (name = pe_Name entry)) (pp_Process profile), s)
  | (None, s) => (false, s)
  end.

(** A rule whose name ends in [/*] allows the processes of a parent of that
    name. *)
Definition parent_rule (name pname ppath : string) (entry : CLUSProcessProfileEntry) : bool :=
  bool_decide (pe_Action entry = PolicyActionAllow) && HasSuffix (pe_Name entry) "/*" &&
  (let n := drop_last2 (pe_Name entry) in bool_decide (pname = n) || bool_decide (name = n)) &&
  (any_path (pe_Path entry) ||
   (HasSuffix (pe_Path entry) "/*" && HasPrefix ppath (drop_last2 (pe_Path entry))) ||
   bool_decide (pe_Path entry = ppath)).

(** [ppid] is the parent of the process group. *)
Definition IsAllowedByParentApp (ppid : Z) (service id name pname ppath : string) (pgid : Z) (s : proc_state)
  : bool * proc_state :=
  match ObtainProcessPolicy service id s with
  | (None, s) => (false, s)
  | (Some profile, s) =>
      let fresh (s : proc_state) :=
        match List.find (parent_rule name pname ppath) (pp_Process profile) with
        | Some entry =>
            (true, set_permitProcessGrp
               (<[pgid := {| ref_name := drop_last2 (pe_Name entry); ref_path := pe_Path entry;
                             ref_service := service; ref_id := id; ref_ppid := ppid |}]> (permitProcessGrp s)) s)
        | None => (false, s)
        end in
      match permitProcessGrp s !! pgid with
      | Some procGrp =>
          if negb (bool_decide (ref_id procGrp = id)) || negb (ppid =? ref_ppid procGrp)%Z
          then fresh (set_permitProcessGrp (delete pgid (permitProcessGrp s)) s)
          else (true, s)
      | None => fresh s
      end
  end.

(** ** What the enforcer does *)

(** [utils.NormalizeForURL]: what is not printable ASCII is removed, and each
    reserved character replaced by a colon. *)
Fixpoint NormalizeForURL (name : string) : string :=
  match name with
  | EmptyString => ""
  | String c s =>
      let n := N_of_ascii c in
      if ((n <? 0x20) || (0x7e <? n))%N then NormalizeForURL s
      else if existsb (fun d => bool_decide (c = d)) ["/"; "?"; "%"; "&"; " "]%char
      then String ":"%char (NormalizeForURL s)
      else String c (NormalizeForURL s)
  end.

Definition makeLearnedGroupName (svc : string) : string := "nv." +:+ svc.

(** The service of a container, whether its processes can be blocked, and
    whether it is one of the product's own. *)
Definition getContainerService (id : string) (s : proc_state) : string * bool * bool :=
  if bool_decide (id = "") then ("nodes", true, false)
  else match activeContainers s !! id with
  | Some c => (c_service c, c_capBlock c, false)
  | None => match neuvectorContainers s !! id with
            | Some c => (c_service c, c_capBlock c, true)
            | None => ("", false, false)
            end
  end.

Record process_event := {
  pv_id : string; pv_riskType : string; pv_pname : string; pv_ppath : string; pv_pgid : Z; pv_shellCmd : Z;
  pv_hash : option string; pv_ppid : Z }.

Record process_verdict := {
  pv_mode : string; pv_setting : string; pv_group : string; pv_svcGroup : string;
  pv_allowSuspicious : bool; pv_proc : CLUSProcessProfileEntry; pv_written : option (nat * string) }.

Definition with_action (act : string) (p : CLUSProcessProfileEntry) : CLUSProcessProfileEntry :=
  set_action act (pe_Uuid p) p.

Definition processPolicyLookup (prf : option CLUSProcessProfile) (ev : process_event)
    (ppe : CLUSProcessProfileEntry) (s : proc_state) : outcome ((string + process_verdict) * proc_state) :=
  let id := pv_id ev in
  let risky := negb (bool_decide (pv_riskType ev = "")) in
  let '(svc, capBlock, bNeuvector) := getContainerService id s in
  if bool_decide (svc = "") then Done (inl "Service not found", s)
  else
    let svcGroup := if bool_decide (svc = "nodes") then svc else makeLearnedGroupName (NormalizeForURL svc) in
    '(r, s) ← ProcessPolicyLookup (pv_hash ev) prf svcGroup id ppe s;
    match r with
    | None => Done (inl "Profile not found", s)
    | Some r =>
        let ppe := lr_proc r in
        let ppe := if bool_decide (pe_Uuid ppe = CLUSReservedUuidNotAllowed) && negb risky && (pv_shellCmd ev =? 1)%Z
                   then with_action PolicyActionAllow ppe else ppe in
        let act := pe_Action ppe in
        let by_parent s := IsAllowedByParentApp (pv_ppid ev) svcGroup id (pe_Name ppe) (pv_pname ev) (pv_ppath ev) (pv_pgid ev) s in
        let '(ppe, suspicious, group, svcGroup, s) :=
          if bool_decide (act = PolicyActionLearn) then
            if risky then
              let '(ok, s) := IsAllowedSuspiciousApp svcGroup id (pv_riskType ev) s in
              (with_action PolicyActionCheckApp ppe, ok, lr_group r, svcGroup, s)
            else (ppe, false, lr_group r, svcGroup, s)
          else if bool_decide (act = PolicyActionViolate) then
            if bNeuvector then (ppe, false, lr_group r, svcGroup, s)
            else
              let '(ok, s) := by_parent s in
              if ok then (with_action PolicyActionAllow ppe, true, lr_group r, svcGroup, s)
              else (ppe, false, lr_group r, svcGroup, s)
          else if bool_decide (act = PolicyActionCheckApp) || bool_decide (act = PolicyActionAllow) then
            if risky then
              let '(ok, s) := IsAllowedSuspiciousApp svcGroup id (pv_riskType ev) s in
              (if ok then ppe else with_action PolicyActionCheckApp ppe, ok, lr_group r, svcGroup, s)
            else (ppe, false, lr_group r, svcGroup, s)
          else if bool_decide (act = PolicyActionDeny) then
            if bNeuvector then (ppe, false, GroupNVProtect, GroupNVProtect, s)
            else
              let '(ok, s) := by_parent s in
              if ok then (with_action PolicyActionAllow ppe, true, lr_group r, svcGroup, s)
              else (ppe, false, lr_group r, svcGroup, s)
          else (ppe, false, lr_group r, svcGroup, s) in
        let ppe := if bool_decide (lr_mode r = PolicyModeEnforce) &&
                      negb (bool_decide (pe_Action ppe = PolicyActionAllow)) && negb capBlock
                   then with_action PolicyActionViolate ppe else ppe in
        Done (inr {| pv_mode := lr_mode r; pv_setting := lr_baseline r; pv_group := group;
                     pv_svcGroup := svcGroup; pv_allowSuspicious := suspicious; pv_proc := ppe;
                     pv_written := lr_hash r |}, s)
    end.

(** The profile of a container is recalculated ([applyProcGroupProfile], for
    the container [id] of the service [svc]); the cache of groups is another
    module's. *)
Definition applyProcGroupProfile (load : string -> CLUSProcessProfile -> option CLUSProcessProfile)
    (order : list (string * groupProfileData)) (id service : string)
    (cache : gmap string groupProfileData) (s : proc_state) : bool * gmap string groupProfileData * proc_state :=
  let svc := makeLearnedGroupName (NormalizeForURL service) in
  match calculateProcGroupProfile load order id svc cache with
  | (None, cache) => (false, cache, s)
  | (Some (proc, _), cache) =>
      let s := match wlProfileMap s !! id with
               | Some _ => set_wlProfileMap (<[id := {| wp_proc := Some proc; wp_procCalculated := true |}]> (wlProfileMap s)) s
               | None => s
               end in
      (true, cache, s)
  end.

(** ** The rules of a tier

    What a list of rules says of a process, whatever their order: a rule that
    allows everything overrides the others, then a rule that denies the
    process, then one that allows it. *)

Definition covers_all (e : CLUSProcessProfileEntry) : bool :=
  bool_decide (pe_Name e = "*") && bool_decide (pe_Path e = "*").
Definition is_deny (e : CLUSProcessProfileEntry) : bool := bool_decide (pe_Action e = PolicyActionDeny).

Definition tier_verdict (l : list CLUSProcessProfileEntry) (p : CLUSProcessProfileEntry) : option string :=
  if existsb (fun e => negb (is_deny e) && covers_all e) l then Some PolicyActionAllow
  else if existsb (fun e => is_deny e && negb (covers_all e) && MatchProfileProcess e p) l then Some PolicyActionDeny
  else if existsb (fun e => negb (is_deny e) && MatchProfileProcess e p) l then Some PolicyActionAllow
  else None.

(** The rules are as the controller lets them be: they allow or deny, no name
    holds a colon, and two rules of one name and path both have probe commands
    or neither has. *)
Record rules_ok (l : list CLUSProcessProfileEntry) : Prop := {
  ro_actions : Forall (fun e => pe_Action e = PolicyActionAllow \/ pe_Action e = PolicyActionDeny) l;
  ro_names : Forall (fun e => has_byte ":"%char (pe_Name e) = false) l;
  ro_probes e e' : e ∈ l -> e' ∈ l -> pe_Name e = pe_Name e' -> pe_Path e = pe_Path e' -> has_probe e = has_probe e' }.

(** *** The seven maps *)

Definition class_map (cur : list CLUSProcessProfileEntry) (i : nat) (m : gmap string CLUSProcessProfileEntry) : Prop :=
  (forall k e, m !! k = Some e -> e ∈ cur /\ rule_class e = Some i /\ entry_key e = k) /\
  (forall e, e ∈ cur -> rule_class e = Some i -> is_Some (m !! entry_key e)).

Lemma class_step_map cur e i m :
  class_map cur i m ->
  class_map (cur ++ [e]) i (if bool_decide (rule_class e = Some i) then <[entry_key e := e]> m else m).
Proof.
  intros [Ha Hb]. case_bool_decide as Hc; split.
  - intros k e' Hk. destruct (decide (k = entry_key e)) as [->|Hne].
    + rewrite lookup_insert_eq in Hk. injection Hk as <-. split_and!; [set_solver|done|done].
    + rewrite lookup_insert_ne in Hk by done. apply Ha in Hk as (? & ? & ?). split_and!; [set_solver|done|done].
  - intros e' Hin Hc'. destruct (decide (entry_key e' = entry_key e)) as [->|Hne].
    + rewrite lookup_insert_eq. eauto.
    + rewrite lookup_insert_ne by done. apply elem_of_app in Hin as [Hin|Hin%list_elem_of_singleton]; [auto|congruence].
  - intros k e' Hk. apply Ha in Hk as (? & ? & ?). split_and!; [set_solver|done|done].
  - intros e' Hin Hc'. apply elem_of_app in Hin as [Hin|Hin%list_elem_of_singleton]; [auto|congruence].
Qed.

Lemma rule_class_bound e i : rule_class e = Some i -> (i < 7)%nat.
Proof. unfold rule_class. repeat case_match; intros [= <-]; lia. Qed.

Lemma classes_spec cur :
  length (foldl class_step (replicate 7 ∅) cur) = 7%nat /\
  forall i m, foldl class_step (replicate 7 ∅) cur !! i = Some m -> class_map cur i m.
Proof.
  induction cur as [|e cur [Hlen IH]] using rev_ind.
  - split; [done|]. intros i m Hi. apply lookup_replicate in Hi as [-> _]. split; [set_solver|].
    intros e He. set_solver.
  - rewrite foldl_app. simpl. unfold class_step at 1 3. split.
    { destruct (rule_class e); [|done]. by rewrite length_alter. }
    intros i m Hi. destruct (rule_class e) as [j|] eqn:Hj.
    + destruct (decide (i = j)) as [->|Hne].
      * rewrite list_lookup_alter_eq in Hi. apply fmap_Some in Hi as (m' & Hm & ->).
        pose proof (class_step_map cur e j m' (IH _ _ Hm)) as Hs. rewrite bool_decide_eq_true_2 in Hs; done.
      * rewrite list_lookup_alter_ne in Hi by done.
        pose proof (class_step_map cur e i m (IH _ _ Hi)) as Hs. rewrite bool_decide_eq_false_2 in Hs; [done|congruence].
    + pose proof (class_step_map cur e i m (IH _ _ Hi)) as Hs. rewrite bool_decide_eq_false_2 in Hs; [done|congruence].
Qed.

Lemma sorted_slices_elem m e : e ∈ mapProcToSortedSlices m <-> exists k, m !! k = Some e.
Proof.
  unfold mapProcToSortedSlices. rewrite merge_sort_Permutation, list_elem_of_fmap. split.
  - intros ([k e'] & -> & Hk). exists k. by apply elem_of_map_to_list in Hk.
  - intros [k Hk]. exists (k, e). split; [done|]. by apply elem_of_map_to_list.
Qed.

(** The first element found in a list of lists is in the first list that has
    one. *)
Lemma find_concat {X : Type} (f : X -> bool) (ls : list (list X)) :
  match List.find f (concat ls) with
  | Some x => f x = true /\ exists i l, ls !! i = Some l /\ x ∈ l /\
      forall j l', (j < i)%nat -> ls !! j = Some l' -> forall y, y ∈ l' -> f y = false
  | None => forall l, l ∈ ls -> forall y, y ∈ l -> f y = false
  end.
Proof.
  induction ls as [|l ls IH]; simpl; [set_solver|].
  assert (Happ : List.find f (l ++ concat ls) =
            match List.find f l with Some x => Some x | None => List.find f (concat ls) end).
  { clear. induction l as [|x l IH]; [done|]. simpl. by destruct (f x). }
  rewrite Happ. destruct (List.find f l) as [x|] eqn:Hf.
  - apply List.find_some in Hf as [Hx Hfx]. split; [done|]. exists O, l.
    split_and!; [done|by apply list_elem_of_In|lia].
  - assert (Hno : forall y, y ∈ l -> f y = false).
    { intros y Hy. by apply (List.find_none _ _ Hf), list_elem_of_In. }
    destruct (List.find f (concat ls)) as [x|].
    + destruct IH as (Hfx & i & l' & Hi & Hx & Hlt). split; [done|]. exists (S i), l'.
      split_and!; [done|done|]. intros [|j] l'' Hj Hl'' y Hy.
      * injection Hl'' as <-. auto.
      * apply (Hlt j l''); [lia|done|done].
    + intros l' Hl' y Hy. apply elem_of_cons in Hl' as [->|Hl']; [by apply Hno|by apply (IH l')].
Qed.

(** *** What a merged tier says *)

Lemma entry_key_inj e e' :
  has_byte ":"%char (pe_Name e) = false -> has_byte ":"%char (pe_Name e') = false ->
  entry_key e = entry_key e' -> pe_Name e = pe_Name e' /\ pe_Path e = pe_Path e'.
Proof.
  unfold entry_key. intros H1 H2 Heq.
  change (":" +:+ ?x) with (String ":"%char x) in Heq. by apply app_byte_inj in Heq.
Qed.

(** A match depends on the name, the path and the probe commands. *)
Lemma MatchProfileProcess_ext e e' p :
  pe_Name e = pe_Name e' -> pe_Path e = pe_Path e' -> has_probe e = has_probe e' ->
  MatchProfileProcess e p = MatchProfileProcess e' p.
Proof.
  unfold MatchProfileProcess, has_probe. intros -> -> Hp.
  destruct (LastIndexByte (pe_Path p) "/"%char); [|done]. by rewrite Hp.
Qed.

Lemma rule_class_spec e :
  match rule_class e with
  | Some 0%nat => is_deny e = false /\ covers_all e = true
  | Some 1%nat | Some 2%nat | Some 3%nat => is_deny e = true /\ covers_all e = false
  | Some _ => is_deny e = false /\ covers_all e = false
  | None => is_deny e = true /\ covers_all e = true
  end.
Proof.
  unfold rule_class, is_deny, covers_all. case_bool_decide; (case_bool_decide; [case_bool_decide|]); simpl;
    repeat case_match; done.
Qed.

Lemma covers_all_matches e p : covers_all e = true -> MatchProfileProcess e p = true.
Proof. unfold covers_all, MatchProfileProcess. intros [-> ->]%andb_true_iff. done. Qed.

(** Some entry of class [i] matches in the list when one does in the map. *)
Lemma class_hit cur i m p :
  rules_ok cur -> class_map cur i m ->
  (exists e, e ∈ mapProcToSortedSlices m /\ MatchProfileProcess e p = true) <->
  (exists e, e ∈ cur /\ rule_class e = Some i /\ MatchProfileProcess e p = true).
Proof.
  intros [_ Hn Hp] [Ha Hb]. rewrite Forall_forall in Hn. split.
  - intros (e & [k Hk]%sorted_slices_elem & He). apply Ha in Hk as (? & ? & _). eauto.
  - intros (e & Hin & Hc & He). destruct (Hb e Hin Hc) as [e' He']. exists e'.
    split; [apply sorted_slices_elem; eauto|]. apply Ha in He' as (Hin' & _ & Hkey).
    destruct (entry_key_inj e' e) as [H1 H2]; [auto|auto|done|].
    by rewrite (MatchProfileProcess_ext e' e) by auto.
Qed.

(** The entry found in the merged list is one of the lowest class that
    matches. *)
Lemma merged_first cur p :
  rules_ok cur ->
  match List.find (fun e => MatchProfileProcess e p) (mergeProcessProfiles cur) with
  | Some e => e ∈ cur /\ MatchProfileProcess e p = true /\ exists i, rule_class e = Some i /\
      forall e' i', e' ∈ cur -> rule_class e' = Some i' -> MatchProfileProcess e' p = true -> (i <= i')%nat
  | None => forall e i, e ∈ cur -> rule_class e = Some i -> MatchProfileProcess e p = false
  end.
Proof.
  intros Hok. unfold mergeProcessProfiles. destruct (classes_spec cur) as [Hlen Hcls].
  set (ms := foldl class_step (replicate 7 ∅) cur) in *.
  assert (Hit : forall i e, e ∈ cur -> rule_class e = Some i -> MatchProfileProcess e p = true ->
            exists l e', (mapProcToSortedSlices <$> ms) !! i = Some l /\ e' ∈ l /\ MatchProfileProcess e' p = true).
  { intros i e Hin Hc He. pose proof (rule_class_bound _ _ Hc).
    destruct (lookup_lt_is_Some_2 ms i) as [m Hm]; [lia|].
    destruct (proj2 (class_hit cur i m p Hok (Hcls _ _ Hm))) as (e' & He' & Hm'); [eauto|].
    exists (mapProcToSortedSlices m), e'. by rewrite list_lookup_fmap, Hm. }
  pose proof (find_concat (fun e => MatchProfileProcess e p) (mapProcToSortedSlices <$> ms)) as Hf.
  destruct (List.find _ _) as [e|].
  - destruct Hf as (He & i & l & Hl & Hin & Hlt).
    rewrite list_lookup_fmap in Hl. destruct (ms !! i) as [m|] eqn:Hm; [|done]. injection Hl as <-.
    apply sorted_slices_elem in Hin as [k Hk]. apply (proj1 (Hcls _ _ Hm)) in Hk as (Hin & Hc & _).
    split_and!; [done|done|]. exists i. split; [done|].
    intros e' i' Hin' Hc' He'. destruct (decide (i <= i')%nat) as [|Hn]; [done|]. exfalso.
    destruct (Hit i' e') as (l & e'' & Hl & Hin'' & Hm''); [done|done|done|].
    rewrite (Hlt i' l) in Hm''; [done|lia|done|done].
  - intros e i Hin Hc. destruct (MatchProfileProcess e p) eqn:He; [|done].
    destruct (Hit i e) as (l & e' & Hl & Hin' & He'); [done|done|done|].
    rewrite (Hf l) in He'; [done| |done]. by eapply list_elem_of_lookup_2.
Qed.

Lemma existsb_none {X : Type} (f : X -> bool) l : (forall x, x ∈ l -> f x = true -> False) -> existsb f l = false.
Proof.
  intros H. apply not_true_is_false. intros (x & Hx & Hf)%existsb_exists.
  apply (H x); [by apply list_elem_of_In|done].
Qed.

Lemma existsb_some {X : Type} (f : X -> bool) l x : x ∈ l -> f x = true -> existsb f l = true.
Proof. intros Hx Hf. apply existsb_exists. exists x. split; [by apply list_elem_of_In|done]. Qed.

Lemma tier_verdict_first cur p e i :
  rules_ok cur -> e ∈ cur -> MatchProfileProcess e p = true -> rule_class e = Some i ->
  (forall e' i', e' ∈ cur -> rule_class e' = Some i' -> MatchProfileProcess e' p = true -> (i <= i')%nat) ->
  tier_verdict cur p = Some (pe_Action e).
Proof.
  intros Hok Hin He Hc Hmin. pose proof (rule_class_spec e) as Hs. rewrite Hc in Hs.
  pose proof (ro_actions _ Hok) as Hact. rewrite Forall_forall in Hact. specialize (Hact e Hin).
  assert (Hallow : is_deny e = false -> pe_Action e = PolicyActionAllow).
  { unfold is_deny. case_bool_decide; [done|]. by destruct Hact. }
  assert (Hdeny : is_deny e = true -> pe_Action e = PolicyActionDeny) by apply bool_decide_eq_true_1.
  assert (Hlow : forall e', e' ∈ cur -> MatchProfileProcess e' p = true ->
            match rule_class e' with Some i' => (i <= i')%nat | None => True end).
  { intros e' Hin' He'. destruct (rule_class e') eqn:Hc'; [|done]. by eapply Hmin. }
  assert (T1 : (1 <= i)%nat -> existsb (fun e => negb (is_deny e) && covers_all e) cur = false).
  { intros Hi. apply existsb_none. intros e' Hin' [Hd Ha]%andb_true_iff.
    specialize (Hlow e' Hin' (covers_all_matches _ _ Ha)). pose proof (rule_class_spec e') as Hs'.
    apply negb_true_iff in Hd. destruct (rule_class e') as [[|[|[|[|]]]]|]; (lia || destruct Hs'; congruence). }
  assert (T2 : (4 <= i)%nat -> existsb (fun e => is_deny e && negb (covers_all e) && MatchProfileProcess e p) cur = false).
  { intros Hi. apply existsb_none. intros e' Hin' [[Hd Ha]%andb_true_iff Hm]%andb_true_iff.
    specialize (Hlow e' Hin' Hm). pose proof (rule_class_spec e') as Hs'.
    apply negb_true_iff in Ha. destruct (rule_class e') as [[|[|[|[|]]]]|]; (lia || destruct Hs'; congruence). }
  unfold tier_verdict. destruct i as [|i]; [|rewrite T1 by lia].
  - destruct Hs as [Hd Ha]. rewrite (existsb_some _ cur e Hin) by by rewrite Hd, Ha. by rewrite Hallow.
  - destruct (decide (S i < 4)%nat) as [Hlt|Hge].
    + assert (is_deny e = true /\ covers_all e = false) as [Hd Ha] by (destruct i as [|[|[|]]]; (done || lia)).
      rewrite (existsb_some _ cur e Hin) by by rewrite Hd, Ha, He. by rewrite Hdeny.
    + rewrite T2 by lia.
      assert (is_deny e = false) as Hd by (destruct i as [|[|[|]]]; (lia || by destruct Hs)).
      rewrite (existsb_some _ cur e Hin) by by rewrite Hd, He. by rewrite Hallow.
Qed.

Lemma tier_verdict_none cur p :
  (forall e i, e ∈ cur -> rule_class e = Some i -> MatchProfileProcess e p = false) -> tier_verdict cur p = None.
Proof.
  intros Hno. unfold tier_verdict.
  assert (Hno' : forall e, e ∈ cur -> is_deny e && covers_all e = false -> MatchProfileProcess e p = true -> False).
  { intros e Hin Hc He. pose proof (rule_class_spec e) as Hs. destruct (rule_class e) as [i|] eqn:Hci.
    - rewrite (Hno e i) in He; done.
    - destruct Hs as [Hd Ha]. rewrite Hd, Ha in Hc. done. }
  rewrite !existsb_none; [done| | |]; intros e Hin H; repeat apply andb_true_iff in H as [H ?].
  - apply (Hno' e); [done| |done]. apply negb_true_iff in H. by rewrite H.
  - apply (Hno' e); [done| |done]. rewrite H. by apply negb_true_iff.
  - apply (Hno' e); [done| |by apply covers_all_matches]. apply negb_true_iff in H. by rewrite H.
Qed.

Lemma merged_verdict cur p :
  rules_ok cur ->
  pe_Action <$> List.find (fun e => MatchProfileProcess e p) (mergeProcessProfiles cur) = tier_verdict cur p.
Proof.
  intros Hok. pose proof (merged_first cur p Hok) as Hf. destruct (List.find _ _) as [e|].
  - destruct Hf as (Hin & He & i & Hc & Hmin). symmetry. by eapply tier_verdict_first.
  - symmetry. by apply tier_verdict_none.
Qed.

(** *** The three tiers of a container *)

Definition no_rules : rule_tiers := {| fed_rules := []; crd_rules := []; own_rules := [] |}.

(** The rules of the groups of a container and of its service. *)
Definition container_rules (id : string) (svc_proc : CLUSProcessProfile) (groups : list (string * groupProfileData))
  : rule_tiers :=
  add_rules (foldl (tier_step id) no_rules groups) (pp_Process svc_proc).

(** Federal rules decide first, then those of custom resources. *)
Definition rules_verdict (t : rule_tiers) (p : CLUSProcessProfileEntry) : option string :=
  match tier_verdict (fed_rules t) p with
  | Some a => Some a
  | None => match tier_verdict (crd_rules t) p with Some a => Some a | None => tier_verdict (own_rules t) p end
  end.

Definition tiers_ok (t : rule_tiers) : Prop :=
  rules_ok (fed_rules t) /\ rules_ok (crd_rules t) /\ rules_ok (own_rules t).

(** The same rules, in another order. *)
Definition same_rules (t t' : rule_tiers) : Prop :=
  fed_rules t ≡ₚ fed_rules t' /\ crd_rules t ≡ₚ crd_rules t' /\ own_rules t ≡ₚ own_rules t'.

#[export] Instance same_rules_equiv : Equivalence same_rules.
Proof.
  split; unfold same_rules.
  - done.
  - intros t t' (H1 & H2 & H3). by rewrite H1, H2, H3.
  - intros t t' t'' (H1 & H2 & H3) (H4 & H5 & H6). split_and!; by etrans.
Qed.

Lemma add_rules_filter t ps :
  add_rules t ps = {| fed_rules := fed_rules t;
    crd_rules := crd_rules t ++ List.filter is_crd ps;
    own_rules := own_rules t ++ List.filter (fun p => negb (is_crd p)) ps |}.
Proof.
  unfold add_rules. revert t. induction ps as [|p ps IH]; intros t.
  - simpl. rewrite !app_nil_r. by destruct t.
  - simpl. rewrite IH. destruct (is_crd p); simpl; f_equal; by rewrite <-app_assoc.
Qed.

#[export] Instance add_rules_proper : Proper (same_rules ==> (=) ==> same_rules) add_rules.
Proof. intros t t' (H1 & H2 & H3) ps ? <-. rewrite !add_rules_filter. split_and!; simpl; by rewrite ?H1, ?H2, ?H3. Qed.

#[export] Instance tier_step_proper id : Proper (same_rules ==> (=) ==> same_rules) (tier_step id).
Proof.
  intros t t' Ht g ? <-. unfold tier_step. case_bool_decide; [|done]. destruct (HasPrefix g.1 federalGrpPrefix).
  - destruct Ht as (H1 & H2 & H3). split_and!; simpl; by rewrite ?H1, ?H2, ?H3.
  - by rewrite Ht.
Qed.

Lemma tier_step_swap id t g h : same_rules (tier_step id (tier_step id t g) h) (tier_step id (tier_step id t h) g).
Proof.
  unfold tier_step. repeat case_bool_decide; try done.
  destruct (HasPrefix g.1 federalGrpPrefix), (HasPrefix h.1 federalGrpPrefix); rewrite ?add_rules_filter;
    split_and!; simpl; try done; rewrite <-!app_assoc; apply Permutation_app; try done; apply Permutation_app_comm.
Qed.

(** The order in which the groups are visited does not matter. *)
Lemma tier_fold_perm id t t' l l' :
  same_rules t t' -> l ≡ₚ l' -> same_rules (foldl (tier_step id) t l) (foldl (tier_step id) t' l').
Proof.
  assert (Hp : forall l t t', same_rules t t' -> same_rules (foldl (tier_step id) t l) (foldl (tier_step id) t' l)).
  { intros m. induction m as [|g m IH]; intros u u' Hu; [done|]. apply IH. by rewrite Hu. }
  intros Ht Hl. revert t t' Ht. induction Hl as [|g l l' Hl IH|g h l|l l' l'' _ IH1 _ IH2]; intros t t' Ht.
  - done.
  - simpl. apply IH. by rewrite Ht.
  - simpl. apply Hp. rewrite Ht. apply tier_step_swap.
  - etrans; [by apply IH1|]. by apply IH2.
Qed.

Lemma container_rules_perm id svc_proc l l' :
  l ≡ₚ l' -> same_rules (container_rules id svc_proc l) (container_rules id svc_proc l').
Proof. intros Hl. unfold container_rules. apply add_rules_proper; [|done]. by apply tier_fold_perm. Qed.

Lemma existsb_perm {X : Type} (f : X -> bool) l l' : l ≡ₚ l' -> existsb f l = existsb f l'.
Proof.
  intros Hl. destruct (existsb f l') eqn:He.
  - apply existsb_exists in He as (x & Hx & Hf). apply (existsb_some f l x); [|done].
    rewrite Hl. by apply list_elem_of_In.
  - apply existsb_none. intros x Hx Hf. rewrite (existsb_some f l' x) in He; [done| |done]. by rewrite <-Hl.
Qed.

#[export] Instance tier_verdict_proper : Proper ((≡ₚ) ==> (=) ==> (=)) tier_verdict.
Proof. intros l l' Hl p ? <-. unfold tier_verdict. by rewrite !(existsb_perm _ _ _ Hl). Qed.

#[export] Instance rules_ok_proper : Proper ((≡ₚ) ==> iff) rules_ok.
Proof.
  assert (H : forall l l', l ≡ₚ l' -> rules_ok l -> rules_ok l').
  { intros l l' Hl [Ha Hn Hp]. split; [by rewrite <-Hl|by rewrite <-Hl|].
    intros e e' He He'. apply Hp; by rewrite Hl. }
  intros l l' Hl. split; apply H; done.
Qed.

Lemma rules_verdict_perm t t' p : same_rules t t' -> rules_verdict t p = rules_verdict t' p.
Proof.
  intros (H1 & H2 & H3). unfold rules_verdict.
  by rewrite (tier_verdict_proper _ _ H1 p p eq_refl), (tier_verdict_proper _ _ H2 p p eq_refl),
    (tier_verdict_proper _ _ H3 p p eq_refl).
Qed.

Lemma tiers_ok_perm t t' : same_rules t t' -> tiers_ok t -> tiers_ok t'.
Proof. intros (H1 & H2 & H3). unfold tiers_ok. by rewrite H1, H2, H3. Qed.

(** *** The calculated list *)

Definition merged_rules (t : rule_tiers) : list CLUSProcessProfileEntry :=
  merge_tier (fed_rules t) ++ merge_tier (crd_rules t) ++ merge_tier (own_rules t).

Lemma merge_tier_merge l : merge_tier l = mergeProcessProfiles l.
Proof. unfold merge_tier. by destruct l. Qed.

Lemma find_app_match {X : Type} (f : X -> bool) l l' :
  List.find f (l ++ l') = match List.find f l with Some x => Some x | None => List.find f l' end.
Proof. induction l as [|x l IH]; [done|]. simpl. by destruct (f x). Qed.

Lemma merged_rules_verdict t p :
  tiers_ok t -> pe_Action <$> List.find (fun e => MatchProfileProcess e p) (merged_rules t) = rules_verdict t p.
Proof.
  intros (H1 & H2 & H3). unfold merged_rules, rules_verdict. rewrite !merge_tier_merge, !find_app_match.
  rewrite <-!merged_verdict by done. by destruct (List.find _ _), (List.find _ (mergeProcessProfiles (crd_rules t))).
Qed.

Lemma merge_elem cur e : e ∈ mergeProcessProfiles cur -> e ∈ cur.
Proof.
  unfold mergeProcessProfiles. intros He%list_elem_of_In. apply in_concat in He as (l & Hl & He).
  apply list_elem_of_In in Hl, He.
  apply list_elem_of_fmap in Hl as (m & -> & Hm). apply list_elem_of_lookup in Hm as [i Hm].
  apply sorted_slices_elem in He as [k Hk]. by apply (proj1 (proj2 (classes_spec cur) i m Hm)) in Hk as [? _].
Qed.

Lemma merged_rules_elem t e : e ∈ merged_rules t -> e ∈ fed_rules t ++ crd_rules t ++ own_rules t.
Proof.
  unfold merged_rules. rewrite !merge_tier_merge, !elem_of_app.
  intros [?%merge_elem|[?%merge_elem|?%merge_elem]]; auto.
Qed.

Lemma find_entry_find mode p i ps :
  mode <> PolicyModeLearn -> snd <$> find_entry mode p i ps = List.find (fun e => MatchProfileProcess e p) ps.
Proof.
  intros Hm. revert i. induction ps as [|e ps IH]; intros i; [done|]. simpl.
  rewrite bool_decide_eq_false_2 by done. simpl. by destruct (MatchProfileProcess e p).
Qed.

(** *** The decision *)

(** Merging the rules of a tier keeps those that allow by the parent. *)
Lemma merge_parent_rule name pname ppath cur :
  rules_ok cur ->
  existsb (parent_rule name pname ppath) (mergeProcessProfiles cur) = existsb (parent_rule name pname ppath) cur.
Proof.
  intros [Hact Hn _]. rewrite Forall_forall in Hact, Hn. apply eq_true_iff_eq. rewrite !existsb_exists. split.
  - intros (e & He%list_elem_of_In%merge_elem & Hp). exists e. by rewrite <-list_elem_of_In.
  - intros (e & Hin%list_elem_of_In & Hp).
    assert (Ha : pe_Action e = PolicyActionAllow).
    { unfold parent_rule in Hp. repeat apply andb_true_iff in Hp as [Hp _]. by apply bool_decide_eq_true in Hp. }
    assert (Hd : is_deny e = false) by (unfold is_deny; rewrite Ha; done).
    pose proof (rule_class_spec e) as Hs. destruct (rule_class e) as [i|] eqn:Hc; [|by destruct Hs; congruence].
    destruct (classes_spec cur) as [Hlen Hcls].
    destruct (lookup_lt_is_Some_2 (foldl class_step (replicate 7 ∅) cur) i) as [m Hm];
      [rewrite Hlen; by eapply rule_class_bound|].
    destruct (Hcls i m Hm) as [H1 H2]. destruct (H2 e Hin Hc) as [e' He'].
    destruct (H1 _ _ He') as (Hin' & Hc' & Hk). destruct (entry_key_inj e' e) as [En Ep]; [auto|auto|done|].
    assert (pe_Action e' = PolicyActionAllow) as Ha'.
    { destruct (Hact e' Hin') as [|Hdeny]; [done|]. exfalso. pose proof (rule_class_spec e') as Hs'. rewrite Hc' in Hs'.
      assert (is_deny e' = true) by (unfold is_deny; by rewrite Hdeny).
      destruct i as [|[|[|[|]]]]; destruct Hs, Hs'; congruence. }
    exists e'. split.
    + apply list_elem_of_In. unfold mergeProcessProfiles. apply list_elem_of_In, in_concat.
      exists (mapProcToSortedSlices m). rewrite <-!list_elem_of_In. split; [|apply sorted_slices_elem; eauto].
      apply list_elem_of_fmap. exists m. split; [done|]. by eapply list_elem_of_lookup_2.
    + revert Hp. unfold parent_rule. by rewrite Ha, Ha', En, Ep.
Qed.

(** A rule of the container allows the processes of this parent. *)
Definition allows_parent (t : rule_tiers) (name pname ppath : string) : bool :=
  existsb (parent_rule name pname ppath) (fed_rules t ++ crd_rules t ++ own_rules t).

Lemma merged_allows_parent t name pname ppath :
  tiers_ok t -> existsb (parent_rule name pname ppath) (merged_rules t) = allows_parent t name pname ppath.
Proof.
  intros (H1 & H2 & H3). unfold merged_rules, allows_parent. rewrite !merge_tier_merge, !existsb_app.
  by rewrite !merge_parent_rule.
Qed.

Lemma allows_parent_perm t t' name pname ppath :
  same_rules t t' -> allows_parent t name pname ppath = allows_parent t' name pname ppath.
Proof. intros (H1 & H2 & H3). unfold allows_parent. apply existsb_perm. by rewrite H1, H2, H3. Qed.

(** What the enforcer makes of the action of the rules: a rule for the parent
    lets the process pass, and where processes cannot be blocked what is not
    allowed is reported. *)
Definition enforced_action (capBlock parent : bool) (act : string) : string :=
  let act := if (bool_decide (act = PolicyActionViolate) || bool_decide (act = PolicyActionDeny)) && parent
             then PolicyActionAllow else act in
  if negb (bool_decide (act = PolicyActionAllow)) && negb capBlock then PolicyActionViolate else act.

Lemma IsAllowedByParentApp_new ppid service id name pname ppath pgid s s' profile :
  ObtainProcessPolicy service id s = (Some profile, s') -> permitProcessGrp s' !! pgid = None ->
  exists s2, IsAllowedByParentApp ppid service id name pname ppath pgid s =
    (existsb (parent_rule name pname ppath) (pp_Process profile), s2).
Proof.
  intros Ho Hp. unfold IsAllowedByParentApp. rewrite Ho, Hp.
  destruct (List.find (parent_rule name pname ppath) (pp_Process profile)) as [e|] eqn:Hf.
  - apply List.find_some in Hf as [Hin He]. eexists. f_equal. symmetry. apply existsb_exists. eauto.
  - eexists. f_equal. symmetry. apply existsb_none. intros x Hx%list_elem_of_In He.
    by rewrite (List.find_none _ _ Hf) in He.
Qed.

(** In the protect mode, without hashes, the first matching rule's action
    stands, and a process no rule matches is denied. *)
Lemma ProcessPolicyLookup_protect hash prf name id proc s s' profile :
  ObtainProcessPolicy name id s = (Some profile, s') ->
  pp_Mode profile = PolicyModeEnforce -> pp_HashEnable profile = false ->
  exists r, ProcessPolicyLookup hash prf name id proc s = Done (Some r, s') /\ lr_mode r = PolicyModeEnforce /\
    pe_Name (lr_proc r) = pe_Name proc /\
    pe_Action (lr_proc r) =
      match pe_Action <$> List.find (fun e => MatchProfileProcess e proc) (pp_Process profile) with
      | Some a => a
      | None => if bool_decide (pp_Baseline profile = ProfileBasic) || negb (IsK8sGroupWithProbe name s')
                then PolicyActionDeny else pe_Action proc
      end.
Proof.
  intros Ho Hm Hh. unfold ProcessPolicyLookup. rewrite Ho, Hm, Hh.
  rewrite <-(find_entry_find PolicyModeEnforce proc 0 (pp_Process profile)) by done.
  destruct (find_entry _ _ _ _) as [[i p]|]; cbn [fmap option_fmap option_map snd].
  - case_bool_decide as Ha.
    + assert (hash_action false hash (pe_Hash p) = (PolicyActionAllow, None)) as -> by by destruct hash.
      cbn. eexists. split_and!; [done..|]. by rewrite Ha.
    + cbn. eexists. split_and!; done.
  - destruct (_ || _); eexists; (split_and!; [done..|]); done.
Qed.

(** A container of a service whose group's profile has arrived and whose own
    is to be calculated. *)
Record container_ready (s : proc_state) (id : string) (c : containerData) (profile : CLUSProcessProfile) : Prop := {
  cr_id : id <> "" /\ id <> "nodes";
  cr_active : activeContainers s !! id = Some c;
  cr_service : c_service c <> "" /\ c_service c <> "nodes";
  cr_other : neuvectorContainers s !! id = None;
  cr_wl : is_Some (wlProfileMap s !! id);
  cr_policy : ProcessPolicy s !! makeLearnedGroupName (NormalizeForURL (c_service c)) = Some profile }.

Lemma ObtainProcessPolicy_calculated s id name profile grp b :
  id <> "nodes" -> neuvectorContainers s !! id = None -> ProcessPolicy s !! name = Some profile ->
  wlProfileMap s !! id = Some {| wp_proc := Some grp; wp_procCalculated := true |} -> b = follow_profile grp profile ->
  ObtainProcessPolicy name id s =
    (Some b, set_wlProfileMap (<[id := {| wp_proc := Some b; wp_procCalculated := true |}]> (wlProfileMap s)) s).
Proof.
  intros Hid Hnv Hp Hw ->. unfold ObtainProcessPolicy, ObtainGroupProcessPolicy, isNeuvectorContainerById.
  rewrite Hp, (bool_decide_eq_false_2 (id = "nodes")) by done.
  rewrite Hnv, bool_decide_eq_false_2 by by intros [? ?]. by rewrite Hw.
Qed.

(** An event of a process that is not risky, not a shell script, and whose
    group no rule for a parent has admitted. *)
Record plain_event (s : proc_state) (id : string) (ev : process_event) : Prop := {
  ev_id : pv_id ev = id;
  ev_risk : pv_riskType ev = "";
  ev_shell : pv_shellCmd ev <> 1%Z;
  ev_group : permitProcessGrp s !! pv_pgid ev = None }.

Lemma action_cases act :
  act = PolicyActionLearn \/ act = PolicyActionViolate \/ act = PolicyActionCheckApp \/ act = PolicyActionAllow \/
  act = PolicyActionDeny \/
  (bool_decide (act = PolicyActionLearn) = false /\ bool_decide (act = PolicyActionViolate) = false /\
   bool_decide (act = PolicyActionCheckApp) = false /\ bool_decide (act = PolicyActionAllow) = false /\
   bool_decide (act = PolicyActionDeny) = false).
Proof. repeat case_bool_decide; tauto. Qed.

(** The decision on a calculated profile. *)
Lemma calculated_decision s id c profile grp prf ev ppe :
  let svc := makeLearnedGroupName (NormalizeForURL (c_service c)) in
  container_ready s id c profile -> plain_event s id ev ->
  wlProfileMap s !! id = Some {| wp_proc := Some grp; wp_procCalculated := true |} ->
  pp_Mode grp = PolicyModeEnforce -> pp_HashEnable grp = false ->
  exists v s2, processPolicyLookup prf ev ppe s = Done (inr v, s2) /\
    pe_Action (pv_proc v) = enforced_action (c_capBlock c)
      (existsb (parent_rule (pe_Name ppe) (pv_pname ev) (pv_ppath ev)) (pp_Process grp))
      match pe_Action <$> List.find (fun e => MatchProfileProcess e ppe) (pp_Process grp) with
      | Some a => a
      | None => if bool_decide (pp_Baseline profile = ProfileBasic) || negb (IsK8sGroupWithProbe svc s)
                then PolicyActionDeny else pe_Action ppe
      end.
Proof.
  intros svc [[Hid Hid'] Hact [Hsv Hsv'] Hnv _ Hpol] [Hev Hrisk Hsh Hperm] Hwl Hmode Hhash.
  set (b := follow_profile grp profile).
  assert (Ho1 := ObtainProcessPolicy_calculated s id svc profile grp b Hid' Hnv Hpol Hwl eq_refl).
  set (s2 := set_wlProfileMap _ s) in Ho1.
  assert (Hmb : pp_Mode b = PolicyModeEnforce) by (unfold b, follow_profile; simpl; by rewrite Hmode).
  assert (Hb : b = follow_profile b profile) by (unfold b, follow_profile; simpl; by rewrite Hmode).
  assert (Ho2 := ObtainProcessPolicy_calculated s2 id svc profile b b Hid' Hnv Hpol (lookup_insert_eq _ _ _) Hb).
  destruct (ProcessPolicyLookup_protect (pv_hash ev) prf svc id ppe s s2 b Ho1 Hmb Hhash) as (r & Hr & Hrm & Hrn & Hra).
  destruct (IsAllowedByParentApp_new (pv_ppid ev) svc id (pe_Name ppe) (pv_pname ev) (pv_ppath ev) (pv_pgid ev) s2 _ b Ho2 Hperm)
    as [s3 Hpar].
  change (pp_Process b) with (pp_Process grp) in *. change (pp_Baseline b) with (pp_Baseline profile) in Hra.
  change (IsK8sGroupWithProbe svc s2) with (IsK8sGroupWithProbe svc s) in Hra.
  rewrite <-Hra. clear Hra. unfold processPolicyLookup, getContainerService.
  rewrite Hev, (bool_decide_eq_false_2 (id = "")) by done.
  rewrite Hact, Hrisk, (bool_decide_eq_false_2 (c_service c = "")), (bool_decide_eq_false_2 (c_service c = "nodes")) by done.
  fold svc. rewrite Hr. cbn [mbind outcome_bind]. rewrite (proj2 (Z.eqb_neq _ _) Hsh), andb_false_r, Hrm, Hrn.
  rewrite Hpar, (bool_decide_eq_true_2 ("" = "")) by done. cbn [negb].
  generalize (existsb (parent_rule (pe_Name ppe) (pv_pname ev) (pv_ppath ev)) (pp_Process grp)). intros parent.
  unfold enforced_action. destruct r as [mode baseline group [n p h act cfg uuid dg afu probes] hw].
  cbn [lr_proc lr_mode lr_group lr_baseline lr_hash pe_Action] in *.
  destruct (action_cases act) as [->|[->|[->|[->|[->|(-> & -> & -> & Ha & ->)]]]]];
    [destruct (c_capBlock c), parent; do 2 eexists; split; reflexivity..|].
  rewrite Ha. cbn [orb andb negb pe_Action]. rewrite Ha. destruct (c_capBlock c); do 2 eexists; split; reflexivity.
Qed.

(** C8: once the profile of a container in the protect mode is calculated,
    in whatever order its groups are visited, a process it starts gets the
    action its rules give it: a federal rule decides before one of a custom
    resource and that before any other; in each of these a rule that allows
    everything decides first, then a rule that denies the process, then one
    that allows it; and a process no rule matches is denied, unless the
    group has the zero-drift baseline and probe commands, when it keeps the
    action it came with.  A process that would be denied or reported is
    allowed when an allow rule whose name ends in a slash and a star names it
    or its parent, on the parent's path; and in a container whose processes
    cannot be blocked every action but allow becomes a report.  This is for an
    active container of a service, whose group profile has arrived and keeps
    no hashes, with rules that allow or deny, have no colon in their names and
    agree on probe commands where name and path are the same; and for a
    process that is not risky, not a shell script, and of a process group no
    earlier process was admitted for by such a rule for a parent. *)
Theorem protected_process_verdict load order cache cache' svc_proc prf s id c profile ev ppe :
  let svc := makeLearnedGroupName (NormalizeForURL (c_service c)) in
  let t := container_rules id svc_proc (map_to_list cache) in
  visits order cache ->
  getProcessProfile load svc cache = (Some svc_proc, cache') ->
  pp_Mode svc_proc = PolicyModeEnforce -> pp_HashEnable svc_proc = false ->
  tiers_ok t ->
  container_ready s id c profile -> plain_event s id ev ->
  let s1 := (applyProcGroupProfile load order id (c_service c) cache s).2 in
  exists v s2, processPolicyLookup prf ev ppe s1 = Done (inr v, s2) /\
    pe_Action (pv_proc v) =
      enforced_action (c_capBlock c) (allows_parent t (pe_Name ppe) (pv_pname ev) (pv_ppath ev))
        match rules_verdict t ppe with
        | Some a => a
        | None => if bool_decide (pp_Baseline profile = ProfileBasic) || negb (IsK8sGroupWithProbe svc s)
                  then PolicyActionDeny else pe_Action ppe
        end.
Proof.
  intros svc t Hord Hget Hmode Hhash Hok Hready Hev s1.
  set (t' := container_rules id svc_proc order).
  assert (Hsame : same_rules t t') by (symmetry; by apply container_rules_perm).
  destruct Hready as [Hid Hact Hsv Hnv [wl Hwl] Hpol].
  set (grp := {| pp_Group := pp_Group svc_proc; pp_AlertDisable := pp_AlertDisable svc_proc;
                 pp_HashEnable := pp_HashEnable svc_proc; pp_Mode := pp_Mode svc_proc;
                 pp_Baseline := ""; pp_Process := merged_rules t' |}).
  set (s' := set_wlProfileMap (<[id := {| wp_proc := Some grp; wp_procCalculated := true |}]> (wlProfileMap s)) s).
  assert (Hs1 : s1 = s').
  { unfold s1, applyProcGroupProfile, calculateProcGroupProfile. fold svc. rewrite Hget, Hwl. done. }
  assert (Hok' : tiers_ok t') by by apply (tiers_ok_perm t).
  rewrite Hs1. rewrite <-(rules_verdict_perm t' t), <-(merged_rules_verdict t') by done.
  rewrite (allows_parent_perm t t') by done. rewrite <-(merged_allows_parent t') by done.
  apply (calculated_decision s' id c profile grp); try done.
  - split; try done. simpl. rewrite lookup_insert_eq. eauto.
  - destruct Hev. by split.
  - simpl. by rewrite lookup_insert_eq.
Qed.

(** A deny rule of the federation against a rule of the service that allows
    the directory. *)
Definition ex_rule (name path act : string) : CLUSProcessProfileEntry := {|
  pe_Name := name; pe_Path := path; pe_Hash := ""; pe_Action := act; pe_CfgType := UserCreated;
  pe_Uuid := ""; pe_DerivedGroup := ""; pe_AllowFileUpdate := false; pe_ProbeCmds := [] |}.

Definition ex_profile (group : string) (rules : list CLUSProcessProfileEntry) : CLUSProcessProfile := {|
  pp_Group := group; pp_AlertDisable := false; pp_HashEnable := false; pp_Mode := PolicyModeEnforce;
  pp_Baseline := ProfileBasic; pp_Process := rules |}.

Definition ex_cache : gmap string groupProfileData := {[
  "fed.web" := {| gd_members := {["c1"]}; gd_proc := ex_profile "fed.web" [ex_rule "nc" "/bin/nc" PolicyActionDeny] |};
  "nv.web" := {| gd_members := {["c1"]}; gd_proc := ex_profile "nv.web" [ex_rule "*" "/bin/*" PolicyActionAllow] |} ]}.

Definition ex_container : containerData := {| c_service := "web"; c_capBlock := true |}.

Definition ex_procs : proc_state := {|
  ProcessPolicy := {[ "nv.web" := ex_profile "nv.web" [] ]}; k8sGrpProbe := ∅;
  wlProfileMap := {[ "c1" := {| wp_proc := None; wp_procCalculated := false |} ]};
  permitProcessGrp := ∅; activeContainers := {[ "c1" := ex_container ]}; neuvectorContainers := ∅ |}.

Definition ex_event : process_event := {|
  pv_id := "c1"; pv_riskType := ""; pv_pname := "sh"; pv_ppath := "/bin/sh"; pv_pgid := 7; pv_shellCmd := 0;
  pv_hash := None; pv_ppid := 1 |}.

Definition ex_action (r : outcome ((string + process_verdict) * proc_state)) : option string :=
  match r with Done (inr v, _) => Some (pe_Action (pv_proc v)) | _ => None end.

Lemma protected_process_verdict_witness :
  let order := [("nv.web", {| gd_members := {["c1"]}; gd_proc := ex_profile "nv.web" [ex_rule "*" "/bin/*" PolicyActionAllow] |});
                ("fed.web", {| gd_members := {["c1"]}; gd_proc := ex_profile "fed.web" [ex_rule "nc" "/bin/nc" PolicyActionDeny] |})] in
  let s1 := (applyProcGroupProfile (fun _ _ => None) order "c1" "web" ex_cache ex_procs).2 in
  ex_action (processPolicyLookup None ex_event (ex_rule "nc" "/bin/nc" "") s1) = Some PolicyActionDeny /\
  ex_action (processPolicyLookup None ex_event (ex_rule "ls" "/bin/ls" "") s1) = Some PolicyActionAllow.
Proof.
  intros order s1.
  assert (Hall : forall ppe, exists v s2, processPolicyLookup None ex_event ppe s1 = Done (inr v, s2) /\
    pe_Action (pv_proc v) = enforced_action true
      (allows_parent (container_rules "c1" (ex_profile "nv.web" [ex_rule "*" "/bin/*" PolicyActionAllow]) (map_to_list ex_cache))
        (pe_Name ppe) "sh" "/bin/sh")
      match rules_verdict (container_rules "c1" (ex_profile "nv.web" [ex_rule "*" "/bin/*" PolicyActionAllow]) (map_to_list ex_cache)) ppe with
      | Some a => a
      | None => PolicyActionDeny
      end).
  { intros ppe.
    destruct (protected_process_verdict (fun _ _ => None) order ex_cache ex_cache
      (ex_profile "nv.web" [ex_rule "*" "/bin/*" PolicyActionAllow]) None ex_procs "c1" ex_container (ex_profile "nv.web" [])
      ex_event ppe) as (v & s2 & Hv & Ha).
    - unfold visits. vm_compute. apply Permutation_swap || done.
    - reflexivity.
    - reflexivity.
    - reflexivity.
    - split_and!; split; vm_compute; try (repeat constructor; by (left + right));
        intros; set_solver.
    - split; try (by vm_compute); vm_compute; eauto.
    - by split.
    - exists v, s2. split; [exact Hv|exact Ha]. }
  split.
  - destruct (Hall (ex_rule "nc" "/bin/nc" "")) as (v & s2 & -> & Ha). simpl. rewrite Ha. reflexivity.
  - destruct (Hall (ex_rule "ls" "/bin/ls" "")) as (v & s2 & -> & Ha). simpl. rewrite Ha. reflexivity.
Defined.

(** ** Modes other than protect never deny *)

Lemma ProcessPolicyLookup_monitor hash prf name id proc s r s' :
  ProcessPolicyLookup hash prf name id proc s = Done (Some r, s') ->
  pe_Action proc <> PolicyActionDeny -> lr_mode r <> PolicyModeEnforce -> pe_Action (lr_proc r) <> PolicyActionDeny.
Proof.
  unfold ProcessPolicyLookup, hash_action, defaultProcessAction.
  destruct (ObtainProcessPolicy name id s) as [[profile|] s1]; [|done].
  intros Hr Hp. repeat case_match; simplify_eq/=; intros Hm; try done;
    rewrite ?negb_false_iff, ?bool_decide_eq_true, ?bool_decide_eq_false in *; congruence.
Qed.

(** The enforcer tells to deny a process only where the group is in the
    protect mode: in the other modes the action is to learn, to report a
    violation, to check the application or to let the process be. *)
Theorem only_protect_denies prf ev ppe s v s2 :
  processPolicyLookup prf ev ppe s = Done (inr v, s2) ->
  pe_Action ppe <> PolicyActionDeny ->
  pv_mode v <> PolicyModeEnforce -> pe_Action (pv_proc v) <> PolicyActionDeny.
Proof.
  unfold processPolicyLookup. destruct (getContainerService (pv_id ev) s) as [[svc cap] nv].
  case_bool_decide; [done|].
  destruct (ProcessPolicyLookup _ _ _ _ _ _) as [[[r|] s1]|] eqn:Hr; cbn [mbind outcome_bind]; try done.
  intros Hv Hp. assert (Hl := ProcessPolicyLookup_monitor _ _ _ _ _ _ _ _ Hr Hp).
  intros Hm. assert (Hmr : lr_mode r <> PolicyModeEnforce).
  { intros He. apply Hm. revert Hv. repeat case_match; intros; simplify_eq/=; done. }
  specialize (Hl Hmr). revert Hv. rewrite (bool_decide_eq_false_2 (lr_mode r = _)) by done. simpl.
  repeat case_match; intros; simplify_eq/=; done.
Qed.

(** The same container in the monitor mode. *)
Lemma only_protect_denies_witness :
  let s := set_wlProfileMap {[ "c1" := {| wp_proc := Some {|
      pp_Group := "nv.web"; pp_AlertDisable := false; pp_HashEnable := false; pp_Mode := PolicyModeEvaluate;
      pp_Baseline := ""; pp_Process := [ex_rule "nc" "/bin/nc" PolicyActionDeny] |}; wp_procCalculated := true |} ]} ex_procs in
  let r := processPolicyLookup None ex_event (ex_rule "nc" "/bin/nc" "") s in
  ex_action r = Some PolicyActionViolate /\
  match r with Done (inr v, _) => pe_Action (pv_proc v) <> PolicyActionDeny | _ => False end.
Proof.
  intros s r. assert (Hr : ex_action r = Some PolicyActionViolate) by reflexivity. split; [exact Hr|].
  assert (Hm : match r with Done (inr v, _) => pv_mode v = PolicyModeEvaluate | _ => False end) by reflexivity.
  destruct r as [[[err|v] s2]|] eqn:Heq; [done| |done].
  apply (only_protect_denies None ex_event (ex_rule "nc" "/bin/nc" "") s v s2); [exact Heq|done|].
  rewrite Hm. done.
Defined.

(** ** Where the code departs from what it means *)

(** A rule for a directory also matches in a directory whose name begins with
    that name. *)
Example directory_prefix :
  MatchProfileProcess (ex_rule "*" "/usr/bin/*" PolicyActionAllow) (ex_rule "nc" "/usr/bin2/nc" "") = true.
Proof. reflexivity. Qed.

(** Two rules that differ may have one key: the first is lost. *)
Example colon_keys_collide :
  let deny := ex_rule "a" "b:/c" PolicyActionDeny in
  let other := ex_rule "a:b" "/c" PolicyActionDeny in
  mergeProcessProfiles [deny; other] = [other].
Proof. reflexivity. Qed.

(** In the discover mode the group's profile is read a second time, after its
    lock was released: deleted in between, it is dereferenced as nil. *)
Example deleted_profile_panics :
  let rule := {| pe_Name := "nc"; pe_Path := "/bin/nc"; pe_Hash := ""; pe_Action := PolicyActionAllow;
    pe_CfgType := UserCreated; pe_Uuid := ""; pe_DerivedGroup := "fed.web"; pe_AllowFileUpdate := false; pe_ProbeCmds := [] |} in
  let s := set_wlProfileMap {[ "c1" := {| wp_proc := Some {|
      pp_Group := "nv.web"; pp_AlertDisable := false; pp_HashEnable := false; pp_Mode := PolicyModeLearn;
      pp_Baseline := ""; pp_Process := [rule] |}; wp_procCalculated := true |} ]} ex_procs in
  panics (ProcessPolicyLookup None (ProcessPolicy (DeleteProcessPolicy "nv.web" s) !! "nv.web")
            "nv.web" "c1" (ex_rule "nc" "/bin/nc" "") s).
Proof. by vm_compute. Qed.

(** A group whose profile had probe commands keeps the mark when an update
    has none. *)
Example probe_mark_stays :
  let probe := {| pe_Name := "sh"; pe_Path := "*"; pe_Hash := ""; pe_Action := PolicyActionAllow;
    pe_CfgType := UserCreated; pe_Uuid := ""; pe_DerivedGroup := ""; pe_AllowFileUpdate := false; pe_ProbeCmds := ["ls"] |} in
  let s := (UpdateProcessPolicy "nv.web" (ex_profile "nv.web" [probe]) ex_procs).2 in
  let s := (UpdateProcessPolicy "nv.web" (ex_profile "nv.web" []) s).2 in
  IsK8sGroupWithProbe "nv.web" s = true.
Proof. by vm_compute. Qed.
