(* ===== verification/NvRuleId.v ===== *)
(** * The identifiers of process rules

    controller/ruleid/rule_uuid.go keeps, for every identifier of a process
    rule the controller has seen, the rule and whether it is still in force,
    so that an incident can be traced to the rule that caused it.  Profiles
    that change are put aside and handled together every ten seconds.

    The sets of profiles put aside are sets of pointers, each to a copy of its
    own: lists here, visited in an order that is an argument.  The times of
    the rules are not kept. *)

From Stdlib Require Import ZArith Lia.
From S2P Require Import Prelude GoLib GoText NvCriteria NvAccessObj NvRoles NvAccess NvProcess.

Record ProcRule := { rl_Active : Z; rl_Group : string; rl_Rule : CLUSProcessProfileEntry }.

Record uuidPRuleCache := {
  pendingProcProfile_u : list CLUSProcessProfile; (* update or add *)
  pendingProcProfile_d : list CLUSProcessProfile; (* delete *)
  pGrpUuidMap : gmap string (gset string);
  RuleMap : gmap string ProcRule }.

Definition set_pending (u d : list CLUSProcessProfile) (pc : uuidPRuleCache) : uuidPRuleCache := {|
  pendingProcProfile_u := u; pendingProcProfile_d := d; pGrpUuidMap := pGrpUuidMap pc; RuleMap := RuleMap pc |}.

Definition set_rules (g : gmap string (gset string)) (m : gmap string ProcRule) (pc : uuidPRuleCache) : uuidPRuleCache := {|
  pendingProcProfile_u := pendingProcProfile_u pc; pendingProcProfile_d := pendingProcProfile_d pc;
  pGrpUuidMap := g; RuleMap := m |}.

Definition setEmptyProcessRuleMap (pc : uuidPRuleCache) : uuidPRuleCache := set_rules ∅ ∅ pc.

Definition rule_cache0 : uuidPRuleCache := {|
  pendingProcProfile_u := []; pendingProcProfile_d := []; pGrpUuidMap := ∅; RuleMap := ∅ |}.

Definition AddProcesProfile (pp : CLUSProcessProfile) (pc : uuidPRuleCache) : uuidPRuleCache :=
  set_pending (pendingProcProfile_u pc ++ [pp]) (pendingProcProfile_d pc) pc.

Definition DeleteProcesProfile (pp : CLUSProcessProfile) (pc : uuidPRuleCache) : uuidPRuleCache :=
  set_pending (pendingProcProfile_u pc) (pendingProcProfile_d pc ++ [pp]) pc.

Definition ResetProcessUuidRuleMap (pc : uuidPRuleCache) : bool * uuidPRuleCache :=
  (true, setEmptyProcessRuleMap pc).

Definition CLUSReservedUuidPrefix := "00000000-0000-0000-0000-0000000000".

(** [gen] gives the identifiers [uuid.New] makes, one after the other. *)
Fixpoint NewUuid_loop (cnt : nat) (gen : nat -> string) (i : nat) : string :=
  match cnt with
  | O => ""
  | S cnt' => if negb (HasPrefix (gen i) CLUSReservedUuidPrefix) then gen i else NewUuid_loop cnt' gen (S i)
  end.
Definition NewUuid (gen : nat -> string) : string := NewUuid_loop 255 gen 0.

Record RESTProcessUuidEntry := {
  re_Active : Z; re_Group : string; re_Name : string; re_Path : string; re_CfgType : string;
  re_Uuid : string; re_Action : string }.

Definition TCfgTypeToApi (cfg : TCfgType) : string :=
  match cfg with
  | Learned => "learned" | UserCreated => "user_created" | GroundCfg => "ground" | FederalCfg => "federal"
  | SystemDefined => "system_defined" | CfgNone => "user_created"
  end.

Definition pRule2ApiEntry (r : ProcRule) : RESTProcessUuidEntry := {|
  re_Active := rl_Active r; re_Group := rl_Group r; re_Name := pe_Name (rl_Rule r); re_Path := pe_Path (rl_Rule r);
  re_CfgType := TCfgTypeToApi (pe_CfgType (rl_Rule r)); re_Uuid := pe_Uuid (rl_Rule r); re_Action := pe_Action (rl_Rule r) |}.

(** The reserved identifiers that stand for a cause rather than a rule. *)
Definition reserved_names : list (string * string) :=
  [(CLUSReservedUuidNotAllowed, "<not_in_profile>");
   ("00000000-0000-0000-0000-000000000002", "<tunnel_proc>");
   ("00000000-0000-0000-0000-000000000003", "<root_escal>");
   ("00000000-0000-0000-0000-000000000001", "<RiskyApp>");
   ("00000000-0000-0000-0000-000000000004", "<docker cp>")].

Definition fillSystemResevedProcessRule (uuid : string) : option RESTProcessUuidEntry :=
  if negb (HasPrefix uuid CLUSReservedUuidPrefix) then None
  else
    p ← List.find (fun p => bool_decide (p.1 = uuid)) reserved_names;
    Some {| re_Active := 1; re_Group := "system-defined"; re_Name := p.2; re_Path := "<any>";
            re_CfgType := "system_defined"; re_Uuid := uuid; re_Action := PolicyActionCheckApp |}.

(** What the cache asks of the rest of the controller: the roles, and the
    groups by name once [SetGetGroupWithoutLockFunc] was called. *)
Section cache.
Context (Compile : string -> option (string -> bool)) (rs : roles) (range : gset string -> list string).
Context (funcGetGroupWithoutLock : option (string -> option CLUSGroup)).

Definition findProcessRule (uuid : string) (acc : AccessControl) (pc : uuidPRuleCache) : outcome (option ProcRule) :=
  match RuleMap pc !! uuid with
  | None => Done None
  | Some pRule =>
      authorized ← match funcGetGroupWithoutLock with
                   | None => Done true
                   | Some f => Authorize Compile rs range acc
                                 (OProcRule (rl_Group pRule) (pe_CfgType (rl_Rule pRule)))
                                 (Some (fun g => Some (OGroup (f g))))
                   end;
      Done (if authorized : bool then Some pRule else None)
  end.

(** The loop over the identifiers that are gone; each pass changes the rule of
    its own. *)
Fixpoint deactivate (gone : list string) (acc : AccessControl) (pc : uuidPRuleCache) : outcome uuidPRuleCache :=
  match gone with
  | [] => Done pc
  | k :: gone' =>
      r ← findProcessRule k acc pc;
      deactivate gone' acc
        match r with
        | Some rule =>
            set_rules (pGrpUuidMap pc)
              (<[k := {| rl_Active := 0; rl_Group := rl_Group rule; rl_Rule := rl_Rule rule |}]> (RuleMap pc)) pc
        | None => pc
        end
  end.

Definition add_rule (pp : CLUSProcessProfile) (added : gset string) (m : gmap string ProcRule)
    (ppe : CLUSProcessProfileEntry) : gmap string ProcRule :=
  if bool_decide (pe_Uuid ppe ∈ added)
  then <[pe_Uuid ppe := {| rl_Active := 1; rl_Group := pp_Group pp; rl_Rule := ppe |}]> m else m.

Definition profile_uuids (pp : CLUSProcessProfile) : gset string := list_to_set (pe_Uuid <$> pp_Process pp).

Definition handleProcessProfile (pp : CLUSProcessProfile) (bDelete : bool) (acc : AccessControl) (pc : uuidPRuleCache)
  : outcome uuidPRuleCache :=
  let previous := default ∅ (pGrpUuidMap pc !! pp_Group pp) in
  let current := if bDelete then ∅ else profile_uuids pp in
  let pc := set_rules (<[pp_Group pp := current]> (pGrpUuidMap pc)) (RuleMap pc) pc in
  pc ← deactivate (elements (previous ∖ current)) acc pc;
  Done (set_rules (pGrpUuidMap pc) (foldl (add_rule pp (current ∖ previous)) (RuleMap pc) (pp_Process pp)) pc).

Fixpoint handle_all (pps : list CLUSProcessProfile) (bDelete : bool) (acc : AccessControl) (pc : uuidPRuleCache)
  : outcome uuidPRuleCache :=
  match pps with
  | [] => Done pc
  | pp :: pps' => pc ← handleProcessProfile pp bDelete acc pc; handle_all pps' bDelete acc pc
  end.

(** [ord_d] and [ord_u] are the orders in which the two sets are visited. *)
Definition calculte_uuid_rules (ord_d ord_u : list CLUSProcessProfile) (acc : AccessControl) (pc : uuidPRuleCache)
  : outcome uuidPRuleCache :=
  pc ← handle_all ord_d true acc (set_pending [] [] pc);
  handle_all ord_u false acc pc.

Definition FindProcessRuleToRest (uuid : string) (acc : AccessControl) (pc : uuidPRuleCache)
  : outcome (option RESTProcessUuidEntry) :=
  match fillSystemResevedProcessRule uuid with
  | Some entry => Done (Some entry)
  | None => r ← findProcessRule uuid acc pc; Done (option_map pRule2ApiEntry r)
  end.
End cache.

(** ** What the cache knows *)

Section exact.
Context (Compile : string -> option (string -> bool)) (rs : roles) (range : gset string -> list string).
Context (getGroup : option (string -> option CLUSGroup)).
Context (Hrs : roles_wf rs).

#[local] Abbreviation acc := NewFedAdminAccessControl.
#[local] Abbreviation handle := (handleProcessProfile Compile rs range getGroup).
#[local] Abbreviation calculate := (calculte_uuid_rules Compile rs range getGroup).

Lemma proc_rule_domain r f :
  exists d1 d2, GetDomain range (OProcRule (rl_Group r) (pe_CfgType (rl_Rule r)))
    (Some (fun g => Some (OGroup (f g)))) = Done (d1, d2).
Proof.
  simpl. unfold InGroup_GetDomain, Named_GetDomain, assert_group. case_bool_decide; [eauto|].
  simpl. destruct (f _); eauto.
Qed.

Lemma find_fed_admin u pc : findProcessRule Compile rs range getGroup u acc pc = Done (RuleMap pc !! u).
Proof.
  unfold findProcessRule. destruct (RuleMap pc !! u) as [r|]; [|done]. destruct getGroup as [f|]; [|done].
  destruct (proc_rule_domain r f) as (d1 & d2 & HD). by rewrite (fed_admin_authorize _ _ _ _ _ _ _ Hrs HD).
Qed.

Lemma reserved_rule_entry u e : fillSystemResevedProcessRule u = Some e -> re_Active e = 1%Z /\ re_Uuid e = u.
Proof.
  unfold fillSystemResevedProcessRule. destruct (negb _); [done|].
  destruct (List.find _ _); [|done]. by intros [= <-].
Qed.

Definition inactive (r : ProcRule) : ProcRule :=
  {| rl_Active := 0; rl_Group := rl_Group r; rl_Rule := rl_Rule r |}.

Lemma deactivate_fed_admin gone pc :
  exists m, deactivate Compile rs range getGroup gone acc pc = Done (set_rules (pGrpUuidMap pc) m pc) /\
    forall u, m !! u = if bool_decide (u ∈ gone) then inactive <$> RuleMap pc !! u else RuleMap pc !! u.
Proof.
  revert pc. induction gone as [|k gone IH]; intros pc.
  - exists (RuleMap pc). split; [by destruct pc|]. intros u. by rewrite bool_decide_eq_false_2 by set_solver.
  - cbn [deactivate]. rewrite find_fed_admin. cbn [mbind outcome_bind].
    destruct (RuleMap pc !! k) as [r|] eqn:Hk.
    + destruct (IH (set_rules (pGrpUuidMap pc) (<[k := inactive r]> (RuleMap pc)) pc)) as (m & Hm & Hu).
      exists m. split; [exact Hm|]. intros u. rewrite Hu. cbn [set_rules RuleMap].
      destruct (decide (u = k)) as [->|Hne].
      * rewrite lookup_insert_eq, (bool_decide_eq_true_2 (k ∈ k :: gone)) by set_solver. rewrite Hk.
        by destruct (bool_decide (k ∈ gone)).
      * rewrite lookup_insert_ne by done. erewrite (bool_decide_ext (u ∈ k :: gone)); [done|set_solver].
    + destruct (IH pc) as (m & Hm & Hu). exists m. split; [exact Hm|]. intros u. rewrite Hu.
      destruct (decide (u = k)) as [->|Hne].
      * rewrite Hk. by repeat case_match.
      * erewrite (bool_decide_ext (u ∈ k :: gone)); [done|set_solver].
Qed.

(** The rule that counts where a profile has several of one identifier. *)
Definition last_rule (u : string) (ps : list CLUSProcessProfileEntry) : option CLUSProcessProfileEntry :=
  last (filter (fun e => pe_Uuid e = u) ps).

Lemma last_rule_cons u p ps :
  last_rule u (p :: ps) =
  match last_rule u ps with Some e => Some e | None => if bool_decide (pe_Uuid p = u) then Some p else None end.
Proof.
  unfold last_rule. rewrite filter_cons. case_bool_decide as Hp.
  - rewrite decide_True by done. by rewrite last_cons.
  - rewrite decide_False by done. by destruct (last _).
Qed.

Lemma last_rule_is_Some u ps : is_Some (last_rule u ps) <-> u ∈ pe_Uuid <$> ps.
Proof.
  induction ps as [|p ps IH]; [split; [by intros []|set_solver]|].
  rewrite last_rule_cons, fmap_cons, elem_of_cons, <-IH. destruct (last_rule u ps) as [e|]; simpl.
  - split; [intros _; right; eauto|eauto].
  - case_bool_decide; split; [auto|eauto|by intros []|]. intros [->|[]]; congruence.
Qed.

Lemma last_rule_uuid u ps e : last_rule u ps = Some e -> pe_Uuid e = u.
Proof.
  intros He%last_Some_elem_of. by apply list_elem_of_filter in He as [? _].
Qed.

Definition active_rule (pp : CLUSProcessProfile) (e : CLUSProcessProfileEntry) : ProcRule :=
  {| rl_Active := 1; rl_Group := pp_Group pp; rl_Rule := e |}.

Lemma add_rules_lookup pp added ps m u :
  foldl (add_rule pp added) m ps !! u =
  match last_rule u ps with
  | Some e => if bool_decide (u ∈ added) then Some (active_rule pp e) else m !! u
  | None => m !! u
  end.
Proof.
  revert m. induction ps as [|p ps IH]; intros m; [done|].
  simpl. rewrite IH, last_rule_cons.
  assert (Hm : add_rule pp added m p !! u =
    if bool_decide (pe_Uuid p = u) then (if bool_decide (u ∈ added) then Some (active_rule pp p) else m !! u)
    else m !! u).
  { unfold add_rule. destruct (decide (pe_Uuid p = u)) as [Hu|Hu].
    - rewrite (bool_decide_eq_true_2 (_ = u)) by done. subst u. destruct (bool_decide (pe_Uuid p ∈ added)); [apply lookup_insert_eq|done].
    - rewrite (bool_decide_eq_false_2 (_ = u)) by done. destruct (bool_decide (pe_Uuid p ∈ added)); [by apply lookup_insert_ne|done]. }
  rewrite Hm. destruct (last_rule u ps); [by repeat case_bool_decide|]. by case_bool_decide.
Qed.

(** Every identifier belongs to one group. *)
Context (owner : string -> string).

Definition owned (pp : CLUSProcessProfile) : Prop := Forall (fun e => owner (pe_Uuid e) = pp_Group pp) (pp_Process pp).

Definition in_force (u : string) (pc : uuidPRuleCache) : bool :=
  match RuleMap pc !! u with Some r => (rl_Active r =? 1)%Z | None => false end.

(** The identifiers of a group are those of its profile; the rules in force
    are those of the identifiers of the groups; a rule is kept under its own
    identifier with the group the identifier belongs to. *)
Record cache_inv (pc : uuidPRuleCache) : Prop := {
  ci_owner g ids u : pGrpUuidMap pc !! g = Some ids -> u ∈ ids -> owner u = g;
  ci_force u : in_force u pc = true <-> u ∈ default ∅ (pGrpUuidMap pc !! owner u);
  ci_rule u r : RuleMap pc !! u = Some r ->
    rl_Group r = owner u /\ pe_Uuid (rl_Rule r) = u /\ (rl_Active r = 0 \/ rl_Active r = 1)%Z }.

(** What becomes of the rule of an identifier when a profile of its group is
    handled: a rule in force stays as it is while the profile has its
    identifier, a rule that is new or back is that of the profile, and a rule
    the profile does not have is inactive. *)
Definition handled_rule (pp : CLUSProcessProfile) (bDelete : bool) (pc : uuidPRuleCache) (u : string) : option ProcRule :=
  match (if bDelete then None else last_rule u (pp_Process pp)) with
  | Some e => if in_force u pc then RuleMap pc !! u else Some (active_rule pp e)
  | None => inactive <$> RuleMap pc !! u
  end.

Definition of_group (u : string) (pp : CLUSProcessProfile) : bool := bool_decide (pp_Group pp = owner u).

(** The rule of an identifier after profiles of different groups. *)
Definition pass_rule (pps : list CLUSProcessProfile) (bDelete : bool) (pc : uuidPRuleCache) (u : string) : option ProcRule :=
  match List.find (of_group u) pps with
  | Some pp => handled_rule pp bDelete pc u
  | None => RuleMap pc !! u
  end.

(** The rule of an identifier after a round of the timer. *)
Definition round_rule (ord_d ord_u : list CLUSProcessProfile) (pc : uuidPRuleCache) (u : string) : option ProcRule :=
  if existsb (of_group u) ord_u then pass_rule ord_u false pc u else pass_rule ord_d true pc u.

Definition current_uuids (pp : CLUSProcessProfile) (bDelete : bool) : gset string :=
  if bDelete then ∅ else profile_uuids pp.

Lemma current_owned pp bDelete u : owned pp -> u ∈ current_uuids pp bDelete -> owner u = pp_Group pp.
Proof.
  intros Ho. unfold current_uuids, profile_uuids. destruct bDelete; [set_solver|].
  rewrite elem_of_list_to_set, list_elem_of_fmap. intros (e & -> & He).
  by apply (proj1 (Forall_forall _ _) Ho).
Qed.

Lemma current_last_rule pp bDelete u :
  u ∈ current_uuids pp bDelete <-> is_Some (if bDelete then None else last_rule u (pp_Process pp)).
Proof.
  unfold current_uuids, profile_uuids. destruct bDelete; [split; [set_solver|by intros []]|].
  by rewrite elem_of_list_to_set, last_rule_is_Some.
Qed.

Lemma inactive_id r : rl_Active r = 0%Z -> inactive r = r.
Proof. destruct r; simpl. by intros ->. Qed.

(** A rule out of force is inactive already. *)
Lemma not_in_force u pc : cache_inv pc -> in_force u pc = false -> inactive <$> RuleMap pc !! u = RuleMap pc !! u.
Proof.
  intros Hinv. unfold in_force. destruct (RuleMap pc !! u) as [r|] eqn:Hr; [|done]. simpl.
  destruct (ci_rule _ Hinv u r Hr) as (_ & _ & [H|H]); rewrite H; [|done]. intros _. by rewrite inactive_id.
Qed.

(** The rules after a profile is handled. *)
Lemma handle_rules pp bDelete pc :
  owned pp -> cache_inv pc ->
  exists pc', handle pp bDelete acc pc = Done pc' /\
    (forall u, RuleMap pc' !! u = if of_group u pp then handled_rule pp bDelete pc u else RuleMap pc !! u) /\
    pGrpUuidMap pc' = <[pp_Group pp := current_uuids pp bDelete]> (pGrpUuidMap pc) /\
    pendingProcProfile_u pc' = pendingProcProfile_u pc /\ pendingProcProfile_d pc' = pendingProcProfile_d pc.
Proof.
  intros Ho Hinv. unfold handleProcessProfile. fold (current_uuids pp bDelete).
  set (previous := default ∅ (pGrpUuidMap pc !! pp_Group pp)). set (current := current_uuids pp bDelete).
  set (pc1 := set_rules _ _ pc).
  destruct (deactivate_fed_admin (elements (previous ∖ current)) pc1) as (m & -> & Hm).
  cbn [mbind outcome_bind]. eexists. split; [reflexivity|]. split; [|done].
  intros u. cbn [set_rules RuleMap]. rewrite add_rules_lookup, Hm. cbn [set_rules RuleMap pc1].
  rewrite (bool_decide_ext (u ∈ elements (previous ∖ current)) (u ∈ previous ∖ current)) by apply elem_of_elements.
  pose proof (current_last_rule pp bDelete u) as Hcur. fold current in Hcur.
  destruct (of_group u pp) eqn:Hg; unfold of_group in Hg; [apply bool_decide_eq_true in Hg|apply bool_decide_eq_false in Hg].
  - pose proof (ci_force _ Hinv u) as Hf. rewrite <-Hg in Hf. fold previous in Hf.
    unfold handled_rule. destruct (if bDelete then None else last_rule u (pp_Process pp)) as [e|] eqn:He.
    + assert (Hc : u ∈ current) by (apply Hcur; eauto). rewrite (bool_decide_eq_false_2 (u ∈ previous ∖ current)) by set_solver.
      assert (last_rule u (pp_Process pp) = Some e) as -> by by destruct bDelete.
      destruct (in_force u pc) eqn:Hin.
      * rewrite bool_decide_eq_false_2; [done|]. assert (u ∈ previous) by (by apply Hf). set_solver.
      * rewrite bool_decide_eq_true_2; [done|]. assert (u ∉ previous) by (intros ?%Hf; congruence). set_solver.
    + assert (Hc : u ∉ current) by (intros []%Hcur; done). rewrite (bool_decide_eq_false_2 (u ∈ current ∖ previous)) by set_solver.
      assert (Hk : (if bool_decide (u ∈ previous ∖ current) then inactive <$> RuleMap pc !! u else RuleMap pc !! u) =
                   inactive <$> RuleMap pc !! u).
      { case_bool_decide as Hgone; [done|]. symmetry. apply not_in_force; [done|].
        destruct (in_force u pc); [|done]. assert (u ∈ previous) by (by apply Hf). set_solver. }
      rewrite Hk. by destruct (last_rule u (pp_Process pp)).
  - assert (Hc : u ∉ current) by (intros H%current_owned; congruence).
    assert (Hp : u ∉ previous).
    { unfold previous. destruct (pGrpUuidMap pc !! pp_Group pp) as [ids|] eqn:Hids; [|set_solver].
      intros H. apply Hg. symmetry. by eapply (ci_owner _ Hinv). }
    rewrite !bool_decide_eq_false_2 by set_solver. by destruct (last_rule u (pp_Process pp)).
Qed.

Lemma in_force_lookup u pc pc' : RuleMap pc' !! u = RuleMap pc !! u -> in_force u pc' = in_force u pc.
Proof. unfold in_force. by intros ->. Qed.

(** A handled rule is in force when the profile has its identifier. *)
Lemma handled_in_force pp bDelete pc pc' u :
  RuleMap pc' !! u = handled_rule pp bDelete pc u ->
  in_force u pc' = true <-> u ∈ current_uuids pp bDelete.
Proof.
  intros Hr. rewrite current_last_rule. unfold in_force at 1. rewrite Hr. unfold handled_rule.
  destruct (if bDelete then None else last_rule u (pp_Process pp)) as [e|].
  - split; [by eauto|]. intros _. destruct (in_force u pc) eqn:Hf; [exact Hf|done].
  - split; [|by intros []]. by destruct (RuleMap pc !! u).
Qed.

Lemma handled_rule_kept pp bDelete pc u r :
  cache_inv pc -> pp_Group pp = owner u -> handled_rule pp bDelete pc u = Some r ->
  rl_Group r = owner u /\ pe_Uuid (rl_Rule r) = u /\ (rl_Active r = 0 \/ rl_Active r = 1)%Z.
Proof.
  intros Hinv Hg. unfold handled_rule.
  destruct (if bDelete then None else last_rule u (pp_Process pp)) as [e|] eqn:He.
  - destruct (in_force u pc); [by apply (ci_rule _ Hinv)|]. intros [= <-].
    split_and!; [done| |by right]. apply (last_rule_uuid _ (pp_Process pp)). by destruct bDelete.
  - intros Hr. apply fmap_Some in Hr as (r' & Hr' & ->).
    destruct (ci_rule _ Hinv u r' Hr') as (? & ? & _). split_and!; [done|done|by left].
Qed.

Lemma handle_inv pp bDelete pc :
  owned pp -> cache_inv pc ->
  exists pc', handle pp bDelete acc pc = Done pc' /\ cache_inv pc' /\
    (forall u, RuleMap pc' !! u = if of_group u pp then handled_rule pp bDelete pc u else RuleMap pc !! u) /\
    pendingProcProfile_u pc' = pendingProcProfile_u pc /\ pendingProcProfile_d pc' = pendingProcProfile_d pc.
Proof.
  intros Ho Hinv. destruct (handle_rules pp bDelete pc Ho Hinv) as (pc' & Hh & Hr & Hg & Hpend).
  exists pc'. split; [done|]. split; [|done]. split.
  - intros g ids u. rewrite Hg. intros Hl Hu. apply lookup_insert_Some in Hl as [[<- <-]|[_ Hl]].
    + by eapply current_owned.
    + by eapply (ci_owner _ Hinv).
  - intros u. specialize (Hr u). rewrite Hg. unfold of_group in Hr. case_bool_decide as Hgu.
    + rewrite <-Hgu, lookup_insert_eq. by eapply handled_in_force.
    + rewrite lookup_insert_ne, (in_force_lookup u pc) by done. apply (ci_force _ Hinv).
  - intros u r. rewrite Hr. unfold of_group. case_bool_decide as Hgu; [by apply handled_rule_kept|apply (ci_rule _ Hinv)].
Qed.

Lemma find_of_group_None u pps : owner u ∉ pp_Group <$> pps -> List.find (of_group u) pps = None.
Proof.
  induction pps as [|pp pps IH]; [done|]. rewrite fmap_cons, not_elem_of_cons. intros [H1 H2].
  simpl. unfold of_group at 1. rewrite bool_decide_eq_false_2 by congruence. by apply IH.
Qed.

Lemma handled_rule_ext pp bDelete pc pc' u :
  RuleMap pc' !! u = RuleMap pc !! u -> handled_rule pp bDelete pc' u = handled_rule pp bDelete pc u.
Proof. intros H. unfold handled_rule. by rewrite (in_force_lookup u pc pc' H), H. Qed.

(** One pass over a list of profiles; where no two are of one group, every
    rule is that of the profile of its group. *)
Lemma handle_all_inv pps bDelete pc :
  Forall owned pps -> cache_inv pc ->
  exists pc', handle_all Compile rs range getGroup pps bDelete acc pc = Done pc' /\ cache_inv pc' /\
    (NoDup (pp_Group <$> pps) -> forall u, RuleMap pc' !! u = pass_rule pps bDelete pc u) /\
    pendingProcProfile_u pc' = pendingProcProfile_u pc /\ pendingProcProfile_d pc' = pendingProcProfile_d pc.
Proof.
  intros Ho. revert pc. induction Ho as [|pp pps Hp Ho IH]; intros pc Hinv; [by exists pc|].
  cbn [handle_all].
  destruct (handle_inv pp bDelete pc Hp Hinv) as (pc1 & -> & Hinv1 & Hr1 & Hu1 & Hd1). cbn [mbind outcome_bind].
  destruct (IH pc1 Hinv1) as (pc2 & -> & Hinv2 & Hr2 & Hu2 & Hd2).
  exists pc2. split_and!; [done|done| |congruence|congruence].
  intros [Hni Hnd]%NoDup_cons u. rewrite Hr2 by done. specialize (Hr1 u). unfold pass_rule. simpl.
  destruct (of_group u pp) eqn:Hg.
  - unfold of_group in Hg. rewrite bool_decide_eq_true in Hg. by rewrite find_of_group_None by (by rewrite <-Hg).
  - destruct (List.find (of_group u) pps); [by apply handled_rule_ext|done].
Qed.

(** The calls the cache takes, and the work of the timer. *)
Inductive rule_step (pc : uuidPRuleCache) : uuidPRuleCache -> Prop :=
| rs_add pp : owned pp -> rule_step pc (AddProcesProfile pp pc)
| rs_delete pp : owned pp -> rule_step pc (DeleteProcesProfile pp pc)
| rs_reset : rule_step pc (ResetProcessUuidRuleMap pc).2
| rs_timer ord_d ord_u pc' :
    ord_d ≡ₚ pendingProcProfile_d pc -> ord_u ≡ₚ pendingProcProfile_u pc ->
    calculate ord_d ord_u acc pc = Done pc' -> rule_step pc pc'.

Definition pending_owned (pc : uuidPRuleCache) : Prop :=
  Forall owned (pendingProcProfile_u pc) /\ Forall owned (pendingProcProfile_d pc).

Lemma cache_inv_empty pc : pGrpUuidMap pc = ∅ -> RuleMap pc = ∅ -> cache_inv pc.
Proof.
  intros Hg Hm. split; [by rewrite Hg| |by rewrite Hm].
  intros u. unfold in_force. rewrite Hg, Hm, !lookup_empty. simpl. split; [done|set_solver].
Qed.

(** Neither the calls nor the timer depend on what is put aside. *)
Lemma cache_inv_pending u d pc : cache_inv pc -> cache_inv (set_pending u d pc).
Proof. intros [H1 H2 H3]. by split. Qed.

Lemma calculate_inv ord_d ord_u pc :
  cache_inv pc -> Forall owned ord_d -> Forall owned ord_u ->
  exists pc', calculate ord_d ord_u acc pc = Done pc' /\ cache_inv pc' /\ pending_owned pc' /\
    (NoDup (pp_Group <$> ord_d ++ ord_u) -> forall u, RuleMap pc' !! u = round_rule ord_d ord_u pc u).
Proof.
  intros Hinv Hd Hu. unfold calculte_uuid_rules.
  destruct (handle_all_inv ord_d true (set_pending [] [] pc)) as (pc1 & -> & Hinv1 & Hr1 & Hu1 & Hd1);
    [done|by apply cache_inv_pending|]. cbn [mbind outcome_bind].
  destruct (handle_all_inv ord_u false pc1) as (pc2 & -> & Hinv2 & Hr2 & Hu2 & Hd2); [done|done|].
  exists pc2. split_and!; [done|done| |].
  - unfold pending_owned. rewrite Hu2, Hd2, Hu1, Hd1. split; constructor.
  - rewrite fmap_app. intros (Nd & Hdis & Nu)%NoDup_app u. rewrite Hr2 by done. specialize (Hr1 Nd u).
    change (pass_rule ord_d true (set_pending [] [] pc) u) with (pass_rule ord_d true pc u) in Hr1.
    unfold round_rule. destruct (existsb (of_group u) ord_u) eqn:He.
    + apply existsb_exists in He as (pp & Hpp%list_elem_of_In & Hg%bool_decide_eq_true).
      assert (owner u ∉ pp_Group <$> ord_d) as Hn.
      { intros Hin. apply (Hdis _ Hin). apply list_elem_of_fmap. eauto. }
      unfold pass_rule in Hr1. rewrite find_of_group_None in Hr1 by done.
      unfold pass_rule. destruct (List.find (of_group u) ord_u); [by apply handled_rule_ext|done].
    + unfold pass_rule at 1. destruct (List.find (of_group u) ord_u) as [pp|] eqn:Hf; [|done].
      apply find_some in Hf as [Hin Hg]. assert (existsb (of_group u) ord_u = true); [|congruence].
      apply existsb_exists. eauto.
Qed.

Lemma rule_step_inv pc pc' : rule_step pc pc' -> cache_inv pc /\ pending_owned pc -> cache_inv pc' /\ pending_owned pc'.
Proof.
  intros Hs [Hinv [Hu Hd]]. destruct Hs as [pp Hp|pp Hp| |ord_d ord_u pc' H1 H2 Hc].
  - split; [by apply cache_inv_pending|]. split; [|done]. apply Forall_app. by split; [|constructor].
  - split; [by apply cache_inv_pending|]. split; [done|]. apply Forall_app. by split; [|constructor].
  - split; [|done]. by apply cache_inv_empty.
  - destruct (calculate_inv ord_d ord_u pc) as (pc2 & Hc2 & Hi & Hp & _); [done|by rewrite H1|by rewrite H2|].
    rewrite Hc2 in Hc. by injection Hc as <-.
Qed.

Lemma reachable_inv pc : rtc rule_step rule_cache0 pc -> cache_inv pc /\ pending_owned pc.
Proof.
  apply (rtc_invariant rule_step (fun pc => cache_inv pc /\ pending_owned pc)); [intros ? ?; apply rule_step_inv|].
  split; [by apply cache_inv_empty|]. by split; constructor.
Qed.

(** No caller makes a lookup panic, and none sees more than the federal
    administrator. *)
Lemma find_caller u caller pc :
  exists r, findProcessRule Compile rs range getGroup u caller pc = Done r /\ (r = None \/ r = RuleMap pc !! u).
Proof.
  unfold findProcessRule. destruct (RuleMap pc !! u) as [r|]; [|eauto]. destruct getGroup as [f|]; [|eauto].
  destruct (proc_rule_domain r f) as (d1 & d2 & HD). unfold Authorize, authorize_with. rewrite HD.
  cbn [mbind outcome_bind]. destruct (required_masked caller) as [[gR gW] [dR dW]].
  assert (H : forall b : bool, exists o : option ProcRule, Done (if b then Some r else None) = Done o /\ (o = None \/ o = Some r))
    by (intros []; eauto).
  destruct d1, d2; try apply H; destruct (_ && _); apply H.
Qed.

End exact.

Definition ex_entry (uuid : string) : CLUSProcessProfileEntry := {|
  pe_Name := "nc"; pe_Path := "/bin/nc"; pe_Hash := ""; pe_Action := PolicyActionDeny; pe_CfgType := UserCreated;
  pe_Uuid := uuid; pe_DerivedGroup := ""; pe_AllowFileUpdate := false; pe_ProbeCmds := [] |}.

Definition ex_group_profile (rules : list CLUSProcessProfileEntry) : CLUSProcessProfile := {|
  pp_Group := "nv.web"; pp_AlertDisable := false; pp_HashEnable := false; pp_Mode := PolicyModeEnforce;
  pp_Baseline := ProfileBasic; pp_Process := rules |}.

(** The active rules after one round of the timer. *)
Definition ex_active (u : string) (r : outcome uuidPRuleCache) : bool :=
  match r with
  | Done pc => match FindProcessRuleToRest glob_compile roles0 elements None u NewFedAdminAccessControl pc with
               | Done (Some e) => (re_Active e =? 1)%Z
               | _ => false
               end
  | Panicked _ => false
  end.


(** Put aside in one round, an update before the deletion of its group is
    handled after it, and the rule stays active; and of two updates of one
    group either may be handled last. *)
Example deleted_group_stays_active :
  let pp := ex_group_profile [ex_entry "u1"] in
  let pc := DeleteProcesProfile pp (AddProcesProfile pp rule_cache0) in
  ex_active "u1" (calculte_uuid_rules glob_compile roles0 elements None
    (pendingProcProfile_d pc) (pendingProcProfile_u pc) NewFedAdminAccessControl pc) = true.
Proof. by vm_compute. Qed.

Example updates_in_any_order :
  let old := ex_group_profile [ex_entry "u1"] in
  let new := ex_group_profile [ex_entry "u2"] in
  let pc := AddProcesProfile new (AddProcesProfile old rule_cache0) in
  ex_active "u2" (calculte_uuid_rules glob_compile roles0 elements None [] [old; new] NewFedAdminAccessControl pc) = true /\
  ex_active "u2" (calculte_uuid_rules glob_compile roles0 elements None [] [new; old] NewFedAdminAccessControl pc) = false.
Proof. by vm_compute. Qed.

(** An identifier made for a rule is not a reserved one. *)
Lemma NewUuid_not_reserved gen : HasPrefix (NewUuid gen) CLUSReservedUuidPrefix = false.
Proof.
  assert (H : forall cnt i, HasPrefix (NewUuid_loop cnt gen i) CLUSReservedUuidPrefix = false); [|apply H].
  induction cnt as [|cnt IH]; intros i; [done|]. cbn [NewUuid_loop].
  destruct (HasPrefix (gen i) CLUSReservedUuidPrefix) eqn:Hp; [apply IH|done].
Qed.
