(* ===== verification/NvScannerLB.v ===== *)
(** * The scanners and their load

    controller/scannerlb/scannerlb.go keeps the registered scanners, each with
    the number of scans it may still take, its credits;
    controller/rpc/scanner.go hands them out: [creditPool] is a channel of
    tokens, one for each credit, on which a scan that names no scanner waits.

    A call that scans is its beginning, up to the remote call, and its end,
    the deferred release; the remote call is the time between them.
    [scan_step] interleaves any number of calls at every point where they do
    not hold the lock. *)

From Stdlib Require Import ZArith Lia.
From S2P Require Import Prelude.

Record CLUSScanner := { sc_ID : string; sc_RPCServer : string; sc_RPCServerPort : Z }.
Record ScannerEntry := { Scanner : CLUSScanner; AvailableScanCredits : Z }.

Abbreviation ScannerLoadBalancer := (list ScannerEntry) (only parsing).

Definition entry_is (id : string) (e : ScannerEntry) : bool := bool_decide (sc_ID (Scanner e) = id).

Definition NewScannerLoadBalancer : ScannerLoadBalancer := [].

Definition RegisterScanner (s : CLUSScanner) (credits : Z) (lb : ScannerLoadBalancer) : ScannerLoadBalancer :=
  lb ++ [{| Scanner := s; AvailableScanCredits := credits |}].

Fixpoint UnregisterScanner (id : string) (lb : ScannerLoadBalancer) : option (ScannerEntry * ScannerLoadBalancer) :=
  match lb with
  | [] => None
  | e :: lb' =>
      if entry_is id e then Some (e, lb')
      else '(x, lb'') ← UnregisterScanner id lb'; Some (x, e :: lb'')
  end.

Definition GetScanner (id : string) (lb : ScannerLoadBalancer) : option ScannerEntry := List.find (entry_is id) lb.

Definition add_credit (d : Z) (e : ScannerEntry) : ScannerEntry :=
  {| Scanner := Scanner e; AvailableScanCredits := AvailableScanCredits e + d |}.

(** One credit more for the first entry of this name. *)
Fixpoint ReleaseScanCredit (id : string) (lb : ScannerLoadBalancer) : option ScannerLoadBalancer :=
  match lb with
  | [] => None
  | e :: lb' => if entry_is id e then Some (add_credit 1 e :: lb') else cons e <$> ReleaseScanCredit id lb'
  end.

(** The loop of [PickLeastLoadedScanner] from index [i]. *)
Fixpoint pick_loop (i : nat) (best : option nat) (maxScanCredits : Z) (lb : ScannerLoadBalancer) : option nat :=
  match lb with
  | [] => best
  | e :: lb' =>
      let scanCredits := AvailableScanCredits e in
      if (bool_decide (best = None) || (scanCredits >? maxScanCredits)%Z) && (scanCredits >? 0)%Z
      then pick_loop (S i) (Some i) scanCredits lb'
      else pick_loop (S i) best maxScanCredits lb'
  end.

Definition PickLeastLoadedScanner (lb : ScannerLoadBalancer) : string + CLUSScanner * ScannerLoadBalancer :=
  if bool_decide (lb = []) then inl "no scanner found"
  else match pick_loop 0 None (-1) lb with
  | Some i =>
      match lb !! i with
      | Some e => inr (Scanner e, <[i := add_credit (-1) e]> lb)
      | None => inl "index out of range"
      end
  | None => inl "no scanner available"
  end.

(** ** The manager of credits *)

Record ScanCreditManager := {
  maxConns : nat; poolCap : nat; creditPool : nat; scannerLoadBalancer : ScannerLoadBalancer }.

Definition NewScanCreditManager (maxConns scannerLBMax : nat) : ScanCreditManager := {|
  maxConns := maxConns; poolCap := scannerLBMax * (maxConns + 1); creditPool := 0;
  scannerLoadBalancer := NewScannerLoadBalancer |}.

Definition set_pool (n : nat) (m : ScanCreditManager) : ScanCreditManager := {|
  maxConns := maxConns m; poolCap := poolCap m; creditPool := n; scannerLoadBalancer := scannerLoadBalancer m |}.
Definition set_lb (lb : ScannerLoadBalancer) (m : ScanCreditManager) : ScanCreditManager := {|
  maxConns := maxConns m; poolCap := poolCap m; creditPool := creditPool m; scannerLoadBalancer := lb |}.

(** A send that does not block: dropped when the channel is full. *)
Definition signalScanCredit (m : ScanCreditManager) : ScanCreditManager :=
  if (creditPool m <? poolCap m)%nat then set_pool (S (creditPool m)) m else m.

Definition decScanningCount (sid : string) (m : ScanCreditManager) : ScanCreditManager :=
  match ReleaseScanCredit sid (scannerLoadBalancer m) with Some lb => set_lb lb m | None => m end.

Definition releaseScanCredit (sid : string) (m : ScanCreditManager) : ScanCreditManager :=
  match ReleaseScanCredit sid (scannerLoadBalancer m) with
  | Some lb => signalScanCredit (set_lb lb m)
  | None => m
  end.

(** With a token, under the lock. *)
Definition acquire_pick (m : ScanCreditManager) : (string + string) * ScanCreditManager :=
  match PickLeastLoadedScanner (scannerLoadBalancer m) with
  | inl err => (inl err, m)
  | inr (scanner, lb) => (inr (sc_ID scanner), set_lb lb m)
  end.

(** [None] where the call waits for a token. *)
Definition acquireScanCredit (m : ScanCreditManager) : option ((string + string) * ScanCreditManager) :=
  match creditPool m with
  | O => None
  | S n => Some (acquire_pick (set_pool n m))
  end.

Definition AddScanner (s : CLUSScanner) (m : ScanCreditManager) : ScanCreditManager :=
  Nat.iter (maxConns m) signalScanCredit
    (set_lb (RegisterScanner s (Z.of_nat (maxConns m)) (scannerLoadBalancer m)) m).

(** Under the lock the scanner is removed; the tokens are taken after it. *)
Definition RemoveScanner_unregister (id : string) (m : ScanCreditManager) : option (Z * ScanCreditManager) :=
  '(e, lb) ← UnregisterScanner id (scannerLoadBalancer m);
  Some (Z.max 0 (AvailableScanCredits e), set_lb lb m).

(** A receive that does not block. *)
Definition drain_one (m : ScanCreditManager) : ScanCreditManager := set_pool (creditPool m - 1) m.

Definition RemoveScanner_drain (availableSlots : Z) (m : ScanCreditManager) : ScanCreditManager :=
  Nat.iter (Z.to_nat availableSlots) drain_one m.

Definition RemoveScanner (id : string) (m : ScanCreditManager) : option ScanCreditManager :=
  '(n, m) ← RemoveScanner_unregister id m; Some (RemoveScanner_drain n m).

(** [conn]: whether the scanner can be reached; the result is whether there is
    a client. *)
Definition getScannerServiceClient (conn : bool) (sid : string) (shouldIncrementTask : bool) (m : ScanCreditManager)
  : bool * ScanCreditManager :=
  match GetScanner sid (scannerLoadBalancer m) with
  | None => (false, m)
  | Some _ =>
      if conn then
        (true, if shouldIncrementTask
               then set_lb (default (scannerLoadBalancer m) (ReleaseScanCredit sid (scannerLoadBalancer m))) m
               else m)
      else (false, m)
  end.

Definition CountScanners (m : ScanCreditManager) : nat * nat :=
  let busy := List.filter (fun s => (AvailableScanCredits s >? 0)%Z) (scannerLoadBalancer m) in
  let idle := List.filter (fun s => negb (AvailableScanCredits s >? 0)%Z) (scannerLoadBalancer m) in
  (length busy, length idle).

(** ** Scans *)

(** A scan under way: its scanner, and whether it acquired it. *)
Definition scan_task : Type := string * bool.

Definition end_scan (t : scan_task) (m : ScanCreditManager) : ScanCreditManager :=
  if t.2 then releaseScanCredit t.1 m else decScanningCount t.1 m.

(** The part the calls share: the client, and the deferred end when there is
    none. *)
Definition begin_with (conn inc : bool) (t : scan_task) (m : ScanCreditManager) : option scan_task * ScanCreditManager :=
  let '(ok, m) := getScannerServiceClient conn t.1 inc m in
  if ok then (Some t, m) else (None, end_scan t m).

Definition ScanPlatform (conn : bool) (scanner : string) (m : ScanCreditManager) : option scan_task * ScanCreditManager :=
  begin_with conn true (scanner, false) m.
Definition ScanCacheGetStat := ScanPlatform.
Definition ScanCacheGetData := ScanPlatform.

(** [ep]: whether the endpoint of the enforcer is known. *)
Definition ScanRunning (ep conn : bool) (scanner : string) (m : ScanCreditManager) : option scan_task * ScanCreditManager :=
  if ep then begin_with conn true (scanner, false) m else (None, m).

Definition begin_acquired (conn inc : bool) (m : ScanCreditManager) : option (option scan_task * ScanCreditManager) :=
  '(r, m) ← acquireScanCredit m;
  Some match r with inl _ => (None, m) | inr sid => begin_with conn inc (sid, true) m end.

Definition ScanImage (conn : bool) (scanner : string) (m : ScanCreditManager)
  : option (option scan_task * ScanCreditManager) :=
  if bool_decide (scanner = "") then begin_acquired conn false m
  else Some (begin_with conn true (scanner, false) m).

Definition ScanPackage (conn : bool) (m : ScanCreditManager) : option (option scan_task * ScanCreditManager) :=
  begin_acquired conn true m.
Definition ScanAwsLambdaFunc := ScanPackage.

(** ** What the operations do to the list *)

Lemma ReleaseScanCredit_spec id lb :
  match ReleaseScanCredit id lb with
  | Some lb' => exists l1 e l2, lb = l1 ++ e :: l2 /\ lb' = l1 ++ add_credit 1 e :: l2 /\ sc_ID (Scanner e) = id /\
      Forall (fun x => sc_ID (Scanner x) <> id) l1
  | None => Forall (fun x => sc_ID (Scanner x) <> id) lb
  end.
Proof.
  induction lb as [|e lb IH]; [by constructor|]. simpl. unfold entry_is. case_bool_decide as He.
  - by exists [], e, lb.
  - destruct (ReleaseScanCredit id lb) as [lb'|]; simpl; [|by constructor].
    destruct IH as (l1 & x & l2 & -> & -> & Hx & Hl). exists (e :: l1), x, l2. split_and!; try done. by constructor.
Qed.

Lemma UnregisterScanner_spec id lb :
  match UnregisterScanner id lb with
  | Some (e, lb') => exists l1 l2, lb = l1 ++ e :: l2 /\ lb' = l1 ++ l2 /\ sc_ID (Scanner e) = id
  | None => Forall (fun x => sc_ID (Scanner x) <> id) lb
  end.
Proof.
  induction lb as [|e lb IH]; [by constructor|]. simpl. unfold entry_is. case_bool_decide as He.
  - by exists [], lb.
  - destruct (UnregisterScanner id lb) as [[x lb']|]; simpl; [|by constructor].
    destruct IH as (l1 & l2 & -> & -> & Hx). by exists (e :: l1), l2.
Qed.

(** The choice so far, over the entries before. *)
Definition best_of (pre : ScannerLoadBalancer) (best : option nat) (maxc : Z) : Prop :=
  match best with
  | None => Forall (fun e => AvailableScanCredits e <= 0)%Z pre
  | Some j => exists e, pre !! j = Some e /\ AvailableScanCredits e = maxc /\ (0 < maxc)%Z /\
      Forall (fun e => AvailableScanCredits e <= maxc)%Z pre
  end.

Lemma pick_loop_spec lb pre best maxc :
  best_of pre best maxc -> exists maxc', best_of (pre ++ lb) (pick_loop (length pre) best maxc lb) maxc'.
Proof.
  revert pre best maxc. induction lb as [|e lb IH]; intros pre best maxc Hb; simpl; [rewrite app_nil_r; eauto|].
  replace (pre ++ e :: lb) with ((pre ++ [e]) ++ lb) by by rewrite <-app_assoc.
  replace (S (length pre)) with (length (pre ++ [e])) by (rewrite length_app; simpl; lia).
  rewrite !Z.gtb_ltb. destruct (Z.ltb_spec 0 (AvailableScanCredits e)) as [Hp|Hp]; rewrite ?andb_true_r, ?andb_false_r.
  - destruct (bool_decide (best = None) || (maxc <? AvailableScanCredits e)%Z) eqn:Hc.
    + apply IH. exists e. rewrite lookup_app_r, Nat.sub_diag by lia. split_and!; try done.
      apply Forall_app. split; [|by repeat constructor].
      destruct best as [j|]; simpl in Hb.
      * destruct Hb as (x & _ & _ & _ & Hall). simpl in Hc. apply Z.ltb_lt in Hc.
        eapply Forall_impl; [exact Hall|]. simpl. lia.
      * eapply Forall_impl; [exact Hb|]. simpl. lia.
    + apply orb_false_iff in Hc as [Hn Hlt]. apply Z.ltb_ge in Hlt. apply (IH _ _ maxc).
      destruct best as [j|]; [|done]. destruct Hb as (x & Hj & Hx & Hm & Hall). exists x.
      split_and!; [by apply lookup_app_l_Some|done|done|]. apply Forall_app. split; [done|by repeat constructor].
  - apply (IH _ _ maxc). destruct best as [j|]; simpl in *.
    + destruct Hb as (x & Hj & Hx & Hm & Hall). exists x.
      split_and!; [by apply lookup_app_l_Some|done|done|]. apply Forall_app. split; [done|]. repeat constructor. lia.
    + apply Forall_app. split; [done|by repeat constructor].
Qed.

(** A scanner with the most credits, if one has any. *)
Lemma PickLeastLoadedScanner_spec lb :
  match PickLeastLoadedScanner lb with
  | inr (s, lb') => exists l1 e l2, lb = l1 ++ e :: l2 /\ lb' = l1 ++ add_credit (-1) e :: l2 /\ s = Scanner e /\
      (0 < AvailableScanCredits e)%Z /\ Forall (fun x => AvailableScanCredits x <= AvailableScanCredits e)%Z lb
  | inl _ => Forall (fun e => AvailableScanCredits e <= 0)%Z lb
  end.
Proof.
  unfold PickLeastLoadedScanner. case_bool_decide as Hnil; [by rewrite Hnil|].
  destruct (pick_loop_spec lb [] None (-1)) as [maxc Hb]; [constructor|]. simpl in Hb.
  destruct (pick_loop 0 None (-1) lb) as [i|]; simpl in Hb; [|done].
  destruct Hb as (e & Hi & He & Hp & Hall). rewrite Hi. apply list_elem_of_split_length in Hi as (l1 & l2 & -> & ->).
  exists l1, e, l2. rewrite insert_app_r_alt, Nat.sub_diag by lia. rewrite He. done.
Qed.

(** ** Calls side by side *)

(** The calls that ask the pool for a scanner: [ScanImage] without one, which
    takes the client as it is, and [ScanPackage] and [ScanAwsLambdaFunc]. *)
Inductive pool_call := ImageCall | PackageCall.

Definition increments (k : pool_call) : bool := match k with ImageCall => false | PackageCall => true end.

(** Where a call is between two critical sections: with a token, with its
    scanner, in the remote call or in front of its deferred end, or, in
    [RemoveScanner], with tokens left to take. *)
Inductive call_state :=
| CToken (k : pool_call)
| CPicked (k : pool_call) (sid : string)
| CScan (t : scan_task)
| CDrain (n : nat).

Record scan_sys := { mgr : ScanCreditManager; calls : list call_state }.

(** What happens: a scanner comes or begins to go, a call takes a token, gets
    its scanner, gets its client, a call that names its scanner gets its
    client, a scan ends, a removal takes one token or is over. *)
Inductive scan_label :=
| LAdd (s : CLUSScanner) | LRemove (id : string)
| LToken (k : pool_call) | LPick | LClient (conn : bool) | LNamed (conn : bool) (id : string)
| LEnd | LDrain.

Inductive scan_step : scan_sys -> scan_label -> scan_sys -> Prop :=
| st_add s m cs :
    scan_step {| mgr := m; calls := cs |} (LAdd s) {| mgr := AddScanner s m; calls := cs |}
| st_remove id m n m' cs :
    RemoveScanner_unregister id m = Some (n, m') ->
    scan_step {| mgr := m; calls := cs |} (LRemove id) {| mgr := m'; calls := CDrain (Z.to_nat n) :: cs |}
| st_token k m n cs :
    creditPool m = S n ->
    scan_step {| mgr := m; calls := cs |} (LToken k) {| mgr := set_pool n m; calls := CToken k :: cs |}
| st_pick k m r m' l1 l2 :
    acquire_pick m = (r, m') ->
    scan_step {| mgr := m; calls := l1 ++ CToken k :: l2 |} LPick
      {| mgr := m'; calls := match r with inr sid => l1 ++ CPicked k sid :: l2 | inl _ => l1 ++ l2 end |}
| st_client conn k sid m ok m' l1 l2 :
    getScannerServiceClient conn sid (increments k) m = (ok, m') ->
    scan_step {| mgr := m; calls := l1 ++ CPicked k sid :: l2 |} (LClient conn)
      {| mgr := m'; calls := l1 ++ CScan (sid, true) :: l2 |}
| st_named conn id m ok m' cs :
    getScannerServiceClient conn id true m = (ok, m') ->
    scan_step {| mgr := m; calls := cs |} (LNamed conn id) {| mgr := m'; calls := CScan (id, false) :: cs |}
| st_end t m l1 l2 :
    scan_step {| mgr := m; calls := l1 ++ CScan t :: l2 |} LEnd {| mgr := end_scan t m; calls := l1 ++ l2 |}
| st_drain n m l1 l2 :
    scan_step {| mgr := m; calls := l1 ++ CDrain (S n) :: l2 |} LDrain
      {| mgr := drain_one m; calls := l1 ++ CDrain n :: l2 |}
| st_drained m l1 l2 :
    scan_step {| mgr := m; calls := l1 ++ CDrain 0 :: l2 |} LDrain {| mgr := m; calls := l1 ++ l2 |}.

Definition scan_sys0 (conns lbmax : nat) : scan_sys := {| mgr := NewScanCreditManager conns lbmax; calls := [] |}.

(** The calls that hold a scanner, those with a token and no scanner yet, the
    removals under way and the tokens they have left to take. *)
Definition holds (id : string) (c : call_state) : nat :=
  match c with
  | CPicked _ sid | CScan (sid, _) => if bool_decide (sid = id) then 1 else 0
  | CToken _ | CDrain _ => 0
  end.
Definition has_token (c : call_state) : nat := match c with CToken _ => 1 | _ => 0 end.
Definition removing (c : call_state) : nat := match c with CDrain _ => 1 | _ => 0 end.
Definition to_drain (c : call_state) : nat := match c with CDrain n => n | _ => 0 end.

Definition count (f : call_state -> nat) (cs : list call_state) : nat := foldr (fun c n => f c + n)%nat 0%nat cs.

Definition scans_on (id : string) (cs : list call_state) : nat := count (holds id) cs.

Definition ids (lb : ScannerLoadBalancer) : list string := (fun e => sc_ID (Scanner e)) <$> lb.

(** ** Scans that name no scanner

    The runs in which scans come through [ScanImage] without a scanner, a
    scanner comes under an identifier that is not in use while fewer than
    [lbmax] are registered or going, and no scan takes a token, or has one and
    no scanner yet, while a removal takes its tokens back. *)
Definition through_pool (lbmax : nat) (s : scan_sys) (l : scan_label) : Prop :=
  match l with
  | LAdd sc =>
      (sc_ID sc ∉ ids (scannerLoadBalancer (mgr s))) /\ scans_on (sc_ID sc) (calls s) = 0%nat /\
      (length (scannerLoadBalancer (mgr s)) + count removing (calls s) < lbmax)%nat
  | LRemove _ => count has_token (calls s) = 0%nat
  | LToken ImageCall => count to_drain (calls s) = 0%nat
  | LToken PackageCall | LNamed _ _ => False
  | LPick | LClient _ | LEnd | LDrain => True
  end.

Definition pool_step (lbmax : nat) (s s' : scan_sys) : Prop := exists l, scan_step s l s' /\ through_pool lbmax s l.

Definition total (lb : ScannerLoadBalancer) : Z := foldr (fun e n => AvailableScanCredits e + n)%Z 0%Z lb.

(** The credits of a scanner and the calls that hold it are its connections. *)
Definition balanced (conns : nat) (cs : list call_state) (e : ScannerEntry) : Prop :=
  (0 <= AvailableScanCredits e)%Z /\
  (AvailableScanCredits e + Z.of_nat (scans_on (sc_ID (Scanner e)) cs) = Z.of_nat conns)%Z.

Definition call_ok (conns : nat) (c : call_state) : Prop :=
  match c with
  | CToken k | CPicked k _ => k = ImageCall
  | CScan t => t.2 = true
  | CDrain n => (n <= conns)%nat
  end.

Record scan_inv (conns lbmax : nat) (s : scan_sys) : Prop := {
  si_conns : maxConns (mgr s) = conns;
  si_cap : poolCap (mgr s) = (lbmax * (conns + 1))%nat;
  si_calls : Forall (call_ok conns) (calls s);
  si_ids : NoDup (ids (scannerLoadBalancer (mgr s)));
  si_count : (length (scannerLoadBalancer (mgr s)) + count removing (calls s) <= lbmax)%nat;
  si_balanced : Forall (balanced conns (calls s)) (scannerLoadBalancer (mgr s));
  si_apart : count has_token (calls s) = 0%nat \/ count to_drain (calls s) = 0%nat;
  si_pool : (total (scannerLoadBalancer (mgr s)) + Z.of_nat (count to_drain (calls s)) <=
             Z.of_nat (creditPool (mgr s)) + Z.of_nat (count has_token (calls s)))%Z }.

Lemma total_app l1 l2 : total (l1 ++ l2) = (total l1 + total l2)%Z.
Proof. induction l1 as [|e l1 IH]; simpl; [done|]. rewrite IH. lia. Qed.

Lemma total_bound conns cs lb :
  Forall (balanced conns cs) lb -> (0 <= total lb <= Z.of_nat (length lb) * Z.of_nat conns)%Z.
Proof. induction 1 as [|e lb [H1 H2] _ IH]; simpl; lia. Qed.

Lemma count_app f l1 l2 : count f (l1 ++ l2) = (count f l1 + count f l2)%nat.
Proof. induction l1 as [|c l1 IH]; simpl; lia. Qed.

Lemma drain_bound conns cs : Forall (call_ok conns) cs -> (count to_drain cs <= count removing cs * conns)%nat.
Proof. induction 1 as [|c cs Hc _ IH]; simpl; [lia|]. destruct c; simpl in *; nia. Qed.

Lemma ids_app l1 l2 : ids (l1 ++ l2) = ids l1 ++ ids l2.
Proof. apply fmap_app. Qed.

Lemma ids_add_credit l1 d e l2 : ids (l1 ++ add_credit d e :: l2) = ids (l1 ++ e :: l2).
Proof. by rewrite !ids_app. Qed.

(** Calls that hold the same scanners leave the balance. *)
Lemma balanced_same conns cs cs' lb :
  (forall id, scans_on id cs' = scans_on id cs) -> Forall (balanced conns cs) lb -> Forall (balanced conns cs') lb.
Proof. intros H Hb. eapply Forall_impl; [exact Hb|]. intros e [H1 H2]. split; [done|]. by rewrite H. Qed.

(** Only the scanner at hand changes, since no other has its name. *)
Lemma balanced_others conns cs cs' l1 e l2 :
  NoDup (ids (l1 ++ e :: l2)) ->
  (forall id, id <> sc_ID (Scanner e) -> scans_on id cs' = scans_on id cs) ->
  Forall (balanced conns cs) (l1 ++ e :: l2) ->
  Forall (balanced conns cs') l1 /\ Forall (balanced conns cs') l2 /\ balanced conns cs e.
Proof.
  rewrite ids_app. intros Hnd Hts Hb. apply NoDup_app in Hnd as (_ & Hdis & Hnd2).
  apply NoDup_cons in Hnd2 as [Hni _]. apply Forall_app in Hb as [H1 H2]. apply Forall_cons in H2 as [He H2].
  assert (Hmove : forall l, sc_ID (Scanner e) ∉ ids l -> Forall (balanced conns cs) l -> Forall (balanced conns cs') l).
  { intros l Hl Hf. rewrite Forall_forall in Hf |- *. intros x Hx. destruct (Hf x Hx) as [Hp Hs].
    split; [done|]. rewrite Hts; [done|]. intros Heq. apply Hl. rewrite <-Heq. apply list_elem_of_fmap. eauto. }
  split_and!; [|by apply Hmove|done]. apply Hmove; [|done]. intros Hin. apply (Hdis _ Hin). by left.
Qed.

Lemma signal_fields m :
  maxConns (signalScanCredit m) = maxConns m /\ poolCap (signalScanCredit m) = poolCap m /\
  scannerLoadBalancer (signalScanCredit m) = scannerLoadBalancer m /\
  creditPool (signalScanCredit m) = Nat.min (Nat.max (poolCap m) (creditPool m)) (S (creditPool m)).
Proof. unfold signalScanCredit. destruct (Nat.ltb_spec (creditPool m) (poolCap m)); simpl; split_and!; try done; lia. Qed.

(** The end of a scan. *)
Lemma end_inv conns lbmax m l1 t l2 :
  scan_inv conns lbmax {| mgr := m; calls := l1 ++ CScan t :: l2 |} ->
  scan_inv conns lbmax {| mgr := end_scan t m; calls := l1 ++ l2 |}.
Proof.
  intros [Hc Hcap Hok Hnd Hcnt Hb Hap Hp]. simpl in *. rewrite !count_app in *. simpl in *.
  apply Forall_app in Hok as [Ho1 Ho2]. apply Forall_cons in Ho2 as [Ht Ho2]. destruct t as [sid acq].
  simpl in Ht. subst acq. unfold end_scan. cbn [fst snd]. unfold releaseScanCredit.
  assert (Hok : Forall (call_ok conns) (l1 ++ l2)) by by apply Forall_app.
  assert (Hother : forall id, id <> sid -> scans_on id (l1 ++ l2) = scans_on id (l1 ++ CScan (sid, true) :: l2)).
  { intros id Hne. unfold scans_on. rewrite !count_app. simpl. by rewrite bool_decide_eq_false_2 by done. }
  pose proof (ReleaseScanCredit_spec sid (scannerLoadBalancer m)) as Hs.
  destruct (ReleaseScanCredit sid (scannerLoadBalancer m)) as [lb'|].
  - destruct Hs as (k1 & e & k2 & Hlb & -> & He & _). rewrite Hlb in *. subst sid.
    destruct (balanced_others conns _ (l1 ++ l2) k1 e k2 Hnd Hother Hb) as (B1 & B2 & [Hpos Hsum]).
    assert (Hbal : Forall (balanced conns (l1 ++ l2)) (k1 ++ add_credit 1 e :: k2)).
    { apply Forall_app. split; [done|]. constructor; [|done]. unfold balanced, add_credit. simpl. split; [lia|].
      unfold scans_on in *. rewrite count_app in *. simpl in Hsum. rewrite bool_decide_eq_true_2 in Hsum by done. lia. }
    assert (Hlen : length (k1 ++ add_credit 1 e :: k2) = length (k1 ++ e :: k2)) by by rewrite !length_app.
    destruct (signal_fields (set_lb (k1 ++ add_credit 1 e :: k2) m)) as (E1 & E2 & E3 & E4).
    pose proof (total_bound _ _ _ Hbal) as Hbd. pose proof (drain_bound _ _ Hok) as Hdb.
    split; simpl; rewrite ?E1, ?E2, ?E3, ?count_app; simpl; try done.
    + by rewrite ids_add_credit.
    + by rewrite Hlen.
    + rewrite E4. simpl. rewrite Hcap, Hlen, !count_app in *. rewrite total_app in *. simpl in *. nia.
  - split; simpl; rewrite ?count_app; try done. rewrite Forall_forall in Hb, Hs |- *.
    intros e He. destruct (Hb e He) as [H1 H2]. split; [done|]. rewrite Hother by auto. done.
Qed.

(** A scanner is chosen for a call with a token, or none has a credit. *)
Lemma pick_inv conns lbmax m k l1 l2 r m' :
  scan_inv conns lbmax {| mgr := m; calls := l1 ++ CToken k :: l2 |} -> acquire_pick m = (r, m') ->
  scan_inv conns lbmax
    {| mgr := m'; calls := match r with inr sid => l1 ++ CPicked k sid :: l2 | inl _ => l1 ++ l2 end |}.
Proof.
  intros [Hc Hcap Hok Hnd Hcnt Hb Hap Hp] Ha. simpl in *. unfold acquire_pick in Ha. rewrite !count_app in *. simpl in *.
  assert (Hnone : (count to_drain l1 + count to_drain l2 = 0)%nat) by lia.
  apply Forall_app in Hok as [Ho1 Ho2]. apply Forall_cons in Ho2 as [Hk Ho2].
  pose proof (PickLeastLoadedScanner_spec (scannerLoadBalancer m)) as Hs.
  destruct (PickLeastLoadedScanner (scannerLoadBalancer m)) as [err|[s lb']]; injection Ha as <- <-.
  - split; simpl; rewrite ?count_app; try done; [by apply Forall_app| |by right|].
    + eapply balanced_same; [|exact Hb]. intros id. unfold scans_on. by rewrite !count_app.
    + assert (total (scannerLoadBalancer m) = 0%Z); [|lia]. clear -Hs Hb.
      induction Hb as [|e lb [H1 _] _ IH]; [done|]. apply Forall_cons in Hs as [He Hs]. simpl. rewrite IH by done. lia.
  - destruct Hs as (k1 & e & k2 & Hlb & -> & -> & Hpos & _). rewrite Hlb in *.
    set (sid := sc_ID (Scanner e)) in *.
    assert (Hother : forall id, id <> sid -> scans_on id (l1 ++ CPicked k sid :: l2) = scans_on id (l1 ++ CToken k :: l2)).
    { intros id Hne. unfold scans_on. rewrite !count_app. simpl. by rewrite bool_decide_eq_false_2 by done. }
    destruct (balanced_others conns _ _ k1 e k2 Hnd Hother Hb) as (B1 & B2 & [_ Hsum]).
    split; simpl; rewrite ?count_app; simpl; try done.
    + apply Forall_app. split; [done|by constructor].
    + by rewrite ids_add_credit.
    + rewrite length_app in *. simpl in *. lia.
    + apply Forall_app. split; [done|]. constructor; [|done]. unfold balanced, add_credit. simpl. split; [lia|].
      fold sid. fold sid in Hsum. unfold scans_on in Hsum |- *. rewrite count_app in Hsum |- *. simpl in Hsum |- *.
      rewrite bool_decide_eq_true_2 by done. lia.
    + by right.
    + rewrite total_app in *. simpl in *. lia.
Qed.

Lemma iter_signal n m :
  let m' := Nat.iter n signalScanCredit m in
  maxConns m' = maxConns m /\ poolCap m' = poolCap m /\ scannerLoadBalancer m' = scannerLoadBalancer m /\
  (Nat.min (poolCap m) (creditPool m + n) <= creditPool m')%nat.
Proof.
  induction n as [|n (H1 & H2 & H3 & H4)]; simpl; [split_and!; try done; lia|].
  destruct (signal_fields (Nat.iter n signalScanCredit m)) as (-> & -> & -> & ->). split_and!; try done; lia.
Qed.

Lemma add_inv conns lbmax s m cs :
  through_pool lbmax {| mgr := m; calls := cs |} (LAdd s) ->
  scan_inv conns lbmax {| mgr := m; calls := cs |} -> scan_inv conns lbmax {| mgr := AddScanner s m; calls := cs |}.
Proof.
  intros (Hni & Hno & Hlt) [Hc Hcap Hok Hnd Hcnt Hb Hap Hp]. simpl in *. unfold AddScanner.
  destruct (iter_signal (maxConns m) (set_lb (RegisterScanner s (Z.of_nat (maxConns m)) (scannerLoadBalancer m)) m))
    as (E1 & E2 & E3 & E4).
  set (m' := Nat.iter _ _ _) in *. unfold RegisterScanner in *. simpl in *.
  assert (Hbal : Forall (balanced conns cs) (scannerLoadBalancer m ++ [{| Scanner := s; AvailableScanCredits := Z.of_nat (maxConns m) |}])).
  { apply Forall_app. split; [done|]. repeat constructor; simpl; [lia|]. rewrite Hno, Hc. lia. }
  pose proof (drain_bound _ _ Hok).
  split; simpl; rewrite ?E1, ?E2, ?E3; simpl; try done.
  - rewrite ids_app. apply NoDup_app. split_and!; [done| |apply NoDup_singleton]. set_solver.
  - rewrite length_app. simpl. lia.
  - pose proof (total_bound _ _ _ Hbal) as Hbd. rewrite total_app, length_app in *. simpl in *. nia.
Qed.

Lemma remove_inv conns lbmax id m n m' cs :
  RemoveScanner_unregister id m = Some (n, m') -> count has_token cs = 0%nat ->
  scan_inv conns lbmax {| mgr := m; calls := cs |} ->
  scan_inv conns lbmax {| mgr := m'; calls := CDrain (Z.to_nat n) :: cs |}.
Proof.
  intros Hr Htok [Hc Hcap Hok Hnd Hcnt Hb Hap Hp]. simpl in *. unfold RemoveScanner_unregister in Hr.
  pose proof (UnregisterScanner_spec id (scannerLoadBalancer m)) as Hs.
  destruct (UnregisterScanner id (scannerLoadBalancer m)) as [[e lb']|]; [|done]. cbn in Hr. injection Hr as <- <-.
  destruct Hs as (l1 & l2 & Hlb & -> & _). rewrite Hlb in *. rewrite ids_app in Hnd.
  apply Forall_app in Hb as [B1 B2]. apply Forall_cons in B2 as [[He He2] B2].
  split; simpl; try done.
  - constructor; [simpl; lia|done].
  - rewrite ids_app. apply NoDup_app in Hnd as (N1 & Hd & N2). apply NoDup_cons in N2 as [_ N2].
    apply NoDup_app. split_and!; [done| |done]. intros x Hx Hx2. apply (Hd x Hx). by right.
  - rewrite length_app in *. simpl in *. lia.
  - apply Forall_app. by split.
  - by left.
  - rewrite total_app in *. simpl in *. lia.
Qed.

Lemma drain_inv conns lbmax n m l1 l2 :
  scan_inv conns lbmax {| mgr := m; calls := l1 ++ CDrain (S n) :: l2 |} ->
  scan_inv conns lbmax {| mgr := drain_one m; calls := l1 ++ CDrain n :: l2 |}.
Proof.
  intros [Hc Hcap Hok Hnd Hcnt Hb Hap Hp]. simpl in *. rewrite !count_app in *. simpl in *.
  apply Forall_app in Hok as [Ho1 Ho2]. apply Forall_cons in Ho2 as [Hn Ho2]. simpl in Hn.
  pose proof (total_bound _ _ _ Hb).
  split; simpl; rewrite ?count_app; simpl; try done.
  - apply Forall_app. split; [done|]. constructor; [simpl; lia|done].
  - eapply balanced_same; [|exact Hb]. intros id. unfold scans_on. by rewrite !count_app.
  - left. lia.
  - lia.
Qed.

Lemma pool_step_inv conns lbmax s s' : pool_step lbmax s s' -> scan_inv conns lbmax s -> scan_inv conns lbmax s'.
Proof.
  intros (l & Hs & Hl) Hinv.
  destruct Hs as [s m cs|id m n m' cs Hr|k m n cs Hn|k m r m' l1 l2 Ha|conn k sid m ok m' l1 l2 Hg|conn id m ok m' cs Hg
    |t m l1 l2|n m l1 l2|m l1 l2].
  - by apply add_inv.
  - by eapply remove_inv.
  - destruct k; [|done]. destruct Hinv as [Hc Hcap Hok Hnd Hcnt Hb Hap Hp]. simpl in *.
    split; simpl; try done; [by constructor|by right|]. lia.
  - by eapply pick_inv.
  - destruct Hinv as [Hc Hcap Hok Hnd Hcnt Hb Hap Hp]. simpl in *. rewrite !count_app in *. simpl in *.
    apply Forall_app in Hok as [Ho1 Ho2]. apply Forall_cons in Ho2 as [Hk Ho2]. simpl in Hk. subst k.
    assert (m' = m) as ->.
    { unfold getScannerServiceClient in Hg. destruct (GetScanner sid (scannerLoadBalancer m)); [destruct conn|];
        by injection Hg as <- <-. }
    split; simpl; rewrite ?count_app; simpl; try done; [apply Forall_app; split; [done|by constructor]|].
    eapply balanced_same; [|exact Hb]. intros id. unfold scans_on. by rewrite !count_app.
  - done.
  - by apply end_inv.
  - by apply drain_inv.
  - destruct Hinv as [Hc Hcap Hok Hnd Hcnt Hb Hap Hp]. simpl in *. rewrite !count_app in *. simpl in *.
    apply Forall_app in Hok as [Ho1 Ho2]. apply Forall_cons in Ho2 as [_ Ho2].
    split; simpl; rewrite ?count_app; try done; [by apply Forall_app|lia|].
    eapply balanced_same; [|exact Hb]. intros id. unfold scans_on. by rewrite !count_app.
Qed.

Lemma scan_sys0_inv conns lbmax : scan_inv conns lbmax (scan_sys0 conns lbmax).
Proof. split; simpl; try done; [apply NoDup_nil; done|lia|by left]. Qed.

(** C14: take the calls of scanner.go side by side, interleaved wherever they
    do not hold the lock, in a run in which scans come through [ScanImage]
    without a scanner (the other calls add credits to a scanner); a scanner
    registers under an identifier that is neither registered nor held by a
    scan, while fewer than [lbmax] scanners are registered or being removed;
    and a removal neither begins while a scan is between its token and its
    choice, nor has tokens left to take when a scan takes one.  Then at most
    [maxConns] scans hold a scanner at a time; and, when no other scan is
    between its token and its choice, a scan that asks does not wait while a
    registered scanner is held by fewer, but gets one held by the fewest. *)
Theorem pool_scans_served conns lbmax s :
  rtc (pool_step lbmax) (scan_sys0 conns lbmax) s ->
  let lb := scannerLoadBalancer (mgr s) in
  let load e := scans_on (sc_ID (Scanner e)) (calls s) in
  Forall (fun e => (load e <= conns)%nat) lb /\
  (count has_token (calls s) = 0%nat -> Exists (fun e => (load e < conns)%nat) lb ->
   exists e m', acquireScanCredit (mgr s) = Some (inr (sc_ID (Scanner e)), m') /\ e ∈ lb /\
     Forall (fun e' => (load e <= load e')%nat) lb).
Proof.
  intros Hs. assert (Hinv : scan_inv conns lbmax s).
  { revert Hs. apply (rtc_invariant (pool_step lbmax) (scan_inv conns lbmax)); [intros ? ?; apply pool_step_inv|apply scan_sys0_inv]. }
  destruct Hinv as [Hc Hcap Ht Hnd Hcnt Hb Hap Hp]. intros lb load. fold lb in Hb, Hp.
  assert (Hload : forall e, e ∈ lb -> (AvailableScanCredits e = Z.of_nat conns - Z.of_nat (load e))%Z /\ (load e <= conns)%nat).
  { intros e He. rewrite Forall_forall in Hb. destruct (Hb e He) as [H1 H2]. fold (load e) in H2. lia. }
  split; [apply Forall_forall; intros e He; by apply Hload|].
  intros Htok (e & He & Hlt)%Exists_exists. destruct (Hload e He) as [Hcr _].
  assert (Hpos : (0 < total lb)%Z).
  { clear -Hb He Hcr Hlt. apply list_elem_of_split in He as (l1 & l2 & Heq). rewrite Heq in *.
    apply Forall_app in Hb as [B1 B2]. apply Forall_cons in B2 as [_ B2].
    pose proof (total_bound _ _ _ B1). pose proof (total_bound _ _ _ B2). rewrite total_app. simpl. lia. }
  unfold acquireScanCredit. destruct (creditPool (mgr s)) as [|n]; [lia|]. unfold acquire_pick.
  cbn [scannerLoadBalancer set_pool]. fold lb.
  pose proof (PickLeastLoadedScanner_spec lb) as Hpick. destruct (PickLeastLoadedScanner lb) as [err|[sc lb']].
  - rewrite Forall_forall in Hpick. specialize (Hpick e He). simpl in Hpick. lia.
  - destruct Hpick as (l1 & x & l2 & Hlb & -> & -> & Hx & Hmax). exists x. eexists. split; [reflexivity|].
    assert (Hin : x ∈ lb) by (rewrite Hlb; set_solver). split; [done|].
    rewrite Forall_forall in Hmax |- *. intros y Hy. specialize (Hmax y Hy). simpl in Hmax.
    destruct (Hload x Hin), (Hload y Hy). lia.
Qed.

(** The steps of [ScanImage] without a scanner and of [ScanPackage], with no
    other call in between, do what the functions do. *)
Lemma begin_acquired_steps k conn m r m' cs :
  begin_acquired conn (increments k) m = Some (r, m') ->
  rtc (fun s s' => exists l, scan_step s l s') {| mgr := m; calls := cs |}
    {| mgr := m'; calls := (CScan <$> option_list r) ++ cs |}.
Proof.
  unfold begin_acquired, acquireScanCredit. destruct (creditPool m) as [|n] eqn:Hn; [done|].
  cbn [mbind option_bind]. intros Hb. eapply rtc_l; [eexists; by apply (st_token k)|].
  destruct (acquire_pick (set_pool n m)) as [[err|sid] m1] eqn:Hp.
  { injection Hb as <- <-. apply rtc_once. eexists. by apply (st_pick k _ (inl err) m1 [] cs). }
  eapply rtc_l; [eexists; by apply (st_pick k _ (inr sid) m1 [] cs)|]. cbn [app].
  unfold begin_with in Hb. cbn [fst] in Hb.
  destruct (getScannerServiceClient conn sid (increments k) m1) as [ok m2] eqn:Hg.
  eapply rtc_l; [eexists; by apply (st_client conn k sid m1 ok m2 [] cs)|]. cbn [app].
  destruct ok; injection Hb as <- <-; [apply rtc_refl|]. apply rtc_once. eexists. by apply (st_end (sid, true) m2 [] cs).
Qed.

(** Two scanners of one connection each: the second scan goes to the free
    one. *)
Definition ex_scanner (id : string) : CLUSScanner := {| sc_ID := id; sc_RPCServer := "10.0.0.1"; sc_RPCServerPort := 18402 |}.

Definition ex_scans : scan_sys :=
  let m := AddScanner (ex_scanner "b") (AddScanner (ex_scanner "a") (NewScanCreditManager 1 2)) in
  match ScanImage true "" m with
  | Some (r, m') => {| mgr := m'; calls := CScan <$> option_list r |}
  | None => scan_sys0 1 2
  end.

Lemma pool_scans_served_witness :
  calls ex_scans = [CScan ("a", true)] /\
  exists e m', acquireScanCredit (mgr ex_scans) = Some (inr (sc_ID (Scanner e)), m') /\ sc_ID (Scanner e) = "b".
Proof.
  split; [reflexivity|].
  destruct (pool_scans_served 1 2 ex_scans) as [_ Hserve].
  - eapply rtc_l; [exists (LAdd (ex_scanner "a")); split; [apply st_add|split_and!; [vm_decide|reflexivity|vm_decide]]|].
    eapply rtc_l; [exists (LAdd (ex_scanner "b")); split; [apply st_add|split_and!; [vm_decide|reflexivity|vm_decide]]|].
    eapply rtc_l; [exists (LToken ImageCall); split; [by apply st_token|reflexivity]|].
    eapply rtc_l; [exists LPick; split; [eapply (st_pick ImageCall _ _ _ [] []); reflexivity|done]|].
    eapply rtc_l; [exists (LClient true); split; [eapply (st_client true ImageCall "a" _ _ _ [] []); reflexivity|done]|].
    apply rtc_refl.
  - destruct Hserve as (e & m' & Ha & He & Hmin); [reflexivity|right; left; vm_decide|].
    exists e, m'. split; [exact Ha|]. rewrite Forall_forall in Hmin.
    assert (Hb : {| Scanner := ex_scanner "b"; AvailableScanCredits := 1 |} ∈ scannerLoadBalancer (mgr ex_scans)) by (right; by left).
    specialize (Hmin _ Hb). apply elem_of_cons in He as [->|He]; [vm_compute in Hmin; lia|].
    apply list_elem_of_singleton in He as ->. reflexivity.
Defined.

(** ** Scans that name their scanner

    [getScannerServiceClient] counted the scans of a scanner before it counted
    its credits, and still adds one; the end of the scan adds another. *)

Definition credits_of (id : string) (m : ScanCreditManager) : option Z :=
  AvailableScanCredits <$> GetScanner id (scannerLoadBalancer m).

(** The scanner has [d] credits more, the others and the tokens are as they
    were. *)
Record gained (id : string) (d : Z) (m m' : ScanCreditManager) : Prop := {
  ga_pool : creditPool m' = creditPool m;
  ga_list : exists l1 e l2, scannerLoadBalancer m = l1 ++ e :: l2 /\ scannerLoadBalancer m' = l1 ++ add_credit d e :: l2 /\
    sc_ID (Scanner e) = id /\ Forall (fun x => sc_ID (Scanner x) <> id) l1 }.

Lemma release_gained id lb m :
  ReleaseScanCredit id (scannerLoadBalancer m) = Some lb -> gained id 1 m (set_lb lb m).
Proof.
  intros Hr. split; [done|]. pose proof (ReleaseScanCredit_spec id (scannerLoadBalancer m)) as Hs. by rewrite Hr in Hs.
Qed.

Lemma add_credit_twice d d' e : add_credit d' (add_credit d e) = add_credit (d + d') e.
Proof. unfold add_credit. simpl. by rewrite Z.add_assoc. Qed.

(** A prefix without the identifier is the one before its first entry. *)
Lemma first_entry_unique id (l1 l2 k1 k2 : ScannerLoadBalancer) (e x : ScannerEntry) :
  l1 ++ e :: l2 = k1 ++ x :: k2 -> sc_ID (Scanner e) = id -> sc_ID (Scanner x) = id ->
  Forall (fun y => sc_ID (Scanner y) <> id) l1 -> Forall (fun y => sc_ID (Scanner y) <> id) k1 ->
  l1 = k1 /\ e = x /\ l2 = k2.
Proof.
  revert k1. induction l1 as [|a l1 IH]; intros [|b k1] Heq He Hx H1 H2; simplify_eq/=.
  - done.
  - by apply Forall_cons in H2 as [? _].
  - by apply Forall_cons in H1 as [? _].
  - apply Forall_cons in H1 as [_ H1]. apply Forall_cons in H2 as [_ H2].
    destruct (IH k1) as (-> & -> & ->); done.
Qed.

Lemma gained_trans id d d' m1 m2 m3 : gained id d m1 m2 -> gained id d' m2 m3 -> gained id (d + d') m1 m3.
Proof.
  intros [P1 (l1 & e & l2 & H1 & H2 & He & Hl)] [P2 (k1 & x & k2 & H3 & H4 & Hx & Hk)].
  split; [congruence|]. rewrite H2 in H3.
  destruct (first_entry_unique id l1 l2 k1 k2 (add_credit d e) x H3 He Hx Hl Hk) as (<- & <- & <-).
  exists l1, e, l2. by rewrite H4, add_credit_twice.
Qed.

Lemma GetScanner_split id lb e :
  GetScanner id lb = Some e -> exists l1 l2, lb = l1 ++ e :: l2 /\ sc_ID (Scanner e) = id /\
    Forall (fun x => sc_ID (Scanner x) <> id) l1.
Proof.
  unfold GetScanner. induction lb as [|x lb IH]; [done|]. simpl. unfold entry_is at 1. case_bool_decide as Hx.
  - intros [= <-]. by exists [], lb.
  - intros (l1 & l2 & -> & He & Hl)%IH. exists (x :: l1), l2. split_and!; [done..|]. by constructor.
Qed.

Lemma GetScanner_prefix id l1 e l2 :
  sc_ID (Scanner e) = id -> Forall (fun x => sc_ID (Scanner x) <> id) l1 -> GetScanner id (l1 ++ e :: l2) = Some e.
Proof.
  intros He. unfold GetScanner. induction 1 as [|x l1 Hx _ IH]; simpl; unfold entry_is at 1.
  - by rewrite bool_decide_eq_true_2.
  - by rewrite bool_decide_eq_false_2.
Qed.

Lemma gained_credits id d m m' c : gained id d m m' -> credits_of id m = Some c -> credits_of id m' = Some (c + d)%Z.
Proof.
  intros [_ (l1 & e & l2 & H1 & H2 & He & Hl)]. unfold credits_of. rewrite H1, H2.
  rewrite !GetScanner_prefix by done. simpl. by intros [= <-].
Qed.

Lemma credits_release id m c :
  credits_of id m = Some c -> exists lb, ReleaseScanCredit id (scannerLoadBalancer m) = Some lb.
Proof.
  unfold credits_of. destruct (GetScanner id (scannerLoadBalancer m)) as [e|] eqn:Hg; [|done]. intros _.
  apply GetScanner_split in Hg as (l1 & l2 & Hlb & He & _).
  pose proof (ReleaseScanCredit_spec id (scannerLoadBalancer m)) as Hs.
  destruct (ReleaseScanCredit id (scannerLoadBalancer m)) as [lb|]; [eauto|]. exfalso.
  rewrite Hlb, Forall_forall in Hs. by apply (Hs e); [set_solver|].
Qed.

(** The calls that name their scanner; [ep] is whether the endpoint of the
    enforcer is known. *)
Inductive named_call := NamedPlatform | NamedCacheStat | NamedCacheData | NamedRunning (ep : bool) | NamedImage.

Definition begin_named (k : named_call) (conn : bool) (scanner : string) (m : ScanCreditManager)
  : option (option scan_task * ScanCreditManager) :=
  match k with
  | NamedPlatform => Some (ScanPlatform conn scanner m)
  | NamedCacheStat => Some (ScanCacheGetStat conn scanner m)
  | NamedCacheData => Some (ScanCacheGetData conn scanner m)
  | NamedRunning ep => Some (ScanRunning ep conn scanner m)
  | NamedImage => ScanImage conn scanner m
  end.

(** A whole call; [conn] is whether the scanner was reached. *)
Definition whole_scan (scanner : string) (m : ScanCreditManager) (k : named_call * bool) : ScanCreditManager :=
  match begin_named k.1 k.2 scanner m with
  | Some (Some t, m) => end_scan t m
  | Some (None, m) => m
  | None => m
  end.

(** The credits that a call leaves behind. *)
Definition left_behind (k : named_call * bool) : Z :=
  match k with (NamedRunning false, _) => 0 | (_, conn) => if conn : bool then 2 else 1 end.

Lemma begin_named_with k conn id m :
  id <> "" -> begin_named k conn id m =
    Some (if k is NamedRunning false then (None, m) else begin_with conn true (id, false) m).
Proof.
  intros Hid. destruct k as [| | |[]|]; try done. cbn [begin_named]. unfold ScanImage.
  by rewrite bool_decide_eq_false_2.
Qed.

Lemma gained_none id m c : credits_of id m = Some c -> gained id 0 m m.
Proof.
  intros Hc. split; [done|]. unfold credits_of in Hc.
  destruct (GetScanner id (scannerLoadBalancer m)) as [e|] eqn:Hg; [|done].
  apply GetScanner_split in Hg as (l1 & l2 & Hlb & He & Hl). exists l1, e, l2. split_and!; try done.
  rewrite Hlb. f_equal. f_equal. destruct e. unfold add_credit. simpl. by rewrite Z.add_0_r.
Qed.

Lemma begin_with_gained id m c (conn : bool) :
  credits_of id m = Some c ->
  gained id (if conn then 2 else 1) m
    match begin_with conn true (id, false) m with (Some t, m) => end_scan t m | (None, m) => m end.
Proof.
  intros Hc. unfold begin_with, getScannerServiceClient. cbn [fst].
  destruct (credits_release id m c Hc) as [lb Hl].
  assert (exists e, GetScanner id (scannerLoadBalancer m) = Some e) as [e ->].
  { unfold credits_of in Hc. destruct (GetScanner id (scannerLoadBalancer m)); [eauto|done]. }
  pose proof (release_gained id lb m Hl) as G1. destruct conn.
  - rewrite Hl. simpl default. unfold end_scan, decScanningCount. cbn [fst snd].
    destruct (credits_release id (set_lb lb m) (c + 1)) as [lb' Hl']; [by eapply gained_credits|].
    rewrite Hl'. by apply (gained_trans id 1 1 _ _ _ G1), release_gained.
  - unfold end_scan, decScanningCount. cbn [fst snd]. by rewrite Hl.
Qed.

Lemma whole_scan_gained id m c k :
  id <> "" -> credits_of id m = Some c -> gained id (left_behind k) m (whole_scan id m k).
Proof.
  intros Hid Hc. destruct k as [k conn]. unfold whole_scan. rewrite begin_named_with by done. cbn [fst snd].
  pose proof (begin_with_gained id m c conn Hc) as G. destruct k as [| | |[]|]; try exact G.
  by eapply gained_none.
Qed.

Definition gain (ks : list (named_call * bool)) : Z := foldr (fun k n => left_behind k + n)%Z 0%Z ks.

Lemma whole_scans_gained id ks m c :
  id <> "" -> credits_of id m = Some c -> gained id (gain ks) m (foldl (whole_scan id) m ks).
Proof.
  intros Hid. revert m c. induction ks as [|k ks IH]; intros m c Hc; cbn [foldl gain foldr].
  - by eapply gained_none.
  - pose proof (whole_scan_gained id m c k Hid Hc) as G. eapply gained_trans; [exact G|].
    eapply IH. by eapply gained_credits.
Qed.

Lemma gained_other id id' d m m' : id' <> id -> gained id d m m' -> credits_of id' m' = credits_of id' m.
Proof.
  intros Hne [_ (l1 & e & l2 & H1 & H2 & He & Hl)]. unfold credits_of, GetScanner. rewrite H1, H2. f_equal.
  clear -Hne He. induction l1 as [|x l1 IH]; cbn [app List.find].
  - unfold entry_is. simpl. by rewrite bool_decide_eq_false_2 by congruence.
  - by destruct (entry_is id' x).
Qed.

(** A scanner with more credits than any other is chosen. *)
Lemma gained_picked id d m m' c :
  gained id d m m' -> credits_of id m = Some c -> (0 < c + d)%Z -> (0 < creditPool m)%nat ->
  Forall (fun e => sc_ID (Scanner e) <> id -> (AvailableScanCredits e < c + d)%Z) (scannerLoadBalancer m) ->
  exists m'', acquireScanCredit m' = Some (inr id, m'').
Proof.
  intros [Hp (l1 & e & l2 & H1 & H2 & He & Hl)] Hc Hpos Hpool Hless.
  assert (AvailableScanCredits e = c) as Hec.
  { unfold credits_of in Hc. rewrite H1, GetScanner_prefix in Hc by done. by injection Hc. }
  unfold acquireScanCredit. rewrite Hp. destruct (creditPool m) as [|n]; [lia|]. unfold acquire_pick.
  cbn [scannerLoadBalancer set_pool]. pose proof (PickLeastLoadedScanner_spec (scannerLoadBalancer m')) as Hpick.
  rewrite H2 in Hpick |- *. destruct (PickLeastLoadedScanner _) as [err|[sc lb']].
  - apply Forall_app in Hpick as [_ Hx]. apply Forall_cons in Hx as [Hx _]. simpl in Hx. lia.
  - destruct Hpick as (k1 & x & k2 & Hlb & _ & -> & _ & Hmax). eexists. repeat f_equal.
    destruct (decide (sc_ID (Scanner x) = id)) as [|Hne]; [done|]. exfalso.
    assert (Hin : x ∈ l1 ++ e :: l2).
    { assert (x ∈ l1 ++ add_credit d e :: l2) as Hx by (rewrite Hlb; set_solver).
      rewrite elem_of_app, elem_of_cons in Hx |- *. destruct Hx as [?|[-> |?]]; [by left| |by right; right].
      by destruct Hne. }
    rewrite H1, Forall_forall in Hless. specialize (Hless x Hin Hne).
    apply Forall_app in Hmax as [_ Hx]. apply Forall_cons in Hx as [Hx _]. simpl in Hx. lia.
Qed.

(** C40: scans that name their scanner (of the platform, of a running
    workload, of a scanner's cache, or of an image) do not take a credit but
    leave some behind: after any number of them, one after the other, a
    registered scanner, whose name is not empty, has two credits more for each
    in which it was reached, one more for each in which it was not, and none
    more for one of a running workload whose enforcer has no known endpoint;
    no token was added for them, and the other scanners are unchanged.  So,
    when the scanner has then a credit and more of them than any other, the
    next scan that finds a token in the pool goes to it, whatever the number
    of scans it runs. *)
Theorem named_scans_add_credits (ks : list (named_call * bool)) (id : string) (m : ScanCreditManager) (c : Z) :
  id <> "" -> credits_of id m = Some c ->
  let m' := foldl (whole_scan id) m ks in
  credits_of id m' = Some (c + gain ks)%Z /\ creditPool m' = creditPool m /\
  (forall id', id' <> id -> credits_of id' m' = credits_of id' m) /\
  ((0 < c + gain ks)%Z -> (0 < creditPool m)%nat ->
   Forall (fun e => sc_ID (Scanner e) <> id -> (AvailableScanCredits e < c + gain ks)%Z) (scannerLoadBalancer m) ->
   exists m'', acquireScanCredit m' = Some (inr id, m'')).
Proof.
  intros Hid Hc m'. pose proof (whole_scans_gained id ks m c Hid Hc) as G. fold m' in G.
  pose proof (gained_credits _ _ _ _ _ G Hc) as Hc'. split; [done|]. split; [apply G|].
  split; [intros id' Hne; by eapply gained_other|]. intros Hpos Hpool Hless.
  by eapply (gained_picked id (gain ks) m m').
Qed.

(** Two scanners of one connection each: after a scan of the platform by
    [b], one of an image that did not reach it, and one of a workload whose
    enforcer is not known, it has four credits and is chosen before [a]. *)
Lemma named_scans_add_credits_witness :
  let m := AddScanner (ex_scanner "b") (AddScanner (ex_scanner "a") (NewScanCreditManager 1 2)) in
  let m' := foldl (whole_scan "b") m [(NamedPlatform, true); (NamedImage, false); (NamedRunning false, true)] in
  credits_of "b" m = Some 1%Z /\ credits_of "b" m' = Some 4%Z /\ exists m'', acquireScanCredit m' = Some (inr "b", m'').
Proof.
  intros m m'. destruct (named_scans_add_credits [(NamedPlatform, true); (NamedImage, false); (NamedRunning false, true)] "b" m 1)
    as (H1 & _ & _ & H4); [discriminate|reflexivity|].
  split; [reflexivity|]. split; [exact H1|]. apply H4; [reflexivity|vm_compute; lia|].
  repeat constructor; vm_compute; congruence.
Defined.

(** A scan of packages gives back one credit more than it took. *)
Example package_scan_adds_credit :
  let m := AddScanner (ex_scanner "a") (NewScanCreditManager 1 2) in
  match ScanPackage true m with
  | Some (Some t, m') => credits_of "a" (end_scan t m') = Some 2%Z
  | _ => False
  end.
Proof. reflexivity. Qed.

(** A scanner with nothing to do is counted as busy, and one that can take no
    more as idle. *)
Example busy_and_idle_swapped :
  let m := AddScanner (ex_scanner "a") (NewScanCreditManager 1 2) in
  CountScanners m = (1, 0)%nat /\
  match ScanImage true "" m with Some (_, m') => CountScanners m' = (0, 1)%nat | None => False end.
Proof. split; reflexivity. Qed.

(** A scan that takes the token of a scanner being removed, before its tokens
    are drained, leaves a free scanner without a token: the scan waits. *)
Example removal_loses_a_token :
  let m := AddScanner (ex_scanner "a") (NewScanCreditManager 1 2) in
  match RemoveScanner_unregister "a" m with
  | Some (n, m1) =>
      match acquireScanCredit m1 with
      | Some (_, m2) =>
          let m3 := RemoveScanner_drain n (AddScanner (ex_scanner "b") m2) in
          credits_of "b" m3 = Some 1%Z /\ acquireScanCredit m3 = None
      | None => False
      end
  | None => False
  end.
Proof. split; reflexivity. Qed.
